(* ===== verification/_CoqProject ===== *)
-Q . S2P
Prelude.v
RustStr.v
SeekSequence.v
PatchSyntax.v
Replacements.v
StreamingParser.v
PatchParser.v
ApplyPatch.v
Invocation.v
StreamText.v
InlineTags.v
TaggedLines.v
AssistantText.v
Utf8.v
Utf8Stream.v
HeadTailBuffer.v
Truncate.v
Template.v
ResponseItems.v
Normalize.v
History.v
Host.v
Json.v
Candidate.v
Semgrep.v
Config.v
Triage.v
Verdict.v
ShellScript.v
CommandSafety.v
AbsPath.v
ExecPolicy.v
Requirements.v
Amend.v
IpAddr.v
NetworkPolicy.v
NetworkConfig.v
MitmHook.v
NetworkState.v
NetworkProxy.v
Profile.v
Approval.v
GitSafety.v
Permissions.v
SandboxPolicies.v
PolicyTransforms.v
PatchSafety.v
ToolApproval.v
Orchestrator.v
Runtimes.v
NetworkApproval.v
ApprovalTasks.v
ApprovalSafety.v
TurnDiff.v
AppShell.v
