(* ===== verification/Prelude.v ===== *)
(** * A verification library for GloScope

    GloScope is a fork of the Codex agent that finds and repairs
    vulnerabilities.  Its own code is a set of tools the agent calls
    ([codex-rs/ext/gloscope-tools]), their configuration
    ([codex-rs/gloscope-config]), a gate that keeps repairs off protected
    branches ([codex-rs/core/src/tools/git_safety.rs]) and a desktop shell; the
    repairs themselves go through Codex's patch engine
    ([codex-rs/apply-patch]), and the commands the agent runs are judged by its
    execution policy ([codex-rs/execpolicy], [codex-rs/shell-command],
    [codex-rs/core/src/exec_policy.rs]).  Of the agent itself it relies on the
    conversation history ([codex-rs/core/src/context_manager]), the parsers of
    streamed text ([codex-rs/utils/stream-parser]), the capped buffers and the
    truncation of command output, and prompt templates; and on the permissions
    under which tools run ([codex-rs/protocol/src/permissions.rs],
    [codex-rs/sandboxing]), the requests for approval and the orchestration of
    tools ([codex-rs/core/src/tools]), and the proxy through which sandboxed commands
    reach the network ([codex-rs/network-proxy]).  This library models those parts and proves
    what makes them correct.

    ** How the parts interact

    A scan calls [run_semgrep], which returns candidates; each candidate may go
    to [triage] (one chat completion, keep or drop) and to [submit_verdict] (a
    read-only sub-agent).  Both read the configuration of [gloscope-config].  A
    repair arrives as the text of a patch: the command line is recognised and
    previewed ([invocation.rs]), the gate checks the branch
    ([git_safety.rs], asking [git-utils]), the patch is parsed
    ([parser.rs] through [streaming_parser.rs]) and applied hunk by hunk
    ([lib.rs], which locates lines with [seek_sequence.rs]).  A command the
    agent wants to run is split into its parts ([bash.rs]), each part is
    evaluated by the rules ([policy.rs]) or, where none matches, by the
    heuristics ([is_safe_command.rs], [is_dangerous_command.rs]), and the outcome
    is turned into a requirement ([core/src/exec_policy.rs]): run, ask or refuse;
    an approved prefix is written to the policy file ([amend.rs]) and added to
    the policy.  For a patch the requirement comes from an assessment of the paths it
    writes ([core/src/safety.rs]) under the permissions of the turn
    ([permissions.rs]), with what was granted on top ([policy_transforms.rs]).  The
    orchestrator ([orchestrator.rs]) takes a tool and its requirement, asks for the
    approvals ([approvals.rs]: hooks, the automatic reviewer, the user, or the cache of
    the session), chooses the sandbox, runs the tool, and after a denial may ask again
    and run it once more without; the delta of a patch goes to the tracker of the turn's
    diff ([turn_diff_tracker.rs]).  What a sandboxed command sends to the network goes
    through the proxy, which decides on the host ([runtime.rs], [network_policy.rs]) by
    lists compiled from its configuration ([config.rs], [policy.rs]) within the managed
    constraints ([state.rs]), applies hooks to intercepted requests ([mitm_hook.rs]) and
    checks the address it connects to ([connect_policy.rs]); about a host that the lists
    leave open it asks the approval service ([network_approval.rs]), which asks hooks, the
    reviewer or the user, once for all requests of an execution.  The output of a command passes a buffer that keeps its two ends
    ([head_tail_buffer.rs]), is truncated and recorded in the history, which is
    normalized before it is sent to the model; what the model streams back is
    split into visible text, citations and plans.  The desktop shell starts the agent on
    a thread, forwards its events to the frontend and carries the user's answers
    to approval requests back to it.

    ** The files

    - [Prelude]: results and their notation, machine integers, tactics, hints,
      stable sorting.
    - [RustStr]: strings as lists of code points and the functions of
      [core::str] in use.
    - [SeekSequence]: [apply-patch/src/seek_sequence.rs].
    - [PatchSyntax]: markers, hunks and errors of [apply-patch].
    - [Replacements]: [compute_replacements], [apply_replacements] and the text
      part of [derive_new_contents_from_chunks].
    - [StreamingParser]: the state machine of [streaming_parser.rs].
    - [PatchParser]: [parser.rs], with a printer for the round trip.
    - [ApplyPatch]: [apply_patch], [apply_hunks], [apply_hunks_to_files]; the
      executor file system and path URIs are type classes with laws, a file
      system in memory instantiates them.
    - [Invocation]: [invocation.rs], from a command line to the preview.
    - [StreamText]: the interface of streaming parsers ([stream_text.rs]), with
      the law that pieces do not matter; [InlineTags] ([inline_hidden_tag.rs],
      [citation.rs]), [TaggedLines] ([tagged_line_parser.rs],
      [proposed_plan.rs]) discharge it, [AssistantText] ([assistant_text.rs])
      composes them.
    - [Utf8], [Utf8Stream]: decoding as [core::str::from_utf8] does, and
      [utf8_stream.rs], proved against the interface.
    - [HeadTailBuffer]: [unified_exec/head_tail_buffer.rs] and the loop of
      [process_manager.rs] that drains it, as a transition system.
    - [Truncate]: [utils/string/src/truncate.rs] and the text part of
      [utils/output-truncation]; [ResponseItems]: the items of the protocol
      ([protocol/src/models.rs]) and the truncation of structured output.
    - [Template]: [utils/template].
    - [Normalize], [History]: [context_manager/normalize.rs] and [history.rs].
    - [Host]: files, environment and processes as the tools use them, a state
      and error monad, a host in memory, and any host with a trace of its
      processes.
    - [Json]: the accessors of [serde_json::Value] as a type class.
    - [Candidate], [Semgrep]: [run_semgrep/candidate.rs] and [mod.rs].
    - [Config]: [gloscope-config/src/lib.rs].
    - [Triage], [Verdict]: [triage/mod.rs] and [submit_verdict/mod.rs].
    - [ShellScript]: [shell-command/src/bash.rs] and [detect_shell_type]; the
      syntax trees of tree-sitter are data, its parser a parameter.
    - [CommandSafety]: [command_safety/is_safe_command.rs] and
      [is_dangerous_command.rs].
    - [AbsPath]: [utils/absolute-path], over the components of Unix paths.
    - [ExecPolicy]: [decision.rs], [rule.rs], [policy.rs] of [execpolicy]; what it uses of
      absolute paths is a type class, implemented by [AbsPath] ([absolute_path_ops]).
    - [Requirements]: the rules of [requirements.toml], [requirements_exec_policy.rs] of [config].
    - [Amend]: [amend.rs] of [execpolicy], the locked append of a rule.
    - [IpAddr], [NetworkPolicy], [NetworkConfig], [MitmHook], [NetworkState],
      [NetworkProxy]: the network proxy.  Addresses and their classes, hosts and patterns
      ([policy.rs]); the configuration and the addresses listened on ([config.rs]); hooks
      ([mitm_hook.rs]); managed constraints and the compiled state ([state.rs]); decisions,
      connections and the shared state ([runtime.rs], [network_policy.rs],
      [connect_policy.rs]), whose operations are split where they await and interleave as
      the steps of [proxy_step].
    - [Profile]: the data of permission profiles that do not depend on their entries.
    - [Approval]: [core/src/exec_policy.rs], which composes the rules, the heuristics
      and the appends.
    - [GitSafety]: [git_safety.rs] and the queries of [git-utils/src/info.rs].
    - [Permissions]: entries, access to a path, protected names and the roots handed to
      the sandbox ([protocol/src/permissions.rs], [WritableRoot] of [protocol.rs]).
    - [SandboxPolicies]: the rest of [permissions.rs]: the older policies and back,
      symbolic project roots, the matcher of denied reads; the profiles of [models.rs].
    - [PolicyTransforms]: [sandboxing/src/policy_transforms.rs], additional permissions.
    - [PatchSafety]: [core/src/safety.rs], [core/src/apply_patch.rs] and the permissions
      of a patch in [handlers/apply_patch.rs] and [handlers/mod.rs].
    - [ToolApproval]: [core/src/tools/approvals.rs], the cache of
      [core/src/tools/sandboxing.rs] and [command_canonicalization.rs]; whoever is asked is
      a type class, the answers are kept in a trace.
    - [Orchestrator]: [core/src/tools/orchestrator.rs] against the interface of a tool
      ([ToolRuntime], the traits of [tools/sandboxing.rs]), with a trace of the granted
      approvals and the attempts.
    - [Runtimes]: the tools behind that interface ([runtimes/shell.rs],
      [runtimes/unified_exec.rs], [runtimes/apply_patch.rs]) and [execute_verified_patch],
      which composes [GitSafety], [PatchSafety], [Orchestrator] and [ApplyPatch].
    - [NetworkApproval]: the approval service ([network_approval.rs],
      [network_policy_decision.rs]) as programs over its primitive operations;
      [ApprovalTasks]: the tasks that run them, the invariant and the rules to verify a
      program under interference; [ApprovalSafety]: the verified programs and theorems.
    - [TurnDiff]: [core/src/turn_diff_tracker.rs].
    - [AppShell]: [gloscope-app/src-tauri/src/lib.rs]; the threads that run an
      app-server and the commands of the frontend are program points of a
      transition system ([step]), one atomic action per step, with the answers
      of the environment as inputs and what leaves the shell as a trace.

    ** What the theorems show

    - Patches: a printed patch parses back to itself, feeding it in pieces makes
      no difference, accepted hunks are complete; [seek_sequence] finds the
      first place at the strictest leniency, and the end of the file when that is
      asked for and matches; a successful update is a splice of
      ordered disjoint regions and never panics; an application whose delta is
      marked exact can be replayed and undone, touches only the files it names
      and refines a specification on maps, also after a failure half way; on a
      file system that does not fail it runs to the end; a preview of distinct
      paths shows every change the application makes and no other.
    - Tools: candidates are sorted, consistent and without near duplicates;
      triage drops only on the model's word, a verdict is read from the output of
      the sub-agent's own successful run and every failure is inconclusive, and a
      verification starts a bounded number of read-only processes; settings
      survive their file and a loaded configuration is usable.
    - Gate and policy: where git reports a branch with commits, a patch passes on a
      protected one (main, master, a default branch without a slash) only after a new
      branch was made for it; decisions are the strictest of the matching rules, overlays never
      relax them, and the last rule on a network host wins; the required rules
      become exactly what their entries say and never allow; appending a rule
      keeps the file's text, adds the rule at most once, and a write that fails
      half way damages nothing that was there.
    - Permissions: the access to a path is that of the most specific entry, deny first;
      the shortcuts for full access are sound, protected names below a writable root stay
      protected, and what is handed to the sandbox as writable roots is writable under
      the policy; an absolute path is absolute and normal however it was made; denials
      survive the replacement of a policy unless its sandbox is external, the matcher of denied reads refuses exactly
      what it should, an older policy survives the new representation; a granted overlay
      never lets more be read than was requested.
    - Tools under the orchestrator: an attempt is made only with the approval its
      requirement asks for, approvals come from someone entitled to give them, the
      sandbox is left out only for the reasons there are; a patch changes only files the
      policy lets be written unless an approval was granted, its delta reaches the
      tracker however it ends, and the tracker's cached diff is the diff of the net
      change.
    - Network: the classification of addresses is the intended list of IPv4 blocks and
      covers the listed classes of IPv6 addresses; deny wins over allow and compiled lists
      match exactly the hosts their patterns stand for; a managed allowlist bounds the user's and managed denials hold; the decision on
      a host is characterised in every case, no decider overrides a denial or the check
      for local hosts, and no direct connection goes to an address that is not public
      unless the allowlist names it (what is handed to an upstream proxy is not checked);
      the shared state stays consistent in every interleaving, and a host that was denied
      is refused from then on, until a configuration or a change allows it; the first
      matching hook applies, with what it matches spelled out, and hooks that pass the
      checks compile.
    - Network approvals, in every interleaving of the tasks and with any of them dropped
      where it waits: what is allowed was agreed to, by an answer to the question of the
      same turn and execution or for the session; a denial that was recorded decides what
      is still open, until an amendment that allows the host takes effect; an execution
      that was denied is rejected when it is finished; and a task that waits for a
      decision has one other task that owns it, whose end decides.
    - Commands: a command runs unasked exactly when its parts do, by rules or by
      heuristics that are characterised as inductive definitions; a forced
      removal behind up to eight wrappers is never attempted without consent; the
      requirements on a program as it is written hold whatever the user's rule files
      say; an approved prefix is in the policy file and not asked about again.
    - Conversation: streamed text is parsed to the same result in whatever pieces
      it arrives, and the parsers terminate; invalid bytes leave no trace; the
      output buffer keeps exactly the two ends and accounts for every byte while
      it is drained; truncation never cuts inside a character; a template survives
      printing and parsing; a normalized history is the history without orphaned
      outputs and with a stand-in for every missing one, and rollback cuts at the start of a turn.
    - Shell: in every interleaving each approval request is in one place, an
      answer is one user command's decision on that request, request ids do not
      repeat, and completing the wizard leaves GloScope configured.
    - Some theorems record behaviour the code probably does not intend: a move
      onto the same path deletes the file, an update drops a trailing newline of
      a file that ends in a blank line, a negative timeout makes loading panic,
      a default branch with a slash is not protected, a second session started
      while the first is starting has its approvals answered on the first, a
      rule for an absolute path hides what the requirements say about the
      program's name.  Examples record more of them: a hunk that hides the target of a
      move from the assessment ([hidden_move_unasked]), denials lost with workspace roots
      of another host ([foreign_roots_drop_denials]), protected names of nested roots
      ([nested_root_metadata]), a read entry lost when permissions are granted
      ([intersection_write_exceeds]) or taking a permission away
      ([additional_read_narrows]), a pattern that passes the managed allowlist but is
      compiled to another host ([managed_allowlist_bypassed]), blocked requests lost or
      miscounted by a reload ([blocked_entry_lost], [forced_reload_count]), an outcome
      recorded for a call that has finished ([late_block_stays]).

    ** Modelling choices

    Fallible code returns [result]; a panic is [None] of an outer [option].
    [usize] indices are [nat] and line numbers of JSON reports are [Z] reduced
    to 32 bits where the code casts; [u64] counters are reduced modulo [2^64],
    as release builds do; saturating counters stop at their largest value.  Loops
    over lists are structural; the retry loop of [submit_verdict] recurses on the
    retries left, the dangerous-command match on the wrappers left, and the
    search for a repository root on the components of the path.  Four loops take
    fuel: the tag loop of [push_str] (one turn more than there are characters,
    proved enough in [push_inline_terminates]), the template parser (one turn
    more than there are characters, [parse_loop_total]), the walk over a syntax tree (one turn more
    than there are nodes, [walk_all_elem]) and the search for a shell's name
    (one step more than there are characters, [detect_shell_fuel]).  Library
    code (JSON, TOML, process execution, HTTP, the bash
    grammar, the diff renderer, globs, git) is a parameter or a type class; each class
    of laws has an instance, which the examples named [..._witness] run on.  Paths are
    the component lists of [std::path] on Unix, with texts as code points; the
    permissions see one state of the file system ([FsHost]), and [no_symlinks] marks
    the statements that hold where canonicalization changes nothing.  People, hooks
    and reviewers are classes over an abstract world; what they answered is in a trace the
    theorems speak of.  The orchestrator sees the approval service through such a class,
    too; the service itself is a system of tasks, which run programs over its mutexes and
    cells ([performs]) one operation at a time, and the answers are inputs of its steps.  During a patch nobody else writes the
    files; the revision counter of the tracker does not run out.  Platforms are a type
    class ([Platform]) where the code asks for one; elsewhere the Unix branches are
    modelled.

    ** Not modelled, and planned

    Not modelled: serialisation derives, tool specifications, asynchrony of the
    tools beyond the order of effects, removal of temporary directories, the
    Windows branches, the startup of the app-server itself, the Starlark side of
    the policy parser, the deadlines of the output collector, the token counters
    and size estimates of the history, telemetry, the launch of processes and the
    transformation of a command into a sandboxed one, the servers of the network proxy,
    its certificates and its credential broker.  Left for later: [parse_command.rs], path URIs, and the token accounting of
    the history. *)

From Stdlib Require Import ZArith Lia Sorted Permutation.
From stdpp Require Export prelude.

(** ** Results and the error monad

    Fallible Rust code returns [Result<A, E>]; the model keeps the two
    constructors and threads errors with [let?], the [?] operator. *)

Inductive result (A E : Type) : Type :=
  | Ok (a : A)
  | Err (e : E).
Arguments Ok {A E} a.
Arguments Err {A E} e.

Declare Scope rust_scope.
Delimit Scope rust_scope with rust.

Notation "'let?' x ':=' e 'in' k" :=
  (match e with Ok x => k | Err err => Err err end)
  (at level 10, x pattern, e at level 200, k at level 200,
   format "'[v' 'let?'  x  ':='  e  'in' '/' k ']'") : rust_scope.

Notation "'let!' x ':=' e 'in' k" :=
  (match e with Some x => k | None => None end)
  (at level 10, x pattern, e at level 200, k at level 200,
   format "'[v' 'let!'  x  ':='  e  'in' '/' k ']'") : rust_scope.

Open Scope rust_scope.

(** [Result::map_err], [Result::ok], [Result::is_ok] and [Option::ok_or]. *)
Definition map_err {A E F} (f : E -> F) (r : result A E) : result A F :=
  match r with Ok a => Ok a | Err e => Err (f e) end.

Definition result_ok {A E} (r : result A E) : option A :=
  match r with Ok a => Some a | Err _ => None end.

Definition is_ok {A E} (r : result A E) : bool :=
  match r with Ok _ => true | Err _ => false end.

Definition ok_or {A E} (o : option A) (e : E) : result A E :=
  match o with Some a => Ok a | None => Err e end.

#[export] Instance result_eq_dec `{EqDecision A, EqDecision E} : EqDecision (result A E).
Proof. solve_decision. Defined.

Lemma is_ok_true {A E} (r : result A E) : is_ok r = true <-> exists a, r = Ok a.
Proof. destruct r; simpl; naive_solver. Qed.

(** [collect::<Result<Vec<_>, _>>()]. *)
Fixpoint collect_results {A E} (rs : list (result A E)) : result (list A) E :=
  match rs with
  | [] => Ok []
  | r :: rs' => let? x := r in let? xs := collect_results rs' in Ok (x :: xs)
  end.

Lemma collect_results_Ok {A B E} (f : A -> result B E) l bs :
  collect_results (map f l) = Ok bs <-> Forall2 (fun a b => f a = Ok b) l bs.
Proof.
  revert bs. induction l as [|a l IH]; intros bs; simpl.
  - split; [intros [= <-]; constructor | by inversion 1].
  - split.
    + destruct (f a) as [b|] eqn:Ea; [|done]. destruct (collect_results (map f l)) as [bs'|]; [|done].
      intros [= <-]. constructor; [done|]. by apply IH.
    + inversion 1 as [|? b ? bs' Ha Hl]; subst. apply IH in Hl. by rewrite Ha, Hl.
Qed.

(** ** Machine integers

    Unsigned integers are [Z] values; the cast [as u32] and the unchecked
    release-mode additions are written out as reductions modulo the width. *)

Definition u32_modulus : Z := 2 ^ 32.
Definition u64_modulus : Z := 2 ^ 64.

Definition as_u32 (z : Z) : Z := z mod u32_modulus.
Definition u64_add (a b : Z) : Z := (a + b) mod u64_modulus.

Definition in_u32 (z : Z) : Prop := (0 <= z < u32_modulus)%Z.
Definition in_u64 (z : Z) : Prop := (0 <= z < u64_modulus)%Z.

Lemma as_u32_range z : in_u32 (as_u32 z).
Proof. apply Z.mod_pos_bound. reflexivity. Qed.

Lemma as_u32_id z : in_u32 z -> as_u32 z = z.
Proof. apply Z.mod_small. Qed.

Lemma u64_add_range a b : in_u64 (u64_add a b).
Proof. apply Z.mod_pos_bound. reflexivity. Qed.

Lemma u64_add_exact a b :
  (0 <= a)%Z -> (0 <= b)%Z -> (a + b < u64_modulus)%Z -> u64_add a b = (a + b)%Z.
Proof. intros. apply Z.mod_small. lia. Qed.

(** ** Hints

    Range facts of the machine integers, used by [auto with rust]. *)
Create HintDb rust.
#[export] Hint Resolve as_u32_range u64_add_range : rust.

(** ** Tactics of the development *)

(** Case analysis on the head [match]/[if] of a hypothesis, keeping the equation. *)
Ltac case_hyp H :=
  match type of H with
  | context [match ?x with _ => _ end] =>
      let E := fresh "E" in destruct x eqn:E; try discriminate H
  end.

(** Case analysis on the head [match]/[if] of the goal, keeping the equation. *)
Ltac case_goal :=
  match goal with
  | |- context [match ?x with _ => _ end] =>
      let E := fresh "E" in destruct x eqn:E
  end.

(** Turn boolean tests in the context into propositions. *)
Ltac boolify :=
  repeat match goal with
  | H : _ && _ = true |- _ => apply andb_true_iff in H; destruct H
  | H : _ || _ = false |- _ => apply orb_false_iff in H; destruct H
  | H : negb _ = true |- _ => apply negb_true_iff in H
  | H : negb _ = false |- _ => apply negb_false_iff in H
  | H : bool_decide _ = true |- _ => apply bool_decide_eq_true in H
  | H : bool_decide _ = false |- _ => apply bool_decide_eq_false in H
  | H : (_ <=? _)%nat = true |- _ => apply Nat.leb_le in H
  | H : (_ <=? _)%nat = false |- _ => apply Nat.leb_gt in H
  | H : (_ <? _)%nat = true |- _ => apply Nat.ltb_lt in H
  | H : (_ <? _)%nat = false |- _ => apply Nat.ltb_ge in H
  end.

(** ** Lists *)

(** [slice.first()], [slice.last()] and [Vec::pop] are stdpp's [head], [last]
    and Stdlib's [removelast]. *)

(** [Iterator::find_map]: the first result there is. *)
Fixpoint find_map {A B} (f : A -> option B) (l : list A) : option B :=
  match l with
  | [] => None
  | x :: l' => match f x with Some y => Some y | None => find_map f l' end
  end.

Lemma find_map_split {A B} (f : A -> option B) l y :
  find_map f l = Some y -> exists l1 x l2, l = l1 ++ x :: l2 /\ f x = Some y /\ Forall (fun z => f z = None) l1.
Proof.
  induction l as [|x l IH]; simpl; [done|]. destruct (f x) eqn:E.
  - intros [= ->]. by exists [], x, l.
  - intros (l1 & z & l2 & -> & ? & ?)%IH. exists (x :: l1), z, l2. split_and!; [done..|]. by constructor.
Qed.

Lemma find_map_Some {A B} (f : A -> option B) l y : find_map f l = Some y -> exists x, x ∈ l /\ f x = Some y.
Proof. intros (l1 & x & l2 & -> & Hf & _)%find_map_split. exists x. split; [set_solver | done]. Qed.

Lemma find_map_None {A B} (f : A -> option B) l : find_map f l = None <-> forall x, x ∈ l -> f x = None.
Proof.
  induction l as [|x l IH]; simpl; [split; [intros _ x Hx; by apply elem_of_nil in Hx | done]|].
  destruct (f x) eqn:E.
  - split; [done|]. intros Hn. specialize (Hn x (list_elem_of_here _ _)). congruence.
  - rewrite IH. split; [intros Hn y [-> | Hy]%elem_of_cons; auto | intros Hn y Hy; by apply Hn, list_elem_of_further].
Qed.

Lemma find_map_is_Some {A B} (f : A -> option B) l x : x ∈ l -> is_Some (f x) -> is_Some (find_map f l).
Proof.
  intros Hx [y Hy]. destruct (find_map f l) eqn:E; [by eexists|]. rewrite find_map_None in E. by rewrite E in Hy.
Qed.

(** [Vec::dedup]: equal neighbours are merged. *)
Fixpoint dedup_adjacent `{EqDecision A} (l : list A) : list A :=
  match l with
  | [] => []
  | x :: l' =>
      match l' with
      | y :: _ => if bool_decide (x = y) then dedup_adjacent l' else x :: dedup_adjacent l'
      | [] => [x]
      end
  end.

Lemma dedup_adjacent_cons `{EqDecision A} (a b : A) l :
  dedup_adjacent (a :: b :: l)
  = if bool_decide (a = b) then dedup_adjacent (b :: l) else a :: dedup_adjacent (b :: l).
Proof. done. Qed.

Lemma dedup_adjacent_elem `{EqDecision A} (l : list A) x : x ∈ dedup_adjacent l <-> x ∈ l.
Proof.
  induction l as [|a l IH]; [done|]. destruct l as [|b l]; [done|].
  rewrite dedup_adjacent_cons. case_bool_decide as Hab.
  - subst b. rewrite IH. set_solver.
  - rewrite (elem_of_cons (dedup_adjacent _)), IH, <-elem_of_cons. done.
Qed.

Lemma removelast_snoc {A} (l : list A) x : removelast (l ++ [x]) = l.
Proof. rewrite removelast_app by done. apply app_nil_r. Qed.

Lemma last_removelast {A} (l : list A) x :
  last l = Some x -> l = removelast l ++ [x].
Proof.
  destruct l as [|y l _] using rev_ind; [done|].
  rewrite last_snoc, removelast_snoc. naive_solver.
Qed.

Lemma length_removelast {A} (l : list A) : length (removelast l) = length l - 1.
Proof.
  destruct l as [|y l _] using rev_ind; [done|].
  rewrite removelast_snoc, length_app. simpl. lia.
Qed.

Lemma foldr_Zadd_base (l : list Z) b : foldr Z.add b l = (foldr Z.add 0 l + b)%Z.
Proof. induction l as [|x l IH]; simpl; [done|]. rewrite IH. lia. Qed.

(** *** Stable sorting

    Rust's [slice::sort_by] and [sort_by_key] are stable; with the comparison
    a total preorder the result is determined, so insertion sort models both. *)

Section StableSort.
Context {A : Type} (le : A -> A -> bool).

Fixpoint insert_stable (x : A) (l : list A) : list A :=
  match l with
  | [] => [x]
  | y :: l' => if le x y then x :: l else y :: insert_stable x l'
  end.

Fixpoint stable_sort (l : list A) : list A :=
  match l with
  | [] => []
  | x :: l' => insert_stable x (stable_sort l')
  end.

Lemma insert_stable_perm x l : insert_stable x l ≡ₚ x :: l.
Proof.
  induction l as [|y l IH]; simpl; [done|].
  destruct (le x y); [done|]. rewrite IH. constructor.
Qed.

Lemma stable_sort_perm l : stable_sort l ≡ₚ l.
Proof.
  induction l as [|x l IH]; simpl; [done|].
  by rewrite insert_stable_perm, IH.
Qed.

Lemma stable_sort_elem x l : x ∈ stable_sort l <-> x ∈ l.
Proof. by rewrite stable_sort_perm. Qed.

Context (le_total : forall x y, le x y = true \/ le y x = true).
Context (le_trans : forall x y z, le x y = true -> le y z = true -> le x z = true).

Lemma insert_stable_sorted x l :
  StronglySorted (fun a b => le a b = true) l ->
  StronglySorted (fun a b => le a b = true) (insert_stable x l).
Proof using le_total le_trans.
  induction 1 as [|y l Hs IH Hall]; simpl.
  - repeat constructor.
  - destruct (le x y) eqn:E.
    + constructor; [by constructor|]. constructor; [done|].
      eapply List.Forall_impl; [|exact Hall]. simpl. intros a Ha.
      eapply le_trans; eauto.
    + constructor; [done|].
      apply Forall_forall. intros a Ha. rewrite insert_stable_perm in Ha.
      apply elem_of_cons in Ha as [->|Ha].
      * destruct (le_total x y) as [?|?]; congruence.
      * by eapply Forall_forall in Hall.
Qed.

Lemma stable_sort_sorted l :
  StronglySorted (fun a b => le a b = true) (stable_sort l).
Proof using le_total le_trans.
  induction l; simpl; [constructor|]. by apply insert_stable_sorted.
Qed.

(** A list already in order is left as it is. *)
Lemma stable_sort_id l :
  StronglySorted (fun a b => le a b = true) l -> stable_sort l = l.
Proof.
  induction 1 as [|x l Hs IH Hall]; simpl; [done|]. rewrite IH.
  destruct l as [|y l]; simpl; [done|].
  apply Forall_cons in Hall as [-> _]. done.
Qed.
End StableSort.
