(* ===== verification/RustStr.v ===== *)
(** * Rust strings

    A Rust [str]/[String] is a sequence of Unicode scalar values; the model is
    the list of their code points.  [String] comparison is byte-wise on the
    UTF-8 encoding, which orders strings as their code points do.  The
    functions below are those of [core::str] the repository calls. *)

From Stdlib Require Import ZArith Lia String Ascii DecimalString DecimalN.
From stdpp Require Import strings.
From S2P Require Import Prelude.

Export String.StringSyntax.

Abbreviation str := (list N).

(** ** Literals *)

(** UTF-8 decoding, used to read string literals. *)
Fixpoint utf8_decode (bs : list N) : str :=
  match bs with
  | [] => []
  | b :: r =>
      if (b <? 128)%N then b :: utf8_decode r
      else if (b <? 224)%N then
        match r with
        | c1 :: r => ((b - 192) * 64 + (c1 - 128))%N :: utf8_decode r
        | _ => []
        end
      else if (b <? 240)%N then
        match r with
        | c1 :: c2 :: r =>
            ((b - 224) * 4096 + (c1 - 128) * 64 + (c2 - 128))%N :: utf8_decode r
        | _ => []
        end
      else
        match r with
        | c1 :: c2 :: c3 :: r =>
            ((b - 240) * 262144 + (c1 - 128) * 4096 + (c2 - 128) * 64 + (c3 - 128))%N
              :: utf8_decode r
        | _ => []
        end
  end.

Definition lit (s : string) : str :=
  utf8_decode (map N_of_ascii (list_ascii_of_string s)).
Arguments lit s%_string.

Example lit_multibyte : lit "a中" = [97; 20013]%N.
Proof. reflexivity. Qed.

Definition LF : N := 10.
Definition CR : N := 13.
Definition SPACE : N := 32.
Definition QUOTE : N := 34.
Definition PLUS : N := 43.
Definition MINUS : N := 45.

(** ** Characters *)

(** [char::is_whitespace]: the Unicode property [White_Space]. *)
Definition is_whitespace (c : N) : bool :=
  ((9 <=? c) && (c <=? 13) || (c =? 32) || (c =? 133) || (c =? 160)
   || (c =? 5760) || ((8192 <=? c) && (c <=? 8202)) || (c =? 8232) || (c =? 8233)
   || (c =? 8239) || (c =? 8287) || (c =? 12288))%N.

(** [char::is_ascii_digit]. *)
Definition is_ascii_digit (c : N) : bool := ((48 <=? c) && (c <=? 57))%N.

Definition ascii_lower_char (c : N) : N :=
  if ((65 <=? c) && (c <=? 90))%N then (c + 32)%N else c.

Definition ascii_upper_char (c : N) : N :=
  if ((97 <=? c) && (c <=? 122))%N then (c - 32)%N else c.

(** [str::to_ascii_lowercase], [to_ascii_uppercase], [eq_ignore_ascii_case]. *)
Definition to_ascii_lowercase (s : str) : str := map ascii_lower_char s.
Definition to_ascii_uppercase (s : str) : str := map ascii_upper_char s.
Definition eq_ignore_ascii_case (s t : str) : bool :=
  bool_decide (to_ascii_lowercase s = to_ascii_lowercase t).

Definition is_ascii (s : str) : bool := forallb (fun c => c <? 128)%N s.

(** The functions of [core::str] that depend on the Unicode tables, with what
    their documentation fixes: ASCII text is mapped letter by letter, and the
    [Debug] form of text made of printable ASCII other than the quote and the
    backslash is the text between quotes. *)
Class UnicodeStd : Type := {
  to_lowercase : str -> str;
  to_uppercase : str -> str;
  debug_str : str -> str;
}.

Class UnicodeStdLaws (U : UnicodeStd) : Prop := {
  to_lowercase_ascii : forall s, is_ascii s = true -> to_lowercase s = to_ascii_lowercase s;
  to_uppercase_ascii : forall s, is_ascii s = true -> to_uppercase s = to_ascii_uppercase s;
}.

(** The restriction of the tables to ASCII, used to run the model. *)
Definition ascii_std : UnicodeStd := {|
  to_lowercase := to_ascii_lowercase;
  to_uppercase := to_ascii_uppercase;
  debug_str := fun s => [QUOTE] ++ s ++ [QUOTE];
|}.

#[export] Instance ascii_std_laws : UnicodeStdLaws ascii_std.
Proof. split; reflexivity. Qed.

(** ** Trimming *)

Fixpoint drop_while (f : N -> bool) (s : str) : str :=
  match s with
  | [] => []
  | c :: s' => if f c then drop_while f s' else s
  end.

Definition trim_start (s : str) : str := drop_while is_whitespace s.
Definition trim_end (s : str) : str := rev (trim_start (rev s)).
Definition trim (s : str) : str := trim_end (trim_start s).
(** [trim_end_matches(c)] for a single character. *)
Definition trim_end_matches (c : N) (s : str) : str := rev (drop_while (N.eqb c) (rev s)).

Definition is_empty (s : str) : bool := match s with [] => true | _ => false end.

(** ** Prefixes, suffixes, search *)

Fixpoint strip_prefix (p s : str) : option str :=
  match p, s with
  | [], _ => Some s
  | x :: p', y :: s' => if (x =? y)%N then strip_prefix p' s' else None
  | _ :: _, [] => None
  end.

Definition strip_suffix (p s : str) : option str :=
  match strip_prefix (rev p) (rev s) with Some r => Some (rev r) | None => None end.

Definition starts_with (p s : str) : bool :=
  match strip_prefix p s with Some _ => true | None => false end.
Definition ends_with (p s : str) : bool :=
  match strip_suffix p s with Some _ => true | None => false end.

Fixpoint contains (p s : str) : bool :=
  starts_with p s || match s with [] => false | _ :: s' => contains p s' end.

Definition contains_char (c : N) (s : str) : bool := existsb (N.eqb c) s.

(** [str::replace] for a non-empty pattern: left to right, non overlapping.
    [skip] counts the characters of the current match still to be dropped. *)
Fixpoint replace_from (skip : nat) (pat rep s : str) : str :=
  match s with
  | [] => []
  | c :: s' =>
      match skip with
      | S k => replace_from k pat rep s'
      | O =>
          if starts_with pat s then rep ++ replace_from (length pat - 1) pat rep s'
          else c :: replace_from 0 pat rep s'
      end
  end.
Definition replace (pat rep s : str) : str := replace_from 0 pat rep s.

(** ** Splitting and joining *)

(** [str::split(c)]: at least one piece. *)
Fixpoint split_on (c : N) (s : str) : list str :=
  match s with
  | [] => [[]]
  | x :: s' =>
      if (x =? c)%N then [] :: split_on c s'
      else match split_on c s' with
           | [] => [[x]]
           | h :: t => (x :: h) :: t
           end
  end.

Definition strip_cr (l : str) : str := default l (strip_suffix [CR] l).

(** [str::lines]: split after each line feed; a line that ended in one loses it
    and a carriage return before it; an empty last piece is not a line. *)
Definition lines (s : str) : list str :=
  let ps := split_on LF s in
  map strip_cr (removelast ps)
    ++ match last ps with Some [] | None => [] | Some l => [l] end.

(** [[String]::join(sep)]. *)
Fixpoint join (sep : str) (ls : list str) : str :=
  match ls with
  | [] => []
  | [l] => l
  | l :: ls' => l ++ sep ++ join sep ls'
  end.

(** [str::split_once(c)] and [str::rsplit_once(c)]. *)
Fixpoint split_once (c : N) (s : str) : option (str * str) :=
  match s with
  | [] => None
  | x :: s' =>
      if (x =? c)%N then Some ([], s')
      else match split_once c s' with Some (a, b) => Some (x :: a, b) | None => None end
  end.

Definition rsplit_once (c : N) (s : str) : option (str * str) :=
  match split_once c (rev s) with Some (a, b) => Some (rev b, rev a) | None => None end.

(** ** Numbers and lengths *)

Definition utf8_char_len (c : N) : nat :=
  if (c <? 128)%N then 1 else if (c <? 2048)%N then 2 else if (c <? 65536)%N then 3 else 4.

(** [str::len]: the length in bytes of the UTF-8 encoding. *)
Definition str_len (s : str) : nat := sum_list_with utf8_char_len s.

(** [s.chars().take(n).collect()]. *)
Definition take_chars (n : nat) (s : str) : str := take n s.

(** [Display] of an unsigned and a signed integer. *)
Definition show_N (n : N) : str := lit (NilZero.string_of_uint (N.to_uint n)).
Definition show_Z (z : Z) : str :=
  match z with
  | Zneg p => lit "-" ++ show_N (Npos p)
  | _ => show_N (Z.to_N z)
  end.

Example show_Z_127 : show_Z (-127) = lit "-127".
Proof. reflexivity. Qed.

(** Lexicographic order on code points, [Ord for str]. *)
Fixpoint str_compare (s t : str) : comparison :=
  match s, t with
  | [], [] => Eq
  | [], _ => Lt
  | _, [] => Gt
  | x :: s', y :: t' =>
      match (x ?= y)%N with Eq => str_compare s' t' | c => c end
  end.

(** ** Lemmas *)

Lemma strip_prefix_app p s : strip_prefix p (p ++ s) = Some s.
Proof. induction p as [|x p IH]; simpl; [done|]. by rewrite N.eqb_refl. Qed.

Lemma strip_prefix_Some p s r : strip_prefix p s = Some r <-> s = p ++ r.
Proof.
  split; [|intros ->; apply strip_prefix_app].
  revert s; induction p as [|x p IH]; intros [|y s]; simpl; try naive_solver.
  destruct (N.eqb_spec x y); naive_solver.
Qed.

Lemma strip_suffix_Some p s r : strip_suffix p s = Some r <-> s = r ++ p.
Proof.
  unfold strip_suffix. destruct (strip_prefix (rev p) (rev s)) as [q|] eqn:E.
  - apply strip_prefix_Some in E. split.
    + intros [= <-]. by rewrite <-(rev_involutive s), E, rev_app_distr, rev_involutive.
    + intros ->. rewrite rev_app_distr in E. apply app_inv_head in E as <-.
      by rewrite rev_involutive.
  - split; [done|]. intros ->. by rewrite rev_app_distr, strip_prefix_app in E.
Qed.

Lemma starts_with_true p s : starts_with p s = true <-> exists r, s = p ++ r.
Proof.
  unfold starts_with. destruct (strip_prefix p s) as [r|] eqn:E.
  - apply strip_prefix_Some in E. naive_solver.
  - split; [done|]. intros [r ->]. by rewrite strip_prefix_app in E.
Qed.

Lemma ends_with_true p s : ends_with p s = true <-> exists r, s = r ++ p.
Proof.
  unfold ends_with. destruct (strip_suffix p s) as [r|] eqn:E.
  - apply strip_suffix_Some in E. naive_solver.
  - split; [done|]. intros [r Hr]. apply strip_suffix_Some in Hr. congruence.
Qed.

Lemma contains_true p s : contains p s = true <-> exists a b, s = a ++ p ++ b.
Proof.
  induction s as [|c s IH]; simpl; rewrite orb_true_iff, starts_with_true; split.
  - intros [[r Hr]|?]; [|done]. by exists [], r.
  - intros (a & b & H). left. destruct a; [|done]. by exists b.
  - intros [[r Hr]|H]; [by exists [], r|].
    apply IH in H as (a & b & ->). by exists (c :: a), b.
  - intros ([|x a] & b & H); simpl in H; [left; by exists b|].
    injection H as -> H. right. apply IH. by exists a, b.
Qed.

(** *** Trimming *)

Lemma drop_while_split f s :
  exists ws, s = ws ++ drop_while f s /\ forallb f ws = true.
Proof.
  induction s as [|c s [ws [Hs Hw]]]; simpl; [by exists []|].
  destruct (f c) eqn:E; [|by exists []].
  exists (c :: ws). simpl. rewrite E. split; [by f_equal|done].
Qed.

Lemma drop_while_app_all f ws s :
  forallb f ws = true -> drop_while f (ws ++ s) = drop_while f s.
Proof.
  induction ws as [|c ws IH]; simpl; [done|].
  intros [-> H]%andb_true_iff. by apply IH.
Qed.

Lemma drop_while_all f ws : forallb f ws = true -> drop_while f ws = [].
Proof. intros H. rewrite <-(app_nil_r ws). by rewrite drop_while_app_all. Qed.

Lemma drop_while_head f s : drop_while f s = s <-> (forall c, head s = Some c -> f c = false).
Proof.
  destruct s as [|c s]; simpl; [naive_solver|].
  destruct (f c) eqn:E; [|naive_solver].
  split; [|intros H; specialize (H c eq_refl); congruence].
  intros H. exfalso. assert (length (drop_while f s) = S (length s)) as Hl by by rewrite H.
  destruct (drop_while_split f s) as (ws & Hs & _).
  rewrite Hs in Hl at 2. rewrite length_app in Hl. lia.
Qed.

Lemma drop_while_head_false f s c : head (drop_while f s) = Some c -> f c = false.
Proof.
  induction s as [|x s IH]; simpl; [done|]. destruct (f x) eqn:E; [done|]. naive_solver.
Qed.

Lemma drop_while_idemp f s : drop_while f (drop_while f s) = drop_while f s.
Proof. apply drop_while_head. intros c. apply drop_while_head_false. Qed.

Lemma forallb_rev {A} (f : A -> bool) l : forallb f (rev l) = forallb f l.
Proof.
  induction l as [|x l IH]; simpl; [done|].
  rewrite forallb_app, IH. simpl. by rewrite andb_true_r, andb_comm.
Qed.

Lemma trim_end_split s :
  exists ws, s = trim_end s ++ ws /\ forallb is_whitespace ws = true.
Proof.
  destruct (drop_while_split is_whitespace (rev s)) as (ws & Hs & Hw).
  exists (rev ws). rewrite forallb_rev. split; [|done].
  unfold trim_end, trim_start. rewrite <-rev_app_distr, <-Hs. by rewrite rev_involutive.
Qed.

Lemma trim_end_app_ws s ws :
  forallb is_whitespace ws = true -> trim_end (s ++ ws) = trim_end s.
Proof.
  intros H. unfold trim_end, trim_start. rewrite rev_app_distr.
  by rewrite drop_while_app_all by by rewrite forallb_rev.
Qed.

Lemma trim_end_idemp s : trim_end (trim_end s) = trim_end s.
Proof. unfold trim_end, trim_start. by rewrite rev_involutive, drop_while_idemp. Qed.

(** Trimming the end of a string that ends in a non-space changes nothing. *)
Lemma trim_end_snoc s c : is_whitespace c = false -> trim_end (s ++ [c]) = s ++ [c].
Proof.
  intros H. unfold trim_end, trim_start. rewrite rev_app_distr. simpl. rewrite H.
  simpl. by rewrite rev_involutive.
Qed.

Lemma trim_start_cons c s : is_whitespace c = false -> trim_start (c :: s) = c :: s.
Proof. intros H. unfold trim_start. simpl. by rewrite H. Qed.

Lemma last_rev {A} (l : list A) : last (rev l) = head l.
Proof. destruct l as [|x l]; simpl; [done|]. apply last_snoc. Qed.

(** What [trim_end] leaves ends in a non-space, and it leaves such a string alone. *)
Lemma trim_end_last s c : last (trim_end s) = Some c -> is_whitespace c = false.
Proof. unfold trim_end. rewrite last_rev. apply drop_while_head_false. Qed.

Lemma trim_end_id s :
  (forall c, last s = Some c -> is_whitespace c = false) -> trim_end s = s.
Proof.
  destruct s as [|x s _] using rev_ind; [done|].
  intros H. apply trim_end_snoc, H, last_snoc.
Qed.

Lemma last_app_cons {A} (l : list A) x k : last (l ++ x :: k) = last (x :: k).
Proof.
  revert x; induction k as [|y k _] using rev_ind; intros x; [apply last_snoc|].
  by rewrite !app_comm_cons, app_assoc, !last_snoc.
Qed.

Lemma trim_end_app_cons s c t :
  is_whitespace c = false -> trim_end (s ++ c :: t) = s ++ c :: trim_end t.
Proof.
  intros H. destruct (trim_end_split t) as (ws & Ht & Hw).
  rewrite Ht at 1. rewrite app_comm_cons, app_assoc, trim_end_app_ws by done.
  apply trim_end_id. intros x Hx. rewrite last_app_cons in Hx.
  destruct (trim_end t) as [|y u] eqn:E; simpl in Hx; [congruence|].
  apply (trim_end_last t). by rewrite E.
Qed.

Lemma trim_end_cons c s : is_whitespace c = false -> trim_end (c :: s) = c :: trim_end s.
Proof. apply (trim_end_app_cons []). Qed.

Lemma trim_start_app_ws ws s :
  forallb is_whitespace ws = true -> trim_start (ws ++ s) = trim_start s.
Proof. apply drop_while_app_all. Qed.

(** [trim] is the same whichever side is trimmed first. *)
Lemma trim_comm s : trim s = trim_start (trim_end s).
Proof.
  unfold trim. destruct (drop_while_split is_whitespace s) as (ws & Hs & Hw).
  fold (trim_start s) in Hs. destruct (trim_start s) as [|c t] eqn:E.
  - rewrite app_nil_r in Hs. subst s.
    change ws with ([] ++ ws). by rewrite trim_end_app_ws.
  - assert (is_whitespace c = false) as Hc.
    { apply (drop_while_head_false is_whitespace s). unfold trim_start in E. by rewrite E. }
    rewrite Hs, trim_end_app_cons, trim_end_cons, trim_start_app_ws by done.
    by rewrite trim_start_cons.
Qed.

Lemma trim_idemp s : trim (trim s) = trim s.
Proof.
  rewrite (trim_comm (trim s)). assert (trim_end (trim s) = trim s) as ->.
  { apply trim_end_idemp. }
  rewrite trim_comm. apply drop_while_idemp.
Qed.

Lemma trim_trim_end s : trim (trim_end s) = trim s.
Proof. by rewrite !trim_comm, trim_end_idemp. Qed.

(** *** Joining and splitting *)

Lemma split_on_nonnil c s : split_on c s <> [].
Proof. destruct s as [|x s]; simpl; [done|]. destruct (x =? c)%N; [done|]. by case_goal. Qed.

Lemma split_on_no_sep c s : c ∉ s -> split_on c s = [s].
Proof.
  induction s as [|x s IH]; simpl; [done|]. rewrite not_elem_of_cons. intros [Hx Hs].
  destruct (N.eqb_spec x c); [congruence|]. by rewrite IH.
Qed.

Lemma split_on_app c a s :
  c ∉ a -> split_on c (a ++ c :: s) = a :: split_on c s.
Proof.
  induction a as [|x a IH]; simpl; [by rewrite N.eqb_refl|].
  rewrite not_elem_of_cons. intros [Hx Ha].
  destruct (N.eqb_spec x c); [congruence|]. by rewrite IH.
Qed.

Lemma split_on_app_any c a s : split_on c (a ++ c :: s) = split_on c a ++ split_on c s.
Proof.
  induction a as [|x a IH]; simpl; [by rewrite N.eqb_refl|].
  destruct (x =? c)%N; [by rewrite IH|]. rewrite IH.
  destruct (split_on c a) eqn:E; [by apply split_on_nonnil in E|done].
Qed.

(** Splitting a join gives the pieces back. *)
Lemma split_on_join c ls :
  ls <> [] -> Forall (fun l => c ∉ l) ls -> split_on c (join [c] ls) = ls.
Proof.
  induction ls as [|l ls IH]; [done|]. intros _ [Hl Hls]%Forall_cons.
  destruct ls as [|l' ls]; simpl; [by apply split_on_no_sep|].
  rewrite split_on_app by done. f_equal. by apply IH.
Qed.

Lemma join_split_on c s : join [c] (split_on c s) = s.
Proof.
  induction s as [|x s IH]; simpl; [done|].
  destruct (N.eqb_spec x c) as [->|].
  - destruct (split_on c s) eqn:E; [by apply split_on_nonnil in E|].
    change (c :: join [c] (l :: l0) = c :: s). by f_equal.
  - destruct (split_on c s) as [|h t] eqn:E; [by apply split_on_nonnil in E|].
    rewrite <-IH. by destruct t.
Qed.

Lemma split_on_pieces c s : Forall (fun l => c ∉ l) (split_on c s).
Proof.
  induction s as [|x s IH]; simpl.
  - repeat constructor. apply not_elem_of_nil.
  - destruct (N.eqb_spec x c).
    + constructor; [apply not_elem_of_nil|done].
    + destruct (split_on c s) as [|h t].
      * repeat constructor. rewrite list_elem_of_singleton. congruence.
      * apply Forall_cons in IH as [??]. constructor; [|done].
        rewrite not_elem_of_cons. by split; [congruence|].
Qed.

(** ** The order on strings *)

Lemma str_compare_eq s t : str_compare s t = Eq <-> s = t.
Proof.
  revert t. induction s as [|x s IH]; intros [|y t]; simpl; try done.
  destruct (N.compare_spec x y) as [->|Hl|Hl].
  - rewrite IH. split; [by intros ->|by intros [=]].
  - split; [done|]. intros [= -> _]. lia.
  - split; [done|]. intros [= -> _]. lia.
Qed.

Lemma str_compare_antisym s t : str_compare t s = CompOpp (str_compare s t).
Proof.
  revert t. induction s as [|x s IH]; intros [|y t]; simpl; try done.
  rewrite (N.compare_antisym x y). destruct (x ?= y)%N; simpl; auto.
Qed.

Lemma str_compare_lt_trans s t u :
  str_compare s t = Lt -> str_compare t u = Lt -> str_compare s u = Lt.
Proof.
  revert t u. induction s as [|x s IH]; intros [|y t] [|z u]; simpl; try done.
  intros H1 H2. destruct (N.compare_spec x y) as [->|Hxy|Hxy]; [| |done].
  - destruct (N.compare_spec y z); try done. eauto.
  - destruct (N.compare_spec y z) as [->|Hyz|Hyz]; [| |done].
    all: by rewrite (proj2 (N.compare_lt_iff x z)) by lia.
Qed.

(** ** Printed numbers *)

Lemma nil_empty_digits u : forallb is_ascii_digit (lit (NilEmpty.string_of_uint u)) = true.
Proof. induction u as [|u IH|u IH|u IH|u IH|u IH|u IH|u IH|u IH|u IH|u IH]; [done|exact IH..]. Qed.

Lemma show_N_digits n : show_N n <> [] /\ forallb is_ascii_digit (show_N n) = true.
Proof.
  unfold show_N, NilZero.string_of_uint. destruct (N.to_uint n) eqn:E.
  - done.
  - split; [discriminate|]. exact (nil_empty_digits (Decimal.D0 _)).
  - split; [discriminate|]. exact (nil_empty_digits (Decimal.D1 _)).
  - split; [discriminate|]. exact (nil_empty_digits (Decimal.D2 _)).
  - split; [discriminate|]. exact (nil_empty_digits (Decimal.D3 _)).
  - split; [discriminate|]. exact (nil_empty_digits (Decimal.D4 _)).
  - split; [discriminate|]. exact (nil_empty_digits (Decimal.D5 _)).
  - split; [discriminate|]. exact (nil_empty_digits (Decimal.D6 _)).
  - split; [discriminate|]. exact (nil_empty_digits (Decimal.D7 _)).
  - split; [discriminate|]. exact (nil_empty_digits (Decimal.D8 _)).
  - split; [discriminate|]. exact (nil_empty_digits (Decimal.D9 _)).
Qed.

Lemma digit_not_whitespace c : is_ascii_digit c = true -> is_whitespace c = false.
Proof.
  unfold is_ascii_digit, is_whitespace. rewrite andb_true_iff, !N.leb_le. intros [? ?].
  repeat match goal with
  | |- context [(?a <=? ?b)%N] => destruct (N.leb_spec a b); try lia
  | |- context [(?a =? ?b)%N] => destruct (N.eqb_spec a b); try lia
  end; done.
Qed.

(** A printed number ends in a digit. *)
Lemma show_Z_last z c : last (show_Z z) = Some c -> is_whitespace c = false.
Proof.
  assert (forall n p c, last (p ++ show_N n) = Some c -> is_whitespace c = false) as Hn.
  { intros n p x. destruct (show_N_digits n) as [Hne Hd]. rewrite last_app.
    destruct (last (show_N n)) as [y|] eqn:E; [|by apply last_None in E].
    intros [= <-]. apply digit_not_whitespace.
    rewrite (last_removelast _ _ E), forallb_app in Hd. by apply andb_true_iff in Hd as [_ [? _]%andb_true_iff]. }
  destruct z; [apply (Hn 0%N [])|apply (Hn (Npos p) [])|apply (Hn (Npos p) (lit "-"))].
Qed.
