(* ===== verification/SeekSequence.v ===== *)
(** * [seek_sequence]: locating the lines of a patch chunk in a file

    Models [codex-rs/apply-patch/src/seek_sequence.rs].  The search makes four
    passes over the admissible start positions, each with a coarser notion of
    "same line": equal, equal up to trailing space, equal up to surrounding
    space, equal after mapping typographic punctuation to ASCII. *)

From Stdlib Require Import ZArith Lia.
From S2P Require Import Prelude RustStr.

(** ** Definitions *)

(** The character map of [normalise]. *)
Definition normalise_char (c : N) : N :=
  if bool_decide (c ∈ [0x2010; 0x2011; 0x2012; 0x2013; 0x2014; 0x2015; 0x2212]%N)
  then 45%N
  else if bool_decide (c ∈ [0x2018; 0x2019; 0x201A; 0x201B]%N) then 39%N
  else if bool_decide (c ∈ [0x201C; 0x201D; 0x201E; 0x201F]%N) then QUOTE
  else if bool_decide (c ∈ [0x00A0; 0x2002; 0x2003; 0x2004; 0x2005; 0x2006;
                            0x2007; 0x2008; 0x2009; 0x200A; 0x202F; 0x205F; 0x3000]%N)
  then SPACE
  else c.

Definition normalise (s : str) : str := map normalise_char (trim s).

(** [for i in a..=b { if ok(i) { return Some(i) } }]. *)
Definition first_in_range (a b : nat) (ok : nat -> bool) : option nat :=
  List.find ok (seq a (S b - a)).

(** The inner loop of the lenient passes, at start position [i]; the index is
    in bounds whenever [i + pattern.len() <= lines.len()]. *)
Fixpoint lines_match (same : str -> str -> bool) (lines : list str) (i : nat)
    (pattern : list str) : bool :=
  match pattern with
  | [] => true
  | pat :: pattern' =>
      match lines !! i with
      | Some l => if same l pat then lines_match same lines (S i) pattern' else false
      | None => false
      end
  end.

Definition same_exact (l p : str) : bool := bool_decide (l = p).
Definition same_rstrip (l p : str) : bool := bool_decide (trim_end l = trim_end p).
Definition same_trim (l p : str) : bool := bool_decide (trim l = trim p).
Definition same_normalised (l p : str) : bool := bool_decide (normalise l = normalise p).

Definition seek_sequence (lines pattern : list str) (start : nat) (eof : bool) : option nat :=
  if bool_decide (pattern = []) then Some start
  else if (length lines <? length pattern)%nat then None
  else
    let search_start :=
      if eof && (length pattern <=? length lines)%nat
      then length lines - length pattern else start in
    let last_start := length lines - length pattern in
    let pass := fun ok => first_in_range search_start last_start ok in
    match pass (fun i => bool_decide (take (length pattern) (drop i lines) = pattern)) with
    | Some i => Some i
    | None =>
    match pass (fun i => lines_match same_rstrip lines i pattern) with
    | Some i => Some i
    | None =>
    match pass (fun i => lines_match same_trim lines i pattern) with
    | Some i => Some i
    | None => pass (fun i => lines_match same_normalised lines i pattern)
    end end end.

(** ** Specification *)

(** The leniency levels, from the strictest. *)
Inductive leniency : Type := Exact | Rstrip | Trim | Normalised.

#[export] Instance leniency_eq_dec : EqDecision leniency.
Proof. solve_decision. Defined.

Definition same_line (m : leniency) : str -> str -> bool :=
  match m with
  | Exact => same_exact
  | Rstrip => same_rstrip
  | Trim => same_trim
  | Normalised => same_normalised
  end.

(** The lines of [pattern] are those of [lines] from [i] on, at level [m]. *)
Definition matches_at (m : leniency) (lines pattern : list str) (i : nat) : Prop :=
  exists region, region = take (length pattern) (drop i lines) /\
    Forall2 (fun l p => same_line m l p = true) region pattern.

(** The start positions the search considers. *)
Definition admissible (lines pattern : list str) (start : nat) (eof : bool) (i : nat) : Prop :=
  (if eof then length lines - length pattern else start) <= i
  /\ i + length pattern <= length lines.

Definition finer (m : leniency) : list leniency :=
  match m with
  | Exact => []
  | Rstrip => [Exact]
  | Trim => [Exact; Rstrip]
  | Normalised => [Exact; Rstrip; Trim]
  end.

(** ** Lemmas *)

Lemma first_in_range_Some a b ok i :
  first_in_range a b ok = Some i ->
  a <= i <= b /\ ok i = true /\ (forall j, a <= j < i -> ok j = false).
Proof.
  unfold first_in_range. intros H.
  assert (forall n k, List.find ok (seq k n) = Some i ->
    k <= i < k + n /\ ok i = true /\ forall j, k <= j < i -> ok j = false) as Hf.
  { clear H. induction n as [|n IH]; intros k; simpl; [done|].
    destruct (ok k) eqn:E.
    - intros [= <-]. split_and!; [lia..|done|]. intros j ?. lia.
    - intros H. apply IH in H as (? & ? & Hj). split_and!; [lia..|done|].
      intros j ?. destruct (decide (j = k)) as [->|]; [done|]. apply Hj. lia. }
  apply Hf in H as (? & ? & ?). split_and!; [lia..|done|done].
Qed.

Lemma first_in_range_None a b ok :
  first_in_range a b ok = None -> forall j, a <= j <= b -> ok j = false.
Proof.
  unfold first_in_range. intros H j Hj. apply (List.find_none _ _ H).
  apply in_seq. lia.
Qed.

Lemma lines_match_iff same lines i pattern :
  lines_match same lines i pattern = true <->
  Forall2 (fun l p => same l p = true) (take (length pattern) (drop i lines)) pattern.
Proof.
  revert i; induction pattern as [|p pattern IH]; intros i; simpl; [done|].
  destruct (lines !! i) as [l|] eqn:E.
  - rewrite (drop_S _ _ _ E). simpl.
    destruct (same l p) eqn:Es.
    + rewrite IH, Forall2_cons, Es. tauto.
    + rewrite Forall2_cons, Es. split; [done|]. by intros [? _].
  - apply lookup_ge_None in E. rewrite drop_ge by done. simpl.
    split; [done|]. inversion 1.
Qed.

(** The exact pass compares slices; it is the level [Exact]. *)
Lemma exact_pass_iff lines i pattern :
  bool_decide (take (length pattern) (drop i lines) = pattern) = true <->
  matches_at Exact lines pattern i.
Proof.
  rewrite bool_decide_eq_true. unfold matches_at. split.
  - intros H. exists pattern. split; [done|].
    apply Forall2_same_length_lookup; split; [done|].
    intros k x y Hx Hy. simplify_eq. by apply bool_decide_eq_true.
  - intros (r & -> & H). revert H. generalize (take (length pattern) (drop i lines)).
    intros r H. induction H as [|x y r p Hxy _ ->]; [done|].
    apply bool_decide_eq_true in Hxy. by subst.
Qed.

Lemma lenient_pass_iff m lines i pattern :
  lines_match (same_line m) lines i pattern = true <-> matches_at m lines pattern i.
Proof. rewrite lines_match_iff. unfold matches_at. naive_solver. Qed.

(** Each level is coarser than the ones before it. *)
Lemma same_line_coarsen m l p : same_line m l p = true -> same_line Normalised l p = true.
Proof.
  destruct m; simpl; unfold same_exact, same_rstrip, same_trim, same_normalised, normalise;
    rewrite !bool_decide_eq_true.
  - by intros ->.
  - intros H. by rewrite <-(trim_trim_end l), H, trim_trim_end.
  - by intros ->.
  - done.
Qed.

Lemma matches_at_coarsen m lines pattern i :
  matches_at m lines pattern i -> matches_at Normalised lines pattern i.
Proof.
  intros (r & Hr & H). exists r. split; [done|].
  eapply Forall2_impl; [exact H|]. intros ??. apply same_line_coarsen.
Qed.

Section Passes.
Context (lines pattern : list str) (start : nat) (eof : bool).
Context (Hlen : length pattern <= length lines).

Let lo := if eof && (length pattern <=? length lines) then length lines - length pattern else start.
Let hi := length lines - length pattern.

Lemma admissible_range i : admissible lines pattern start eof i <-> lo <= i <= hi.
Proof using Hlen.
  unfold admissible, lo, hi. rewrite (proj2 (Nat.leb_le _ _) Hlen).
  destruct eof; simpl; lia.
Qed.

(** One pass at level [m]: the first admissible match, or none at all. *)
Lemma pass_spec m ok :
  (forall i, ok i = true <-> matches_at m lines pattern i) ->
  match first_in_range lo hi ok with
  | Some i =>
      admissible lines pattern start eof i /\ matches_at m lines pattern i /\
      (forall j, admissible lines pattern start eof j -> j < i -> ~ matches_at m lines pattern j)
  | None => forall j, admissible lines pattern start eof j -> ~ matches_at m lines pattern j
  end.
Proof using Hlen.
  intros Hok. destruct (first_in_range lo hi ok) as [i|] eqn:E.
  - apply first_in_range_Some in E as (Hr & Hi & Hj). rewrite admissible_range, <-Hok.
    split_and!; [lia..|done|]. intros j. rewrite admissible_range, <-Hok. intros ??.
    rewrite (Hj j) by lia. done.
  - intros j. rewrite admissible_range, <-Hok. intros ?.
    by rewrite (first_in_range_None _ _ _ E j).
Qed.
End Passes.

(** The specification as a relation between the arguments and the outcome. *)
Definition seek_ok (lines pattern : list str) (start : nat) (eof : bool) (r : option nat) : Prop :=
  match r with
  | Some i =>
      admissible lines pattern start eof i /\
      exists m, matches_at m lines pattern i
        /\ (forall j, admissible lines pattern start eof j -> j < i -> ~ matches_at m lines pattern j)
        /\ (forall m' j, m' ∈ finer m -> admissible lines pattern start eof j ->
              ~ matches_at m' lines pattern j)
  | None => forall m j, admissible lines pattern start eof j -> ~ matches_at m lines pattern j
  end.

Lemma seek_sequence_meets_spec lines pattern start eof :
  pattern <> [] -> seek_ok lines pattern start eof (seek_sequence lines pattern start eof).
Proof.
  intros Hne. unfold seek_sequence. rewrite bool_decide_false by done.
  destruct (length lines <? length pattern)%nat eqn:Hl; boolify.
  { intros m j [_ Hj]. lia. }
  pose proof (pass_spec lines pattern start eof Hl Exact _ (fun i => exact_pass_iff lines i pattern)) as P1.
  pose proof (pass_spec lines pattern start eof Hl Rstrip _ (fun i => lenient_pass_iff Rstrip lines i pattern)) as P2.
  pose proof (pass_spec lines pattern start eof Hl Trim _ (fun i => lenient_pass_iff Trim lines i pattern)) as P3.
  pose proof (pass_spec lines pattern start eof Hl Normalised _ (fun i => lenient_pass_iff Normalised lines i pattern)) as P4.
  simpl same_line in *. cbv zeta in *.
  set (lo := if _ : bool then _ else start) in *.
  destruct (first_in_range lo _ _) as [i|] in P1 |- *.
  { destruct P1 as (? & ? & ?). split; [done|]. exists Exact. split_and!; [done..|].
    intros ?? []%not_elem_of_nil. }
  destruct (first_in_range lo _ (fun i => lines_match same_rstrip _ _ _)) as [i|].
  { destruct P2 as (? & ? & ?). split; [done|]. exists Rstrip. split_and!; [done..|].
    set_solver. }
  destruct (first_in_range lo _ (fun i => lines_match same_trim _ _ _)) as [i|].
  { destruct P3 as (? & ? & ?). split; [done|]. exists Trim. split_and!; [done..|].
    set_solver. }
  destruct (first_in_range lo _ _) as [i|].
  - destruct P4 as (? & ? & ?). split; [done|]. exists Normalised. split_and!; [done..|].
    set_solver.
  - intros m j Hj Hm. apply (P4 j Hj). by eapply matches_at_coarsen.
Qed.

(** In-bounds results, as the clients of the search use them. *)
Lemma seek_sequence_bounds lines pattern start eof i :
  seek_sequence lines pattern start eof = Some i -> start <= length lines ->
  i + length pattern <= length lines /\ (eof = false -> start <= i).
Proof.
  intros H Hs. destruct (decide (pattern = [])) as [->|Hne].
  - unfold seek_sequence in H. simpl in H. simplify_eq. simpl. lia.
  - pose proof (seek_sequence_meets_spec lines pattern start eof Hne) as S.
    rewrite H in S. destruct S as [[Ha Hb] _]. destruct eof; split; done || lia.
Qed.

(** Whatever is found matches at some level. *)
Lemma seek_sequence_matches lines pattern start eof i :
  seek_sequence lines pattern start eof = Some i -> exists m, matches_at m lines pattern i.
Proof.
  intros H. destruct (decide (pattern = [])) as [->|Hne].
  - exists Exact, []. split; [done|constructor].
  - pose proof (seek_sequence_meets_spec lines pattern start eof Hne) as S.
    rewrite H in S. destruct S as [_ (m & Hm & _)]. by exists m.
Qed.

(** A verbatim occurrence at [p] makes the search succeed no later than [p]. *)
Lemma seek_sequence_finds lines pattern start p :
  pattern <> [] -> start <= p -> p + length pattern <= length lines ->
  take (length pattern) (drop p lines) = pattern ->
  exists i, seek_sequence lines pattern start false = Some i /\ start <= i <= p.
Proof.
  intros Hne Hs Hp Hm. pose proof (seek_sequence_meets_spec lines pattern start false Hne) as S.
  assert (admissible lines pattern start false p) as Ha by done.
  assert (matches_at Exact lines pattern p) as He by by apply exact_pass_iff, bool_decide_eq_true.
  destruct (seek_sequence lines pattern start false) as [i|]; [|by destruct (S Exact p)].
  destruct S as [[Hi _] (m & _ & Hfirst & Hfiner)]. exists i. split; [done|]. split; [done|].
  destruct (decide (m = Exact)) as [->|Hm'].
  - destruct (decide (p < i)) as [Hlt|]; [|lia]. by destruct (Hfirst p).
  - destruct (Hfiner Exact p); [|done..]. destruct m; set_solver.
Qed.

(** ** Theorems *)

(** C35.  A search from [start] for lines that are not none returns the first position at
    or after [start] that matches at the strictest level at which any such position
    matches, and nothing exactly when no such position matches at any level.  A search
    at the end of the file returns the position that ends with the last line whenever
    the lines match there at some level, and whatever it returns lies in the file and
    matches.  No lines match at [start]. *)
Theorem seek_sequence_correct lines pattern start eof :
  (pattern = [] -> seek_sequence lines pattern start eof = Some start)
  /\ (pattern <> [] ->
      seek_ok lines pattern start false (seek_sequence lines pattern start false)
      /\ (forall m i, i + length pattern = length lines -> matches_at m lines pattern i -> seek_sequence lines pattern start true = Some i)
      /\ (forall i, seek_sequence lines pattern start true = Some i ->
            i + length pattern <= length lines /\ exists m, matches_at m lines pattern i)).
Proof.
  split; [by intros ->|]. intros Hne. split; [by apply seek_sequence_meets_spec|].
  pose proof (seek_sequence_meets_spec lines pattern start true Hne) as S. split.
  - intros m i Hi Hm. assert (admissible lines pattern start true i) as Ha by (unfold admissible; lia).
    destruct (seek_sequence lines pattern start true) as [j|]; [|by destruct (S m i)].
    destruct S as [[Hj Hj'] _]. f_equal. lia.
  - intros i E. rewrite E in S. destruct S as [[_ Hi] (m & Hm & _)]. eauto.
Qed.

Lemma seek_sequence_correct_witness :
  let ls := [lit "a"; lit "b "; lit "b"] in
  [lit "b"] <> [] /\ seek_ok ls [lit "b"] 0 false (Some 2) /\ seek_sequence ls [lit "b "; lit "b"] 0 true = Some 1.
Proof.
  intros ls. split; [done|]. split.
  - exact (proj1 (proj2 (seek_sequence_correct ls [lit "b"] 0 false) ltac:(done))).
  - apply (proj2 (seek_sequence_correct ls [lit "b "; lit "b"] 0 false) ltac:(done)) with (m := Exact); [done|].
    apply exact_pass_iff. vm_compute. reflexivity.
Defined.

(** with the end-of-file flag the only position tried is the one that ends
    at the last line; [start] plays no part and there is no second search. *)
Theorem seek_sequence_eof_only lines pattern start i :
  pattern <> [] ->
  seek_sequence lines pattern start true = Some i -> i + length pattern = length lines.
Proof.
  intros Hne H. pose proof (seek_sequence_meets_spec lines pattern start true Hne) as S.
  rewrite H in S. destruct S as [[Ha Hb] _]. simpl in Ha. lia.
Qed.

Lemma seek_sequence_eof_only_witness :
  1 + length [lit "b"] = length [lit "a"; lit "b"].
Proof. apply (seek_sequence_eof_only _ _ 0); [done|]. vm_compute. reflexivity. Defined.

(** The documented fall back to a search from [start] does not happen. *)
Example seek_sequence_no_fallback :
  seek_sequence [lit "a"; lit "b"] [lit "a"] 0 false = Some 0 /\
  seek_sequence [lit "a"; lit "b"] [lit "a"] 0 true = None.
Proof. split; vm_compute; reflexivity. Qed.
