(* ===== verification/PatchSyntax.v ===== *)
(** * The data of [apply_patch]: hunks, chunks and errors

    Models the types of [codex-rs/apply-patch/src/parser.rs] and the error
    types of [codex-rs/apply-patch/src/lib.rs].  A [PathBuf] built from patch
    text is the text itself. *)

From Stdlib Require Import ZArith Lia.
From S2P Require Import Prelude RustStr.

(** ** Markers *)

Definition BEGIN_PATCH_MARKER : str := Eval vm_compute in lit "*** Begin Patch".
Definition END_PATCH_MARKER : str := Eval vm_compute in lit "*** End Patch".
Definition ADD_FILE_MARKER : str := Eval vm_compute in lit "*** Add File: ".
Definition DELETE_FILE_MARKER : str := Eval vm_compute in lit "*** Delete File: ".
Definition UPDATE_FILE_MARKER : str := Eval vm_compute in lit "*** Update File: ".
Definition MOVE_TO_MARKER : str := Eval vm_compute in lit "*** Move to: ".
Definition EOF_MARKER : str := Eval vm_compute in lit "*** End of File".
Definition CHANGE_CONTEXT_MARKER : str := Eval vm_compute in lit "@@ ".
Definition EMPTY_CHANGE_CONTEXT_MARKER : str := Eval vm_compute in lit "@@".
Definition ENVIRONMENT_ID_MARKER : str := Eval vm_compute in lit "*** Environment ID:".

(** ** Hunks *)

Record UpdateFileChunk : Type := mkChunk {
  change_context : option str;
  old_lines : list str;
  new_lines : list str;
  is_end_of_file : bool;
}.

Inductive Hunk : Type :=
  | AddFile (path : str) (contents : str)
  | DeleteFile (path : str)
  | UpdateFile (path : str) (move_path : option str) (chunks : list UpdateFileChunk).

#[export] Instance chunk_eq_dec : EqDecision UpdateFileChunk.
Proof. solve_decision. Defined.
#[export] Instance hunk_eq_dec : EqDecision Hunk.
Proof. solve_decision. Defined.

(** [Hunk::path]: the path affected, the destination for a rename. *)
Definition hunk_path (h : Hunk) : str :=
  match h with
  | AddFile path _ => path
  | DeleteFile path => path
  | UpdateFile _ (Some path) _ => path
  | UpdateFile path None _ => path
  end.

(** The path [Hunk::resolve_path] resolves: the source path of an update. *)
Definition hunk_source_path (h : Hunk) : str :=
  match h with
  | UpdateFile path _ _ => path
  | AddFile _ _ | DeleteFile _ => hunk_path h
  end.

(** ** Errors *)

Inductive ParseError : Type :=
  | InvalidPatchError (message : str)
  | InvalidHunkError (message : str) (line_number : nat).

#[export] Instance parse_error_eq_dec : EqDecision ParseError.
Proof. solve_decision. Defined.

(** [std::io::ErrorKind], the kinds the code distinguishes. *)
Inductive ErrorKind : Type := NotFound | InvalidInput | AlreadyExists | OtherKind.

#[export] Instance error_kind_eq_dec : EqDecision ErrorKind.
Proof. solve_decision. Defined.

Record io_error : Type := mkIoError { kind : ErrorKind; io_message : str }.

#[export] Instance io_error_eq_dec : EqDecision io_error.
Proof. solve_decision. Defined.

Inductive ApplyPatchError : Type :=
  | ParseErrorE (e : ParseError)
  | IoErrorE (context : str) (source : io_error)
  | ComputeReplacements (message : str)
  | PathUriE (message : str)
  | ImplicitInvocation.

#[export] Instance apply_patch_error_eq_dec : EqDecision ApplyPatchError.
Proof. solve_decision. Defined.

Record ApplyPatchArgs : Type := mkArgs {
  patch : str;
  hunks : list Hunk;
  workdir : option str;
  environment_id : option str;
}.
