(* ===== verification/Replacements.v ===== *)
(** * Applying the chunks of an update hunk to the text of a file

    Models [compute_replacements], [apply_replacements] and the text part of
    [derive_new_contents_from_chunks] of [codex-rs/apply-patch/src/lib.rs]. *)

From Stdlib Require Import ZArith Lia Sorted.
From S2P Require Import Prelude RustStr PatchSyntax SeekSequence.

(** ** Definitions *)

(** [(start_index, old_len, new_lines)]. *)
Definition replacement : Type := (nat * nat * list str)%type.

Definition repl_start (r : replacement) : nat := r.1.1.
Definition repl_len (r : replacement) : nat := r.1.2.
Definition repl_new (r : replacement) : list str := r.2.
Arguments repl_start !r /.
Arguments repl_len !r /.
Arguments repl_new !r /.

(** [lines.last().is_some_and(String::is_empty)]. *)
Definition last_is_empty (ls : list str) : bool :=
  match last ls with Some l => is_empty l | None => false end.

Definition context_error (ctx_line path : str) : ApplyPatchError :=
  ComputeReplacements (lit "Failed to find context '" ++ ctx_line ++ lit "' in " ++ path).

Definition lines_error (path : str) (old : list str) : ApplyPatchError :=
  ComputeReplacements
    (lit "Failed to find expected lines in " ++ path ++ lit ":" ++ [LF] ++ join [LF] old).

(** Where a chunk without old lines is inserted. *)
Definition insertion_idx (original_lines : list str) : nat :=
  if last_is_empty original_lines then length original_lines - 1 else length original_lines.

(** The position after the change context, if the chunk has one. *)
Definition seek_context (original_lines : list str) (path : str) (line_index : nat)
    (c : UpdateFileChunk) : result nat ApplyPatchError :=
  match change_context c with
  | Some ctx_line =>
      match seek_sequence original_lines [ctx_line] line_index false with
      | Some idx => Ok (idx + 1)
      | None => Err (context_error ctx_line path)
      end
  | None => Ok line_index
  end.

(** Locating the old lines, retried without a final empty line. *)
Definition seek_old (original_lines : list str) (line_index : nat) (c : UpdateFileChunk)
    : option (nat * list str * list str) :=
  let pattern := old_lines c in
  let new_slice := new_lines c in
  match seek_sequence original_lines pattern line_index (is_end_of_file c) with
  | Some i => Some (i, pattern, new_slice)
  | None =>
      if last_is_empty pattern then
        let pattern := removelast pattern in
        let new_slice := if last_is_empty new_slice then removelast new_slice else new_slice in
        match seek_sequence original_lines pattern line_index (is_end_of_file c) with
        | Some i => Some (i, pattern, new_slice)
        | None => None
        end
      else None
  end.

(** The body of the loop over the chunks: the replacement scheduled and the
    next value of [line_index]. *)
Definition chunk_step (original_lines : list str) (path : str) (line_index : nat)
    (c : UpdateFileChunk) : result (replacement * nat) ApplyPatchError :=
  let? line_index := seek_context original_lines path line_index c in
  if bool_decide (old_lines c = []) then
    Ok ((insertion_idx original_lines, 0, new_lines c), line_index)
  else
    match seek_old original_lines line_index c with
    | Some (start_idx, pattern, new_slice) =>
        Ok ((start_idx, length pattern, new_slice), start_idx + length pattern)
    | None => Err (lines_error path (old_lines c))
    end.

Fixpoint compute_loop (original_lines : list str) (path : str) (line_index : nat)
    (chunks : list UpdateFileChunk) : result (list replacement) ApplyPatchError :=
  match chunks with
  | [] => Ok []
  | c :: chunks' =>
      let? (r, line_index') := chunk_step original_lines path line_index c in
      let? rs := compute_loop original_lines path line_index' chunks' in
      Ok (r :: rs)
  end.

Definition repl_le (r1 r2 : replacement) : bool := (repl_start r1 <=? repl_start r2)%nat.

Definition compute_replacements (original_lines : list str) (path : str)
    (chunks : list UpdateFileChunk) : result (list replacement) ApplyPatchError :=
  let? rs := compute_loop original_lines path 0 chunks in
  Ok (stable_sort repl_le rs).

(** [Vec::insert], which panics past the end ([None]). *)
Definition vec_insert (i : nat) (x : str) (l : list str) : option (list str) :=
  if (i <=? length l)%nat then Some (take i l ++ x :: drop i l) else None.

(** [for _ in 0..old_len { if start_idx < lines.len() { lines.remove(start_idx) } }]. *)
Fixpoint remove_lines (start_idx old_len : nat) (l : list str) : list str :=
  match old_len with
  | O => l
  | S n => remove_lines start_idx n (if (start_idx <? length l)%nat then delete start_idx l else l)
  end.

Fixpoint insert_lines (start_idx : nat) (new_segment : list str) (l : list str)
    : option (list str) :=
  match new_segment with
  | [] => Some l
  | x :: new_segment' =>
      let! l := vec_insert start_idx x l in
      insert_lines (S start_idx) new_segment' l
  end.

Definition apply_replacement (r : replacement) (l : list str) : option (list str) :=
  insert_lines (repl_start r) (repl_new r) (remove_lines (repl_start r) (repl_len r) l).

(** The replacements are applied from the last one to the first. *)
Fixpoint apply_replacements (l : list str) (rs : list replacement) : option (list str) :=
  match rs with
  | [] => Some l
  | r :: rs' => let! l := apply_replacements l rs' in apply_replacement r l
  end.

(** The lines of a file, without the empty piece after a final newline. *)
Definition file_lines (contents : str) : list str :=
  let ls := split_on LF contents in
  if last_is_empty ls then removelast ls else ls.

(** The text written back: the lines with a final newline. *)
Definition lines_text (ls : list str) : str :=
  join [LF] (if last_is_empty ls then ls else ls ++ [[]]).

(** [derive_new_contents_from_chunks] after the file has been read: the outer
    [option] is [None] when [Vec::insert] panics. *)
Definition derive_new_contents (original_contents path : str) (chunks : list UpdateFileChunk)
    : option (result str ApplyPatchError) :=
  let original_lines := file_lines original_contents in
  match compute_replacements original_lines path chunks with
  | Err e => Some (Err e)
  | Ok rs => let! ls := apply_replacements original_lines rs in Some (Ok (lines_text ls))
  end.

(** ** Specification *)

(** Replacements in order, disjoint and inside a file of [len] lines, none
    starting before [pos]. *)
Fixpoint chained (pos len : nat) (rs : list replacement) : Prop :=
  match rs with
  | [] => pos <= len
  | r :: rs' => pos <= repl_start r /\ chained (repl_start r + repl_len r) len rs'
  end.

(** The edited text in one left-to-right pass over the lines from [pos] on. *)
Fixpoint splice (pos : nat) (rest : list str) (rs : list replacement) : list str :=
  match rs with
  | [] => rest
  | r :: rs' =>
      let skip := repl_start r - pos in
      take skip rest ++ repl_new r
        ++ splice (repl_start r + repl_len r) (drop (skip + repl_len r) rest) rs'
  end.

(** The region [r] replaces is where the old lines of [c] were found, possibly
    without a final empty line, and it receives the new lines of [c]. *)
Definition chunk_located (orig : list str) (c : UpdateFileChunk) (r : replacement) : Prop :=
  (exists m, matches_at m orig (old_lines c) (repl_start r))
    /\ repl_len r = length (old_lines c) /\ repl_new r = new_lines c
  \/ last_is_empty (old_lines c) = true
    /\ (exists m, matches_at m orig (removelast (old_lines c)) (repl_start r))
    /\ repl_len r = length (old_lines c) - 1
    /\ repl_new r = (if last_is_empty (new_lines c) then removelast (new_lines c) else new_lines c).

(** A chunk with old lines to find and no end-of-file mark. *)
Definition anchored (c : UpdateFileChunk) : Prop :=
  old_lines c <> [] /\ is_end_of_file c = false.

(** The chunks occur verbatim in [orig], in order and disjointly, from [pos]. *)
Fixpoint occurs_in_order (orig : list str) (pos : nat) (chunks : list UpdateFileChunk) : Prop :=
  match chunks with
  | [] => True
  | c :: chunks' =>
      exists before p,
        pos <= before /\ before <= p /\ p + length (old_lines c) <= length orig
        /\ match change_context c with
           | Some ctx => before < p /\ orig !! before = Some ctx
           | None => True
           end
        /\ take (length (old_lines c)) (drop p orig) = old_lines c
        /\ occurs_in_order orig (p + length (old_lines c)) chunks'
  end.

(** ** Editing lemmas *)

Lemma remove_lines_eq s n l : s <= length l -> remove_lines s n l = take s l ++ drop (s + n) l.
Proof.
  revert l; induction n as [|n IH]; intros l Hs; simpl.
  - by rewrite Nat.add_0_r, take_drop.
  - destruct (s <? length l)%nat eqn:E; boolify.
    + rewrite IH by (rewrite length_delete by (apply lookup_lt_is_Some; lia); lia).
      rewrite delete_take_drop, take_app_le by (rewrite length_take; lia).
      rewrite take_take, Nat.min_id. f_equal.
      rewrite drop_app_ge by (rewrite length_take; lia).
      rewrite drop_drop, length_take. f_equal. lia.
    + rewrite IH by done. by rewrite !(drop_ge l) by lia.
Qed.

Lemma insert_lines_eq s new l :
  s <= length l -> insert_lines s new l = Some (take s l ++ new ++ drop s l).
Proof.
  revert s l; induction new as [|x new IH]; intros s l Hs; simpl.
  - by rewrite take_drop.
  - unfold vec_insert. rewrite (proj2 (Nat.leb_le _ _) Hs). simpl.
    rewrite IH by (rewrite length_app; simpl; rewrite length_take, length_drop; lia).
    assert (length (take s l ++ [x]) = S s) as Hl
      by (rewrite length_app, length_take; simpl; lia).
    change (x :: drop s l) with ([x] ++ drop s l). rewrite (app_assoc _ [x] (drop s l)).
    rewrite (take_app_length' _ _ _ (eq_sym Hl)), (drop_app_length' _ _ _ (eq_sym Hl)).
    by rewrite <-app_assoc.
Qed.

Lemma apply_replacement_eq r l :
  repl_start r <= length l ->
  apply_replacement r l
  = Some (take (repl_start r) l ++ repl_new r ++ drop (repl_start r + repl_len r) l).
Proof.
  intros Hs. unfold apply_replacement. rewrite remove_lines_eq by done.
  assert (length (take (repl_start r) l) = repl_start r) as Hl by (rewrite length_take; lia).
  rewrite insert_lines_eq by (rewrite length_app; lia).
  by rewrite (take_app_length' _ _ _ (eq_sym Hl)), (drop_app_length' _ _ _ (eq_sym Hl)).
Qed.

(** Applying sorted in-range replacements never panics and leaves the lines
    before the first of them alone. *)
Lemma apply_replacements_safe l rs :
  StronglySorted (fun a b => repl_le a b = true) rs ->
  Forall (fun r => repl_start r <= length l) rs ->
  exists l', apply_replacements l rs = Some l' /\
    forall k, k <= length l -> Forall (fun r => k <= repl_start r) rs ->
      k <= length l' /\ take k l' = take k l.
Proof.
  induction 1 as [|r rs Hs IH Hall]; intros Hb; simpl.
  - exists l. split; [done|]. auto.
  - apply Forall_cons in Hb as [Hr Hb]. destruct (IH Hb) as (l' & -> & Hk).
    destruct (Hk (repl_start r)) as [Hlen Htake]; [done| |].
    { eapply Forall_impl; [exact Hall|]. intros a Ha. by apply Nat.leb_le in Ha. }
    rewrite apply_replacement_eq by done. eexists. split; [done|].
    intros k Hkl [Hkr _]%Forall_cons.
    assert (length (take (repl_start r) l') = repl_start r) as Hl by (rewrite length_take; lia).
    rewrite length_app, Hl. split; [lia|].
    rewrite take_app_le by lia. rewrite Htake, take_take. f_equal. lia.
Qed.

Lemma chained_le pos len rs : chained pos len rs -> pos <= len.
Proof. revert pos; induction rs as [|r rs IH]; simpl; intros pos; [done|].
  intros [? H]. apply IH in H. lia. Qed.

Lemma apply_replacements_chained l pos rs :
  chained pos (length l) rs ->
  apply_replacements l rs = Some (take pos l ++ splice pos (drop pos l) rs).
Proof.
  revert pos; induction rs as [|r rs IH]; intros pos; simpl; [by rewrite take_drop|].
  intros [Hp H]. rewrite (IH _ H). pose proof (chained_le _ _ _ H) as Hle.
  set (e := repl_start r + repl_len r) in *.
  assert (length (take e l) = e) as Hl by (rewrite length_take; lia).
  rewrite apply_replacement_eq by (rewrite length_app; lia). fold e.
  rewrite drop_app_length' by done. rewrite take_app_le by lia.
  rewrite take_take, Nat.min_l by lia.
  assert (take (repl_start r) l = take pos l ++ take (repl_start r - pos) (drop pos l)) as ->.
  { rewrite take_take_drop. f_equal. lia. }
  rewrite drop_drop. replace (pos + (repl_start r - pos + repl_len r)) with e by lia.
  by rewrite <-app_assoc.
Qed.

Lemma chained_starts pos len rs :
  chained pos len rs -> Forall (fun r => pos <= repl_start r) rs.
Proof.
  revert pos; induction rs as [|r rs IH]; simpl; intros pos; [constructor|].
  intros [? H]. constructor; [done|]. apply IH in H.
  eapply Forall_impl; [exact H|]. intros a; simpl; lia.
Qed.

Lemma chained_sorted pos len rs :
  chained pos len rs -> StronglySorted (fun a b => repl_le a b = true) rs.
Proof.
  revert pos; induction rs as [|r rs IH]; simpl; intros pos; [constructor|].
  intros [? H]. constructor; [by eapply IH|].
  apply chained_starts in H. eapply Forall_impl; [exact H|].
  intros a Ha. apply Nat.leb_le. simpl in Ha. lia.
Qed.

Lemma repl_le_total a b : repl_le a b = true \/ repl_le b a = true.
Proof. unfold repl_le. rewrite !Nat.leb_le. lia. Qed.

Lemma repl_le_trans a b c : repl_le a b = true -> repl_le b c = true -> repl_le a c = true.
Proof. unfold repl_le. rewrite !Nat.leb_le. lia. Qed.

(** ** The loop over the chunks *)

Lemma seek_context_bounds orig path li c li' :
  li <= length orig -> seek_context orig path li c = Ok li' -> li <= li' <= length orig.
Proof.
  unfold seek_context. intros Hli H. destruct (change_context c) as [ctx|]; [|naive_solver].
  destruct (seek_sequence orig [ctx] li false) as [i|] eqn:E; [|done]. simplify_eq.
  apply seek_sequence_bounds in E as [Hb Hs]; [|done]. simpl in Hb.
  specialize (Hs eq_refl). lia.
Qed.

Lemma seek_old_spec orig li c i pat new :
  li <= length orig -> seek_old orig li c = Some (i, pat, new) ->
  i + length pat <= length orig /\ (is_end_of_file c = false -> li <= i)
  /\ chunk_located orig c (i, length pat, new).
Proof.
  unfold seek_old, chunk_located. intros Hli H.
  destruct (seek_sequence orig (old_lines c) li (is_end_of_file c)) as [j|] eqn:E; simplify_eq.
  - pose proof (seek_sequence_bounds _ _ _ _ _ E Hli) as [??].
    apply seek_sequence_matches in E. naive_solver.
  - destruct (last_is_empty (old_lines c)) eqn:El; [|done].
    destruct (seek_sequence orig (removelast (old_lines c)) li (is_end_of_file c)) as [j|] eqn:E2;
      simplify_eq.
    pose proof (seek_sequence_bounds _ _ _ _ _ E2 Hli) as [??].
    apply seek_sequence_matches in E2. split_and!; [done..|]. right.
    rewrite <-length_removelast. naive_solver.
Qed.

Lemma insertion_idx_le orig : insertion_idx orig <= length orig.
Proof. unfold insertion_idx. destruct (last_is_empty orig); lia. Qed.

Lemma chunk_step_bounds orig path li c r li' :
  li <= length orig -> chunk_step orig path li c = Ok (r, li') ->
  repl_start r + repl_len r <= length orig /\ li <= length orig /\ li' <= length orig.
Proof.
  unfold chunk_step. intros Hli H.
  destruct (seek_context orig path li c) as [li1|] eqn:E; [|done].
  apply seek_context_bounds in E; [|done]. case_bool_decide; simplify_eq.
  - pose proof (insertion_idx_le orig). simpl. lia.
  - destruct (seek_old orig li1 c) as [[[i pat] new]|] eqn:E2; simplify_eq.
    apply seek_old_spec in E2 as (? & ? & ?); [|lia]. simpl. lia.
Qed.

Lemma compute_loop_bounds orig path li chunks rs :
  li <= length orig -> compute_loop orig path li chunks = Ok rs ->
  Forall (fun r => repl_start r + repl_len r <= length orig) rs.
Proof.
  revert li rs; induction chunks as [|c chunks IH]; intros li rs Hli H; simpl in H.
  { simplify_eq. constructor. }
  destruct (chunk_step orig path li c) as [[r li']|] eqn:E; [|done].
  destruct (compute_loop orig path li' chunks) as [rs'|] eqn:E2; simplify_eq.
  apply chunk_step_bounds in E as (? & ? & ?); [|done]. constructor; [done|]. by eapply IH.
Qed.

(** For anchored chunks the schedule is in order and disjoint, and each
    replacement is where its chunk was found. *)
Lemma compute_loop_anchored orig path li chunks rs :
  li <= length orig -> Forall anchored chunks -> compute_loop orig path li chunks = Ok rs ->
  chained li (length orig) rs /\ Forall2 (chunk_located orig) chunks rs.
Proof.
  revert li rs; induction chunks as [|c chunks IH]; intros li rs Hli Ha H; simpl in H.
  { simplify_eq. by repeat constructor. }
  apply Forall_cons in Ha as [[Hne Heof] Ha].
  destruct (chunk_step orig path li c) as [[r li']|] eqn:E; [|done].
  destruct (compute_loop orig path li' chunks) as [rs'|] eqn:E2; simplify_eq.
  pose proof (chunk_step_bounds _ _ _ _ _ _ Hli E) as (_ & _ & Hli').
  destruct (IH _ _ Hli' Ha E2) as [Hc Hl]. unfold chunk_step in E.
  destruct (seek_context orig path li c) as [li1|] eqn:Ec; [|done].
  apply seek_context_bounds in Ec; [|done]. rewrite bool_decide_false in E by done.
  destruct (seek_old orig li1 c) as [[[i pat] new]|] eqn:Eo; simplify_eq.
  apply seek_old_spec in Eo as (? & Hs & ?); [|lia]. specialize (Hs Heof).
  split; [|by constructor]. simpl. split; [lia|done].
Qed.

Lemma compute_loop_finds orig path li pos chunks :
  li <= pos -> Forall anchored chunks -> occurs_in_order orig pos chunks ->
  exists rs, compute_loop orig path li chunks = Ok rs.
Proof.
  revert li pos; induction chunks as [|c chunks IH]; intros li pos Hli Ha H; simpl; [by eexists|].
  apply Forall_cons in Ha as [[Hne Heof] Ha].
  destruct H as (b & p & Hb & Hp & Hlen & Hctx & Hm & Hrest).
  assert (exists li1, seek_context orig path li c = Ok li1 /\ li1 <= p) as (li1 & Ec & Hl1).
  { unfold seek_context. destruct (change_context c) as [ctx|]; [|eexists; split; [done|lia]].
    destruct Hctx as [Hbp Hlk].
    destruct (seek_sequence_finds orig [ctx] li b) as (i & -> & Hi); [done|lia|simpl; lia| |].
    { simpl. by rewrite (drop_S _ _ _ Hlk). }
    eexists. split; [done|]. lia. }
  unfold chunk_step. rewrite Ec, bool_decide_false by done. unfold seek_old. rewrite Heof.
  destruct (seek_sequence_finds orig (old_lines c) li1 p) as (i & -> & Hi); [done..|].
  destruct (IH (i + length (old_lines c)) (p + length (old_lines c))) as (rs & ->);
    [lia|done|done|]. by eexists.
Qed.

(** ** File text as lines *)

Lemma split_on_snoc_sep c t : split_on c (t ++ [c]) = split_on c t ++ [[]].
Proof.
  induction t as [|x t IH]; simpl; [by rewrite N.eqb_refl|].
  destruct (x =? c)%N; [by rewrite IH|]. rewrite IH.
  destruct (split_on c t) eqn:E; [by apply split_on_nonnil in E|done].
Qed.

Lemma last_split_on_snoc c t x : x <> c ->
  exists l, last (split_on c (t ++ [x])) = Some (l ++ [x]).
Proof.
  intros Hx. induction t as [|y t [l IH]]; simpl.
  - destruct (N.eqb_spec x c); [done|]. by exists [].
  - destruct (split_on c (t ++ [x])) as [|h k] eqn:E; [by apply split_on_nonnil in E|].
    destruct (y =? c)%N; [by exists l|]. destruct k as [|h' k]; [|by exists l].
    simpl in IH. simplify_eq. by exists (y :: l).
Qed.

Lemma join_snoc_nil ls : ls <> [] -> join [LF] (ls ++ [[]]) = join [LF] ls ++ [LF].
Proof.
  induction ls as [|l ls IH]; [done|]. intros _. destruct ls as [|l' ls]; [done|].
  change (join [LF] ((l :: l' :: ls) ++ [[]])) with (l ++ [LF] ++ join [LF] ((l' :: ls) ++ [[]])).
  rewrite IH by done. change (join [LF] (l :: l' :: ls)) with (l ++ [LF] ++ join [LF] (l' :: ls)).
  by rewrite <-!app_assoc.
Qed.

Lemma last_is_empty_snoc ls l : last_is_empty (ls ++ [l]) = is_empty l.
Proof. unfold last_is_empty. by rewrite last_snoc. Qed.

Lemma file_lines_snoc t : file_lines (t ++ [LF]) = split_on LF t.
Proof.
  unfold file_lines. by rewrite split_on_snoc_sep, last_is_empty_snoc, removelast_snoc.
Qed.

Lemma last_is_empty_split_snoc t x : x <> LF -> last_is_empty (split_on LF (t ++ [x])) = false.
Proof.
  intros Hx. destruct (last_split_on_snoc LF t x Hx) as [l E].
  unfold last_is_empty. rewrite E. by destruct l.
Qed.

Lemma lines_text_newline ls : lines_text ls = [] \/ last (lines_text ls) = Some LF.
Proof.
  unfold lines_text. destruct ls as [|l ls _] using rev_ind; [by left|].
  rewrite last_is_empty_snoc. destruct l as [|x l]; simpl.
  - destruct ls as [|l' ls]; [by left|]. right. rewrite join_snoc_nil by done. apply last_snoc.
  - right. rewrite join_snoc_nil by by destruct ls. apply last_snoc.
Qed.

Lemma derive_total contents path chunks :
  exists r, derive_new_contents contents path chunks = Some r.
Proof.
  unfold derive_new_contents, compute_replacements.
  destruct (compute_loop (file_lines contents) path 0 chunks) as [rs|] eqn:E; [|by eexists].
  apply compute_loop_bounds in E; [|lia].
  destruct (apply_replacements_safe (file_lines contents) (stable_sort repl_le rs)) as (l' & -> & _);
    [| |by eexists].
  - apply stable_sort_sorted; [apply repl_le_total|apply repl_le_trans].
  - apply Forall_forall. intros r Hr. rewrite stable_sort_elem in Hr.
    eapply Forall_forall in E; [|exact Hr]. simpl in E. lia.
Qed.

(** ** Theorems *)

(** applying chunks never panics: whatever the chunks and the file, every
    removal and insertion index is in range, so the outcome is a text or a
    [ComputeReplacements] error. *)
Theorem derive_new_contents_no_panic contents path chunks :
  exists r, derive_new_contents contents path chunks = Some r.
Proof. apply derive_total. Qed.

(** for chunks that have old lines and no end-of-file mark, a successful
    update is the left-to-right splice of the file: one replacement per chunk,
    in file order and disjoint, each over lines that match the chunk's old
    lines, every other line copied unchanged. *)
Theorem derive_new_contents_splices contents path chunks text :
  Forall anchored chunks ->
  derive_new_contents contents path chunks = Some (Ok text) ->
  exists rs, Forall2 (chunk_located (file_lines contents)) chunks rs
    /\ chained 0 (length (file_lines contents)) rs
    /\ text = lines_text (splice 0 (file_lines contents) rs).
Proof.
  unfold derive_new_contents, compute_replacements. intros Ha H.
  destruct (compute_loop (file_lines contents) path 0 chunks) as [rs|] eqn:E; [|done].
  apply compute_loop_anchored in E as [Hc Hl]; [|lia|done]. exists rs.
  rewrite stable_sort_id in H by by eapply chained_sorted.
  rewrite (apply_replacements_chained _ _ _ Hc) in H. simpl in H. by simplify_eq.
Qed.

Definition demo_chunks : list UpdateFileChunk :=
  [mkChunk (Some (lit "def f():")) [lit "    pass"] [lit "    return 1"; lit ""] false].

Definition demo_file : str :=
  join [LF] [lit "x = 1"; lit "def f():"; lit "    pass"; lit "y = 2"; lit ""].

Definition demo_result : str :=
  join [LF] [lit "x = 1"; lit "def f():"; lit "    return 1"; lit ""; lit "y = 2"; lit ""].

Lemma derive_new_contents_splices_witness :
  exists rs, Forall2 (chunk_located (file_lines demo_file)) demo_chunks rs
    /\ chained 0 (length (file_lines demo_file)) rs
    /\ demo_result = lines_text (splice 0 (file_lines demo_file) rs).
Proof.
  apply (derive_new_contents_splices demo_file (lit "a.py")).
  - repeat constructor; done.
  - vm_compute. reflexivity.
Defined.

(** a patch whose old lines (and change contexts) occur verbatim in the
    file, in order and disjointly, always applies. *)
Theorem derive_new_contents_succeeds contents path chunks :
  Forall anchored chunks -> occurs_in_order (file_lines contents) 0 chunks ->
  exists text, derive_new_contents contents path chunks = Some (Ok text).
Proof.
  intros Ha Ho. destruct (derive_total contents path chunks) as [r Hr].
  destruct (compute_loop_finds (file_lines contents) path 0 0 chunks) as [rs E]; [lia|done|done|].
  rewrite Hr. unfold derive_new_contents, compute_replacements in Hr. rewrite E in Hr.
  destruct (apply_replacements _ _); simplify_eq. by eexists.
Qed.

Lemma derive_new_contents_succeeds_witness :
  exists text, derive_new_contents demo_file (lit "a.py") demo_chunks = Some (Ok text).
Proof.
  apply derive_new_contents_succeeds.
  - repeat constructor; done.
  - exists 1, 2. vm_compute. split_and!; try lia; try reflexivity; exact I.
Defined.

(** an updated file is empty or ends in a newline. *)
Theorem derive_new_contents_newline contents path chunks text :
  derive_new_contents contents path chunks = Some (Ok text) -> text = [] \/ last text = Some LF.
Proof.
  unfold derive_new_contents. intros H. repeat case_hyp H; simplify_eq. apply lines_text_newline.
Qed.

Lemma derive_new_contents_newline_witness :
  demo_result = [] \/ last demo_result = Some LF.
Proof.
  apply (derive_new_contents_newline demo_file (lit "a.py") demo_chunks).
  vm_compute. reflexivity.
Defined.

(** what rewriting a file that no chunk changes does to its end: text ending
    in exactly one newline is kept, a missing final newline is added, and a
    file ending in a blank line loses one newline. *)
Theorem derive_new_contents_unchanged_end t x path :
  x <> LF ->
  derive_new_contents (t ++ [x; LF]) path [] = Some (Ok (t ++ [x; LF]))
  /\ derive_new_contents (t ++ [x]) path [] = Some (Ok (t ++ [x; LF]))
  /\ derive_new_contents (t ++ [LF; LF]) path [] = Some (Ok (t ++ [LF])).
Proof.
  intros Hx. unfold derive_new_contents. simpl.
  assert (split_on LF (t ++ [x]) <> []) as Hn by apply split_on_nonnil.
  pose proof (last_is_empty_split_snoc t x Hx) as Hl.
  split_and!; do 2 f_equal; unfold lines_text.
  - rewrite (app_assoc t [x] [LF] : t ++ [x; LF] = _), file_lines_snoc, Hl.
    by rewrite join_snoc_nil, join_split_on.
  - unfold file_lines. rewrite Hl, Hl. rewrite join_snoc_nil, join_split_on by done.
    by rewrite <-app_assoc.
  - rewrite (app_assoc t [LF] [LF] : t ++ [LF; LF] = _), file_lines_snoc.
    assert (last_is_empty (split_on LF (t ++ [LF])) = true) as ->
      by (rewrite split_on_snoc_sep; apply last_is_empty_snoc).
    apply join_split_on.
Qed.

Lemma derive_new_contents_unchanged_end_witness :
  derive_new_contents (lit "a" ++ [LF; LF]) (lit "f") [] = Some (Ok (lit "a" ++ [LF])).
Proof. apply (derive_new_contents_unchanged_end (lit "a") 98%N (lit "f")). done. Defined.

(** a chunk without old lines is inserted before a final blank line of the
    file even when an earlier chunk replaces that blank line: the replacement
    then removes the added line instead, and the addition is lost. *)
Theorem derive_new_contents_addition_lost :
  derive_new_contents (lit "a" ++ [LF; LF]) (lit "f")
    [mkChunk None [lit "a"; lit ""] [lit "b"; lit ""] false;
     mkChunk None [] [lit "c"] false]
  = Some (Ok (lit "b" ++ [LF; LF])).
Proof. vm_compute. reflexivity. Qed.
