(* ===== verification/StreamingParser.v ===== *)
(** * The line-oriented patch parser

    Models [codex-rs/apply-patch/src/streaming_parser.rs]: a state machine that
    receives the patch text in pieces, collects lines and builds hunks. *)

From Stdlib Require Import ZArith Lia.
From S2P Require Import Prelude RustStr PatchSyntax.

(** ** State *)

Inductive StreamingParserMode : Type :=
  | NotStarted
  | StartedPatch
  | AddFileMode
  | DeleteFileMode
  | UpdateFileMode (hunk_line_number : nat)
  | EndedPatch.

#[export] Instance mode_eq_dec : EqDecision StreamingParserMode.
Proof. solve_decision. Defined.

Record StreamingPatchParser : Type := mkParser {
  line_buffer : str;
  mode : StreamingParserMode;
  parsed_hunks : list Hunk;
  parsed_environment_id : option str;
  line_number : nat;
}.

Definition default_parser : StreamingPatchParser := mkParser [] NotStarted [] None 0.

Definition set_mode (m : StreamingParserMode) (p : StreamingPatchParser) : StreamingPatchParser :=
  mkParser (line_buffer p) m (parsed_hunks p) (parsed_environment_id p) (line_number p).
Definition set_hunks (hs : list Hunk) (p : StreamingPatchParser) : StreamingPatchParser :=
  mkParser (line_buffer p) (mode p) hs (parsed_environment_id p) (line_number p).
Definition set_environment_id (e : str) (p : StreamingPatchParser) : StreamingPatchParser :=
  mkParser (line_buffer p) (mode p) (parsed_hunks p) (Some e) (line_number p).
Definition push_hunk (h : Hunk) (p : StreamingPatchParser) : StreamingPatchParser :=
  set_hunks (parsed_hunks p ++ [h]) p.
(** Assignment through [self.state.hunks.last_mut()]. *)
Definition set_last_hunk (h : Hunk) (p : StreamingPatchParser) : StreamingPatchParser :=
  set_hunks (removelast (parsed_hunks p) ++ [h]) p.

(** [std::mem::take(&mut self.line_buffer)] with [self.line_number += 1]. *)
Definition take_line (p : StreamingPatchParser) : StreamingPatchParser :=
  mkParser [] (mode p) (parsed_hunks p) (parsed_environment_id p) (S (line_number p)).
Definition buffer_char (c : N) (p : StreamingPatchParser) : StreamingPatchParser :=
  mkParser (line_buffer p ++ [c]) (mode p) (parsed_hunks p) (parsed_environment_id p) (line_number p).

(** ** Messages *)

Definition first_line_error : ParseError :=
  InvalidPatchError (lit "The first line of the patch must be '*** Begin Patch'").
Definition last_line_error : ParseError :=
  InvalidPatchError (lit "The last line of the patch must be '*** End Patch'").
Definition empty_update_message (path : str) : str :=
  lit "Update file hunk for path '" ++ path ++ lit "' is empty".
Definition no_lines_message : str := lit "Update hunk does not contain any lines".
Definition unexpected_line_message (line : str) : str :=
  lit "Unexpected line found in update hunk: '" ++ line
  ++ lit "'. Every line should start with ' ' (context line), '+' (added line), or '-' (removed line)".
Definition expected_context_message (line : str) : str :=
  lit "Expected update hunk to start with a @@ context marker, got: '" ++ line ++ lit "'".
Definition invalid_header_message (trimmed : str) : str :=
  lit "'" ++ trimmed
  ++ lit "' is not a valid hunk header. Valid hunk headers: '*** Add File: {path}', '*** Delete File: {path}', '*** Update File: {path}'".

(** ** Operations *)

Definition chunk_is_empty (c : UpdateFileChunk) : bool :=
  bool_decide (old_lines c = []) && bool_decide (new_lines c = []).

(** [chunks.last().is_some_and(f)]. *)
Definition last_chunk_is (f : UpdateFileChunk -> bool) (chunks : list UpdateFileChunk) : bool :=
  match last chunks with Some c => f c | None => false end.

Definition ensure_update_hunk_is_not_empty (p : StreamingPatchParser) (line : str)
    : result unit ParseError :=
  match last (parsed_hunks p) with
  | Some (UpdateFile path _ chunks) =>
      match chunks, mode p with
      | [], UpdateFileMode n => Err (InvalidHunkError (empty_update_message path) n)
      | _, _ =>
          if last_chunk_is chunk_is_empty chunks then
            if bool_decide (line = END_PATCH_MARKER)
            then Err (InvalidHunkError no_lines_message (line_number p))
            else Err (InvalidHunkError (unexpected_line_message line) (line_number p))
          else Ok tt
      end
  | _ => Ok tt
  end.

Definition is_started (m : StreamingParserMode) : bool :=
  match m with StartedPatch => true | _ => false end.

(** [handle_hunk_headers_and_end_patch] after the environment line: [None] when
    the line is no header. *)
Definition handle_headers (p : StreamingPatchParser) (trimmed : str)
    : result (option StreamingPatchParser) ParseError :=
  if bool_decide (trimmed = END_PATCH_MARKER) then
    let? _ := ensure_update_hunk_is_not_empty p trimmed in
    Ok (Some (set_mode EndedPatch p))
  else
  match strip_prefix ADD_FILE_MARKER trimmed with
  | Some path =>
      let? _ := ensure_update_hunk_is_not_empty p trimmed in
      Ok (Some (set_mode AddFileMode (push_hunk (AddFile path []) p)))
  | None =>
  match strip_prefix DELETE_FILE_MARKER trimmed with
  | Some path =>
      let? _ := ensure_update_hunk_is_not_empty p trimmed in
      Ok (Some (set_mode DeleteFileMode (push_hunk (DeleteFile path) p)))
  | None =>
  match strip_prefix UPDATE_FILE_MARKER trimmed with
  | Some path =>
      let? _ := ensure_update_hunk_is_not_empty p trimmed in
      Ok (Some (set_mode (UpdateFileMode (line_number p)) (push_hunk (UpdateFile path None []) p)))
  | None => Ok None
  end end end.

Definition handle_hunk_headers_and_end_patch (p : StreamingPatchParser) (trimmed : str)
    : result (option StreamingPatchParser) ParseError :=
  match (if is_started (mode p) then strip_prefix ENVIRONMENT_ID_MARKER trimmed else None) with
  | Some environment_id =>
      match parsed_environment_id p with
      | Some _ => Err (InvalidPatchError
          (lit "apply_patch environment_id cannot be specified more than once"))
      | None =>
          let environment_id := trim environment_id in
          if is_empty environment_id
          then Err (InvalidPatchError (lit "apply_patch environment_id cannot be empty"))
          else Ok (Some (set_environment_id environment_id p))
      end
  | None => handle_headers p trimmed
  end.

Definition empty_chunk (ctx : option str) : UpdateFileChunk := mkChunk ctx [] [] false.

(** [if let Some(chunk) = chunks.last_mut() { f(chunk) }]. *)
Definition update_last_chunk (f : UpdateFileChunk -> UpdateFileChunk)
    (chunks : list UpdateFileChunk) : list UpdateFileChunk :=
  match last chunks with Some c => removelast chunks ++ [f c] | None => chunks end.

(** The same after pushing a fresh chunk when there is none. *)
Definition update_or_push (f : UpdateFileChunk -> UpdateFileChunk)
    (chunks : list UpdateFileChunk) : list UpdateFileChunk :=
  update_last_chunk f (match chunks with [] => [empty_chunk None] | _ => chunks end).

Definition add_old (l : str) (c : UpdateFileChunk) : UpdateFileChunk :=
  mkChunk (change_context c) (old_lines c ++ [l]) (new_lines c) (is_end_of_file c).
Definition add_new (l : str) (c : UpdateFileChunk) : UpdateFileChunk :=
  mkChunk (change_context c) (old_lines c) (new_lines c ++ [l]) (is_end_of_file c).
Definition add_both (l : str) (c : UpdateFileChunk) : UpdateFileChunk := add_new l (add_old l c).
Definition mark_eof (c : UpdateFileChunk) : UpdateFileChunk :=
  mkChunk (change_context c) (old_lines c) (new_lines c) true.

Definition is_context_line (update_line : str) : bool :=
  bool_decide (update_line = EMPTY_CHANGE_CONTEXT_MARKER)
  || starts_with CHANGE_CONTEXT_MARKER update_line.

(** The body of the update mode for a line that is no header; the results are
    the new move path and chunks of the last hunk. *)
Definition update_body (ln : nat) (line update_line : str)
    (move_path : option str) (chunks : list UpdateFileChunk)
    : result (option str * list UpdateFileChunk) ParseError :=
  if last_chunk_is is_end_of_file chunks && is_empty update_line then Ok (move_path, chunks)
  else if last_chunk_is is_end_of_file chunks && negb (is_context_line update_line)
  then Err (InvalidHunkError (expected_context_message line) ln)
  else
  match (match chunks, move_path with
         | [], None => strip_prefix MOVE_TO_MARKER update_line
         | _, _ => None
         end) with
  | Some move_to_path => Ok (Some move_to_path, chunks)
  | None =>
  if is_context_line update_line && last_chunk_is chunk_is_empty chunks
  then Err (InvalidHunkError (unexpected_line_message line) ln)
  else if bool_decide (update_line = EMPTY_CHANGE_CONTEXT_MARKER)
  then Ok (move_path, chunks ++ [empty_chunk None])
  else
  match strip_prefix CHANGE_CONTEXT_MARKER update_line with
  | Some ctx => Ok (move_path, chunks ++ [empty_chunk (Some ctx)])
  | None =>
  if bool_decide (update_line = EOF_MARKER) then
    if last_chunk_is chunk_is_empty chunks
    then Err (InvalidHunkError no_lines_message ln)
    else Ok (move_path, update_last_chunk mark_eof chunks)
  else if is_empty line then Ok (move_path, update_or_push (add_both []) chunks)
  else
  match strip_prefix [SPACE] line with
  | Some line_to_add => Ok (move_path, update_or_push (add_both line_to_add) chunks)
  | None =>
  match strip_prefix [PLUS] line with
  | Some line_to_add => Ok (move_path, update_or_push (add_new line_to_add) chunks)
  | None =>
  match strip_prefix [MINUS] line with
  | Some line_to_remove => Ok (move_path, update_or_push (add_old line_to_remove) chunks)
  | None =>
      if last_chunk_is (fun c => negb (chunk_is_empty c)) chunks
      then Err (InvalidHunkError (expected_context_message line) ln)
      else Err (InvalidHunkError (unexpected_line_message line) ln)
  end end end end end.

(** [process_line]; on an error the parser is left as it was. *)
Definition process_line (p : StreamingPatchParser) (line : str)
    : result StreamingPatchParser ParseError :=
  let trimmed := trim line in
  match mode p with
  | NotStarted =>
      if bool_decide (trimmed = BEGIN_PATCH_MARKER) then Ok (set_mode StartedPatch p)
      else Err first_line_error
  | StartedPatch | DeleteFileMode =>
      let? handled := handle_hunk_headers_and_end_patch p trimmed in
      match handled with
      | Some p' => Ok p'
      | None => Err (InvalidHunkError (invalid_header_message trimmed) (line_number p))
      end
  | AddFileMode =>
      let? handled := handle_hunk_headers_and_end_patch p trimmed in
      match handled with
      | Some p' => Ok p'
      | None =>
          match strip_prefix [PLUS] line, last (parsed_hunks p) with
          | Some line_to_add, Some (AddFile path contents) =>
              Ok (set_last_hunk (AddFile path (contents ++ line_to_add ++ [LF])) p)
          | _, _ => Err (InvalidHunkError (invalid_header_message trimmed) (line_number p))
          end
      end
  | UpdateFileMode hunk_line_number =>
      let update_line := trim_end line in
      let? handled := handle_hunk_headers_and_end_patch p update_line in
      match handled with
      | Some p' => Ok p'
      | None =>
          match last (parsed_hunks p) with
          | Some (UpdateFile path move_path chunks) =>
              let? (move_path', chunks') :=
                update_body (line_number p) line update_line move_path chunks in
              Ok (set_last_hunk (UpdateFile path move_path' chunks') p)
          | _ => Err (InvalidHunkError (unexpected_line_message line) (line_number p))
          end
      end
  | EndedPatch => if is_empty trimmed then Ok p else Err last_line_error
  end.

(** [push_delta]; after an error the consumed characters stay consumed. *)
Fixpoint push_delta (p : StreamingPatchParser) (delta : str)
    : StreamingPatchParser * result (list Hunk) ParseError :=
  match delta with
  | [] => (p, Ok (parsed_hunks p))
  | ch :: delta' =>
      if (ch =? LF)%N then
        let line := strip_cr (line_buffer p) in
        match process_line (take_line p) line with
        | Ok p' => push_delta p' delta'
        | Err e => (take_line p, Err e)
        end
      else push_delta (buffer_char ch p) delta'
  end.

Definition finish_line (p : StreamingPatchParser) : StreamingPatchParser * result unit ParseError :=
  if is_empty (line_buffer p) then (p, Ok tt)
  else
    let line := line_buffer p in
    let p := take_line p in
    if bool_decide (trim line = END_PATCH_MARKER) then
      match ensure_update_hunk_is_not_empty p (trim line) with
      | Ok _ => (set_mode EndedPatch p, Ok tt)
      | Err e => (p, Err e)
      end
    else
      match process_line p line with Ok p' => (p', Ok tt) | Err e => (p, Err e) end.

Definition finish (p : StreamingPatchParser)
    : StreamingPatchParser * result (list Hunk) ParseError :=
  match finish_line p with
  | (p', Err e) => (p', Err e)
  | (p', Ok _) =>
      match mode p' with
      | EndedPatch => (p', Ok (parsed_hunks p'))
      | _ => (p', Err last_line_error)
      end
  end.

(** ** Streaming *)

Lemma push_delta_app p a b :
  push_delta p (a ++ b) =
  match push_delta p a with
  | (p', Ok _) => push_delta p' b
  | (p', Err e) => (p', Err e)
  end.
Proof.
  revert p; induction a as [|c a IH]; intros p; simpl; [done|].
  destruct (c =? LF)%N; [|apply IH].
  destruct (process_line (take_line p) (strip_cr (line_buffer p))); [apply IH|done].
Qed.

(** The deltas of a stream, pushed until one fails. *)
Fixpoint push_all (p : StreamingPatchParser) (deltas : list str)
    : StreamingPatchParser * result (list Hunk) ParseError :=
  match deltas with
  | [] => (p, Ok (parsed_hunks p))
  | d :: deltas' =>
      match push_delta p d with
      | (p', Ok _) => push_all p' deltas'
      | (p', Err e) => (p', Err e)
      end
  end.

(** the parse does not depend on how the text is cut into deltas: pushing
    the pieces one after the other, stopping at the first error, leaves the
    parser in the state and with the outcome of one push of the whole text. *)
Theorem push_delta_chunking p deltas : push_all p deltas = push_delta p (concat deltas).
Proof.
  revert p. induction deltas as [|d deltas IH]; intros p; simpl; [done|].
  rewrite push_delta_app. destruct (push_delta p d) as [q [hs|e]]; [apply IH|done].
Qed.

(** ** Well-formed parser states *)

Definition complete_chunk (c : UpdateFileChunk) : Prop := chunk_is_empty c = false.

Definition complete_hunk (h : Hunk) : Prop :=
  match h with
  | UpdateFile _ _ chunks => chunks <> [] /\ Forall complete_chunk chunks
  | _ => True
  end.

(** The hunk being read: only its last chunk may still be empty. *)
Definition open_hunk (h : Hunk) : Prop :=
  match h with
  | UpdateFile _ _ chunks => Forall complete_chunk (removelast chunks)
  | _ => True
  end.

Definition mode_agrees (m : StreamingParserMode) (hs : list Hunk) : Prop :=
  match m with
  | NotStarted | StartedPatch => hs = []
  | AddFileMode => exists path c, last hs = Some (AddFile path c)
  | DeleteFileMode => exists path, last hs = Some (DeleteFile path)
  | UpdateFileMode _ => exists path mv cs, last hs = Some (UpdateFile path mv cs)
  | EndedPatch => Forall complete_hunk hs
  end.

Definition parser_inv (p : StreamingPatchParser) : Prop :=
  Forall complete_hunk (removelast (parsed_hunks p))
  /\ (forall h, last (parsed_hunks p) = Some h -> open_hunk h)
  /\ mode_agrees (mode p) (parsed_hunks p).

Lemma last_chunk_not_empty chunks :
  Forall complete_chunk (removelast chunks) -> last_chunk_is chunk_is_empty chunks = false ->
  Forall complete_chunk chunks.
Proof.
  unfold last_chunk_is. destruct chunks as [|c chunks _] using rev_ind; [done|].
  rewrite last_snoc, removelast_snoc. intros ??. apply Forall_app; split; [done|]. by constructor.
Qed.

Lemma update_last_chunk_snoc f cs c : update_last_chunk f (cs ++ [c]) = cs ++ [f c].
Proof. unfold update_last_chunk. by rewrite last_snoc, removelast_snoc. Qed.

Lemma update_last_chunk_open f chunks :
  Forall complete_chunk (removelast chunks) ->
  Forall complete_chunk (removelast (update_last_chunk f chunks)).
Proof.
  destruct chunks as [|c chunks _] using rev_ind; [done|].
  by rewrite update_last_chunk_snoc, !removelast_snoc.
Qed.

Lemma update_or_push_open f chunks :
  Forall complete_chunk (removelast chunks) ->
  Forall complete_chunk (removelast (update_or_push f chunks)).
Proof.
  unfold update_or_push. intros H. apply update_last_chunk_open. by destruct chunks.
Qed.

Lemma update_body_open ln line ul mv chunks mv' chunks' :
  Forall complete_chunk (removelast chunks) ->
  update_body ln line ul mv chunks = Ok (mv', chunks') ->
  Forall complete_chunk (removelast chunks').
Proof.
  unfold update_body. intros H Hb.
  assert (last_chunk_is chunk_is_empty chunks = false -> forall ctx,
    Forall complete_chunk (removelast (chunks ++ [empty_chunk ctx]))) as Hpush.
  { intros Hl ctx. rewrite removelast_snoc. by apply last_chunk_not_empty. }
  unfold is_context_line, starts_with in Hb.
  repeat case_hyp Hb; simplify_eq; simpl in *; boolify;
    eauto using update_last_chunk_open, update_or_push_open.
  all: destruct (last_chunk_is chunk_is_empty chunks) eqn:El; [|by apply Hpush].
  all: by rewrite ?andb_true_r, ?orb_true_r in *.
Qed.

Lemma removelast_last_Forall {A} (P : A -> Prop) l :
  Forall P (removelast l) -> (forall x, last l = Some x -> P x) -> Forall P l.
Proof.
  destruct l as [|x l _] using rev_ind; [constructor|].
  rewrite removelast_snoc, last_snoc. intros ? H. apply Forall_app; split; [done|].
  constructor; [by apply H|constructor].
Qed.

(** Once [ensure_update_hunk_is_not_empty] passes, every hunk is complete. *)
Lemma ensure_complete p line :
  parser_inv p -> mode p <> EndedPatch -> ensure_update_hunk_is_not_empty p line = Ok tt ->
  Forall complete_hunk (parsed_hunks p).
Proof.
  intros (Hc & Ho & Hm) Hne H. apply removelast_last_Forall; [done|].
  intros h Hl. specialize (Ho h Hl). unfold ensure_update_hunk_is_not_empty in H.
  rewrite Hl in H. destruct h as [| |path mv cs]; [done..|]. simpl in Ho |- *.
  destruct cs as [|c cs].
  - destruct (mode p) eqn:E; simpl in Hm; try done;
      first [rewrite Hm in Hl; done | destruct Hm as (? & Hm); destruct_and?; naive_solver].
  - split; [done|]. apply last_chunk_not_empty; [done|].
    destruct (last_chunk_is chunk_is_empty (c :: cs)); [|done]. by case_bool_decide.
Qed.

Lemma parser_inv_push p m h :
  Forall complete_hunk (parsed_hunks p) -> open_hunk h ->
  mode_agrees m (parsed_hunks p ++ [h]) ->
  parser_inv (set_mode m (push_hunk h p)).
Proof.
  intros Hc Ho Hm. unfold parser_inv. simpl. rewrite removelast_snoc, last_snoc.
  split_and!; [done| |done]. by intros ? [= <-].
Qed.

Lemma parser_inv_complete_set_mode p :
  Forall complete_hunk (parsed_hunks p) -> parser_inv (set_mode EndedPatch p).
Proof.
  intros H. unfold parser_inv. simpl. split_and!; [| |done].
  - destruct (parsed_hunks p) as [|h hs _] using rev_ind; [done|].
    rewrite removelast_snoc. by apply Forall_app in H as [? _].
  - intros h Hl. destruct h as [| |path mv cs]; [done..|]. simpl.
    apply last_removelast in Hl. rewrite Hl in H. apply Forall_app in H as [_ H].
    apply Forall_singleton in H as [_ H].
    destruct cs as [|c cs _] using rev_ind; [done|]. rewrite removelast_snoc.
    by apply Forall_app in H as [? _].
Qed.

Lemma handle_headers_inv p line p' :
  parser_inv p -> mode p <> EndedPatch ->
  handle_hunk_headers_and_end_patch p line = Ok (Some p') -> parser_inv p'.
Proof.
  intros Hi Hne H. unfold handle_hunk_headers_and_end_patch in H.
  destruct (if is_started _ then _ else _) as [e|] eqn:Ee.
  { repeat case_hyp H. simplify_eq. exact Hi. }
  unfold handle_headers in H.
  destruct (ensure_update_hunk_is_not_empty p line) as [[]|] eqn:E;
    [|repeat case_hyp H; done].
  apply ensure_complete in E; [|done..].
  repeat case_hyp H; simplify_eq;
    first [ by apply parser_inv_complete_set_mode
          | apply parser_inv_push; simpl; rewrite ?last_snoc; eauto ].
Qed.

Lemma parser_inv_set_last p h :
  parser_inv p -> open_hunk h -> mode p <> EndedPatch ->
  mode_agrees (mode p) (removelast (parsed_hunks p) ++ [h]) ->
  parser_inv (set_last_hunk h p).
Proof.
  intros (Hc & _ & _) Ho Hne Hm. unfold parser_inv. simpl. rewrite removelast_snoc, last_snoc.
  split_and!; [done| |done]. by intros ? [= <-].
Qed.

Lemma process_line_inv p line p' :
  parser_inv p -> process_line p line = Ok p' -> parser_inv p'.
Proof.
  intros Hi H. unfold process_line in H. destruct (mode p) eqn:Em; cbv zeta in H.
  - case_bool_decide; simplify_eq. destruct Hi as (? & ? & Hm). by rewrite Em in Hm.
  - repeat case_hyp H; simplify_eq. eapply handle_headers_inv; [done| |done]. by rewrite Em.
  - destruct (handle_hunk_headers_and_end_patch p (trim line)) as [[q|]|] eqn:E; simplify_eq.
    { eapply handle_headers_inv; [done| |done]. by rewrite Em. }
    repeat case_hyp H; simplify_eq. apply parser_inv_set_last; [done..|by rewrite Em|].
    rewrite Em. simpl. rewrite last_snoc. eauto.
  - repeat case_hyp H; simplify_eq. eapply handle_headers_inv; [done| |done]. by rewrite Em.
  - destruct (handle_hunk_headers_and_end_patch p (trim_end line)) as [[q|]|] eqn:E; simplify_eq.
    { eapply handle_headers_inv; [done| |done]. by rewrite Em. }
    destruct (last (parsed_hunks p)) as [[| |path mv cs]|] eqn:El; [done..| |done].
    destruct (update_body _ _ _ _ _) as [[mv' cs']|] eqn:Eb; simplify_eq.
    apply parser_inv_set_last; [done| |by rewrite Em|].
    + destruct Hi as (_ & Ho & _). apply Ho in El. simpl in *. by eapply update_body_open.
    + rewrite Em. simpl. rewrite last_snoc. eauto.
  - case_hyp H. by simplify_eq.
Qed.

Lemma parser_inv_take_line p : parser_inv p -> parser_inv (take_line p).
Proof. done. Qed.

Lemma push_delta_inv p delta p' r : parser_inv p -> push_delta p delta = (p', r) -> parser_inv p'.
Proof.
  revert p; induction delta as [|c delta IH]; intros p Hi H; simpl in H; [by simplify_eq|].
  destruct (c =? LF)%N; [|eapply (IH (buffer_char c p)); [exact Hi|done]].
  destruct (process_line (take_line p) _) as [q|] eqn:E; [|by simplify_eq].
  eapply IH; [|done]. eapply process_line_inv, E. exact Hi.
Qed.

Lemma finish_complete p p' hs :
  parser_inv p -> finish p = (p', Ok hs) -> Forall complete_hunk hs.
Proof.
  unfold finish, finish_line. intros Hi H.
  assert (forall q, parser_inv q -> mode q = EndedPatch -> Forall complete_hunk (parsed_hunks q)) as He.
  { intros q (_ & _ & Hm) Eq. by rewrite Eq in Hm. }
  destruct (is_empty (line_buffer p)).
  { destruct (mode p) eqn:E; simplify_eq. by apply He. }
  case_bool_decide.
  - destruct (ensure_update_hunk_is_not_empty _ _) as [[]|] eqn:E; [|done]. simplify_eq/=.
    destruct (decide (mode p = EndedPatch)) as [Em|Em]; [by apply He|].
    by eapply (ensure_complete (take_line p)).
  - destruct (process_line _ _) as [q|] eqn:E; [|done].
    destruct (mode q) eqn:Em; simplify_eq. apply He; [|done]. eapply process_line_inv, E. exact Hi.
Qed.

Lemma default_parser_inv : parser_inv default_parser.
Proof. by repeat constructor. Qed.
