(* ===== verification/PatchParser.v ===== *)
(** * Parsing a whole patch

    Models [parse_patch] and the boundary checks of
    [codex-rs/apply-patch/src/parser.rs], and proves that the parser inverts a
    printer for the documented patch grammar. *)

From Stdlib Require Import ZArith Lia.
From S2P Require Import Prelude RustStr PatchSyntax StreamingParser.

(** ** Definitions *)

Inductive ParseMode : Type := Strict | Lenient.

Definition PARSE_IN_STRICT_MODE : bool := false.

Definition check_start_and_end_lines_strict (first_line last_line : option str)
    : result unit ParseError :=
  let first_line := trim <$> first_line in
  let last_line := trim <$> last_line in
  match first_line, last_line with
  | Some first, last_line =>
      if bool_decide (first = BEGIN_PATCH_MARKER) then
        match last_line with
        | Some last => if bool_decide (last = END_PATCH_MARKER) then Ok tt else Err last_line_error
        | None => Err last_line_error
        end
      else Err first_line_error
  | None, _ => Err last_line_error
  end.

Definition check_patch_boundaries_strict (ls : list str) : result (list str) ParseError :=
  let? _ := check_start_and_end_lines_strict (head ls) (last ls) in
  Ok ls.

(** The opening of a heredoc left in the argument by some models. *)
Definition is_heredoc_open (first : str) : bool :=
  bool_decide (first = lit "<<EOF")
  || bool_decide (first = lit "<<'EOF'")
  || bool_decide (first = lit "<<" ++ [QUOTE] ++ lit "EOF" ++ [QUOTE]).

Definition check_patch_boundaries_lenient (original_lines : list str)
    : result (list str) ParseError :=
  match check_patch_boundaries_strict original_lines with
  | Ok ls => Ok ls
  | Err original_parse_error =>
      match original_lines, last original_lines with
      | first :: _ :: _, Some last_line =>
          if is_heredoc_open first && ends_with (lit "EOF") last_line
             && (4 <=? length original_lines)%nat
          then check_patch_boundaries_strict (removelast (tail original_lines))
          else Err original_parse_error
      | _, _ => Err original_parse_error
      end
  end.

Definition parse_patch_text (text : str) (m : ParseMode) : result ApplyPatchArgs ParseError :=
  let ls := lines (trim text) in
  let? patch_lines :=
    match m with
    | Strict => check_patch_boundaries_strict ls
    | Lenient => check_patch_boundaries_lenient ls
    end in
  let patch := join [LF] patch_lines in
  match push_delta default_parser patch with
  | (_, Err e) => Err e
  | (parser, Ok _) =>
      match finish parser with
      | (_, Err e) => Err e
      | (parser, Ok hunks) => Ok (mkArgs patch hunks None (parsed_environment_id parser))
      end
  end.

Definition parse_patch (text : str) : result ApplyPatchArgs ParseError :=
  parse_patch_text text (if PARSE_IN_STRICT_MODE then Strict else Lenient).

(** ** The patch grammar, as a printer *)

Definition print_chunk (c : UpdateFileChunk) : list str :=
  match change_context c with
  | Some ctx => [CHANGE_CONTEXT_MARKER ++ ctx]
  | None => [EMPTY_CHANGE_CONTEXT_MARKER]
  end
  ++ map (cons MINUS) (old_lines c) ++ map (cons PLUS) (new_lines c)
  ++ (if is_end_of_file c then [EOF_MARKER] else []).

(** A hunk with the added lines of an added file kept apart. *)
Definition print_hunk (h : Hunk) : list str :=
  match h with
  | AddFile path contents =>
      (ADD_FILE_MARKER ++ path) :: map (cons PLUS) (removelast (split_on LF contents))
  | DeleteFile path => [DELETE_FILE_MARKER ++ path]
  | UpdateFile path mv chunks =>
      (UPDATE_FILE_MARKER ++ path)
      :: match mv with Some dest => [MOVE_TO_MARKER ++ dest] | None => [] end
      ++ concat (map print_chunk chunks)
  end.

Definition print_environment (env : option str) : list str :=
  match env with Some e => [ENVIRONMENT_ID_MARKER ++ SPACE :: e] | None => [] end.

Definition patch_lines (env : option str) (hs : list Hunk) : list str :=
  BEGIN_PATCH_MARKER :: print_environment env ++ concat (map print_hunk hs) ++ [END_PATCH_MARKER].

Definition print_patch (env : option str) (hs : list Hunk) : str :=
  join [LF] (patch_lines env hs).

(** ** What the line format can carry *)

(** A line of the patch: no line feed inside, no carriage return at its end. *)
Definition plain_line (l : str) : Prop := (LF ∉ l) /\ last l <> Some CR.

(** A name after a marker: non-empty, one line, not ending in space. *)
Definition plain_name (n : str) : Prop :=
  (LF ∉ n) /\ exists c, last n = Some c /\ is_whitespace c = false.

Definition printable_chunk (c : UpdateFileChunk) : Prop :=
  complete_chunk c /\ Forall plain_line (old_lines c) /\ Forall plain_line (new_lines c)
  /\ (forall ctx, change_context c = Some ctx -> plain_name ctx).

Definition printable_hunk (h : Hunk) : Prop :=
  match h with
  | AddFile path contents =>
      plain_name path /\ exists ls, Forall plain_line ls /\ contents = concat (map (fun l => l ++ [LF]) ls)
  | DeleteFile path => plain_name path
  | UpdateFile path mv chunks =>
      plain_name path /\ (forall dest, mv = Some dest -> plain_name dest)
      /\ chunks <> [] /\ Forall printable_chunk chunks
  end.

Definition printable_env (env : option str) : Prop :=
  forall e, env = Some e -> plain_name e /\ trim e = e.

(** ** Running the parser over whole lines *)

Fixpoint run_lines (p : StreamingPatchParser) (ls : list str)
    : result StreamingPatchParser ParseError :=
  match ls with
  | [] => Ok p
  | l :: ls' => let? p' := process_line (take_line p) l in run_lines p' ls'
  end.

Definition with_buffer (b : str) (p : StreamingPatchParser) : StreamingPatchParser :=
  mkParser b (mode p) (parsed_hunks p) (parsed_environment_id p) (line_number p).

Lemma run_lines_app p a b :
  run_lines p (a ++ b) = let? q := run_lines p a in run_lines q b.
Proof.
  revert p; induction a as [|l a IH]; intros p; simpl; [done|].
  destruct (process_line (take_line p) l); [apply IH|done].
Qed.

Lemma handle_buffer p line p' :
  handle_hunk_headers_and_end_patch p line = Ok (Some p') -> line_buffer p' = line_buffer p.
Proof.
  unfold handle_hunk_headers_and_end_patch, handle_headers.
  intros H. repeat case_hyp H; by simplify_eq.
Qed.

Lemma process_line_buffer p line p' :
  process_line p line = Ok p' -> line_buffer p' = line_buffer p.
Proof.
  unfold process_line. intros H. repeat case_hyp H; simplify_eq; eauto using handle_buffer.
Qed.

Lemma run_lines_buffer p ls p' :
  line_buffer p = [] -> run_lines p ls = Ok p' -> line_buffer p' = [].
Proof.
  revert p; induction ls as [|l ls IH]; intros p Hb H; simpl in H; [by simplify_eq|].
  destruct (process_line (take_line p) l) as [q|] eqn:E; [|done].
  eapply IH; [|done]. by apply process_line_buffer in E.
Qed.

Lemma push_delta_text p l rest :
  LF ∉ l -> push_delta p (l ++ rest) = push_delta (with_buffer (line_buffer p ++ l) p) rest.
Proof.
  revert p; induction l as [|c l IH]; intros p Hl; simpl.
  - rewrite app_nil_r. by destruct p.
  - apply not_elem_of_cons in Hl as [Hc Hl]. destruct (N.eqb_spec c LF); [congruence|].
    rewrite IH by done. f_equal. unfold with_buffer. simpl. by rewrite <-app_assoc.
Qed.

Lemma strip_cr_plain l : last l <> Some CR -> strip_cr l = l.
Proof.
  unfold strip_cr. destruct (strip_suffix [CR] l) as [r|] eqn:E; [|done].
  apply strip_suffix_Some in E as ->. by rewrite last_snoc.
Qed.

Lemma join_cons_snoc l ls k : join [LF] (l :: ls ++ [k]) = l ++ LF :: join [LF] (ls ++ [k]).
Proof. by destruct ls. Qed.

(** Pushing joined lines is processing them one by one; the last one, which no
    line feed ends, stays in the buffer. *)
Lemma push_delta_lines p ls k q :
  line_buffer p = [] -> Forall plain_line ls -> LF ∉ k -> run_lines p ls = Ok q ->
  push_delta p (join [LF] (ls ++ [k])) = (with_buffer k q, Ok (parsed_hunks q)).
Proof.
  revert p; induction ls as [|l ls IH]; intros p Hb Hp Hk H.
  - simpl in *. simplify_eq. rewrite <-(app_nil_r k) at 1.
    rewrite push_delta_text by done. by rewrite Hb.
  - apply Forall_cons in Hp as [[Hl Hcr] Hp].
    change ((l :: ls) ++ [k]) with (l :: ls ++ [k]). rewrite join_cons_snoc.
    rewrite push_delta_text by done. rewrite Hb. simpl. rewrite strip_cr_plain by done.
    simpl in H. change (take_line (with_buffer l p)) with (take_line p).
    destruct (process_line (take_line p) l) as [p'|] eqn:E; [|done].
    apply IH; [|done..]. by apply process_line_buffer in E.
Qed.

(** ** Header lines *)

(** Between hunks: the hunks read so far are complete. *)
Definition between (p : StreamingPatchParser) (env : option str) (hs : list Hunk) : Prop :=
  parsed_hunks p = hs /\ parsed_environment_id p = env
  /\ mode p <> NotStarted /\ mode p <> EndedPatch
  /\ (forall line, ensure_update_hunk_is_not_empty p line = Ok tt).

(** Inside an update hunk. *)
Definition in_update (p : StreamingPatchParser) (env : option str) (hs : list Hunk)
    (path : str) (mv : option str) (cs : list UpdateFileChunk) : Prop :=
  parsed_hunks p = hs ++ [UpdateFile path mv cs] /\ parsed_environment_id p = env
  /\ exists n, mode p = UpdateFileMode n.

Definition in_add (p : StreamingPatchParser) (env : option str) (hs : list Hunk)
    (path contents : str) : Prop :=
  parsed_hunks p = hs ++ [AddFile path contents] /\ parsed_environment_id p = env
  /\ mode p = AddFileMode.

Lemma trim_marked c m n :
  is_whitespace c = false -> plain_name n ->
  trim (c :: m ++ n) = c :: m ++ n /\ trim_end (c :: m ++ n) = c :: m ++ n.
Proof.
  intros Hc (_ & x & Hx & Hw).
  assert (trim_end (c :: m ++ n) = c :: m ++ n) as He.
  { apply trim_end_id. intros y Hy. destruct n as [|z n]; [done|].
    rewrite app_comm_cons, last_app_cons in Hy. congruence. }
  split; [|done]. rewrite trim_comm, He. by apply trim_start_cons.
Qed.

Lemma plain_marked c m n : LF ∉ c :: m -> plain_name n -> plain_line (c :: m ++ n).
Proof.
  intros Hm (Hn & x & Hx & Hw). split; [set_solver|].
  destruct n as [|z n]; [done|]. rewrite app_comm_cons, last_app_cons, Hx.
  intros [= ->]. by vm_compute in Hw.
Qed.

Lemma process_header p line p' :
  mode p <> NotStarted -> mode p <> EndedPatch ->
  trim line = line -> trim_end line = line ->
  handle_hunk_headers_and_end_patch p line = Ok (Some p') -> process_line p line = Ok p'.
Proof.
  intros H1 H2 Ht He H. unfold process_line. rewrite Ht, He, H.
  by destruct (mode p).
Qed.

Lemma ensure_same p q line :
  parsed_hunks q = parsed_hunks p -> mode q = mode p ->
  ensure_update_hunk_is_not_empty p line = Ok tt -> ensure_update_hunk_is_not_empty q line = Ok tt.
Proof.
  unfold ensure_update_hunk_is_not_empty. intros -> -> H. repeat case_goal; simplify_eq; done.
Qed.

(** A header line of a complete parser opens its hunk. *)
Lemma between_header p env hs line h m :
  between p env hs ->
  trim line = line -> trim_end line = line -> strip_prefix ENVIRONMENT_ID_MARKER line = None ->
  (forall q, (forall l, ensure_update_hunk_is_not_empty q l = Ok tt) ->
     handle_headers q line = Ok (Some (set_mode (m q) (push_hunk h q)))) ->
  exists q, process_line (take_line p) line = Ok q
    /\ parsed_hunks q = hs ++ [h] /\ parsed_environment_id q = env /\ mode q = m (take_line p).
Proof.
  intros (Hh & He & Hm1 & Hm2 & Hens) Ht Hte Henv Hhead.
  exists (set_mode (m (take_line p)) (push_hunk h (take_line p))).
  split; [|by simplify_eq/=].
  apply process_header; [done..|]. unfold handle_hunk_headers_and_end_patch.
  rewrite Henv. replace (if is_started _ then None else None) with (@None str) by by destruct (is_started _).
  apply Hhead. intros l. by eapply ensure_same, Hens.
Qed.

(** ** Added files *)

Lemma in_add_between p env hs path contents :
  in_add p env hs path contents -> between p env (hs ++ [AddFile path contents]).
Proof.
  intros (Hh & He & Hm). unfold between. rewrite Hm. split_and!; [done..|].
  intros line. unfold ensure_update_hunk_is_not_empty. by rewrite Hh, last_snoc.
Qed.

(** A line that starts with a change mark is no header. *)
Lemma change_line_no_header p c l :
  (c = PLUS \/ c = MINUS) -> is_started (mode p) = false ->
  handle_hunk_headers_and_end_patch p (c :: l) = Ok None.
Proof.
  intros Hc Hs. unfold handle_hunk_headers_and_end_patch. rewrite Hs. unfold handle_headers.
  rewrite bool_decide_false by (destruct Hc as [-> | ->]; done).
  by destruct Hc as [-> | ->].
Qed.

Lemma run_added_lines p env hs path contents ls :
  in_add p env hs path contents ->
  exists q, run_lines p (map (cons PLUS) ls) = Ok q
    /\ in_add q env hs path (contents ++ concat (map (fun l => l ++ [LF]) ls)).
Proof.
  revert p contents; induction ls as [|l ls IH]; intros p contents Hp; simpl.
  { exists p. by rewrite app_nil_r. }
  pose proof Hp as (Hh & He & Hm).
  assert (process_line (take_line p) (PLUS :: l)
    = Ok (set_last_hunk (AddFile path (contents ++ l ++ [LF])) (take_line p))) as ->.
  { unfold process_line. simpl. rewrite Hm.
    rewrite trim_comm, trim_end_cons, trim_start_cons by done.
    rewrite change_line_no_header; [|by left|by simpl; rewrite Hm].
    by rewrite Hh, last_snoc. }
  edestruct IH as (q & Hq & Hin); [|exists q; split; [exact Hq|]].
  - unfold in_add. simpl. rewrite Hh, removelast_snoc. done.
  - by rewrite <-app_assoc in Hin.
Qed.

Lemma split_added_lines ls :
  Forall (fun l => LF ∉ l) ls ->
  removelast (split_on LF (concat (map (fun l => l ++ [LF]) ls))) = ls.
Proof.
  induction ls as [|l ls IH]; simpl; [done|]. intros [Hl Hls]%Forall_cons.
  rewrite <-app_assoc. simpl. rewrite split_on_app by done.
  specialize (IH Hls). destruct (split_on LF _) eqn:E in IH |- *; [by apply split_on_nonnil in E|].
  change (removelast (l :: l0 :: l1)) with (l :: removelast (l0 :: l1)). by rewrite IH.
Qed.

Lemma run_add_hunk p env hs path ls :
  between p env hs -> plain_name path -> Forall plain_line ls ->
  let h := AddFile path (concat (map (fun l => l ++ [LF]) ls)) in
  exists q, run_lines p (print_hunk h) = Ok q /\ between q env (hs ++ [h]).
Proof.
  intros Hp Hn Hls h. subst h. cbn [print_hunk].
  rewrite split_added_lines by (eapply Forall_impl; [exact Hls|]; by intros ? [? _]).
  destruct (trim_marked 42 (tail ADD_FILE_MARKER) path) as [Ht Hte]; [done..|].
  destruct (between_header p env hs (ADD_FILE_MARKER ++ path) (AddFile path []) (fun _ => AddFileMode))
    as (q & Ep & Hh & He & Hm); [done..| |].
  { intros q Hq. unfold handle_headers. rewrite bool_decide_false by done.
    by rewrite strip_prefix_app, Hq. }
  destruct (run_added_lines q env hs path [] ls) as (q' & Hr & Hin); [done|].
  exists q'. split; [by cbn [run_lines]; rewrite Ep|]. by apply in_add_between.
Qed.

Lemma run_delete_hunk p env hs path :
  between p env hs -> plain_name path ->
  exists q, run_lines p (print_hunk (DeleteFile path)) = Ok q
    /\ between q env (hs ++ [DeleteFile path]).
Proof.
  intros Hp Hn. cbn [print_hunk run_lines].
  destruct (trim_marked 42 (tail DELETE_FILE_MARKER) path) as [Ht Hte]; [done..|].
  destruct (between_header p env hs (DELETE_FILE_MARKER ++ path) (DeleteFile path) (fun _ => DeleteFileMode))
    as (q & -> & Hh & He & Hm); [done..| |].
  { intros q Hq. unfold handle_headers. rewrite bool_decide_false by done.
    by rewrite (strip_prefix_app DELETE_FILE_MARKER), Hq. }
  exists q. split; [done|]. unfold between. rewrite Hm. split_and!; [done..|].
  intros line. unfold ensure_update_hunk_is_not_empty. by rewrite Hh, last_snoc.
Qed.

(** ** Update hunks *)

Lemma in_update_between p env hs path mv cs :
  in_update p env hs path mv cs -> cs <> [] -> last_chunk_is chunk_is_empty cs = false ->
  between p env (hs ++ [UpdateFile path mv cs]).
Proof.
  intros (Hh & He & n & Hm) Hne Hl. unfold between. rewrite Hm. split_and!; [done..|].
  intros line. unfold ensure_update_hunk_is_not_empty. rewrite Hh, last_snoc, Hl.
  by destruct cs.
Qed.

Lemma update_line_step p env hs path mv cs line mv' cs' :
  in_update p env hs path mv cs ->
  handle_headers (take_line p) (trim_end line) = Ok None ->
  (forall ln, update_body ln line (trim_end line) mv cs = Ok (mv', cs')) ->
  exists q, process_line (take_line p) line = Ok q /\ in_update q env hs path mv' cs'.
Proof.
  intros (Hh & He & n & Hm) Hn Hb.
  exists (set_last_hunk (UpdateFile path mv' cs') (take_line p)). split.
  - unfold process_line. simpl. rewrite Hm. unfold handle_hunk_headers_and_end_patch.
    simpl. rewrite Hm. simpl. rewrite Hn. rewrite Hh, last_snoc, Hb. done.
  - unfold in_update. simpl. rewrite Hh, removelast_snoc. eauto.
Qed.

(** The changed lines of a chunk accumulate in the last chunk. *)
Lemma run_changed_lines mark f p env hs path mv cs c ls :
  (mark = MINUS /\ f = add_old \/ mark = PLUS /\ f = add_new) ->
  is_end_of_file c = false ->
  in_update p env hs path mv (cs ++ [c]) ->
  exists q, run_lines p (map (cons mark) ls) = Ok q
    /\ in_update q env hs path mv (cs ++ [fold_left (fun c l => f l c) ls c]).
Proof.
  intros Hf. revert p c; induction ls as [|l ls IH]; intros p c Hc Hp; simpl; [by exists p|].
  destruct (update_line_step p env hs path mv (cs ++ [c]) (mark :: l) mv (cs ++ [f l c]))
    as (q & -> & Hq); [done| | |].
  - rewrite trim_end_cons by (destruct Hf as [[-> _]|[-> _]]; done).
    unfold handle_headers. rewrite bool_decide_false by (destruct Hf as [[-> _]|[-> _]]; done).
    by destruct Hf as [[-> _]|[-> _]].
  - intros ln. rewrite trim_end_cons by (destruct Hf as [[-> _]|[-> _]]; done).
    unfold update_body, last_chunk_is. rewrite last_snoc, Hc. simpl.
    destruct (cs ++ [c]) as [|c0 cs0] eqn:Ecs; [by destruct cs|].
    destruct Hf as [[-> ->]|[-> ->]]; simpl;
      unfold update_or_push; by rewrite <-Ecs, update_last_chunk_snoc.
  - apply IH; [|done]. by destruct Hf as [[_ ->]|[_ ->]].
Qed.

Lemma fold_add_old ls c :
  fold_left (fun c l => add_old l c) ls c
  = mkChunk (change_context c) (old_lines c ++ ls) (new_lines c) (is_end_of_file c).
Proof.
  revert c; induction ls as [|l ls IH]; intros c; simpl; [rewrite app_nil_r; by destruct c|].
  rewrite IH. simpl. by rewrite <-app_assoc.
Qed.

Lemma fold_add_new ls c :
  fold_left (fun c l => add_new l c) ls c
  = mkChunk (change_context c) (old_lines c) (new_lines c ++ ls) (is_end_of_file c).
Proof.
  revert c; induction ls as [|l ls IH]; intros c; simpl; [rewrite app_nil_r; by destruct c|].
  rewrite IH. simpl. by rewrite <-app_assoc.
Qed.

Definition context_line (ctx : option str) : str :=
  match ctx with
  | Some ctx => CHANGE_CONTEXT_MARKER ++ ctx
  | None => EMPTY_CHANGE_CONTEXT_MARKER
  end.

Lemma run_context_line p env hs path mv cs ctx :
  in_update p env hs path mv cs -> last_chunk_is chunk_is_empty cs = false ->
  (forall x, ctx = Some x -> plain_name x) ->
  exists q, process_line (take_line p) (context_line ctx) = Ok q
    /\ in_update q env hs path mv (cs ++ [empty_chunk ctx]).
Proof.
  intros Hp Hl Hctx.
  assert (trim_end (context_line ctx) = context_line ctx) as Ht.
  { destruct ctx as [x|]; [|reflexivity].
    apply (trim_marked 64 (tail CHANGE_CONTEXT_MARKER) x); [done|]. by apply Hctx. }
  apply (update_line_step _ _ _ _ _ _ _ _ _ Hp); rewrite Ht; [by destruct ctx|].
  intros ln. unfold update_body.
  assert (is_empty (context_line ctx) = false) as -> by by destruct ctx.
  assert (is_context_line (context_line ctx) = true) as ->.
  { unfold is_context_line. destruct ctx as [x|]; [|done].
    rewrite (proj2 (starts_with_true _ _)); [apply orb_true_r|by exists x]. }
  rewrite !andb_false_r, Hl.
  assert (strip_prefix MOVE_TO_MARKER (context_line ctx) = None) as -> by by destruct ctx.
  destruct cs, mv, ctx; simpl; done.
Qed.

Lemma run_chunk p env hs path mv cs c :
  in_update p env hs path mv cs -> last_chunk_is chunk_is_empty cs = false -> printable_chunk c ->
  exists q, run_lines p (print_chunk c) = Ok q /\ in_update q env hs path mv (cs ++ [c]).
Proof.
  destruct c as [ctx old new eof]. intros Hp Hl (Hc & _ & _ & Hctx). simpl in Hctx.
  assert (print_chunk (mkChunk ctx old new eof) = context_line ctx :: map (cons MINUS) old
    ++ map (cons PLUS) new ++ (if eof then [EOF_MARKER] else [])) as -> by by destruct ctx.
  destruct (run_context_line p env hs path mv cs ctx) as (p1 & E1 & H1); [done..|].
  cbn [run_lines]. rewrite E1, !run_lines_app.
  destruct (run_changed_lines MINUS add_old p1 env hs path mv cs (empty_chunk ctx) old)
    as (p2 & -> & H2); [by left|done|done|]. rewrite fold_add_old in H2. simpl in H2.
  destruct (run_changed_lines PLUS add_new p2 env hs path mv cs (mkChunk ctx old [] false) new)
    as (p3 & E3 & H3); [by right|done|done|]. rewrite fold_add_new in H3. simpl in H3.
  rewrite run_lines_app, E3. destruct eof; [|by exists p3]. cbn [run_lines].
  destruct (update_line_step p3 env hs path mv (cs ++ [mkChunk ctx old new false]) EOF_MARKER
    mv (cs ++ [mkChunk ctx old new true])) as (q & -> & Hq); [done|done| |by exists q].
  intros ln. change (trim_end EOF_MARKER) with EOF_MARKER. unfold update_body, last_chunk_is.
  rewrite last_snoc. simpl. unfold complete_chunk, chunk_is_empty in *. simpl in Hc. cbn [old_lines new_lines]. rewrite Hc.
  destruct (cs ++ [mkChunk ctx old new false]) eqn:Ecs; [by destruct cs|].
  rewrite <-Ecs. by rewrite update_last_chunk_snoc.
Qed.

Lemma run_chunks p env hs path mv cs chunks :
  in_update p env hs path mv cs -> last_chunk_is chunk_is_empty cs = false ->
  Forall printable_chunk chunks ->
  exists q, run_lines p (concat (map print_chunk chunks)) = Ok q
    /\ in_update q env hs path mv (cs ++ chunks).
Proof.
  revert p cs; induction chunks as [|c chunks IH]; intros p cs Hp Hl Hc; simpl.
  { exists p. by rewrite app_nil_r. }
  apply Forall_cons in Hc as [Hc Hcs]. rewrite run_lines_app.
  destruct (run_chunk p env hs path mv cs c) as (q & -> & Hq); [done..|].
  destruct (IH q (cs ++ [c])) as (q' & -> & Hq'); [done| |done|].
  - unfold last_chunk_is. rewrite last_snoc. apply Hc.
  - exists q'. by rewrite <-app_assoc in Hq'.
Qed.

Lemma run_update_hunk p env hs path mv chunks :
  between p env hs -> printable_hunk (UpdateFile path mv chunks) ->
  exists q, run_lines p (print_hunk (UpdateFile path mv chunks)) = Ok q
    /\ between q env (hs ++ [UpdateFile path mv chunks]).
Proof.
  intros Hp (Hn & Hmv & Hne & Hcs). cbn [print_hunk run_lines].
  destruct (trim_marked 42 (tail UPDATE_FILE_MARKER) path) as [Ht Hte]; [done..|].
  destruct (between_header p env hs (UPDATE_FILE_MARKER ++ path) (UpdateFile path None [])
    (fun q => UpdateFileMode (line_number q))) as (q & -> & Hh & He & Hm); [done..| |].
  { intros q Hq. unfold handle_headers. rewrite bool_decide_false by done.
    by rewrite (strip_prefix_app UPDATE_FILE_MARKER), Hq. }
  assert (in_update q env hs path None []) as Hq by (unfold in_update; eauto).
  rewrite run_lines_app.
  assert (exists q', run_lines q (match mv with Some dest => [MOVE_TO_MARKER ++ dest] | None => [] end)
    = Ok q' /\ in_update q' env hs path mv []) as (q' & -> & Hq').
  { destruct mv as [dest|]; [|by exists q]. specialize (Hmv dest eq_refl).
    destruct (trim_marked 42 (tail MOVE_TO_MARKER) dest) as [_ Hd]; [done..|].
    cbn [run_lines].
    destruct (update_line_step q env hs path None [] (MOVE_TO_MARKER ++ dest) (Some dest) [])
      as (q' & -> & Hq'); [done| | |by exists q'].
    - by change (MOVE_TO_MARKER ++ dest) with (42%N :: tail MOVE_TO_MARKER ++ dest); rewrite Hd.
    - intros ln. change (MOVE_TO_MARKER ++ dest) with (42%N :: tail MOVE_TO_MARKER ++ dest) at 2.
      rewrite Hd. unfold update_body. simpl. done. }
  destruct (run_chunks q' env hs path mv [] chunks) as (q'' & -> & Hq''); [done..|].
  exists q''. split; [done|]. apply in_update_between; [done..|].
  destruct chunks as [|c chunks _] using rev_ind; [done|].
  unfold last_chunk_is. simpl. rewrite last_snoc.
  apply Forall_app in Hcs as [_ Hc]. rewrite Forall_singleton in Hc. apply Hc.
Qed.

Lemma run_hunk p env hs h :
  between p env hs -> printable_hunk h ->
  exists q, run_lines p (print_hunk h) = Ok q /\ between q env (hs ++ [h]).
Proof.
  intros Hp Hh. destruct h as [path contents|path|path mv chunks].
  - destruct Hh as (Hn & ls & Hls & ->). by apply run_add_hunk.
  - by apply run_delete_hunk.
  - by apply run_update_hunk.
Qed.

Lemma run_hunks p env hs hs' :
  between p env hs -> Forall printable_hunk hs' ->
  exists q, run_lines p (concat (map print_hunk hs')) = Ok q /\ between q env (hs ++ hs').
Proof.
  revert p hs; induction hs' as [|h hs' IH]; intros p hs Hp Hh; simpl.
  { exists p. by rewrite app_nil_r. }
  apply Forall_cons in Hh as [Hh Hhs]. rewrite run_lines_app.
  destruct (run_hunk p env hs h) as (q & -> & Hq); [done..|].
  destruct (IH q (hs ++ [h])) as (q' & -> & Hq'); [done..|].
  exists q'. by rewrite <-app_assoc in Hq'.
Qed.

Lemma run_begin_line :
  exists p, process_line (take_line default_parser) BEGIN_PATCH_MARKER = Ok p
    /\ mode p = StartedPatch /\ between p None [].
Proof. eexists. split; [reflexivity|]. by repeat split. Qed.

Lemma run_environment p env :
  mode p = StartedPatch -> between p None [] -> printable_env env ->
  exists q, run_lines p (print_environment env) = Ok q /\ between q env [].
Proof.
  intros Hm Hp Henv. destruct env as [e|]; [|by exists p]. destruct (Henv e eq_refl) as [Hn He].
  cbn [print_environment run_lines].
  destruct Hp as (Hh & Hpe & _ & _ & _).
  destruct (trim_marked 42 (tail ENVIRONMENT_ID_MARKER ++ [SPACE]) e) as [Ht _]; [done..|].
  assert (ENVIRONMENT_ID_MARKER ++ SPACE :: e
    = 42%N :: (tail ENVIRONMENT_ID_MARKER ++ [SPACE]) ++ e) as Heq by done.
  rewrite <-Heq in Ht.
  exists (set_environment_id e (take_line p)). split.
  - unfold process_line. cbn [mode take_line]. rewrite Hm, Ht.
    unfold handle_hunk_headers_and_end_patch. cbn [mode take_line parsed_environment_id].
    rewrite Hm, strip_prefix_app, Hpe. simpl is_started. cbv iota zeta.
    assert (trim (SPACE :: e) = e) as ->.
    { unfold trim, trim_start. simpl. fold (trim_start e). exact He. }
    destruct e; [by destruct Hn as (_ & ? & ? & _)|done].
  - unfold between. simpl. rewrite Hm, Hh. split_and!; [done..|].
    intros line. unfold ensure_update_hunk_is_not_empty. simpl. by rewrite Hh.
Qed.

(** ** Printed lines are plain *)

Lemma plain_changed c l : c <> LF -> c <> CR -> plain_line l -> plain_line (c :: l).
Proof.
  intros Hc Hr [Hl Hcr]. split; [by rewrite not_elem_of_cons|].
  destruct l as [|x l]; [simpl; congruence|]. done.
Qed.

Lemma plain_changed_all c ls : c <> LF -> c <> CR ->
  Forall plain_line ls -> Forall plain_line (map (cons c) ls).
Proof. intros Hc Hr. induction 1; simpl; constructor; auto using plain_changed. Qed.

Ltac plain_literal := split; [by apply (bool_decide_unpack _); vm_compute|by vm_compute].

Lemma print_chunk_plain c : printable_chunk c -> Forall plain_line (print_chunk c).
Proof.
  intros (_ & Ho & Hn & Hctx). unfold print_chunk. rewrite !Forall_app. split_and!.
  - destruct (change_context c) as [x|]; constructor; [|constructor|plain_literal|constructor].
    apply (plain_marked 64 (tail CHANGE_CONTEXT_MARKER) x); [|by apply Hctx].
    by apply (bool_decide_unpack _).
  - by apply plain_changed_all.
  - by apply plain_changed_all.
  - destruct (is_end_of_file c); constructor; [plain_literal|constructor].
Qed.

Lemma print_hunk_plain h : printable_hunk h -> Forall plain_line (print_hunk h).
Proof.
  destruct h as [path contents|path|path mv chunks].
  - intros (Hn & ls & Hls & ->). cbn [print_hunk].
    rewrite split_added_lines by (eapply Forall_impl; [exact Hls|]; by intros ? [? _]).
    constructor; [|by apply plain_changed_all].
    apply (plain_marked 42 (tail ADD_FILE_MARKER)); [|done]. by apply (bool_decide_unpack _).
  - intros Hn. constructor; [|constructor].
    apply (plain_marked 42 (tail DELETE_FILE_MARKER)); [|done]. by apply (bool_decide_unpack _).
  - intros (Hn & Hmv & _ & Hcs). cbn [print_hunk]. constructor; [|apply Forall_app; split].
    + apply (plain_marked 42 (tail UPDATE_FILE_MARKER)); [|done]. by apply (bool_decide_unpack _).
    + destruct mv as [d|]; constructor; [|constructor].
      apply (plain_marked 42 (tail MOVE_TO_MARKER)); [|by apply Hmv]. by apply (bool_decide_unpack _).
    + induction Hcs; simpl; [constructor|]. apply Forall_app; split; [by apply print_chunk_plain|done].
Qed.

Lemma print_hunks_plain hs :
  Forall printable_hunk hs -> Forall plain_line (concat (map print_hunk hs)).
Proof.
  induction 1; simpl; [constructor|]. apply Forall_app; split; [by apply print_hunk_plain|done].
Qed.

Lemma print_environment_plain env : printable_env env -> Forall plain_line (print_environment env).
Proof.
  intros H. destruct env as [e|]; [|constructor]. destruct (H e eq_refl) as [Hn _].
  constructor; [|constructor].
  apply (plain_marked 42 (tail ENVIRONMENT_ID_MARKER ++ [SPACE]) e); [|done].
  by apply (bool_decide_unpack _).
Qed.

(** ** The text of a printed patch *)

Lemma join_snoc_cons l ls k : exists pre, join [LF] (l :: ls ++ [k]) = l ++ pre ++ k.
Proof.
  revert l; induction ls as [|m ls IH]; intros l.
  - by exists [LF].
  - destruct (IH m) as [pre E]. exists (LF :: m ++ pre). simpl in *. rewrite E.
    by rewrite <-!app_assoc.
Qed.

Lemma lines_join ls k :
  Forall plain_line ls -> LF ∉ k -> k <> [] -> lines (join [LF] (ls ++ [k])) = ls ++ [k].
Proof.
  intros Hls Hk Hne. unfold lines. rewrite split_on_join.
  - rewrite removelast_snoc, last_snoc. destruct k as [|c k]; [done|]. f_equal.
    induction Hls as [|l ls [_ Hl] _ IH]; simpl; [done|]. by rewrite strip_cr_plain, IH.
  - by destruct ls.
  - apply Forall_app; split; [|by repeat constructor].
    eapply Forall_impl; [exact Hls|]. by intros ? [? _].
Qed.

Lemma trim_patch_text ls :
  trim (join [LF] (BEGIN_PATCH_MARKER :: ls ++ [END_PATCH_MARKER]))
  = join [LF] (BEGIN_PATCH_MARKER :: ls ++ [END_PATCH_MARKER]).
Proof.
  destruct (join_snoc_cons BEGIN_PATCH_MARKER ls END_PATCH_MARKER) as [pre ->].
  destruct (trim_marked 42 (tail BEGIN_PATCH_MARKER ++ pre) END_PATCH_MARKER) as [H _]; [done| |].
  - split; [by apply (bool_decide_unpack _)|]. exists 104%N. by vm_compute.
  - rewrite <-app_assoc in H. exact H.
Qed.

Lemma run_patch env hs :
  printable_env env -> Forall printable_hunk hs ->
  exists q, run_lines default_parser
      (BEGIN_PATCH_MARKER :: print_environment env ++ concat (map print_hunk hs)) = Ok q
    /\ between q env hs.
Proof.
  intros Henv Hhs. destruct run_begin_line as (p & E & Hm & Hp). cbn [run_lines]. rewrite E.
  destruct (run_environment p env) as (p1 & E1 & Hp1); [done..|].
  destruct (run_hunks p1 env [] hs) as (q & E2 & Hq); [done..|].
  exists q. split; [|done]. by rewrite run_lines_app, E1.
Qed.

(** The streaming parser on the joined lines of a printed patch. *)
Lemma parse_printed_lines env hs :
  printable_env env -> Forall printable_hunk hs ->
  exists p q, push_delta default_parser (print_patch env hs) = (p, Ok (parsed_hunks p))
    /\ finish p = (q, Ok hs) /\ parsed_environment_id q = env.
Proof.
  intros Henv Hhs. destruct (run_patch env hs Henv Hhs) as (q & Hq & Hh & He & _ & _ & Hens).
  unfold print_patch, patch_lines. rewrite app_assoc, app_comm_cons.
  erewrite push_delta_lines; [|done| |by apply (bool_decide_unpack _)|exact Hq].
  2:{ constructor; [plain_literal|]. apply Forall_app; split;
      [by apply print_environment_plain|by apply print_hunks_plain]. }
  exists (with_buffer END_PATCH_MARKER q).
  exists (set_mode EndedPatch (take_line (with_buffer END_PATCH_MARKER q))).
  split; [done|]. split; [|by simpl].
  unfold finish, finish_line. cbn [line_buffer with_buffer].
  change (is_empty END_PATCH_MARKER) with false. cbv iota zeta.
  change (trim END_PATCH_MARKER) with END_PATCH_MARKER. rewrite bool_decide_true by done.
  rewrite (ensure_same q) by done. by rewrite <-Hh.
Qed.

Lemma strict_boundaries ls :
  check_patch_boundaries_strict (BEGIN_PATCH_MARKER :: ls ++ [END_PATCH_MARKER])
  = Ok (BEGIN_PATCH_MARKER :: ls ++ [END_PATCH_MARKER]).
Proof.
  unfold check_patch_boundaries_strict. rewrite (app_comm_cons ls), last_snoc. done.
Qed.

Lemma patch_lines_shape env hs :
  patch_lines env hs
  = BEGIN_PATCH_MARKER :: (print_environment env ++ concat (map print_hunk hs)) ++ [END_PATCH_MARKER].
Proof. unfold patch_lines. by rewrite app_assoc. Qed.

Lemma patch_body_plain env hs :
  printable_env env -> Forall printable_hunk hs ->
  Forall plain_line (print_environment env ++ concat (map print_hunk hs)).
Proof.
  intros ??. apply Forall_app; split; [by apply print_environment_plain|by apply print_hunks_plain].
Qed.

Lemma lines_patch env hs :
  printable_env env -> Forall printable_hunk hs ->
  lines (trim (print_patch env hs)) = patch_lines env hs.
Proof.
  intros Henv Hhs. unfold print_patch. rewrite patch_lines_shape, trim_patch_text.
  rewrite app_comm_cons. apply lines_join; [|by apply (bool_decide_unpack _)|done].
  constructor; [plain_literal|]. by apply patch_body_plain.
Qed.

(** ** Theorems *)

(** C9.  the parser inverts the patch grammar: printing any list of hunks whose
    names and lines fit on lines, with an optional environment id, and parsing
    the text gives the hunks and the environment id back. *)
Theorem parse_print_patch env hs :
  printable_env env -> Forall printable_hunk hs ->
  parse_patch (print_patch env hs) = Ok (mkArgs (print_patch env hs) hs None env).
Proof.
  intros Henv Hhs. unfold parse_patch, parse_patch_text. simpl.
  rewrite lines_patch by done. unfold check_patch_boundaries_lenient.
  rewrite patch_lines_shape, strict_boundaries, <-patch_lines_shape.
  fold (print_patch env hs).
  destruct (parse_printed_lines env hs Henv Hhs) as (p & q & -> & -> & ->). done.
Qed.

Definition demo_hunks : list Hunk :=
  [ AddFile (lit "path/add.py") (lit "abc" ++ [LF] ++ lit "def" ++ [LF]);
    DeleteFile (lit "path/delete.py");
    UpdateFile (lit "path/update.py") (Some (lit "path/update2.py"))
      [mkChunk (Some (lit "def f():")) [lit "    pass"] [lit "    return 123"] true] ].

Lemma parse_print_patch_witness :
  printable_env (Some (lit "env-1")) /\ Forall printable_hunk demo_hunks /\
  parse_patch (print_patch (Some (lit "env-1")) demo_hunks)
  = Ok (mkArgs (print_patch (Some (lit "env-1")) demo_hunks) demo_hunks None (Some (lit "env-1"))).
Proof.
  assert (forall n c, bool_decide (LF ∉ n) = true -> last n = Some c -> is_whitespace c = false ->
    plain_name n) as Hname by (intros n c ?%bool_decide_eq_true ??; split; eauto).
  assert (forall l, bool_decide (LF ∉ l) = true -> bool_decide (last l = Some CR) = false ->
    plain_line l) as Hline.
  { by intros l ?%bool_decide_eq_true ?%bool_decide_eq_false. }
  assert (printable_env (Some (lit "env-1"))) as He.
  { intros e [= <-]. split; [by eapply Hname; vm_compute|reflexivity]. }
  assert (Forall printable_hunk demo_hunks) as Hh.
  { unfold demo_hunks. rewrite !Forall_cons. split_and!; [| | |constructor].
    - split; [by eapply Hname; vm_compute|].
      exists [lit "abc"; lit "def"]. split; [|reflexivity].
      repeat apply Forall_cons_2; [by apply Hline; vm_compute..|constructor].
    - by eapply Hname; vm_compute.
    - split_and!; [by eapply Hname; vm_compute| |done|].
      + intros d [= <-]. by eapply Hname; vm_compute.
      + apply Forall_singleton. split_and!; [done| | |].
        * apply Forall_singleton. by apply Hline; vm_compute.
        * apply Forall_singleton. by apply Hline; vm_compute.
        * intros d [= <-]. by eapply Hname; vm_compute. }
  split; [exact He|]. split; [exact Hh|].
  exact (parse_print_patch (Some (lit "env-1")) demo_hunks He Hh).
Defined.

(** every hunk of a parsed patch is complete: an update hunk has at least
    one chunk and no chunk without lines. *)
Theorem parse_patch_complete text args :
  parse_patch text = Ok args -> Forall complete_hunk (hunks args).
Proof.
  unfold parse_patch, parse_patch_text. intros H. cbv zeta in H.
  change PARSE_IN_STRICT_MODE with false in H. cbv iota in H.
  destruct (check_patch_boundaries_lenient _) as [ls|] in H; [|done].
  destruct (push_delta default_parser _) as [p [hs|]] eqn:Ep; [|done].
  destruct (finish p) as [q [hs'|]] eqn:Ef; [|done]. injection H as <-. simpl.
  eapply finish_complete; [|exact Ef]. by eapply push_delta_inv, Ep; apply default_parser_inv.
Qed.

Definition tiny_patch : str :=
  join [LF] [lit "*** Begin Patch"; lit "*** Update File: f"; lit " a"; lit "+b"; lit "*** End Patch"].

Lemma parse_patch_complete_witness :
  Forall complete_hunk
    [UpdateFile (lit "f") None [mkChunk None [lit "a"] [lit "a"; lit "b"] false]].
Proof.
  apply (parse_patch_complete tiny_patch
    (mkArgs tiny_patch
      [UpdateFile (lit "f") None [mkChunk None [lit "a"] [lit "a"; lit "b"] false]] None None)).
  vm_compute. reflexivity.
Defined.

(** A patch left inside a shell heredoc. *)
Definition heredoc (text : str) : str := lit "<<'EOF'" ++ LF :: text ++ LF :: lit "EOF".

Lemma heredoc_join ls : ls <> [] ->
  heredoc (join [LF] ls) = join [LF] (lit "<<'EOF'" :: ls ++ [lit "EOF"]).
Proof.
  intros Hne. unfold heredoc. rewrite join_cons_snoc. do 2 f_equal.
  induction ls as [|l ls IH]; [done|]. destruct ls as [|l' ls]; [done|].
  rewrite <-app_comm_cons. rewrite <-(app_comm_cons ls). 
  change (join [LF] (l :: l' :: ls)) with (l ++ [LF] ++ join [LF] (l' :: ls)).
  change (join [LF] (l :: l' :: ls ++ [lit "EOF"])) with
    (l ++ [LF] ++ join [LF] ((l' :: ls) ++ [lit "EOF"])).
  rewrite <-IH by done. by rewrite <-!app_assoc.
Qed.

Lemma lenient_heredoc first inner e :
  is_heredoc_open first = true -> 2 <= length inner ->
  check_patch_boundaries_strict ((first :: inner) ++ [lit "EOF"]) = Err e ->
  check_patch_boundaries_lenient ((first :: inner) ++ [lit "EOF"])
  = check_patch_boundaries_strict inner.
Proof.
  intros Ho Hl He. unfold check_patch_boundaries_lenient. rewrite He.
  destruct inner as [|x inner]; [simpl in Hl; lia|].
  change (first :: x :: inner) with ([first; x] ++ inner). rewrite <-!app_assoc.
  change ([first; x] ++ inner ++ [lit "EOF"]) with (first :: x :: inner ++ [lit "EOF"]).
  cbv iota. assert (last (first :: x :: inner ++ [lit "EOF"]) = Some (lit "EOF")) as ->
    by (rewrite !app_comm_cons; apply last_snoc).
  change (tail (first :: x :: inner ++ [lit "EOF"])) with ((x :: inner) ++ [lit "EOF"]).
  rewrite removelast_snoc, Ho.
  assert ((4 <=? length (first :: x :: inner ++ [lit "EOF"])) = true) as ->; [|done].
  apply Nat.leb_le. simpl in *. rewrite length_app. simpl. lia.
Qed.

(** in lenient mode a patch wrapped in a heredoc parses as the patch
    itself, and the text kept for later use is the patch without the wrapper. *)
Theorem parse_heredoc env hs :
  printable_env env -> Forall printable_hunk hs ->
  parse_patch (heredoc (print_patch env hs)) = Ok (mkArgs (print_patch env hs) hs None env).
Proof.
  intros Henv Hhs. unfold parse_patch, parse_patch_text.
  change PARSE_IN_STRICT_MODE with false. cbv iota zeta.
  unfold print_patch at 1. rewrite heredoc_join by done.
  assert (trim (join [LF] (lit "<<'EOF'" :: patch_lines env hs ++ [lit "EOF"]))
    = join [LF] (lit "<<'EOF'" :: patch_lines env hs ++ [lit "EOF"])) as ->.
  { destruct (join_snoc_cons (lit "<<'EOF'") (patch_lines env hs) (lit "EOF")) as [pre ->].
    destruct (trim_marked 60 (tail (lit "<<'EOF'") ++ pre) (lit "EOF")) as [H _]; [done| |].
    - split; [by apply (bool_decide_unpack _)|]. exists 70%N. by vm_compute.
    - rewrite <-app_assoc in H. exact H. }
  rewrite app_comm_cons, lines_join; [| |by apply (bool_decide_unpack _)|done].
  2:{ constructor; [plain_literal|]. rewrite patch_lines_shape. constructor; [plain_literal|].
      apply Forall_app; split; [by apply patch_body_plain|]. constructor; [plain_literal|constructor]. }
  rewrite (lenient_heredoc (lit "<<'EOF'") (patch_lines env hs) first_line_error); [|done| |done].
  2:{ rewrite patch_lines_shape. simpl. rewrite !length_app. simpl. lia. }
  rewrite patch_lines_shape, strict_boundaries, <-patch_lines_shape.
  fold (print_patch env hs).
  destruct (parse_printed_lines env hs Henv Hhs) as (p & q & -> & -> & ->). done.
Qed.

Lemma parse_heredoc_witness :
  parse_patch (heredoc (print_patch None [])) = Ok (mkArgs (print_patch None []) [] None None).
Proof. apply (parse_heredoc None []); [by intros ?|constructor]. Defined.
