(* ===== verification/ApplyPatch.v ===== *)
(** * Applying a parsed patch to a file system

    Models [apply_patch], [apply_hunks], [apply_hunks_to_files] and their
    helpers of [codex-rs/apply-patch/src/lib.rs].  The executor file system and
    the path URIs the code is written against are interfaces. *)

From Stdlib Require Import ZArith Lia.
From stdpp Require Import gmap.
From S2P Require Import Prelude RustStr PatchSyntax Replacements StreamingParser PatchParser.

(** ** Interfaces *)

(** [codex_utils_path_uri::PathUri]: what the patch code uses of it. *)
Class PathUriOps (U : Type) : Type := {
  path_join : U -> str -> result U str;
  path_parent : U -> option U;
  inferred_native_path_string : U -> str;
}.

Record FileMetadata : Type := mkMeta {
  is_directory : bool;
  is_file : bool;
  is_symlink : bool;
}.

(** [codex_exec_server::ExecutorFileSystem]: reads leave the state alone, the
    other operations return the next state with their outcome. *)
Class ExecutorFileSystem (U S : Type) : Type := {
  read_file_text : S -> U -> result str io_error;
  get_metadata : S -> U -> result FileMetadata io_error;
  write_file : S -> U -> str -> S * result unit io_error;
  create_directory : S -> U -> S * result unit io_error;
  remove : S -> U -> S * result unit io_error;
}.

(** ** Results of an application *)

Section Data.
Context {U : Type}.

Inductive AppliedPatchFileChange : Type :=
  | ChangeAdd (content : str) (overwritten_content : option str)
  | ChangeDelete (content : str)
  | ChangeUpdate (move_path : option U) (old_content : str)
      (overwritten_move_content : option str) (new_content : str).

Record AppliedPatchChange : Type := mkChange {
  change_path : U;
  change : AppliedPatchFileChange;
}.

Record AppliedPatchDelta : Type := mkDelta {
  changes : list AppliedPatchChange;
  exact : bool;
}.

Definition delta_empty : AppliedPatchDelta := mkDelta [] true.
Definition set_exact (b : bool) (d : AppliedPatchDelta) : AppliedPatchDelta :=
  mkDelta (changes d) b.
Definition push_change (c : AppliedPatchChange) (d : AppliedPatchDelta) : AppliedPatchDelta :=
  mkDelta (changes d ++ [c]) (exact d).
(** [AppliedPatchDelta::append]. *)
Definition delta_append (d other : AppliedPatchDelta) : AppliedPatchDelta :=
  mkDelta (changes d ++ changes other) (exact d && exact other).

Record AffectedPaths : Type := mkAffected {
  added : list str;
  modified : list str;
  deleted : list str;
}.
End Data.
Arguments AppliedPatchFileChange U : clear implicits.
Arguments AppliedPatchChange U : clear implicits.
Arguments AppliedPatchDelta U : clear implicits.

(** ** Errors *)

(** [anyhow::Error] as the code builds it: an I/O error, possibly under a
    context; a patch error; a path error; a message. *)
Inductive anyhow_error : Type :=
  | AnyIo (context : option str) (e : io_error)
  | AnyApply (e : ApplyPatchError)
  | AnyPathUri (message : str)
  | AnyMsg (message : str).

Definition parse_error_string (e : ParseError) : str :=
  match e with
  | InvalidPatchError m => lit "invalid patch: " ++ m
  | InvalidHunkError m n =>
      lit "invalid hunk at line " ++ show_N (N.of_nat n) ++ lit ", " ++ m
  end.

Definition apply_patch_error_string (e : ApplyPatchError) : str :=
  match e with
  | ParseErrorE e => parse_error_string e
  | IoErrorE context source => context ++ lit ": " ++ io_message source
  | ComputeReplacements m => m
  | PathUriE m => m
  | ImplicitInvocation =>
      lit "patch detected without explicit call to apply_patch. Rerun as ["
      ++ [QUOTE] ++ lit "apply_patch" ++ [QUOTE] ++ lit ", "
      ++ [QUOTE] ++ lit "<patch>" ++ [QUOTE] ++ lit "]"
  end.

(** [Display] of an [anyhow::Error]: the outermost layer. *)
Definition anyhow_string (e : anyhow_error) : str :=
  match e with
  | AnyIo (Some context) _ => context
  | AnyIo None e => io_message e
  | AnyApply e => apply_patch_error_string e
  | AnyPathUri m => m
  | AnyMsg m => m
  end.

(** [From<&std::io::Error> for ApplyPatchError]. *)
Definition apply_error_of_io (e : io_error) : ApplyPatchError := IoErrorE (lit "I/O error") e.

Definition with_context {A} (msg : str) (r : result A io_error) : result A anyhow_error :=
  map_err (AnyIo (Some msg)) r.

(** ** Operations *)

Section Apply.
Context {U FS : Type} `{PathUriOps U, ExecutorFileSystem U FS}.

Definition ensure_not_directory (fs : FS) (path : U) : result unit io_error :=
  let? metadata := get_metadata fs path in
  if is_directory metadata then Err (mkIoError InvalidInput (lit "path is a directory"))
  else Ok tt.

Definition remove_failure_was_side_effect_free (fs : FS) (path : U)
    (expected_content : option str) : bool :=
  match expected_content with
  | Some expected =>
      match read_file_text fs path with
      | Ok content => bool_decide (content = expected)
      | Err _ => false
      end
  | None => false
  end.

(** The new value of the [exact] flag. *)
Definition note_existing_path_delta_support (fs : FS) (path : U) (ex : bool) : bool :=
  match get_metadata fs path with
  | Ok metadata => if is_file metadata && negb (is_symlink metadata) then ex else false
  | Err source => if bool_decide (kind source = NotFound) then ex else false
  end.

Definition read_optional_file_text_for_delta (fs : FS) (path : U) (ex : bool)
    : option str * bool :=
  let ex := note_existing_path_delta_support fs path ex in
  match read_file_text fs path with
  | Ok content => (Some content, ex)
  | Err source => (None, if bool_decide (kind source = NotFound) then ex else false)
  end.

Definition write_file_with_missing_parent_retry (fs : FS) (path : U) (contents : str)
    : FS * result unit anyhow_error :=
  let write_context := lit "Failed to write file " ++ inferred_native_path_string path in
  match write_file fs path contents with
  | (fs, Ok _) => (fs, Ok tt)
  | (fs, Err err) =>
      if bool_decide (kind err = NotFound) then
        let '(fs, made) :=
          match path_parent path with
          | Some parent =>
              let '(fs, r) := create_directory fs parent in
              (fs, with_context (lit "Failed to create parent directories for "
                                 ++ inferred_native_path_string path) r)
          | None => (fs, Ok tt)
          end in
        match made with
        | Err e => (fs, Err e)
        | Ok _ =>
            let '(fs, r) := write_file fs path contents in
            (fs, with_context write_context r)
        end
      else (fs, with_context write_context (Err err))
  end.

(** [derive_new_contents_from_chunks]: the original and the new contents. *)
Definition derive_new_contents_from_chunks (fs : FS) (path : U) (chunks : list UpdateFileChunk)
    : result (str * str) ApplyPatchError :=
  let? original_contents :=
    map_err (IoErrorE (lit "Failed to read file to update " ++ inferred_native_path_string path))
      (read_file_text fs path) in
  match derive_new_contents original_contents (inferred_native_path_string path) chunks with
  | Some (Ok new_contents) => Ok (original_contents, new_contents)
  | Some (Err e) => Err e
  | None => Err (ComputeReplacements [])  (* unreachable: see [derive_total] *)
  end.

(** Which list of [AffectedPaths] the hunk's path goes to. *)
Inductive affected_kind : Type := Added | Modified | Deleted.

Definition hunk_result : Type := FS * AppliedPatchDelta U * result affected_kind anyhow_error.

Definition apply_add (fs : FS) (d : AppliedPatchDelta U) (path_uri : U) (contents : str)
    : hunk_result :=
  let '(overwritten_content, ex) := read_optional_file_text_for_delta fs path_uri (exact d) in
  let d := set_exact ex d in
  match write_file_with_missing_parent_retry fs path_uri contents with
  | (fs, Err e) => (fs, set_exact false d, Err e)
  | (fs, Ok _) =>
      (fs, push_change (mkChange path_uri (ChangeAdd contents overwritten_content)) d, Ok Added)
  end.

Definition apply_delete (fs : FS) (d : AppliedPatchDelta U) (path_uri : U) : hunk_result :=
  let d := set_exact (note_existing_path_delta_support fs path_uri (exact d)) d in
  let deleted_content := result_ok (read_file_text fs path_uri) in
  let d := match deleted_content with None => set_exact false d | Some _ => d end in
  let msg := lit "Failed to delete file " ++ inferred_native_path_string path_uri in
  match with_context msg (ensure_not_directory fs path_uri) with
  | Err e => (fs, d, Err e)
  | Ok _ =>
      let '(fs, r) := remove fs path_uri in
      match with_context msg r with
      | Err e =>
          (fs, set_exact (exact d && remove_failure_was_side_effect_free fs path_uri deleted_content) d,
           Err e)
      | Ok _ =>
          let d := match deleted_content with
                   | Some content => push_change (mkChange path_uri (ChangeDelete content)) d
                   | None => d
                   end in
          (fs, d, Ok Deleted)
      end
  end.

Definition apply_update_in_place (fs : FS) (d : AppliedPatchDelta U) (path_uri : U)
    (original_contents new_contents : str) : hunk_result :=
  let '(fs, r) := write_file fs path_uri new_contents in
  match with_context (lit "Failed to write file " ++ inferred_native_path_string path_uri) r with
  | Err e => (fs, set_exact false d, Err e)
  | Ok _ =>
      (fs, push_change (mkChange path_uri
             (ChangeUpdate None original_contents None new_contents)) d, Ok Modified)
  end.

(** The rename: the destination is written first and recorded as added, then
    the original is removed and the record becomes the update. *)
Definition apply_update_move (fs : FS) (d : AppliedPatchDelta U) (path_uri dest_uri : U)
    (original_contents new_contents : str) : hunk_result :=
  let '(overwritten_move_content, ex) :=
    read_optional_file_text_for_delta fs dest_uri (exact d) in
  let d := set_exact ex d in
  match write_file_with_missing_parent_retry fs dest_uri new_contents with
  | (fs, Err e) => (fs, set_exact false d, Err e)
  | (fs, Ok _) =>
      let d_added :=
        push_change (mkChange dest_uri (ChangeAdd new_contents overwritten_move_content)) d in
      let msg := lit "Failed to remove original " ++ inferred_native_path_string path_uri in
      match with_context msg (ensure_not_directory fs path_uri) with
      | Err e => (fs, d_added, Err e)
      | Ok _ =>
          let '(fs, r) := remove fs path_uri in
          match with_context msg r with
          | Err e =>
              (fs, set_exact (exact d_added && remove_failure_was_side_effect_free fs path_uri
                                (Some original_contents)) d_added, Err e)
          | Ok _ =>
              (fs, push_change (mkChange path_uri (ChangeUpdate (Some dest_uri) original_contents
                     overwritten_move_content new_contents)) d, Ok Modified)
          end
      end
  end.

Definition apply_update (cwd : U) (fs : FS) (d : AppliedPatchDelta U) (path_uri : U)
    (move_path : option str) (chunks : list UpdateFileChunk) : hunk_result :=
  let d := set_exact (note_existing_path_delta_support fs path_uri (exact d)) d in
  match derive_new_contents_from_chunks fs path_uri chunks with
  | Err e => (fs, d, Err (AnyApply e))
  | Ok (original_contents, new_contents) =>
      match move_path with
      | Some dest =>
          match path_join cwd dest with
          | Err m => (fs, d, Err (AnyPathUri m))
          | Ok dest_uri => apply_update_move fs d path_uri dest_uri original_contents new_contents
          end
      | None => apply_update_in_place fs d path_uri original_contents new_contents
      end
  end.

(** [Hunk::resolve_path]. *)
Definition resolve_path (cwd : U) (h : Hunk) : result U str := path_join cwd (hunk_source_path h).

Definition apply_hunk (cwd : U) (fs : FS) (d : AppliedPatchDelta U) (h : Hunk) : hunk_result :=
  match resolve_path cwd h with
  | Err m => (fs, d, Err (AnyPathUri m))
  | Ok path_uri =>
      match h with
      | AddFile _ contents => apply_add fs d path_uri contents
      | DeleteFile _ => apply_delete fs d path_uri
      | UpdateFile _ move_path chunks => apply_update cwd fs d path_uri move_path chunks
      end
  end.

Definition note_affected (k : affected_kind) (path : str) (a : AffectedPaths) : AffectedPaths :=
  match k with
  | Added => mkAffected (added a ++ [path]) (modified a) (deleted a)
  | Modified => mkAffected (added a) (modified a ++ [path]) (deleted a)
  | Deleted => mkAffected (added a) (modified a) (deleted a ++ [path])
  end.

Fixpoint apply_hunk_loop (cwd : U) (fs : FS) (d : AppliedPatchDelta U) (a : AffectedPaths)
    (hs : list Hunk) : FS * AppliedPatchDelta U * result AffectedPaths anyhow_error :=
  match hs with
  | [] => (fs, d, Ok a)
  | h :: hs' =>
      match apply_hunk cwd fs d h with
      | (fs, d, Err e) => (fs, d, Err e)
      | (fs, d, Ok k) => apply_hunk_loop cwd fs d (note_affected k (hunk_path h) a) hs'
      end
  end.

Definition apply_hunks_to_files (cwd : U) (fs : FS) (d : AppliedPatchDelta U) (hs : list Hunk)
    : FS * AppliedPatchDelta U * result AffectedPaths anyhow_error :=
  match hs with
  | [] => (fs, d, Err (AnyMsg (lit "No files were modified.")))
  | _ => apply_hunk_loop cwd fs d (mkAffected [] [] []) hs
  end.

(** *** Reporting *)

(** [writeln!] on an [impl Write]. *)
Context {W : Type} (write_line : W -> str -> W * result unit io_error).

Fixpoint write_lines (out : W) (ls : list str) : W * result unit io_error :=
  match ls with
  | [] => (out, Ok tt)
  | l :: ls' =>
      match write_line out l with
      | (out, Ok _) => write_lines out ls'
      | (out, Err e) => (out, Err e)
      end
  end.

Definition print_summary (affected : AffectedPaths) (out : W) : W * result unit io_error :=
  write_lines out (lit "Success. Updated the following files:"
    :: map (fun p => lit "A " ++ p) (added affected)
    ++ map (fun p => lit "M " ++ p) (modified affected)
    ++ map (fun p => lit "D " ++ p) (deleted affected)).

(** [ApplyPatchFailure]: the error with what was committed before it. *)
Definition ApplyPatchFailure : Type := ApplyPatchError * AppliedPatchDelta U.

(** The file system and the two writers after the run, and its outcome. *)
Definition apply_outcome : Type :=
  FS * W * W * result (AppliedPatchDelta U) ApplyPatchFailure.

Definition apply_hunks (hs : list Hunk) (cwd : U) (stdout stderr : W) (fs : FS) : apply_outcome :=
  match apply_hunks_to_files cwd fs delta_empty hs with
  | (fs, delta, Ok affected) =>
      match print_summary affected stdout with
      | (stdout, Ok _) => (fs, stdout, stderr, Ok delta)
      | (stdout, Err e) => (fs, stdout, stderr, Err (apply_error_of_io e, delta))
      end
  | (fs, delta, Err error) =>
      let msg := anyhow_string error in
      match write_line stderr msg with
      | (stderr, Err e) => (fs, stdout, stderr, Err (apply_error_of_io e, delta))
      | (stderr, Ok _) =>
          match error with
          | AnyIo _ io => (fs, stdout, stderr, Err (apply_error_of_io io, delta))
          | _ => (fs, stdout, stderr, Err (IoErrorE msg (mkIoError OtherKind msg), delta))
          end
      end
  end.

Definition invalid_patch_message (e : ParseError) : str :=
  match e with
  | InvalidPatchError message => lit "Invalid patch: " ++ message
  | InvalidHunkError message n =>
      lit "Invalid patch hunk on line " ++ show_N (N.of_nat n) ++ lit ": " ++ message
  end.

Definition apply_patch (patch_text : str) (cwd : U) (stdout stderr : W) (fs : FS)
    : apply_outcome :=
  match parse_patch patch_text with
  | Ok source => apply_hunks (hunks source) cwd stdout stderr fs
  | Err e =>
      match write_line stderr (invalid_patch_message e) with
      | (stderr, Err io) => (fs, stdout, stderr, Err (apply_error_of_io io, delta_empty))
      | (stderr, Ok _) => (fs, stdout, stderr, Err (ParseErrorE e, delta_empty))
      end
  end.
End Apply.

(** ** What the file system promises *)

(** A path at which a write creates or replaces a plain file: a regular file,
    no symbolic link, or nothing. *)
Definition regular {U FS} `{ExecutorFileSystem U FS} (fs : FS) (u : U) : Prop :=
  match get_metadata fs u with
  | Ok m => is_file m = true /\ is_symlink m = false
  | Err e => kind e = NotFound
  end.

(** The text files of a state as a map, and how the operations act on it at
    regular paths.  A failed write may leave anything at its own path and a
    failed removal may have removed the file; neither touches another path.
    Two different URIs name two different files: the laws are those of a file
    system whose directories are not reached through links. *)
Class FsLaws {U FS} `{Countable U, PathUriOps U, ExecutorFileSystem U FS}
    (view : FS -> gmap U str) : Prop := {
  read_ok fs u c : read_file_text fs u = Ok c -> view fs !! u = Some c;
  read_missing fs u e :
    read_file_text fs u = Err e -> kind e = NotFound -> view fs !! u = None;
  write_ok fs u c fs' :
    regular fs u -> write_file fs u c = (fs', Ok tt) -> view fs' = <[u:=c]> (view fs);
  (** A write that reports a missing parent has written nothing. *)
  write_no_parent fs u c fs' e :
    regular fs u -> write_file fs u c = (fs', Err e) -> kind e = NotFound -> view fs' = view fs;
  write_regular fs u c v :
    u = v \/ is_Some (view fs !! v) -> regular fs v -> regular (write_file fs u c).1 v;
  mkdir_view fs u : view (create_directory fs u).1 = view fs;
  mkdir_regular fs u v :
    path_parent v = Some u \/ is_Some (view fs !! v) ->
    regular fs v -> regular (create_directory fs u).1 v;
  remove_ok fs u fs' :
    regular fs u -> remove fs u = (fs', Ok tt) -> view fs' = delete u (view fs);
  remove_err fs u fs' e :
    regular fs u -> remove fs u = (fs', Err e) ->
    view fs' = view fs \/ view fs' = delete u (view fs);
}.

(** ** Replaying and undoing a delta *)

Section Replay.
Context {U : Type} `{Countable U}.

Definition replay_change (m : gmap U str) (c : AppliedPatchChange U) : gmap U str :=
  match change c with
  | ChangeAdd content _ => <[change_path c := content]> m
  | ChangeDelete _ => delete (change_path c) m
  | ChangeUpdate None _ _ new => <[change_path c := new]> m
  | ChangeUpdate (Some dest) _ _ new => delete (change_path c) (<[dest := new]> m)
  end.

Definition replay (cs : list (AppliedPatchChange U)) (m : gmap U str) : gmap U str :=
  fold_left replay_change cs m.

Definition restore (u : U) (content : option str) (m : gmap U str) : gmap U str :=
  match content with Some c => <[u := c]> m | None => delete u m end.

Definition undo_change (m : gmap U str) (c : AppliedPatchChange U) : gmap U str :=
  match change c with
  | ChangeAdd _ overwritten => restore (change_path c) overwritten m
  | ChangeDelete content => <[change_path c := content]> m
  | ChangeUpdate None old _ _ => <[change_path c := old]> m
  | ChangeUpdate (Some dest) old overwritten _ =>
      <[change_path c := old]> (restore dest overwritten m)
  end.

Definition undo (cs : list (AppliedPatchChange U)) (m : gmap U str) : gmap U str :=
  fold_left undo_change (rev cs) m.

Lemma replay_app a b m : replay (a ++ b) m = replay b (replay a m).
Proof. apply fold_left_app. Qed.

Lemma undo_app a b m : undo (a ++ b) m = undo a (undo b m).
Proof. unfold undo. by rewrite rev_app_distr, fold_left_app. Qed.

(** Each change records what the files held before it. *)
Fixpoint faithful (m : gmap U str) (cs : list (AppliedPatchChange U)) : Prop :=
  match cs with
  | [] => True
  | c :: cs' => undo_change (replay_change m c) c = m /\ faithful (replay_change m c) cs'
  end.

Lemma faithful_app m a b : faithful m (a ++ b) <-> faithful m a /\ faithful (replay a m) b.
Proof. revert m. induction a as [|c a IH]; intros m; simpl; [tauto|]. rewrite IH. unfold replay. simpl. tauto. Qed.

Lemma faithful_undo m cs : faithful m cs -> undo cs (replay cs m) = m.
Proof.
  revert m. induction cs as [|c cs IH]; intros m; [done|]. intros [Hc Hcs].
  change (c :: cs) with ([c] ++ cs). rewrite undo_app, replay_app. unfold replay at 2. simpl. by rewrite IH.
Qed.

(** A change recorded with what the files held before it can be undone. *)
Lemma undo_add u c (m : gmap U str) :
  undo_change (replay_change m (mkChange u (ChangeAdd c (m !! u))))
    (mkChange u (ChangeAdd c (m !! u))) = m.
Proof.
  unfold undo_change, replay_change, restore. simpl.
  destruct (m !! u) as [o|] eqn:E.
  - rewrite insert_insert_eq. by apply insert_id.
  - by apply delete_insert_id.
Qed.

Lemma undo_move u dest old new (m : gmap U str) :
  m !! u = Some old ->
  let c := mkChange u (ChangeUpdate (Some dest) old (m !! dest) new) in
  undo_change (replay_change m c) c = m.
Proof.
  intros Hu c. unfold undo_change, replay_change, restore. simpl. apply map_eq. intros k.
  destruct (decide (k = u)) as [->|Hk]; [by simplify_map_eq|].
  rewrite lookup_insert_ne by done.
  destruct (decide (k = dest)) as [->|Hd].
  - destruct (m !! dest) as [o|] eqn:E; by simplify_map_eq.
  - destruct (m !! dest) as [o|]; rewrite ?lookup_insert_ne, ?lookup_delete_ne by done;
      by rewrite ?lookup_insert_ne by done.
Qed.
End Replay.

(** ** The abstract specification

    A patch as a function on the map of files, and the paths it may touch. *)

Section Spec.
Context {U : Type} `{Countable U, PathUriOps U}.

Definition spec_hunk (cwd : U) (m : gmap U str) (h : Hunk) : option (gmap U str) :=
  let! u := result_ok (resolve_path cwd h) in
  match h with
  | AddFile _ contents => Some (<[u := contents]> m)
  | DeleteFile _ => let! _ := m !! u in Some (delete u m)
  | UpdateFile _ move_path chunks =>
      let! old := m !! u in
      match derive_new_contents old (inferred_native_path_string u) chunks with
      | Some (Ok new) =>
          match move_path with
          | None => Some (<[u := new]> m)
          | Some dest =>
              let! v := result_ok (path_join cwd dest) in
              Some (delete u (<[v := new]> m))
          end
      | _ => None
      end
  end.

Fixpoint spec_hunks (cwd : U) (m : gmap U str) (hs : list Hunk) : option (gmap U str) :=
  match hs with
  | [] => Some m
  | h :: hs' => let! m' := spec_hunk cwd m h in spec_hunks cwd m' hs'
  end.

Definition hunk_targets (cwd : U) (h : Hunk) : list U :=
  match resolve_path cwd h with
  | Err _ => []
  | Ok u =>
      u :: match h with
           | UpdateFile _ (Some dest) _ =>
               match path_join cwd dest with Ok v => [v] | Err _ => [] end
           | _ => []
           end
  end.

Definition change_paths (c : AppliedPatchChange U) : list U :=
  change_path c :: match change c with ChangeUpdate (Some dest) _ _ _ => [dest] | _ => [] end.

(** The changes lead from one map to the other and back, through paths in
    the list only. *)
Record committed (ts : list U) (m : gmap U str) (cs : list (AppliedPatchChange U))
    (m' : gmap U str) : Prop := {
  committed_replay : m' = replay cs m;
  committed_faithful : faithful m cs;
  committed_paths : forall c u, c ∈ cs -> u ∈ change_paths c -> u ∈ ts;
}.

Lemma committed_nil ts m : committed ts m [] m.
Proof. split; [done|done|]. intros c u Hc. by apply elem_of_nil in Hc. Qed.

Lemma committed_one ts m c :
  undo_change (replay_change m c) c = m -> (forall u, u ∈ change_paths c -> u ∈ ts) ->
  committed ts m [c] (replay_change m c).
Proof.
  intros Hu Hp. split; [done|done|]. intros c' u Hc. apply list_elem_of_singleton in Hc as ->. auto.
Qed.

Lemma committed_app ts1 ts2 m0 m1 m2 cs1 cs2 :
  committed ts1 m0 cs1 m1 -> committed ts2 m1 cs2 m2 ->
  committed (ts1 ++ ts2) m0 (cs1 ++ cs2) m2.
Proof.
  intros [R1 U1 P1] [R2 U2 P2]. split.
  - by rewrite replay_app, <-R1.
  - apply faithful_app. by rewrite <-R1.
  - intros c u Hc Hu. apply elem_of_app. apply elem_of_app in Hc as [Hc|Hc]; eauto.
Qed.

Lemma replay_change_frame m c u : u ∉ change_paths c -> replay_change m c !! u = m !! u.
Proof.
  unfold change_paths, replay_change. intros Hu. apply not_elem_of_cons in Hu as [Hu Hd].
  destruct (change c) as [| |[dest|] old ov new].
  4: by rewrite lookup_insert_ne.
  - by rewrite lookup_insert_ne.
  - by rewrite lookup_delete_ne.
  - apply not_elem_of_cons in Hd as [Hd _]. by rewrite lookup_delete_ne, lookup_insert_ne.
Qed.

Lemma committed_frame ts m cs m' u : committed ts m cs m' -> u ∉ ts -> m' !! u = m !! u.
Proof.
  intros [-> _ Hp] Hu. revert m Hp. unfold replay.
  induction cs as [|c cs IH]; intros m Hp; simpl; [done|].
  rewrite IH by (intros; eapply Hp; [by apply list_elem_of_further|done]).
  apply replay_change_frame. intros Hin. apply Hu. eapply Hp; [apply list_elem_of_here|done].
Qed.
End Spec.

(** ** What an application commits *)

Section Commit.
Context {U FS : Type} `{Countable U, PathUriOps U, ExecutorFileSystem U FS}.
Context (view : FS -> gmap U str) `{!FsLaws view}.

#[local] Arguments remove_failure_was_side_effect_free : simpl never.

Lemma note_existing_exact (fs : FS) u ex :
  note_existing_path_delta_support fs u ex = true -> ex = true /\ regular fs u.
Proof.
  unfold note_existing_path_delta_support, regular.
  destruct (get_metadata fs u); intros Hx; repeat case_hyp Hx; boolify; auto.
Qed.

Lemma read_optional_exact (fs : FS) u ex o :
  read_optional_file_text_for_delta fs u ex = (o, true) ->
  ex = true /\ regular fs u /\ view fs !! u = o.
Proof using FsLaws0.
  unfold read_optional_file_text_for_delta.
  destruct (read_file_text fs u) eqn:E; intros [= <- Hx].
  - apply note_existing_exact in Hx as [? ?]. eauto using read_ok.
  - case_hyp Hx. boolify. apply note_existing_exact in Hx as [? ?]. eauto using read_missing.
Qed.

Lemma write_retry_ok (fs : FS) u c fs' :
  regular fs u -> write_file_with_missing_parent_retry fs u c = (fs', Ok tt) ->
  view fs' = <[u := c]> (view fs) /\
  (forall v, is_Some (view fs !! v) -> regular fs v -> regular fs' v).
Proof using FsLaws0.
  intros Hr. unfold write_file_with_missing_parent_retry.
  pose proof (fun v => write_regular fs u c v) as Hw.
  destruct (write_file fs u c) as [fs1 [[]|e]] eqn:E1; simpl in Hw.
  { intros [= <-]. split; [by apply write_ok|]. auto. }
  case_decide as Hk; [|done].
  pose proof (write_no_parent _ _ _ _ _ Hr E1 Hk) as Hv1.
  assert (forall fs2, view fs2 = view fs ->
    regular fs2 u -> (forall v, is_Some (view fs !! v) -> regular fs v -> regular fs2 v) ->
    (let '(fs3, r) := write_file fs2 u c in
     (fs3, with_context (lit "Failed to write file " ++ inferred_native_path_string u) r))
      = (fs', Ok tt) ->
    view fs' = <[u := c]> (view fs) /\
    (forall v, is_Some (view fs !! v) -> regular fs v -> regular fs' v)) as Hfin.
  { intros fs2 Hv2 Hr2 Hk2 Hx. pose proof (fun v => write_regular fs2 u c v) as Hw2.
    destruct (write_file fs2 u c) as [fs3 [[]|]] eqn:E2; [|done]. injection Hx as <-.
    rewrite <-Hv2 in *. split; [by apply write_ok|]. simpl in Hw2. auto. }
  destruct (path_parent u) as [p|] eqn:Ep; [|apply Hfin; auto].
  pose proof (mkdir_view fs1 p) as Hmv. pose proof (fun v => mkdir_regular fs1 p v) as Hmr.
  destruct (create_directory fs1 p) as [fs2 [[]|]]; [|done]. simpl in *.
  apply Hfin; [congruence|auto|]. intros v Hv Hrv. apply Hmr; [|auto]. right. by rewrite Hv1.
Qed.

Lemma remove_free_exact (fs : FS) u fs' e c :
  regular fs u -> remove fs u = (fs', Err e) ->
  remove_failure_was_side_effect_free fs' u c = true -> view fs' = view fs.
Proof using FsLaws0.
  intros Hr Hrm Hf. unfold remove_failure_was_side_effect_free in Hf.
  destruct c; [|done]. destruct (read_file_text fs' u) eqn:E; [|done].
  apply read_ok in E. destruct (remove_err _ _ _ _ Hr Hrm) as [?|Hd]; [done|].
  rewrite Hd, lookup_delete_eq in E. done.
Qed.

(** What one hunk does: a delta still exact afterwards lists what was changed,
    and a hunk that succeeded did what the specification says. *)
Definition hunk_commits (cwd : U) (h : Hunk) (fs : FS) (d : AppliedPatchDelta U)
    (out : FS * AppliedPatchDelta U * result affected_kind anyhow_error) : Prop :=
  exact out.1.2 = true ->
  exact d = true /\
  (exists cs, changes out.1.2 = changes d ++ cs /\
    committed (hunk_targets cwd h) (view fs) cs (view out.1.1)) /\
  (is_ok out.2 = true -> spec_hunk cwd (view fs) h = Some (view out.1.1)).

Lemma commits_nothing cwd h fs d fs' d' e :
  changes d' = changes d -> (exact d' = true -> exact d = true /\ view fs' = view fs) ->
  hunk_commits cwd h fs d (fs', d', Err e).
Proof.
  intros Hc Hv He. simpl in *. destruct (Hv He) as [? ->]. split; [done|]. split; [|done].
  exists []. rewrite app_nil_r. split; [done|apply committed_nil].
Qed.

Lemma apply_add_commits cwd path contents fs d u :
  resolve_path cwd (AddFile path contents) = Ok u ->
  hunk_commits cwd (AddFile path contents) fs d (apply_add fs d u contents).
Proof using FsLaws0.
  intros Hp. unfold apply_add.
  destruct (read_optional_file_text_for_delta fs u (exact d)) as [o ex] eqn:Er.
  destruct (write_file_with_missing_parent_retry fs u contents) as [fs' [[]|e]] eqn:Ew.
  - intros He. simpl in *. subst ex. apply read_optional_exact in Er as (? & Hr & <-).
    apply write_retry_ok in Ew as [-> _]; [|done].
    split; [done|]. split; [|intros _; unfold spec_hunk; by rewrite Hp].
    eexists. split; [done|].
    apply (committed_one _ _ (mkChange u (ChangeAdd contents (view fs !! u)))); [apply undo_add|].
    unfold hunk_targets. by rewrite Hp.
  - by apply commits_nothing.
Qed.

Lemma undo_delete u c (m : gmap U str) :
  m !! u = Some c ->
  undo_change (replay_change m (mkChange u (ChangeDelete c))) (mkChange u (ChangeDelete c)) = m.
Proof.
  intros Hu. unfold undo_change, replay_change. simpl. by rewrite insert_delete_id.
Qed.

Lemma undo_update u old new (m : gmap U str) :
  m !! u = Some old ->
  let c := mkChange u (ChangeUpdate None old None new) in
  undo_change (replay_change m c) c = m.
Proof.
  intros Hu. unfold undo_change, replay_change. simpl. by rewrite insert_insert_eq, insert_id.
Qed.

Lemma apply_delete_commits cwd path fs d u :
  resolve_path cwd (DeleteFile path) = Ok u ->
  hunk_commits cwd (DeleteFile path) fs d (apply_delete fs d u).
Proof using FsLaws0.
  intros Hp. unfold apply_delete.
  destruct (read_file_text fs u) as [c|e] eqn:Er; simpl.
  2: { unfold hunk_commits. repeat case_goal; simpl; intros He; discriminate He. }
  pose proof (read_ok _ _ _ Er) as Hc.
  destruct (ensure_not_directory fs u) as [[]|e]; simpl.
  2: { apply commits_nothing; [done|]. simpl. intros Hx. apply note_existing_exact in Hx. naive_solver. }
  destruct (remove fs u) as [fs' [[]|e]] eqn:Em; simpl.
  - intros He. simpl in *. apply note_existing_exact in He as [? Hr].
    apply remove_ok in Em as ->; [|done].
    split; [done|]. split; [|intros _; unfold spec_hunk; rewrite Hp; simpl; by rewrite Hc].
    eexists. split; [done|].
    apply (committed_one _ _ (mkChange u (ChangeDelete c))); [by apply undo_delete|].
    unfold hunk_targets. by rewrite Hp.
  - apply commits_nothing; [done|]. simpl. intros Hx. boolify.
    match goal with Hn : note_existing_path_delta_support _ _ _ = true |- _ =>
      apply note_existing_exact in Hn as [? Hr] end.
    split; [done|]. by eapply (remove_free_exact _ u _ _ (Some _)).
Qed.

(** What the update hunk knows once the new contents are derived. *)
Lemma derive_from_chunks_ok (fs : FS) u chunks old new :
  derive_new_contents_from_chunks fs u chunks = Ok (old, new) ->
  view fs !! u = Some old /\
  derive_new_contents old (inferred_native_path_string u) chunks = Some (Ok new).
Proof using FsLaws0.
  unfold derive_new_contents_from_chunks. intros Hx.
  destruct (read_file_text fs u) eqn:Er; simpl in Hx; [|done]. apply read_ok in Er.
  repeat case_hyp Hx. by simplify_eq.
Qed.

Lemma apply_in_place_commits cwd path chunks fs d u old new :
  resolve_path cwd (UpdateFile path None chunks) = Ok u ->
  (exact d = true -> regular fs u) ->
  derive_new_contents_from_chunks fs u chunks = Ok (old, new) ->
  hunk_commits cwd (UpdateFile path None chunks) fs d (apply_update_in_place fs d u old new).
Proof using FsLaws0.
  intros Hp Hr (Hold & Hnew)%derive_from_chunks_ok. unfold apply_update_in_place.
  destruct (write_file fs u new) as [fs' [[]|e]] eqn:Ew; simpl; [|by apply commits_nothing].
  intros He. simpl in *. apply write_ok in Ew as ->; [|auto].
  split; [done|]. split; [|intros _; unfold spec_hunk; rewrite Hp; simpl; by rewrite Hold, Hnew].
  eexists. split; [done|].
  apply (committed_one _ _ (mkChange u (ChangeUpdate None old None new))); [by apply undo_update|].
  unfold hunk_targets. by rewrite Hp.
Qed.

Lemma move_targets cwd path dest chunks u v :
  resolve_path cwd (UpdateFile path (Some dest) chunks) = Ok u -> path_join cwd dest = Ok v ->
  hunk_targets cwd (UpdateFile path (Some dest) chunks) = [u; v].
Proof. intros Hp Hv. unfold hunk_targets. by rewrite Hp, Hv. Qed.

Lemma apply_move_commits cwd path dest chunks fs d u v old new :
  resolve_path cwd (UpdateFile path (Some dest) chunks) = Ok u -> path_join cwd dest = Ok v ->
  (exact d = true -> regular fs u) ->
  derive_new_contents_from_chunks fs u chunks = Ok (old, new) ->
  hunk_commits cwd (UpdateFile path (Some dest) chunks) fs d
    (apply_update_move fs d u v old new).
Proof using FsLaws0.
  intros Hp Hv Hr (Hold & Hnew)%derive_from_chunks_ok. unfold apply_update_move.
  destruct (read_optional_file_text_for_delta fs v (exact d)) as [o ex] eqn:Eo.
  destruct (write_file_with_missing_parent_retry fs v new) as [fs1 [[]|e]] eqn:Ew;
    [|by apply commits_nothing].
  (* the state after the destination was written *)
  assert (ex = true -> exact d = true /\ o = view fs !! v /\
            view fs1 = <[v := new]> (view fs) /\ regular fs1 u) as Hdest.
  { intros ->. apply read_optional_exact in Eo as (? & Hrv & <-).
    apply write_retry_ok in Ew as [? Hk]; [|done].
    split; [done|]. split; [done|]. split; [done|]. apply Hk; [by eexists|auto]. }
  assert (forall fs2 e, (exact d = true -> ex = true -> view fs2 = view fs1) ->
    hunk_commits cwd (UpdateFile path (Some dest) chunks) fs d
      (fs2, mkDelta (changes d ++ [mkChange v (ChangeAdd new o)]) ex, Err e)) as Hadded.
  { intros fs2 e' Hv2 He. simpl in *. destruct (Hdest He) as (Hd & -> & Hv1 & _).
    rewrite (Hv2 Hd He), Hv1. split; [done|]. split; [|done].
    eexists. split; [done|].
    apply (committed_one _ _ (mkChange v (ChangeAdd new (view fs !! v)))); [apply undo_add|].
    erewrite move_targets by done. unfold change_paths. simpl. set_solver. }
  destruct (ensure_not_directory fs1 u) as [[]|e]; simpl; [|by apply Hadded].
  destruct (remove fs1 u) as [fs2 [[]|e]] eqn:Em; simpl.
  - intros He. simpl in *. destruct (Hdest He) as (Hd & -> & Hv1 & Hru).
    apply remove_ok in Em as ->; [|done]. rewrite Hv1.
    split; [done|].
    split; [|intros _; unfold spec_hunk; rewrite Hp; simpl; rewrite Hold, Hnew; by rewrite Hv].
    eexists. split; [done|].
    apply (committed_one _ _ (mkChange u (ChangeUpdate (Some v) old (view fs !! v) new)));
      [by apply undo_move|].
    erewrite move_targets by done. unfold change_paths. simpl. set_solver.
  - destruct ex; [|by intros He]. cbn [andb exact push_change set_exact changes].
    destruct (remove_failure_was_side_effect_free fs2 u (Some old)) eqn:Ef; [|by intros He].
    apply Hadded. intros _ _. destruct Hdest as (_ & _ & _ & Hru); [done|].
    by eapply (remove_free_exact _ u _ _ (Some _)).
Qed.

Lemma apply_hunk_commits cwd h fs d : hunk_commits cwd h fs d (apply_hunk cwd fs d h).
Proof using FsLaws0.
  unfold apply_hunk. destruct (resolve_path cwd h) as [u|m] eqn:Hp.
  2: { by apply commits_nothing. }
  destruct h as [path contents|path|path mv chunks];
    [by apply apply_add_commits|by apply apply_delete_commits|].
  unfold apply_update. set (d1 := set_exact _ d).
  assert (exact d1 = true -> exact d = true /\ regular fs u) as Hd1.
  { apply note_existing_exact. }
  destruct (derive_new_contents_from_chunks fs u chunks) as [[old new]|e] eqn:Ed;
    [|apply commits_nothing; [done|naive_solver]].
  assert (forall out, hunk_commits cwd (UpdateFile path mv chunks) fs d1 out ->
            hunk_commits cwd (UpdateFile path mv chunks) fs d out) as Hmono.
  { intros out Ho He. destruct (Ho He) as (? & ? & ?). naive_solver. }
  destruct mv as [dest|]; [destruct (path_join cwd dest) as [v|m] eqn:Ev|].
  - apply Hmono. eapply apply_move_commits; naive_solver.
  - apply commits_nothing; [done|naive_solver].
  - apply Hmono. eapply apply_in_place_commits; naive_solver.
Qed.

Definition patch_targets (cwd : U) (hs : list Hunk) : list U := hs ≫= hunk_targets cwd.

Lemma apply_loop_commits cwd hs : forall fs d a fs' d' r,
  apply_hunk_loop cwd fs d a hs = (fs', d', r) -> exact d' = true ->
  exact d = true /\
  (exists cs, changes d' = changes d ++ cs /\
     committed (patch_targets cwd hs) (view fs) cs (view fs')) /\
  (is_ok r = true -> spec_hunks cwd (view fs) hs = Some (view fs')).
Proof using FsLaws0.
  induction hs as [|h hs IH]; intros fs d a fs' d' r Hl He; simpl in Hl.
  - simplify_eq. split; [done|]. split; [|done]. exists []. rewrite app_nil_r.
    split; [done|apply committed_nil].
  - pose proof (apply_hunk_commits cwd h fs d) as Hh.
    destruct (apply_hunk cwd fs d h) as [[fs1 d1] [k|e]]; unfold hunk_commits in Hh; simpl in Hh.
    + apply IH in Hl as (Hd1 & (cs2 & Hc2 & Hm2) & Hs2); [|done].
      destruct (Hh Hd1) as (Hd & (cs1 & Hc1 & Hm1) & Hs1).
      split; [done|]. split.
      * exists (cs1 ++ cs2). rewrite Hc2, Hc1, <-app_assoc. split; [done|].
        by eapply committed_app.
      * intros Hr. simpl. rewrite Hs1 by done. auto.
    + simplify_eq. destruct (Hh He) as (Hd & (cs1 & Hc1 & [Hr Hu Hp]) & _).
      split; [done|]. split; [|done]. exists cs1. split; [done|]. split; [done|done|].
      intros c u Hc Hin. apply elem_of_app. left. eauto.
Qed.

(** What [apply_hunks_to_files] leaves behind when its delta is exact. *)
Lemma apply_hunks_to_files_commits cwd hs fs fs' d' r :
  apply_hunks_to_files cwd fs delta_empty hs = (fs', d', r) -> exact d' = true ->
  committed (patch_targets cwd hs) (view fs) (changes d') (view fs') /\
  (is_ok r = true -> spec_hunks cwd (view fs) hs = Some (view fs')).
Proof using FsLaws0.
  intros Hx He. destruct hs as [|h hs].
  - injection Hx as <- <- <-. split; [apply committed_nil|done].
  - apply apply_loop_commits in Hx as (_ & (cs & Hc & Hm) & Hs); [|done].
    simpl in Hc. rewrite Hc. auto.
Qed.

(** The delta [apply_hunks] reports, in a success as in a failure. *)
Definition outcome_delta (r : result (AppliedPatchDelta U) (ApplyPatchFailure (U := U)))
    : AppliedPatchDelta U :=
  match r with Ok delta => delta | Err failure => failure.2 end.

Context {W : Type} (write_line : W -> str -> W * result unit io_error).

Lemma apply_hunks_files hs cwd out err fs fs' out' err' r :
  apply_hunks write_line hs cwd out err fs = (fs', out', err', r) ->
  exists ra, apply_hunks_to_files cwd fs delta_empty hs = (fs', outcome_delta r, ra) /\
    (is_ok r = true -> is_ok ra = true).
Proof.
  unfold apply_hunks. intros Hx.
  destruct (apply_hunks_to_files cwd fs delta_empty hs) as [[fs1 d1] [a|e]] eqn:Ea;
    repeat case_hyp Hx; simplify_eq; simpl; eauto.
Qed.

(** C2.  Rolling back: whether [apply_hunks] succeeds or fails half way, when
    the delta it reports is marked exact the files on disk are those of before
    with the delta replayed on them, and undoing the delta, last change first,
    gives back the files of before. *)
Theorem apply_hunks_delta_exact hs cwd out err fs fs' out' err' r :
  apply_hunks write_line hs cwd out err fs = (fs', out', err', r) ->
  exact (outcome_delta r) = true ->
  view fs' = replay (changes (outcome_delta r)) (view fs) /\
  undo (changes (outcome_delta r)) (view fs') = view fs.
Proof using FsLaws0.
  intros (ra & Ha & _)%apply_hunks_files He.
  apply apply_hunks_to_files_commits in Ha as [[Hr Hf _] _]; [|done]. split; [done|]. rewrite Hr. by apply faithful_undo.
Qed.

(** An application with an exact delta leaves every file alone that no
    hunk of the patch names, as source or as move destination. *)
Theorem apply_hunks_frame hs cwd out err fs fs' out' err' r u :
  apply_hunks write_line hs cwd out err fs = (fs', out', err', r) ->
  exact (outcome_delta r) = true -> u ∉ patch_targets cwd hs ->
  view fs' !! u = view fs !! u.
Proof using FsLaws0.
  intros (ra & Ha & _)%apply_hunks_files He Hu.
  apply apply_hunks_to_files_commits in Ha as [Hm _]; [|done]. by eapply committed_frame.
Qed.

(** C16.  Refinement: a successful application with an exact delta takes the
    files to what the specification computes from the hunks one by one. *)
Theorem apply_hunks_refines_spec hs cwd out err fs fs' out' err' d :
  apply_hunks write_line hs cwd out err fs = (fs', out', err', Ok d) -> exact d = true ->
  spec_hunks cwd (view fs) hs = Some (view fs').
Proof using FsLaws0.
  intros (ra & Ha & Hok)%apply_hunks_files He.
  apply apply_hunks_to_files_commits in Ha as [_ Hs]; auto.
Qed.
End Commit.

(** ** Progress on a file system that does not fail *)

(** Every path is a text file or nothing, and no operation fails for another
    reason than the state of the files. *)
Class FsReliable {U FS} `{Countable U, PathUriOps U, ExecutorFileSystem U FS}
    (view : FS -> gmap U str) : Prop := {
  meta_file fs u c : view fs !! u = Some c -> get_metadata fs u = Ok (mkMeta false true false);
  meta_none fs u :
    view fs !! u = None -> exists e, get_metadata fs u = Err e /\ kind e = NotFound;
  read_some fs u c : view fs !! u = Some c -> read_file_text fs u = Ok c;
  read_none fs u :
    view fs !! u = None -> exists e, read_file_text fs u = Err e /\ kind e = NotFound;
  write_total fs u c : (write_file fs u c).2 = Ok tt;
  remove_total fs u : is_Some (view fs !! u) -> (remove fs u).2 = Ok tt;
}.

Definition hunk_kind (h : Hunk) : affected_kind :=
  match h with
  | AddFile _ _ => Added
  | DeleteFile _ => Deleted
  | UpdateFile _ _ _ => Modified
  end.

#[export] Instance affected_kind_eq_dec : EqDecision affected_kind.
Proof. solve_decision. Defined.

Section Progress.
Context {U FS : Type} `{Countable U, PathUriOps U, ExecutorFileSystem U FS}.
Context (view : FS -> gmap U str) `{!FsLaws view, !FsReliable view}.

#[local] Arguments write_file_with_missing_parent_retry : simpl never.

Lemma reliable_regular (fs : FS) u : regular fs u.
Proof using FsReliable0.
  unfold regular. destruct (view fs !! u) eqn:E.
  - by rewrite (meta_file _ _ _ E).
  - by destruct (meta_none _ _ E) as (e & -> & ->).
Qed.

Lemma reliable_note (fs : FS) u ex : note_existing_path_delta_support fs u ex = ex.
Proof using FsReliable0.
  pose proof (reliable_regular fs u) as Hr. unfold note_existing_path_delta_support, regular in *.
  destruct (get_metadata fs u); [by destruct Hr as [-> ->]|by rewrite Hr].
Qed.

Lemma reliable_read_optional (fs : FS) u ex :
  read_optional_file_text_for_delta fs u ex = (view fs !! u, ex).
Proof using FsReliable0.
  unfold read_optional_file_text_for_delta. rewrite reliable_note. destruct (view fs !! u) eqn:E.
  - by rewrite (read_some _ _ _ E).
  - by destruct (read_none _ _ E) as (e & -> & ->).
Qed.

Lemma reliable_write_retry (fs : FS) u c :
  exists fs', write_file_with_missing_parent_retry fs u c = (fs', Ok tt) /\
    view fs' = <[u := c]> (view fs).
Proof using FsLaws0 FsReliable0.
  pose proof (write_total fs u c) as Hw. destruct (write_file fs u c) as [fs' r] eqn:E.
  simpl in Hw. subst r. exists fs'. split.
  - unfold write_file_with_missing_parent_retry. by rewrite E.
  - by apply write_ok; [apply reliable_regular|].
Qed.

Lemma reliable_not_directory (fs : FS) u :
  is_Some (view fs !! u) -> ensure_not_directory fs u = Ok tt.
Proof using FsReliable0.
  intros [c Hc]. unfold ensure_not_directory. by rewrite (meta_file _ _ _ Hc).
Qed.

Lemma reliable_remove (fs : FS) u :
  is_Some (view fs !! u) -> exists fs', remove fs u = (fs', Ok tt).
Proof using FsReliable0.
  intros Hc. pose proof (remove_total fs u Hc). destruct (remove fs u); naive_solver.
Qed.

Lemma apply_hunk_progress cwd h (fs : FS) d m' :
  spec_hunk cwd (view fs) h = Some m' -> exact d = true ->
  exists fs' d', apply_hunk cwd fs d h = (fs', d', Ok (hunk_kind h)) /\ exact d' = true.
Proof using FsLaws0 FsReliable0.
  intros Hs He. unfold spec_hunk in Hs. unfold apply_hunk.
  destruct (resolve_path cwd h) as [u|]; simpl in Hs; [|done].
  destruct h as [path contents|path|path mv chunks]; simpl.
  - unfold apply_add. rewrite reliable_read_optional.
    destruct (reliable_write_retry fs u contents) as (fs' & -> & _). eauto.
  - unfold apply_delete. case_hyp Hs.
    rewrite reliable_note, (read_some _ _ _ E), (reliable_not_directory fs u) by eauto. simpl.
    destruct (reliable_remove fs u) as [fs' ->]; [by eauto|]. simpl. eauto.
  - unfold apply_update, derive_new_contents_from_chunks. case_hyp Hs.
    rewrite reliable_note, (read_some _ _ _ E). simpl. repeat case_hyp Hs.
    + destruct (path_join cwd _) as [v|]; simpl in *; [|done].
      unfold apply_update_move. rewrite reliable_read_optional.
      match goal with |- context [write_file_with_missing_parent_retry fs v ?c] =>
        destruct (reliable_write_retry fs v c) as (fs' & -> & Hv) end.
      assert (is_Some (view fs' !! u)) as Hu.
      { rewrite Hv. apply lookup_insert_is_Some'. right. by eauto. }
      rewrite (reliable_not_directory fs' u) by done. simpl.
      destruct (reliable_remove fs' u Hu) as [fs2 ->]. simpl. eauto.
    + unfold apply_update_in_place.
      match goal with |- context [write_file fs u ?c] => pose proof (write_total fs u c) end.
      destruct (write_file fs u _); simpl in *; simplify_eq; simpl. eauto.
Qed.

Lemma apply_loop_progress cwd hs : forall (fs : FS) d a m',
  spec_hunks cwd (view fs) hs = Some m' -> exact d = true ->
  exists fs' d' a', apply_hunk_loop cwd fs d a hs = (fs', d', Ok a') /\ exact d' = true /\
    added a' = added a ++ map hunk_path (filter (fun h => hunk_kind h = Added) hs) /\
    modified a' = modified a ++ map hunk_path (filter (fun h => hunk_kind h = Modified) hs) /\
    deleted a' = deleted a ++ map hunk_path (filter (fun h => hunk_kind h = Deleted) hs).
Proof using FsLaws0 FsReliable0.
  induction hs as [|h hs IH]; intros fs d a m' Hs He; simpl in *.
  - exists fs, d, a. by rewrite !app_nil_r.
  - destruct (spec_hunk cwd (view fs) h) as [m1|] eqn:E1; [|done].
    destruct (apply_hunk_progress _ _ _ _ _ E1 He) as (fs1 & d1 & Ha & He1).
    pose proof (apply_hunk_commits view cwd h fs d) as Hc. rewrite Ha in *.
    destruct (Hc He1) as (_ & _ & Hv). simpl in Hv. rewrite E1 in Hv.
    injection (Hv eq_refl) as ->.
    destruct (IH fs1 d1 (note_affected (hunk_kind h) (hunk_path h) a) m' Hs He1)
      as (fs' & d' & a' & Hl & Hd & Ha1 & Ha2 & Ha3).
    exists fs', d', a'. split; [done|]. split; [done|].
    rewrite Ha1, Ha2, Ha3. destruct h; simpl; rewrite <-?app_assoc; auto.
Qed.

(** Progress: on a file system whose operations fail only for the state
    of the files, a patch the specification accepts is applied to the end,
    reports an exact delta, lists every hunk's path under its kind in order,
    and leaves the files of the specification. *)
Theorem apply_hunks_to_files_progress cwd hs (fs : FS) m' :
  hs <> [] -> spec_hunks cwd (view fs) hs = Some m' ->
  exists fs' d a, apply_hunks_to_files cwd fs delta_empty hs = (fs', d, Ok a) /\
    exact d = true /\ view fs' = m' /\
    added a = map hunk_path (filter (fun h => hunk_kind h = Added) hs) /\
    modified a = map hunk_path (filter (fun h => hunk_kind h = Modified) hs) /\
    deleted a = map hunk_path (filter (fun h => hunk_kind h = Deleted) hs).
Proof using FsLaws0 FsReliable0.
  intros Hne Hs.
  destruct (apply_loop_progress cwd hs fs delta_empty (mkAffected [] [] []) m' Hs eq_refl)
    as (fs' & d & a & Hl & Hd & Ha).
  exists fs', d, a.
  assert (apply_hunks_to_files cwd fs delta_empty hs = (fs', d, Ok a)) as Hx by (by destruct hs).
  split; [done|]. split; [done|].
  destruct (apply_hunks_to_files_commits view _ _ _ _ _ _ Hx Hd) as [_ Hv].
  rewrite Hs in Hv. injection (Hv eq_refl) as ->. done.
Qed.
End Progress.

(** ** A file system in memory

    The interfaces instantiated: paths are strings, the state is the map of
    files, a path is missing exactly when it is not in the map. *)

Module MemFs.
Definition not_found : io_error := mkIoError NotFound (lit "No such file or directory").

#[export] Instance mem_paths : PathUriOps str := {|
  path_join cwd p := Ok (cwd ++ lit "/" ++ p);
  path_parent u := option_map fst (rsplit_once 47%N u);
  inferred_native_path_string u := u;
|}.

#[export] Instance mem_fs : ExecutorFileSystem str (gmap str str) := {|
  read_file_text fs u := ok_or (fs !! u) not_found;
  get_metadata fs u :=
    match fs !! u with Some _ => Ok (mkMeta false true false) | None => Err not_found end;
  write_file fs u c := (<[u := c]> fs, Ok tt);
  create_directory fs _ := (fs, Ok tt);
  remove fs u :=
    match fs !! u with Some _ => (delete u fs, Ok tt) | None => (fs, Err not_found) end;
|}.

Lemma mem_regular (fs : gmap str str) u : regular fs u.
Proof. unfold regular. simpl. by destruct (fs !! u). Qed.

#[export] Instance mem_laws : FsLaws (FS := gmap str str) id.
Proof.
  split; simpl; intros; try apply mem_regular; try done; unfold id in *.
  - by destruct (fs !! u); simplify_eq/=.
  - by destruct (fs !! u); simplify_eq/=.
  - by simplify_eq.
  - by destruct (fs !! u); simplify_eq.
  - destruct (fs !! u); simplify_eq. by left.
Qed.

#[export] Instance mem_reliable : FsReliable (FS := gmap str str) id.
Proof.
  split; simpl; intros; try done; unfold id in *.
  - by rewrite H.
  - rewrite H. by eexists.
  - by rewrite H.
  - rewrite H. by eexists.
  - destruct H as [c ->]. done.
Qed.

(** A writer that keeps what was written. *)
Definition log_line (w : list str) (l : str) : list str * result unit io_error :=
  (w ++ [l], Ok tt).

Definition demo_fs : gmap str str :=
  <[lit "w/a" := lit "one" ++ [LF] ++ lit "two" ++ [LF]]>
  (<[lit "w/keep" := lit "kept"]> ∅).

Definition demo_hunks : list Hunk :=
  [AddFile (lit "new") (lit "fresh");
   UpdateFile (lit "a") (Some (lit "b")) [mkChunk None [lit "two"] [lit "2"] false];
   DeleteFile (lit "new")].

(** The third hunk fails: there is no such file. *)
Definition failing_hunks : list Hunk :=
  [AddFile (lit "new") (lit "fresh");
   UpdateFile (lit "a") (Some (lit "b")) [mkChunk None [lit "two"] [lit "2"] false];
   UpdateFile (lit "missing") None [mkChunk None [lit "x"] [lit "y"] false]].
End MemFs.
Import MemFs.

Lemma apply_hunks_delta_exact_witness :
  let out := apply_hunks log_line failing_hunks (lit "w") [] [] demo_fs in
  is_ok out.2 = false /\
  undo (changes (outcome_delta out.2)) out.1.1.1 = demo_fs /\ out.1.1.1 <> demo_fs.
Proof.
  split; [vm_compute; reflexivity|]. split.
  - destruct (apply_hunks log_line failing_hunks (lit "w") [] [] demo_fs)
      as [[[fs' out'] err'] r] eqn:E.
    apply (apply_hunks_delta_exact id log_line failing_hunks (lit "w") [] [] demo_fs fs' out' err' r E).
    change r with (fs', out', err', r).2. rewrite <-E. vm_compute. reflexivity.
  - intros Heq. apply (f_equal (fun m : gmap str str => m !! lit "w/b")) in Heq.
    vm_compute in Heq. discriminate Heq.
Defined.

Lemma apply_hunks_frame_witness :
  (apply_hunks log_line failing_hunks (lit "w") [] [] demo_fs).1.1.1 !! lit "w/keep"
  = Some (lit "kept").
Proof.
  destruct (apply_hunks log_line failing_hunks (lit "w") [] [] demo_fs)
    as [[[fs' out'] err'] r] eqn:E.
  change (id fs' !! lit "w/keep" = Some (lit "kept")).
  rewrite (apply_hunks_frame id log_line failing_hunks (lit "w") [] [] demo_fs
             fs' out' err' r (lit "w/keep") E).
  - vm_compute. reflexivity.
  - change r with (fs', out', err', r).2. rewrite <-E. vm_compute. reflexivity.
  - apply (bool_decide_unpack _). vm_compute. exact I.
Defined.

Lemma apply_hunks_refines_spec_witness :
  exists fs', spec_hunks (lit "w") demo_fs demo_hunks = Some fs' /\
    fs' !! lit "w/b" = Some (lit "one" ++ [LF] ++ lit "2" ++ [LF]).
Proof.
  destruct (apply_hunks log_line demo_hunks (lit "w") [] [] demo_fs)
    as [[[fs' out'] err'] [d|e]] eqn:E.
  - exists fs'. split.
    + apply (apply_hunks_refines_spec id log_line demo_hunks (lit "w") [] [] demo_fs
               fs' out' err' d E).
      change d with (outcome_delta (fs', out', err', @Ok _ (@ApplyPatchFailure str) d).2).
      rewrite <-E. vm_compute. reflexivity.
    + change fs' with (fs', out', err', @Ok _ (@ApplyPatchFailure str) d).1.1.1.
      rewrite <-E. vm_compute. reflexivity.
  - exfalso. apply (f_equal (fun o => is_ok o.2)) in E. vm_compute in E. discriminate E.
Defined.

Lemma apply_hunks_to_files_progress_witness :
  exists fs' d a,
    apply_hunks_to_files (lit "w") demo_fs delta_empty demo_hunks = (fs', d, Ok a) /\
    modified a = [lit "b"].
Proof.
  destruct (spec_hunks (lit "w") demo_fs demo_hunks) as [m'|] eqn:E.
  - destruct (apply_hunks_to_files_progress id (lit "w") demo_hunks demo_fs m')
      as (fs' & d & a & Hx & _ & _ & _ & Hm & _).
    + discriminate.
    + exact E.
    + exists fs', d, a. split; [exact Hx|]. rewrite Hm. vm_compute. reflexivity.
  - vm_compute in E. discriminate E.
Defined.

(** An update that moves a file to its own path: the new contents are
    written and then removed with the original, so the file is gone although
    the application reports success. *)
Theorem move_to_itself_deletes (fs : gmap str str) cwd path chunks d old new :
  fs !! (cwd ++ lit "/" ++ path) = Some old ->
  derive_new_contents old (cwd ++ lit "/" ++ path) chunks = Some (Ok new) ->
  let out := apply_hunk cwd fs d (UpdateFile path (Some path) chunks) in
  is_ok out.2 = true /\ out.1.1 !! (cwd ++ lit "/" ++ path) = None.
Proof.
  intros Hu Hn. unfold apply_hunk, resolve_path, apply_update, derive_new_contents_from_chunks.
  cbn [path_join mem_paths hunk_source_path read_file_text mem_fs inferred_native_path_string].
  rewrite Hu. cbn [ok_or map_err]. rewrite Hn. unfold apply_update_move.
  rewrite (reliable_read_optional id).
  destruct (reliable_write_retry id fs (cwd ++ lit "/" ++ path) new) as (fs' & -> & Hv).
  unfold id in Hv. subst fs'.
  unfold ensure_not_directory. cbn [get_metadata remove mem_fs].
  rewrite lookup_insert_eq. simpl. by rewrite lookup_delete_eq.
Qed.

Lemma move_to_itself_deletes_witness :
  let out := apply_hunk (lit "w") demo_fs delta_empty
    (UpdateFile (lit "a") (Some (lit "a")) [mkChunk None [lit "two"] [lit "2"] false]) in
  is_ok out.2 = true /\ out.1.1 !! lit "w/a" = None.
Proof.
  apply (move_to_itself_deletes demo_fs (lit "w") (lit "a") _ delta_empty
           (lit "one" ++ [LF] ++ lit "two" ++ [LF]) (lit "one" ++ [LF] ++ lit "2" ++ [LF]));
    vm_compute; reflexivity.
Defined.
