(* ===== verification/Invocation.v ===== *)
(** * Recognising and previewing an [apply_patch] command

    Models [apply-patch/src/invocation.rs] and the preview types of
    [apply-patch/src/lib.rs]: from a command line to the changes the user is
    asked to approve.  The bash grammar and its query, and the diff renderer,
    are library code and parameters. *)

From Stdlib Require Import ZArith Lia.
From stdpp Require Import gmap.
From S2P Require Import Prelude RustStr PatchSyntax Replacements StreamingParser PatchParser ApplyPatch.

(** ** Shells *)

(** [codex_utils_path_uri::PathConvention] and its lexical segments. *)
Inductive PathConvention : Type := Posix | Windows.

Definition is_separator (c : PathConvention) (ch : N) : bool :=
  match c with
  | Posix => (ch =? 47)%N
  | Windows => (ch =? 47)%N || (ch =? 92)%N
  end.

(** [path_segments(path).next_back()]: the text after the last separator. *)
Fixpoint last_segment (c : PathConvention) (acc path : str) : str :=
  match path with
  | [] => acc
  | ch :: path' =>
      if is_separator c ch then last_segment c [] path' else last_segment c (acc ++ [ch]) path'
  end.

Inductive ApplyPatchShell : Type := Unix | PowerShell | Cmd.

Definition APPLY_PATCH_COMMANDS : list str := Eval vm_compute in [lit "apply_patch"; lit "applypatch"].

Definition classify_shell_name (shell : str) (c : PathConvention) : str :=
  let basename := last_segment c [] shell in
  let stem :=
    match rsplit_once 46%N basename with
    | Some (stem, _) => if is_empty stem then basename else stem
    | None => basename
    end in
  to_ascii_lowercase stem.

Definition one_of (s : str) (names : list str) : bool := bool_decide (s ∈ names).

Definition classify_shell (shell flag : str) (c : PathConvention) : option ApplyPatchShell :=
  let name := classify_shell_name shell c in
  if one_of name [lit "bash"; lit "zsh"; lit "sh"] && one_of flag [lit "-lc"; lit "-c"]
  then Some Unix
  else if one_of name [lit "pwsh"; lit "powershell"] && eq_ignore_ascii_case flag (lit "-command")
  then Some PowerShell
  else if one_of name [lit "cmd"] && eq_ignore_ascii_case flag (lit "/c")
  then Some Cmd
  else None.

Definition can_skip_flag (shell flag : str) (c : PathConvention) : bool :=
  one_of (classify_shell_name shell c) [lit "pwsh"; lit "powershell"]
  && eq_ignore_ascii_case flag (lit "-noprofile").

(** ** Heredocs *)

Inductive ExtractHeredocError : Type :=
  | CommandDidNotStartWithApplyPatch
  | FailedToLoadBashGrammar (message : str)
  | HeredocNotUtf8
  | FailedToParsePatchIntoAst
  | FailedToFindHeredocBody.

(** A capture of the query with its text, [None] when it is not UTF-8. *)
Inductive capture : Type :=
  | HeredocCapture (text : option str)
  | CdPathCapture (text : option str)
  | CdRawStringCapture (text : option str)
  | OtherCapture.

Definition APOSTROPHE : str := [39%N].

Definition unquote (raw : str) : str :=
  match strip_prefix APOSTROPHE raw with
  | Some s => match strip_suffix APOSTROPHE s with Some inner => inner | None => raw end
  | None => raw
  end.

(** The captures of one match, in order. *)
Fixpoint read_captures (cs : list capture) (heredoc_text cd_path : option str)
    : result (option str * option str) ExtractHeredocError :=
  match cs with
  | [] => Ok (heredoc_text, cd_path)
  | HeredocCapture (Some text) :: cs' =>
      read_captures cs' (Some (trim_end_matches LF text)) cd_path
  | CdPathCapture (Some text) :: cs' => read_captures cs' heredoc_text (Some text)
  | CdRawStringCapture (Some raw) :: cs' => read_captures cs' heredoc_text (Some (unquote raw))
  | OtherCapture :: cs' => read_captures cs' heredoc_text cd_path
  | _ :: _ => Err HeredocNotUtf8
  end.

Fixpoint first_heredoc (ms : list (list capture))
    : result (str * option str) ExtractHeredocError :=
  match ms with
  | [] => Err CommandDidNotStartWithApplyPatch
  | m :: ms' =>
      let? (heredoc_text, cd_path) := read_captures m None None in
      match heredoc_text with
      | Some heredoc => Ok (heredoc, cd_path)
      | None => first_heredoc ms'
      end
  end.

(** ** The preview *)

Inductive MaybeApplyPatch : Type :=
  | MaybeBody (args : ApplyPatchArgs)
  | MaybeShellParseError (e : ExtractHeredocError)
  | MaybePatchParseError (e : ParseError)
  | MaybeNotApplyPatch.

Inductive ApplyPatchFileChange (U : Type) : Type :=
  | PreviewAdd (content : str)
  | PreviewDelete (content : str)
  | PreviewUpdate (unified_diff : str) (move_path : option U) (new_content : str).
Arguments PreviewAdd {U} content.
Arguments PreviewDelete {U} content.
Arguments PreviewUpdate {U} unified_diff move_path new_content.

Record ApplyPatchFileUpdate : Type := mkFileUpdate {
  unified_diff : str;
  original_content : str;
  content : str;
}.

Section Invocation.
Context {U FS : Type} `{Countable U, PathUriOps U, ExecutorFileSystem U FS}.
(** [PathUri::infer_path_convention]. *)
Context (infer_path_convention : U -> option PathConvention).
(** The matches of the query on the parsed script. *)
Context (query_matches : str -> result (list (list capture)) ExtractHeredocError).
(** [TextDiff::from_lines(old, new).unified_diff().context_radius(n).to_string()]. *)
Context (render_diff : str -> str -> nat -> str).

Record ApplyPatchAction : Type := mkAction {
  action_changes : gmap U (ApplyPatchFileChange U);
  action_patch : str;
  action_cwd : U;
}.

Inductive MaybeApplyPatchVerified : Type :=
  | VerifiedBody (action : ApplyPatchAction)
  | VerifiedShellParseError (e : ExtractHeredocError)
  | VerifiedCorrectnessError (e : ApplyPatchError)
  | VerifiedNotApplyPatch.

Definition extract_apply_patch_from_bash (src : str) : result (str * option str) ExtractHeredocError :=
  let? ms := query_matches src in first_heredoc ms.

Definition parse_shell_script (argv : list str) (cwd : U) : option (ApplyPatchShell * str) :=
  let! convention := infer_path_convention cwd in
  match argv with
  | [shell; flag; script] =>
      let! shell_type := classify_shell shell flag convention in Some (shell_type, script)
  | [shell; skip_flag; flag; script] =>
      if negb (can_skip_flag shell skip_flag convention) then None
      else let! shell_type := classify_shell shell flag convention in Some (shell_type, script)
  | _ => None
  end.

Definition extract_apply_patch_from_shell (shell : ApplyPatchShell) (script : str)
    : result (str * option str) ExtractHeredocError :=
  match shell with Unix | PowerShell | Cmd => extract_apply_patch_from_bash script end.

Definition parse_shell_invocation (argv : list str) (cwd : U) : MaybeApplyPatch :=
  match parse_shell_script argv cwd with
  | Some (shell, script) =>
      match extract_apply_patch_from_shell shell script with
      | Ok (body, workdir) =>
          match parse_patch body with
          | Ok source => MaybeBody (mkArgs (patch source) (hunks source) workdir (environment_id source))
          | Err e => MaybePatchParseError e
          end
      | Err CommandDidNotStartWithApplyPatch => MaybeNotApplyPatch
      | Err e => MaybeShellParseError e
      end
  | None => MaybeNotApplyPatch
  end.

Definition maybe_parse_apply_patch (argv : list str) (cwd : U) : MaybeApplyPatch :=
  match argv with
  | [cmd; body] =>
      if one_of cmd APPLY_PATCH_COMMANDS
      then match parse_patch body with
           | Ok source => MaybeBody source
           | Err e => MaybePatchParseError e
           end
      else parse_shell_invocation argv cwd
  | _ => parse_shell_invocation argv cwd
  end.

Definition unified_diff_from_chunks_with_context (fs : FS) (path : U)
    (chunks : list UpdateFileChunk) (context : nat) : result ApplyPatchFileUpdate ApplyPatchError :=
  let? (original_contents, new_contents) := derive_new_contents_from_chunks fs path chunks in
  Ok (mkFileUpdate (render_diff original_contents new_contents context)
        original_contents new_contents).

Definition unified_diff_from_chunks (fs : FS) (path : U) (chunks : list UpdateFileChunk)
    : result ApplyPatchFileUpdate ApplyPatchError :=
  unified_diff_from_chunks_with_context fs path chunks 1.

(** The change one hunk is previewed as. *)
Definition preview_hunk (fs : FS) (cwd : U) (path : U) (h : Hunk)
    : result (ApplyPatchFileChange U) ApplyPatchError :=
  match h with
  | AddFile _ contents => Ok (PreviewAdd contents)
  | DeleteFile _ =>
      let? content :=
        map_err (IoErrorE (lit "Failed to read " ++ inferred_native_path_string path))
          (read_file_text fs path) in
      Ok (PreviewDelete content)
  | UpdateFile _ move_path chunks =>
      let? update := unified_diff_from_chunks fs path chunks in
      match move_path with
      | None => Ok (PreviewUpdate (unified_diff update) None (content update))
      | Some dest =>
          let? dest_uri := map_err PathUriE (path_join cwd dest) in
          Ok (PreviewUpdate (unified_diff update) (Some dest_uri) (content update))
      end
  end.

Fixpoint preview_hunks (fs : FS) (cwd : U) (changes : gmap U (ApplyPatchFileChange U))
    (hs : list Hunk) : result (gmap U (ApplyPatchFileChange U)) ApplyPatchError :=
  match hs with
  | [] => Ok changes
  | h :: hs' =>
      let? path := map_err PathUriE (resolve_path cwd h) in
      let? change := preview_hunk fs cwd path h in
      preview_hunks fs cwd (<[path := change]> changes) hs'
  end.

Definition effective_cwd (cwd : U) (workdir : option str) : result U str :=
  match workdir with Some dir => path_join cwd dir | None => Ok cwd end.

Definition try_verify_apply_patch_args (args : ApplyPatchArgs) (cwd : U) (fs : FS)
    : result ApplyPatchAction ApplyPatchError :=
  let? cwd := map_err PathUriE (effective_cwd cwd (workdir args)) in
  let? changes := preview_hunks fs cwd ∅ (hunks args) in
  Ok (mkAction changes (patch args) cwd).

Definition verify_apply_patch_args (args : ApplyPatchArgs) (cwd : U) (fs : FS)
    : MaybeApplyPatchVerified :=
  match try_verify_apply_patch_args args cwd fs with
  | Ok action => VerifiedBody action
  | Err err => VerifiedCorrectnessError err
  end.

Definition maybe_parse_apply_patch_verified (argv : list str) (cwd : U) (fs : FS)
    : MaybeApplyPatchVerified :=
  if match argv with [body] => is_ok (parse_patch body) | _ => false end
  then VerifiedCorrectnessError ImplicitInvocation
  else if match parse_shell_script argv cwd with
          | Some (_, script) => is_ok (parse_patch script)
          | None => false
          end
  then VerifiedCorrectnessError ImplicitInvocation
  else
    match maybe_parse_apply_patch argv cwd with
    | MaybeBody args => verify_apply_patch_args args cwd fs
    | MaybeShellParseError e => VerifiedShellParseError e
    | MaybePatchParseError e => VerifiedCorrectnessError (ParseErrorE e)
    | MaybeNotApplyPatch => VerifiedNotApplyPatch
    end.
End Invocation.

(** ** The preview is what is applied *)

Section Preview.
Context {U FS : Type} `{Countable U, PathUriOps U, ExecutorFileSystem U FS}.
Context (render_diff : str -> str -> nat -> str).
Context (view : FS -> gmap U str) `{!FsLaws view}.

(** What a previewed change says of the files afterwards. *)
Definition change_holds (m : gmap U str) (path : U) (c : ApplyPatchFileChange U) : Prop :=
  match c with
  | PreviewAdd content => m !! path = Some content
  | PreviewDelete _ => m !! path = None
  | PreviewUpdate _ None new => m !! path = Some new
  | PreviewUpdate _ (Some dest) new => m !! dest = Some new /\ m !! path = None
  end.

Definition change_targets (path : U) (c : ApplyPatchFileChange U) : list U :=
  path :: match c with PreviewUpdate _ (Some dest) _ => [dest] | _ => [] end.

Lemma change_holds_frame (m m' : gmap U str) path c :
  (forall u, u ∈ change_targets path c -> m' !! u = m !! u) ->
  change_holds m path c -> change_holds m' path c.
Proof.
  intros Hf. destruct c as [x|x|d [dest|] new]; simpl; rewrite !Hf by set_solver; done.
Qed.

(** One hunk: the specification does what the preview says, at the hunk's own
    paths only, as long as those still hold what the preview read. *)
Lemma preview_hunk_spec fs cwd path h c (m : gmap U str) :
  resolve_path cwd h = Ok path -> preview_hunk render_diff fs cwd path h = Ok c ->
  NoDup (hunk_targets cwd h) ->
  (forall u, u ∈ hunk_targets cwd h -> m !! u = view fs !! u) ->
  change_targets path c = hunk_targets cwd h /\
  exists m', spec_hunk cwd m h = Some m' /\ change_holds m' path c /\
    (forall u, u ∉ hunk_targets cwd h -> m' !! u = m !! u).
Proof using FsLaws0.
  intros Hp Hc Hnd Hm. unfold spec_hunk, hunk_targets in *. rewrite Hp in *. simpl.
  destruct h as [pt contents|pt|pt mv chunks]; simpl in Hc.
  - injection Hc as <-. split; [done|]. eexists. split; [done|]. split; [apply lookup_insert_eq|].
    intros u Hu. apply lookup_insert_ne. set_solver.
  - destruct (read_file_text fs path) as [old|] eqn:Er; [|done]. injection Hc as <-.
    apply read_ok in Er. rewrite Hm, Er by set_solver. split; [done|].
    eexists. split; [done|]. split; [apply lookup_delete_eq|].
    intros u Hu. apply lookup_delete_ne. set_solver.
  - unfold unified_diff_from_chunks, unified_diff_from_chunks_with_context in Hc.
    destruct (derive_new_contents_from_chunks fs path chunks) as [[old new]|] eqn:Ed; [|done].
    apply (derive_from_chunks_ok view) in Ed as [Hold Hnew].
    rewrite Hm, Hold, Hnew by set_solver.
    destruct mv as [dest|]; [destruct (path_join cwd dest) as [v|]; [|done]|]; simpl in *;
      injection Hc as <-; (split; [done|]); (eexists; split; [done|]).
    + assert (path <> v) as Hne by (apply NoDup_cons in Hnd as [? _]; set_solver).
      simpl. rewrite lookup_delete_ne, lookup_insert_eq, lookup_delete_eq by done. split; [done|].
      intros u Hu. rewrite lookup_delete_ne, lookup_insert_ne by set_solver. done.
    + split; [apply lookup_insert_eq|]. intros u Hu. apply lookup_insert_ne. set_solver.
Qed.

Lemma preview_hunks_spec fs cwd hs : forall (m : gmap U str) changes changes' (seen : list U),
  preview_hunks render_diff fs cwd changes hs = Ok changes' ->
  NoDup (patch_targets cwd hs) ->
  (forall u, u ∈ patch_targets cwd hs -> m !! u = view fs !! u /\ u ∉ seen) ->
  (forall path c, changes !! path = Some c ->
     change_holds m path c /\ (forall u, u ∈ change_targets path c -> u ∈ seen)) ->
  exists m', spec_hunks cwd m hs = Some m' /\
    (forall path c, changes' !! path = Some c -> change_holds m' path c) /\
    (forall u, u ∉ patch_targets cwd hs -> m' !! u = m !! u).
Proof using FsLaws0.
  induction hs as [|h hs IH]; intros m changes changes' seen Hp Hnd Hm Hc; simpl in *.
  { injection Hp as <-. exists m. naive_solver. }
  destruct (resolve_path cwd h) as [path|] eqn:Er; [|done]. simpl in Hp.
  destruct (preview_hunk render_diff fs cwd path h) as [c|] eqn:Ec; [|done].
  apply NoDup_app in Hnd as (Hnd1 & Hdis & Hnd2).
  destruct (preview_hunk_spec fs cwd path h c m Er Ec Hnd1) as (Ht & m1 & Hs & Hh & Hf).
  { intros u Hu. apply Hm. set_solver. }
  destruct (IH m1 (<[path := c]> changes) changes' (seen ++ hunk_targets cwd h) Hp Hnd2)
    as (m' & Hs' & Hh' & Hf').
  - intros u Hu. destruct (Hm u) as [Hu1 Hu2]; [set_solver|].
    assert (u ∉ hunk_targets cwd h) as Hnt by (intros Hin; by apply (Hdis u)).
    rewrite Hf by done. split; [done|]. set_solver.
  - intros p c' [(<- & <-)|(Hne & Hl)]%lookup_insert_Some.
    + split; [done|]. rewrite Ht. set_solver.
    + destruct (Hc p c' Hl) as [Hh1 Hin]. split; [|set_solver].
      eapply change_holds_frame; [|exact Hh1]. intros u Hu. apply Hf. intros Hu'.
      destruct (Hm u) as [_ Hns]; [set_solver|]. by apply Hns, Hin.
  - exists m'. rewrite Hs. split; [done|]. split; [done|]. intros u Hu.
    rewrite Hf', Hf by set_solver. done.
Qed.

(** What is shown of a hunk: the kind of change; the content added; the content lost; the
    diff of the old text against the new, and where a moved file goes. *)
Definition shows (m : gmap U str) (cwd path : U) (h : Hunk) (c : ApplyPatchFileChange U) : Prop :=
  match h, c with
  | AddFile _ contents, PreviewAdd shown => shown = contents
  | DeleteFile _, PreviewDelete lost => m !! path = Some lost
  | UpdateFile _ None _, PreviewUpdate diff None new => exists old, m !! path = Some old /\ diff = render_diff old new 1
  | UpdateFile _ (Some dest) _, PreviewUpdate diff (Some target) new =>
      path_join cwd dest = Ok target /\ exists old, m !! path = Some old /\ diff = render_diff old new 1
  | _, _ => False
  end.

Lemma preview_hunk_shows fs cwd path h c :
  resolve_path cwd h = Ok path -> preview_hunk render_diff fs cwd path h = Ok c ->
  shows (view fs) cwd path h c /\ change_targets path c = hunk_targets cwd h.
Proof using FsLaws0.
  intros Hp Hc. unfold hunk_targets. rewrite Hp. destruct h as [pt contents|pt|pt mv chunks]; simpl in Hc.
  - injection Hc as <-. done.
  - destruct (read_file_text fs path) as [old|] eqn:Er; [|done]. injection Hc as <-. apply read_ok in Er. done.
  - unfold unified_diff_from_chunks, unified_diff_from_chunks_with_context in Hc.
    destruct (derive_new_contents_from_chunks fs path chunks) as [[old new]|] eqn:Ed; [|done].
    apply (derive_from_chunks_ok view) in Ed as [Hold _].
    destruct mv as [dest|]; simpl in *; [destruct (path_join cwd dest) as [v|] eqn:Ej; [|done]|]; simpl in *; injection Hc as <-;
      simpl; rewrite ?Ej; eauto.
Qed.

Lemma resolved_target cwd h path : resolve_path cwd h = Ok path -> path ∈ hunk_targets cwd h.
Proof. unfold hunk_targets. intros ->. simpl. apply elem_of_cons. by left. Qed.

(** The preview has an entry for each hunk, and no other. *)
Lemma preview_hunks_entries fs cwd hs : forall changes changes',
  preview_hunks render_diff fs cwd changes hs = Ok changes' -> NoDup (patch_targets cwd hs) ->
  (forall path c, changes' !! path = Some c -> changes !! path = Some c
     \/ exists h, h ∈ hs /\ resolve_path cwd h = Ok path /\ preview_hunk render_diff fs cwd path h = Ok c)
  /\ (forall h, h ∈ hs -> exists path c, resolve_path cwd h = Ok path /\ preview_hunk render_diff fs cwd path h = Ok c /\ changes' !! path = Some c)
  /\ (forall path c, changes !! path = Some c -> path ∉ patch_targets cwd hs -> changes' !! path = Some c).
Proof.
  induction hs as [|h hs IH]; intros changes changes' Hp Hnd; simpl in *.
  { injection Hp as <-. split_and!; [by left | set_solver | done]. }
  destruct (resolve_path cwd h) as [path|] eqn:Er; [|done]. simpl in Hp.
  destruct (preview_hunk render_diff fs cwd path h) as [c|] eqn:Ec; [|done].
  apply NoDup_app in Hnd as (_ & Hdis & Hnd). apply IH in Hp as (Hsound & Hcomp & Hkeep); [|done]. split_and!.
  - intros p c' Hl. apply Hsound in Hl as [[(<- & <-)|(_ & Hl)]%lookup_insert_Some|(h' & Hh & Hr)]; [right|by left|right].
    + exists h. split_and!; [apply elem_of_cons; by left|done..].
    + exists h'. split; [apply elem_of_cons; by right|done].
  - intros h' [-> | Hh]%elem_of_cons; [|by apply Hcomp]. exists path, c. split_and!; [done..|].
    apply Hkeep; [apply lookup_insert_eq|]. by apply Hdis, resolved_target.
  - intros p c' Hl Hn. apply not_elem_of_app in Hn as [Hn Hn']. apply Hkeep; [|done].
    rewrite lookup_insert_ne; [done|]. intros <-. by apply Hn, resolved_target.
Qed.

(** C23.  The preview is truthful and leaves nothing out: when the paths of a patch are
    all different, a patch that is verified is accepted by the specification of its
    application; each hunk is shown at its path, as the kind of change it is and with
    the content it adds, removes or rewrites; nothing else is shown; what is shown holds
    of the files afterwards; and a file that is not shown, as the path of a change or
    where a moved file goes, is as it was. *)
Theorem preview_truthful args cwd fs action :
  try_verify_apply_patch_args render_diff args cwd fs = Ok action ->
  NoDup (patch_targets (action_cwd action) (hunks args)) ->
  exists m', spec_hunks (action_cwd action) (view fs) (hunks args) = Some m' /\
    (forall h, h ∈ hunks args -> exists path c, resolve_path (action_cwd action) h = Ok path
       /\ action_changes action !! path = Some c /\ shows (view fs) (action_cwd action) path h c) /\
    (forall path c, action_changes action !! path = Some c -> change_holds m' path c
       /\ exists h, h ∈ hunks args /\ resolve_path (action_cwd action) h = Ok path) /\
    (forall u, (forall path c, action_changes action !! path = Some c -> u ∉ change_targets path c) -> m' !! u = view fs !! u).
Proof using FsLaws0.
  unfold try_verify_apply_patch_args. intros Hv Hnd.
  destruct (effective_cwd cwd (workdir args)) as [c|]; [|done]. simpl in Hv.
  destruct (preview_hunks render_diff fs c ∅ (hunks args)) as [changes|] eqn:Ep; [|done].
  injection Hv as <-. simpl in *.
  destruct (preview_hunks_entries _ _ _ _ _ Ep Hnd) as (Hsound & Hcomp & _).
  destruct (preview_hunks_spec fs c (hunks args) (view fs) ∅ changes []) as (m' & Hs & Hh & Hf); [done|done|set_solver| |].
  { intros path ch Hl. by rewrite lookup_empty in Hl. }
  exists m'. split_and!; [done| | |].
  - intros h Hin. destruct (Hcomp h Hin) as (path & ch & Hr & Hp & Hl). exists path, ch. split_and!; [done..|].
    by eapply preview_hunk_shows.
  - intros path ch Hl. split; [by apply Hh|]. destruct (Hsound path ch Hl) as [E|(h & Hin & Hr & _)]; [by rewrite lookup_empty in E|]. eauto.
  - intros u Hu. apply Hf. unfold patch_targets. intros (ts & Hut & Hin)%list_elem_of_bind.
    destruct (Hcomp _ Hin) as (path & ch & Hr & Hp & Hl). apply (Hu path ch Hl). by rewrite (proj2 (preview_hunk_shows _ _ _ _ _ Hr Hp)).
Qed.
End Preview.

(** ** What counts as an invocation *)

Section Invoked.
Context {U FS : Type} `{Countable U, PathUriOps U, ExecutorFileSystem U FS}.
Context (infer_path_convention : U -> option PathConvention).
Context (query_matches : str -> result (list (list capture)) ExtractHeredocError).
Context (render_diff : str -> str -> nat -> str).

(** Only an explicit call is verified: the command is [apply_patch] with one
    argument that parses as a patch, or a known shell running a script whose
    heredoc for [apply_patch] parses; a bare patch, alone or as the script, is
    refused. *)
Theorem verified_is_explicit argv cwd (fs : FS) action :
  maybe_parse_apply_patch_verified infer_path_convention query_matches render_diff argv cwd fs
    = VerifiedBody action ->
  (exists cmd body, argv = [cmd; body] /\ cmd ∈ APPLY_PATCH_COMMANDS /\
     is_ok (parse_patch body) = true) \/
  (exists shell script body workdir, parse_shell_script infer_path_convention argv cwd
       = Some (shell, script) /\
     extract_apply_patch_from_bash query_matches script = Ok (body, workdir) /\
     is_ok (parse_patch body) = true /\ is_ok (parse_patch script) = false).
Proof.
  unfold maybe_parse_apply_patch_verified. intros Hv.
  destruct (match argv with [body] => _ | _ => _ end); [done|].
  destruct (match parse_shell_script infer_path_convention argv cwd with
            | Some (_, script) => is_ok (parse_patch script) | None => false end) eqn:Es; [done|].
  assert (forall args, parse_shell_invocation infer_path_convention query_matches argv cwd
            = MaybeBody args ->
    exists shell script body workdir, parse_shell_script infer_path_convention argv cwd
       = Some (shell, script) /\
     extract_apply_patch_from_bash query_matches script = Ok (body, workdir) /\
     is_ok (parse_patch body) = true /\ is_ok (parse_patch script) = false) as Hshell.
  { unfold parse_shell_invocation. intros args Hi.
    destruct (parse_shell_script infer_path_convention argv cwd) as [[sh script]|]; [|done].
    exists sh, script. unfold extract_apply_patch_from_shell in Hi.
    destruct sh; (destruct (extract_apply_patch_from_bash query_matches script) as [[body wd]|e];
      [|by destruct e]); exists body, wd; destruct (parse_patch body); try done; auto. }
  unfold maybe_parse_apply_patch in Hv.
  destruct argv as [|cmd [|body [|? ?]]];
    try (destruct (parse_shell_invocation _ _ _ _) eqn:E; try done; right; by eapply Hshell).
  destruct (one_of cmd APPLY_PATCH_COMMANDS) eqn:Eo.
  - left. exists cmd, body. unfold one_of in Eo. boolify. by destruct (parse_patch body).
  - destruct (parse_shell_invocation _ _ _ _) eqn:E; try done. right. by eapply Hshell.
Qed.
End Invoked.

(** ** A preview *)

Import MemFs.

Definition demo_preview : ApplyPatchArgs :=
  mkArgs [] [UpdateFile (lit "a") (Some (lit "b")) [mkChunk None [lit "two"] [lit "2"] false];
             DeleteFile (lit "keep")] None None.

Definition no_diff (old new : str) (context : nat) : str := [].

Lemma preview_truthful_witness :
  exists m', spec_hunks (lit "w") demo_fs (hunks demo_preview) = Some m' /\
    m' !! lit "w/keep" = None.
Proof.
  destruct (try_verify_apply_patch_args no_diff demo_preview (lit "w") demo_fs) as [action|e] eqn:E.
  - assert (action_cwd action = lit "w") as Hw.
    { change (action_cwd action = lit "w") with
        ((match @Ok _ ApplyPatchError action with Ok a => action_cwd a | Err _ => [] end) = lit "w").
      rewrite <-E. vm_compute. reflexivity. }
    destruct (preview_truthful no_diff id demo_preview (lit "w") demo_fs action E) as (m' & Hm & _ & Hc & _).
    + rewrite Hw. apply (bool_decide_unpack _). vm_compute. exact I.
    + rewrite Hw in Hm. exists m'. split; [exact Hm|].
      apply (Hc (lit "w/keep") (PreviewDelete (lit "kept"))).
      change (action_changes action) with
        (match @Ok _ ApplyPatchError action with Ok a => action_changes a | Err _ => ∅ end).
      rewrite <-E. vm_compute. reflexivity.
  - apply (f_equal is_ok) in E. vm_compute in E. discriminate E.
Defined.

Definition tiny_fs : gmap str str := <[lit "w/f" := lit "a" ++ [LF]]> ∅.

Lemma verified_is_explicit_witness :
  exists cmd body, [lit "apply_patch"; tiny_patch] = [cmd; body] /\ cmd ∈ APPLY_PATCH_COMMANDS.
Proof.
  destruct (maybe_parse_apply_patch_verified (fun _ : str => Some Posix) (fun _ => Ok []) no_diff
              [lit "apply_patch"; tiny_patch] (lit "w") tiny_fs) as [action| | |] eqn:E;
    try (vm_compute in E; discriminate E).
  destruct (verified_is_explicit (fun _ : str => Some Posix) (fun _ => Ok []) no_diff
              [lit "apply_patch"; tiny_patch] (lit "w") tiny_fs action E)
    as [(cmd & body & Ha & Hc & _)|(sh & script & body & wd & Hs & _)].
  - exists cmd, body. split; [exact Ha|exact Hc].
  - discriminate Hs.
Defined.

(** Two updates of one file: the preview keeps the last, computed from the
    original text, while the application does both. *)
Definition two_updates : list Hunk :=
  [UpdateFile (lit "a") None [mkChunk None [lit "one"] [lit "1"] false];
   UpdateFile (lit "a") None [mkChunk None [lit "two"] [lit "2"] false]].

Example preview_of_two_updates :
  (action_changes <$> result_ok (try_verify_apply_patch_args no_diff
     (mkArgs [] two_updates None None) (lit "w") demo_fs)) ≫= (fun m => m !! lit "w/a")
  = Some (PreviewUpdate [] None (lit "one" ++ [LF] ++ lit "2" ++ [LF])) /\
  spec_hunks (lit "w") demo_fs two_updates ≫= (fun m => m !! lit "w/a")
  = Some (lit "1" ++ [LF] ++ lit "2" ++ [LF]).
Proof. split; vm_compute; reflexivity. Qed.
