(* ===== verification/StreamText.v ===== *)
(** * Streamed text parsers

    Models [utils/stream-parser/src/stream_text.rs]: what a parser of streamed
    text returns for a pushed chunk, and the trait its implementations share.
    The trait is a class; a second class states what the implementations
    promise to their clients: the pieces in which the text arrives make no
    difference to what is shown and extracted in the end. *)

From Stdlib Require Import Setoid Morphisms.
From S2P Require Import Prelude RustStr.

(** ** Chunks *)

Record StreamTextChunk (T : Type) : Type := mkChunk {
  visible_text : str;
  extracted : list T;
}.
Arguments mkChunk {T} _ _.
Arguments visible_text {T} _.
Arguments extracted {T} _.

Definition chunk_default {T} : StreamTextChunk T := mkChunk [] [].

Definition chunk_is_empty {T} (c : StreamTextChunk T) : bool :=
  is_empty (visible_text c) && match extracted c with [] => true | _ => false end.

(** [push_str] on the visible text and [append] on the payloads. *)
Definition chunk_append {T} (a b : StreamTextChunk T) : StreamTextChunk T :=
  mkChunk (visible_text a ++ visible_text b) (extracted a ++ extracted b).

Definition chunk_map {T U} (f : T -> U) (c : StreamTextChunk T) : StreamTextChunk U :=
  mkChunk (visible_text c) (map f (extracted c)).

(** ** The trait *)

Class StreamTextParser (P T : Type) : Type := {
  push_str : P -> str -> P * StreamTextChunk T;
  finish_stream : P -> P * StreamTextChunk T;
}.

(** A caller's loop: every piece pushed, the outputs put together. *)
Fixpoint push_all {P T} `{StreamTextParser P T} (p : P) (cs : list str)
    : P * StreamTextChunk T :=
  match cs with
  | [] => (p, chunk_default)
  | c :: cs' =>
      let '(p, o) := push_str p c in
      let '(p, o') := push_all p cs' in
      (p, chunk_append o o')
  end.

(** The whole stream: the pieces, then the flush at its end. *)
Definition parse_stream {P T} `{StreamTextParser P T} (p : P) (cs : list str) : StreamTextChunk T :=
  let '(p, o) := push_all p cs in chunk_append o (finish_stream p).2.

(** ** What an implementation promises *)

(** Payloads may be cut at the pieces, so they are compared up to a relation
    [R] that does not see the cuts; the visible text is compared as it is. *)
Definition chunk_rel {T} (R : relation (list T)) (a b : StreamTextChunk T) : Prop :=
  visible_text a = visible_text b /\ R (extracted a) (extracted b).

(** [ok] holds of the states a parser can be in between calls. *)
Class StreamTextLaws {P T} `{StreamTextParser P T} (ok : P -> Prop) (R : relation (list T))
    : Prop := {
  payload_equiv :: Equivalence R;
  payload_app :: Proper (R ==> R ==> R) (@app T);
  push_ok p c : ok p -> ok (push_str p c).1;
  push_nil p : ok p -> (push_str p []).1 = p /\ chunk_rel R (push_str p []).2 chunk_default;
  push_app p a b : ok p ->
    (push_str p (a ++ b)).1 = (push_str (push_str p a).1 b).1 /\
    chunk_rel R (push_str p (a ++ b)).2
      (chunk_append (push_str p a).2 (push_str (push_str p a).1 b).2);
}.

Section Laws.
Context {P T : Type} `{StreamTextParser P T} (ok : P -> Prop) (R : relation (list T)).
Context {Laws : StreamTextLaws ok R}.

#[export] Instance chunk_rel_equiv : Equivalence (chunk_rel R).
Proof using Laws.
  split.
  - intros a. split; reflexivity.
  - intros a b [? ?]. split; by symmetry.
  - intros a b c [? ?] [? ?]. split; etransitivity; eauto.
Qed.

#[export] Instance chunk_append_proper :
  Proper (chunk_rel R ==> chunk_rel R ==> chunk_rel R) chunk_append.
Proof using Laws.
  intros a a' [Hv He] b b' [Hv' He']. split; simpl; [congruence|]. by rewrite He, He'.
Qed.

Lemma chunk_append_default_l (c : StreamTextChunk T) : chunk_append chunk_default c = c.
Proof. by destruct c. Qed.

Lemma chunk_append_default_r (c : StreamTextChunk T) : chunk_append c chunk_default = c.
Proof. destruct c as [v e]. unfold chunk_append. simpl. by rewrite !app_nil_r. Qed.

Lemma chunk_append_assoc (a b c : StreamTextChunk T) :
  chunk_append a (chunk_append b c) = chunk_append (chunk_append a b) c.
Proof. unfold chunk_append. simpl. by rewrite !app_assoc. Qed.

Lemma push_all_cons p c cs :
  push_all p (c :: cs)
  = ((push_all (push_str p c).1 cs).1,
     chunk_append (push_str p c).2 (push_all (push_str p c).1 cs).2).
Proof. simpl. destruct (push_str p c) as [q o]. simpl. by destruct (push_all q cs). Qed.

(** Pushing pieces is pushing their concatenation. *)
Lemma push_all_concat p cs :
  ok p ->
  ok (push_all p cs).1 /\ (push_all p cs).1 = (push_str p (concat cs)).1 /\
  chunk_rel R (push_all p cs).2 (push_str p (concat cs)).2.
Proof using Laws.
  revert p. induction cs as [|c cs IH]; intros p Hp.
  - destruct (push_nil p Hp) as [H1 H2]. simpl. split; [done|]. split; [done|by symmetry].
  - rewrite push_all_cons. simpl. destruct (IH (push_str p c).1 (push_ok p c Hp)) as (Hok & Hs & Ho).
    destruct (push_app p c (concat cs) Hp) as [Hs' Ho']. split; [done|]. split; [congruence|].
    rewrite Ho', Ho. reflexivity.
Qed.

Lemma parse_stream_concat p cs :
  ok p -> chunk_rel R (parse_stream p cs) (parse_stream p [concat cs]).
Proof using Laws.
  intros Hp. destruct (push_all_concat p cs Hp) as (_ & Hs & Ho).
  destruct (push_all_concat p [concat cs] Hp) as (_ & Hs1 & Ho1).
  simpl in Hs1, Ho1. rewrite app_nil_r in Hs1, Ho1. unfold parse_stream. simpl.
  destruct (push_all p cs) as [q o]. destruct (push_str p (concat cs)) as [q1 o1]. simpl in *.
  subst q. rewrite Ho, chunk_append_default_r. reflexivity.
Qed.
End Laws.

Lemma parse_stream_cons {P T} `{StreamTextParser P T} (p : P) c cs :
  parse_stream p (c :: cs) = chunk_append (push_str p c).2 (parse_stream (push_str p c).1 cs).
Proof.
  unfold parse_stream. rewrite push_all_cons. destruct (push_all (push_str p c).1 cs) as [q o].
  by rewrite chunk_append_assoc.
Qed.

Lemma parse_stream_nil {P T} `{StreamTextParser P T} (p : P) : parse_stream p [] = (finish_stream p).2.
Proof. apply chunk_append_default_l. Qed.
