(* ===== verification/InlineTags.v ===== *)
(** * Inline hidden tags

    Models [utils/stream-parser/src/inline_hidden_tag.rs] and [citation.rs]: a
    streaming parser that hides configured tags and extracts their contents.
    Positions are counted in characters instead of bytes; the source only uses
    them to cut strings at character boundaries and to compare pieces of one
    text, so nothing changes. *)

From Stdlib Require Import Lia.
From S2P Require Import Prelude RustStr StreamText.

(** ** Searching *)

(** [str::find] of a string. *)
Fixpoint find_str (needle hay : str) : option nat :=
  if starts_with needle hay then Some 0
  else match hay with
       | [] => None
       | _ :: hay' => option_map S (find_str needle hay')
       end.

(** The loop of [longest_suffix_prefix_len], [k] downwards. *)
Fixpoint suffix_prefix_from (k : nat) (s needle : str) : nat :=
  match k with
  | 0 => 0
  | S k' => if ends_with (take k needle) s then k else suffix_prefix_from k' s needle
  end.

Definition longest_suffix_prefix_len (s needle : str) : nat :=
  suffix_prefix_from (Nat.min (length s) (length needle - 1)) s needle.

(** ** The parser *)

Section Parser.
Context {T : Type}.

Record InlineTagSpec : Type := mkInlineSpec {
  spec_tag : T;
  spec_open : str;
  spec_close : str;
}.

Record ExtractedInlineTag : Type := mkExtracted {
  tag : T;
  content : str;
}.

Record ActiveTag : Type := mkActive {
  active_tag : T;
  active_close : str;
  active_content : str;
}.

Record InlineHiddenTagParser : Type := mkInline {
  specs : list InlineTagSpec;
  pending : str;
  active : option ActiveTag;
}.

(** [InlineHiddenTagParser::new]; [None] when an assertion fails. *)
Definition new_inline (ss : list InlineTagSpec) : option InlineHiddenTagParser :=
  if match ss with [] => true | _ => false end then None
  else if forallb (fun s => negb (is_empty (spec_open s)) && negb (is_empty (spec_close s))) ss
  then Some (mkInline ss [] None)
  else None.

(** The openers that occur: position, length in bytes, index. *)
Fixpoint open_candidates (idx : nat) (ss : list InlineTagSpec) (p : str) : list (nat * nat * nat) :=
  match ss with
  | [] => []
  | s :: ss' =>
      match find_str (spec_open s) p with
      | Some pos => (pos, str_len (spec_open s), idx) :: open_candidates (S idx) ss' p
      | None => open_candidates (S idx) ss' p
      end
  end.

(** The comparison of [min_by]: position, then the longer opener, then the index. *)
Definition candidate_lt (a b : nat * nat * nat) : bool :=
  let '(pos_a, len_a, idx_a) := a in
  let '(pos_b, len_b, idx_b) := b in
  (pos_a <? pos_b) || (pos_a =? pos_b) &&
    ((len_b <? len_a) || (len_b =? len_a) && (idx_a <? idx_b)).

Definition min_candidate (cs : list (nat * nat * nat)) : option (nat * nat * nat) :=
  match cs with
  | [] => None
  | c :: cs' => Some (fold_left (fun best x => if candidate_lt x best then x else best) cs' c)
  end.

Definition find_next_open (ss : list InlineTagSpec) (p : str) : option (nat * nat) :=
  match min_candidate (open_candidates 0 ss p) with
  | Some (pos, _, idx) => Some (pos, idx)
  | None => None
  end.

Definition max_open_prefix_suffix_len (ss : list InlineTagSpec) (p : str) : nat :=
  max_list (map (fun s => longest_suffix_prefix_len p (spec_open s)) ss).

(** The variables of the loop of [push_str]. *)
Record loop_state : Type := mkLoop {
  l_pending : str;
  l_active : option ActiveTag;
  l_out : StreamTextChunk ExtractedInlineTag;
}.

Definition add_visible (t : str) (o : StreamTextChunk ExtractedInlineTag)
    : StreamTextChunk ExtractedInlineTag :=
  mkChunk (visible_text o ++ t) (extracted o).
Definition add_extracted (e : ExtractedInlineTag) (o : StreamTextChunk ExtractedInlineTag)
    : StreamTextChunk ExtractedInlineTag :=
  mkChunk (visible_text o) (extracted o ++ [e]).

(** One turn of the loop: [inl] is [continue], [inr] is [break]. *)
Definition iteration (ss : list InlineTagSpec) (x : loop_state) : loop_state + loop_state :=
  let p := l_pending x in
  match l_active x with
  | Some a =>
      match find_str (active_close a) p with
      | Some close_idx =>
          inl (mkLoop (drop (close_idx + length (active_close a)) p) None
                 (add_extracted (mkExtracted (active_tag a) (active_content a ++ take close_idx p))
                    (l_out x)))
      | None =>
          let keep := longest_suffix_prefix_len p (active_close a) in
          let tk := length p - keep in
          inr (mkLoop (drop tk p)
                 (Some (mkActive (active_tag a) (active_close a) (active_content a ++ take tk p)))
                 (l_out x))
      end
  | None =>
      match find_next_open ss p with
      | Some (open_idx, spec_idx) =>
          match ss !! spec_idx with
          | Some spec =>
              inl (mkLoop (drop (open_idx + length (spec_open spec)) p)
                     (Some (mkActive (spec_tag spec) (spec_close spec) []))
                     (add_visible (take open_idx p) (l_out x)))
          | None => inr x
          end
      | None =>
          let tk := length p - max_open_prefix_suffix_len ss p in
          inr (mkLoop (drop tk p) None (add_visible (take tk p) (l_out x)))
      end
  end.

(** The loop, at most [fuel] turns of it. *)
Fixpoint run_loop (fuel : nat) (ss : list InlineTagSpec) (x : loop_state) : option loop_state :=
  match fuel with
  | 0 => None
  | S fuel' =>
      match iteration ss x with
      | inl y => run_loop fuel' ss y
      | inr y => Some y
      end
  end.

(** Each turn that continues consumes a delimiter, so one turn more than there
    are characters is enough. *)
Definition push_inline (p : InlineHiddenTagParser) (chunk : str)
    : InlineHiddenTagParser * StreamTextChunk ExtractedInlineTag :=
  let pend := pending p ++ chunk in
  match run_loop (S (length pend)) (specs p) (mkLoop pend (active p) chunk_default) with
  | Some y => (mkInline (specs p) (l_pending y) (l_active y), l_out y)
  | None => (p, chunk_default)
  end.

Definition finish_inline (p : InlineHiddenTagParser)
    : InlineHiddenTagParser * StreamTextChunk ExtractedInlineTag :=
  match active p with
  | Some a =>
      (mkInline (specs p) [] None,
       mkChunk [] [mkExtracted (active_tag a) (active_content a ++ pending p)])
  | None => (mkInline (specs p) [] None, mkChunk (pending p) [])
  end.

#[export] Instance inline_stream : StreamTextParser InlineHiddenTagParser ExtractedInlineTag := {|
  push_str := push_inline;
  finish_stream := finish_inline;
|}.
End Parser.
Arguments InlineTagSpec T : clear implicits.
Arguments ExtractedInlineTag T : clear implicits.
Arguments ActiveTag T : clear implicits.
Arguments InlineHiddenTagParser T : clear implicits.
Arguments loop_state T : clear implicits.

(** ** Citations *)

Inductive CitationTag : Type := Citation.

Definition CITATION_OPEN : str := Eval vm_compute in lit "<oai-mem-citation>".
Definition CITATION_CLOSE : str := Eval vm_compute in lit "</oai-mem-citation>".

Definition citation_specs : list (InlineTagSpec CitationTag) :=
  [mkInlineSpec Citation CITATION_OPEN CITATION_CLOSE].

Record CitationStreamParser : Type := mkCitation { inner : InlineHiddenTagParser CitationTag }.

Definition new_citation : CitationStreamParser := mkCitation (mkInline citation_specs [] None).

#[export] Instance citation_stream : StreamTextParser CitationStreamParser str := {|
  push_str p chunk :=
    let '(q, o) := push_inline (inner p) chunk in (mkCitation q, chunk_map content o);
  finish_stream p :=
    let '(q, o) := finish_inline (inner p) in (mkCitation q, chunk_map content o);
|}.

Definition strip_citations (text : str) : str * list str :=
  let '(p, out) := push_str new_citation text in
  let '(_, tail) := finish_stream p in
  (visible_text out ++ visible_text tail, extracted out ++ extracted tail).

Example strip_two :
  strip_citations (lit "a<oai-mem-citation>one</oai-mem-citation>b<oai-mem-citation>two")
  = (lit "ab", [lit "one"; lit "two"]).
Proof. vm_compute. reflexivity. Qed.

Example new_inline_citation : new_inline citation_specs = Some (inner new_citation).
Proof. vm_compute. reflexivity. Qed.

(** ** Searching for several needles

    The same search serves for openers and for the closer: the first position
    where a needle starts, and otherwise the longest end of the text that may
    still grow into a needle. *)

(** The first of the needles that starts the text. *)
Fixpoint first_at (idx : nat) (ns : list str) (p : str) : option nat :=
  match ns with
  | [] => None
  | n :: ns' => if starts_with n p then Some idx else first_at (S idx) ns' p
  end.

Fixpoint scan (ns : list str) (p : str) : option (nat * nat) :=
  match first_at 0 ns p with
  | Some idx => Some (0, idx)
  | None =>
      match p with
      | [] => None
      | _ :: p' => match scan ns p' with Some (i, idx) => Some (S i, idx) | None => None end
      end
  end.

(** [s] is a proper beginning of a needle. *)
Definition live (ns : list str) (s : str) : Prop :=
  s <> [] /\ exists n r, n ∈ ns /\ r <> [] /\ n = s ++ r.

(** How much of the end of [p] is kept. *)
Definition keep_len (ns : list str) (p : str) : nat :=
  max_list (map (longest_suffix_prefix_len p) ns).

(** The needles can be searched in pieces: none is empty, none is inside another. *)
Definition no_infix (ns : list str) : Prop :=
  Forall (fun n => n <> []) ns /\
  forall m n a b, m ∈ ns -> n ∈ ns -> n = a ++ m ++ b -> m = n.

Lemma starts_with_app n p c : starts_with n p = true -> starts_with n (p ++ c) = true.
Proof. rewrite !starts_with_true. intros [r ->]. exists (r ++ c). by rewrite app_assoc. Qed.

(** A needle that starts [p ++ c] but not [p] goes past the end of [p]. *)
Lemma starts_with_past n p c :
  starts_with n (p ++ c) = true -> starts_with n p = false -> exists r, r <> [] /\ n = p ++ r.
Proof.
  rewrite starts_with_true. intros [r Hr] Hn.
  destruct (decide (length n <= length p)) as [Hl|Hl].
  - exfalso. assert (starts_with n p = true); [|congruence]. apply starts_with_true.
    exists (drop (length n) p). rewrite <-(take_drop (length n) p) at 1. f_equal.
    apply (f_equal (take (length n))) in Hr.
    rewrite take_app_le, take_app_length in Hr by lia. done.
  - exists (drop (length p) n). split.
    + intros He. apply (f_equal length) in He. rewrite length_drop in He. simpl in He. lia.
    + rewrite <-(take_drop (length p) n) at 1. f_equal.
      apply (f_equal (take (length p))) in Hr. rewrite take_app_length, take_app_le in Hr by lia. done.
Qed.

Lemma first_at_None idx ns p : first_at idx ns p = None <-> forall n, n ∈ ns -> starts_with n p = false.
Proof.
  revert idx. induction ns as [|n ns IH]; intros idx; simpl.
  - split; [|done]. intros _ n Hn. by apply elem_of_nil in Hn.
  - destruct (starts_with n p) eqn:E.
    + split; [done|]. intros Hall. specialize (Hall n (list_elem_of_here _ _)). congruence.
    + rewrite IH. split; [|by intros Hall m Hm; apply Hall, list_elem_of_further].
      intros Hall m [->|Hm]%elem_of_cons; auto.
Qed.

Lemma first_at_Some idx ns p i :
  first_at idx ns p = Some i ->
  exists n, ns !! (i - idx) = Some n /\ idx <= i /\ starts_with n p = true.
Proof.
  revert idx. induction ns as [|n ns IH]; intros idx; simpl; [done|].
  destruct (starts_with n p) eqn:E.
  - intros [= <-]. exists n. by rewrite Nat.sub_diag.
  - intros (m & Hm & Hle & Hs)%IH. exists m. split; [|split; [lia|done]].
    replace (i - idx) with (S (i - S idx)) by lia. done.
Qed.

Lemma scan_Some ns p i idx :
  scan ns p = Some (i, idx) -> exists n a b, ns !! idx = Some n /\ p = a ++ n ++ b /\ length a = i.
Proof.
  revert i. induction p as [|x p IH]; intros i; cbn [scan].
  - destruct (first_at 0 ns []) as [j|] eqn:E; [|done]. intros [= <- <-].
    apply first_at_Some in E as (n & Hn & _ & [b Hb]%starts_with_true). rewrite Nat.sub_0_r in Hn.
    exists n, [], b. by rewrite Hb at 1.
  - destruct (first_at 0 ns (x :: p)) as [j|] eqn:E.
    + intros [= <- <-].
      apply first_at_Some in E as (n & Hn & _ & [b Hb]%starts_with_true). rewrite Nat.sub_0_r in Hn.
      exists n, [], b. by rewrite Hb at 1.
    + destruct (scan ns p) as [[k j]|]; [|done]. intros [= <- <-].
      destruct (IH k eq_refl) as (n & a & b & Hn & -> & <-). by exists n, (x :: a), b.
Qed.

Section Search.
Context (ns : list str) (Hns : no_infix ns).

Lemma first_at_app idx p c i : first_at idx ns p = Some i -> first_at idx ns (p ++ c) = Some i.
Proof using Hns.
  destruct Hns as [_ Hin]. clear Hns. revert idx i.
  assert (Hsub : forall ms, (forall m, m ∈ ms -> m ∈ ns) -> forall idx i,
    first_at idx ms p = Some i -> first_at idx ms (p ++ c) = Some i).
  { intros ms. induction ms as [|n ms IH]; intros Hsub idx i; simpl; [done|].
    destruct (starts_with n p) eqn:E; [by rewrite (starts_with_app _ _ _ E)|].
    destruct (starts_with n (p ++ c)) eqn:E'.
    - intros (m & Hm & _ & Hs)%first_at_Some. exfalso.
      destruct (starts_with_past _ _ _ E' E) as (r & Hr & ->). apply starts_with_true in Hs as [b ->].
      assert (m = (m ++ b) ++ r) as He.
      { apply (Hin m _ [] (b ++ r)); [apply Hsub, list_elem_of_further; by eapply list_elem_of_lookup_2
          |apply Hsub, list_elem_of_here|by rewrite <-app_assoc]. }
      apply (f_equal length) in He. rewrite !length_app in He. destruct r; [done|simpl in He; lia].
    - apply IH. intros m Hm. by apply Hsub, list_elem_of_further. }
  intros idx i. apply Hsub. auto.
Qed.

(** An occurrence found stays the first when text is added. *)
Lemma scan_app p c x : scan ns p = Some x -> scan ns (p ++ c) = Some x.
Proof using Hns.
  revert x. induction p as [|a p IH]; intros x Hx.
  - simpl in Hx. destruct (first_at 0 ns []) as [i|] eqn:E; [|done]. injection Hx as <-.
    pose proof (first_at_app 0 [] c i E) as E'. simpl in E' |- *. destruct c; simpl; by rewrite E'.
  - cbn [scan] in Hx. destruct (first_at 0 ns (a :: p)) as [i|] eqn:E.
    + injection Hx as <-. apply (first_at_app 0 _ c) in E. simpl in E |- *. by rewrite E.
    + destruct (scan ns p) as [[i idx]|] eqn:Es; [|done]. injection Hx as <-.
      simpl. rewrite (IH _ eq_refl).
      destruct (first_at 0 ns (a :: p ++ c)) as [j|] eqn:E'; [|done]. exfalso.
      apply first_at_Some in E' as (n & Hn%list_elem_of_lookup_2 & _ & Hs).
      rewrite first_at_None in E.
      destruct (starts_with_past n (a :: p) c Hs (E n Hn)) as (r & Hr & ->).
      destruct (scan_Some _ _ _ _ Es) as (m & d & b & Hm%list_elem_of_lookup_2 & -> & _).
      assert (m = (a :: d ++ m ++ b) ++ r) as He.
      { apply (proj2 Hns m _ (a :: d) (b ++ r)); [done|done|]. simpl. by rewrite <-!app_assoc. }
      apply (f_equal length) in He. simpl in He. rewrite !length_app in He. lia.
Qed.

(** Positions where nothing starts can be skipped. *)
Lemma scan_skip d x :
  (forall j, j < length d -> first_at 0 ns (drop j d ++ x) = None) ->
  scan ns (d ++ x) = match scan ns x with Some (i, idx) => Some (length d + i, idx) | None => None end.
Proof using.
  induction d as [|y d IH]; intros Hj.
  - simpl. by destruct (scan ns x) as [[]|].
  - pose proof (Hj 0 ltac:(simpl; lia)) as H0. cbn [drop app] in H0. cbn [app scan].
    rewrite H0, IH.
    + by destruct (scan ns x) as [[]|].
    + intros j Hlt. apply (Hj (S j)). simpl. lia.
Qed.

Lemma scan_None p j : scan ns p = None -> first_at 0 ns (drop j p) = None.
Proof using.
  revert j. induction p as [|x p IH]; intros j; cbn [scan].
  - rewrite drop_nil. by destruct (first_at 0 ns []).
  - destruct (first_at 0 ns (x :: p)) eqn:E; [done|]. destruct (scan ns p) as [[]|] eqn:Es; [done|].
    intros _. destruct j; [done|]. by apply IH.
Qed.
End Search.

(** *** What is kept *)

Lemma ends_with_drop t s :
  ends_with t s = true <-> length t <= length s /\ t = drop (length s - length t) s.
Proof.
  rewrite ends_with_true. split.
  - intros [r ->]. rewrite length_app. split; [lia|].
    replace (length r + length t - length t) with (length r) by lia. by rewrite drop_app_length.
  - intros [_ Ht]. exists (take (length s - length t) s). rewrite Ht at 2. by rewrite take_drop.
Qed.

(** The end of length [k] of [s] is a proper beginning of the needle. *)
Definition end_begins (needle s : str) (k : nat) : Prop :=
  0 < k /\ k <= length s /\ exists r, r <> [] /\ needle = drop (length s - k) s ++ r.

Lemma ends_with_take k n s :
  0 < k -> k < length n ->
  ends_with (take k n) s = true <-> end_begins n s k.
Proof.
  intros H0 Hk. rewrite ends_with_drop, length_take, Nat.min_l by lia. split.
  - intros [Hl Ht]. split; [done|]. split; [done|]. exists (drop k n). split.
    + intros He. apply (f_equal length) in He. rewrite length_drop in He. simpl in He. lia.
    + rewrite <-Ht. by rewrite take_drop.
  - intros (_ & Hl & r & _ & ->). split; [done|].
    rewrite take_app_length' by (rewrite length_drop; lia). done.
Qed.

Lemma end_begins_lt n s k : end_begins n s k -> k < length n.
Proof.
  intros (H0 & Hl & r & Hr & ->). rewrite length_app, length_drop. destruct r; [done|simpl; lia].
Qed.

Lemma suffix_prefix_from_spec m s n :
  m < length n \/ m = 0 ->
  let k := suffix_prefix_from m s n in
  k <= m /\ (k = 0 \/ end_begins n s k) /\ forall k', k < k' <= m -> ~ end_begins n s k'.
Proof.
  induction m as [|m IH]; simpl; intros Hm; [split; [lia|]; split; [by left|lia]|].
  destruct (ends_with (take (S m) n) s) eqn:E.
  - split; [lia|]. split; [right; apply ends_with_take in E; [done|lia|lia]|lia].
  - destruct IH as (Hle & Hk & Hmax); [lia|]. split; [lia|]. split; [done|].
    intros k' Hk' Hb. destruct (decide (k' = S m)) as [->|Hne]; [|by apply (Hmax k'); [lia|]].
    apply ends_with_take in Hb; [congruence|lia|lia].
Qed.

Lemma longest_suffix_prefix_spec s n :
  let k := longest_suffix_prefix_len s n in
  (k = 0 \/ end_begins n s k) /\ forall k', end_begins n s k' -> k' <= k.
Proof.
  simpl. unfold longest_suffix_prefix_len.
  destruct (suffix_prefix_from_spec (Nat.min (length s) (length n - 1)) s n) as (_ & Hk & Hmax); [lia|].
  split; [done|]. intros k' Hb. pose proof (end_begins_lt _ _ _ Hb). destruct Hb as (H0 & Hl & Hr).
  destruct (decide (k' <= suffix_prefix_from (Nat.min (length s) (length n - 1)) s n)); [done|].
  exfalso. apply (Hmax k'); [lia|by split].
Qed.

Lemma keep_len_spec ns p :
  let k := keep_len ns p in
  k <= length p /\ (k = 0 \/ live ns (drop (length p - k) p)) /\
  forall k', k' <= length p -> live ns (drop (length p - k') p) -> k' <= k.
Proof.
  simpl. unfold keep_len. induction ns as [|n ns (Hle & Hk & Hmax)]; simpl.
  { split; [lia|]. split; [by left|]. intros k' _ (_ & n & r & Hn & _). by apply elem_of_nil in Hn. }
  destruct (longest_suffix_prefix_spec p n) as [Hn Hnmax].
  set (kn := longest_suffix_prefix_len p n) in *. set (ks := max_list _) in *.
  assert (Hlive : forall k, end_begins n p k -> live (n :: ns) (drop (length p - k) p)).
  { intros k (H0 & Hl & r & Hr & He). split.
    - intros Hd. apply (f_equal length) in Hd. rewrite length_drop in Hd. simpl in Hd. lia.
    - exists n, r. split; [apply list_elem_of_here|done]. }
  assert (Hsub : forall s, live ns s -> live (n :: ns) s).
  { intros s (Hs & m & r & Hm & Hr). split; [done|]. exists m, r. split; [by apply list_elem_of_further|done]. }
  split; [|split].
  - destruct Hn as [->|(_ & Hl & _)]; lia.
  - destruct (Nat.max_spec kn ks) as [[_ ->]|[_ ->]].
    + destruct Hk; [by left|right; auto].
    + destruct Hn; [by left|right; auto].
  - intros k' Hl (Hne & m & r & Hm & Hr & He).
    apply elem_of_cons in Hm as [->|Hm].
    + assert (k' <= kn); [|lia]. apply Hnmax. split; [|split; [done|by exists r]].
      destruct k'; [|lia]. exfalso. apply Hne. rewrite Nat.sub_0_r. by apply drop_ge.
    + assert (k' <= ks); [|lia]. apply Hmax; [done|]. split; [done|]. by exists m, r.
Qed.

(** Any end of the text that may still become a needle is inside what is kept. *)
Lemma live_kept ns a s :
  live ns s -> length s <= keep_len ns (a ++ s).
Proof.
  intros Hs. destruct (keep_len_spec ns (a ++ s)) as (_ & _ & Hmax).
  apply Hmax; rewrite length_app; [lia|].
  replace (length a + length s - length s) with (length a) by lia. by rewrite drop_app_length.
Qed.

Lemma live_prefix ns s c : live ns (s ++ c) -> s <> [] -> live ns s.
Proof.
  intros (_ & n & r & Hn & Hr & ->) Hs. split; [done|]. exists (s ++ c ++ r), (c ++ r).
  split; [by rewrite app_assoc|]. split; [|done]. intros He. by apply app_eq_nil in He as [_ ->].
Qed.

(** The dropped part of a text without a needle takes part in no later one. *)
Lemma dropped_dead ns p c j :
  scan ns p = None -> j < length p - keep_len ns p ->
  first_at 0 ns (drop j p ++ c) = None /\ ~ live ns (drop j p ++ c).
Proof.
  intros Hs Hj.
  assert (Hdead : ~ live ns (drop j p)).
  { intros Hl. apply (live_kept ns (take j p)) in Hl. rewrite take_drop, length_drop in Hl. lia. }
  assert (Hne : drop j p <> []).
  { intros He. apply (f_equal length) in He. rewrite length_drop in He. simpl in He. lia. }
  split.
  - apply first_at_None. intros n Hn. destruct (starts_with n (drop j p ++ c)) eqn:E; [|done].
    pose proof (proj1 (first_at_None _ _ _) (scan_None ns p j Hs) n Hn) as E'.
    destruct (starts_with_past _ _ _ E E') as (r & Hr & ->).
    exfalso. apply Hdead. split; [done|]. by exists (drop j p ++ r), r.
  - intros Hl. by apply Hdead, (live_prefix ns _ c).
Qed.

(** Searching what was kept, with more text, is searching everything. *)
Lemma scan_kept ns p c :
  scan ns p = None ->
  let d := length p - keep_len ns p in
  scan ns (p ++ c)
  = match scan ns (drop d p ++ c) with Some (i, idx) => Some (d + i, idx) | None => None end.
Proof.
  intros Hs. simpl. set (d := length p - keep_len ns p).
  rewrite <-(take_drop d p) at 1. rewrite <-app_assoc, scan_skip.
  - by rewrite length_take, Nat.min_l by lia.
  - rewrite length_take, Nat.min_l by lia. intros j Hj. rewrite app_assoc.
    destruct (dropped_dead ns p c j Hs Hj) as [Hf _].
    rewrite <-Hf. f_equal. f_equal.
    rewrite <-(take_drop d p) at 3. by rewrite drop_app_le by (rewrite length_take; lia).
Qed.

Lemma keep_len_split ns p :
  exists a s, p = a ++ s /\ length s = keep_len ns p /\ (s = [] \/ live ns s).
Proof.
  destruct (keep_len_spec ns p) as (Hl & Hk & _).
  exists (take (length p - keep_len ns p) p), (drop (length p - keep_len ns p) p).
  rewrite take_drop, length_drop. split; [done|]. split; [lia|].
  destruct Hk as [->|Hk]; [left|by right]. rewrite Nat.sub_0_r. by apply drop_ge.
Qed.

Lemma keep_len_kept ns p c :
  scan ns p = None ->
  keep_len ns (p ++ c) = keep_len ns (drop (length p - keep_len ns p) p ++ c).
Proof.
  intros Hs. set (d := length p - keep_len ns p).
  assert (Hp : p ++ c = take d p ++ drop d p ++ c) by (by rewrite app_assoc, take_drop).
  apply Nat.le_antisymm.
  - destruct (keep_len_split ns (p ++ c)) as (a & s & Ha & <- & [->|Hl]); [simpl; lia|].
    destruct (decide (length a < d)) as [Hlt|Hge].
    + exfalso. apply (dropped_dead ns p c (length a) Hs Hlt).
      apply (f_equal (drop (length a))) in Ha.
      rewrite drop_app_length, drop_app_le in Ha by lia. by rewrite Ha.
    + assert (drop d p ++ c = drop d a ++ s) as ->; [|by apply live_kept].
      apply (f_equal (drop d)) in Ha. rewrite !drop_app_le in Ha by lia. done.
  - destruct (keep_len_split ns (drop d p ++ c)) as (a & s & Ha & <- & [->|Hl]); [simpl; lia|].
    rewrite Hp, Ha, app_assoc. by apply live_kept.
Qed.

(** ** The searches of the parser *)

Lemma find_str_scan n p : find_str n p = option_map fst (scan [n] p).
Proof.
  induction p as [|x p IH]; simpl; destruct (starts_with n _); try done.
  rewrite IH. by destruct (scan [n] p) as [[]|].
Qed.

Lemma longest_keep p n : longest_suffix_prefix_len p n = keep_len [n] p.
Proof. unfold keep_len. simpl. lia. Qed.

Lemma no_infix_single n : n <> [] -> no_infix [n].
Proof.
  intros Hn. split; [by constructor|].
  intros m k a b ->%list_elem_of_singleton ->%list_elem_of_singleton. done.
Qed.

Section Openers.
Context {T : Type} (ss : list (InlineTagSpec T)).

Lemma max_open_keep p : max_open_prefix_suffix_len ss p = keep_len (map spec_open ss) p.
Proof. unfold max_open_prefix_suffix_len, keep_len. by rewrite map_map. Qed.

(** The candidates: the first occurrence of each opener. *)
Lemma open_candidates_elem idx (ts : list (InlineTagSpec T)) p pos len i :
  (pos, len, i) ∈ open_candidates idx ts p <->
  exists s, ts !! (i - idx) = Some s /\ idx <= i /\ find_str (spec_open s) p = Some pos /\
    len = str_len (spec_open s).
Proof.
  revert idx. induction ts as [|t ts IH]; intros idx; simpl.
  - split; [by intros ?%elem_of_nil|]. by intros (s & Hs & _).
  - assert (Hstep : (exists s, (t :: ts) !! (i - idx) = Some s /\ idx <= i /\
        find_str (spec_open s) p = Some pos /\ len = str_len (spec_open s)) <->
      (i = idx /\ find_str (spec_open t) p = Some pos /\ len = str_len (spec_open t)) \/
      (pos, len, i) ∈ open_candidates (S idx) ts p).
    { rewrite IH. split.
      - intros (s & Hs & Hle & Hf & Hl). destruct (decide (i = idx)) as [->|Hne].
        + rewrite Nat.sub_diag in Hs. injection Hs as ->. by left.
        + right. exists s. replace (i - idx) with (S (i - S idx)) in Hs by lia. split; [done|]. split; [lia|done].
      - intros [(-> & Hf & Hl)|(s & Hs & Hle & Hf & Hl)].
        + exists t. by rewrite Nat.sub_diag.
        + exists s. replace (i - idx) with (S (i - S idx)) by lia. split; [done|]. split; [lia|done]. }
    rewrite Hstep. destruct (find_str (spec_open t) p) as [q|] eqn:E; [|naive_solver].
    rewrite elem_of_cons.
    split; [intros [[= -> -> ->]|?]; auto|intros [(-> & [= ->] & ->)|?]; auto].
Qed.

Lemma candidate_lt_true pa la ia pb lb ib :
  candidate_lt (pa, la, ia) (pb, lb, ib) = true <->
  pa < pb \/ pa = pb /\ (lb < la \/ lb = la /\ ia < ib).
Proof.
  unfold candidate_lt.
  by rewrite orb_true_iff, andb_true_iff, orb_true_iff, andb_true_iff,
    !Nat.ltb_lt, !Nat.eqb_eq.
Qed.

Lemma candidate_le_trans a b c :
  candidate_lt a b = false -> candidate_lt b c = false -> candidate_lt a c = false.
Proof.
  destruct a as [[a1 a2] a3], b as [[b1 b2] b3], c as [[c1 c2] c3].
  rewrite <-!not_true_iff_false, !candidate_lt_true. lia.
Qed.

Lemma candidate_lt_asym a b : candidate_lt a b = true -> candidate_lt b a = false.
Proof.
  destruct a as [[a1 a2] a3], b as [[b1 b2] b3].
  rewrite <-not_true_iff_false, !candidate_lt_true. lia.
Qed.

Lemma candidate_lt_irrefl a : candidate_lt a a = false.
Proof. destruct a as [[a1 a2] a3]. rewrite <-not_true_iff_false, candidate_lt_true. lia. Qed.

(** [min_by] returns a candidate that none precedes. *)
Lemma fold_min l b :
  let r := fold_left (fun best x => if candidate_lt x best then x else best) l b in
  r ∈ b :: l /\ forall x, x ∈ b :: l -> candidate_lt x r = false.
Proof.
  revert b. induction l as [|y l IH]; intros b; simpl.
  - split; [apply list_elem_of_here|]. intros x ->%list_elem_of_singleton. apply candidate_lt_irrefl.
  - destruct (IH (if candidate_lt y b then y else b)) as [Hin Hall].
    set (r := fold_left _ _ _) in *. split; [|intros x [->|[->|Hx]%elem_of_cons]%elem_of_cons].
    + rewrite !elem_of_cons in *. destruct (candidate_lt y b); naive_solver.
    + destruct (candidate_lt y b) eqn:E; [|apply Hall, list_elem_of_here].
      eapply candidate_le_trans; [by apply candidate_lt_asym|apply Hall, list_elem_of_here].
    + destruct (candidate_lt y b) eqn:E; [apply Hall, list_elem_of_here|].
      eapply candidate_le_trans; [exact E|apply Hall, list_elem_of_here].
    + by apply Hall, list_elem_of_further.
Qed.

Lemma min_candidate_spec cs c :
  min_candidate cs = Some c -> c ∈ cs /\ forall x, x ∈ cs -> candidate_lt x c = false.
Proof. destruct cs as [|c0 cs]; simpl; [done|]. intros [= <-]. apply fold_min. Qed.

Lemma scan_first ns p i idx :
  scan ns p = Some (i, idx) -> first_at 0 ns (drop i p) = Some idx /\
  forall j, j < i -> first_at 0 ns (drop j p) = None.
Proof.
  revert i. induction p as [|x p IH]; intros i; cbn [scan].
  - destruct (first_at 0 ns []) eqn:E; [|done]. intros [= <- <-]. split; [done|lia].
  - destruct (first_at 0 ns (x :: p)) eqn:E; [intros [= <- <-]; split; [done|lia]|].
    destruct (scan ns p) as [[k j]|]; [|done]. intros [= <- <-].
    destruct (IH k eq_refl) as [Hf Hb]. split; [done|]. intros [|j'] Hj'; [done|]. apply Hb. lia.
Qed.

Lemma find_str_Some n p i :
  find_str n p = Some i <-> starts_with n (drop i p) = true /\
    forall j, j < i -> starts_with n (drop j p) = false.
Proof.
  rewrite find_str_scan.
  assert (Hone : forall s, first_at 0 [n] s = if starts_with n s then Some 0 else None)
    by (intros s; simpl; by destruct (starts_with n s)).
  split.
  - destruct (scan [n] p) as [[k idx]|] eqn:E; [|done]. intros [= <-].
    apply scan_first in E as [Hf Hb]. rewrite Hone in Hf. split.
    + by destruct (starts_with n (drop k p)).
    + intros j Hj. specialize (Hb j Hj). rewrite Hone in Hb. by destruct (starts_with n (drop j p)).
  - intros [Hs Hb]. destruct (scan [n] p) as [[k idx]|] eqn:E.
    + apply scan_first in E as [Hf Hb']. rewrite Hone in Hf. simpl. f_equal.
      destruct (Nat.lt_trichotomy k i) as [Hlt|[->|Hlt]]; [|done|].
      * rewrite (Hb k Hlt) in Hf. done.
      * specialize (Hb' i Hlt). by rewrite Hone, Hs in Hb'.
    + pose proof (scan_None _ _ i E) as Hn. by rewrite Hone, Hs in Hn.
Qed.

Lemma first_at_least idx ns p i j n :
  first_at idx ns p = Some j -> ns !! (i - idx) = Some n -> starts_with n p = true -> j <= i \/ i < idx.
Proof.
  revert idx. induction ns as [|m ns IH]; intros idx; simpl; [done|].
  destruct (starts_with m p) eqn:E; [intros [= ->]; lia|]. intros Hf Hl Hs.
  destruct (i - idx) as [|k] eqn:Ei; [simpl in Hl; congruence|].
  destruct (IH (S idx) Hf) as [?|?]; [by replace (i - S idx) with k by lia|done|by left|lia].
Qed.

Lemma spec_open_elem i s : ss !! i = Some s -> spec_open s ∈ map spec_open ss.
Proof.
  intros Hs. apply list_elem_of_fmap. exists s. split; [done|by eapply list_elem_of_lookup_2].
Qed.

(** The first opener at the first position is a candidate. *)
Lemma scan_candidate p k j :
  scan (map spec_open ss) p = Some (k, j) ->
  exists t, ss !! j = Some t /\ starts_with (spec_open t) (drop k p) = true /\
    (k, str_len (spec_open t), j) ∈ open_candidates 0 ss p.
Proof.
  intros [Hj Hnone]%scan_first.
  destruct (first_at_Some _ _ _ _ Hj) as (n & Hn & _ & Hst). rewrite Nat.sub_0_r in Hn.
  rewrite list_lookup_fmap in Hn. destruct (ss !! j) as [t|] eqn:Ht; [|done]. injection Hn as <-.
  exists t. split; [done|]. split; [done|]. apply open_candidates_elem. exists t.
  rewrite Nat.sub_0_r. split; [done|]. split; [lia|]. split; [|done].
  apply find_str_Some. split; [done|]. intros i Hi.
  apply (proj1 (first_at_None _ _ _) (Hnone i Hi)). by eapply spec_open_elem.
Qed.

(** Without openers inside openers the choice of [min_by] is the first opener
    that starts at the first position where one does. *)
Lemma find_next_open_scan p :
  no_infix (map spec_open ss) -> find_next_open ss p = scan (map spec_open ss) p.
Proof.
  intros [_ Hinf]. unfold find_next_open.
  destruct (scan (map spec_open ss) p) as [[k j]|] eqn:Esc.
  - destruct (scan_candidate p k j Esc) as (t & Ht & Htst & Hc).
    destruct (scan_first _ _ _ _ Esc) as [Hj Hnone].
    destruct (min_candidate (open_candidates 0 ss p)) as [[[pos len] idx]|] eqn:E.
    2: { by destruct (open_candidates 0 ss p); [apply elem_of_nil in Hc|]. }
    apply min_candidate_spec in E as [Hin Hmin]. apply Hmin in Hc.
    apply open_candidates_elem in Hin as (s & Hs & _ & [Hst _]%find_str_Some & ->).
    rewrite Nat.sub_0_r in Hs. rewrite <-not_true_iff_false, candidate_lt_true in Hc.
    destruct (decide (pos < k)) as [Hlt|Hge].
    { rewrite (proj1 (first_at_None _ _ _) (Hnone pos Hlt) (spec_open s)) in Hst;
        [done|by eapply spec_open_elem]. }
    assert (pos = k) as -> by lia.
    assert (Heq : spec_open s = spec_open t).
    { apply starts_with_true in Hst as [r1 H1]. apply starts_with_true in Htst as [r2 H2].
      destruct (prefix_weak_total (spec_open s) (spec_open t) (drop k p)) as [[r Hr]|[r Hr]];
        [by exists r1|by exists r2| |symmetry]; apply (Hinf _ _ [] r); by eauto using spec_open_elem. }
    rewrite Heq in Hc. assert (j <= idx \/ idx < 0).
    { eapply first_at_least; [exact Hj| |exact Hst]. by rewrite list_lookup_fmap, Nat.sub_0_r, Hs. }
    f_equal. f_equal. lia.
  - destruct (min_candidate (open_candidates 0 ss p)) as [[[pos len] idx]|] eqn:E; [|done].
    apply min_candidate_spec in E as [Hin _].
    apply open_candidates_elem in Hin as (s & Hs & _ & [Hst _]%find_str_Some & _).
    rewrite Nat.sub_0_r in Hs.
    rewrite (proj1 (first_at_None _ _ _) (scan_None _ _ pos Esc) (spec_open s)) in Hst;
      [done|by eapply spec_open_elem].
Qed.
End Openers.

Lemma take_app_split {A} (p c : list A) d i :
  d <= length p -> take (d + i) (p ++ c) = take d p ++ take i (drop d p ++ c).
Proof.
  intros Hd. rewrite <-(drop_app_le p c d) by done. rewrite <-(take_app_le p c d) by done.
  by rewrite take_take_drop.
Qed.

(** ** The loop

    A turn is a search with the needles of the state: the text up to an
    occurrence is consumed, or the text that cannot become part of one is
    handed over and the rest is held. *)

Section Loop.
Context {T : Type} (ss : list (InlineTagSpec T)).

(** What [new] asserts, and that the openers can be searched in pieces. *)
Definition specs_ok : Prop :=
  no_infix (map spec_open ss) /\ Forall (fun s => spec_close s <> []) ss.

Definition active_ok (a : option (ActiveTag T)) : Prop :=
  match a with Some a => active_close a <> [] | None => True end.

Definition needles (x : loop_state T) : list str :=
  match l_active x with Some a => [active_close a] | None => map spec_open ss end.

Definition needle_len (x : loop_state T) (idx : nat) : nat :=
  match needles x !! idx with Some n => length n | None => 0 end.

Definition consume (x : loop_state T) (i idx : nat) : loop_state T :=
  let rest := drop (i + needle_len x idx) (l_pending x) in
  match l_active x with
  | Some a =>
      mkLoop rest None
        (add_extracted (mkExtracted (active_tag a) (active_content a ++ take i (l_pending x))) (l_out x))
  | None =>
      mkLoop rest
        (match ss !! idx with
         | Some s => Some (mkActive (spec_tag s) (spec_close s) [])
         | None => None
         end) (add_visible (take i (l_pending x)) (l_out x))
  end.

Definition hold (x : loop_state T) (tk : nat) : loop_state T :=
  let rest := drop tk (l_pending x) in
  match l_active x with
  | Some a =>
      mkLoop rest
        (Some (mkActive (active_tag a) (active_close a) (active_content a ++ take tk (l_pending x))))
        (l_out x)
  | None => mkLoop rest None (add_visible (take tk (l_pending x)) (l_out x))
  end.

Definition add_text (c : str) (x : loop_state T) : loop_state T :=
  mkLoop (l_pending x ++ c) (l_active x) (l_out x).

Context (Hss : specs_ok).

Lemma needles_ok x : active_ok (l_active x) -> no_infix (needles x).
Proof using Hss.
  unfold needles. destruct (l_active x) as [a|]; simpl; [apply no_infix_single|].
  intros _. apply Hss.
Qed.

Lemma scan_needle x i idx :
  active_ok (l_active x) -> scan (needles x) (l_pending x) = Some (i, idx) ->
  0 < needle_len x idx /\ i + needle_len x idx <= length (l_pending x).
Proof using Hss.
  intros Ha (n & a & b & Hn & -> & <-)%scan_Some. unfold needle_len. rewrite Hn.
  destruct (needles_ok x Ha) as [Hne _]. pose proof (Forall_lookup_1 _ _ _ _ Hne Hn) as Hn0.
  rewrite !length_app. destruct n; [done|]. simpl. lia.
Qed.

Lemma iteration_scan x :
  active_ok (l_active x) ->
  iteration ss x
  = match scan (needles x) (l_pending x) with
    | Some (i, idx) => inl (consume x i idx)
    | None => inr (hold x (length (l_pending x) - keep_len (needles x) (l_pending x)))
    end.
Proof using Hss.
  intros Ha. unfold iteration, consume, hold, needle_len, needles in *.
  destruct (l_active x) as [a|].
  - rewrite find_str_scan, longest_keep.
    destruct (scan [active_close a] (l_pending x)) as [[i idx]|] eqn:E; simpl; [|done].
    apply scan_Some in E as (n & _ & _ & Hn & _). destruct idx; [done|by destruct idx].
  - rewrite (find_next_open_scan _ _ (proj1 Hss)), max_open_keep.
    destruct (scan (map spec_open ss) (l_pending x)) as [[i idx]|] eqn:E; [|done].
    apply scan_Some in E as (n & _ & _ & Hn & _). rewrite Hn. rewrite list_lookup_fmap in Hn.
    destruct (ss !! idx) as [s|]; [|done]. injection Hn as <-. done.
Qed.

Lemma consume_active x i idx : active_ok (l_active (consume x i idx)).
Proof using Hss.
  unfold consume. destruct (l_active x); simpl; [done|]. destruct (ss !! idx) as [s|] eqn:Hs; [|done].
  apply (Forall_lookup_1 _ _ _ _ (proj2 Hss) Hs).
Qed.

Lemma hold_active x d : active_ok (l_active x) -> active_ok (l_active (hold x d)).
Proof using. unfold hold. by destruct (l_active x). Qed.

(** A turn that continues leaves less text. *)
Lemma consume_shorter x i idx :
  active_ok (l_active x) -> scan (needles x) (l_pending x) = Some (i, idx) ->
  length (l_pending (consume x i idx)) < length (l_pending x).
Proof using Hss.
  intros Ha Hs. destruct (scan_needle x i idx Ha Hs).
  unfold consume. destruct (l_active x); simpl; rewrite length_drop; lia.
Qed.

(** The loop ends, and a turn more than there are characters is enough. *)
Lemma run_loop_total fuel x :
  active_ok (l_active x) -> length (l_pending x) < fuel ->
  exists y, run_loop fuel ss x = Some y /\ active_ok (l_active y).
Proof using Hss.
  revert x. induction fuel as [|fuel IH]; intros x Ha Hf; [lia|]. simpl.
  rewrite iteration_scan by done.
  destruct (scan (needles x) (l_pending x)) as [[i idx]|] eqn:E.
  - apply IH; [apply consume_active|]. pose proof (consume_shorter x i idx Ha E). lia.
  - eexists. split; [done|by apply hold_active].
Qed.

Lemma run_loop_more fuel fuel' x y :
  run_loop fuel ss x = Some y -> fuel <= fuel' -> run_loop fuel' ss x = Some y.
Proof using.
  revert fuel' x. induction fuel as [|fuel IH]; intros fuel' x; simpl; [done|].
  destruct fuel' as [|fuel']; [lia|]. simpl. destruct (iteration ss x); [|done].
  intros Hr Hle. apply IH; [done|lia].
Qed.

(** The result of the loop. *)
Definition settle (x : loop_state T) : loop_state T :=
  default x (run_loop (S (length (l_pending x))) ss x).

Lemma settle_run x fuel :
  active_ok (l_active x) -> length (l_pending x) < fuel -> run_loop fuel ss x = Some (settle x).
Proof using Hss.
  intros Ha Hf. destruct (run_loop_total (S (length (l_pending x))) x Ha) as (y & Hy & _); [lia|].
  unfold settle. rewrite Hy. simpl. eapply run_loop_more; [exact Hy|lia].
Qed.

Lemma settle_active x : active_ok (l_active x) -> active_ok (l_active (settle x)).
Proof using Hss.
  intros Ha. destruct (run_loop_total (S (length (l_pending x))) x Ha) as (y & Hy & Hya); [lia|].
  unfold settle. by rewrite Hy.
Qed.

Lemma settle_unfold x :
  active_ok (l_active x) ->
  settle x = match scan (needles x) (l_pending x) with
             | Some (i, idx) => settle (consume x i idx)
             | None => hold x (length (l_pending x) - keep_len (needles x) (l_pending x))
             end.
Proof using Hss.
  intros Ha. pose proof (settle_run x (S (length (l_pending x))) Ha ltac:(lia)) as Hr.
  simpl in Hr. rewrite iteration_scan in Hr by done.
  destruct (scan (needles x) (l_pending x)) as [[i idx]|] eqn:E; [|congruence].
  pose proof (consume_shorter x i idx Ha E).
  rewrite (settle_run _ _ (consume_active x i idx)) in Hr by lia. congruence.
Qed.

(** *** Text in pieces *)

Lemma needles_add c x : needles (add_text c x) = needles x.
Proof. done. Qed.

Lemma needles_hold x d : needles (hold x d) = needles x.
Proof. unfold needles, hold. by destruct (l_active x). Qed.

Lemma pending_hold x d : l_pending (hold x d) = drop d (l_pending x).
Proof. unfold hold. by destruct (l_active x). Qed.

Lemma consume_add c x i idx :
  i + needle_len x idx <= length (l_pending x) ->
  consume (add_text c x) i idx = add_text c (consume x i idx).
Proof.
  intros Hl. unfold consume, needle_len, needles, add_text in *. simpl in *.
  rewrite drop_app_le by lia. rewrite take_app_le by lia. by destruct (l_active x).
Qed.

(** Handing text over early makes no difference. *)
Lemma hold_consume c x d i idx :
  d <= length (l_pending x) ->
  consume (add_text c (hold x d)) i idx = consume (add_text c x) (d + i) idx.
Proof.
  intros Hd. unfold consume, needle_len, needles, add_text, hold, add_visible.
  destruct (l_active x) as [a|]; simpl; rewrite (take_app_split (l_pending x) c d i) by done;
    rewrite <-!app_assoc; rewrite <-(drop_app_le (l_pending x) c d) by done;
    by rewrite drop_drop, Nat.add_assoc.
Qed.

Lemma hold_hold c x d t :
  d <= length (l_pending x) ->
  hold (add_text c (hold x d)) t = hold (add_text c x) (d + t).
Proof.
  intros Hd. unfold add_text, hold, add_visible.
  destruct (l_active x) as [a|]; simpl; rewrite (take_app_split (l_pending x) c d t) by done;
    rewrite <-!app_assoc; rewrite <-(drop_app_le (l_pending x) c d) by done; by rewrite drop_drop.
Qed.

(** Settling, adding text and settling again is settling all of it. *)
Lemma settle_app c x :
  active_ok (l_active x) -> settle (add_text c (settle x)) = settle (add_text c x).
Proof using Hss.
  remember (length (l_pending x)) as m eqn:Hm. revert x Hm.
  induction (lt_wf m) as [m _ IH]. intros x -> Ha. rewrite (settle_unfold x Ha).
  pose proof (settle_unfold (add_text c x) Ha) as Hunf. rewrite needles_add in Hunf. simpl in Hunf.
  destruct (scan (needles x) (l_pending x)) as [[i idx]|] eqn:E.
  - rewrite (scan_app _ (needles_ok x Ha) _ c _ E) in Hunf. rewrite Hunf.
    rewrite consume_add by (by eapply scan_needle).
    eapply IH; [by eapply consume_shorter|done|apply consume_active].
  - set (d := length (l_pending x) - keep_len (needles x) (l_pending x)) in *.
    assert (Hd : d <= length (l_pending x)) by lia.
    rewrite (settle_unfold (add_text c (hold x d))) by (by apply hold_active).
    rewrite needles_add, needles_hold. simpl. rewrite pending_hold.
    rewrite Hunf, (scan_kept _ _ _ E). fold d.
    destruct (scan (needles x) (drop d (l_pending x) ++ c)) as [[i idx]|].
    + by rewrite hold_consume.
    + rewrite hold_hold by done. f_equal. rewrite (keep_len_kept _ _ _ E). fold d.
      destruct (keep_len_spec (needles x) (drop d (l_pending x) ++ c)) as (Hk & _ & _).
      rewrite !length_app, length_drop in *. lia.
Qed.

(** What was put out before stays in front. *)
Definition out_after (o : StreamTextChunk (ExtractedInlineTag T)) (x : loop_state T) : loop_state T :=
  mkLoop (l_pending x) (l_active x) (chunk_append o (l_out x)).

Lemma settle_out o x :
  active_ok (l_active x) -> settle (out_after o x) = out_after o (settle x).
Proof using Hss.
  remember (length (l_pending x)) as m eqn:Hm. revert x Hm.
  induction (lt_wf m) as [m _ IH]. intros x -> Ha.
  rewrite (settle_unfold x Ha), (settle_unfold (out_after o x) Ha).
  change (needles (out_after o x)) with (needles x). change (l_pending (out_after o x)) with (l_pending x).
  destruct (scan (needles x) (l_pending x)) as [[i idx]|] eqn:E.
  - rewrite <-(IH _ (consume_shorter x i idx Ha E) (consume x i idx) eq_refl (consume_active x i idx)).
    f_equal. unfold consume, needle_len, needles, out_after, add_visible, add_extracted, chunk_append.
    destruct (l_active x); simpl; by rewrite app_assoc.
  - unfold hold, out_after, add_visible, chunk_append. destruct (l_active x); simpl; [done|].
    by rewrite app_assoc.
Qed.
End Loop.

(** ** The parser's promise *)

Section Promise.
Context {T : Type}.

Definition inline_ok (p : InlineHiddenTagParser T) : Prop :=
  specs_ok (specs p) /\ active_ok (active p) /\
  settle (specs p) (mkLoop (pending p) (active p) chunk_default)
  = mkLoop (pending p) (active p) chunk_default.

Lemma push_inline_settle (p : InlineHiddenTagParser T) chunk :
  specs_ok (specs p) -> active_ok (active p) ->
  let y := settle (specs p) (mkLoop (pending p ++ chunk) (active p) chunk_default) in
  push_inline p chunk = (mkInline (specs p) (l_pending y) (l_active y), l_out y).
Proof.
  intros Hss Ha. simpl. unfold push_inline.
  by rewrite (settle_run (specs p) Hss (mkLoop (pending p ++ chunk) (active p) chunk_default))
    by (simpl; first [done|lia]).
Qed.

Lemma add_text_nil (x : loop_state T) : add_text [] x = x.
Proof. destruct x. unfold add_text. simpl. by rewrite app_nil_r. Qed.

Lemma settle_settled (ss : list (InlineTagSpec T)) x :
  specs_ok ss -> active_ok (l_active x) -> settle ss (settle ss x) = settle ss x.
Proof.
  intros Hss Ha. pose proof (settle_app ss Hss [] x Ha) as Hs.
  by rewrite !add_text_nil in Hs.
Qed.

Lemma out_after_default (x : loop_state T) :
  out_after (l_out x) (mkLoop (l_pending x) (l_active x) chunk_default) = x.
Proof.
  destruct x as [p a [v e]]. unfold out_after, chunk_append. simpl. by rewrite !app_nil_r.
Qed.

Lemma out_after_inj o (x y : loop_state T) : out_after o x = out_after o y -> x = y.
Proof.
  destruct x as [px ax [vx ex]], y as [py ay [vy ey]]. unfold out_after, chunk_append. simpl.
  intros [= -> -> Hv He]. apply app_inv_head in Hv, He. by subst.
Qed.

(** A state between calls is settled, so an empty piece changes nothing. *)
Lemma push_inline_ok (p : InlineHiddenTagParser T) chunk :
  specs_ok (specs p) -> active_ok (active p) -> inline_ok (push_inline p chunk).1.
Proof.
  intros Hss Ha. rewrite push_inline_settle by done. simpl.
  set (x := mkLoop (pending p ++ chunk) (active p) chunk_default).
  pose proof (settle_active (specs p) Hss x Ha) as Hy.
  pose proof (settle_settled (specs p) x Hss Ha) as Hs. set (y := settle (specs p) x) in *.
  split; [done|]. split; [done|]. simpl.
  apply (out_after_inj (l_out y)).
  by rewrite <-(settle_out (specs p) Hss), !out_after_default.
Qed.

#[export] Instance inline_laws : StreamTextLaws (P := InlineHiddenTagParser T) inline_ok eq.
Proof.
  split; [apply _|by intros ? ? -> ? ? ->| | |].
  - intros p c (Hss & Ha & _). by apply push_inline_ok.
  - intros p (Hss & Ha & Hs). simpl. rewrite push_inline_settle by done. simpl.
    rewrite app_nil_r, Hs. simpl. by destruct p.
  - intros p a b (Hss & Ha & _). simpl.
    rewrite (push_inline_settle p (a ++ b)), (push_inline_settle p a) by done. simpl.
    rewrite push_inline_settle; [|done|by apply settle_active]. simpl.
    set (x := mkLoop (pending p ++ a) (active p) chunk_default).
    assert (Hx : mkLoop (pending p ++ a ++ b) (active p) chunk_default = add_text b x)
      by (unfold add_text, x; simpl; by rewrite app_assoc).
    rewrite Hx, <-settle_app by done. pose proof (settle_active (specs p) Hss x Ha) as Hy.
    set (y := settle (specs p) x) in *.
    assert (Hy' : add_text b y
      = out_after (l_out y) (mkLoop (l_pending y ++ b) (l_active y) chunk_default)).
    { rewrite <-(out_after_default y) at 1. unfold add_text, out_after. simpl. done. }
    rewrite Hy', settle_out by done. simpl. done.
Qed.
End Promise.

(** ** What a text means *)

Section Meaning.
Context {T : Type} (ss : list (InlineTagSpec T)).

(** [tagged text visible extracted]: up to the first opener the text is visible;
    what follows it up to the first closer is its content, and so on; a tag that
    is not closed takes the rest. *)
Inductive tagged : str -> str -> list (ExtractedInlineTag T) -> Prop :=
  | tagged_none v : scan (map spec_open ss) v = None -> tagged v v []
  | tagged_closed v s idx c rest vis ext :
      ss !! idx = Some s ->
      scan (map spec_open ss) (v ++ spec_open s ++ c ++ spec_close s ++ rest) = Some (length v, idx) ->
      find_str (spec_close s) (c ++ spec_close s ++ rest) = Some (length c) ->
      tagged rest vis ext ->
      tagged (v ++ spec_open s ++ c ++ spec_close s ++ rest) (v ++ vis)
        (mkExtracted (spec_tag s) c :: ext)
  | tagged_open v s idx c :
      ss !! idx = Some s ->
      scan (map spec_open ss) (v ++ spec_open s ++ c) = Some (length v, idx) ->
      find_str (spec_close s) c = None ->
      tagged (v ++ spec_open s ++ c) v [mkExtracted (spec_tag s) c].

Definition start : InlineHiddenTagParser T := mkInline ss [] None.

(** The output of the loop and of the flush after it. *)
Definition flushed (x : loop_state T) : StreamTextChunk (ExtractedInlineTag T) :=
  chunk_append (l_out x) (finish_inline (mkInline ss (l_pending x) (l_active x))).2.

#[local] Arguments flushed : simpl never.

Lemma flushed_out o x : flushed (out_after o x) = chunk_append o (flushed x).
Proof. unfold flushed, out_after. simpl. by rewrite chunk_append_assoc. Qed.

Context (Hss : specs_ok ss).

Lemma no_close_flush a p o :
  active_close a <> [] -> scan [active_close a] p = None ->
  flushed (settle ss (mkLoop p (Some a) o))
  = chunk_append o (mkChunk [] [mkExtracted (active_tag a) (active_content a ++ p)]).
Proof using Hss.
  intros Ha Hs. rewrite settle_unfold by done. unfold needles. simpl. rewrite Hs.
  unfold hold, flushed. simpl. by rewrite <-app_assoc, take_drop.
Qed.

Lemma consume_open v r s idx :
  ss !! idx = Some s ->
  consume ss (mkLoop (v ++ spec_open s ++ r) None chunk_default) (length v) idx
  = mkLoop r (Some (mkActive (spec_tag s) (spec_close s) [])) (mkChunk v []).
Proof using.
  intros Hs. unfold consume, needle_len, needles. simpl. rewrite list_lookup_fmap, Hs. simpl.
  by rewrite <-length_app, app_assoc, drop_app_length, <-app_assoc, take_app_length.
Qed.

Lemma consume_close c rest a o :
  consume ss (mkLoop (c ++ active_close a ++ rest) (Some a) o) (length c) 0
  = out_after (add_extracted (mkExtracted (active_tag a) (active_content a ++ c)) o)
      (mkLoop rest None chunk_default).
Proof using.
  unfold consume, needle_len, needles, out_after, chunk_append. simpl.
  by rewrite <-length_app, app_assoc, drop_app_length, <-app_assoc, take_app_length, !app_nil_r.
Qed.

Lemma flushed_tagged text c :
  flushed (settle ss (mkLoop text None chunk_default)) = c ->
  tagged text (visible_text c) (extracted c).
Proof using Hss.
  remember (length text) as m eqn:Hm. revert text c Hm.
  induction (lt_wf m) as [m _ IH]. intros text out ->.
  rewrite settle_unfold by done. unfold needles. cbn [l_active l_pending].
  destruct (scan (map spec_open ss) text) as [[i idx]|] eqn:E.
  2: { intros <-. unfold hold, flushed. simpl. rewrite take_drop. by apply tagged_none. }
  pose proof (scan_Some _ _ _ _ E) as (n & v & r & Hn & -> & <-).
  rewrite list_lookup_fmap in Hn. destruct (ss !! idx) as [s|] eqn:Hs; [|done]. injection Hn as <-.
  rewrite (consume_open v r s idx Hs).
  pose proof (Forall_lookup_1 _ _ _ _ (proj2 Hss) Hs) as Hcl. simpl in Hcl.
  destruct (scan [spec_close s] r) as [[k j]|] eqn:Ec.
  2: { rewrite no_close_flush by done. intros <-. simpl. rewrite app_nil_r.
       apply (tagged_open v s idx r Hs E). by rewrite find_str_scan, Ec. }
  rewrite settle_unfold by done. unfold needles. cbn [l_active l_pending active_close]. rewrite Ec.
  pose proof (scan_Some _ _ _ _ Ec) as (n & c & rest & Hj & -> & <-).
  destruct j as [|j]; [|by destruct j]. injection Hj as <-.
  change (spec_close s) with (active_close (mkActive (spec_tag s) (spec_close s) [])) at 1.
  rewrite consume_close, settle_out, flushed_out by done. intros <-.
  set (F := flushed _). pose proof (eq_refl F) as HF. unfold F at 1 in HF. clearbody F. simpl.
  eapply (tagged_closed v s idx c rest); [done|done| |].
  - by rewrite find_str_scan, Ec.
  - eapply (IH (length rest)); [|done|exact HF].
    rewrite !length_app. destruct (spec_close s); [done|]. simpl. lia.
Qed.

Lemma start_ok : inline_ok start.
Proof using Hss.
  split; [done|]. split; [done|]. cbn [start specs pending active].
  rewrite settle_unfold by done. unfold needles. cbn [l_active l_pending].
  destruct (scan (map spec_open ss) []) as [[i idx]|] eqn:E; [|done].
  pose proof (consume_shorter ss Hss (mkLoop [] None chunk_default) i idx I E) as Hc.
  cbn [l_pending length] in Hc. lia.
Qed.

(** One push and the flush give the output of the loop and of the flush after it. *)
Lemma parse_start text :
  parse_stream start [text] = flushed (settle ss (mkLoop text None chunk_default)).
Proof using Hss.
  unfold parse_stream. rewrite push_all_cons. cbn [push_all fst snd].
  rewrite chunk_append_default_r. unfold flushed.
  cbn [push_str finish_stream inline_stream]. rewrite push_inline_settle by done. done.
Qed.
End Meaning.

(** ** The loop ends

    Here only the assertions of [new] are used: openers may contain each other. *)

Section Ends.
Context {T : Type} (ss : list (InlineTagSpec T)).
Context (Hss : Forall (fun s => spec_open s <> [] /\ spec_close s <> []) ss).

Lemma find_str_length n p i : find_str n p = Some i -> i + length n <= length p.
Proof.
  revert i. induction p as [|x p IH]; intros i; cbn [find_str].
  - destruct (starts_with n []) eqn:E; [|done]. intros [= <-].
    apply starts_with_true in E as [r Hr]. by destruct n.
  - destruct (starts_with n (x :: p)) eqn:E.
    + intros [= <-]. apply starts_with_true in E as [r Hr].
      rewrite Hr, length_app. lia.
    + destruct (find_str n p) as [k|]; [|done]. intros [= <-]. specialize (IH k eq_refl). simpl. lia.
Qed.

Lemma find_next_open_Some p pos idx :
  find_next_open ss p = Some (pos, idx) ->
  exists s, ss !! idx = Some s /\ find_str (spec_open s) p = Some pos.
Proof.
  unfold find_next_open. destruct (min_candidate _) as [[[q l] k]|] eqn:E; [|done]. intros [= -> ->].
  apply min_candidate_spec in E as [(s & Hs & _ & Hf & _)%open_candidates_elem _].
  rewrite Nat.sub_0_r in Hs. by exists s.
Qed.

(** A turn that continues leaves less text, and never an empty closer. *)
Lemma iteration_shorter x :
  active_ok (l_active x) ->
  match iteration ss x with
  | inl y => active_ok (l_active y) /\ length (l_pending y) < length (l_pending x)
  | inr y => active_ok (l_active y)
  end.
Proof using Hss.
  intros Ha. unfold iteration. destruct (l_active x) as [a|] eqn:Ea.
  - destruct (find_str (active_close a) (l_pending x)) as [i|] eqn:E; [|done]. split; [done|].
    apply find_str_length in E. simpl in *. rewrite length_drop.
    destruct (active_close a); [done|]. simpl in *. lia.
  - destruct (find_next_open ss (l_pending x)) as [[pos idx]|] eqn:E; [|done].
    apply find_next_open_Some in E as (s & Hs & E). rewrite Hs. apply find_str_length in E.
    destruct (Forall_lookup_1 _ _ _ _ Hss Hs) as [Ho Hc]. split; [done|]. simpl.
    rewrite length_drop. destruct (spec_open s); [done|]. simpl in *. lia.
Qed.

Lemma run_loop_ends fuel x :
  active_ok (l_active x) -> length (l_pending x) < fuel ->
  exists y, run_loop fuel ss x = Some y /\ active_ok (l_active y).
Proof using Hss.
  revert x. induction fuel as [|fuel IH]; intros x Ha Hf; [lia|]. simpl.
  pose proof (iteration_shorter x Ha) as Hi. destruct (iteration ss x) as [y|y].
  - destruct Hi as [Hy Hl]. apply IH; [done|lia].
  - by exists y.
Qed.

Lemma push_all_active p cs :
  specs p = ss -> active_ok (active p) ->
  specs (push_all p cs).1 = ss /\ active_ok (active (push_all p cs).1).
Proof using Hss.
  revert p. induction cs as [|c cs IH]; intros p Hp Ha; [done|].
  rewrite push_all_cons. cbn [fst]. cbn [push_str inline_stream]. unfold push_inline. rewrite Hp.
  destruct (run_loop_ends (S (length (pending p ++ c))) (mkLoop (pending p ++ c) (active p) chunk_default))
    as (y & -> & Hy); [done|simpl; lia|]. by apply IH.
Qed.
End Ends.

Lemma new_inline_Some {T} (ss : list (InlineTagSpec T)) p :
  new_inline ss = Some p ->
  p = start ss /\ Forall (fun s => spec_open s <> [] /\ spec_close s <> []) ss.
Proof.
  unfold new_inline. destruct ss as [|s ss]; [done|]. intros H. case_hyp H.
  injection H as <-. split; [done|]. apply Forall_forall. intros t Ht.
  rewrite forallb_forall in E. apply list_elem_of_In, E in Ht.
  apply andb_true_iff in Ht as [Ho Hc]. by destruct (spec_open t), (spec_close t).
Qed.

(** ** Theorems *)

(** The first opener and what surrounds it are determined by the text. *)
Lemma scan_split {T} (ss : list (InlineTagSpec T)) v s idx r v' s' idx' r' :
  v' ++ spec_open s' ++ r' = v ++ spec_open s ++ r ->
  ss !! idx = Some s -> ss !! idx' = Some s' ->
  scan (map spec_open ss) (v ++ spec_open s ++ r) = Some (length v, idx) ->
  scan (map spec_open ss) (v' ++ spec_open s' ++ r') = Some (length v', idx') ->
  v' = v /\ s' = s /\ r' = r.
Proof.
  intros Heq Hs Hs' Hsc Hsc'. rewrite Heq, Hsc in Hsc'. injection Hsc' as Hl ->.
  rewrite Hs in Hs'. injection Hs' as <-.
  apply app_inj_1 in Heq as [<- Heq]; [|done]. by apply app_inv_head in Heq.
Qed.

(** The meaning of a text is a function of it. *)
Lemma tagged_functional {T} (ss : list (InlineTagSpec T)) text v e v' e' :
  tagged ss text v e -> tagged ss text v' e' -> v = v' /\ e = e'.
Proof.
  intros H. revert v' e'.
  induction H as [v Hn|v s idx c rest vis ext Hs Hsc Hf H IH|v s idx c Hs Hsc Hf]; intros v' e' H';
    inversion H' as [w Hn' Heq|w s' idx' c' rest' vis' ext' Hs' Hsc' Hf' H2 Heq
                    |w s' idx' c' Hs' Hsc' Hf' Heq]; try (by subst); try (subst; congruence).
  - subst. destruct (scan_split _ _ _ _ _ _ _ _ _ Heq Hs Hs' Hsc Hsc') as (-> & -> & Hr).
    rewrite Hr, Hf in Hf'. injection Hf' as Hl.
    apply app_inj_1 in Hr as [-> Hr]; [|done]. apply app_inv_head in Hr as ->.
    by destruct (IH _ _ H2) as [-> ->].
  - subst. destruct (scan_split _ _ _ _ _ _ _ _ _ Heq Hs Hs' Hsc Hsc') as (-> & -> & ->). congruence.
  - subst. destruct (scan_split _ _ _ _ _ _ _ _ _ Heq Hs Hs' Hsc Hsc') as (-> & -> & <-). congruence.
  - subst. by destruct (scan_split _ _ _ _ _ _ _ _ _ Heq Hs Hs' Hsc Hsc') as (-> & -> & ->).
Qed.

Lemma parse_inline_tagged {T} (ss : list (InlineTagSpec T)) cs :
  specs_ok ss ->
  tagged ss (concat cs) (visible_text (parse_stream (start ss) cs))
    (extracted (parse_stream (start ss) cs)).
Proof.
  intros Hss. destruct (parse_stream_concat inline_ok eq (start ss) cs (start_ok ss Hss)) as [-> ->].
  eapply flushed_tagged; [done|]. by rewrite parse_start.
Qed.

(** C34.  A parser whose openers do not occur inside each other hides and
    extracts what the text says, whatever the pieces it arrives in: the
    pieces parse to a visible text and contents exactly when the text, read
    from left to right, splits into them. *)
Theorem hidden_tags_exact {T} (ss : list (InlineTagSpec T)) p cs v e :
  new_inline ss = Some p -> no_infix (map spec_open ss) ->
  parse_stream p cs = mkChunk v e <-> tagged ss (concat cs) v e.
Proof.
  intros [-> Hall]%new_inline_Some Hin.
  assert (Hss : specs_ok ss) by (split; [done|]; eapply Forall_impl; [exact Hall|naive_solver]).
  pose proof (parse_inline_tagged ss cs Hss) as Ht. split.
  - intros He. by rewrite He in Ht.
  - intros Hv. destruct (tagged_functional _ _ _ _ _ _ Ht Hv) as [<- <-].
    by destruct (parse_stream (start ss) cs).
Qed.

Lemma citation_no_infix : no_infix (map spec_open citation_specs).
Proof. by apply no_infix_single. Qed.

Lemma hidden_tags_exact_witness :
  tagged citation_specs (lit "a<oai-mem-citation>b") (lit "a") [mkExtracted Citation (lit "b")].
Proof.
  apply (hidden_tags_exact citation_specs (inner new_citation) [lit "a<oai-mem-"; lit "citation>b"]).
  - vm_compute. reflexivity.
  - apply citation_no_infix.
  - vm_compute. reflexivity.
Defined.

(** C39.  The loop of [push_str] ends: a parser made by [new], which asserts that
    delimiters are not empty, pushed any pieces, and then one more, takes at
    most one turn more than there are characters to look at. *)
Theorem push_inline_terminates {T} (ss : list (InlineTagSpec T)) p cs chunk :
  new_inline ss = Some p ->
  let q := (push_all p cs).1 in
  exists y, run_loop (S (length (pending q ++ chunk))) (specs q)
              (mkLoop (pending q ++ chunk) (active q) chunk_default) = Some y /\
    push_inline q chunk = (mkInline (specs q) (l_pending y) (l_active y), l_out y).
Proof.
  intros [-> Hall]%new_inline_Some. simpl.
  destruct (push_all_active ss Hall (start ss) cs eq_refl I) as [Hs Ha]. rewrite Hs.
  set (q := (push_all (start ss) cs).1) in *.
  destruct (run_loop_ends ss Hall (S (length (pending q ++ chunk)))
    (mkLoop (pending q ++ chunk) (active q) chunk_default)) as (y & Hy & _); [done|simpl; lia|].
  exists y. split; [exact Hy|]. unfold push_inline. by rewrite Hs, Hy.
Qed.

Lemma push_inline_terminates_witness :
  exists y, run_loop 3 [mkInlineSpec tt (lit "<") (lit ">")]
              (mkLoop (lit "b>") (Some (mkActive tt (lit ">") (lit "a"))) chunk_default) = Some y.
Proof.
  destruct (push_inline_terminates [mkInlineSpec tt (lit "<") (lit ">")]
    (mkInline [mkInlineSpec tt (lit "<") (lit ">")] [] None) [lit "<a"] (lit "b>") eq_refl)
    as (y & Hy & _).
  exists y. exact Hy.
Defined.

(** Openers inside each other do make the pieces visible: the longer opener
    wins only if it has arrived. *)
Example overlapping_openers :
  let ss := [mkInlineSpec 1 (lit "<a") (lit ">"); mkInlineSpec 2 (lit "<ab") (lit ">")] in
  parse_stream (start ss) [lit "<abc>"] = mkChunk [] [mkExtracted 2 (lit "c")] /\
  parse_stream (start ss) [lit "<a"; lit "bc>"] = mkChunk [] [mkExtracted 1 (lit "bc")].
Proof. vm_compute. split; reflexivity. Qed.

(** ** Citations promise the same *)

Definition citation_ok (p : CitationStreamParser) : Prop := inline_ok (inner p).

Lemma chunk_map_append {A B} (f : A -> B) (a b : StreamTextChunk A) :
  chunk_map f (chunk_append a b) = chunk_append (chunk_map f a) (chunk_map f b).
Proof. unfold chunk_map, chunk_append. simpl. by rewrite map_app. Qed.

Lemma push_citation p c :
  push_str p c = (mkCitation (push_inline (inner p) c).1, chunk_map content (push_inline (inner p) c).2).
Proof. simpl. by destruct (push_inline (inner p) c). Qed.

Lemma chunk_rel_eq {A} (a b : StreamTextChunk A) : chunk_rel eq a b <-> a = b.
Proof. destruct a, b. unfold chunk_rel. simpl. split; [by intros [-> ->]|by intros [= -> ->]]. Qed.

#[export] Instance citation_laws : StreamTextLaws (P := CitationStreamParser) citation_ok eq.
Proof.
  split; [apply _|by intros ? ? -> ? ? ->| | |].
  - intros p c Hp. rewrite push_citation. exact (push_ok (P := InlineHiddenTagParser _) _ c Hp).
  - intros p Hp. rewrite push_citation, chunk_rel_eq.
    destruct (push_nil (P := InlineHiddenTagParser _) _ Hp) as [Hs Ho%chunk_rel_eq].
    simpl in Hs, Ho |- *. rewrite Hs, Ho. by destruct p.
  - intros p a b Hp. rewrite !push_citation, chunk_rel_eq. simpl.
    destruct (push_app (P := InlineHiddenTagParser _) _ a b Hp) as [Hs Ho%chunk_rel_eq].
    simpl in Hs, Ho. by rewrite Hs, Ho, chunk_map_append.
Qed.

Lemma new_citation_ok : citation_ok new_citation.
Proof. apply (start_ok citation_specs). split; [apply citation_no_infix|by constructor]. Qed.
