(* ===== verification/TaggedLines.v ===== *)
(** * Tag blocks on lines of their own

    Models [utils/stream-parser/src/tagged_line_parser.rs] and
    [proposed_plan.rs]: a streaming parser that holds a line back while it may
    still be a tag alone on its line, and the plan blocks of plan mode made with
    it. The segments it returns are cut by the pieces in which the text arrives,
    so they are compared by what they say of each character. *)

From Stdlib Require Import Lia.
From S2P Require Import Prelude RustStr StreamText.

(** ** The parser *)

Section TaggedLines.
Context {T : Type} `{EqDecision T}.

Record TagSpec : Type := mkTagSpec {
  line_open : str;
  line_close : str;
  line_tag : T;
}.

Inductive TaggedLineSegment : Type :=
  | Normal (text : str)
  | TagStart (t : T)
  | TagDelta (t : T) (text : str)
  | TagEnd (t : T).

Record TaggedLineParser : Type := mkTagged {
  tag_specs : list TagSpec;
  active_line_tag : option T;
  detect_tag : bool;
  line_buffer : str;
}.

Definition new_tagged (specs : list TagSpec) : TaggedLineParser :=
  mkTagged specs None true [].

Definition push_segment (segments : list TaggedLineSegment) (segment : TaggedLineSegment)
    : list TaggedLineSegment :=
  match segment with
  | Normal delta =>
      if is_empty delta then segments
      else match last segments with
           | Some (Normal existing) => removelast segments ++ [Normal (existing ++ delta)]
           | _ => segments ++ [Normal delta]
           end
  | TagDelta t delta =>
      if is_empty delta then segments
      else match last segments with
           | Some (TagDelta existing_tag existing) =>
               if decide (existing_tag = t)
               then removelast segments ++ [TagDelta existing_tag (existing ++ delta)]
               else segments ++ [TagDelta t delta]
           | _ => segments ++ [TagDelta t delta]
           end
  | TagStart t => segments ++ [TagStart t]
  | TagEnd t => segments ++ [TagEnd t]
  end.

Definition push_text (active : option T) (text : str) (segments : list TaggedLineSegment)
    : list TaggedLineSegment :=
  match active with
  | Some t => push_segment segments (TagDelta t text)
  | None => push_segment segments (Normal text)
  end.

Definition is_tag_prefix (specs : list TagSpec) (slug : str) : bool :=
  let slug := trim_end slug in
  existsb (fun s => starts_with slug (line_open s) || starts_with slug (line_close s)) specs.

Definition match_open (specs : list TagSpec) (slug : str) : option T :=
  option_map line_tag (find (fun s => bool_decide (line_open s = slug)) specs).
Definition match_close (specs : list TagSpec) (slug : str) : option T :=
  option_map line_tag (find (fun s => bool_decide (line_close s = slug)) specs).

(** The line without its line feed, trimmed. *)
Definition line_slug (line : str) : str :=
  trim_end (trim_start (default line (strip_suffix [LF] line))).

Definition finish_line (p : TaggedLineParser) (segments : list TaggedLineSegment)
    : TaggedLineParser * list TaggedLineSegment :=
  let line := line_buffer p in
  let slug := line_slug line in
  match match_open (tag_specs p) slug, active_line_tag p with
  | Some t, None => (mkTagged (tag_specs p) (Some t) true [], push_segment segments (TagStart t))
  | _, active =>
      match match_close (tag_specs p) slug with
      | Some t =>
          if decide (active = Some t)
          then (mkTagged (tag_specs p) None true [], push_segment segments (TagEnd t))
          else (mkTagged (tag_specs p) active true [], push_text active line segments)
      | None => (mkTagged (tag_specs p) active true [], push_text active line segments)
      end
  end.

(** The variables of the loop of [parse]. *)
Record line_loop : Type := mkLineLoop {
  ll_parser : TaggedLineParser;
  ll_run : str;
  ll_segments : list TaggedLineSegment;
}.

(** The loop's body for one character. *)
Definition parse_char (x : line_loop) (ch : N) : line_loop :=
  let p := ll_parser x in
  if detect_tag p then
    let segments :=
      if is_empty (ll_run x) then ll_segments x
      else push_text (active_line_tag p) (ll_run x) (ll_segments x) in
    let buffer := line_buffer p ++ [ch] in
    let p := mkTagged (tag_specs p) (active_line_tag p) true buffer in
    if (ch =? LF)%N then
      let '(p, segments) := finish_line p segments in mkLineLoop p [] segments
    else
      let slug := trim_start buffer in
      if is_empty slug || is_tag_prefix (tag_specs p) slug then mkLineLoop p [] segments
      else mkLineLoop (mkTagged (tag_specs p) (active_line_tag p) false []) []
             (push_text (active_line_tag p) buffer segments)
  else
    let run := ll_run x ++ [ch] in
    if (ch =? LF)%N then
      mkLineLoop (mkTagged (tag_specs p) (active_line_tag p) true (line_buffer p)) []
        (push_text (active_line_tag p) run (ll_segments x))
    else mkLineLoop p run (ll_segments x).

Definition parse (p : TaggedLineParser) (delta : str) : TaggedLineParser * list TaggedLineSegment :=
  let x := fold_left parse_char delta (mkLineLoop p [] []) in
  (ll_parser x,
   if is_empty (ll_run x) then ll_segments x
   else push_text (active_line_tag (ll_parser x)) (ll_run x) (ll_segments x)).

Definition finish (p : TaggedLineParser) : TaggedLineParser * list TaggedLineSegment :=
  let '(active, segments) :=
    if is_empty (line_buffer p) then (active_line_tag p, [])
    else
      let buffered := line_buffer p in
      let slug := line_slug buffered in
      match match_open (tag_specs p) slug, active_line_tag p with
      | Some t, None => (Some t, push_segment [] (TagStart t))
      | _, active =>
          match match_close (tag_specs p) slug with
          | Some t =>
              if decide (active = Some t) then (None, push_segment [] (TagEnd t))
              else (active, push_text active buffered [])
          | None => (active, push_text active buffered [])
          end
      end in
  (mkTagged (tag_specs p) None true [],
   match active with Some t => push_segment segments (TagEnd t) | None => segments end).
End TaggedLines.
Arguments TagSpec T : clear implicits.
Arguments TaggedLineSegment T : clear implicits.
Arguments TaggedLineParser T : clear implicits.
Arguments line_loop T : clear implicits.

(** ** Plan blocks *)

Definition OPEN_TAG : str := Eval vm_compute in lit "<proposed_plan>".
Definition CLOSE_TAG : str := Eval vm_compute in lit "</proposed_plan>".

Inductive PlanTag : Type := ProposedPlan.

#[export] Instance PlanTag_eq_dec : EqDecision PlanTag.
Proof. solve_decision. Defined.

Inductive ProposedPlanSegment : Type :=
  | PlanNormal (text : str)
  | ProposedPlanStart
  | ProposedPlanDelta (text : str)
  | ProposedPlanEnd.

Record ProposedPlanParser : Type := mkPlan { plan_parser : TaggedLineParser PlanTag }.

Definition plan_specs : list (TagSpec PlanTag) := [mkTagSpec OPEN_TAG CLOSE_TAG ProposedPlan].
Definition new_plan : ProposedPlanParser := mkPlan (new_tagged plan_specs).

Definition map_segment (s : TaggedLineSegment PlanTag) : ProposedPlanSegment :=
  match s with
  | Normal text => PlanNormal text
  | TagStart ProposedPlan => ProposedPlanStart
  | TagDelta ProposedPlan text => ProposedPlanDelta text
  | TagEnd ProposedPlan => ProposedPlanEnd
  end.

Definition map_segments (segments : list (TaggedLineSegment PlanTag))
    : StreamTextChunk ProposedPlanSegment :=
  fold_left (fun out segment =>
    let mapped := map_segment segment in
    mkChunk
      (match mapped with PlanNormal text => visible_text out ++ text | _ => visible_text out end)
      (extracted out ++ [mapped])) segments chunk_default.

#[export] Instance plan_stream : StreamTextParser ProposedPlanParser ProposedPlanSegment := {|
  push_str p chunk :=
    let '(q, segments) := parse (plan_parser p) chunk in (mkPlan q, map_segments segments);
  finish_stream p :=
    let '(q, segments) := finish (plan_parser p) in (mkPlan q, map_segments segments);
|}.

Definition strip_proposed_plan_blocks (text : str) : str :=
  let '(p, out) := push_str new_plan text in
  visible_text out ++ visible_text (finish_stream p).2.

Definition extract_proposed_plan_text (text : str) : option str :=
  let '(p, out) := push_str new_plan text in
  let '(plan_text, saw_plan_block) :=
    fold_left (fun '(plan_text, saw) segment =>
      match segment with
      | ProposedPlanStart => ([], true)
      | ProposedPlanDelta delta => (plan_text ++ delta, saw)
      | ProposedPlanEnd | PlanNormal _ => (plan_text, saw)
      end) (extracted out ++ extracted (finish_stream p).2) ([], false) in
  if saw_plan_block then Some plan_text else None.

Example plan_example :
  let text := lit "before
<proposed_plan>
- step
</proposed_plan>
after" in
  strip_proposed_plan_blocks text = lit "before
after" /\ extract_proposed_plan_text text = Some (lit "- step
").
Proof. vm_compute. split; reflexivity. Qed.

(** ** What segments say of each character *)

Section Marks.
Context {T : Type} `{EqDecision T}.

Inductive mark : Type :=
  | MText (active : option T) (c : N)
  | MStart (t : T)
  | MEnd (t : T).

Definition text_marks (active : option T) (text : str) : list mark := map (MText active) text.

Definition segment_marks (s : TaggedLineSegment T) : list mark :=
  match s with
  | Normal text => text_marks None text
  | TagStart t => [MStart t]
  | TagDelta t text => text_marks (Some t) text
  | TagEnd t => [MEnd t]
  end.

Definition marks (l : list (TaggedLineSegment T)) : list mark := concat (map segment_marks l).

Lemma marks_app l k : marks (l ++ k) = marks l ++ marks k.
Proof using. unfold marks. by rewrite map_app, concat_app. Qed.

Lemma marks_single s : marks [s] = segment_marks s.
Proof using. apply app_nil_r. Qed.

Lemma text_marks_app a t u : text_marks a (t ++ u) = text_marks a t ++ text_marks a u.
Proof using. apply map_app. Qed.

(** Merging with the last segment shows in no character. *)
Lemma push_segment_marks l s : marks (push_segment l s) = marks l ++ segment_marks s.
Proof using.
  assert (Hsnoc : forall x, marks (l ++ [x]) = marks l ++ segment_marks x)
    by (intros x; by rewrite marks_app, marks_single).
  destruct s as [d|t|t d|t]; simpl; try apply Hsnoc; destruct d as [|c d];
    try (simpl; by rewrite app_nil_r); simpl is_empty; cbv iota.
  - destruct (last l) as [[e| | |]|] eqn:El; try apply Hsnoc.
    rewrite (last_removelast l _ El) at 2.
    by rewrite !marks_app, !marks_single, <-app_assoc; cbn [segment_marks]; rewrite text_marks_app.
  - destruct (last l) as [[| |u e|]|] eqn:El; try apply Hsnoc.
    destruct (decide (u = t)) as [->|]; [|apply Hsnoc]. rewrite (last_removelast l _ El) at 2.
    by rewrite !marks_app, !marks_single, <-app_assoc; cbn [segment_marks]; rewrite text_marks_app.
Qed.

Lemma push_text_marks a t l : marks (push_text a t l) = marks l ++ text_marks a t.
Proof using. destruct a; apply push_segment_marks. Qed.

Lemma push_run_marks a run l :
  marks (if is_empty run then l else push_text a run l) = marks l ++ text_marks a run.
Proof using. destruct run; [by rewrite app_nil_r|apply push_text_marks]. Qed.

(** ** The parser, character by character *)

(** What a complete line does: the tag of a tag line, otherwise its text. *)
Definition line_step (specs : list (TagSpec T)) (active : option T) (line : str)
    : option T * list mark :=
  match match_open specs (trim line), active with
  | Some t, None => (Some t, [MStart t])
  | _, _ =>
      match match_close specs (trim line) with
      | Some t => if decide (active = Some t) then (None, [MEnd t]) else (active, text_marks active line)
      | None => (active, text_marks active line)
      end
  end.

(** The state after a character and what it adds. *)
Definition char_step (p : TaggedLineParser T) (ch : N) : TaggedLineParser T * list mark :=
  let specs := tag_specs p in
  let active := active_line_tag p in
  if detect_tag p then
    let buffer := line_buffer p ++ [ch] in
    if (ch =? LF)%N then
      let '(active', ms) := line_step specs active buffer in (mkTagged specs active' true [], ms)
    else if is_empty (trim_start buffer) || is_tag_prefix specs (trim_start buffer)
    then (mkTagged specs active true buffer, [])
    else (mkTagged specs active false [], text_marks active buffer)
  else if (ch =? LF)%N then (mkTagged specs active true (line_buffer p), text_marks active [ch])
  else (p, text_marks active [ch]).

Fixpoint char_steps (p : TaggedLineParser T) (s : str) : TaggedLineParser T * list mark :=
  match s with
  | [] => (p, [])
  | ch :: s' =>
      let '(q, ms) := char_step p ch in
      let '(r, ms') := char_steps q s' in (r, ms ++ ms')
  end.

Lemma line_slug_trim line : line_slug line = trim line.
Proof using.
  unfold line_slug. destruct (strip_suffix [LF] line) as [r|] eqn:E; [|done]. simpl.
  apply strip_suffix_Some in E as ->. fold (trim r). rewrite !trim_comm. by rewrite trim_end_app_ws.
Qed.

Lemma finish_line_step p l :
  (finish_line p l).1
    = mkTagged (tag_specs p) (line_step (tag_specs p) (active_line_tag p) (line_buffer p)).1 true [] /\
  marks (finish_line p l).2
    = marks l ++ (line_step (tag_specs p) (active_line_tag p) (line_buffer p)).2.
Proof using.
  unfold finish_line, line_step. rewrite line_slug_trim.
  repeat case_match; simplify_eq; cbn [fst snd]; split; try done;
    first [apply push_text_marks|apply push_segment_marks].
Qed.

(** What the loop has written and what it holds in [run]. *)
Definition loop_marks (x : line_loop T) : list mark :=
  marks (ll_segments x) ++ text_marks (active_line_tag (ll_parser x)) (ll_run x).

Lemma parse_char_step x ch :
  ll_parser (parse_char x ch) = (char_step (ll_parser x) ch).1 /\
  loop_marks (parse_char x ch) = loop_marks x ++ (char_step (ll_parser x) ch).2.
Proof using.
  unfold parse_char, char_step, loop_marks. destruct x as [p run l]. simpl.
  destruct (detect_tag p), (ch =? LF)%N.
  - set (q := mkTagged _ _ _ _). set (l' := if is_empty run then _ else _).
    destruct (finish_line_step q l') as [Hp Hm]. destruct (finish_line q l') as [q' l2]. simpl in *.
    destruct (line_step _ _ _) as [a ms]. subst q'. simpl in *. unfold l' in Hm.
    by rewrite app_nil_r, Hm, push_run_marks.
  - destruct (_ || _); simpl; rewrite ?push_text_marks, push_run_marks, !app_nil_r; done.
  - simpl. by rewrite push_text_marks, text_marks_app, app_nil_r, app_assoc.
  - simpl. by rewrite text_marks_app, app_assoc.
Qed.

Lemma parse_steps p s :
  (parse p s).1 = (char_steps p s).1 /\ marks (parse p s).2 = (char_steps p s).2.
Proof using.
  assert (Hloop : forall x,
    ll_parser (fold_left parse_char s x) = (char_steps (ll_parser x) s).1 /\
    loop_marks (fold_left parse_char s x) = loop_marks x ++ (char_steps (ll_parser x) s).2).
  { induction s as [|c s IH]; intros x; simpl; [by rewrite app_nil_r|].
    destruct (parse_char_step x c) as [Hp Hm]. destruct (IH (parse_char x c)) as [Hp' Hm'].
    rewrite Hp in Hp', Hm'. rewrite Hp', Hm', Hm. destruct (char_step (ll_parser x) c) as [q ms]. simpl.
    destruct (char_steps q s) as [r ms']. simpl. by rewrite app_assoc. }
  unfold parse. simpl. destruct (Hloop (mkLineLoop p [] [])) as [Hp Hm].
  rewrite push_run_marks. done.
Qed.

Lemma char_steps_app p a b :
  char_steps p (a ++ b)
  = ((char_steps (char_steps p a).1 b).1, (char_steps p a).2 ++ (char_steps (char_steps p a).1 b).2).
Proof using.
  revert p. induction a as [|c a IH]; intros p; simpl; [by destruct (char_steps p b)|].
  destruct (char_step p c) as [q ms]. rewrite IH. destruct (char_steps q a) as [r ms']. simpl.
  by rewrite app_assoc.
Qed.
End Marks.
Arguments mark T : clear implicits.

(** ** The parser, line by line *)

(** [str::split_inclusive('\n')]. *)
Fixpoint line_pieces (s : str) : list str :=
  match s with
  | [] => []
  | x :: s' =>
      if (x =? LF)%N then [x] :: line_pieces s'
      else match line_pieces s' with
           | [] => [[x]]
           | h :: t => (x :: h) :: t
           end
  end.

Lemma line_pieces_app l s : LF ∉ l -> line_pieces (l ++ LF :: s) = (l ++ [LF]) :: line_pieces s.
Proof.
  induction l as [|x l IH]; intros Hl; [done|]. apply not_elem_of_cons in Hl as [Hx Hl].
  simpl. rewrite IH by done. by rewrite (proj2 (N.eqb_neq _ _)) by congruence.
Qed.

Lemma line_pieces_last l : LF ∉ l -> line_pieces l = if is_empty l then [] else [l].
Proof.
  induction l as [|x l IH]; intros Hl; [done|]. apply not_elem_of_cons in Hl as [Hx Hl].
  simpl. rewrite IH by done. rewrite (proj2 (N.eqb_neq _ _)) by congruence. by destruct l.
Qed.

(** A text is one line without a line feed, or a line and the rest. *)
Lemma line_ind (P : str -> Prop) :
  (forall l, LF ∉ l -> P l) -> (forall l s, LF ∉ l -> P s -> P (l ++ LF :: s)) -> forall s, P s.
Proof.
  intros H1 H2 s. remember (length s) as m eqn:Hm. revert s Hm.
  induction (lt_wf m) as [m _ IH]. intros s ->.
  destruct (decide (LF ∈ s)) as [Hs|Hs]; [|auto].
  apply list_elem_of_split_l in Hs as (l & r & -> & Hl). apply H2; [done|].
  eapply IH; [|done]. rewrite length_app. simpl. lia.
Qed.

Section Lines.
Context {T : Type} `{EqDecision T} (specs : list (TagSpec T)).

(** Every line is a tag line or text; an open block ends with the text. *)
Fixpoint line_marks (active : option T) (ls : list str) : list (mark T) :=
  match ls with
  | [] => match active with Some t => [MEnd t] | None => [] end
  | l :: ls' => let '(active', ms) := line_step specs active l in ms ++ line_marks active' ls'
  end.

(** The start of a line that is held back. *)
Definition held (b : str) : bool := is_empty (trim_start b) || is_tag_prefix specs (trim_start b).

Lemma trim_start_app s r : trim_start s <> [] -> trim_start (s ++ r) = trim_start s ++ r.
Proof using.
  unfold trim_start. induction s as [|c s IH]; simpl; [done|]. by destruct (is_whitespace c).
Qed.

Lemma trim_end_prefix s r : exists t, trim_end (s ++ r) = trim_end s ++ t.
Proof using.
  destruct (trim_end_split s) as (ws & Hs & _).
  assert (Hr : s ++ r = trim_end s ++ ws ++ r) by by rewrite app_assoc, <-Hs. rewrite Hr. clear Hs Hr.
  pose proof (trim_end_last s) as Hl.
  destruct (trim_end s) as [|u c _] using rev_ind; [by eexists|].
  rewrite <-app_assoc. simpl. rewrite trim_end_app_cons by (apply Hl, last_snoc).
  exists (trim_end (ws ++ r)). by rewrite <-app_assoc.
Qed.

(** Every beginning of a tag line is held back. *)
Lemma held_prefix s t b r :
  s ∈ specs -> t = line_open s \/ t = line_close s -> trim (b ++ r) = t -> held b = true.
Proof using.
  intros Hs Ht Hb. unfold held, trim in *. apply orb_true_iff.
  destruct (decide (trim_start b = [])) as [->|Hne]; [by left|right].
  rewrite trim_start_app in Hb by done. destruct (trim_end_prefix (trim_start b) r) as [u Hu].
  unfold is_tag_prefix. apply existsb_exists. exists s. rewrite <-list_elem_of_In. split; [done|].
  apply orb_true_iff. rewrite !starts_with_true.
  destruct Ht as [Ht|Ht]; [left|right]; exists u; congruence.
Qed.

Lemma match_open_Some x t : match_open specs x = Some t -> exists s, s ∈ specs /\ x = line_open s.
Proof using.
  unfold match_open. destruct (find _ specs) as [s|] eqn:E; [|done]. intros _. exists s.
  apply find_some in E as [Hi Hd%bool_decide_eq_true]. by rewrite list_elem_of_In.
Qed.

Lemma match_close_Some x t : match_close specs x = Some t -> exists s, s ∈ specs /\ x = line_close s.
Proof using.
  unfold match_close. destruct (find _ specs) as [s|] eqn:E; [|done]. intros _. exists s.
  apply find_some in E as [Hi Hd%bool_decide_eq_true]. by rewrite list_elem_of_In.
Qed.

(** A line that was let go is text. *)
Lemma let_go_text active b r : held b = false -> line_step specs active (b ++ r) = (active, text_marks active (b ++ r)).
Proof using.
  intros Hb. unfold line_step.
  destruct (match_open specs (trim (b ++ r))) as [t|] eqn:Eo.
  { apply match_open_Some in Eo as (s & Hs & Ht). rewrite (held_prefix s _ b r Hs (or_introl eq_refl) Ht) in Hb. done. }
  destruct (match_close specs (trim (b ++ r))) as [t|] eqn:Ec; [|done].
  apply match_close_Some in Ec as (s & Hs & Ht). rewrite (held_prefix s _ b r Hs (or_intror eq_refl) Ht) in Hb. done.
Qed.

(** In the middle of a line: it is held whole, or was let go and is text. *)
Lemma line_start_steps active b :
  LF ∉ b ->
  char_steps (mkTagged specs active true []) b = (mkTagged specs active true b, []) \/
  char_steps (mkTagged specs active true []) b = (mkTagged specs active false [], text_marks active b) /\
    exists b' r, b = b' ++ r /\ held b' = false.
Proof using.
  induction b as [|c b IH] using rev_ind; intros Hb; [by left|].
  rewrite not_elem_of_app, not_elem_of_cons in Hb. destruct Hb as (Hb & Hc & _).
  rewrite char_steps_app. destruct (IH Hb) as [->|[-> (b' & r & Hb' & Hh)]]; simpl; unfold char_step; simpl;
    rewrite (proj2 (N.eqb_neq c LF)) by congruence.
  - fold (held (b ++ [c])). destruct (held (b ++ [c])) eqn:Hh; simpl; [by left|right].
    rewrite app_nil_r. split; [done|]. exists (b ++ [c]), []. by rewrite app_nil_r.
  - right. rewrite text_marks_app. split; [done|]. exists b', (r ++ [c]).
    split; [by rewrite app_assoc, <-Hb'|done].
Qed.

Lemma full_line_steps active l :
  LF ∉ l ->
  char_steps (mkTagged specs active true []) (l ++ [LF])
  = (mkTagged specs (line_step specs active (l ++ [LF])).1 true [], (line_step specs active (l ++ [LF])).2).
Proof using.
  intros Hl. rewrite char_steps_app.
  destruct (line_start_steps active l Hl) as [->|[-> (b & r & -> & Hh)]]; simpl; unfold char_step; simpl.
  - destruct (line_step _ _ _). simpl. by rewrite app_nil_r.
  - rewrite <-(app_assoc b), let_go_text by done. cbn [fst snd].
    by rewrite (app_assoc b), (text_marks_app _ (b ++ r)).
Qed.

(** [finish] treats what is held like a complete line. *)
Lemma finish_buffered (p : TaggedLineParser T) :
  line_buffer p <> [] ->
  (finish p).2 = match active_line_tag (finish_line p []).1 with
                 | Some t => push_segment (finish_line p []).2 (TagEnd t)
                 | None => (finish_line p []).2
                 end.
Proof using.
  intros Hb. unfold finish, finish_line. destruct (line_buffer p) as [|c b]; [done|].
  cbn [is_empty]. destruct (match_open _ _) as [t|], (active_line_tag p) as [u|], (match_close (tag_specs p) (line_slug (c :: b))) as [w|];
    try done; by destruct (decide _).
Qed.

Lemma finish_steps active d b :
  marks (finish (mkTagged specs active d b)).2
  = (if is_empty b then [] else (line_step specs active b).2) ++
    line_marks (if is_empty b then active else (line_step specs active b).1) [].
Proof using.
  destruct b as [|c b]; [by destruct active as [t|]; [apply (push_segment_marks [] (TagEnd t))|]|].
  rewrite finish_buffered by done.
  destruct (finish_line_step (mkTagged specs active d (c :: b)) []) as [Hp Hm].
  destruct (finish_line _ []) as [q segs]. cbn [fst snd] in *. subst q.
  cbn [tag_specs active_line_tag line_buffer is_empty] in *.
  destruct (line_step specs active (c :: b)) as [[t|] ms]; cbn [fst snd line_marks] in *.
  - by rewrite push_segment_marks, Hm.
  - by rewrite Hm, app_nil_r.
Qed.

(** The whole text: the characters, then the end. *)
Lemma steps_lines s active :
  (char_steps (mkTagged specs active true []) s).2
    ++ marks (finish (char_steps (mkTagged specs active true []) s).1).2
  = line_marks active (line_pieces s).
Proof using.
  revert active. induction s as [l Hl|l s Hl IH] using line_ind; intros active.
  - rewrite line_pieces_last by done.
    destruct (line_start_steps active l Hl) as [->|[-> (b & r & -> & Hh)]]; cbn [fst snd].
    + rewrite finish_steps. destruct l as [|c l]; [done|]. cbn [is_empty line_marks].
      by destruct (line_step specs active (c :: l)).
    + rewrite finish_steps. cbn [is_empty].
      destruct (is_empty (b ++ r)) eqn:Ebr; [by destruct (b ++ r)|]. cbn [line_marks].
      by rewrite let_go_text.
  - rewrite line_pieces_app by done. change (LF :: s) with ([LF] ++ s).
    rewrite app_assoc, char_steps_app, full_line_steps by done. cbn [fst snd line_marks].
    destruct (line_step specs active (l ++ [LF])) as [a ms]. cbn [fst snd]. by rewrite <-IH, app_assoc.
Qed.
End Lines.

(** ** The plan parser's promise *)

Definition plan_segment_marks (s : ProposedPlanSegment) : list (mark PlanTag) :=
  match s with
  | PlanNormal text => text_marks None text
  | ProposedPlanStart => [MStart ProposedPlan]
  | ProposedPlanDelta text => text_marks (Some ProposedPlan) text
  | ProposedPlanEnd => [MEnd ProposedPlan]
  end.

Definition plan_marks (l : list ProposedPlanSegment) : list (mark PlanTag) :=
  concat (map plan_segment_marks l).

(** Segments that say the same of every character. *)
Definition same_plan (l k : list ProposedPlanSegment) : Prop := plan_marks l = plan_marks k.

Definition visible_marks (ms : list (mark PlanTag)) : str :=
  omap (fun m => match m with MText None c => Some c | _ => None end) ms.

Lemma plan_marks_app l k : plan_marks (l ++ k) = plan_marks l ++ plan_marks k.
Proof. unfold plan_marks. by rewrite map_app, concat_app. Qed.

Lemma visible_marks_text a t :
  visible_marks (text_marks a t) = match a with None => t | Some _ => [] end.
Proof. induction t as [|c t IH]; destruct a; simpl; try done. by f_equal. Qed.

Lemma visible_marks_app a b : visible_marks (a ++ b) = visible_marks a ++ visible_marks b.
Proof. apply omap_app. Qed.

Lemma map_segments_marks l :
  plan_marks (extracted (map_segments l)) = marks l /\
  visible_text (map_segments l) = visible_marks (marks l).
Proof.
  unfold map_segments.
  induction l as [|s l IH] using rev_ind; [done|]. destruct IH as [He Hv].
  rewrite fold_left_app. cbn [fold_left visible_text extracted].
  rewrite plan_marks_app, marks_app, visible_marks_app, He, Hv.
  unfold plan_marks, marks. simpl. rewrite !app_nil_r.
  destruct s as [d|[]|[] d|[]]; simpl; rewrite ?visible_marks_text, ?app_nil_r; done.
Qed.

(** Chunks that come from the same marks. *)
Lemma map_segments_rel l c :
  chunk_rel same_plan (map_segments l) c <->
  marks l = plan_marks (extracted c) /\ visible_text c = visible_marks (marks l).
Proof.
  unfold chunk_rel, same_plan. destruct (map_segments_marks l) as [-> ->]. naive_solver.
Qed.

Lemma push_plan p c :
  push_str p c = (mkPlan (parse (plan_parser p) c).1, map_segments (parse (plan_parser p) c).2).
Proof. simpl. by destruct (parse (plan_parser p) c). Qed.

Lemma finish_plan p :
  finish_stream p = (mkPlan (finish (plan_parser p)).1, map_segments (finish (plan_parser p)).2).
Proof. simpl. by destruct (finish (plan_parser p)). Qed.

#[export] Instance plan_laws : StreamTextLaws (P := ProposedPlanParser) (fun _ => True) same_plan.
Proof.
  split; [| |done| |].
  - unfold same_plan. split; [done|by intros ? ?|congruence].
  - intros l l' Hl k k' Hk. unfold same_plan in *. by rewrite !plan_marks_app, Hl, Hk.
  - intros [p] _. rewrite push_plan. simpl. done.
  - intros [p] a b _. rewrite !push_plan. cbn [fst snd plan_parser].
    destruct (parse_steps p (a ++ b)) as [-> Hm]. rewrite char_steps_app in *.
    destruct (parse_steps p a) as [-> Ha]. destruct (parse_steps (char_steps p a).1 b) as [-> Hb].
    split; [done|]. apply map_segments_rel. unfold chunk_append. cbn [extracted visible_text].
    rewrite plan_marks_app, Hm. cbn [snd]. rewrite visible_marks_app, <-Ha, <-Hb.
    by rewrite !(proj1 (map_segments_marks _)), !(proj2 (map_segments_marks _)).
Qed.

(** Everything the plan parser returns, by lines. *)
Lemma parse_plan_marks cs :
  plan_marks (extracted (parse_stream new_plan cs)) = line_marks plan_specs None (line_pieces (concat cs)) /\
  visible_text (parse_stream new_plan cs)
  = visible_marks (line_marks plan_specs None (line_pieces (concat cs))).
Proof.
  destruct (parse_stream_concat (fun _ => True) same_plan new_plan cs I) as [-> ->].
  set (s := concat cs). unfold parse_stream. rewrite push_all_cons. cbn [push_all fst snd].
  rewrite chunk_append_default_r, finish_plan, push_plan. cbn [fst snd plan_parser new_plan].
  unfold chunk_append. cbn [extracted visible_text].
  rewrite plan_marks_app, !(proj1 (map_segments_marks _)), !(proj2 (map_segments_marks _)).
  destruct (parse_steps (new_tagged plan_specs) s) as [-> ->].
  rewrite <-visible_marks_app. unfold new_tagged. by rewrite steps_lines.
Qed.

(** ** Plans by lines *)

(** The text outside plan blocks: lines up to one that is the open tag, and on
    from the close tag after it. *)
Fixpoint outside_plan (inside : bool) (ls : list str) : str :=
  match ls with
  | [] => []
  | l :: ls' =>
      if inside then outside_plan (negb (bool_decide (trim l = CLOSE_TAG))) ls'
      else if bool_decide (trim l = OPEN_TAG) then outside_plan true ls'
      else l ++ outside_plan false ls'
  end.

(** The text of the last plan block; [acc] is the one so far. *)
Fixpoint last_plan (acc : option str) (inside : bool) (ls : list str) : option str :=
  match ls with
  | [] => acc
  | l :: ls' =>
      if inside then
        if bool_decide (trim l = CLOSE_TAG) then last_plan acc false ls'
        else last_plan (option_map (fun t => t ++ l) acc) true ls'
      else if bool_decide (trim l = OPEN_TAG) then last_plan (Some []) true ls'
      else last_plan acc false ls'
  end.

Definition plan_inside (active : option PlanTag) : bool :=
  match active with Some _ => true | None => false end.

Lemma plan_line_step active l :
  line_step plan_specs active l
  = if plan_inside active
    then if bool_decide (trim l = CLOSE_TAG) then (None, [MEnd ProposedPlan])
         else (active, text_marks active l)
    else if bool_decide (trim l = OPEN_TAG) then (Some ProposedPlan, [MStart ProposedPlan])
         else (active, text_marks active l).
Proof.
  unfold line_step, match_open, match_close. cbn [plan_specs find line_open line_close].
  rewrite !(bool_decide_ext (trim l = _) (_ = trim l)) by done.
  destruct active as [[]|]; cbn [plan_inside];
    repeat (case_bool_decide; cbn [option_map line_tag]); try done; try (by case_decide).
Qed.

Lemma visible_line_marks active ls :
  visible_marks (line_marks plan_specs active ls) = outside_plan (plan_inside active) ls.
Proof.
  revert active. induction ls as [|l ls IH]; intros active; [by destruct active|].
  cbn [line_marks outside_plan]. rewrite plan_line_step.
  destruct active as [[]|]; cbn [plan_inside]; case_bool_decide;
    rewrite visible_marks_app, ?visible_marks_text, IH; done.
Qed.

(** The loop of [extract_proposed_plan_text] by characters. *)
Definition plan_fold (x : str * bool) (m : mark PlanTag) : str * bool :=
  match m with
  | MStart _ => ([], true)
  | MText (Some _) c => (x.1 ++ [c], x.2)
  | _ => x
  end.

Lemma plan_fold_text a t x :
  fold_left plan_fold (text_marks a t) x = match a with Some _ => (x.1 ++ t, x.2) | None => x end.
Proof.
  revert x. induction t as [|c t IH]; intros [u b]; simpl; [destruct a; by rewrite ?app_nil_r|].
  rewrite IH. destruct a; simpl; [|done]. by rewrite <-app_assoc.
Qed.

Lemma extract_fold_marks l x :
  fold_left (fun '(plan_text, saw) segment =>
      match segment with
      | ProposedPlanStart => ([], true)
      | ProposedPlanDelta delta => (plan_text ++ delta, saw)
      | ProposedPlanEnd | PlanNormal _ => (plan_text, saw)
      end) l x = fold_left plan_fold (plan_marks l) x.
Proof.
  revert x. induction l as [|s l IH]; intros [u b]; [done|]. simpl. rewrite IH.
  unfold plan_marks. simpl. rewrite fold_left_app.
  destruct s; simpl; rewrite ?plan_fold_text; done.
Qed.

Lemma plan_fold_lines ls active u b :
  let r := fold_left plan_fold (line_marks plan_specs active ls) (u, b) in
  (plan_inside active = true -> b = true) ->
  (if r.2 then Some r.1 else None)
  = last_plan (if b then Some u else None) (plan_inside active) ls.
Proof.
  revert active u b. induction ls as [|l ls IH]; intros active u b; [by destruct active|].
  cbn [line_marks last_plan]. rewrite plan_line_step.
  destruct active as [[]|]; cbn [plan_inside]; intros Hb; case_bool_decide;
    rewrite fold_left_app, ?plan_fold_text; simpl; rewrite IH by auto; try done.
  by rewrite (Hb eq_refl).
Qed.

Lemma extract_fold_stream text :
  extract_proposed_plan_text text
  = let r := fold_left plan_fold (plan_marks (extracted (parse_stream new_plan [text]))) ([], false) in
    if r.2 then Some r.1 else None.
Proof.
  unfold extract_proposed_plan_text, parse_stream. rewrite push_all_cons. cbn [push_all fst snd].
  rewrite chunk_append_default_r. destruct (push_str new_plan text) as [p out]. cbn [fst snd].
  rewrite extract_fold_marks. cbn [chunk_append extracted].
  by destruct (fold_left plan_fold _ _).
Qed.

(** ** Theorems *)

(** The segments of a whole stream. *)
Fixpoint parse_lines {T} `{EqDecision T} (p : TaggedLineParser T) (cs : list str)
    : list (TaggedLineSegment T) :=
  match cs with
  | [] => (finish p).2
  | c :: cs' => (parse p c).2 ++ parse_lines (parse p c).1 cs'
  end.

Lemma parse_lines_steps {T} `{EqDecision T} (p : TaggedLineParser T) cs :
  marks (parse_lines p cs)
  = (char_steps p (concat cs)).2 ++ marks (finish (char_steps p (concat cs)).1).2.
Proof.
  revert p. induction cs as [|c cs IH]; intros p; [done|]. cbn [parse_lines concat].
  destruct (parse_steps p c) as [-> Hm]. by rewrite marks_app, Hm, IH, char_steps_app, app_assoc.
Qed.

(** Whatever the tags and whatever the pieces the text arrives in, the
    segments say of the text what its complete lines say: a line that is an
    open tag outside a block starts one, a line that is the close tag of the
    open block ends it, every other line is text of the block it is in, and a
    block left open ends with the text. A line is never let go as text before
    it is sure not to be a tag. *)
Theorem tagged_lines_exact {T} `{EqDecision T} (specs : list (TagSpec T)) cs :
  marks (parse_lines (new_tagged specs) cs) = line_marks specs None (line_pieces (concat cs)).
Proof. rewrite parse_lines_steps. apply steps_lines. Qed.

(** The plan parser shows the lines outside plan blocks, in whatever pieces
    the text arrives; stripping a whole text gives the same, and the plan
    extracted from it is the last block's lines. *)
Theorem plan_blocks_exact cs :
  let ls := line_pieces (concat cs) in
  visible_text (parse_stream new_plan cs) = outside_plan false ls /\
  strip_proposed_plan_blocks (concat cs) = outside_plan false ls /\
  extract_proposed_plan_text (concat cs) = last_plan None false ls.
Proof.
  simpl. destruct (parse_plan_marks cs) as [_ ->].
  destruct (parse_plan_marks [concat cs]) as [Hm Hv]. cbn [concat] in Hm, Hv. rewrite app_nil_r in Hm, Hv.
  split; [apply visible_line_marks|]. split.
  - rewrite visible_line_marks in Hv. cbn [plan_inside] in Hv. rewrite <-Hv. clear.
    unfold strip_proposed_plan_blocks, parse_stream. rewrite push_all_cons. cbn [push_all fst snd].
    rewrite chunk_append_default_r. by destruct (push_str new_plan (concat cs)).
  - rewrite extract_fold_stream, Hm. by apply (plan_fold_lines _ None).
Qed.
