(* ===== verification/AssistantText.v ===== *)
(** * Assistant text

    Models [utils/stream-parser/src/assistant_text.rs]: the citation parser and,
    in plan mode, the plan parser behind it. The theorem is proved from what the
    two promise as streamed text parsers, not from how they work. *)

From S2P Require Import Prelude RustStr StreamText InlineTags TaggedLines.

Record AssistantTextChunk : Type := mkAssistantChunk {
  a_visible_text : str;
  citations : list str;
  plan_segments : list ProposedPlanSegment;
}.

Definition assistant_default : AssistantTextChunk := mkAssistantChunk [] [] [].

Definition assistant_is_empty (c : AssistantTextChunk) : bool :=
  is_empty (a_visible_text c)
  && match citations c with [] => true | _ => false end
  && match plan_segments c with [] => true | _ => false end.

Record AssistantTextStreamParser : Type := mkAssistant {
  plan_mode : bool;
  a_citations : CitationStreamParser;
  a_plan : ProposedPlanParser;
}.

Definition new_assistant (plan_mode : bool) : AssistantTextStreamParser :=
  mkAssistant plan_mode new_citation new_plan.

Definition parse_visible_text (p : AssistantTextStreamParser) (visible : str)
    : AssistantTextStreamParser * AssistantTextChunk :=
  if negb (plan_mode p) then (p, mkAssistantChunk visible [] [])
  else
    let '(q, plan_chunk) := push_str (a_plan p) visible in
    (mkAssistant (plan_mode p) (a_citations p) q,
     mkAssistantChunk (visible_text plan_chunk) [] (extracted plan_chunk)).

Definition push_assistant (p : AssistantTextStreamParser) (chunk : str)
    : AssistantTextStreamParser * AssistantTextChunk :=
  let '(c, citation_chunk) := push_str (a_citations p) chunk in
  let '(p, out) := parse_visible_text (mkAssistant (plan_mode p) c (a_plan p)) (visible_text citation_chunk) in
  (p, mkAssistantChunk (a_visible_text out) (extracted citation_chunk) (plan_segments out)).

Definition finish_assistant (p : AssistantTextStreamParser)
    : AssistantTextStreamParser * AssistantTextChunk :=
  let '(c, citation_chunk) := finish_stream (a_citations p) in
  let '(p, out) := parse_visible_text (mkAssistant (plan_mode p) c (a_plan p)) (visible_text citation_chunk) in
  let '(p, out) :=
    if plan_mode p then
      let '(q, tail) := finish_stream (a_plan p) in
      (mkAssistant (plan_mode p) (a_citations p) q,
       if negb (chunk_is_empty tail)
       then mkAssistantChunk (a_visible_text out ++ visible_text tail) (citations out)
              (plan_segments out ++ extracted tail)
       else out)
    else (p, out) in
  (p, mkAssistantChunk (a_visible_text out) (extracted citation_chunk) (plan_segments out)).

(** A caller that puts the outputs together. *)
Definition assistant_append (a b : AssistantTextChunk) : AssistantTextChunk :=
  mkAssistantChunk (a_visible_text a ++ a_visible_text b) (citations a ++ citations b)
    (plan_segments a ++ plan_segments b).

Fixpoint assistant_stream (p : AssistantTextStreamParser) (cs : list str) : AssistantTextChunk :=
  match cs with
  | [] => (finish_assistant p).2
  | c :: cs' =>
      let '(p, o) := push_assistant p c in assistant_append o (assistant_stream p cs')
  end.

(** The test [parses_plan_segments_after_citation_stripping]. *)
Example plan_after_citations :
  assistant_stream (new_assistant true)
    [lit "Intro
<proposed"; lit "_plan>
- step <oai-mem-citation>doc</oai-mem-citation>
"; lit "</proposed_plan>
Outro"]
  = mkAssistantChunk (lit "Intro
Outro") [lit "doc"]
      [PlanNormal (lit "Intro
"); ProposedPlanStart; ProposedPlanDelta (lit "- step 
"); ProposedPlanEnd; PlanNormal (lit "Outro")].
Proof. vm_compute. reflexivity. Qed.

(** ** What the composition does *)

(** The visible texts of the citation parser, which the plan parser is given. *)
Fixpoint visible_pieces (p : CitationStreamParser) (cs : list str) : list str :=
  match cs with
  | [] => [visible_text (finish_stream p).2]
  | c :: cs' => visible_text (push_str p c).2 :: visible_pieces (push_str p c).1 cs'
  end.

Lemma visible_pieces_concat p cs : concat (visible_pieces p cs) = visible_text (parse_stream p cs).
Proof.
  revert p. induction cs as [|c cs IH]; intros p; cbn [visible_pieces concat].
  - by rewrite app_nil_r, parse_stream_nil.
  - by rewrite IH, parse_stream_cons.
Qed.

Lemma empty_chunk {T} (c : StreamTextChunk T) : chunk_is_empty c = true -> c = chunk_default.
Proof. unfold chunk_is_empty. by destruct c as [[] []]. Qed.

(** In plan mode the plan parser runs over those texts. *)
Lemma assistant_plan c q cs :
  let P := parse_stream q (visible_pieces c cs) in
  assistant_stream (mkAssistant true c q) cs
  = mkAssistantChunk (visible_text P) (extracted (parse_stream c cs)) (extracted P).
Proof.
  simpl. revert c q. induction cs as [|x cs IH]; intros c q; cbn [assistant_stream visible_pieces].
  - rewrite parse_stream_cons, !parse_stream_nil.
    unfold finish_assistant, parse_visible_text. cbn [a_citations plan_mode a_plan negb].
    destruct (finish_stream c) as [c' o]. cbn [fst snd].
    destruct (push_str q (visible_text o)) as [q' o']. cbn [fst snd a_plan plan_mode].
    destruct (finish_stream q') as [q2 tail]. cbn [fst snd].
    destruct (chunk_is_empty tail) eqn:E; [|done].
    apply empty_chunk in E as ->. cbn. by rewrite !app_nil_r.
  - rewrite !parse_stream_cons. unfold push_assistant, parse_visible_text.
    cbn [a_citations plan_mode a_plan negb]. destruct (push_str c x) as [c' o]. cbn [fst snd].
    destruct (push_str q (visible_text o)) as [q' o']. cbn [fst snd].
    rewrite IH. done.
Qed.

(** Otherwise it is the citation parser. *)
Lemma assistant_no_plan c q cs :
  assistant_stream (mkAssistant false c q) cs
  = mkAssistantChunk (visible_text (parse_stream c cs)) (extracted (parse_stream c cs)) [].
Proof.
  revert c. induction cs as [|x cs IH]; intros c; cbn [assistant_stream].
  - rewrite parse_stream_nil. unfold finish_assistant, parse_visible_text.
    cbn [a_citations plan_mode negb]. by destruct (finish_stream c) as [c' o].
  - rewrite parse_stream_cons. unfold push_assistant, parse_visible_text.
    cbn [a_citations plan_mode negb]. destruct (push_str c x) as [c' o]. cbn [fst snd].
    by rewrite IH.
Qed.

Lemma strip_citations_stream cs :
  parse_stream new_citation cs
  = mkChunk (strip_citations (concat cs)).1 (strip_citations (concat cs)).2.
Proof.
  pose proof (parse_stream_concat citation_ok eq new_citation cs new_citation_ok) as Hc.
  apply chunk_rel_eq in Hc as ->. rewrite parse_stream_cons, parse_stream_nil.
  unfold strip_citations. destruct (push_str new_citation (concat cs)) as [p o].
  cbn [fst snd]. by destruct (finish_stream p).
Qed.

(** Assistant text in any pieces gives what its parts say of the whole
    text: the citations of the text and, outside plan mode, the text without
    them; in plan mode the text without citations and plan blocks, and plan
    segments that say of every character what the plan parser says of the text
    without citations. *)
Theorem assistant_text_composes plan cs :
  let o := assistant_stream (new_assistant plan) cs in
  let '(shown, cited) := strip_citations (concat cs) in
  citations o = cited /\
  if plan
  then a_visible_text o = strip_proposed_plan_blocks shown /\
       same_plan (plan_segments o) (extracted (parse_stream new_plan [shown]))
  else a_visible_text o = shown /\ plan_segments o = [].
Proof.
  simpl. pose proof (strip_citations_stream cs) as Hc.
  destruct (strip_citations (concat cs)) as [shown cited]. cbn [fst snd] in Hc.
  unfold new_assistant. destruct plan.
  - rewrite assistant_plan, Hc. cbn [citations a_visible_text plan_segments extracted].
    pose proof (visible_pieces_concat new_citation cs) as Hv. rewrite Hc in Hv. cbn in Hv.
    pose proof (parse_stream_concat (fun _ => True) same_plan new_plan (visible_pieces new_citation cs) I)
      as [Hp Hs].
    rewrite Hv in Hp, Hs. split; [done|]. split; [|done]. rewrite Hp. clear.
    rewrite parse_stream_cons, parse_stream_nil. unfold strip_proposed_plan_blocks.
    by destruct (push_str new_plan shown).
  - by rewrite assistant_no_plan, Hc.
Qed.
