(* ===== verification/Utf8.v ===== *)
(** * UTF-8

    What the repository uses of [core::str::from_utf8]: the validation of a byte
    sequence with the offset and the length of what is wrong, as
    [core::str::validations] computes them, and the encoding of a string. A byte
    is an [N]; the ranges of [from_utf8] decide which bytes are possible. *)

From Stdlib Require Import ZArith Lia.
From S2P Require Import Prelude RustStr.

(** ** Decoding *)

(** What the next bytes are: a character and its width, a sequence wrong after
    [error_len] bytes, or the beginning of a character cut off by the end. *)
Inductive utf8_step : Type :=
  | Scalar (c : N) (width : nat)
  | Invalid (error_len : nat)
  | Cut.

Definition between (lo hi b : N) : bool := ((lo <=? b) && (b <=? hi))%N.

Definition continuation (b : N) : bool := between 128 191 b.

(** The second byte of three and of four. *)
Definition second_of_3 (b0 b1 : N) : bool :=
  (b0 =? 224)%N && between 160 191 b1
  || between 225 236 b0 && between 128 191 b1
  || (b0 =? 237)%N && between 128 159 b1
  || between 238 239 b0 && between 128 191 b1.
Definition second_of_4 (b0 b1 : N) : bool :=
  (b0 =? 240)%N && between 144 191 b1
  || between 241 243 b0 && between 128 191 b1
  || (b0 =? 244)%N && between 128 143 b1.

Definition next_char (bs : list N) : utf8_step :=
  match bs with
  | [] => Cut
  | b0 :: r =>
      if (b0 <? 128)%N then Scalar b0 1
      else if between 194 223 b0 then
        match r with
        | [] => Cut
        | b1 :: _ =>
            if continuation b1 then Scalar ((b0 mod 32) * 64 + b1 mod 64)%N 2 else Invalid 1
        end
      else if between 224 239 b0 then
        match r with
        | [] => Cut
        | b1 :: r =>
            if negb (second_of_3 b0 b1) then Invalid 1
            else match r with
                 | [] => Cut
                 | b2 :: _ =>
                     if continuation b2
                     then Scalar ((b0 mod 16) * 4096 + (b1 mod 64) * 64 + b2 mod 64)%N 3
                     else Invalid 2
                 end
        end
      else if between 240 244 b0 then
        match r with
        | [] => Cut
        | b1 :: r =>
            if negb (second_of_4 b0 b1) then Invalid 1
            else match r with
                 | [] => Cut
                 | b2 :: r =>
                     if negb (continuation b2) then Invalid 2
                     else match r with
                          | [] => Cut
                          | b3 :: _ =>
                              if continuation b3
                              then Scalar ((b0 mod 8) * 262144 + (b1 mod 64) * 4096
                                           + (b2 mod 64) * 64 + b3 mod 64)%N 4
                              else Invalid 3
                          end
                 end
        end
      else Invalid 1
  end.

(** The characters up to the first problem and the problem; [skip] bytes of a
    character already read are passed over. *)
Fixpoint decode_from (skip : nat) (bs : list N) : str * option (option nat) :=
  match bs with
  | [] => ([], None)
  | _ :: r =>
      match skip with
      | S k => decode_from k r
      | 0 =>
          match next_char bs with
          | Scalar c w => let '(t, e) := decode_from (w - 1) r in (c :: t, e)
          | Invalid n => ([], Some (Some n))
          | Cut => ([], Some None)
          end
      end
  end.

Definition decode (bs : list N) : str * option (option nat) := decode_from 0 bs.

Record Utf8Error : Type := mkUtf8Error {
  valid_up_to : nat;
  error_len : option nat;
}.

(** [std::str::from_utf8]. *)
Definition from_utf8 (bs : list N) : result str Utf8Error :=
  match decode bs with
  | (t, None) => Ok t
  | (t, Some e) => Err (mkUtf8Error (str_len t) e)
  end.

(** ** Encoding *)

Definition is_scalar (c : N) : bool := ((c <? 55296) || (57343 <? c) && (c <? 1114112))%N.

Definition encode_char (c : N) : list N :=
  (if c <? 128 then [c]
   else if c <? 2048 then [192 + c / 64; 128 + c mod 64]
   else if c <? 65536 then [224 + c / 4096; 128 + c / 64 mod 64; 128 + c mod 64]
   else [240 + c / 262144; 128 + c / 4096 mod 64; 128 + c / 64 mod 64; 128 + c mod 64])%N.

Definition encode (s : str) : list N := concat (map encode_char s).

(** The test bytes of [utf8_stream.rs]: an accented letter in two pieces, a wrong
    byte after a cut character. *)
Example decode_examples :
  from_utf8 [195; 169]%N = Ok [233]%N /\
  from_utf8 [97; 195]%N = Err (mkUtf8Error 1 None) /\
  from_utf8 [195; 40]%N = Err (mkUtf8Error 0 (Some 1)) /\
  from_utf8 [237; 160; 128]%N = Err (mkUtf8Error 0 (Some 1)) /\
  from_utf8 [240; 159; 167; 40]%N = Err (mkUtf8Error 0 (Some 3)).
Proof. repeat split. Qed.

(** ** The two are inverse *)

(** The six bits of a continuation byte, the payload of a first byte. *)
Lemma split64 q r : (r < 64 -> (q * 64 + r) / 64 = q /\ (q * 64 + r) mod 64 = r)%N.
Proof.
  intros Hr. split; symmetry; [apply (N.div_unique _ 64 q r)|apply (N.mod_unique _ 64 q r)]; lia.
Qed.

Lemma join64 c : exists q r, (c = q * 64 + r /\ r < 64)%N.
Proof.
  exists (c / 64)%N, (c mod 64)%N. pose proof (N.div_mod c 64 ltac:(done)).
  pose proof (N.mod_lt c 64 ltac:(done)). lia.
Qed.

Lemma payload k m x : (x < m -> (k * m + x) mod m = x)%N.
Proof. intros Hx. symmetry. eapply (N.mod_unique _ m k); lia. Qed.

(** Turns the tests on bytes into inequalities. *)
Ltac byte_tests :=
  unfold second_of_3, second_of_4, continuation, between, is_scalar in *;
  repeat match goal with
    | H : negb _ = false |- _ => apply negb_false_iff in H
    | H : negb _ = true |- _ => apply negb_true_iff in H
    | H : (_ || _) = true |- _ => apply orb_true_iff in H
    | H : (_ || _) = false |- _ => apply orb_false_iff in H as [? ?]
    | H : (_ && _) = true |- _ => apply andb_true_iff in H as [? ?]
    | H : (_ && _) = false |- _ => apply andb_false_iff in H
    | H : (_ <? _)%N = true |- _ => apply N.ltb_lt in H
    | H : (_ <? _)%N = false |- _ => apply N.ltb_ge in H
    | H : (_ <=? _)%N = true |- _ => apply N.leb_le in H
    | H : (_ <=? _)%N = false |- _ => apply N.leb_gt in H
    | H : (_ =? _)%N = true |- _ => apply N.eqb_eq in H
    | H : (_ =? _)%N = false |- _ => apply N.eqb_neq in H
    | H : _ \/ _ |- _ => destruct H
    end.

(** Decides a test on bytes in the goal. *)
Ltac byte_case :=
  match goal with
  | |- context [if ?b then _ else _] =>
      let E := fresh "E" in destruct b eqn:E; byte_tests; try (exfalso; lia)
  end.

Lemma encode_char_len c : length (encode_char c) = utf8_char_len c.
Proof. unfold encode_char, utf8_char_len. repeat case_match; done. Qed.

(** Writes a number as its groups of six bits. *)
Ltac sixes c :=
  let q := fresh "q" in let r := fresh "r" in let H := fresh "H" in
  destruct (join64 c) as (q & r & -> & H).

Lemma tail_byte x : (x < 64)%N -> continuation (128 + x) = true /\ ((128 + x) mod 64)%N = x.
Proof.
  intros Hx. split; [|by apply (payload 2 64)].
  unfold continuation, between. rewrite andb_true_iff, !N.leb_le. lia.
Qed.

Lemma div4096 c : (c / 4096 = c / 64 / 64)%N.
Proof. by rewrite N.Div0.div_div. Qed.
Lemma div262144 c : (c / 262144 = c / 64 / 64 / 64)%N.
Proof. by rewrite !N.Div0.div_div. Qed.

Lemma next_char_encode c r :
  is_scalar c = true -> next_char (encode_char c ++ r) = Scalar c (utf8_char_len c).
Proof.
  intros Hc. unfold encode_char, utf8_char_len. rewrite div262144, div4096.
  destruct (c <? 128)%N eqn:E1; [by simpl; rewrite E1|].
  sixes c. destruct (split64 q r0 H) as [-> ->]. destruct (tail_byte r0 H) as [Ht Hm].
  destruct (q * 64 + r0 <? 2048)%N eqn:E2; [|destruct (q * 64 + r0 <? 65536)%N eqn:E3].
  - simpl. rewrite Ht, Hm, (payload 6 32) by (byte_tests; lia).
    repeat (byte_case; simpl); done.
  - sixes q. destruct (split64 q0 r1 H0) as [-> ->]. destruct (tail_byte r1 H0) as [Ht1 Hm1].
    simpl. rewrite Ht, Hm, Hm1, (payload 14 16) by (byte_tests; lia).
    repeat (byte_case; simpl); f_equal; lia.
  - sixes q. destruct (split64 q0 r1 H0) as [-> ->]. destruct (tail_byte r1 H0) as [Ht1 Hm1].
    sixes q0. destruct (split64 q r2 H1) as [-> ->]. destruct (tail_byte r2 H1) as [Ht2 Hm2].
    simpl. rewrite Ht, Ht1, Hm, Hm1, Hm2, (payload 30 8) by (byte_tests; lia).
    repeat (byte_case; simpl); f_equal; lia.
Qed.

(** A continuation byte, and a first byte, by its payload. *)
Lemma continuation_payload b :
  continuation b = true -> exists x, b = (128 + x)%N /\ (x < 64)%N.
Proof. intros Hb. byte_tests. exists (b - 128)%N. lia. Qed.

(** A character read is a scalar value, and the bytes are its encoding. *)
Definition encodes (c : N) (bs : list N) : Prop :=
  is_scalar c = true /\ encode_char c = bs /\ utf8_char_len c = length bs.

Lemma encode_two b0 b1 :
  between 194 223 b0 = true -> continuation b1 = true ->
  encodes ((b0 mod 32) * 64 + b1 mod 64) [b0; b1].
Proof.
  intros H0 (x & -> & Hx)%continuation_payload. rewrite (proj2 (tail_byte x Hx)).
  byte_tests. replace b0 with (6 * 32 + (b0 - 192))%N by lia. rewrite payload by lia.
  set (y := (b0 - 192)%N). assert (Hy : (2 <= y < 32)%N) by (unfold y; lia). clearbody y.
  unfold encodes, encode_char, utf8_char_len. destruct (split64 y x Hx) as [-> ->].
  split; [unfold is_scalar; apply orb_true_iff; rewrite N.ltb_lt; lia|].
  repeat (byte_case; simpl); done.
Qed.

Lemma second_of_3_payload b0 b1 :
  between 224 239 b0 = true -> second_of_3 b0 b1 = true ->
  exists x y, b0 = (14 * 16 + x)%N /\ b1 = (128 + y)%N /\ (x < 16)%N /\ (y < 64)%N /\
    (32 <= x * 64 + y < 864 \/ 896 <= x * 64 + y < 1024)%N.
Proof. intros H0 H1. exists (b0 - 224)%N, (b1 - 128)%N. byte_tests; lia. Qed.

Lemma second_of_4_payload b0 b1 :
  between 240 244 b0 = true -> second_of_4 b0 b1 = true ->
  exists x y, b0 = (30 * 8 + x)%N /\ b1 = (128 + y)%N /\ (x < 8)%N /\ (y < 64)%N /\
    (16 <= x * 64 + y < 272)%N.
Proof. intros H0 H1. exists (b0 - 240)%N, (b1 - 128)%N. byte_tests; lia. Qed.

Lemma encode_three b0 b1 b2 :
  between 224 239 b0 = true -> second_of_3 b0 b1 = true -> continuation b2 = true ->
  encodes ((b0 mod 16) * 4096 + (b1 mod 64) * 64 + b2 mod 64) [b0; b1; b2].
Proof.
  intros H0 H1 (z & -> & Hz)%continuation_payload.
  destruct (second_of_3_payload b0 b1 H0 H1) as (x & y & -> & -> & Hx & Hy & Hr). clear H0 H1.
  rewrite (payload 14 16 x Hx), (proj2 (tail_byte y Hy)), (proj2 (tail_byte z Hz)).
  replace (x * 4096 + y * 64 + z)%N with ((x * 64 + y) * 64 + z)%N by lia.
  unfold encodes, encode_char, utf8_char_len. rewrite div4096.
  destruct (split64 (x * 64 + y) z Hz) as [-> ->]. destruct (split64 x y Hy) as [-> ->].
  split; [unfold is_scalar; apply orb_true_iff; rewrite andb_true_iff, !N.ltb_lt; lia|].
  repeat (byte_case; simpl); done.
Qed.

Lemma encode_four b0 b1 b2 b3 :
  between 240 244 b0 = true -> second_of_4 b0 b1 = true -> continuation b2 = true ->
  continuation b3 = true ->
  encodes ((b0 mod 8) * 262144 + (b1 mod 64) * 4096 + (b2 mod 64) * 64 + b3 mod 64) [b0; b1; b2; b3].
Proof.
  intros H0 H1 (z & -> & Hz)%continuation_payload (w & -> & Hw)%continuation_payload.
  destruct (second_of_4_payload b0 b1 H0 H1) as (x & y & -> & -> & Hx & Hy & Hr). clear H0 H1.
  rewrite (payload 30 8 x Hx), (proj2 (tail_byte y Hy)), (proj2 (tail_byte z Hz)), (proj2 (tail_byte w Hw)).
  replace (x * 262144 + y * 4096 + z * 64 + w)%N with (((x * 64 + y) * 64 + z) * 64 + w)%N by lia.
  unfold encodes, encode_char, utf8_char_len. rewrite div262144, div4096.
  destruct (split64 ((x * 64 + y) * 64 + z) w Hw) as [-> ->].
  destruct (split64 (x * 64 + y) z Hz) as [-> ->]. destruct (split64 x y Hy) as [-> ->].
  split; [unfold is_scalar; apply orb_true_iff; rewrite andb_true_iff, !N.ltb_lt; lia|].
  repeat (byte_case; simpl); done.
Qed.

(** Takes [next_char] apart along its tests. *)
Ltac next_cases H :=
  repeat match type of H with
    | (match ?l with [] => _ | _ :: _ => _ end) = _ => destruct l; [try done|]
    | (if ?b then _ else _) = _ => let E := fresh "E" in destruct b eqn:E; try done
    end.

Lemma next_char_Scalar bs c w :
  next_char bs = Scalar c w -> exists r, bs = encode_char c ++ r /\ is_scalar c = true /\ w = utf8_char_len c.
Proof.
  unfold next_char. intros H. next_cases H; injection H as <- <-;
    repeat match goal with E : negb _ = false |- _ => apply negb_false_iff in E end.
  - eexists. unfold encode_char, utf8_char_len, is_scalar. rewrite E.
    split; [done|]. split; [|done]. byte_tests. apply orb_true_iff. rewrite N.ltb_lt. lia.
  - destruct (encode_two n n0) as (Hs & He & Hl); [done|done|]. rewrite He, Hl. by eexists.
  - destruct (encode_three n n0 n1) as (Hs & He & Hl); [done|done|done|]. rewrite He, Hl. by eexists.
  - destruct (encode_four n n0 n1 n2) as (Hs & He & Hl); [done|done|done|done|].
    rewrite He, Hl. by eexists.
Qed.

(** A verdict on the first bytes is not changed by more of them. *)
Lemma next_char_app bs r x : next_char bs = x -> x <> Cut -> next_char (bs ++ r) = x.
Proof.
  unfold next_char. intros H Hx. next_cases H; subst; try done; simpl;
    repeat match goal with E : _ = _ :> bool |- _ => rewrite E; clear E end; done.
Qed.

(** *** Whole sequences *)

Lemma decode_from_drop k bs : decode_from k bs = decode (drop k bs).
Proof.
  revert k. induction bs as [|b bs IH]; intros [|k]; try done. simpl. apply IH.
Qed.

Lemma encode_char_nonempty c : encode_char c <> [].
Proof. unfold encode_char. repeat case_match; done. Qed.

Lemma decode_char c r :
  is_scalar c = true -> decode (encode_char c ++ r) = (c :: (decode r).1, (decode r).2).
Proof.
  intros Hc. pose proof (next_char_encode c r Hc) as Hn. pose proof (encode_char_len c) as Hl.
  unfold decode. destruct (encode_char c) as [|b bs] eqn:E; [by apply encode_char_nonempty in E|].
  simpl in Hn, Hl |- *. rewrite Hn, decode_from_drop, <-Hl. simpl. rewrite Nat.sub_0_r, drop_app_length.
  unfold decode. by destruct (decode_from 0 r).
Qed.

Lemma encode_cons c s : encode (c :: s) = encode_char c ++ encode s.
Proof. done. Qed.

Lemma decode_encode s r :
  forallb is_scalar s = true -> decode (encode s ++ r) = (s ++ (decode r).1, (decode r).2).
Proof.
  induction s as [|c s IH]; intros Hs; [change (decode (encode [] ++ r)) with (decode r); by destruct (decode r)|].
  apply andb_true_iff in Hs as [Hc Hs]. rewrite encode_cons, <-app_assoc, decode_char, IH by done. done.
Qed.

Lemma encode_length s : length (encode s) = str_len s.
Proof.
  unfold str_len. induction s as [|c s IH]; [done|].
  by rewrite encode_cons, length_app, encode_char_len, IH.
Qed.

(** What stands where decoding stopped. *)
Definition stopped_at (e : option (option nat)) (r : list N) : Prop :=
  match e with
  | None => r = []
  | Some (Some n) => next_char r = Invalid n
  | Some None => r <> [] /\ next_char r = Cut
  end.

Lemma decode_stopped e r : stopped_at e r -> decode r = ([], e).
Proof.
  unfold decode. destruct e as [[n|]|]; simpl.
  - intros H. destruct r as [|b r]; [done|]. cbn [decode_from]. by rewrite H.
  - intros [Hr H]. destruct r as [|b r]; [done|]. cbn [decode_from]. by rewrite H.
  - by intros ->.
Qed.

(** Bytes are the encoding of what is decoded, and the rest. *)
Lemma decode_split bs t e :
  decode bs = (t, e) -> exists r, bs = encode t ++ r /\ forallb is_scalar t = true /\ stopped_at e r.
Proof.
  remember (length bs) as m eqn:Hm. revert bs t Hm.
  induction (lt_wf m) as [m _ IH]. intros bs t ->.
  destruct (next_char bs) as [c w|n|] eqn:En.
  - apply next_char_Scalar in En as (r & -> & Hc & ->). rewrite decode_char by done.
    intros [= <- He]. destruct (decode r) as [u e'] eqn:Er. simpl in *. subst e'.
    destruct (IH (length r)) with (bs := r) (t := u) as (r' & -> & Hu & Hs); [|done|done|].
    { rewrite length_app. pose proof (encode_char_nonempty c). destruct (encode_char c); [done|simpl; lia]. }
    exists r'. by rewrite encode_cons, <-app_assoc, Hc.
  - rewrite (decode_stopped (Some (Some n)) bs En). intros [= <- <-]. by exists bs.
  - destruct bs as [|b bs]; [intros [= <- <-]; by exists []|].
    rewrite (decode_stopped (Some None) (b :: bs)) by done. intros [= <- <-]. by exists (b :: bs).
Qed.

(** More bytes go on where decoding stopped, and change no error. *)
Lemma decode_app t e r b :
  forallb is_scalar t = true -> stopped_at e r ->
  decode ((encode t ++ r) ++ b)
  = match e with
    | Some (Some n) => (t, Some (Some n))
    | _ => (t ++ (decode (r ++ b)).1, (decode (r ++ b)).2)
    end.
Proof.
  intros Ht Hs. rewrite <-app_assoc, decode_encode by done. destruct e as [[n|]|]; try done.
  rewrite (decode_stopped (Some (Some n)) (r ++ b)); [by rewrite app_nil_r|].
  by apply next_char_app.
Qed.

(** Decoding is the inverse of encoding: [from_utf8] accepts exactly the
    encodings of strings of scalar values and returns the string encoded. *)
Theorem from_utf8_encode bs s :
  from_utf8 bs = Ok s <-> bs = encode s /\ forallb is_scalar s = true.
Proof.
  unfold from_utf8. split.
  - destruct (decode bs) as [t [e|]] eqn:E; [done|]. intros [= <-].
    apply decode_split in E as (r & -> & Ht & ->). by rewrite app_nil_r.
  - intros [-> Hs]. rewrite <-(app_nil_r (encode s)), decode_encode by done. simpl. by rewrite app_nil_r.
Qed.
