(* ===== verification/Utf8Stream.v ===== *)
(** * Streamed bytes

    Models [utils/stream-parser/src/utf8_stream.rs]: a wrapper that feeds the
    text of a byte stream to any streamed text parser and holds back a character
    cut off by the end of a piece. *)

From Stdlib Require Import Lia.
From S2P Require Import Prelude RustStr StreamText InlineTags Utf8.

Inductive Utf8StreamParserError : Type :=
  | InvalidUtf8 (valid_up_to error_len : nat)
  | IncompleteUtf8AtEof.

Section Wrapper.
Context {P T : Type} `{StreamTextParser P T}.

Record Utf8StreamParser : Type := mkUtf8 {
  u_inner : P;
  pending_utf8 : list N;
}.

Definition new_utf8 (inner : P) : Utf8StreamParser := mkUtf8 inner [].

Definition push_bytes (p : Utf8StreamParser) (chunk : list N)
    : Utf8StreamParser * result (StreamTextChunk T) Utf8StreamParserError :=
  let old_len := length (pending_utf8 p) in
  let buf := pending_utf8 p ++ chunk in
  match from_utf8 buf with
  | Ok text => let '(q, out) := push_str (u_inner p) text in (mkUtf8 q [], Ok out)
  | Err err =>
      match error_len err with
      | Some n => (mkUtf8 (u_inner p) (take old_len buf), Err (InvalidUtf8 (valid_up_to err) n))
      | None =>
          let v := valid_up_to err in
          if v =? 0 then (mkUtf8 (u_inner p) buf, Ok chunk_default)
          else
            match from_utf8 (take v buf) with
            | Ok text =>
                let '(q, out) := push_str (u_inner p) text in (mkUtf8 q (drop v buf), Ok out)
            | Err prefix_err =>
                (mkUtf8 (u_inner p) (take old_len buf),
                 Err (InvalidUtf8 (valid_up_to prefix_err) (default 0 (error_len prefix_err))))
            end
      end
  end.

(** The error of a check of buffered bytes. *)
Definition stream_error (err : Utf8Error) : Utf8StreamParserError :=
  match error_len err with
  | Some n => InvalidUtf8 (valid_up_to err) n
  | None => IncompleteUtf8AtEof
  end.

Definition finish_bytes (p : Utf8StreamParser)
    : Utf8StreamParser * result (StreamTextChunk T) Utf8StreamParserError :=
  let buf := pending_utf8 p in
  let flush (p : Utf8StreamParser) (out : StreamTextChunk T) :=
    let '(q, tail) := finish_stream (u_inner p) in
    (mkUtf8 q (pending_utf8 p), Ok (chunk_append out tail)) in
  if is_empty buf then flush p chunk_default
  else
    match from_utf8 buf with
    | Err err => (p, Err (stream_error err))
    | Ok text => let '(q, out) := push_str (u_inner p) text in flush (mkUtf8 q []) out
    end.

Definition into_inner (p : Utf8StreamParser) : result P Utf8StreamParserError :=
  if is_empty (pending_utf8 p) then Ok (u_inner p)
  else match from_utf8 (pending_utf8 p) with
       | Ok _ => Ok (u_inner p)
       | Err err => Err (stream_error err)
       end.

Definition into_inner_lossy (p : Utf8StreamParser) : P := u_inner p.

(** A caller's loop that stops at the first error. *)
Fixpoint bytes_stream (p : Utf8StreamParser) (cs : list (list N))
    : result (StreamTextChunk T) Utf8StreamParserError :=
  match cs with
  | [] => (finish_bytes p).2
  | c :: cs' =>
      let '(p, o) := push_bytes p c in
      let? out := o in
      let? rest := bytes_stream p cs' in
      Ok (chunk_append out rest)
  end.
End Wrapper.
Arguments Utf8StreamParser P : clear implicits.

(** The test [utf8_stream_parser_handles_split_code_points_across_chunks]. *)
Example split_code_points :
  let bs := encode (lit "AéB") in
  bytes_stream (new_utf8 new_citation) [take 2 bs; drop 2 bs] = Ok (mkChunk (lit "AéB") []).
Proof. vm_compute. reflexivity. Qed.

(** ** What the wrapper promises *)

Section Promise.
Context {P T : Type} `{StreamTextParser P T} (ok : P -> Prop) (R : relation (list T)).
Context {Laws : StreamTextLaws ok R}.

(** What is held back is nothing or a character cut off. *)
Definition pending_ok (r : list N) : Prop := stopped_at None r \/ stopped_at (Some None) r.

Lemma parse_stream_app p a b :
  ok p ->
  chunk_rel R (chunk_append (push_str p a).2 (parse_stream (push_str p a).1 [b])) (parse_stream p [a ++ b]).
Proof using Laws.
  intros Hp. pose proof (parse_stream_concat ok R p [a; b] Hp) as Hc.
  rewrite parse_stream_cons in Hc. simpl concat in Hc. by rewrite app_nil_r in Hc.
Qed.

(** [push_bytes] by where decoding the buffered bytes stops. *)
Lemma push_bytes_split q r c t e u :
  r ++ c = encode t ++ u -> forallb is_scalar t = true -> stopped_at e u ->
  push_bytes (mkUtf8 q r) c
  = match e with
    | Some (Some n) => (mkUtf8 q r, Err (InvalidUtf8 (str_len t) n))
    | Some None =>
        if is_empty t then (mkUtf8 q u, Ok chunk_default)
        else (mkUtf8 (push_str q t).1 u, Ok (push_str q t).2)
    | None => (mkUtf8 (push_str q t).1 u, Ok (push_str q t).2)
    end.
Proof.
  intros Hb Ht Hs. unfold push_bytes, from_utf8. cbn [pending_utf8 u_inner].
  assert (Htake : take (length r) (r ++ c) = r) by apply take_app_length.
  rewrite Hb in *. rewrite decode_encode, (decode_stopped e u), app_nil_r by done. cbn [fst snd].
  destruct e as [[n|]|]; cbn [error_len valid_up_to].
  - by rewrite Htake.
  - rewrite <-encode_length. destruct t as [|x t]; [done|]. cbn [is_empty].
    destruct (length (encode (x :: t)) =? 0) eqn:E.
    { apply Nat.eqb_eq, nil_length_inv in E. rewrite encode_cons in E.
      apply app_eq_nil in E as [E _]. by apply encode_char_nonempty in E. }
    rewrite take_app_length, drop_app_length.
    pose proof (decode_encode (x :: t) [] Ht) as Hd. rewrite !app_nil_r in Hd.
    rewrite Hd. cbn [decode decode_from fst snd]. by destruct (push_str q (x :: t)).
  - rewrite Hs. by destruct (push_str q t).
Qed.

(** What a stream of bytes [bs] must give. *)
Definition outcome (q : P) (bs : list N) (res : result (StreamTextChunk T) Utf8StreamParserError) : Prop :=
  match decode bs with
  | (t, None) => exists o, res = Ok o /\ chunk_rel R o (parse_stream q [t])
  | (_, Some None) => res = Err IncompleteUtf8AtEof
  | (t, Some (Some n)) => exists handed off, res = Err (InvalidUtf8 off n) /\ handed + off = str_len t
  end.

Lemma str_len_app a b : str_len (a ++ b) = str_len a + str_len b.
Proof using. by rewrite <-!encode_length, <-length_app; unfold encode; rewrite map_app, concat_app. Qed.

(** A piece handed to the inner parser, then the rest. *)
Lemma outcome_step q t e u rest o res :
  ok q -> forallb is_scalar t = true -> stopped_at e u -> (forall n, e <> Some (Some n)) ->
  chunk_rel R o (push_str q t).2 -> outcome (push_str q t).1 (u ++ rest) res ->
  outcome q ((encode t ++ u) ++ rest) (let? r := res in Ok (chunk_append o r)).
Proof using Laws.
  intros Hq Ht Hu He Ho. unfold outcome.
  assert (Hd : decode ((encode t ++ u) ++ rest) = (t ++ (decode (u ++ rest)).1, (decode (u ++ rest)).2)).
  { rewrite (decode_app t e) by done. destruct e as [[n|]|]; try done. by destruct (He n). }
  rewrite Hd. destruct (decode (u ++ rest)) as [t2 [[n|]|]]; cbn [fst snd].
  - intros (handed & off & -> & Hs). exists (str_len t + handed), off. split; [done|].
    rewrite str_len_app. lia.
  - by intros ->.
  - intros (o2 & -> & Hr). exists (chunk_append o o2). split; [done|].
    transitivity (chunk_append (push_str q t).2 (parse_stream (push_str q t).1 [t2]));
      [|by apply parse_stream_app].
    by apply (chunk_append_proper ok R).
Qed.

Lemma finish_outcome q r : ok q -> pending_ok r -> outcome q r (finish_bytes (mkUtf8 q r)).2.
Proof using Laws.
  intros Hq [->|Hr]; unfold outcome.
  - cbn [decode decode_from]. exists (chunk_append chunk_default (finish_stream q).2). split.
    + unfold finish_bytes. cbn [pending_utf8 u_inner is_empty]. by destruct (finish_stream q).
    + pose proof (parse_stream_concat ok R q [] Hq) as Hc. rewrite parse_stream_nil in Hc.
      by rewrite chunk_append_default_l.
  - rewrite (decode_stopped _ _ Hr). destruct Hr as [Hne Hc]. unfold finish_bytes, from_utf8.
    cbn [pending_utf8]. rewrite (decode_stopped (Some None) r) by done. by destruct r.
Qed.

(** The rest of the stream after [r] was held back. *)
Lemma bytes_stream_exact q r cs :
  ok q -> pending_ok r -> outcome q (r ++ concat cs) (bytes_stream (mkUtf8 q r) cs).
Proof using Laws.
  revert q r. induction cs as [|c cs IH]; intros q r Hq Hr; cbn [bytes_stream concat].
  { rewrite app_nil_r. by apply finish_outcome. }
  destruct (decode (r ++ c)) as [t e] eqn:E. apply decode_split in E as (u & Hb & Ht & Hu).
  rewrite app_assoc, Hb, (push_bytes_split q r c t e u) by done.
  destruct e as [[n|]|].
  - unfold outcome. rewrite (decode_app t (Some (Some n))) by done. by exists 0, (str_len t).
  - destruct t as [|x t]; cbn [is_empty].
    + destruct (push_nil q Hq) as [Hs Hn].
      apply (outcome_step q [] (Some None)); try done.
      rewrite Hs. apply IH; [done|by right].
    + apply (outcome_step q _ (Some None)); try done. apply IH; [by apply push_ok|by right].
  - apply (outcome_step q _ None); try done. apply IH; [by apply push_ok|by left].
Qed.
End Promise.

(** ** Theorems *)

(** Bytes in any pieces: if together they are valid UTF-8, the parser
    behind the wrapper ends up with what it makes of the whole text; if they
    end inside a character, the end of the stream is an error; if a sequence is
    wrong, the stream fails with its length, at an offset counted from the
    bytes not yet handed on. *)
Theorem byte_pieces_exact {P T} `{StreamTextParser P T} ok R {Laws : StreamTextLaws ok R} (q : P) cs :
  ok q ->
  match from_utf8 (concat cs) with
  | Ok t => exists o, bytes_stream (new_utf8 q) cs = Ok o /\ chunk_rel R o (parse_stream q [t])
  | Err e =>
      match error_len e with
      | None => bytes_stream (new_utf8 q) cs = Err IncompleteUtf8AtEof
      | Some n => exists handed off,
          bytes_stream (new_utf8 q) cs = Err (InvalidUtf8 off n) /\ handed + off = valid_up_to e
      end
  end.
Proof.
  intros Hq. pose proof (bytes_stream_exact ok R q [] cs Hq (or_introl eq_refl)) as Ho.
  unfold outcome in Ho. unfold from_utf8. cbn [app] in Ho.
  by destruct (decode (concat cs)) as [t [[n|]|]].
Qed.

Lemma byte_pieces_exact_witness :
  exists o, bytes_stream (new_utf8 new_citation) [[195]; [169; 60]]%N = Ok o /\
    chunk_rel eq o (parse_stream new_citation [[233; 60]%N]).
Proof. exact (byte_pieces_exact citation_ok eq new_citation [[195]; [169; 60]]%N new_citation_ok). Defined.

(** A piece with a wrong sequence in it leaves no trace: the state is what
    it was, so a caller can go on with other bytes, and the inner parser has
    seen nothing of the piece. *)
Theorem push_bytes_rolls_back {P T} `{StreamTextParser P T} (p p' : Utf8StreamParser P) chunk
    (e : Utf8StreamParserError) :
  push_bytes (T := T) p chunk = (p', Err e) ->
  p' = p /\ exists n v, e = InvalidUtf8 v n /\ 1 <= n <= 3.
Proof.
  destruct p as [q r]. destruct (decode (r ++ chunk)) as [t d] eqn:E.
  apply decode_split in E as (u & Hb & Ht & Hu). rewrite (push_bytes_split q r chunk t d u) by done.
  destruct d as [[n|]|]; [|by destruct (is_empty t)|done]. intros [= <- <-]. split; [done|].
  exists n, (str_len t). split; [done|]. simpl in Hu. clear -Hu.
  unfold next_char in Hu. next_cases Hu; injection Hu as <-; lia.
Qed.

Lemma push_bytes_rolls_back_witness :
  mkUtf8 new_citation [195]%N = mkUtf8 new_citation [195]%N /\
  exists n v, InvalidUtf8 0 1 = InvalidUtf8 v n /\ 1 <= n <= 3.
Proof.
  apply (push_bytes_rolls_back (T := str) (mkUtf8 new_citation [195]%N) _ [40]%N).
  vm_compute. reflexivity.
Defined.
