(* ===== verification/HeadTailBuffer.v ===== *)
(** * The capped output buffer

    Models [core/src/unified_exec/head_tail_buffer.rs]: the output of a running
    command, its beginning and its end kept and the middle counted. A length is
    a [nat], the length of a list in memory; the counter of omitted bytes has
    the width of [usize] and saturates. The specification is the stream of all
    bytes pushed. *)

From Stdlib Require Import ZArith Lia.
From S2P Require Import Prelude RustStr Utf8.

Definition USIZE_MAX : N := 18446744073709551615.

(** [usize::saturating_add]. *)
Definition usize_add (a b : N) : N := N.min USIZE_MAX (a + b).

Definition len {A} (l : list A) : N := N.of_nat (length l).

Record HeadTailBuffer : Type := mkBuffer {
  max_bytes : nat;
  head_budget : nat;
  tail_budget : nat;
  head_bytes : list N;
  tail_bytes : list N;
  omitted_bytes : N;
}.

Definition new_buffer (max : nat) : HeadTailBuffer :=
  let head := max / 2 in mkBuffer max head (max - head) [] [] 0.

Definition UNIFIED_EXEC_OUTPUT_MAX_BYTES : N := 1024 * 1024.
Definition default_buffer : HeadTailBuffer := new_buffer (N.to_nat UNIFIED_EXEC_OUTPUT_MAX_BYTES).

Definition retained_bytes (b : HeadTailBuffer) : N :=
  usize_add (len (head_bytes b)) (len (tail_bytes b)).
Definition total_bytes (b : HeadTailBuffer) : N := usize_add (retained_bytes b) (omitted_bytes b).

(** The fields an operation replaces. *)
Definition with_omitted (b : HeadTailBuffer) (n : N) : HeadTailBuffer :=
  mkBuffer (max_bytes b) (head_budget b) (tail_budget b) (head_bytes b) (tail_bytes b) n.
Definition with_head (b : HeadTailBuffer) (h : list N) : HeadTailBuffer :=
  mkBuffer (max_bytes b) (head_budget b) (tail_budget b) h (tail_bytes b) (omitted_bytes b).
Definition with_tail (b : HeadTailBuffer) (t : list N) : HeadTailBuffer :=
  mkBuffer (max_bytes b) (head_budget b) (tail_budget b) (head_bytes b) t (omitted_bytes b).

Definition trim_tail_to_budget (b : HeadTailBuffer) : HeadTailBuffer :=
  let excess := length (tail_bytes b) - tail_budget b in
  if 0 <? excess
  then with_omitted (with_tail b (drop excess (tail_bytes b)))
         (usize_add (omitted_bytes b) (N.of_nat excess))
  else b.

Definition push_to_tail (b : HeadTailBuffer) (chunk : list N) : HeadTailBuffer :=
  match chunk with
  | [] => b
  | _ =>
      if tail_budget b =? 0 then with_omitted b (usize_add (omitted_bytes b) (len chunk))
      else if tail_budget b <=? length chunk then
        let start := length chunk - tail_budget b in
        let kept := drop start chunk in
        let dropped := length chunk - length kept in
        with_tail
          (with_omitted b
             (usize_add (usize_add (omitted_bytes b) (len (tail_bytes b))) (N.of_nat dropped)))
          kept
      else trim_tail_to_budget (with_tail b (tail_bytes b ++ chunk))
  end.

Definition push_chunk (b : HeadTailBuffer) (chunk : list N) : HeadTailBuffer :=
  match chunk with
  | [] => b
  | _ =>
      if max_bytes b =? 0 then with_omitted b (usize_add (omitted_bytes b) (len chunk))
      else
        let remaining_head := head_budget b - length (head_bytes b) in
        let head_len := Nat.min remaining_head (length chunk) in
        let b :=
          if 0 <? head_len then with_head b (head_bytes b ++ take head_len chunk) else b in
        push_to_tail b (drop head_len chunk)
  end.

Definition snapshot_chunks (b : HeadTailBuffer) : list (list N) :=
  (match head_bytes b with [] => [] | h => [h] end)
  ++ (match tail_bytes b with [] => [] | t => [t] end).

Definition to_bytes (b : HeadTailBuffer) : list N := head_bytes b ++ tail_bytes b.

Definition format_output_omission_marker (omitted : N) : str :=
  lit "... " ++ show_N omitted ++ lit " bytes omitted ...".

Definition to_bytes_with_omission_marker (b : HeadTailBuffer) : list N :=
  if (omitted_bytes b =? 0)%N then to_bytes b
  else head_bytes b ++ [LF] ++ encode (format_output_omission_marker (omitted_bytes b)) ++ [LF]
         ++ tail_bytes b.

(** The buffer left behind and the one returned. *)
Definition drain (b : HeadTailBuffer) : HeadTailBuffer * HeadTailBuffer :=
  (mkBuffer (max_bytes b) (head_budget b) (tail_budget b) [] [] 0, b).

Definition push_buffer (b buffer : HeadTailBuffer) : HeadTailBuffer :=
  let b := push_chunk b (head_bytes buffer) in
  let b := push_chunk b (tail_bytes buffer) in
  with_omitted b (usize_add (omitted_bytes b) (omitted_bytes buffer)).

Example omission_marker :
  to_bytes_with_omission_marker
    (fold_left push_chunk [lit "0123456789"; lit "ab"] (new_buffer 10))
  = lit "01234
... 2 bytes omitted ...
789ab".
Proof. vm_compute. reflexivity. Qed.

(** ** The stream behind a buffer *)

#[local] Arguments Nat.div : simpl never.

(** The last [n] of a list. *)
Definition last_n {A} (n : nat) (l : list A) : list A := drop (length l - n) l.

Definition lost (m : nat) (s : list N) : N := len s - N.of_nat (Nat.min m (length s)).

(** [b] holds what is to be kept of the stream [s]; [k] bytes were omitted
    before they could enter it. *)
Record holds (m : nat) (k : N) (s : list N) (b : HeadTailBuffer) : Prop := mkHolds {
  holds_max : max_bytes b = m;
  holds_head_budget : head_budget b = m / 2;
  holds_tail_budget : tail_budget b = m - m / 2;
  holds_head : head_bytes b = take (m / 2) s;
  holds_tail : tail_bytes b = last_n (m - m / 2) (drop (m / 2) s);
  holds_omitted : omitted_bytes b = N.min USIZE_MAX (lost m s + k);
}.

Lemma new_holds m : holds m 0 [] (new_buffer m).
Proof. split; try done. simpl. by rewrite take_nil. simpl. by rewrite drop_nil. Qed.

Lemma usize_add_min a b : usize_add (N.min USIZE_MAX a) b = N.min USIZE_MAX (a + b).
Proof. unfold usize_add. lia. Qed.

Lemma half_le m : m / 2 <= m.
Proof. apply Nat.Div0.div_le_upper_bound; lia. Qed.

Lemma last_n_app_short {A} n (s c : list A) :
  length c < n -> last_n n (s ++ c) = last_n n (last_n n s ++ c).
Proof.
  intros Hc. unfold last_n. rewrite !length_app, length_drop.
  destruct (decide (length s <= n)) as [Hs|Hs].
  - replace (length s - n) with 0 by lia. simpl. by rewrite Nat.sub_0_r.
  - rewrite !drop_app_le, drop_drop by (rewrite ?length_drop; lia). do 2 f_equal. lia.
Qed.

Lemma last_n_app_long {A} n (s c : list A) : n <= length c -> last_n n (s ++ c) = last_n n c.
Proof.
  intros Hc. unfold last_n. rewrite length_app, drop_app_ge by lia. f_equal. lia.
Qed.

Lemma last_n_length {A} n (l : list A) : length (last_n n l) = Nat.min n (length l).
Proof. unfold last_n. rewrite length_drop. lia. Qed.

(** What is cut from the tail's stream. *)
Definition cut (n : nat) (d : list N) : N := len d - N.of_nat (Nat.min n (length d)).

(** The tail keeps the end of its own stream [d] and counts the rest. *)
Lemma push_to_tail_holds b d c k :
  tail_bytes b = last_n (tail_budget b) d ->
  omitted_bytes b = N.min USIZE_MAX (cut (tail_budget b) d + k) ->
  let b' := push_to_tail b c in
  (max_bytes b', head_budget b', tail_budget b', head_bytes b')
    = (max_bytes b, head_budget b, tail_budget b, head_bytes b) /\
  tail_bytes b' = last_n (tail_budget b) (d ++ c) /\
  omitted_bytes b' = N.min USIZE_MAX (cut (tail_budget b) (d ++ c) + k).
Proof.
  intros Ht Ho. simpl. destruct c as [|x c]; [by rewrite app_nil_r|]. set (ch := x :: c).
  unfold push_to_tail. fold ch. change (match ch with [] => b | _ => ?e end) with e. clearbody ch.
  assert (Hcut : cut (tail_budget b) (d ++ ch) = (len d + len ch
    - N.of_nat (Nat.min (tail_budget b) (length d + length ch)))%N)
    by (unfold cut, len; rewrite length_app; lia).
  unfold cut in Ho. unfold len in *.
  destruct (tail_budget b =? 0) eqn:E0; [|destruct (tail_budget b <=? length ch) eqn:E1].
  - apply Nat.eqb_eq in E0. simpl. rewrite E0 in *. split; [done|]. split.
    + rewrite Ht. unfold last_n. by rewrite !Nat.sub_0_r, !drop_all.
    + rewrite Ho, usize_add_min, Hcut. f_equal. lia.
  - apply Nat.leb_le in E1. simpl. split; [done|]. split; [by rewrite last_n_app_long|].
    rewrite Ho, !usize_add_min, Hcut, Ht, last_n_length, length_drop. f_equal. lia.
  - apply Nat.leb_gt in E1. unfold trim_tail_to_budget. simpl.
    rewrite length_app, Ht, last_n_length.
    destruct (0 <? _) eqn:E2; simpl; (split; [done|]); rewrite (last_n_app_short _ d ch E1); split.
    + unfold last_n at 2. rewrite length_app, last_n_length. done.
    + rewrite Ho, usize_add_min, Hcut. f_equal. lia.
    + unfold last_n at 2. rewrite length_app, last_n_length. apply Nat.ltb_ge in E2.
      by replace (_ - _) with 0 by lia.
    + rewrite Ho, Hcut. apply Nat.ltb_ge in E2. f_equal. lia.
Qed.

Lemma drop_min {A} n (c : list A) : drop (Nat.min n (length c)) c = drop n c.
Proof.
  destruct (decide (n <= length c)); [by rewrite Nat.min_l|]. by rewrite Nat.min_r, !drop_ge by lia.
Qed.

Lemma take_min {A} n (c : list A) : take (Nat.min n (length c)) c = take n c.
Proof.
  destruct (decide (n <= length c)); [by rewrite Nat.min_l|]. by rewrite Nat.min_r, !take_ge by lia.
Qed.

Lemma lost_cut m s : lost m s = cut (m - m / 2) (drop (m / 2) s).
Proof. unfold lost, cut, len. rewrite length_drop. pose proof (half_le m). lia. Qed.

Lemma push_chunk_holds m k s b c : holds m k s b -> holds m k (s ++ c) (push_chunk b c).
Proof.
  intros [Hm Hhb Htb Hh Ht Ho]. destruct c as [|x c]; [by rewrite app_nil_r|]. set (ch := x :: c).
  unfold push_chunk. fold ch. change (match ch with [] => b | _ => ?e end) with e. clearbody ch.
  rewrite Hm, Hhb. destruct (m =? 0) eqn:E0.
  - apply Nat.eqb_eq in E0. subst m. rewrite E0 in *. split; simpl; try done.
    + rewrite Ht. unfold last_n. by rewrite !Nat.sub_0_r, !drop_all.
    + rewrite Ho, usize_add_min. f_equal. unfold lost, len. rewrite length_app. lia.
  - assert (Hr : m / 2 - length (head_bytes b) = m / 2 - length s)
      by (rewrite Hh, length_take; lia).
    rewrite Hr, drop_min, take_min.
    set (b1 := if 0 <? _ then _ else b).
    assert (Hb1 : (max_bytes b1, head_budget b1, tail_budget b1, tail_bytes b1, omitted_bytes b1)
        = (max_bytes b, head_budget b, tail_budget b, tail_bytes b, omitted_bytes b) /\
      head_bytes b1 = take (m / 2) (s ++ ch)).
    { unfold b1. rewrite take_app, Hh. destruct (0 <? _) eqn:E1; simpl; [done|]. split; [done|].
      apply Nat.ltb_ge in E1. rewrite (nil_length_inv (take _ ch)), app_nil_r; [done|].
      rewrite length_take. lia. }
    destruct Hb1 as [[= E1 E2 E3 E4 E5] E6].
    destruct (push_to_tail_holds b1 (drop (m / 2) s) (drop (m / 2 - length s) ch) k) as ([= F1 F2 F3 F4] & F5 & F6).
    { by rewrite E4, E3, Htb. }
    { by rewrite E5, E3, Htb, Ho, lost_cut. }
    rewrite <-drop_app in F5, F6. rewrite E3, Htb in F5, F6.
    split; [congruence..|]. rewrite lost_cut. exact F6.
Qed.

Lemma push_chunks_holds m k s b cs :
  holds m k s b -> holds m k (s ++ concat cs) (fold_left push_chunk cs b).
Proof.
  revert s b. induction cs as [|c cs IH]; intros s b Hb; simpl; [by rewrite app_nil_r|].
  rewrite app_assoc. by apply IH, push_chunk_holds.
Qed.

Lemma holds_length m k s b : holds m k s b -> length (to_bytes b) = Nat.min m (length s).
Proof.
  intros [_ _ _ Hh Ht _]. unfold to_bytes.
  rewrite length_app, Hh, Ht, length_take, last_n_length, length_drop. pose proof (half_le m). lia.
Qed.

Lemma holds_whole m k s b : holds m k s b -> length s <= m -> to_bytes b = s.
Proof.
  intros [_ _ _ Hh Ht _] Hs. unfold to_bytes, last_n in *. rewrite Hh, Ht, length_drop.
  replace (length s - m / 2 - (m - m / 2)) with 0 by lia. rewrite drop_0. apply take_drop.
Qed.

(** Everything seen is counted. *)
Lemma holds_total m k s b : holds m k s b -> total_bytes b = N.min USIZE_MAX (len s + k).
Proof.
  intros Hb. pose proof (holds_length m k s b Hb) as Hl. unfold to_bytes in Hl. rewrite length_app in Hl.
  unfold total_bytes, retained_bytes, usize_add. rewrite (holds_omitted _ _ _ _ Hb). unfold lost, len. lia.
Qed.

Lemma drain_holds m k s b : holds m k s b -> holds m 0 [] (drain b).1 /\ (drain b).2 = b.
Proof.
  intros [Hm Hhb Htb _ _ _]. split; [|done]. split; try done; simpl; by rewrite ?take_nil, ?drop_nil.
Qed.

Lemma push_buffer_holds m k s b c :
  holds m k s b -> holds m (k + omitted_bytes c) (s ++ to_bytes c) (push_buffer b c).
Proof.
  intros Hb. pose proof (push_chunks_holds m k s b [head_bytes c; tail_bytes c] Hb) as Hc.
  simpl in Hc. rewrite app_nil_r in Hc. destruct Hc. split; try done. simpl.
  rewrite holds_omitted0, usize_add_min. f_equal. unfold to_bytes. lia.
Qed.

(** ** Collecting output while it is produced

    The reader of a process pushes into the live buffer under its lock;
    [collect_output_until_deadline] drains it under the lock and, with the lock
    released, appends what it got to the output collected. *)

Definition has_drained_output (drained : HeadTailBuffer) : bool :=
  ((0 <? retained_bytes drained) || (0 <? omitted_bytes drained))%N.

Record collection : Type := mkCollection {
  live : HeadTailBuffer;
  in_flight : option HeadTailBuffer;
  collected : HeadTailBuffer;
}.

Inductive collect_step : collection -> list N -> collection -> Prop :=
  | step_produce l f c chunk :
      collect_step (mkCollection l f c) chunk (mkCollection (push_chunk l chunk) f c)
  | step_drain l c :
      has_drained_output (drain l).2 = true ->
      collect_step (mkCollection l None c) [] (mkCollection (drain l).1 (Some (drain l).2) c)
  | step_idle l c :
      has_drained_output (drain l).2 = false ->
      collect_step (mkCollection l None c) [] (mkCollection (drain l).1 None c)
  | step_append l d c :
      collect_step (mkCollection l (Some d) c) [] (mkCollection l None (push_buffer c d)).

(** Any interleaving; the index is everything produced so far. *)
Inductive collecting (m : nat) : list N -> collection -> Prop :=
  | collecting_start : collecting m [] (mkCollection (new_buffer m) None (new_buffer m))
  | collecting_step s x chunk y :
      collecting m s x -> collect_step x chunk y -> collecting m (s ++ chunk) y.

Definition flight_total (f : option HeadTailBuffer) : N :=
  match f with Some d => total_bytes d | None => 0 end.
Definition flight_bytes (f : option HeadTailBuffer) : list N :=
  match f with Some d => to_bytes d | None => [] end.

(** The streams behind the three buffers. *)
Definition collection_inv (m : nat) (s : list N) (x : collection) : Prop :=
  exists k s1 s2 s3,
    holds m k s1 (collected x) /\ holds m 0 s3 (live x) /\
    match in_flight x with Some d => holds m 0 s2 d | None => s2 = [] end /\
    N.min USIZE_MAX (k + len s1 + len s2 + len s3) = N.min USIZE_MAX (len s) /\
    (length s <= m -> s = s1 ++ s2 ++ s3 /\ k = 0%N).

Lemma len_app {A} (a b : list A) : len (a ++ b) = (len a + len b)%N.
Proof. unfold len. rewrite length_app. lia. Qed.

Lemma idle_drained m s b : holds m 0 s b -> has_drained_output b = false -> s = [].
Proof.
  intros Hb. pose proof (holds_length _ _ _ _ Hb) as Hl. unfold to_bytes in Hl. rewrite length_app in Hl.
  unfold has_drained_output, retained_bytes, usize_add, len. rewrite (holds_omitted _ _ _ _ Hb).
  rewrite orb_false_iff, !N.ltb_ge. unfold lost, len, USIZE_MAX. intros [H1 H2].
  apply nil_length_inv. lia.
Qed.

Lemma collecting_inv m s x : collecting m s x -> collection_inv m s x.
Proof.
  induction 1 as [|s x chunk y _ IH Hstep].
  - exists 0%N, [], [], []. split; [apply new_holds|]. split; [apply new_holds|]. by split.
  - destruct IH as (k & s1 & s2 & s3 & Hc & Hl & Hf & Hk & Hw).
    destruct Hstep as [l f c chunk|l c _|l c Hidle|l d c]; simpl in Hc, Hl, Hf; unfold collection_inv; simpl.
    + exists k, s1, s2, (s3 ++ chunk). split; [done|]. split; [by apply push_chunk_holds|].
      split; [done|]. rewrite !len_app. split; [lia|]. rewrite length_app. intros Hs.
      destruct Hw as [-> ->]; [lia|]. by rewrite <-!app_assoc.
    + subst s2. destruct (drain_holds m 0 s3 l Hl) as [Hl' _]. rewrite app_nil_r.
      exists k, s1, s3, []. split; [done|]. split; [done|]. split; [done|]. split; [unfold len in *; simpl in *; lia|].
      by rewrite app_nil_r.
    + subst s2. destruct (drain_holds m 0 s3 l Hl) as [Hl' _]. rewrite app_nil_r.
      pose proof (idle_drained m s3 l Hl Hidle) as ->. by exists k, s1, [], [].
    + rewrite app_nil_r. exists (k + omitted_bytes d)%N, (s1 ++ to_bytes d), [], s3.
      split; [by apply push_buffer_holds|]. split; [done|]. split; [done|].
      pose proof (holds_length _ _ _ _ Hf) as Hd. rewrite (holds_omitted _ _ _ _ Hf).
      split; [rewrite len_app; unfold lost, len, USIZE_MAX in *; simpl in *; lia|].
      intros Hs. destruct Hw as [-> ->]; [done|]. rewrite !length_app in Hs.
      rewrite (holds_whole _ _ _ _ Hf) by lia. rewrite <-app_assoc. split; [done|].
      unfold lost, len, USIZE_MAX. lia.
Qed.

(** ** Theorems *)

(** C38.  Output pushed in any chunks: the buffer is the beginning of the stream
    up to half the cap, the end of what follows up to the rest of the cap, and
    the number of bytes between them, at the width of the counter; output within
    the cap is kept whole. *)
Theorem buffer_keeps_ends m cs :
  let s := concat cs in
  let b := fold_left push_chunk cs (new_buffer m) in
  head_bytes b = take (m / 2) s /\
  tail_bytes b = last_n (m - m / 2) (drop (m / 2) s) /\
  length (to_bytes b) = Nat.min m (length s) /\
  omitted_bytes b = N.min USIZE_MAX (len s - N.of_nat (Nat.min m (length s))) /\
  (length s <= m -> to_bytes b = s /\ to_bytes_with_omission_marker b = s).
Proof.
  simpl. pose proof (push_chunks_holds m 0 [] (new_buffer m) cs (new_holds m)) as Hb. simpl in Hb.
  pose proof (holds_omitted _ _ _ _ Hb) as Ho. rewrite N.add_0_r in Ho. unfold lost in Ho.
  split; [apply (holds_head _ _ _ _ Hb)|]. split; [apply (holds_tail _ _ _ _ Hb)|].
  split; [apply (holds_length _ _ _ _ Hb)|]. split; [done|].
  intros Hs. pose proof (holds_whole _ _ _ _ Hb Hs) as Hw. split; [done|].
  unfold to_bytes_with_omission_marker. rewrite Ho.
  replace (N.min _ _) with 0%N by (unfold len; lia). done.
Qed.

(** However the reader and the collector interleave, no byte goes
    unaccounted: what is collected, in flight and still live adds up to
    everything produced, each buffer within the cap; and while the output fits
    the cap, the three in this order are the output itself. *)
Theorem collection_accounts m s x :
  collecting m s x ->
  usize_add (usize_add (total_bytes (collected x)) (flight_total (in_flight x))) (total_bytes (live x))
    = N.min USIZE_MAX (len s) /\
  length (to_bytes (collected x)) <= m /\ length (to_bytes (live x)) <= m /\
  (length s <= m ->
   s = to_bytes (collected x) ++ flight_bytes (in_flight x) ++ to_bytes (live x) /\
   omitted_bytes (collected x) = 0%N).
Proof.
  intros (k & s1 & s2 & s3 & Hc & Hl & Hf & Hk & Hw)%collecting_inv.
  assert (Hft : flight_total (in_flight x) = N.min USIZE_MAX (len s2)).
  { destruct (in_flight x); simpl; [by rewrite (holds_total _ _ _ _ Hf), N.add_0_r|by subst s2]. }
  rewrite (holds_total _ _ _ _ Hc), (holds_total _ _ _ _ Hl), Hft, <-Hk.
  split; [unfold usize_add; lia|].
  rewrite (holds_length _ _ _ _ Hc), (holds_length _ _ _ _ Hl).
  split; [lia|]. split; [lia|]. intros Hs. destruct (Hw Hs) as [-> ->]. rewrite !length_app in Hs.
  rewrite (holds_whole _ _ _ _ Hc), (holds_whole _ _ _ _ Hl) by lia.
  rewrite (holds_omitted _ _ _ _ Hc). split; [|unfold lost, len, USIZE_MAX; lia].
  destruct (in_flight x); simpl; [|by subst s2]. by rewrite (holds_whole _ _ _ _ Hf) by lia.
Qed.

Lemma collection_accounts_witness :
  exists x, collecting 4 [1; 2; 3]%N x /\
    [1; 2; 3]%N = to_bytes (collected x) ++ flight_bytes (in_flight x) ++ to_bytes (live x).
Proof.
  assert (Hd : has_drained_output (drain (push_chunk (new_buffer 4) [1; 2]%N)).2 = true)
    by (vm_compute; reflexivity).
  pose proof (collecting_step 4 _ _ _ _
    (collecting_step 4 _ _ _ _ (collecting_start 4) (step_produce _ _ _ [1; 2]%N))
    (step_drain _ _ Hd)) as Hx.
  pose proof (collecting_step 4 _ _ [3]%N _ Hx (step_produce _ _ _ _)) as Hy. eexists. split; [exact Hy|].
  refine (proj1 (proj2 (proj2 (proj2 (collection_accounts 4 _ _ Hy))) _)). simpl. lia.
Defined.
