(* ===== verification/Truncate.v ===== *)
(** * Truncating text

    Models [utils/string/src/truncate.rs], [take_bytes_at_char_boundary] of
    [utils/string/src/lib.rs] and the truncation policies of
    [protocol/src/protocol.rs] ([TruncationPolicy]). Budgets and byte lengths
    have the width of [usize] ([N] with saturation); a slice of a string at a
    byte offset inside a character is [None], the panic of the source. *)

From Stdlib Require Import ZArith Lia.
From S2P Require Import Prelude RustStr Utf8 HeadTailBuffer.

(** ** Lengths and slices *)

(** [str::len]. *)
Definition blen (s : str) : N := N.of_nat (str_len s).

(** [s[..n]] and [s[n..]]; [None] off a character boundary. *)
Fixpoint slice_at (n : N) (s : str) : option (str * str) :=
  if (n =? 0)%N then Some ([], s)
  else match s with
       | [] => None
       | c :: s' =>
           let w := N.of_nat (utf8_char_len c) in
           if (n <? w)%N then None
           else match slice_at (n - w) s' with
                | Some (a, b) => Some (c :: a, b)
                | None => None
                end
       end.

Definition slice_to (n : N) (s : str) : option str := option_map fst (slice_at n s).
Definition slice_from (n : N) (s : str) : option str := option_map snd (slice_at n s).

Definition usize_sub (a b : N) : N := (a - b)%N.
Definition usize_mul (a b : N) : N := N.min USIZE_MAX (a * b).

(** ** Tokens *)

Definition APPROX_BYTES_PER_TOKEN : N := 4.

Definition approx_token_count (text : str) : N :=
  (usize_add (blen text) (usize_sub APPROX_BYTES_PER_TOKEN 1) / APPROX_BYTES_PER_TOKEN)%N.
Definition approx_bytes_for_tokens (tokens : N) : N := usize_mul tokens APPROX_BYTES_PER_TOKEN.
Definition approx_tokens_from_byte_count (bytes : N) : N :=
  (usize_add bytes (usize_sub APPROX_BYTES_PER_TOKEN 1) / APPROX_BYTES_PER_TOKEN)%N.

(** ** Splitting *)

(** The variables of the loop of [split_string]. *)
Record split_loop : Type := mkSplit {
  prefix_end : N;
  suffix_start : N;
  removed_chars : N;
  suffix_started : bool;
}.

Definition split_char (beginning_bytes tail_start_target idx : N) (ch : N) (x : split_loop)
    : split_loop :=
  let char_end := (idx + N.of_nat (utf8_char_len ch))%N in
  if (char_end <=? beginning_bytes)%N then
    mkSplit char_end (suffix_start x) (removed_chars x) (suffix_started x)
  else if (tail_start_target <=? idx)%N then
    if suffix_started x then x
    else mkSplit (prefix_end x) idx (removed_chars x) true
  else mkSplit (prefix_end x) (suffix_start x) (usize_add (removed_chars x) 1) (suffix_started x).

(** The loop over [char_indices]. *)
Fixpoint split_chars (beginning_bytes tail_start_target idx : N) (s : str) (x : split_loop)
    : split_loop :=
  match s with
  | [] => x
  | ch :: s' =>
      split_chars beginning_bytes tail_start_target (idx + N.of_nat (utf8_char_len ch)) s'
        (split_char beginning_bytes tail_start_target idx ch x)
  end.

Definition split_string (s : str) (beginning_bytes end_bytes : N) : option (N * str * str) :=
  match s with
  | [] => Some (0%N, [], [])
  | _ =>
      let tail_start_target := usize_sub (blen s) end_bytes in
      let x := split_chars beginning_bytes tail_start_target 0 s (mkSplit 0 (blen s) 0 false) in
      let start :=
        if (suffix_start x <? prefix_end x)%N then prefix_end x else suffix_start x in
      match slice_to (prefix_end x) s, slice_from start s with
      | Some before, Some after => Some (removed_chars x, before, after)
      | _, _ => None
      end
  end.

Definition split_budget (budget : N) : N * N :=
  let l := (budget / 2)%N in (l, (budget - l)%N).

Definition ELLIPSIS : str := Eval vm_compute in lit "…".

Definition format_truncation_marker (use_tokens : bool) (removed_count : N) : str :=
  if use_tokens
  then ELLIPSIS ++ show_N removed_count ++ lit " tokens truncated" ++ ELLIPSIS
  else ELLIPSIS ++ show_N removed_count ++ lit " chars truncated" ++ ELLIPSIS.

Definition removed_units (use_tokens : bool) (removed_bytes removed_chars : N) : N :=
  if use_tokens then approx_tokens_from_byte_count removed_bytes else removed_chars.

Definition assemble_truncated_output (prefix suffix marker : str) : str := prefix ++ marker ++ suffix.

Definition truncate_with_byte_estimate (s : str) (max_bytes : N) (use_tokens : bool) : option str :=
  match s with
  | [] => Some []
  | _ =>
      let total_chars := N.of_nat (length s) in
      if (max_bytes =? 0)%N then
        Some (format_truncation_marker use_tokens (removed_units use_tokens (blen s) total_chars))
      else if (blen s <=? max_bytes)%N then Some s
      else
        let '(left_budget, right_budget) := split_budget max_bytes in
        match split_string s left_budget right_budget with
        | None => None
        | Some (removed, before, after) =>
            let marker :=
              format_truncation_marker use_tokens
                (removed_units use_tokens (usize_sub (blen s) max_bytes) removed) in
            Some (assemble_truncated_output before after marker)
        end
  end.

Definition truncate_middle_chars (s : str) (max_bytes : N) : option str :=
  truncate_with_byte_estimate s max_bytes false.

Definition truncate_middle_with_token_budget (s : str) (max_tokens : N)
    : option (str * option N) :=
  match s with
  | [] => Some ([], None)
  | _ =>
      if ((0 <? max_tokens) && (blen s <=? approx_bytes_for_tokens max_tokens))%N then Some (s, None)
      else
        match truncate_with_byte_estimate s (approx_bytes_for_tokens max_tokens) true with
        | None => None
        | Some truncated =>
            if decide (truncated = s) then Some (truncated, None)
            else Some (truncated, Some (approx_token_count s))
        end
  end.

(** The loop of [take_bytes_at_char_boundary]: the last end that fits. *)
Fixpoint last_fitting (maxb idx last_ok : N) (s : str) : N :=
  match s with
  | [] => last_ok
  | ch :: s' =>
      let nb := (idx + N.of_nat (utf8_char_len ch))%N in
      if (maxb <? nb)%N then last_ok else last_fitting maxb nb nb s'
  end.

Definition take_bytes_at_char_boundary (s : str) (maxb : N) : option str :=
  if (blen s <=? maxb)%N then Some s else slice_to (last_fitting maxb 0 0 s) s.

(** ** Policies *)

Inductive TruncationPolicy : Type :=
  | Bytes (bytes : N)
  | Tokens (tokens : N).

Definition token_budget (p : TruncationPolicy) : N :=
  match p with
  | Bytes bytes => approx_tokens_from_byte_count bytes
  | Tokens tokens => tokens
  end.

Definition byte_budget (p : TruncationPolicy) : N :=
  match p with
  | Bytes bytes => bytes
  | Tokens tokens => approx_bytes_for_tokens tokens
  end.

Definition truncate_text (content : str) (p : TruncationPolicy) : option str :=
  match p with
  | Bytes bytes => truncate_middle_chars content bytes
  | Tokens tokens => option_map fst (truncate_middle_with_token_budget content tokens)
  end.

Definition formatted_truncate_text (content : str) (p : TruncationPolicy) : option str :=
  if (blen content <=? byte_budget p)%N then Some content
  else
    let original_token_count := approx_token_count content in
    let total_lines := N.of_nat (length (lines content)) in
    match truncate_text content p with
    | None => None
    | Some result =>
        Some (lit "Warning: truncated output (original token count: " ++ show_N original_token_count
              ++ lit ")" ++ [LF] ++ lit "Total output lines: " ++ show_N total_lines ++ [LF; LF]
              ++ result)
    end.

(** Tests of [truncate/tests.rs]. *)
Example split_examples :
  split_string (lit "hello world") 5 5 = Some (1%N, lit "hello", lit "world") /\
  split_string (lit "abcdef") 4 4 = Some (0%N, lit "abcd", lit "ef") /\
  split_string (lit "😀abc😀") 5 5 = Some (1%N, lit "😀a", lit "c😀") /\
  split_string (lit "😀😀😀😀😀") 7 7 = Some (3%N, lit "😀", lit "😀").
Proof. vm_compute. repeat split. Qed.

(** ** Where a string is split *)

Abbreviation cw c := (N.of_nat (utf8_char_len c)).

Lemma cw_pos c : (0 < cw c)%N.
Proof. unfold utf8_char_len. repeat case_match; lia. Qed.

Lemma blen_cons c s : blen (c :: s) = (cw c + blen s)%N.
Proof. unfold blen, str_len. simpl. lia. Qed.

Lemma blen_app a b : blen (a ++ b) = (blen a + blen b)%N.
Proof. induction a as [|c a IH]; [done|]. simpl. rewrite !blen_cons, IH. lia. Qed.

Lemma blen_nil : blen [] = 0%N.
Proof. done. Qed.

Lemma slice_at_app a b : slice_at (blen a) (a ++ b) = Some (a, b).
Proof.
  induction a as [|c a IH]; [by destruct b|]. rewrite blen_cons. cbn [app slice_at].
  pose proof (cw_pos c). rewrite (proj2 (N.eqb_neq _ 0)) by lia.
  rewrite (proj2 (N.ltb_ge _ _)) by lia. replace (cw c + blen a - cw c)%N with (blen a) by lia.
  by rewrite IH.
Qed.

Section Split.
Context (b t : N).

(** No character from [idx] on fits the beginning. *)
Definition nofit (idx : N) (s : str) : Prop :=
  match s with [] => True | c :: _ => (b < idx + cw c)%N end.

Lemma nofit_next idx c s : (b < idx + cw c)%N -> nofit (idx + cw c) s.
Proof using. intros H. destruct s as [|d s]; [done|]. simpl. pose proof (cw_pos d). lia. Qed.

(** Once the end has started, everything belongs to it. *)
Lemma split_after idx s x :
  nofit idx s -> (t <= idx)%N -> suffix_started x = true -> split_chars b t idx s x = x.
Proof using.
  revert idx. induction s as [|c s IH]; intros idx Hn Ht Hx; [done|]. simpl in Hn |- *.
  unfold split_char. rewrite (proj2 (N.leb_gt _ _)), (proj2 (N.leb_le _ _)), Hx by lia.
  apply IH; [by apply nofit_next|lia|done].
Qed.

(** The middle is counted up to where the end starts. *)
Lemma split_middle idx s x :
  nofit idx s -> suffix_started x = false -> (removed_chars x <= USIZE_MAX)%N ->
  exists mid z, s = mid ++ z /\
    split_chars b t idx s x
    = mkSplit (prefix_end x) (match z with [] => suffix_start x | _ => (idx + blen mid)%N end)
        (N.min USIZE_MAX (removed_chars x + len mid)) (match z with [] => false | _ => true end) /\
    (z <> [] -> (t <= idx + blen mid)%N) /\
    (forall m c, mid = m ++ [c] -> (idx + blen m < t)%N).
Proof using.
  revert idx x. induction s as [|c s IH]; intros idx x Hn Hx Hr.
  { exists [], []. split; [done|]. split; [|split; [done|by intros [] ?]].
    destruct x. simpl in *. subst. f_equal. unfold len. simpl. lia. }
  simpl in Hn. cbn [split_chars]. unfold split_char. rewrite (proj2 (N.leb_gt _ _)) by lia.
  destruct (t <=? idx)%N eqn:E.
  - apply N.leb_le in E. rewrite Hx. exists [], (c :: s). split; [done|]. split.
    + rewrite split_after; [|by apply nofit_next|lia|done]. cbn [blen].
      rewrite blen_nil. f_equal; unfold len; simpl; lia.
    + split; [intros _; rewrite blen_nil; lia|by intros [] ?].
  - apply N.leb_gt in E.
    destruct (IH (idx + cw c)%N (mkSplit (prefix_end x) (suffix_start x)
      (usize_add (removed_chars x) 1) (suffix_started x))) as (mid & z & -> & Hs & Hz & Hm);
      [by apply nofit_next|done|unfold usize_add; simpl; lia|].
    exists (c :: mid), z. split; [done|]. split; [|split].
    + rewrite Hs. cbn [prefix_end suffix_start removed_chars].
      f_equal; [destruct z; [done|rewrite blen_cons; lia]|]. unfold usize_add, len. simpl. lia.
    + intros Hne. specialize (Hz Hne). rewrite blen_cons. lia.
    + intros [|d m] c' Heq; injection Heq as ->; [rewrite blen_nil; lia|].
      intros. rewrite blen_cons. specialize (Hm m c' H). lia.
Qed.

(** The beginning is the longest that fits. *)
Lemma split_before idx s x :
  exists a r, s = a ++ r /\ nofit (idx + blen a) r /\ (a = [] \/ idx + blen a <= b)%N /\
    split_chars b t idx s x
    = split_chars b t (idx + blen a) r
        (match a with
         | [] => x
         | _ => mkSplit (idx + blen a) (suffix_start x) (removed_chars x) (suffix_started x)
         end).
Proof using.
  revert idx x. induction s as [|c s IH]; intros idx x.
  { exists [], []. rewrite blen_nil, N.add_0_r. split; [done|]. split; [done|]. split; [by left|done]. }
  cbn [split_chars]. destruct (idx + cw c <=? b)%N eqn:E.
  - apply N.leb_le in E.
    destruct (IH (idx + cw c)%N (split_char b t idx c x)) as (a & r & -> & Hn & Ha & Hs).
    exists (c :: a), r. rewrite blen_cons, N.add_assoc. split; [done|]. split; [done|].
    split; [right; destruct Ha as [->|]; [rewrite blen_nil; lia|done]|]. rewrite Hs. f_equal.
    unfold split_char. rewrite (proj2 (N.leb_le _ _)) by lia. simpl. destruct a; [|done].
    by rewrite blen_nil, N.add_0_r.
  - apply N.leb_gt in E. exists [], (c :: s). rewrite blen_nil, N.add_0_r.
    split; [done|]. split; [done|]. split; [by left|done].
Qed.
End Split.

(** [before] and [after] are the longest ends of [s] within the budgets that
    do not overlap; [mid] is what is left out. *)
Record splits (s : str) (b e : N) (before mid after : str) : Prop := mkSplits {
  splits_whole : s = before ++ mid ++ after;
  splits_before : (blen before <= b)%N;
  splits_after : (blen after <= e)%N;
  splits_before_longest : forall c r, mid = c :: r -> (b < blen (before ++ [c]))%N;
  splits_after_longest : forall r c, mid = r ++ [c] -> (e < blen (c :: after))%N;
}.

Lemma split_string_exact s b e :
  exists before mid after, splits s b e before mid after /\
    split_string s b e = Some (N.min USIZE_MAX (len mid), before, after).
Proof.
  destruct s as [|c0 s0].
  { exists [], [], []. split; [|done]. split; rewrite ?blen_nil; try done; try lia. by intros [] ?. }
  set (s := c0 :: s0). unfold split_string. fold s.
  change (match s with [] => ?x | _ => ?y end) with y. clearbody s. clear.
  set (t := usize_sub (blen s) e).
  destruct (split_before b t 0 s (mkSplit 0 (blen s) 0 false)) as (a & r & -> & Hn & Ha & ->).
  rewrite N.add_0_l in *.
  set (x := match a with [] => _ | _ => _ end).
  assert (Hx : x = mkSplit (blen a) (blen (a ++ r)) 0 false) by (unfold x; by destruct a). clearbody x.
  destruct (split_middle b t (blen a) r x Hn) as (mid & z & -> & -> & Hz & Hm);
    [by rewrite Hx|by rewrite Hx; simpl; unfold USIZE_MAX; lia|].
  subst x. cbn [prefix_end suffix_start removed_chars].
  assert (Hst : match z with [] => blen (a ++ mid ++ z) | _ => (blen a + blen mid)%N end = blen (a ++ mid)).
  { destruct z; rewrite !blen_app, ?blen_nil; lia. }
  rewrite Hst, (proj2 (N.ltb_ge _ _)) by (rewrite blen_app; lia).
  unfold slice_to, slice_from. rewrite slice_at_app, app_assoc, slice_at_app. simpl.
  exists a, mid, z. split; [|by rewrite N.add_0_l]. subst t. unfold usize_sub in *. rewrite !blen_app in *.
  split.
  - by rewrite app_assoc.
  - destruct Ha as [->|Ha]; [rewrite blen_nil; lia|lia].
  - destruct z as [|d z]; [rewrite blen_nil; lia|]. specialize (Hz ltac:(done)). lia.
  - intros d r ->. simpl in Hn. rewrite blen_app, blen_cons, blen_nil. lia.
  - intros r d ->. specialize (Hm r d eq_refl). rewrite !blen_app, !blen_cons, !blen_nil in *. lia.
Qed.

(** Over the budget something is left out. *)
Lemma splits_removes s b e before mid after :
  splits s b e before mid after -> (b + e < blen s)%N -> mid <> [].
Proof. intros [-> Hb He _ _] Hs ->. simpl in Hs. rewrite blen_app in Hs. lia. Qed.

Lemma split_budget_sum n : ((split_budget n).1 + (split_budget n).2 = n)%N.
Proof. unfold split_budget. simpl. pose proof (N.Div0.div_le_mono 0 n 2). pose proof (N.Div0.div_le_upper_bound n 2 n). lia. Qed.

(** What a truncated text is. *)
Inductive truncated (s : str) (max : N) (use_tokens : bool) : str -> Prop :=
  | truncated_empty : s = [] -> truncated s max use_tokens []
  | truncated_all :
      s <> [] -> max = 0%N ->
      truncated s max use_tokens
        (format_truncation_marker use_tokens (removed_units use_tokens (blen s) (len s)))
  | truncated_fits : s <> [] -> (0 < max)%N -> (blen s <= max)%N -> truncated s max use_tokens s
  | truncated_middle before mid after :
      (0 < max < blen s)%N -> splits s (max / 2) (max - max / 2) before mid after -> mid <> [] ->
      truncated s max use_tokens
        (before ++ format_truncation_marker use_tokens
           (removed_units use_tokens (blen s - max) (N.min USIZE_MAX (len mid))) ++ after).

Lemma truncate_truncated s max use_tokens :
  exists out, truncate_with_byte_estimate s max use_tokens = Some out /\ truncated s max use_tokens out.
Proof.
  unfold truncate_with_byte_estimate. destruct s as [|c s]; [eexists; split; [done|by constructor]|].
  set (w := c :: s). assert (Hw : w <> []) by done.
  change (match w with [] => ?x | _ => ?y end) with y. clearbody w.
  destruct (max =? 0)%N eqn:E0.
  { apply N.eqb_eq in E0. eexists. split; [done|]. by apply truncated_all. }
  apply N.eqb_neq in E0. destruct (blen w <=? max)%N eqn:E1.
  { apply N.leb_le in E1. eexists. split; [done|]. apply truncated_fits; [done|lia|done]. }
  apply N.leb_gt in E1. pose proof (split_budget_sum max) as Hsum. unfold split_budget in *. simpl in Hsum.
  destruct (split_string_exact w (max / 2) (max - max / 2)) as (before & mid & after & Hsp & ->).
  eexists. split; [done|]. apply truncated_middle; [lia|done|].
  eapply splits_removes; [exact Hsp|]. lia.
Qed.

(** ** Prefixes *)

Lemma last_fitting_prefix maxb idx s :
  (idx <= maxb)%N ->
  exists a r, s = a ++ r /\ last_fitting maxb idx idx s = (idx + blen a)%N /\
    (idx + blen a <= maxb)%N /\ (forall c r', r = c :: r' -> (maxb < idx + blen a + cw c)%N).
Proof.
  revert idx. induction s as [|c s IH]; intros idx Hi; cbn [last_fitting].
  { exists [], []. rewrite blen_nil. split; [done|]. split; [lia|]. split; [lia|done]. }
  destruct (maxb <? idx + cw c)%N eqn:E.
  - apply N.ltb_lt in E. exists [], (c :: s). rewrite blen_nil. split; [done|]. split; [lia|].
    split; [lia|]. intros d r' [= -> ->]. lia.
  - apply N.ltb_ge in E. destruct (IH (idx + cw c)%N E) as (a & r & -> & Hl & Hm & Hx).
    exists (c :: a), r. rewrite blen_cons, N.add_assoc. done.
Qed.

(** The longest beginning within the budget; the slice is at a character
    boundary. *)
Lemma take_bytes_longest s maxb :
  exists a r, s = a ++ r /\ take_bytes_at_char_boundary s maxb = Some a /\ (blen a <= maxb)%N /\
    (forall c r', r = c :: r' -> (maxb < blen (a ++ [c]))%N).
Proof.
  unfold take_bytes_at_char_boundary. destruct (blen s <=? maxb)%N eqn:E.
  - apply N.leb_le in E. exists s, []. by rewrite app_nil_r.
  - destruct (last_fitting_prefix maxb 0 s) as (a & r & -> & Hl & Hm & Hx); [lia|].
    exists a, r. rewrite N.add_0_l in *. unfold slice_to. rewrite Hl, slice_at_app.
    split; [done|]. split; [done|]. split; [done|].
    intros c r' ->. rewrite blen_app, blen_cons, blen_nil. specialize (Hx c r' eq_refl). lia.
Qed.

(** ** Theorems *)

Definition in_tokens (p : TruncationPolicy) : bool :=
  match p with Bytes _ => false | Tokens _ => true end.

(** Truncation to a policy never cuts inside a character: the result is the
    text if it fits the policy's bytes, and otherwise the longest beginning and
    end within the halves of the budget with a marker between them; with no
    budget, only the marker. The marker counts the characters left out, or in
    tokens the bytes over the budget, which may be fewer than were left out. *)
Theorem truncate_text_exact s p :
  exists out, truncate_text s p = Some out /\ truncated s (byte_budget p) (in_tokens p) out.
Proof.
  destruct p as [n|n]; cbn [truncate_text byte_budget in_tokens]; [apply truncate_truncated|].
  unfold truncate_middle_with_token_budget. destruct s as [|c s].
  { exists []. split; [done|by constructor]. }
  case_match; rename H into E.
  - apply andb_true_iff in E as [E1%N.ltb_lt E2%N.leb_le]. eexists. split; [done|].
    apply truncated_fits; [done| |done].
    unfold approx_bytes_for_tokens, usize_mul, APPROX_BYTES_PER_TOKEN, USIZE_MAX. lia.
  - destruct (truncate_truncated (c :: s) (approx_bytes_for_tokens n) true) as (out & -> & Ht).
    exists out. by case_decide.
Qed.

