(* ===== verification/Template.v ===== *)
(** * Templates

    Models [utils/template/src/lib.rs]: the strict templates of prompts and text
    assets, their parsing and rendering. The cursor of the parser is the text
    that is left and its byte offset; the literal since [literal_start] is
    carried along. [BTreeSet] and [BTreeMap] are lists in the order of their
    keys. *)

From Stdlib Require Import ZArith Lia Sorted.
From S2P Require Import Prelude RustStr Utf8 HeadTailBuffer Truncate.

Inductive TemplateParseError : Type :=
  | EmptyPlaceholder (start : N)
  | NestedPlaceholder (start : N)
  | UnmatchedClosingDelimiter (start : N)
  | UnterminatedPlaceholder (start : N).

Inductive TemplateRenderError : Type :=
  | DuplicateValue (name : str)
  | ExtraValue (name : str)
  | MissingValue (name : str).

Inductive TemplateError : Type :=
  | ParseError (e : TemplateParseError)
  | RenderError (e : TemplateRenderError).

Inductive Segment : Type :=
  | Literal (s : str)
  | Placeholder (name : str).

Record Template : Type := mkTemplate {
  placeholders : list str;
  segments : list Segment;
}.

(** ** Ordered sets and maps *)

(** [BTreeSet::insert]. *)
Fixpoint bset_insert (x : str) (l : list str) : list str :=
  match l with
  | [] => [x]
  | y :: l' =>
      match str_compare x y with
      | Lt => x :: l
      | Eq => l
      | Gt => y :: bset_insert x l'
      end
  end.

(** [BTreeMap::insert], with the value it replaces. *)
Fixpoint bmap_insert (k v : str) (m : list (str * str)) : list (str * str) * option str :=
  match m with
  | [] => ([(k, v)], None)
  | (k', v') :: m' =>
      match str_compare k k' with
      | Lt => ((k, v) :: m, None)
      | Eq => ((k', v) :: m', Some v')
      | Gt => let '(m2, old) := bmap_insert k v m' in ((k', v') :: m2, old)
      end
  end.

Fixpoint bmap_get (k : str) (m : list (str * str)) : option str :=
  match m with
  | [] => None
  | (k', v) :: m' => if bool_decide (k = k') then Some v else bmap_get k m'
  end.

(** ** Parsing *)

Definition OPEN : str := Eval vm_compute in lit "{{".
Definition CLOSE : str := Eval vm_compute in lit "}}".
Definition OPEN_ESCAPE : str := Eval vm_compute in lit "{{{{".
Definition CLOSE_ESCAPE : str := Eval vm_compute in lit "}}}}".

Definition push_literal (segs : list Segment) (literal : str) : list Segment :=
  if is_empty literal then segs
  else match last segs with
       | Some (Literal existing) => removelast segs ++ [Literal (existing ++ literal)]
       | _ => segs ++ [Literal literal]
       end.

(** The loop of [parse_placeholder]: the name, the text after the closing
    delimiter and the length of what was read. *)
Fixpoint parse_placeholder (start : N) (acc rest : str) : result (str * str * N) TemplateParseError :=
  if starts_with OPEN rest then Err (NestedPlaceholder start)
  else if starts_with CLOSE rest then
    let name := trim acc in
    if is_empty name then Err (EmptyPlaceholder start)
    else Ok (name, drop 2 rest, (blen acc + 2)%N)
  else match rest with
       | [] => Err (UnterminatedPlaceholder start)
       | ch :: rest' => parse_placeholder start (acc ++ [ch]) rest'
       end.

(** The loop of [parse], at most [fuel] turns. *)
Fixpoint parse_loop (fuel : nat) (names : list str) (segs : list Segment) (literal : str) (cursor : N)
    (rest : str) : option (result Template TemplateParseError) :=
  match fuel with
  | 0 => None
  | S fuel' =>
      match rest with
      | [] => Some (Ok (mkTemplate names (push_literal segs literal)))
      | ch :: rest' =>
          if starts_with OPEN_ESCAPE rest then
            parse_loop fuel' names (push_literal (push_literal segs literal) OPEN) [] (cursor + 4) (drop 4 rest)
          else if starts_with CLOSE_ESCAPE rest then
            parse_loop fuel' names (push_literal (push_literal segs literal) CLOSE) [] (cursor + 4) (drop 4 rest)
          else if starts_with OPEN rest then
            match parse_placeholder cursor [] (drop 2 rest) with
            | Err e => Some (Err e)
            | Ok (name, rest2, n) =>
                parse_loop fuel' (bset_insert name names)
                  (push_literal segs literal ++ [Placeholder name]) [] (cursor + 2 + n) rest2
            end
          else if starts_with CLOSE rest then Some (Err (UnmatchedClosingDelimiter cursor))
          else parse_loop fuel' names segs (literal ++ [ch]) (cursor + N.of_nat (utf8_char_len ch)) rest'
      end
  end.

(** Every turn reads a character, so one turn more than there are is enough. *)
Definition parse (source : str) : result Template TemplateParseError :=
  match parse_loop (S (length source)) [] [] [] 0 source with
  | Some r => r
  | None => Err (UnterminatedPlaceholder 0)
  end.

(** ** Rendering *)

Fixpoint build_variable_map (m : list (str * str)) (variables : list (str * str))
    : result (list (str * str)) TemplateRenderError :=
  match variables with
  | [] => Ok m
  | (name, value) :: rest =>
      let '(m, old) := bmap_insert name value m in
      match old with
      | Some _ => Err (DuplicateValue name)
      | None => build_variable_map m rest
      end
  end.

Fixpoint render_segments (m : list (str * str)) (segs : list Segment) : result str TemplateRenderError :=
  match segs with
  | [] => Ok []
  | Literal l :: segs' => let? r := render_segments m segs' in Ok (l ++ r)
  | Placeholder name :: segs' =>
      match bmap_get name m with
      | None => Err (MissingValue name)
      | Some value => let? r := render_segments m segs' in Ok (value ++ r)
      end
  end.

Definition render_template (t : Template) (variables : list (str * str)) : result str TemplateRenderError :=
  let? m := build_variable_map [] variables in
  match find (fun p => match bmap_get p m with None => true | Some _ => false end) (placeholders t) with
  | Some p => Err (MissingValue p)
  | None =>
      match find (fun kv => negb (bool_decide (kv.1 ∈ placeholders t))) m with
      | Some (name, _) => Err (ExtraValue name)
      | None => render_segments m (segments t)
      end
  end.

Definition render (template : str) (variables : list (str * str)) : result str TemplateError :=
  match parse template with
  | Err e => Err (ParseError e)
  | Ok t => map_err RenderError (render_template t variables)
  end.

Example render_examples :
  render (lit "literal open: {{{{, literal close: }}}}, value: {{ name }}") [(lit "name", lit "Codex")]
    = Ok (lit "literal open: {{, literal close: }}, value: Codex") /\
  render (lit "Hello, {{ outer {{ inner }} }}.") [] = Err (ParseError (NestedPlaceholder 7)) /\
  render (lit "Hello, {{ name }}.") [(lit "extra", lit "x")]
    = Err (RenderError (MissingValue (lit "name"))).
Proof. vm_compute. repeat split. Qed.

(** ** The parser ends *)

Lemma parse_placeholder_shorter start acc rest name rest2 n :
  parse_placeholder start acc rest = Ok (name, rest2, n) -> length rest2 < length rest.
Proof.
  revert acc. induction rest as [|ch rest IH]; intros acc; cbn [parse_placeholder];
    (case_match; [done|]); case_match; try done.
  - case_match; [done|]. intros [= <- <- <-]. rewrite length_drop. simpl. lia.
  - intros Hp. apply IH in Hp. simpl. lia.
Qed.

Lemma parse_loop_total fuel names segs literal cursor rest :
  length rest < fuel -> exists r, parse_loop fuel names segs literal cursor rest = Some r.
Proof.
  revert names segs literal cursor rest. induction fuel as [|fuel IH]; intros names segs literal cursor rest Hf; [lia|].
  destruct rest as [|ch rest]; [by eexists|]. cbn [parse_loop]. simpl length in Hf.
  case_match; [apply IH; rewrite length_drop; simpl; lia|].
  case_match; [apply IH; rewrite length_drop; simpl; lia|].
  case_match; [|case_match; [by eexists|apply IH; simpl; lia]].
  destruct (parse_placeholder _ _ _) as [[[name rest2] n]|e] eqn:E; [|by eexists].
  apply IH. apply parse_placeholder_shorter in E. rewrite length_drop in E. simpl in E. lia.
Qed.

Lemma parse_loop_more fuel fuel' names segs literal cursor rest r :
  parse_loop fuel names segs literal cursor rest = Some r -> fuel <= fuel' ->
  parse_loop fuel' names segs literal cursor rest = Some r.
Proof.
  revert fuel' names segs literal cursor rest.
  induction fuel as [|fuel IH]; intros fuel' names segs literal cursor rest; [done|].
  destruct fuel' as [|fuel']; [intros; lia|]. intros Hr Hle. destruct rest as [|ch rest]; [done|].
  cbn [parse_loop] in *. repeat (case_match; [by apply IH; [|lia]|]).
  case_match; [|case_match; [done|by apply IH; [|lia]]].
  destruct (parse_placeholder _ _ _) as [[[name rest2] n]|e]; [|done]. by apply IH; [|lia].
Qed.

(** ** Steps of the parser *)

Lemma push_literal_nil segs : push_literal segs [] = segs.
Proof. done. Qed.

Lemma push_literal_app segs a b : push_literal (push_literal segs a) b = push_literal segs (a ++ b).
Proof.
  unfold push_literal. destruct a as [|x a]; [done|]. destruct b as [|y b]; [by rewrite app_nil_r|].
  cbn [is_empty app]. destruct (last segs) as [[e|n]|]; rewrite last_snoc, removelast_snoc; [|done|done].
  by rewrite <-app_assoc.
Qed.

(** Only the segments with the literal pushed matter. *)
Lemma parse_loop_literal fuel names segs literal cursor rest :
  parse_loop fuel names segs literal cursor rest
  = parse_loop fuel names (push_literal segs literal) [] cursor rest.
Proof.
  revert names segs literal cursor rest.
  induction fuel as [|fuel IH]; intros names segs literal cursor rest; [done|].
  destruct rest as [|ch rest]; cbn [parse_loop]; rewrite ?push_literal_nil; [done|].
  do 2 (case_match; [done|]). case_match; [done|]. case_match; [done|].
  rewrite IH, (IH _ (push_literal segs literal)). by rewrite push_literal_app.
Qed.

(** [parses names segs rest r]: from these segments the rest gives [r], whatever
    the offset. *)
Definition parses (names : list str) (segs : list Segment) (rest : str) (t : Template) : Prop :=
  forall cursor, exists fuel, parse_loop fuel names segs [] cursor rest = Some (Ok t).

Lemma parses_parse source t : parses [] [] source t -> parse source = Ok t.
Proof.
  intros Hp. destruct (Hp 0%N) as [fuel Hf]. unfold parse.
  destruct (parse_loop_total (S (length source)) [] [] [] 0 source) as [r Hr]; [lia|]. rewrite Hr.
  pose proof (parse_loop_more _ (fuel + S (length source)) _ _ _ _ _ _ Hf ltac:(lia)) as H1.
  pose proof (parse_loop_more _ (fuel + S (length source)) _ _ _ _ _ _ Hr ltac:(lia)) as H2. congruence.
Qed.

Lemma parses_nil names segs : parses names segs [] (mkTemplate names segs).
Proof. intros cursor. by exists 1. Qed.

Lemma parses_open_escape names segs rest t :
  parses names (push_literal segs OPEN) rest t -> parses names segs (OPEN_ESCAPE ++ rest) t.
Proof. intros Hp cursor. destruct (Hp (cursor + 4)%N) as [fuel Hf]. by exists (S fuel). Qed.

Lemma parses_close_escape names segs rest t :
  parses names (push_literal segs CLOSE) rest t -> parses names segs (CLOSE_ESCAPE ++ rest) t.
Proof. intros Hp cursor. destruct (Hp (cursor + 4)%N) as [fuel Hf]. by exists (S fuel). Qed.

(** A delimiter does not start here. *)
Definition plain (s : str) : Prop := starts_with OPEN s = false /\ starts_with CLOSE s = false.

Lemma starts_with_double p s : starts_with (p ++ p) s = true -> starts_with p s = true.
Proof. rewrite !starts_with_true. intros [r ->]. exists (p ++ r). by rewrite app_assoc. Qed.

Lemma parses_char names segs ch rest t :
  plain (ch :: rest) -> parses names (push_literal segs [ch]) rest t -> parses names segs (ch :: rest) t.
Proof.
  intros [Ho Hc] Hp cursor. destruct (Hp (cursor + N.of_nat (utf8_char_len ch))%N) as [fuel Hf].
  exists (S fuel). cbn [parse_loop].
  assert (starts_with OPEN_ESCAPE (ch :: rest) = false) as ->.
  { apply not_true_iff_false. intros He%(starts_with_double OPEN). congruence. }
  assert (starts_with CLOSE_ESCAPE (ch :: rest) = false) as ->.
  { apply not_true_iff_false. intros He%(starts_with_double CLOSE). congruence. }
  rewrite Ho, Hc. by rewrite parse_loop_literal.
Qed.

(** ** Printing *)

Definition LBRACE : N := 123.
Definition RBRACE : N := 125.

(** Delimiters in a literal doubled, from the left. *)
Fixpoint escape (s : str) : str :=
  match s with
  | c :: ((d :: s') as t) =>
      if ((c =? LBRACE) && (d =? LBRACE))%N then OPEN_ESCAPE ++ escape s'
      else if ((c =? RBRACE) && (d =? RBRACE))%N then CLOSE_ESCAPE ++ escape s'
      else c :: escape t
  | _ => s
  end.

Definition print_segment (s : Segment) : str :=
  match s with
  | Literal l => escape l
  | Placeholder name => OPEN ++ [SPACE] ++ name ++ [SPACE] ++ CLOSE
  end.

Definition print_segments (segs : list Segment) : str := concat (map print_segment segs).

(** A name that can be written: trimmed, not empty, without delimiters. *)
Definition name_ok (n : str) : Prop :=
  n <> [] /\ trim n = n /\ contains OPEN n = false /\ contains CLOSE n = false.

(** Segments as the parser makes them; a literal before a placeholder does not
    end in an opening brace, which would be read with the delimiter. *)
Fixpoint segs_ok (segs : list Segment) : Prop :=
  match segs with
  | [] => True
  | Literal l :: rest =>
      l <> [] /\ segs_ok rest /\
      match rest with
      | Literal _ :: _ => False
      | Placeholder _ :: _ => last l <> Some LBRACE
      | [] => True
      end
  | Placeholder n :: rest => name_ok n /\ segs_ok rest
  end.

Definition names_of (segs : list Segment) : list str :=
  omap (fun s => match s with Placeholder n => Some n | Literal _ => None end) segs.

Lemma starts_with_two a b s :
  starts_with [a; b] s = match s with x :: y :: _ => ((a =? x) && (b =? y))%N | _ => false end.
Proof.
  unfold starts_with. destruct s as [|x [|y s]]; simpl; [done|by destruct (a =? x)%N|].
  destruct (a =? x)%N, (b =? y)%N; done.
Qed.

Lemma escape_head d s : head (escape (d :: s)) = Some d.
Proof.
  destruct s as [|e s]; [done|]. cbn [escape].
  destruct ((d =? LBRACE) && (e =? LBRACE))%N eqn:E1.
  { apply andb_true_iff in E1 as [->%N.eqb_eq _]. done. }
  destruct ((d =? RBRACE) && (e =? RBRACE))%N eqn:E2; [|done].
  apply andb_true_iff in E2 as [->%N.eqb_eq _]. done.
Qed.

(** What follows a literal does not join its last brace. *)
Definition separate (l rest : str) : Prop :=
  forall c d, last l = Some c -> head rest = Some d ->
  ((c =? LBRACE) && (d =? LBRACE) = false /\ (c =? RBRACE) && (d =? RBRACE) = false)%N.

Lemma plain_pair c s :
  (forall d, head s = Some d -> ((c =? LBRACE) && (d =? LBRACE) = false /\ (c =? RBRACE) && (d =? RBRACE) = false)%N) ->
  plain (c :: s).
Proof.
  intros H. unfold plain, OPEN, CLOSE. rewrite !starts_with_two. destruct s as [|d s]; [done|].
  destruct (H d eq_refl) as [H1 H2]. unfold LBRACE, RBRACE in *.
  by rewrite (N.eqb_sym 123 c), (N.eqb_sym 123 d), (N.eqb_sym 125 c), (N.eqb_sym 125 d).
Qed.

Lemma parses_escape names l segs rest t :
  separate l rest -> parses names (push_literal segs l) rest t -> parses names segs (escape l ++ rest) t.
Proof.
  remember (length l) as m eqn:Hm. revert l segs Hm.
  induction (lt_wf m) as [m _ IH]. intros l segs -> Hsep Hp. destruct l as [|c [|d l]].
  - done.
  - apply parses_char; [|done]. apply plain_pair. intros d Hd. by apply (Hsep c d).
  - cbn [escape].
    assert (Hsep' : separate l rest).
    { intros x y Hx. apply Hsep. by destruct l. }
    destruct ((c =? LBRACE) && (d =? LBRACE))%N eqn:E1.
    { apply andb_true_iff in E1 as [->%N.eqb_eq ->%N.eqb_eq]. rewrite <-app_assoc.
      apply parses_open_escape, (IH (length l)); [simpl; lia|done|done|]. by rewrite push_literal_app. }
    destruct ((c =? RBRACE) && (d =? RBRACE))%N eqn:E2.
    { apply andb_true_iff in E2 as [->%N.eqb_eq ->%N.eqb_eq]. rewrite <-app_assoc.
      apply parses_close_escape, (IH (length l)); [simpl; lia|done|done|]. by rewrite push_literal_app. }
    cbn [app]. apply parses_char.
    + apply plain_pair. intros e He. pose proof (escape_head d l) as Hd.
      change (head (escape (d :: l) ++ rest) = Some e) in He.
      assert (e = d) as -> by (destruct (escape (d :: l)); [done|]; simpl in He, Hd; congruence). done.
    + change (parses names (push_literal segs [c]) (escape (d :: l) ++ rest) t).
      apply (IH (length (d :: l))); [simpl; lia|done|by intros x y Hx; apply Hsep|]. by rewrite push_literal_app.
Qed.

(** The body of a placeholder is read up to its closing delimiter. *)
Lemma parse_placeholder_body start acc body rest :
  (forall a b, body = a ++ b -> b <> [] -> plain (b ++ CLOSE ++ rest)) ->
  trim (acc ++ body) <> [] ->
  parse_placeholder start acc (body ++ CLOSE ++ rest)
  = Ok (trim (acc ++ body), rest, (blen (acc ++ body) + 2)%N).
Proof.
  revert acc. induction body as [|c body IH]; intros acc Hplain Hne.
  - rewrite app_nil_r in *. simpl. by destruct (trim acc).
  - destruct (Hplain [] (c :: body) eq_refl ltac:(done)) as [Ho Hc].
    cbn [app] in Ho, Hc |- *. cbn [parse_placeholder]. rewrite Ho, Hc, IH.
    + by rewrite <-app_assoc.
    + intros a b -> Hb. by apply (Hplain (c :: a)).
    + by rewrite <-app_assoc.
Qed.

(** Spaces around a name bring no delimiter in. *)
Lemma contains_spaced x n : contains [x; x] n = false -> x <> SPACE -> contains [x; x] ([SPACE] ++ n ++ [SPACE]) = false.
Proof.
  intros Hn Hx. apply not_true_iff_false. intros (a & b & Heq)%contains_true.
  destruct a as [|y a]; [simplify_eq/=|]. simpl in Heq. injection Heq as _ Heq.
  destruct b as [|z b _] using rev_ind.
  - apply (f_equal last) in Heq. rewrite last_snoc, last_app_cons in Heq. simpl in Heq. congruence.
  - replace (a ++ x :: x :: b ++ [z]) with ((a ++ x :: x :: b) ++ [z]) in Heq by by rewrite <-app_assoc.
    apply app_inj_2 in Heq as [-> _]; [|done].
    apply not_true_iff_false in Hn. apply Hn, contains_true. by exists a, b.
Qed.

Lemma plain_app b s : 2 <= length b -> plain b -> plain (b ++ s).
Proof.
  unfold plain, OPEN, CLOSE. rewrite !starts_with_two. destruct b as [|x [|y b]]; simpl; try lia. done.
Qed.

Lemma no_delimiter_inside n a b :
  contains OPEN n = false -> contains CLOSE n = false -> n = a ++ b -> plain b.
Proof.
  intros Ho Hc ->. split; apply not_true_iff_false; intros [r ->]%starts_with_true.
  - apply not_true_iff_false in Ho. apply Ho, contains_true. by exists a, r.
  - apply not_true_iff_false in Hc. apply Hc, contains_true. by exists a, r.
Qed.

Lemma spaced_plain n a b rest :
  name_ok n -> [SPACE] ++ n ++ [SPACE] = a ++ b -> b <> [] -> plain (b ++ rest).
Proof.
  intros (_ & _ & Ho & Hc) Hab Hb. destruct (decide (2 <= length b)) as [Hl|Hl].
  - apply plain_app; [done|].
    eapply (no_delimiter_inside ([SPACE] ++ n ++ [SPACE]) a); [by apply contains_spaced..|done].
  - destruct b as [|x [|y b]]; simpl in Hl; try lia; [done|].
    rewrite app_assoc in Hab. apply app_inj_2 in Hab as [_ [= <-]]; [|done].
    apply plain_pair. intros d _. done.
Qed.

Lemma trim_spaced n : trim n = n -> trim ([SPACE] ++ n ++ [SPACE]) = n.
Proof.
  intros Hn. rewrite trim_comm, app_assoc, trim_end_app_ws, <-trim_comm by done.
  unfold trim in *. by rewrite trim_start_app_ws.
Qed.

Lemma parses_placeholder names segs n rest t :
  name_ok n -> parses (bset_insert n names) (segs ++ [Placeholder n]) rest t ->
  parses names segs (print_segment (Placeholder n) ++ rest) t.
Proof.
  intros Hn Hp cursor. set (body := [SPACE] ++ n ++ [SPACE]).
  assert (Hbody : trim ([] ++ body) = n) by (apply trim_spaced, Hn).
  pose proof (parse_placeholder_body cursor [] body rest) as Hpp. rewrite Hbody in Hpp.
  specialize (Hpp (fun a b => spaced_plain n a b _ Hn) (proj1 Hn)).
  destruct (Hp (cursor + 2 + (blen ([] ++ body) + 2))%N) as [fuel Hf]. exists (S fuel).
  assert (Htext : print_segment (Placeholder n) ++ rest = OPEN ++ (body ++ CLOSE ++ rest)).
  { unfold body. simpl. by rewrite <-!app_assoc. }
  rewrite Htext. cbn [app OPEN parse_loop]. change (drop 2 _) with (body ++ CLOSE ++ rest).
  assert (He : starts_with OPEN_ESCAPE (LBRACE :: LBRACE :: body ++ CLOSE ++ rest) = false) by done.
  unfold LBRACE in He. rewrite He. simpl starts_with. by rewrite Hpp.
Qed.

Definition insert_names (names : list str) (segs : list Segment) : list str :=
  fold_left (fun ns n => bset_insert n ns) (names_of segs) names.

Definition ends_literal (segs : list Segment) : Prop := exists l, last segs = Some (Literal l).

Lemma push_literal_new segs l : l <> [] -> ~ ends_literal segs -> push_literal segs l = segs ++ [Literal l].
Proof.
  intros Hl Hs. unfold push_literal. destruct l as [|c l]; [done|]. cbn [is_empty].
  destruct (last segs) as [[e|n]|] eqn:E; try done. by destruct Hs; exists e.
Qed.

Lemma parses_print segs written names :
  segs_ok segs -> match segs with Literal _ :: _ => ~ ends_literal written | _ => True end ->
  parses names written (print_segments segs) (mkTemplate (insert_names names segs) (written ++ segs)).
Proof.
  unfold print_segments. revert written names.
  induction segs as [|s segs IH]; intros written names Hok Hw; cbn [map concat].
  { rewrite app_nil_r. apply parses_nil. }
  destruct s as [l|n]; cbn [segs_ok] in Hok.
  - destruct Hok as (Hl & Hok & Hnext). apply parses_escape.
    + intros c d Hc Hd. destruct segs as [|[l2|n] segs]; [done|done|]. simpl in Hd. injection Hd as <-.
      split; [|by rewrite andb_false_r]. apply andb_false_iff. left. apply N.eqb_neq. congruence.
    + rewrite push_literal_new by done. replace (written ++ Literal l :: segs) with ((written ++ [Literal l]) ++ segs)
        by by rewrite <-app_assoc.
      apply (IH (written ++ [Literal l]) names Hok). by destruct segs as [|[] segs].
  - destruct Hok as [Hn Hok]. apply parses_placeholder; [done|].
    replace (written ++ Placeholder n :: segs) with ((written ++ [Placeholder n]) ++ segs) by by rewrite <-app_assoc.
    apply (IH (written ++ [Placeholder n]) (bset_insert n names) Hok).
    destruct segs as [|[] segs]; try done. intros [l Hl]. by rewrite last_snoc in Hl.
Qed.

(** ** Names and placeholders *)

Lemma bset_insert_elem x a l : x ∈ bset_insert a l <-> x = a \/ x ∈ l.
Proof.
  induction l as [|y l IH]; simpl; [by rewrite list_elem_of_singleton; set_solver|].
  destruct (str_compare a y) eqn:E.
  - apply str_compare_eq in E as ->. set_solver.
  - set_solver.
  - rewrite elem_of_cons, IH. set_solver.
Qed.

Lemma names_of_app a b : names_of (a ++ b) = names_of a ++ names_of b.
Proof. apply omap_app. Qed.

Lemma names_push_literal segs l : names_of (push_literal segs l) = names_of segs.
Proof.
  unfold push_literal. destruct (is_empty l); [done|].
  destruct (last segs) as [[e|n]|] eqn:E; rewrite names_of_app; [|by rewrite app_nil_r..].
  rewrite (last_removelast segs _ E) at 2. by rewrite names_of_app.
Qed.

(** The set holds the names of the placeholders. *)
Definition template_ok (t : Template) : Prop := forall x, x ∈ placeholders t <-> x ∈ names_of (segments t).

Lemma parse_loop_ok fuel names segs literal cursor rest t :
  (forall x, x ∈ names <-> x ∈ names_of segs) ->
  parse_loop fuel names segs literal cursor rest = Some (Ok t) -> template_ok t.
Proof.
  revert names segs literal cursor rest.
  induction fuel as [|fuel IH]; intros names segs literal cursor rest Hn; [done|].
  destruct rest as [|ch rest]; cbn [parse_loop].
  { intros [= <-] x. simpl. by rewrite names_push_literal. }
  do 2 (case_match; [apply IH; intros x; by rewrite !names_push_literal|]).
  case_match; [|case_match; [done|by apply IH]].
  destruct (parse_placeholder _ _ _) as [[[name rest2] n]|e]; [|done]. apply IH. intros x.
  rewrite bset_insert_elem, names_of_app, names_push_literal, elem_of_app, Hn. csimpl. set_solver.
Qed.

Lemma parse_ok source t : parse source = Ok t -> template_ok t.
Proof.
  unfold parse. destruct (parse_loop _ _ _ _ _ _) as [r|] eqn:E; [|done]. intros ->.
  by eapply parse_loop_ok; [|exact E].
Qed.

(** ** The map of values *)

Definition keys_sorted (m : list (str * str)) : Prop :=
  StronglySorted (fun a b => str_compare a.1 b.1 = Lt) m.

Lemma bmap_get_None k (m : list (str * str)) : (forall kv, kv ∈ m -> k <> kv.1) -> bmap_get k m = None.
Proof.
  induction m as [|[k' v] m IH]; intros H; simpl; [done|].
  rewrite bool_decide_eq_false_2 by apply (H (k', v)), list_elem_of_here.
  apply IH. intros kv Hkv. by apply H, list_elem_of_further.
Qed.

Lemma bmap_get_elem k m : bmap_get k m <> None <-> k ∈ m.*1.
Proof.
  induction m as [|[k' v] m IH]; csimpl; [set_solver|]. case_bool_decide as E.
  - subst. set_solver.
  - rewrite IH. set_solver.
Qed.

Lemma bmap_insert_spec k v m :
  keys_sorted m ->
  let '(m', old) := bmap_insert k v m in
  keys_sorted m' /\ old = bmap_get k m /\
  (forall x, bmap_get x m' = if bool_decide (x = k) then Some v else bmap_get x m) /\
  (forall kv, kv ∈ m' -> kv.1 = k \/ kv.1 ∈ m.*1).
Proof.
  unfold keys_sorted. induction m as [|[k' v'] m IH]; intros Hs; simpl.
  { split; [by repeat constructor|]. split; [done|]. split; [done|]. set_solver. }
  apply StronglySorted_inv in Hs as [Hs Hall]. rewrite Forall_forall in Hall.
  destruct (str_compare k k') eqn:E.
  - apply str_compare_eq in E as ->. split; [constructor; [done|by apply Forall_forall]|].
    rewrite bool_decide_eq_true_2 by done. split; [done|]. split; [|set_solver].
    intros x. simpl. by case_bool_decide.
  - assert (Hlt : forall kv, kv ∈ (k', v') :: m -> str_compare k kv.1 = Lt).
    { intros kv [->|Hkv]%elem_of_cons; [done|]. eapply str_compare_lt_trans; [exact E|by apply Hall]. }
    split; [constructor; [constructor; [done|by apply Forall_forall]|by apply Forall_forall]|].
    split; [|split; [done|set_solver]].
    symmetry. change (bmap_get k ((k', v') :: m) = None). apply bmap_get_None. intros kv Hkv ->.
    specialize (Hlt kv Hkv). by rewrite (proj2 (str_compare_eq _ _) eq_refl) in Hlt.
  - specialize (IH Hs). destruct (bmap_insert k v m) as [m2 old]. destruct IH as (Hs2 & -> & Hg & Hk).
    assert (Hne : k <> k') by (intros ->; by rewrite (proj2 (str_compare_eq _ _) eq_refl) in E).
    split; [constructor; [done|]|].
    { apply Forall_forall. intros kv Hkv. simpl. destruct (Hk kv Hkv) as [->|Hin].
      - rewrite str_compare_antisym, E. done.
      - apply list_elem_of_fmap in Hin as (kv' & -> & Hin). by apply Hall. }
    split; [by rewrite bool_decide_eq_false_2|]. split; [|set_solver].
    intros x. simpl. rewrite Hg. repeat case_bool_decide; congruence.
Qed.

(** The map is made exactly of names given once, and then holds their values. *)
Lemma build_variable_map_spec m vars :
  keys_sorted m ->
  match build_variable_map m vars with
  | Ok m' =>
      NoDup vars.*1 /\ (forall x, x ∈ vars.*1 -> bmap_get x m = None) /\
      forall x, bmap_get x m' = match bmap_get x vars with Some v => Some v | None => bmap_get x m end
  | Err e =>
      (exists name, e = DuplicateValue name) /\
      ~ (NoDup vars.*1 /\ forall x, x ∈ vars.*1 -> bmap_get x m = None)
  end.
Proof.
  revert m. induction vars as [|[k v] vars IH]; intros m Hs; csimpl.
  { split; [constructor|]. split; [|done]. intros x Hx. by apply elem_of_nil in Hx. }
  pose proof (bmap_insert_spec k v m Hs) as Hi. destruct (bmap_insert k v m) as [m2 old].
  destruct Hi as (Hs2 & -> & Hg & _). destruct (bmap_get k m) as [w|] eqn:Ek.
  { split; [by eexists|]. intros [_ Hn]. specialize (Hn k (list_elem_of_here _ _)). congruence. }
  assert (Hiff : (NoDup vars.*1 /\ forall x, x ∈ vars.*1 -> bmap_get x m2 = None) <->
    (NoDup (k :: vars.*1) /\ forall x, x ∈ k :: vars.*1 -> bmap_get x m = None)).
  { rewrite NoDup_cons. split.
    - intros [Hn Hx]. split; [split; [|done]|].
      + intros Hk. specialize (Hx k Hk). by rewrite Hg, bool_decide_eq_true_2 in Hx.
      + intros x [->|Hin]%elem_of_cons; [done|]. specialize (Hx x Hin). rewrite Hg in Hx. by case_bool_decide.
    - intros [[Hk Hn] Hx]. split; [done|]. intros x Hin. rewrite Hg.
      rewrite bool_decide_eq_false_2 by congruence. by apply Hx, list_elem_of_further. }
  specialize (IH m2 Hs2). destruct (build_variable_map m2 vars) as [m'|e].
  - destruct IH as (Hn & Hx & Hget). destruct (proj1 Hiff (conj Hn Hx)) as [Hn' Hx'].
    split; [done|]. split; [done|]. intros x. rewrite Hget, Hg.
    case_bool_decide as Exk; [subst x|done].
    destruct (bmap_get k vars) eqn:Ekv; [|done]. exfalso. apply NoDup_cons in Hn' as [Hk _].
    apply Hk, bmap_get_elem. congruence.
  - destruct IH as [He Hno]. split; [done|]. intros H. by apply Hno, Hiff.
Qed.

(** The values put in. *)
Definition substitute (vars : list (str * str)) (segs : list Segment) : str :=
  concat (map (fun s => match s with Literal l => l | Placeholder n => default [] (bmap_get n vars) end) segs).

Lemma render_segments_spec m vars segs :
  (forall x, bmap_get x m = bmap_get x vars) -> (forall x, x ∈ names_of segs -> bmap_get x m <> None) ->
  render_segments m segs = Ok (substitute vars segs).
Proof.
  intros Hm. induction segs as [|[l|n] segs IH]; intros Hn; simpl; [done| |].
  - by rewrite IH.
  - destruct (bmap_get n m) eqn:E; [|by destruct (Hn n); [apply list_elem_of_here|]].
    rewrite IH by (intros x Hx; by apply Hn, list_elem_of_further).
    unfold substitute. simpl. by rewrite <-Hm, E.
Qed.

Lemma find_none_iff {A} (f : A -> bool) l : find f l = None <-> forall x, x ∈ l -> f x = false.
Proof.
  split.
  - intros Hf x Hx. by apply (find_none f l Hf), list_elem_of_In.
  - intros Hf. destruct (find f l) eqn:E; [|done]. apply find_some in E as [Hi%list_elem_of_In He].
    by rewrite Hf in He.
Qed.

(** ** Theorems *)

(** Printing segments, with delimiters in literals escaped, and parsing the
    text gives the segments back, with the set of their names. *)
Theorem template_round_trip segs :
  segs_ok segs -> parse (print_segments segs) = Ok (mkTemplate (insert_names [] segs) segs).
Proof.
  intros Hok. apply parses_parse, (parses_print segs [] []); [done|].
  destruct segs as [|[] segs]; try done. by intros [l Hl].
Qed.

Lemma template_round_trip_witness :
  parse (lit "a{{{{b{{ name }}}}}}")
  = Ok (mkTemplate [lit "name"] [Literal (lit "a{{b"); Placeholder (lit "name"); Literal (lit "}}")]).
Proof.
  apply (template_round_trip [Literal (lit "a{{b"); Placeholder (lit "name"); Literal (lit "}}")]).
  vm_compute. repeat split; done.
Defined.

(** Rendering a template gives text exactly when the values are those of its
    placeholders, each once; then the text is the template's with each
    placeholder replaced by its value. *)
Theorem render_exact source t vars out :
  parse source = Ok t ->
  render source vars = Ok out <->
  NoDup vars.*1 /\ (forall x, x ∈ vars.*1 <-> x ∈ placeholders t) /\ out = substitute vars (segments t).
Proof.
  intros Hp. pose proof (parse_ok source t Hp) as Hok. unfold render. rewrite Hp.
  unfold render_template.
  pose proof (build_variable_map_spec [] vars ltac:(constructor)) as Hb.
  destruct (build_variable_map [] vars) as [m|e].
  2: { destruct Hb as [_ Hb]. simpl. split; [done|]. intros (Hn & _). by destruct Hb. }
  destruct Hb as (Hn & _ & Hget).
  assert (Hm : forall x, bmap_get x m = bmap_get x vars) by (intros x; rewrite Hget; by destruct (bmap_get x vars)).
  assert (Hkey : forall x, bmap_get x m <> None <-> x ∈ vars.*1) by (intros x; rewrite Hm; apply bmap_get_elem).
  destruct (find _ (placeholders t)) as [p|] eqn:E1; simpl.
  { split; [done|]. intros (_ & Hx & _). apply find_some in E1 as [Hin He].
    apply list_elem_of_In, Hx, Hkey in Hin. by destruct (bmap_get p m). }
  rewrite find_none_iff in E1.
  destruct (find _ m) as [[name v]|] eqn:E2; simpl.
  { split; [done|]. intros (_ & Hx & _). apply find_some in E2 as [Hin He]. simpl in He.
    apply negb_true_iff, bool_decide_eq_false in He. destruct He. apply Hx, Hkey, bmap_get_elem.
    apply list_elem_of_fmap. exists (name, v). by rewrite list_elem_of_In. }
  rewrite find_none_iff in E2.
  assert (Hin : forall x, x ∈ placeholders t -> bmap_get x m <> None).
  { intros x Hx%E1. by destruct (bmap_get x m). }
  rewrite (render_segments_spec m vars) by (try done; intros x Hx; by apply Hin, Hok). simpl.
  split; [|by intros (_ & _ & ->)]. intros [= <-]. split; [done|]. split; [|done]. intros x. split.
  - intros Hx%Hkey%bmap_get_elem. apply list_elem_of_fmap in Hx as (kv & -> & Hkv).
    specialize (E2 kv Hkv). by apply negb_false_iff, bool_decide_eq_true in E2.
  - intros Hx%Hin. by apply Hkey.
Qed.

Lemma render_exact_witness :
  render (lit "{{ a }}!") [(lit "a", lit "x")] = Ok (lit "x!").
Proof.
  refine (proj2 (render_exact (lit "{{ a }}!") (mkTemplate [lit "a"] [Placeholder (lit "a"); Literal (lit "!")])
    [(lit "a", lit "x")] (lit "x!") _) _).
  - vm_compute. reflexivity.
  - split; [vm_compute; repeat constructor; by intros ?%elem_of_nil|]. split; [|vm_compute; reflexivity].
    intros x. vm_compute. done.
Defined.

(** A single brace cannot stand before a placeholder: it is read with the
    delimiter. *)
Example brace_before_placeholder :
  parse (lit "{{{name}}") = Ok (mkTemplate [lit "{name"] [Placeholder (lit "{name")]).
Proof. vm_compute. reflexivity. Qed.
