(* ===== verification/ResponseItems.v ===== *)
(** * Response items

    The conversation's data: [ResponseItem], [ContentItem] and the payload of
    tool outputs of [protocol/src/models.rs], and the truncation of structured
    tool output of [utils/output-truncation/src/lib.rs]. JSON values and the
    metadata passed through to the service are carried and never looked into;
    their types are parameters. *)

From Stdlib Require Import ZArith Lia.
From S2P Require Import Prelude RustStr Utf8 HeadTailBuffer Truncate.

Inductive ImageDetail : Type := Auto | Low | High | Original.

Inductive ContentItem : Type :=
  | InputText (text : str)
  | InputImage (image_url : str) (detail : option ImageDetail)
  | InputAudio (audio_url : str)
  | OutputText (text : str).

Inductive AgentMessageInputContent : Type :=
  | AgentText (text : str)
  | AgentEncrypted (encrypted_content : str).

Inductive FunctionCallOutputContentItem : Type :=
  | FText (text : str)
  | FImage (image_url : str) (detail : option ImageDetail)
  | FAudio (audio_url : str)
  | FEncrypted (encrypted_content : str).

Inductive FunctionCallOutputBody : Type :=
  | BodyText (content : str)
  | ContentItems (items : list FunctionCallOutputContentItem).

Record FunctionCallOutputPayload : Type := mkPayload {
  body : FunctionCallOutputBody;
  success : option bool;
}.

Definition from_text (content : str) : FunctionCallOutputPayload := mkPayload (BodyText content) None.

Inductive MessagePhase : Type := Commentary | FinalAnswer.
Inductive LocalShellStatus : Type := Completed | InProgress | Incomplete.

Record LocalShellExecAction : Type := mkShellExec {
  command : list str;
  timeout_ms : option Z;
  working_directory : option str;
  env : option (list (str * str));
  user : option str;
}.

Inductive WebSearchAction : Type :=
  | WebSearch (query : option str) (queries : option (list str))
  | OpenPage (url : option str)
  | FindInPage (url pattern : option str)
  | OtherAction.

Inductive ReasoningItemContent : Type := ReasoningText (text : str) | PlainText (text : str).

Section Items.
Context {V M : Type}.

Inductive ResponseItem : Type :=
  | AdditionalTools (id : option str) (role : str) (tools : list V)
  | Message (id : option str) (role : str) (content : list ContentItem) (phase : option MessagePhase)
      (metadata : option M)
  | AgentMessage (id : option str) (author recipient : str) (content : list AgentMessageInputContent)
      (metadata : option M)
  | Reasoning (id : option str) (summary : list str) (content : option (list ReasoningItemContent))
      (encrypted_content : option str) (metadata : option M)
  | LocalShellCall (id call_id : option str) (status : LocalShellStatus) (action : LocalShellExecAction)
      (metadata : option M)
  | FunctionCall (id : option str) (name : str) (namespace : option str) (arguments : str)
      (encrypted_function_args : option (list str)) (call_id : str) (metadata : option M)
  | ToolSearchCall (id call_id status : option str) (execution : str) (arguments : V)
      (metadata : option M)
  | FunctionCallOutput (id : option str) (call_id : str) (output : FunctionCallOutputPayload)
      (metadata : option M)
  | CustomToolCall (id status : option str) (call_id name : str) (namespace : option str) (input : str)
      (metadata : option M)
  | CustomToolCallOutput (id : option str) (call_id : str) (name : option str)
      (output : FunctionCallOutputPayload) (metadata : option M)
  | ToolSearchOutput (id call_id : option str) (status execution : str) (tools : list V)
      (metadata : option M)
  | WebSearchCall (id status : option str) (action : option WebSearchAction) (metadata : option M)
  | ImageGenerationCall (id : option str) (status : str) (revised_prompt : option str) (result : str)
      (metadata : option M)
  | Compaction (id : option str) (encrypted_content : str) (metadata : option M)
  | CompactionTrigger
  | ContextCompaction (id : option str) (encrypted_content : option str) (metadata : option M)
  | Other.
End Items.
Arguments ResponseItem V M : clear implicits.

(** ** Truncating structured output *)

(** The loop's variables in [truncate_function_output_items_with_policy]. *)
Record trunc_loop : Type := mkTrunc {
  t_out : list FunctionCallOutputContentItem;
  remaining_budget : N;
  omitted_text_items : N;
  omitted_audio_items : N;
}.

Section Truncation.
(** [estimate_audio_token_count], given by the caller. *)
Context (estimate_audio_token_count : str -> N).

Definition text_cost (p : TruncationPolicy) (text : str) : N :=
  match p with Bytes _ => blen text | Tokens _ => approx_token_count text end.
Definition audio_cost (p : TruncationPolicy) (url : str) : N :=
  match p with
  | Bytes _ => approx_bytes_for_tokens (estimate_audio_token_count url)
  | Tokens _ => estimate_audio_token_count url
  end.
Definition same_mode (p : TruncationPolicy) (n : N) : TruncationPolicy :=
  match p with Bytes _ => Bytes n | Tokens _ => Tokens n end.
Definition policy_budget (p : TruncationPolicy) : N :=
  match p with Bytes _ => byte_budget p | Tokens _ => token_budget p end.

(** One item; [None] is a panic. *)
Definition truncate_item (p : TruncationPolicy) (x : trunc_loop) (item : FunctionCallOutputContentItem)
    : option trunc_loop :=
  let keep (item : FunctionCallOutputContentItem) (budget : N) :=
    mkTrunc (t_out x ++ [item]) budget (omitted_text_items x) (omitted_audio_items x) in
  let omit_text (budget : N) :=
    mkTrunc (t_out x) budget (omitted_text_items x + 1) (omitted_audio_items x) in
  match item with
  | FText text =>
      if (remaining_budget x =? 0)%N then Some (omit_text (remaining_budget x))
      else
        let cost := text_cost p text in
        if (cost <=? remaining_budget x)%N
        then Some (keep (FText text) (usize_sub (remaining_budget x) cost))
        else
          match truncate_text text (same_mode p (remaining_budget x)) with
          | None => None
          | Some snippet =>
              Some (if is_empty snippet then omit_text 0%N else keep (FText snippet) 0%N)
          end
  | FImage url detail => Some (keep (FImage url detail) (remaining_budget x))
  | FAudio url =>
      let cost := audio_cost p url in
      Some (if (cost <=? remaining_budget x)%N
            then keep (FAudio url) (usize_sub (remaining_budget x) cost)
            else mkTrunc (t_out x) (remaining_budget x) (omitted_text_items x)
                   (omitted_audio_items x + 1))
  | FEncrypted e => Some (keep (FEncrypted e) (remaining_budget x))
  end.

Fixpoint truncate_items (p : TruncationPolicy) (x : trunc_loop) (items : list FunctionCallOutputContentItem)
    : option trunc_loop :=
  match items with
  | [] => Some x
  | item :: items' =>
      match truncate_item p x item with Some y => truncate_items p y items' | None => None end
  end.

Definition omitted_note (n : N) (kind : str) : list FunctionCallOutputContentItem :=
  if (0 <? n)%N then [FText (lit "[omitted " ++ show_N n ++ kind)] else [].

Definition truncate_function_output_items_with_policy (items : list FunctionCallOutputContentItem)
    (p : TruncationPolicy) : option (list FunctionCallOutputContentItem) :=
  match truncate_items p (mkTrunc [] (policy_budget p) 0 0) items with
  | None => None
  | Some x =>
      Some (t_out x ++ omitted_note (omitted_text_items x) (lit " text items ...]")
                    ++ omitted_note (omitted_audio_items x) (lit " audio items ...]"))
  end.
End Truncation.

(** The texts, one on each line: [combined] of
    [formatted_truncate_text_content_items_with_policy]. *)
Definition text_segments (items : list FunctionCallOutputContentItem) : list str :=
  omap (fun item => match item with FText text => Some text | _ => None end) items.

Definition combine_texts (texts : list str) : str :=
  fold_left (fun combined text => (if is_empty combined then combined else combined ++ [LF]) ++ text) texts [].

Definition formatted_truncate_text_content_items_with_policy
    (items : list FunctionCallOutputContentItem) (p : TruncationPolicy)
    : option (list FunctionCallOutputContentItem * option N) :=
  match text_segments items with
  | [] => Some (items, None)
  | segs =>
      let combined := combine_texts segs in
      if (blen combined <=? byte_budget p)%N then Some (items, None)
      else
        match formatted_truncate_text combined p with
        | None => None
        | Some text =>
            Some (FText text
                    :: List.filter (fun item => match item with FText _ => false | _ => true end) items,
                  Some (approx_token_count combined))
        end
  end.

(** ** What truncation keeps *)

Definition is_ftext (i : FunctionCallOutputContentItem) : bool :=
  match i with FText _ => true | _ => false end.
Definition is_faudio (i : FunctionCallOutputContentItem) : bool :=
  match i with FAudio _ => true | _ => false end.
(** Images and encrypted content cost nothing. *)
Definition carried (i : FunctionCallOutputContentItem) : bool := negb (is_ftext i) && negb (is_faudio i).

Definition count {A} (f : A -> bool) (l : list A) : N := len (List.filter f l).

Lemma count_app {A} (f : A -> bool) (l k : list A) : count f (l ++ k) = (count f l + count f k)%N.
Proof. unfold count. by rewrite List.filter_app, len_app. Qed.

Lemma count_single {A} (f : A -> bool) x : count f [x] = if f x then 1%N else 0%N.
Proof. unfold count, len. simpl. by destruct (f x). Qed.

Section Kept.
Context (estimate_audio_token_count : str -> N).
Abbreviation truncate_item := (truncate_item estimate_audio_token_count).
Abbreviation truncate_items := (truncate_items estimate_audio_token_count).

(** What an item costs when it is kept whole. *)
Definition item_cost (p : TruncationPolicy) (i : FunctionCallOutputContentItem) : N :=
  match i with
  | FText text => text_cost p text
  | FAudio url => audio_cost estimate_audio_token_count p url
  | _ => 0
  end.
Definition total_cost (p : TruncationPolicy) (l : list FunctionCallOutputContentItem) : N :=
  foldr (fun i n => (item_cost p i + n)%N) 0%N l.

(** Every item is kept, cut or counted. *)
Record accounted (p : TruncationPolicy) (x : trunc_loop) (items : list FunctionCallOutputContentItem)
    (y : trunc_loop) : Prop := mkAccounted {
  acc_carried : List.filter carried (t_out y) = List.filter carried (t_out x) ++ List.filter carried items;
  acc_text :
    (count is_ftext (t_out y) + omitted_text_items y
     = count is_ftext (t_out x) + omitted_text_items x + count is_ftext items)%N;
  acc_audio :
    (count is_faudio (t_out y) + omitted_audio_items y
     = count is_faudio (t_out x) + omitted_audio_items x + count is_faudio items)%N;
}.

Lemma truncate_item_accounted p x i : exists y, truncate_item p x i = Some y /\ accounted p x [i] y.
Proof using.
  assert (Hk : forall i' b, is_ftext i' = is_ftext i -> is_faudio i' = is_faudio i ->
      (carried i = true -> i' = i) ->
      accounted p x [i] (mkTrunc (t_out x ++ [i']) b (omitted_text_items x) (omitted_audio_items x))).
  { intros i' b Ht Ha Hc. split; simpl; rewrite ?List.filter_app, ?count_app.
    - f_equal. simpl. unfold carried at 1. rewrite Ht, Ha. fold (carried i).
      destruct (carried i); [by rewrite Hc|done].
    - rewrite !count_single, Ht. lia.
    - rewrite !count_single, Ha. lia. }
  destruct i as [text|url d|url|e]; simpl.
  - case_match; [eexists; split; [done|]; split; simpl; rewrite ?app_nil_r, ?count_single; simpl; try done; lia|].
    case_match; [eexists; split; [done|]; by apply Hk|].
    destruct (truncate_text_exact text (same_mode p (remaining_budget x))) as (out & -> & _).
    eexists. split; [done|]. case_match; [|by apply Hk].
    split; simpl; rewrite ?app_nil_r, ?count_single; simpl; try done; lia.
  - eexists. split; [done|]. by apply Hk.
  - eexists. split; [done|]. case_match; [by apply Hk|].
    split; simpl; rewrite ?app_nil_r, ?count_single; simpl; try done; lia.
  - eexists. split; [done|]. by apply Hk.
Qed.

Lemma truncate_items_accounted p x items : exists y, truncate_items p x items = Some y /\ accounted p x items y.
Proof using.
  revert x. induction items as [|i items IH]; intros x; cbn [ResponseItems.truncate_items].
  - eexists. split; [done|]. split; simpl; rewrite ?app_nil_r; unfold count, len; simpl; try done; lia.
  - destruct (truncate_item_accounted p x i) as (y & -> & [Hc Ht Ha]).
    destruct (IH y) as (z & -> & [Hc' Ht' Ha']). exists z. split; [done|].
    change (i :: items) with ([i] ++ items).
    split; rewrite ?List.filter_app, ?count_app.
    + by rewrite Hc', Hc, app_assoc.
    + lia.
    + lia.
Qed.

(** Within the budget nothing changes. *)
Lemma truncate_items_fit p x items :
  (total_cost p items <= remaining_budget x)%N -> Forall (fun i => i <> FText []) items ->
  (forall text, text <> [] -> 0 < text_cost p text)%N ->
  truncate_items p x items
  = Some (mkTrunc (t_out x ++ items) (remaining_budget x - total_cost p items)
            (omitted_text_items x) (omitted_audio_items x)).
Proof using.
  intros Hc Hne Hpos. revert x Hc Hne.
  induction items as [|i items IH]; intros x Hc Hne; cbn [ResponseItems.truncate_items].
  - simpl. rewrite app_nil_r, N.sub_0_r. by destruct x.
  - apply Forall_cons in Hne as [Hi Hne]. cbn [total_cost foldr] in Hc. fold (total_cost p items) in Hc.
    assert (Hstep : truncate_item p x i = Some (mkTrunc (t_out x ++ [i]) (remaining_budget x - item_cost p i)
      (omitted_text_items x) (omitted_audio_items x))).
    { destruct i as [text|url d|url|e]; simpl in *.
      - assert (0 < text_cost p text)%N by (apply Hpos; congruence).
        rewrite (proj2 (N.eqb_neq _ _)), (proj2 (N.leb_le _ _)) by lia. done.
      - by rewrite N.sub_0_r.
      - by rewrite (proj2 (N.leb_le _ _)) by lia.
      - by rewrite N.sub_0_r. }
    rewrite Hstep, IH by (simpl; first [done|lia]). simpl. rewrite <-app_assoc. simpl.
    do 2 f_equal. lia.
Qed.
End Kept.

Lemma text_cost_pos p text : text <> [] -> (0 < text_cost p text)%N.
Proof.
  destruct text as [|c t]; [done|]. intros _. destruct p; unfold text_cost, approx_token_count.
  - rewrite blen_cons. pose proof (cw_pos c). lia.
  - rewrite blen_cons. pose proof (cw_pos c). unfold usize_add, usize_sub, APPROX_BYTES_PER_TOKEN, USIZE_MAX.
    apply N.div_str_pos. lia.
Qed.

(** Truncating structured tool output loses nothing silently: it never
    panics, carries every image and every encrypted item through in order, and
    counts each text and audio item it leaves out; output within the budget is
    returned as it is, unless it holds an empty text. *)
Theorem truncate_output_items_accounted est items p :
  exists x, truncate_items est p (mkTrunc [] (policy_budget p) 0 0) items = Some x /\
    truncate_function_output_items_with_policy est items p
    = Some (t_out x ++ omitted_note (omitted_text_items x) (lit " text items ...]")
                    ++ omitted_note (omitted_audio_items x) (lit " audio items ...]")) /\
    List.filter carried (t_out x) = List.filter carried items /\
    (count is_ftext (t_out x) + omitted_text_items x = count is_ftext items)%N /\
    (count is_faudio (t_out x) + omitted_audio_items x = count is_faudio items)%N /\
    ((total_cost est p items <= policy_budget p)%N -> Forall (fun i => i <> FText []) items ->
     truncate_function_output_items_with_policy est items p = Some items).
Proof.
  set (x0 := mkTrunc [] (policy_budget p) 0 0).
  destruct (truncate_items_accounted est p x0 items) as (x & Hx & [Hc Ht Ha]).
  exists x. split; [done|]. unfold truncate_function_output_items_with_policy. fold x0. rewrite Hx.
  assert (H0 : forall f, count f (t_out x0) = 0%N) by done. rewrite H0 in Ht, Ha.
  split; [done|]. split; [done|]. split; [simpl in Ht; lia|]. split; [simpl in Ha; lia|].
  intros Hcost Hne. rewrite (truncate_items_fit est p x0 items Hcost Hne (text_cost_pos p)) in Hx.
  injection Hx as <-. simpl. by rewrite app_nil_r.
Qed.

(** An empty text after the budget is used up is reported as omitted, although
    everything fits. *)
Example empty_text_omitted :
  truncate_function_output_items_with_policy (fun _ => 0%N) [FText (lit "abcd"); FText []] (Bytes 4)
  = Some [FText (lit "abcd"); FText (lit "[omitted 1 text items ...]")].
Proof. vm_compute. reflexivity. Qed.
