(* ===== verification/Normalize.v ===== *)
(** * Normalizing the conversation

    Models [core/src/context_manager/normalize.rs]: what is done to the history
    before it is sent to the model. Every tool call gets an output, outputs
    without a call are removed, and content the model cannot read is replaced.
    [error_or_panic] of [core/src/util.rs] panics in a debug build and logs
    otherwise: the build is a parameter and a panic is [None]. *)

From Stdlib Require Import Lia.
From S2P Require Import Prelude RustStr ResponseItems.

Inductive InputModality : Type := ModText | ModImage | ModAudio.

#[export] Instance InputModality_eq_dec : EqDecision InputModality.
Proof. solve_decision. Defined.

Definition IMAGE_CONTENT_OMITTED_PLACEHOLDER : str := Eval vm_compute in
  lit "image content omitted because you do not support image input".
Definition AUDIO_CONTENT_OMITTED_PLACEHOLDER : str := Eval vm_compute in
  lit "audio content omitted because you do not support audio input".

Section Normalize.
Context {V M : Type}.
(** A build with debug assertions; [Uuid::new_v5] in the namespace of synthetic
    output ids, as text. *)
Context (debug_assertions : bool) (new_v5 : str -> str).

Abbreviation item := (ResponseItem V M).

Definition error_or_panic : option unit := if debug_assertions then None else Some tt.

(** ** Missing outputs *)

Definition function_output_ids (items : list item) : list str :=
  omap (fun i : item => match i with FunctionCallOutput _ call_id _ _ => Some call_id | _ => None end) items.
Definition tool_search_output_ids (items : list item) : list str :=
  omap (fun i : item => match i with ToolSearchOutput _ (Some call_id) _ _ _ _ => Some call_id | _ => None end) items.
Definition custom_tool_output_ids (items : list item) : list str :=
  omap (fun i : item => match i with CustomToolCallOutput _ call_id _ _ _ => Some call_id | _ => None end) items.

Definition synthetic_output_id (prefix : str) (item_id : option str) : option str :=
  match item_id with
  | Some id =>
      if is_empty id then None
      else Some (prefix ++ lit "_" ++ new_v5 (prefix ++ lit ":" ++ id))
  | None => None
  end.

Definition aborted_output (id : option str) (call_id : str) : item :=
  FunctionCallOutput (synthetic_output_id (lit "fco") id) call_id (from_text (lit "aborted")) None.

(** The output to insert after an item, and whether its absence is an error. *)
Definition missing_output (items : list item) (i : item) : option (item * bool) :=
  match i with
  | FunctionCall id _ _ _ _ call_id _ =>
      if bool_decide (call_id ∈ function_output_ids items) then None
      else Some (aborted_output id call_id, false)
  | ToolSearchCall id (Some call_id) _ _ _ _ =>
      if bool_decide (call_id ∈ tool_search_output_ids items) then None
      else Some (ToolSearchOutput (synthetic_output_id (lit "tso") id) (Some call_id) (lit "completed")
                   (lit "client") [] None, false)
  | CustomToolCall id _ call_id _ _ _ _ =>
      if bool_decide (call_id ∈ custom_tool_output_ids items) then None
      else Some (CustomToolCallOutput (synthetic_output_id (lit "ctco") id) call_id None
                   (from_text (lit "aborted")) None, true)
  | LocalShellCall id (Some call_id) _ _ _ =>
      if bool_decide (call_id ∈ function_output_ids items) then None
      else Some (aborted_output id call_id, true)
  | _ => None
  end.

(** [missing_outputs_to_insert]: the outputs with the index of their call. *)
Fixpoint missing_outputs (items : list item) (idx : nat) (l : list item) : option (list (nat * item)) :=
  match l with
  | [] => Some []
  | i :: l' =>
      match missing_output items i with
      | None => missing_outputs items (S idx) l'
      | Some (output, is_error) =>
          let! _ := (if is_error then error_or_panic else Some tt) in
          let! rest := missing_outputs items (S idx) l' in
          Some ((idx, output) :: rest)
      end
  end.

(** [Vec::insert]. *)
Definition vec_insert {A} (l : list A) (n : nat) (x : A) : list A := take n l ++ x :: drop n l.

(** Inserted from the last to the first. *)
Definition ensure_call_outputs_present (items : list item) : option (list item) :=
  let! missing := missing_outputs items 0 items in
  Some (fold_left (fun l '(idx, output) => vec_insert l (idx + 1) output) (rev missing) items).

(** ** Orphans *)

Definition function_call_ids (items : list item) : list str :=
  omap (fun i : item => match i with FunctionCall _ _ _ _ _ call_id _ => Some call_id | _ => None end) items.
Definition tool_search_call_ids (items : list item) : list str :=
  omap (fun i : item => match i with ToolSearchCall _ (Some call_id) _ _ _ _ => Some call_id | _ => None end) items.
Definition local_shell_call_ids (items : list item) : list str :=
  omap (fun i : item => match i with LocalShellCall _ (Some call_id) _ _ _ => Some call_id | _ => None end) items.
Definition custom_tool_call_ids (items : list item) : list str :=
  omap (fun i : item => match i with CustomToolCall _ _ call_id _ _ _ _ => Some call_id | _ => None end) items.

(** The test of [retain]. *)
Definition has_match (items : list item) (i : item) : bool :=
  match i with
  | FunctionCallOutput _ call_id _ _ =>
      bool_decide (call_id ∈ function_call_ids items) || bool_decide (call_id ∈ local_shell_call_ids items)
  | CustomToolCallOutput _ call_id _ _ _ => bool_decide (call_id ∈ custom_tool_call_ids items)
  | ToolSearchOutput _ call_id _ execution _ _ =>
      if bool_decide (execution = lit "server") then true
      else match call_id with
           | Some call_id => bool_decide (call_id ∈ tool_search_call_ids items)
           | None => true
           end
  | _ => true
  end.

Fixpoint retain_matched (items l : list item) : option (list item) :=
  match l with
  | [] => Some []
  | i :: l' =>
      if has_match items i then
        let! rest := retain_matched items l' in Some (i :: rest)
      else
        let! _ := error_or_panic in retain_matched items l'
  end.

Definition remove_orphan_outputs (items : list item) : option (list item) := retain_matched items items.

(** ** Removing the counterpart of an item *)

(** [position] and [remove]. *)
Fixpoint remove_first_matching (predicate : item -> bool) (items : list item) : list item :=
  match items with
  | [] => []
  | i :: items' => if predicate i then items' else i :: remove_first_matching predicate items'
  end.

Definition is_function_call (call_id : str) (i : item) : bool :=
  match i with FunctionCall _ _ _ _ _ existing _ => bool_decide (existing = call_id) | _ => false end.
Definition is_function_output (call_id : str) (i : item) : bool :=
  match i with FunctionCallOutput _ existing _ _ => bool_decide (existing = call_id) | _ => false end.
Definition is_local_shell_call (call_id : str) (i : item) : bool :=
  match i with LocalShellCall _ (Some existing) _ _ _ => bool_decide (existing = call_id) | _ => false end.
Definition is_tool_search_call (call_id : str) (i : item) : bool :=
  match i with ToolSearchCall _ (Some existing) _ _ _ _ => bool_decide (existing = call_id) | _ => false end.
Definition is_tool_search_output (call_id : str) (i : item) : bool :=
  match i with ToolSearchOutput _ (Some existing) _ _ _ _ => bool_decide (existing = call_id) | _ => false end.
Definition is_custom_call (call_id : str) (i : item) : bool :=
  match i with CustomToolCall _ _ existing _ _ _ _ => bool_decide (existing = call_id) | _ => false end.
Definition is_custom_output (call_id : str) (i : item) : bool :=
  match i with CustomToolCallOutput _ existing _ _ _ => bool_decide (existing = call_id) | _ => false end.

Definition remove_corresponding_for (items : list item) (i : item) : list item :=
  match i with
  | FunctionCall _ _ _ _ _ call_id _ => remove_first_matching (is_function_output call_id) items
  | FunctionCallOutput _ call_id _ _ =>
      if existsb (is_function_call call_id) items
      then remove_first_matching (is_function_call call_id) items
      else remove_first_matching (is_local_shell_call call_id) items
  | ToolSearchCall _ (Some call_id) _ _ _ _ => remove_first_matching (is_tool_search_output call_id) items
  | ToolSearchOutput _ (Some call_id) _ _ _ _ => remove_first_matching (is_tool_search_call call_id) items
  | CustomToolCall _ _ call_id _ _ _ _ => remove_first_matching (is_custom_output call_id) items
  | CustomToolCallOutput _ call_id _ _ _ => remove_first_matching (is_custom_call call_id) items
  | LocalShellCall _ (Some call_id) _ _ _ => remove_first_matching (is_function_output call_id) items
  | _ => items
  end.

(** ** Content the model cannot read *)

Definition strip_image_content (c : ContentItem) : ContentItem :=
  match c with InputImage _ _ => InputText IMAGE_CONTENT_OMITTED_PLACEHOLDER | _ => c end.
Definition strip_image_output (c : FunctionCallOutputContentItem) : FunctionCallOutputContentItem :=
  match c with FImage _ _ => FText IMAGE_CONTENT_OMITTED_PLACEHOLDER | _ => c end.
Definition strip_audio_content (c : ContentItem) : ContentItem :=
  match c with InputAudio _ => InputText AUDIO_CONTENT_OMITTED_PLACEHOLDER | _ => c end.
Definition strip_audio_output (c : FunctionCallOutputContentItem) : FunctionCallOutputContentItem :=
  match c with FAudio _ => FText AUDIO_CONTENT_OMITTED_PLACEHOLDER | _ => c end.

(** [content_items_mut]: the items of a structured payload replaced in place. *)
Definition map_content_items (f : FunctionCallOutputContentItem -> FunctionCallOutputContentItem)
    (p : FunctionCallOutputPayload) : FunctionCallOutputPayload :=
  match body p with
  | BodyText _ => p
  | ContentItems items => mkPayload (ContentItems (map f items)) (success p)
  end.

Definition strip_item_images (i : item) : item :=
  match i with
  | Message id role content phase md => Message id role (map strip_image_content content) phase md
  | FunctionCallOutput id c output md => FunctionCallOutput id c (map_content_items strip_image_output output) md
  | CustomToolCallOutput id c name output md =>
      CustomToolCallOutput id c name (map_content_items strip_image_output output) md
  | ImageGenerationCall id status prompt _ md => ImageGenerationCall id status prompt [] md
  | _ => i
  end.

Definition strip_item_audio (i : item) : item :=
  match i with
  | Message id role content phase md => Message id role (map strip_audio_content content) phase md
  | FunctionCallOutput id c output md => FunctionCallOutput id c (map_content_items strip_audio_output output) md
  | CustomToolCallOutput id c name output md =>
      CustomToolCallOutput id c name (map_content_items strip_audio_output output) md
  | _ => i
  end.

Definition strip_images_when_unsupported (modalities : list InputModality) (items : list item) : list item :=
  if bool_decide (ModImage ∈ modalities) then items else map strip_item_images items.
Definition strip_audio_when_unsupported (modalities : list InputModality) (items : list item) : list item :=
  if bool_decide (ModAudio ∈ modalities) then items else map strip_item_audio items.

(** [ContextManager::normalize_history] on the items. *)
Definition normalize_history (modalities : list InputModality) (items : list item) : option (list item) :=
  let! items := ensure_call_outputs_present items in
  let! items := remove_orphan_outputs items in
  let items := strip_images_when_unsupported modalities items in
  Some (strip_audio_when_unsupported modalities items).
End Normalize.

(** ** Calls and outputs *)

Inductive call_kind : Type := KFunction | KSearch | KCustom.

#[export] Instance call_kind_eq_dec : EqDecision call_kind.
Proof. solve_decision. Defined.

Section Pairing.
Context {V M : Type}.
Abbreviation item := (ResponseItem V M).

(** What joins a call and its output. *)
Definition call_key (i : item) : option (call_kind * str) :=
  match i with
  | FunctionCall _ _ _ _ _ c _ => Some (KFunction, c)
  | LocalShellCall _ (Some c) _ _ _ => Some (KFunction, c)
  | ToolSearchCall _ (Some c) _ _ _ _ => Some (KSearch, c)
  | CustomToolCall _ _ c _ _ _ _ => Some (KCustom, c)
  | _ => None
  end.
Definition output_key (i : item) : option (call_kind * str) :=
  match i with
  | FunctionCallOutput _ c _ _ => Some (KFunction, c)
  | ToolSearchOutput _ (Some c) _ _ _ _ => Some (KSearch, c)
  | CustomToolCallOutput _ c _ _ _ => Some (KCustom, c)
  | _ => None
  end.
(** A search the server ran has no call of its own. *)
Definition by_server (i : item) : bool :=
  match i with ToolSearchOutput _ _ _ execution _ _ => bool_decide (execution = lit "server") | _ => false end.

(** Every call has an output, and every output that needs one has a call. *)
Record paired (items : list item) : Prop := mkPaired {
  calls_answered k : k ∈ omap call_key items -> k ∈ omap output_key items;
  outputs_called i k :
    i ∈ items -> output_key i = Some k -> by_server i = false -> k ∈ omap call_key items;
}.

Lemma elem_ids (f : item -> option str) (g : item -> option (call_kind * str)) kind (items : list item) c :
  (forall i, f i = Some c <-> g i = Some (kind, c)) -> c ∈ omap f items <-> (kind, c) ∈ omap g items.
Proof using. intros H. rewrite !list_elem_of_omap. by setoid_rewrite H. Qed.

Lemma function_output_key items c : c ∈ function_output_ids items <-> (KFunction, c) ∈ omap output_key items.
Proof using. apply elem_ids. by intros [| | | | | | | | | |? []| | | | | |]; simpl; split; congruence. Qed.
Lemma tool_search_output_key items c : c ∈ tool_search_output_ids items <-> (KSearch, c) ∈ omap output_key items.
Proof using. apply elem_ids. by intros [| | | | | | | | | |? []| | | | | |]; simpl; split; congruence. Qed.
Lemma custom_output_key items c : c ∈ custom_tool_output_ids items <-> (KCustom, c) ∈ omap output_key items.
Proof using. apply elem_ids. by intros [| | | | | | | | | |? []| | | | | |]; simpl; split; congruence. Qed.
Lemma tool_search_call_key items c : c ∈ tool_search_call_ids items <-> (KSearch, c) ∈ omap call_key items.
Proof using. apply elem_ids. by intros [| | | |? []| |? []| | | | | | | | | |]; simpl; split; congruence. Qed.
Lemma custom_call_key items c : c ∈ custom_tool_call_ids items <-> (KCustom, c) ∈ omap call_key items.
Proof using. apply elem_ids. by intros [| | | |? []| |? []| | | | | | | | | |]; simpl; split; congruence. Qed.
Lemma function_call_key (items : list item) c :
  (c ∈ function_call_ids items \/ c ∈ local_shell_call_ids items) <-> (KFunction, c) ∈ omap call_key items.
Proof using.
  unfold function_call_ids, local_shell_call_ids. rewrite !list_elem_of_omap. split.
  - intros [(i & Hi & Hk)|(i & Hi & Hk)]; exists i; (split; [done|]);
      destruct i as [| | | |? []| |? []| | | | | | | | | |]; simpl in *; congruence.
  - intros (i & Hi & Hk). destruct i as [| | | |? []| |? []| | | | | | | | | |]; simplify_eq/=;
      [right|left]; eexists; split; eauto.
Qed.

(** Orphans are the outputs that need a call and have none. *)
Lemma has_match_spec (items : list item) i :
  has_match items i = true <->
  (forall k, output_key i = Some k -> by_server i = false -> k ∈ omap call_key items).
Proof using.
  destruct i as [| | | | | | |? c ? ?| |? c ? ? ?|? [c|] ? ex ? ?| | | | | |]; simpl; try done.
  - rewrite orb_true_iff, !bool_decide_eq_true, function_call_key. naive_solver.
  - rewrite bool_decide_eq_true, custom_call_key. naive_solver.
  - case_bool_decide; [naive_solver|]. rewrite bool_decide_eq_true, tool_search_call_key. naive_solver.
  - case_bool_decide; naive_solver.
Qed.

Section Build.
Context (debug : bool) (new_v5 : str -> str).

(** What is missing is the output with the call's key. *)
Lemma missing_output_spec (items : list item) i :
  match missing_output new_v5 items i with
  | Some (o, _) => exists k, call_key i = Some k /\ (k ∉ omap output_key items) /\
      output_key o = Some k /\ call_key o = None /\ by_server o = false
  | None => forall k, call_key i = Some k -> k ∈ omap output_key items
  end.
Proof.
  destruct i as [| | | |? []| |? []| | | | | | | | | |]; simpl; try done;
    case_bool_decide as E;
    rewrite ?function_output_key, ?tool_search_output_key, ?custom_output_key in E;
    try (by intros k [= <-]); (eexists; split; [reflexivity|done]).
Qed.


(** The synthetic output after each call that has none. *)
Definition with_missing (items : list item) (i : item) : list item :=
  i :: match missing_output new_v5 items i with Some (o, _) => [o] | None => [] end.

(** Whether a missing output is an error. *)
Definition missing_error (items : list item) (i : item) : bool :=
  match missing_output new_v5 items i with Some (_, e) => e | None => false end.

Lemma vec_insert_app {A} (a b : list A) x : vec_insert (a ++ b) (length a) x = a ++ x :: b.
Proof using. unfold vec_insert. by rewrite take_app_length, drop_app_length. Qed.

(** Insertions from the last to the first leave what comes before in place. *)
Lemma insert_missing (items pre l : list item) ms :
  missing_outputs debug new_v5 items (length pre) l = Some ms ->
  fold_left (fun l '(idx, output) => vec_insert l (idx + 1) output) (rev ms) (pre ++ l)
  = pre ++ flat_map (with_missing items) l.
Proof.
  revert pre ms. induction l as [|i l IH]; intros pre ms; simpl; [by intros [= <-]|].
  assert (Hnext : forall ms', missing_outputs debug new_v5 items (S (length pre)) l = Some ms' ->
      fold_left (fun l '(idx, output) => vec_insert l (idx + 1) output) (rev ms') (pre ++ i :: l)
      = (pre ++ [i]) ++ flat_map (with_missing items) l).
  { intros ms' Hms. rewrite <-(IH (pre ++ [i]) ms'); [by rewrite <-app_assoc|].
    by rewrite length_app, Nat.add_1_r. }
  unfold with_missing at 1. destruct (missing_output new_v5 items i) as [[o e]|].
  - destruct (if e then error_or_panic debug else Some tt); [|done].
    destruct (missing_outputs _ _ _ _ _) as [ms'|] eqn:E; [|done]. intros [= <-]. cbn [rev].
    rewrite fold_left_app, (Hnext ms' eq_refl). simpl.
    replace (length pre + 1) with (length (pre ++ [i])) by (rewrite length_app; done).
    rewrite vec_insert_app. simpl. by rewrite <-app_assoc.
  - intros Hms. rewrite (Hnext ms Hms). simpl. by rewrite <-app_assoc.
Qed.

Lemma missing_outputs_total items idx l :
  (debug = false \/ existsb (missing_error items) l = false) ->
  exists ms, missing_outputs debug new_v5 items idx l = Some ms.
Proof.
  revert idx. induction l as [|i l IH]; intros idx Hd; simpl; [by eexists|].
  destruct (IH (S idx)) as [ms Hms].
  { destruct Hd as [?|Hd]; [by left|right]. simpl in Hd. by apply orb_false_iff in Hd as [_ ?]. }
  unfold missing_error in Hd. simpl in Hd.
  destruct (missing_output new_v5 items i) as [[o e]|] eqn:E; [|by exists ms].
  rewrite Hms. unfold error_or_panic. destruct e; [|by eexists].
  destruct Hd as [->|Hd]; [by eexists|done].
Qed.

Lemma missing_outputs_panic items idx l :
  existsb (missing_error items) l = true -> missing_outputs true new_v5 items idx l = None.
Proof.
  revert idx. induction l as [|i l IH]; intros idx; simpl; [done|].
  unfold missing_error at 1. destruct (missing_output new_v5 items i) as [[o e]|]; [|apply IH].
  destruct e; [done|]. simpl. intros He. by rewrite IH.
Qed.

(** In a release build, or when nothing is an error. *)
Lemma ensure_reference items :
  debug = false \/ existsb (missing_error items) items = false ->
  ensure_call_outputs_present debug new_v5 items = Some (flat_map (with_missing items) items).
Proof.
  intros Hd. unfold ensure_call_outputs_present.
  destruct (missing_outputs_total items 0 items Hd) as [ms Hms]. rewrite Hms.
  f_equal. exact (insert_missing items [] items ms Hms).
Qed.

Lemma retain_reference (items l : list item) :
  debug = false \/ forallb (has_match items) l = true ->
  retain_matched debug items l = Some (List.filter (has_match items) l).
Proof.
  intros Hd. induction l as [|i l IH]; simpl; [done|].
  destruct (has_match items i) eqn:E.
  - rewrite IH; [done|]. destruct Hd as [?|Hd]; [by left|right]. simpl in Hd. by apply andb_true_iff in Hd as [_ ?].
  - destruct Hd as [Hd|Hd]; [|simpl in Hd; by rewrite E in Hd]. unfold error_or_panic. rewrite Hd in *.
    apply IH. by left.
Qed.

(** *** The result is paired *)

Lemma omap_with_missing_calls items l :
  omap call_key (flat_map (with_missing items) l) = omap call_key l.
Proof.
  assert (H1 : forall i, omap call_key (with_missing items i) = omap call_key [i]).
  { intros i. unfold with_missing. pose proof (missing_output_spec items i) as Hm.
    destruct (missing_output new_v5 items i) as [[o e]|]; [|done].
    destruct Hm as (k & Hk & _ & _ & Ho & _). csimpl. by rewrite Hk, Ho. }
  induction l as [|i l IH]; [done|]. change (i :: l) with ([i] ++ l) at 2. cbn [flat_map].
  by rewrite !omap_app, IH, H1.
Qed.

Lemma with_missing_elem items l i :
  i ∈ flat_map (with_missing items) l <->
  i ∈ l \/ exists c e, c ∈ l /\ missing_output new_v5 items c = Some (i, e).
Proof.
  rewrite list_elem_of_In, in_flat_map. setoid_rewrite <-list_elem_of_In. unfold with_missing. split.
  - intros (c & Hc & [->|Hi]%elem_of_cons); [by left|]. right.
    destruct (missing_output new_v5 items c) as [[o e]|] eqn:E; [|by apply elem_of_nil in Hi].
    apply list_elem_of_singleton in Hi as ->. by exists c, e.
  - intros [Hi|(c & e & Hc & Hm)]; [exists i; split; [done|apply list_elem_of_here]|].
    exists c. split; [done|]. rewrite Hm. apply list_elem_of_further, list_elem_of_here.
Qed.

(** The calls are those there were; each has an output now. *)
Lemma ensured_answered items k :
  k ∈ omap call_key items -> k ∈ omap output_key (flat_map (with_missing items) items).
Proof.
  rewrite !list_elem_of_omap. intros (i & Hi & Hk).
  pose proof (missing_output_spec items i) as Hm.
  destruct (missing_output new_v5 items i) as [[o e]|] eqn:E.
  - destruct Hm as (k' & Hk' & _ & Ho & _). exists o. split; [|congruence].
    apply with_missing_elem. right. by exists i, e.
  - specialize (Hm k Hk). apply list_elem_of_omap in Hm as (o & Ho & Hok). exists o.
    split; [|done]. apply with_missing_elem. by left.
Qed.

Lemma key_one_side (i : item) k : output_key i = Some k -> call_key i = None.
Proof using. by destruct i as [| | | |? []| |? []| | | |? []| | | | | |]. Qed.

Lemma call_kept (items : list item) i : call_key i <> None -> has_match items i = true.
Proof using.
  intros Hk. apply has_match_spec. intros k Ho. by rewrite (key_one_side i k Ho) in Hk.
Qed.

Lemma omap_filter_calls (items l : list item) :
  omap call_key (List.filter (has_match items) l) = omap call_key l.
Proof using.
  induction l as [|i l IH]; csimpl; [done|]. destruct (call_key i) as [k|] eqn:E.
  - rewrite (call_kept items i) by congruence. csimpl. by rewrite E, IH.
  - destruct (has_match items i); csimpl; rewrite ?E; apply IH.
Qed.

(** Removing orphans leaves every output of a call. *)
Lemma retained_paired (items : list item) :
  (forall k, k ∈ omap call_key items -> k ∈ omap output_key items) ->
  paired (List.filter (has_match items) items).
Proof using.
  intros Hans. split.
  - intros k. rewrite omap_filter_calls. intros Hk. pose proof (Hans k Hk) as Ho.
    apply list_elem_of_omap in Ho as (o & Ho & Hok). apply list_elem_of_omap. exists o. split; [|done].
    apply list_elem_of_In, filter_In. rewrite <-list_elem_of_In. split; [done|].
    apply has_match_spec. intros k' Hk' _. congruence.
  - intros i k Hi Hk Hs. rewrite omap_filter_calls.
    apply list_elem_of_In, filter_In in Hi as [_ Hm]. by apply (proj1 (has_match_spec items i) Hm).
Qed.

Lemma no_missing_id items l :
  (forall i, i ∈ l -> missing_output new_v5 items i = None) -> flat_map (with_missing items) l = l.
Proof.
  intros Hno. induction l as [|i l IH]; [done|]. cbn [flat_map].
  rewrite IH by (intros j Hj; by apply Hno, list_elem_of_further).
  unfold with_missing. by rewrite (Hno i (list_elem_of_here _ _)).
Qed.

(** A paired history is left alone. *)
Lemma paired_ensure items :
  paired items -> ensure_call_outputs_present debug new_v5 items = Some items.
Proof.
  intros [Hc _].
  assert (Hno : forall i, i ∈ items -> missing_output new_v5 items i = None).
  { intros i Hi. pose proof (missing_output_spec items i) as Hm.
    destruct (missing_output new_v5 items i) as [[o e]|]; [|done].
    destruct Hm as (k & Hk & Hn & _). exfalso. apply Hn, Hc, list_elem_of_omap. by exists i. }
  rewrite ensure_reference.
  - f_equal. by apply no_missing_id.
  - right. apply not_true_iff_false. intros (i & Hi & He)%existsb_exists.
    unfold missing_error in He. by rewrite (Hno i) in He by by apply list_elem_of_In.
Qed.

Lemma paired_retain items : paired items -> remove_orphan_outputs debug items = Some items.
Proof.
  intros [_ Ho]. assert (Hall : forallb (has_match items) items = true).
  { apply forallb_forall. intros i Hi%list_elem_of_In. apply has_match_spec. intros k. by apply Ho. }
  unfold remove_orphan_outputs. rewrite retain_reference by by right. f_equal.
  by apply List.forallb_filter_id.
Qed.

Lemma retain_panics (items l : list item) :
  retain_matched true items l = None <-> exists i, i ∈ l /\ has_match items i = false.
Proof using.
  induction l as [|j l IH]; simpl; [split; [done|by intros (i & Hi%elem_of_nil & _)]|].
  destruct (has_match items j) eqn:E.
  - assert (Hl : (exists i, i ∈ j :: l /\ has_match items i = false) <->
        exists i, i ∈ l /\ has_match items i = false).
    { split; intros (i & Hi & Hn); exists i; (split; [|done]); [|by apply list_elem_of_further].
      apply elem_of_cons in Hi as [->|Hi]; [congruence|done]. }
    rewrite Hl, <-IH. by destruct (retain_matched true items l).
  - split; [|done]. intros _. exists j. split; [apply list_elem_of_here|done].
Qed.
End Build.
End Pairing.

(** ** Stripping *)

Section Stripping.
Context {V M : Type}.
Abbreviation item := (ResponseItem V M).

(** A change of content that leaves calls and outputs joined as they are. *)
Definition keeps_keys (f : item -> item) : Prop :=
  forall i, call_key (f i) = call_key i /\ output_key (f i) = output_key i /\ by_server (f i) = by_server i.

Lemma strip_images_keys : keeps_keys strip_item_images.
Proof using. by intros [| | | |? []| |? []| | | |? []| | | | | |]. Qed.
Lemma strip_audio_keys : keeps_keys strip_item_audio.
Proof using. by intros [| | | |? []| |? []| | | |? []| | | | | |]. Qed.

Lemma omap_keeps {B} (g : item -> option B) (f : item -> item) l :
  (forall i, g (f i) = g i) -> omap g (map f l) = omap g l.
Proof using. intros H. induction l as [|i l IH]; [done|]. csimpl. by rewrite H, IH. Qed.

Lemma keeps_paired f items : keeps_keys f -> paired items -> paired (map f items).
Proof using.
  intros Hf [Hc Ho].
  assert (Hcall : omap call_key (map f items) = omap call_key items) by (apply omap_keeps; intros; apply Hf).
  assert (Hout : omap output_key (map f items) = omap output_key items) by (apply omap_keeps; intros; apply Hf).
  split.
  - by rewrite Hcall, Hout.
  - intros i k Hi Hk Hs. rewrite Hcall. apply list_elem_of_In, in_map_iff in Hi as (j & <- & Hj%list_elem_of_In).
    destruct (Hf j) as (_ & Ek & Es). rewrite Ek in Hk. rewrite Es in Hs. by apply (Ho j).
Qed.

(** Content a model without the modality must not be sent. *)
Definition payload_has (f : FunctionCallOutputContentItem -> bool) (p : FunctionCallOutputPayload) : bool :=
  match body p with BodyText _ => false | ContentItems items => existsb f items end.
Definition has_image (i : item) : bool :=
  match i with
  | Message _ _ content _ _ => existsb (fun c => match c with InputImage _ _ => true | _ => false end) content
  | FunctionCallOutput _ _ p _ | CustomToolCallOutput _ _ _ p _ =>
      payload_has (fun c => match c with FImage _ _ => true | _ => false end) p
  | ImageGenerationCall _ _ _ result _ => negb (is_empty result)
  | _ => false
  end.
Definition has_audio (i : item) : bool :=
  match i with
  | Message _ _ content _ _ => existsb (fun c => match c with InputAudio _ => true | _ => false end) content
  | FunctionCallOutput _ _ p _ | CustomToolCallOutput _ _ _ p _ =>
      payload_has (fun c => match c with FAudio _ => true | _ => false end) p
  | _ => false
  end.

Lemma existsb_map {A B} (f : B -> bool) (g : A -> B) l : existsb f (map g l) = existsb (fun x => f (g x)) l.
Proof using. induction l as [|x l IH]; simpl; [done|]. by rewrite IH. Qed.

Lemma existsb_false {A} (f : A -> bool) l : (forall x, f x = false) -> existsb f l = false.
Proof using. intros H. induction l as [|x l IH]; simpl; [done|]. by rewrite H, IH. Qed.

Lemma existsb_same {A} (f g : A -> bool) l : (forall x, f x = g x) -> existsb f l = existsb g l.
Proof using. intros H. induction l as [|x l IH]; simpl; [done|]. by rewrite H, IH. Qed.

Lemma payload_has_map f g p : payload_has f (map_content_items g p) = payload_has (fun c => f (g c)) p.
Proof using. unfold payload_has, map_content_items. destruct (body p) eqn:E; simpl; [by rewrite E|apply existsb_map]. Qed.

Lemma payload_has_false f p : (forall c, f c = false) -> payload_has f p = false.
Proof using. intros H. unfold payload_has. destruct (body p); [done|]. by apply existsb_false. Qed.

Lemma payload_has_same f g p : (forall c, f c = g c) -> payload_has f p = payload_has g p.
Proof using. intros H. unfold payload_has. destruct (body p); [done|]. by apply existsb_same. Qed.

Lemma strip_images_gone (i : item) : has_image (strip_item_images i) = false.
Proof using.
  destruct i; simpl; try done; rewrite ?existsb_map, ?payload_has_map;
    first [apply existsb_false|apply payload_has_false]; by intros [].
Qed.
Lemma strip_audio_gone (i : item) : has_audio (strip_item_audio i) = false.
Proof using.
  destruct i; simpl; try done; rewrite ?existsb_map, ?payload_has_map;
    first [apply existsb_false|apply payload_has_false]; by intros [].
Qed.

(** Neither brings the other's content back. *)
Lemma strip_audio_images (i : item) : has_image (strip_item_audio i) = has_image i.
Proof using.
  destruct i; simpl; try done; rewrite ?existsb_map, ?payload_has_map;
    first [apply existsb_same|apply payload_has_same]; by intros [].
Qed.

Lemma map_id_in {A} (f : A -> A) l : (forall x, f x = x) -> map f l = l.
Proof using. intros H. induction l as [|x l IH]; simpl; [done|]. by rewrite H, IH. Qed.

Lemma map_content_items_twice f p :
  (forall c, f (f c) = f c) -> map_content_items f (map_content_items f p) = map_content_items f p.
Proof using.
  intros H. unfold map_content_items. destruct (body p) eqn:E; simpl; [by rewrite E|].
  do 2 f_equal. rewrite map_map. by apply map_ext.
Qed.

Lemma strip_images_twice (i : item) : strip_item_images (strip_item_images i) = strip_item_images i.
Proof using.
  destruct i; simpl; f_equal; try done; first [rewrite map_map; apply map_ext|apply map_content_items_twice]; by intros [].
Qed.
Lemma strip_audio_twice (i : item) : strip_item_audio (strip_item_audio i) = strip_item_audio i.
Proof using.
  destruct i; simpl; f_equal; try done; first [rewrite map_map; apply map_ext|apply map_content_items_twice]; by intros [].
Qed.

Lemma map_content_items_comm f g p :
  (forall c, f (g c) = g (f c)) ->
  map_content_items f (map_content_items g p) = map_content_items g (map_content_items f p).
Proof using.
  intros H. unfold map_content_items. destruct (body p) eqn:E; simpl; [by rewrite E|].
  do 2 f_equal. rewrite !map_map. by apply map_ext.
Qed.

Lemma strip_comm (i : item) : strip_item_images (strip_item_audio i) = strip_item_audio (strip_item_images i).
Proof using.
  destruct i; simpl; f_equal; try done;
    first [rewrite !map_map; apply map_ext|apply map_content_items_comm]; by intros [].
Qed.

(** Both strippings of an item. *)
Definition strip_item (modalities : list InputModality) (i : item) : item :=
  let i := if bool_decide (ModImage ∈ modalities) then i else strip_item_images i in
  if bool_decide (ModAudio ∈ modalities) then i else strip_item_audio i.

Lemma strip_both modalities (items : list item) :
  strip_audio_when_unsupported modalities (strip_images_when_unsupported modalities items)
  = map (strip_item modalities) items.
Proof using.
  unfold strip_audio_when_unsupported, strip_images_when_unsupported, strip_item.
  do 2 case_bool_decide; try done; [by rewrite map_id|by rewrite map_map].
Qed.

Lemma strip_item_keys modalities : keeps_keys (strip_item modalities).
Proof using.
  intros i. unfold strip_item. pose proof (strip_images_keys i) as (A1 & A2 & A3).
  pose proof (strip_audio_keys (strip_item_images i)) as (B1 & B2 & B3). pose proof (strip_audio_keys i).
  do 2 case_bool_decide; try done. split; [congruence|]. split; congruence.
Qed.

Lemma strip_item_twice modalities (i : item) : strip_item modalities (strip_item modalities i) = strip_item modalities i.
Proof using.
  unfold strip_item. do 2 case_bool_decide; rewrite ?strip_comm, ?strip_images_twice, ?strip_audio_twice; done.
Qed.
End Stripping.

(** ** Theorems *)

Section Theorems.
Context {V M : Type} (new_v5 : str -> str).
Abbreviation item := (ResponseItem V M).

(** Calls are neither added nor removed, so an orphan is one from the start. *)
Lemma has_match_ensured (items : list item) i :
  has_match (flat_map (with_missing new_v5 items) items) i = has_match items i.
Proof.
  apply eq_true_iff_eq. by rewrite !has_match_spec, omap_with_missing_calls.
Qed.

(** A synthetic output has its call. *)
Lemma synthetic_matched (items : list item) c o e :
  c ∈ items -> missing_output new_v5 items c = Some (o, e) -> has_match items o = true.
Proof.
  intros Hc Hm. pose proof (missing_output_spec new_v5 items c) as Hs. rewrite Hm in Hs.
  destruct Hs as (k & Hk & _ & Ho & _). apply has_match_spec. intros k' Hk' _.
  apply list_elem_of_omap. exists c. split; [done|congruence].
Qed.

Lemma filter_with_missing (items l : list item) :
  (forall i, i ∈ l -> i ∈ items) ->
  List.filter (has_match items) (flat_map (with_missing new_v5 items) l)
  = flat_map (with_missing new_v5 items) (List.filter (has_match items) l).
Proof.
  induction l as [|i l IH]; intros Hl; [done|]. cbn [flat_map]. rewrite List.filter_app, IH
    by (intros j Hj; by apply Hl, list_elem_of_further). cbn [List.filter].
  assert (Hi : i ∈ items) by apply Hl, list_elem_of_here.
  unfold with_missing at 1. pose proof (missing_output_spec new_v5 items i) as Hm.
  destruct (missing_output new_v5 items i) as [[o e]|] eqn:E.
  - destruct Hm as (k & Hk & _ & Ho & _). rewrite (call_kept items i) by congruence.
    pose proof (synthetic_matched items i o e Hi E) as Hom.
    cbn [List.filter flat_map]. rewrite (call_kept items i), Hom by congruence.
    unfold with_missing at 2. by rewrite E.
  - cbn [List.filter]. destruct (has_match items i); [|done]. cbn [flat_map].
    unfold with_missing at 2. by rewrite E.
Qed.

(** What a release build does, item by item. *)
Lemma normalize_reference modalities (items : list item) :
  normalize_history false new_v5 modalities items
  = Some (map (strip_item modalities)
            (flat_map (with_missing new_v5 items) (List.filter (has_match items) items))).
Proof.
  unfold normalize_history, remove_orphan_outputs.
  rewrite ensure_reference, retain_reference by by left. rewrite strip_both. do 2 f_equal.
  rewrite <-filter_with_missing by done. apply List.filter_ext. apply has_match_ensured.
Qed.

Lemma normalize_paired modalities (items out : list item) :
  normalize_history false new_v5 modalities items = Some out -> paired out.
Proof.
  unfold normalize_history, remove_orphan_outputs.
  rewrite ensure_reference, retain_reference by by left. rewrite strip_both. intros [= <-].
  apply keeps_paired; [apply strip_item_keys|]. apply retained_paired.
  intros k. rewrite omap_with_missing_calls. apply ensured_answered.
Qed.

(** *** What is sent, item by item *)

(** An output that needs a call and has none: a search that the server ran needs none. *)
Definition orphan (items : list item) (i : item) : Prop :=
  exists k, output_key i = Some k /\ by_server i = false /\ k ∉ omap call_key items.

(** The id of an output that stands in for a missing one, from the id of the call. *)
Definition derived_id (prefix : str) (id : option str) : option str :=
  match id with
  | None | Some [] => None
  | Some id => Some (prefix ++ lit "_" ++ new_v5 (prefix ++ lit ":" ++ id))
  end.

(** The output that stands in for the one a call lacks: aborted for a function, a shell
    command or a custom tool; completed and empty for a search. *)
Definition stands_in (c o : item) : Prop :=
  let aborted := mkPayload (BodyText (lit "aborted")) None in
  match c with
  | FunctionCall id _ _ _ _ call_id _ => o = FunctionCallOutput (derived_id (lit "fco") id) call_id aborted None
  | LocalShellCall id (Some call_id) _ _ _ => o = FunctionCallOutput (derived_id (lit "fco") id) call_id aborted None
  | CustomToolCall id _ call_id _ _ _ _ => o = CustomToolCallOutput (derived_id (lit "ctco") id) call_id None aborted None
  | ToolSearchCall id (Some call_id) _ _ _ _ =>
      o = ToolSearchOutput (derived_id (lit "tso") id) (Some call_id) (lit "completed") (lit "client") [] None
  | _ => False
  end.

(** Orphans are left out, a call without an output is followed by one that stands in,
    everything else stays. *)
Inductive completed (items : list item) : list item -> list item -> Prop :=
| completed_nil : completed items [] []
| completed_orphan i l out : orphan items i -> completed items l out -> completed items (i :: l) out
| completed_kept i l out :
    ~ orphan items i -> (forall k, call_key i = Some k -> k ∈ omap output_key items) ->
    completed items l out -> completed items (i :: l) (i :: out)
| completed_unanswered i k o l out :
    call_key i = Some k -> (k ∉ omap output_key items) -> stands_in i o -> completed items l out -> completed items (i :: l) (i :: o :: out).

Definition shown_content (m : list InputModality) (c : ContentItem) : ContentItem :=
  match c with
  | InputImage _ _ => if bool_decide (ModImage ∈ m) then c else InputText (lit "image content omitted because you do not support image input")
  | InputAudio _ => if bool_decide (ModAudio ∈ m) then c else InputText (lit "audio content omitted because you do not support audio input")
  | _ => c
  end.
Definition shown_output (m : list InputModality) (c : FunctionCallOutputContentItem) : FunctionCallOutputContentItem :=
  match c with
  | FImage _ _ => if bool_decide (ModImage ∈ m) then c else FText (lit "image content omitted because you do not support image input")
  | FAudio _ => if bool_decide (ModAudio ∈ m) then c else FText (lit "audio content omitted because you do not support audio input")
  | _ => c
  end.
Definition shown_payload (m : list InputModality) (p : FunctionCallOutputPayload) : FunctionCallOutputPayload :=
  match body p with
  | BodyText _ => p
  | ContentItems items => mkPayload (ContentItems (map (shown_output m) items)) (success p)
  end.

(** What a model sees of an item: text in the place of content it cannot read, and of a
    generated image the result left empty. *)
Definition shown (m : list InputModality) (i : item) : item :=
  match i with
  | Message id role content phase md => Message id role (map (shown_content m) content) phase md
  | FunctionCallOutput id c output md => FunctionCallOutput id c (shown_payload m output) md
  | CustomToolCallOutput id c name output md => CustomToolCallOutput id c name (shown_payload m output) md
  | ImageGenerationCall id status prompt result md => ImageGenerationCall id status prompt (if bool_decide (ModImage ∈ m) then result else []) md
  | _ => i
  end.

Lemma shown_payload_strip m p :
  (let p := (if bool_decide (ModImage ∈ m) then p else map_content_items strip_image_output p) in
   if bool_decide (ModAudio ∈ m) then p else map_content_items strip_audio_output p) = shown_payload m p.
Proof.
  destruct p as [[t|cs] ok]; unfold shown_payload, map_content_items; simpl; [by do 2 case_bool_decide|].
  do 2 case_bool_decide; simpl; rewrite ?map_map; f_equal; f_equal; first [apply map_ext | symmetry; apply map_id_in]; intros [];
    unfold shown_output; simpl; rewrite ?bool_decide_eq_true_2, ?bool_decide_eq_false_2 by done; done.
Qed.

Lemma shown_content_strip m cs :
  (let cs := (if bool_decide (ModImage ∈ m) then cs else map strip_image_content cs) in
   if bool_decide (ModAudio ∈ m) then cs else map strip_audio_content cs) = map (shown_content m) cs.
Proof.
  cbv zeta. do 2 case_bool_decide; rewrite ?map_map; first [apply map_ext | symmetry; apply map_id_in]; intros [];
    unfold shown_content; simpl; rewrite ?bool_decide_eq_true_2, ?bool_decide_eq_false_2 by done; done.
Qed.

Lemma strip_item_shown m (i : item) : strip_item m i = shown m i.
Proof.
  unfold strip_item. destruct i; simpl; rewrite <-?shown_payload_strip, <-?shown_content_strip; cbv zeta; do 2 case_bool_decide; done.
Qed.

Lemma has_match_orphan (items : list item) i : has_match items i = false <-> orphan items i.
Proof.
  rewrite <-not_true_iff_false, has_match_spec. unfold orphan. split.
  - intros Hn. destruct (output_key i) as [k|] eqn:Ek; [|exfalso; apply Hn; congruence].
    destruct (by_server i) eqn:Eb; [exfalso; apply Hn; congruence|]. exists k. split_and!; [done..|].
    intros Hin. apply Hn. intros k' [= <-] _. done.
  - intros (k & Hk & Hb & Hn) Hall. by apply Hn, Hall.
Qed.

Lemma synthetic_derived prefix id : synthetic_output_id new_v5 prefix id = derived_id prefix id.
Proof. by destruct id as [[|]|]. Qed.

Lemma missing_stands_in (items : list item) i o e :
  missing_output new_v5 items i = Some (o, e) -> stands_in i o.
Proof.
  intros Hm. destruct i as [| | | |? []| |? []| | | | | | | | | |]; simpl in Hm |- *; try done; case_bool_decide; try done;
    injection Hm as <- _; unfold aborted_output; by rewrite synthetic_derived.
Qed.

Lemma completed_reference (items l : list item) :
  completed items l (flat_map (with_missing new_v5 items) (List.filter (has_match items) l)).
Proof.
  induction l as [|i l IH]; [constructor|]. cbn [List.filter].
  destruct (has_match items i) eqn:Eh; [|apply completed_orphan; [by apply has_match_orphan | done]].
  cbn [flat_map]. unfold with_missing at 1. pose proof (missing_output_spec new_v5 items i) as Hm.
  destruct (missing_output new_v5 items i) as [[o e]|] eqn:E.
  - destruct Hm as (k & Hk & Hn & _). eapply completed_unanswered; [done..|by eapply missing_stands_in|done].
  - apply completed_kept; [by rewrite <-has_match_orphan, Eh|done|done].
Qed.

(** C22.  What a release build sends to the model is the history in its order, where
    outputs that need a call and have none are left out (the output of a search the
    server ran needs none), each call without an output is followed by one that stands
    in for it (aborted for functions, shell commands and custom tools, completed and
    empty for searches), and of each item what the model can read is shown.  Then every
    call has an output, every output that needs one has a call, nothing unsupported is
    left, and normalizing again, in any build, changes nothing. *)
Theorem normalize_wellformed modalities (items : list item) :
  exists all out,
    normalize_history false new_v5 modalities items = Some out /\
    completed items items all /\ out = map (shown modalities) all /\
    paired out /\
    (ModImage ∉ modalities -> existsb has_image out = false) /\
    (ModAudio ∉ modalities -> existsb has_audio out = false) /\
    (forall debug v5, normalize_history debug v5 modalities out = Some out).
Proof.
  eexists _, _. split; [apply normalize_reference|]. split; [apply completed_reference|]. split; [apply map_ext; intros; apply strip_item_shown|].
  pose proof (normalize_paired modalities items _ (normalize_reference modalities items)) as Hp.
  set (out := map _ _) in *. split; [done|].
  assert (Hin : forall i, In i out -> exists j, i = strip_item modalities j)
    by (intros i (j & <- & _)%in_map_iff; by exists j).
  split; [|split].
  - intros Hm. apply not_true_iff_false. intros (i & Hi & He)%existsb_exists.
    destruct (Hin i Hi) as [j ->]. unfold strip_item in He. rewrite (bool_decide_eq_false_2 _ Hm) in He.
    destruct (bool_decide _); rewrite ?strip_audio_images, strip_images_gone in He; done.
  - intros Hm. apply not_true_iff_false. intros (i & Hi & He)%existsb_exists.
    destruct (Hin i Hi) as [j ->]. unfold strip_item in He. rewrite (bool_decide_eq_false_2 (ModAudio ∈ _) Hm) in He.
    by rewrite strip_audio_gone in He.
  - intros debug v5. unfold normalize_history. rewrite paired_ensure, paired_retain, strip_both by done.
    unfold out. rewrite map_map. f_equal. apply map_ext. intros i. apply strip_item_twice.
Qed.

(** A debug build stops exactly when the history is inconsistent: when a
    custom tool call or a local shell call has no output, or an output that
    needs a call has none; a release build never does. *)
Theorem normalize_panics_iff debug modalities (items : list item) :
  normalize_history debug new_v5 modalities items = None <->
  debug = true /\ exists i, i ∈ items /\ (missing_error new_v5 items i = true \/ has_match items i = false).
Proof.
  destruct debug; [|rewrite normalize_reference; split; [done|by intros [? _]]].
  destruct (existsb (missing_error new_v5 items) items) eqn:Ee.
  - assert (normalize_history true new_v5 modalities items = None) as ->.
    { unfold normalize_history, ensure_call_outputs_present. by rewrite (missing_outputs_panic new_v5 items 0 items Ee). }
    split; [intros _|done]. split; [done|]. apply existsb_exists in Ee as (i & Hi%list_elem_of_In & He).
    exists i. auto.
  - unfold normalize_history. rewrite ensure_reference by by right.
    unfold remove_orphan_outputs. set (e := flat_map _ _).
    assert (Hp : retain_matched true e e = None <-> exists i, i ∈ items /\ has_match items i = false).
    { rewrite retain_panics. unfold e. setoid_rewrite has_match_ensured.
      split; intros (i & Hi & Hn); exists i; (split; [|done]); [|apply with_missing_elem; by left].
      apply with_missing_elem in Hi as [Hi|(c & b & Hc & Hm)]; [done|].
      by rewrite (synthetic_matched items c i b Hc Hm) in Hn. }
    assert (Hno : forall i, i ∈ items -> missing_error new_v5 items i = false).
    { intros i Hi. apply not_true_iff_false. intros He. apply not_true_iff_false in Ee.
      apply Ee, existsb_exists. exists i. by rewrite <-list_elem_of_In. }
    destruct (retain_matched true e e).
    + split; [done|]. intros [_ (i & Hi & [He|Hn])]; [by rewrite Hno in He|].
      by discriminate (proj2 Hp (ex_intro _ i (conj Hi Hn))).
    + split; [intros _|done]. split; [done|]. destruct (proj1 Hp eq_refl) as (i & Hi & Hn). exists i. auto.
Qed.
End Theorems.

(** ** Dropping an item with its counterpart *)

Section Dropping.
Context {V M : Type}.
Abbreviation item := (ResponseItem V M).

(** No call id is used twice for calls, nor for outputs, of a kind. *)
Definition unique_keys (items : list item) : Prop :=
  NoDup (omap call_key items) /\ NoDup (omap output_key items).

Definition without (g : item -> option (call_kind * str)) (k : call_kind * str) (l : list item) : list item :=
  List.filter (fun i => negb (bool_decide (g i = Some k))) l.

Lemma without_elem g k l i : i ∈ without g k l <-> i ∈ l /\ g i <> Some k.
Proof using.
  unfold without. rewrite !list_elem_of_In, filter_In, negb_true_iff, bool_decide_eq_false. done.
Qed.

Lemma without_absent g k (l : list item) : k ∉ omap g l -> without g k l = l.
Proof using.
  intros Hk. apply List.forallb_filter_id, forallb_forall. intros i Hi%list_elem_of_In.
  apply negb_true_iff, bool_decide_eq_false. intros He. apply Hk, list_elem_of_omap. by exists i.
Qed.

(** With unique keys the first match is the only one. *)
Lemma remove_first_unique g k (P : item -> bool) l :
  (forall i, i ∈ l -> P i = bool_decide (g i = Some k)) -> NoDup (omap g l) ->
  remove_first_matching P l = without g k l.
Proof using.
  induction l as [|i l IH]; intros HP Hn; [done|]. cbn [remove_first_matching without List.filter].
  rewrite HP by apply list_elem_of_here. csimpl in Hn. case_bool_decide as E; simpl.
  - rewrite E in Hn. apply NoDup_cons in Hn as [Hk _]. symmetry. by apply without_absent.
  - f_equal. apply IH; [intros j Hj; by apply HP, list_elem_of_further|].
    destruct (g i); [by apply NoDup_cons in Hn as [_ ?]|done].
Qed.

Lemma omap_without g k (h : item -> option (call_kind * str)) l : omap h (without g k l) `sublist_of` omap h l.
Proof using.
  induction l as [|i l IH]; [done|]. unfold without. cbn [List.filter]. csimpl.
  destruct (negb _); csimpl; destruct (h i); try done; by constructor.
Qed.

Lemma key_unique (g : item -> option (call_kind * str)) k l i j :
  NoDup (omap g l) -> i ∈ l -> j ∈ l -> g i = Some k -> g j = Some k -> i = j.
Proof using.
  induction l as [|x l IH]; intros Hn Hi Hj Gi Gj; [by apply elem_of_nil in Hi|]. csimpl in Hn.
  assert (Hin : forall y, y ∈ l -> g y = Some k -> k ∈ omap g l)
    by (intros y Hy Gy; apply list_elem_of_omap; by exists y).
  apply elem_of_cons in Hi as [->|Hi], Hj as [->|Hj]; try done.
  - rewrite Gi in Hn. apply NoDup_cons in Hn as [Hk _]. by destruct (Hk (Hin j Hj Gj)).
  - rewrite Gj in Hn. apply NoDup_cons in Hn as [Hk _]. by destruct (Hk (Hin i Hi Gi)).
  - apply IH; try done. destruct (g x); [by apply NoDup_cons in Hn as [_ ?]|done].
Qed.

(** The counterparts of an item are those of its key. *)
Lemma remove_corresponding_call (rest : list item) x k :
  call_key x = Some k -> NoDup (omap output_key rest) ->
  remove_corresponding_for rest x = without output_key k rest.
Proof using.
  intros Hk Hn. destruct x as [| | | |? [c|]| |? [c|]| | | | | | | | | |]; simplify_eq/=;
    (apply (remove_first_unique output_key); [|done]);
    intros i _; destruct i as [| | | | | | | | | |? []| | | | | |]; simpl; try done;
    apply bool_decide_ext; naive_solver.
Qed.

Lemma remove_corresponding_output (rest : list item) x k :
  output_key x = Some k -> NoDup (omap call_key rest) ->
  remove_corresponding_for rest x = without call_key k rest.
Proof using.
  intros Hk Hn. destruct x as [| | | | | | |? c| |? c|? [c|]| | | | | |]; simplify_eq/=.
  - destruct (existsb (is_function_call c) rest) eqn:E.
    + apply existsb_exists in E as (j & Hj%list_elem_of_In & Hf).
      assert (Gj : call_key j = Some (KFunction, c))
        by (destruct j; simpl in *; try done; apply bool_decide_eq_true in Hf; congruence).
      apply (remove_first_unique call_key); [|done]. intros i Hi.
      destruct (decide (call_key i = Some (KFunction, c))) as [Gi|Gi].
      * rewrite (key_unique call_key _ rest i j Hn Hi Hj Gi Gj), Hf, bool_decide_eq_true_2; done.
      * rewrite bool_decide_eq_false_2 by done. destruct i; simpl in *; try done.
        apply bool_decide_eq_false. congruence.
    + apply (remove_first_unique call_key); [|done]. intros i Hi.
      assert (Hf : is_function_call c i = false).
      { apply not_true_iff_false. intros Hf. apply not_true_iff_false in E. apply E, existsb_exists.
        exists i. by rewrite <-list_elem_of_In. }
      destruct i as [| | | |? []| |? []| | | | | | | | | |]; simpl in *; try done;
        apply bool_decide_eq_false in Hf || idtac; try (symmetry; apply bool_decide_eq_false; congruence);
        apply bool_decide_ext; naive_solver.
  - apply (remove_first_unique call_key); [|done]. intros i _.
    destruct i as [| | | |? []| |? []| | | | | | | | | |]; simpl; try done; apply bool_decide_ext; naive_solver.
  - apply (remove_first_unique call_key); [|done]. intros i _.
    destruct i as [| | | |? []| |? []| | | | | | | | | |]; simpl; try done; apply bool_decide_ext; naive_solver.
Qed.

Lemma remove_corresponding_none (rest : list item) x :
  call_key x = None -> output_key x = None -> remove_corresponding_for rest x = rest.
Proof using. by destruct x as [| | | |? []| |? []| | | |? []| | | | | |]. Qed.

Lemma unique_tail x (rest : list item) : unique_keys (x :: rest) -> unique_keys rest.
Proof using.
  unfold unique_keys. csimpl. destruct (call_key x), (output_key x); rewrite ?NoDup_cons; naive_solver.
Qed.

Lemma without_unique g k (rest : list item) : unique_keys rest -> unique_keys (without g k rest).
Proof using.
  intros [Hc Ho]. split; (eapply sublist_NoDup; [|apply omap_without]); done.
Qed.

Lemma omap_without_iff g k (h : item -> option (call_kind * str)) l k' :
  k' ∈ omap h (without g k l) <-> exists i, i ∈ l /\ h i = Some k' /\ g i <> Some k.
Proof using. rewrite list_elem_of_omap. setoid_rewrite without_elem. naive_solver. Qed.

(** Dropping both halves of a pair leaves the others paired. *)
Lemma drop_call_paired x (rest : list item) k :
  call_key x = Some k -> paired (x :: rest) -> unique_keys (x :: rest) -> paired (without output_key k rest).
Proof using.
  intros Hk [Hc Ho] [Hn _]. csimpl in Hn. rewrite Hk in Hn. apply NoDup_cons in Hn as [Hfresh _].
  assert (Hx : output_key x = None).
  { destruct (output_key x) as [k'|] eqn:E; [|done]. by rewrite (key_one_side x k' E) in Hk. }
  split.
  - intros k' (i & Hi & Hk' & _)%omap_without_iff.
    assert (k' ≠ k) by (intros ->; apply Hfresh, list_elem_of_omap; by exists i).
    specialize (Hc k' ltac:(apply list_elem_of_omap; exists i; split; [by apply list_elem_of_further|done])).
    csimpl in Hc. rewrite Hx in Hc. apply list_elem_of_omap in Hc as (o & Ho' & Hok).
    apply omap_without_iff. exists o. split; [done|]. split; [done|congruence].
  - intros o k' [Hi Hne]%without_elem Hk' Hs.
    pose proof (Ho o k' (list_elem_of_further _ _ _ Hi) Hk' Hs) as Hcall. csimpl in Hcall. rewrite Hk in Hcall.
    apply elem_of_cons in Hcall as [->|Hcall]; [done|].
    apply list_elem_of_omap in Hcall as (c & Hc' & Hck). apply omap_without_iff. exists c.
    split; [done|]. split; [done|]. intros Hoc. by rewrite (key_one_side c k Hoc) in Hck.
Qed.

Lemma drop_output_paired x (rest : list item) k :
  output_key x = Some k -> paired (x :: rest) -> unique_keys (x :: rest) -> paired (without call_key k rest).
Proof using.
  intros Hk [Hc Ho] [_ Hn]. csimpl in Hn. rewrite Hk in Hn. apply NoDup_cons in Hn as [Hfresh _].
  pose proof (key_one_side x k Hk) as Hx. split.
  - intros k' (i & Hi & Hk' & Hne)%omap_without_iff.
    specialize (Hc k' ltac:(apply list_elem_of_omap; exists i; split; [by apply list_elem_of_further|done])).
    csimpl in Hc. rewrite Hk in Hc. apply elem_of_cons in Hc as [->|Hc]; [done|].
    apply list_elem_of_omap in Hc as (o & Ho' & Hok). apply omap_without_iff. exists o.
    split; [done|]. split; [done|]. by rewrite (key_one_side o k' Hok).
  - intros o k' [Hi Hne]%without_elem Hk' Hs.
    assert (k' ≠ k) by (intros ->; apply Hfresh, list_elem_of_omap; by exists o).
    pose proof (Ho o k' (list_elem_of_further _ _ _ Hi) Hk' Hs) as Hcall. csimpl in Hcall. rewrite Hx in Hcall.
    apply list_elem_of_omap in Hcall as (c & Hc' & Hck). apply omap_without_iff. exists c.
    split; [done|]. split; [done|congruence].
Qed.

Lemma drop_plain_paired x (rest : list item) :
  call_key x = None -> output_key x = None -> paired (x :: rest) -> paired rest.
Proof using.
  intros Hc Ho [H1 H2]. split.
  - intros k Hk. specialize (H1 k). csimpl in H1. rewrite Hc, Ho in H1. by apply H1.
  - intros i k Hi Hk Hs. specialize (H2 i k (list_elem_of_further _ _ _ Hi) Hk Hs). csimpl in H2.
    by rewrite Hc in H2.
Qed.

Lemma remove_corresponding_length (rest : list item) x :
  length (remove_corresponding_for rest x) <= length rest.
Proof using.
  assert (Hr : forall P l, length (remove_first_matching P l : list item) <= length l).
  { intros P l. induction l as [|i l IH]; simpl; [lia|]. destruct (P i); simpl; lia. }
  destruct x as [| | | |? []| |? []| | | |? []| | | | | |]; simpl; try lia; try apply Hr.
  destruct (existsb _ rest); apply Hr.
Qed.

Lemma remove_corresponding_paired x (rest : list item) :
  paired (x :: rest) -> unique_keys (x :: rest) ->
  paired (remove_corresponding_for rest x) /\ unique_keys (remove_corresponding_for rest x).
Proof using.
  intros Hp Hu. pose proof (unique_tail x rest Hu) as [Hn1 Hn2].
  destruct (call_key x) as [k|] eqn:Hk; [|destruct (output_key x) as [k|] eqn:Hok].
  - rewrite (remove_corresponding_call rest x k) by done.
    split; [by eapply drop_call_paired|by apply without_unique].
  - rewrite (remove_corresponding_output rest x k) by done.
    split; [by eapply drop_output_paired|by apply without_unique].
  - rewrite remove_corresponding_none by done. split; [by eapply drop_plain_paired|done].
Qed.
End Dropping.
