(* ===== verification/History.v ===== *)
(** * The conversation history

    Models the items of [core/src/context_manager/history.rs]
    ([ContextManager]) and the classification of developer messages of
    [core/src/event_mapping.rs]: recording with truncated tool outputs,
    preparing the prompt, dropping the oldest item, and rolling back turns. The
    token counters and the estimates of token use are not modelled; the
    recognizers of contextual user text and of messages between agents, and the
    cost of audio, are parameters. *)

From Stdlib Require Import ZArith Lia SpecFloat.
From S2P Require Import Prelude RustStr Utf8 HeadTailBuffer Truncate ResponseItems Normalize.

(** ** Contextual developer messages *)

Definition CONTEXTUAL_DEVELOPER_PREFIXES : list str := Eval vm_compute in
    [lit "<permissions instructions>"; lit "Approved command prefix saved:"; lit "<model_switch>";
     lit "<apps_instructions>"; lit "<collaboration_mode>"; lit "<multi_agent_mode>"; lit "<environments_instructions>";
     lit "<git_attribution>"; lit "<plugins_instructions>"; lit "<realtime_conversation>"; lit "<skills_instructions>";
     lit "<tools>"; lit "<personality_spec>"; lit "<token_budget>"; lit "<context_window>"; lit "<context_window_guidance>";
     lit "<rollout_budget>"].

(** [trimmed.get(..prefix.len())] compared without case. *)
Definition starts_with_ignore_case (prefix text : str) : bool :=
  match slice_to (blen prefix) text with
  | Some candidate => eq_ignore_ascii_case candidate prefix
  | None => false
  end.

Definition is_contextual_dev_fragment (c : ContentItem) : bool :=
  match c with
  | InputText text =>
      existsb (fun prefix => starts_with_ignore_case prefix (trim_start text)) CONTEXTUAL_DEVELOPER_PREFIXES
  | _ => false
  end.

Definition is_contextual_dev_message_content (message : list ContentItem) : bool :=
  existsb is_contextual_dev_fragment message.
Definition has_non_contextual_dev_message_content (message : list ContentItem) : bool :=
  existsb (fun c => negb (is_contextual_dev_fragment c)) message.

Example dev_fragment : is_contextual_dev_fragment (InputText (lit "  <Tools> x")) = true.
Proof. vm_compute. reflexivity. Qed.

(** ** Scaling a budget *)

(** The [f64] nearest to 1.2, the multiplication of [f64] and the ceiling as
    [usize], with the saturation of a cast. *)
Definition F64_1_2 : spec_float := S754_finite false 5404319552844595 (-52).

Definition f64_of_N (n : N) : spec_float := binary_normalize 53 1024 (Z.of_N n) 0 false.

Definition f64_ceil_usize (f : spec_float) : N :=
  match f with
  | S754_finite false m e =>
      N.min USIZE_MAX
        (if (0 <=? e)%Z then Z.to_N (Z.pos m * 2 ^ e)
         else Z.to_N (- (- Z.pos m / 2 ^ (- e))))
  | S754_infinity false => USIZE_MAX
  | _ => 0
  end.

Definition scale_1_2 (n : N) : N := f64_ceil_usize (SFmul 53 1024 (f64_of_N n) F64_1_2).

(** [policy * 1.2]. *)
Definition with_serialization_budget (p : TruncationPolicy) : TruncationPolicy :=
  match p with Bytes n => Bytes (scale_1_2 n) | Tokens n => Tokens (scale_1_2 n) end.

Example scale_examples :
  map scale_1_2 [0; 1; 5; 10; 11; 10000; 40000]%N = [0; 2; 6; 12; 14; 12000; 48000]%N.
Proof. vm_compute. reflexivity. Qed.

Section History.
Context {V M RC WS TI : Type}.
(** [is_contextual_user_fragment]; whether a text parses as an
    [InterAgentCommunication]; [estimate_audio_token_count]. *)
Context (is_contextual_user_fragment : ContentItem -> bool) (is_inter_agent_text : str -> bool).
Context (estimate_audio_token_count : str -> N).

Abbreviation item := (ResponseItem V M).

Record ContextManager : Type := mkContext {
  items : list item;
  history_version : N;
  token_info : option TI;
  reference_context_item : option RC;
  world_state_baseline : option WS;
}.

Definition new_context : ContextManager := mkContext [] 0 None None None.

Definition set_token_info (c : ContextManager) (info : option TI) : ContextManager :=
  mkContext (items c) (history_version c) info (reference_context_item c) (world_state_baseline c).
Definition set_reference_context_item (c : ContextManager) (r : option RC) : ContextManager :=
  mkContext (items c) (history_version c) (token_info c) r (world_state_baseline c).
Definition set_world_state_baseline (c : ContextManager) (w : WS) : ContextManager :=
  mkContext (items c) (history_version c) (token_info c) (reference_context_item c) (Some w).

(** ** Recording *)

Definition is_api_message (i : item) : bool :=
  match i with
  | Message _ role _ _ _ => negb (bool_decide (role = lit "system"))
  | CompactionTrigger | Other => false
  | _ => true
  end.

Definition truncate_function_output_payload (output : FunctionCallOutputPayload) (p : TruncationPolicy)
    : option FunctionCallOutputPayload :=
  let! b :=
    (match body output with
     | BodyText content => let! t := truncate_text content p in Some (BodyText t)
     | ContentItems l =>
         let! l := truncate_function_output_items_with_policy estimate_audio_token_count l p in
         Some (ContentItems l)
     end) in
  Some (mkPayload b (success output)).

Definition process_item (i : item) (p : TruncationPolicy) : option item :=
  let p := with_serialization_budget p in
  match i with
  | FunctionCallOutput id c output md =>
      let! output := truncate_function_output_payload output p in Some (FunctionCallOutput id c output md)
  | CustomToolCallOutput id c name output md =>
      let! output := truncate_function_output_payload output p in Some (CustomToolCallOutput id c name output md)
  | _ => Some i
  end.

Fixpoint record_items (c : ContextManager) (l : list item) (p : TruncationPolicy) : option ContextManager :=
  match l with
  | [] => Some c
  | i :: l' =>
      if is_api_message i then
        let! processed := process_item i p in
        record_items
          (mkContext (items c ++ [processed]) (history_version c) (token_info c)
             (reference_context_item c) (world_state_baseline c)) l' p
      else record_items c l' p
  end.

(** ** The prompt *)

Definition for_prompt (debug : bool) (new_v5 : str -> str) (c : ContextManager)
    (modalities : list InputModality) : option (list item) :=
  normalize_history debug new_v5 modalities (items c).

(** ** Dropping *)

Definition remove_first_item (c : ContextManager) : ContextManager :=
  match items c with
  | [] => c
  | removed :: rest =>
      mkContext (remove_corresponding_for rest removed) (history_version c) (token_info c)
        (reference_context_item c) None
  end.

Definition replace (c : ContextManager) (l : list item) : ContextManager :=
  mkContext l (N.min 18446744073709551615 (history_version c + 1)) (token_info c)
    (reference_context_item c) None.

(** ** Turns *)

Definition is_contextual_user_message_content (message : list ContentItem) : bool :=
  existsb is_contextual_user_fragment message.

Definition is_inter_agent_instruction_content (content : list ContentItem) : bool :=
  match content with
  | [InputText text] | [OutputText text] => is_inter_agent_text text
  | _ => false
  end.

Definition is_user_turn_boundary (i : item) : bool :=
  match i with
  | AgentMessage _ _ _ _ _ => true
  | Message _ role content _ _ =>
      (bool_decide (role = lit "user") && negb (is_contextual_user_message_content content))
      || (bool_decide (role = lit "assistant") && is_inter_agent_instruction_content content)
  | _ => false
  end.

Fixpoint positions_from (idx : nat) (l : list item) : list nat :=
  match l with
  | [] => []
  | i :: l' => if is_user_turn_boundary i then idx :: positions_from (S idx) l' else positions_from (S idx) l'
  end.
Definition user_message_positions (l : list item) : list nat := positions_from 0 l.

(** An item a rollback takes along, and whether it holds more than context. *)
Definition trimmable (i : item) : option bool :=
  match i with
  | Message _ role content _ _ =>
      if bool_decide (role = lit "developer") && is_contextual_dev_message_content content
      then Some (has_non_contextual_dev_message_content content)
      else if bool_decide (role = lit "user") && is_contextual_user_message_content content
      then Some false
      else None
  | _ => None
  end.

(** The loop of [trim_pre_turn_context_updates]: the cut, and whether the
    baseline is given up. *)
Fixpoint trim_from (snapshot : list item) (first cut : nat) : nat * bool :=
  match cut with
  | 0 => (0, false)
  | S c =>
      if first <? cut then
        match snapshot !! c with
        | Some i =>
            match trimmable i with
            | Some mixed => let '(r, cleared) := trim_from snapshot first c in (r, mixed || cleared)
            | None => (cut, false)
            end
        | None => (cut, false)
        end
      else (cut, false)
  end.

Definition trim_pre_turn_context_updates (c : ContextManager) (snapshot : list item) (first cut : nat)
    : ContextManager * nat :=
  let '(r, cleared) := trim_from snapshot first cut in
  (if cleared then set_reference_context_item c None else c, r).

Definition drop_last_n_user_turns (c : ContextManager) (num_turns : nat) : ContextManager :=
  if num_turns =? 0 then c
  else
    let snapshot := items c in
    match user_message_positions snapshot with
    | [] => replace c snapshot
    | (first :: _) as positions =>
        let cut :=
          if length positions <=? num_turns then first
          else default 0 (positions !! (length positions - num_turns)) in
        let '(c, cut) := trim_pre_turn_context_updates c snapshot first cut in
        replace c (take cut snapshot)
    end.

Definition is_model_generated_item (i : item) : bool :=
  match i with
  | Message _ role _ _ _ => bool_decide (role = lit "assistant")
  | Reasoning _ _ _ _ _ | FunctionCall _ _ _ _ _ _ _ | ToolSearchCall _ _ _ _ _ _
  | WebSearchCall _ _ _ _ | ImageGenerationCall _ _ _ _ _ | CustomToolCall _ _ _ _ _ _ _
  | LocalShellCall _ _ _ _ _ | Compaction _ _ _ | ContextCompaction _ _ _ => true
  | _ => false
  end.

(** [rposition]: the items after the last the model produced. *)
Fixpoint after_last (f : item -> bool) (l : list item) : option (list item) :=
  match l with
  | [] => None
  | i :: l' => match after_last f l' with
               | Some r => Some r
               | None => if f i then Some l' else None
               end
  end.
Definition items_after_last_model_generated_item (c : ContextManager) : list item :=
  default [] (after_last is_model_generated_item (items c)).
End History.
Arguments ContextManager V M RC WS TI : clear implicits.

(** ** Rolling back *)

Section Rollback.
Context {V M RC WS TI : Type}.
Context (is_contextual_user_fragment : ContentItem -> bool) (is_inter_agent_text : str -> bool).
Abbreviation item := (ResponseItem V M).
Abbreviation boundary := (is_user_turn_boundary (V := V) (M := M) is_contextual_user_fragment is_inter_agent_text).
Abbreviation trims := (trimmable (V := V) (M := M) is_contextual_user_fragment).
Abbreviation positions_from := (positions_from (V := V) (M := M) is_contextual_user_fragment is_inter_agent_text).

(** The number of turns. *)
Definition turns (l : list item) : nat := length (List.filter boundary l).

Lemma turns_app l k : turns (l ++ k) = turns l + turns k.
Proof. unfold turns. by rewrite List.filter_app, length_app. Qed.

Lemma positions_length idx l : length (positions_from idx l) = turns l.
Proof.
  revert idx. induction l as [|i l IH]; intros idx; [done|]. unfold turns. simpl.
  destruct (boundary i); simpl; by rewrite IH.
Qed.

(** The position of a turn: a boundary with that many turns before it. *)
Lemma positions_lookup idx l k p :
  positions_from idx l !! k = Some p ->
  exists a b r, l = a ++ b :: r /\ p = idx + length a /\ turns a = k /\ boundary b = true.
Proof.
  revert idx k. induction l as [|i l IH]; intros idx k; simpl; [done|].
  destruct (boundary i) eqn:E.
  - destruct k as [|k]; simpl.
    + intros [= <-]. exists [], i, l. split; [done|]. split; [simpl; lia|done].
    + intros (a & b & r & -> & -> & Ha & Hb)%IH. exists (i :: a), b, r.
      split; [done|]. split; [simpl; lia|]. split; [|done]. unfold turns in *. simpl. rewrite E. simpl. lia.
  - intros (a & b & r & -> & -> & Ha & Hb)%IH. exists (i :: a), b, r.
    split; [done|]. split; [simpl; lia|]. split; [|done]. unfold turns in *. simpl. by rewrite E.
Qed.

(** Context that is trimmed is no turn. *)
Lemma trims_no_boundary i m : trims i = Some m -> boundary i = false.
Proof.
  destruct i; simpl; try done.
  destruct (bool_decide (role = lit "developer")) eqn:Ed.
  - apply bool_decide_eq_true in Ed as ->. by destruct (is_contextual_dev_message_content content).
  - simpl. destruct (bool_decide (role = lit "user")) eqn:Eu; [|done].
    apply bool_decide_eq_true in Eu as ->. simpl. by destruct (is_contextual_user_message_content _ _).
Qed.

(** The loop takes along the trimmable items above the cut, down to [first]. *)
Lemma trim_from_spec (pre mid rest : list item) first :
  first <= length pre -> (forall i, i ∈ mid -> exists m, trims i = Some m) ->
  (length pre = first \/ exists a i, pre = a ++ [i] /\ trims i = None) ->
  trim_from is_contextual_user_fragment (pre ++ mid ++ rest) first (length (pre ++ mid))
  = (length pre, existsb (fun i => bool_decide (trims i = Some true)) mid).
Proof.
  intros Hf Hmid Hstop. revert rest. induction mid as [|i mid IH] using rev_ind; intros rest.
  - rewrite app_nil_r. destruct (length pre) as [|n] eqn:En; [done|]. cbn [trim_from].
    destruct (first <? S n) eqn:El; [|done]. apply Nat.ltb_lt in El.
    destruct Hstop as [|(a & i & -> & Hi)]; [lia|]. rewrite length_app in En. simpl in En.
    rewrite lookup_app_l by (rewrite length_app; simpl; lia).
    rewrite lookup_app_r by lia. replace (n - length a) with 0 by lia. cbn. by rewrite Hi.
  - assert (HL : pre ++ (mid ++ [i]) ++ rest = pre ++ mid ++ i :: rest) by by rewrite <-app_assoc.
    assert (Hl : length (pre ++ mid ++ [i]) = S (length (pre ++ mid))) by (rewrite !length_app; simpl; lia).
    rewrite HL, Hl. cbn [trim_from]. rewrite (proj2 (Nat.ltb_lt _ _)) by (rewrite length_app; lia).
    rewrite (app_assoc pre), lookup_app_r, Nat.sub_diag by done. cbn [lookup list_lookup].
    destruct (Hmid i ltac:(apply elem_of_app; right; apply list_elem_of_here)) as [m Hm].
    rewrite Hm, <-app_assoc, IH by (intros j Hj; apply Hmid, elem_of_app; by left).
    rewrite existsb_app. simpl. rewrite Hm, orb_false_r, orb_comm. do 2 f_equal. by destruct m.
Qed.

(** The trimmable items at the end of a list, down to a length. *)
Lemma trim_split first (l : list item) :
  first <= length l ->
  exists pre mid, l = pre ++ mid /\ first <= length pre /\
    (forall i, i ∈ mid -> exists m, trims i = Some m) /\
    (length pre = first \/ exists a i, pre = a ++ [i] /\ trims i = None).
Proof.
  induction l as [|i l IH] using rev_ind; intros Hf.
  { exists [], []. simpl in *. split; [done|]. split; [done|]. split; [by intros i ?%elem_of_nil|left; lia]. }
  destruct (decide (first = length (l ++ [i]))) as [->|Hne].
  { exists (l ++ [i]), []. rewrite app_nil_r. split; [done|]. split; [done|].
    split; [by intros j ?%elem_of_nil|by left]. }
  rewrite length_app in Hf, Hne. simpl in Hf, Hne. destruct (trims i) as [m|] eqn:E.
  - destruct IH as (pre & mid & -> & Hp & Hm & Hs); [lia|]. exists pre, (mid ++ [i]).
    rewrite app_assoc. split; [done|]. split; [done|]. split; [|done].
    intros j [Hj| ->%list_elem_of_singleton]%elem_of_app; [by apply Hm|by exists m].
  - exists (l ++ [i]), []. rewrite app_nil_r. split; [done|]. rewrite length_app. split; [simpl; lia|].
    split; [by intros j ?%elem_of_nil|]. right. by exists l, i.
Qed.

Lemma trimmed_turns (mid : list item) : (forall i, i ∈ mid -> exists m, trims i = Some m) -> turns mid = 0.
Proof.
  intros Hm. unfold turns. induction mid as [|i mid IH]; [done|]. simpl.
  destruct (Hm i (list_elem_of_here _ _)) as [m Hi]. rewrite (trims_no_boundary i m Hi).
  apply IH. intros j Hj. by apply Hm, list_elem_of_further.
Qed.

(** What a rollback of [n] turns makes of a history. *)
Record rolled_back (n : nat) (c c' : ContextManager V M RC WS TI) (pre mid rest : list item) : Prop := mkRolled {
  rolled_split : items c = pre ++ mid ++ rest;
  rolled_items : items c' = pre;
  rolled_turns : turns pre = turns (items c) - n;
  rolled_at_turn : match rest with b :: _ => boundary b = true | [] => turns (items c) = 0 end;
  rolled_context : forall i, i ∈ mid -> exists m, trims i = Some m;
  rolled_stops :
    (exists a i, pre = a ++ [i] /\ trims i = None) \/
    (turns pre = 0 /\ match mid ++ rest with b :: _ => boundary b = true | [] => True end);
  rolled_reference :
    reference_context_item c'
    = if existsb (fun i => bool_decide (trims i = Some true)) mid then None else reference_context_item c;
}.

(** No turn starts before the first. *)
Lemma first_turn (a0 r0 a r : list item) b0 b :
  a0 ++ b0 :: r0 = a ++ b :: r -> turns a0 = 0 -> boundary b = true -> length a0 <= length a.
Proof.
  intros Heq H0 Hb. destruct (decide (length a0 <= length a)) as [|Hlt]; [done|]. exfalso.
  apply (f_equal (take (length (a ++ [b])))) in Heq.
  replace (a ++ b :: r) with ((a ++ [b]) ++ r) in Heq by by rewrite <-app_assoc.
  rewrite take_app_length, take_app_le in Heq by (rewrite length_app; simpl; lia).
  rewrite <-(take_drop (length (a ++ [b])) a0), turns_app, Heq, turns_app in H0.
  unfold turns at 2 in H0. simpl in H0. rewrite Hb in H0. simpl in H0. lia.
Qed.

Lemma drop_no_turns n (c : ContextManager V M RC WS TI) :
  0 < n -> turns (items c) = 0 ->
  drop_last_n_user_turns is_contextual_user_fragment is_inter_agent_text c n = replace c (items c).
Proof.
  intros Hn Ht. unfold drop_last_n_user_turns, user_message_positions.
  destruct (n =? 0) eqn:E; [apply Nat.eqb_eq in E; lia|]. rewrite <-(positions_length 0) in Ht.
  by destruct (positions_from 0 (items c)).
Qed.

(** The cut before context is trimmed: the turn with all but [n] before it. *)
Lemma drop_turns n (c : ContextManager V M RC WS TI) first ps :
  0 < n -> positions_from 0 (items c) = first :: ps ->
  exists cut, positions_from 0 (items c) !! (turns (items c) - n) = Some cut /\
    drop_last_n_user_turns is_contextual_user_fragment is_inter_agent_text c n
    = let '(r, cleared) := trim_from is_contextual_user_fragment (items c) first cut in
      replace (if cleared then set_reference_context_item c None else c) (take r (items c)).
Proof.
  intros Hn Hp. pose proof (positions_length 0 (items c)) as Hl.
  destruct (lookup_lt_is_Some_2 (positions_from 0 (items c)) (turns (items c) - n)) as [cut Hcut].
  { rewrite Hl, <-Hl, Hp. simpl. lia. }
  exists cut. split; [done|]. unfold drop_last_n_user_turns, user_message_positions.
  destruct (n =? 0) eqn:E; [apply Nat.eqb_eq in E; lia|]. rewrite Hp in *. rewrite <-Hl in Hcut.
  assert (Hc : (if length (first :: ps) <=? n then first
    else default 0 ((first :: ps) !! (length (first :: ps) - n))) = cut).
  { destruct (length (first :: ps) <=? n) eqn:El; [|by rewrite Hcut].
    apply Nat.leb_le in El. replace (length (first :: ps) - n) with 0 in Hcut by lia. by injection Hcut. }
  rewrite Hc. unfold trim_pre_turn_context_updates. by destruct (trim_from _ _ _ _).
Qed.

Lemma rolled_no_turns n (c : ContextManager V M RC WS TI) :
  turns (items c) = 0 -> rolled_back n c (replace c (items c)) (items c) [] [].
Proof.
  intros Ht. split; simpl; try done.
  - by rewrite app_nil_r.
  - lia.
  - by intros i ?%elem_of_nil.
  - by right.
Qed.

Lemma rollback_splits n (c : ContextManager V M RC WS TI) :
  0 < n ->
  exists pre mid rest,
    rolled_back n c (drop_last_n_user_turns is_contextual_user_fragment is_inter_agent_text c n) pre mid rest.
Proof.
  intros Hn. destruct (positions_from 0 (items c)) as [|first ps] eqn:Hp.
  { pose proof (positions_length 0 (items c)) as Hl. rewrite Hp in Hl. simpl in Hl.
    rewrite drop_no_turns by done. eexists _, _, _. by apply rolled_no_turns. }
  destruct (drop_turns n c first ps Hn Hp) as (cut & Hcut & ->).
  destruct (positions_lookup 0 (items c) _ cut Hcut) as (a & b & r & Ha & -> & Ht & Hb).
  destruct (positions_lookup 0 (items c) 0 first) as (a0 & b0 & r0 & Ha0 & -> & Ht0 & Hb0); [by rewrite Hp|].
  simpl in *. pose proof Ha as Hfirst. rewrite Ha0 in Hfirst.
  pose proof (first_turn a0 r0 a r b0 b Hfirst Ht0 Hb) as Hle.
  destruct (trim_split (length a0) a Hle) as (pre & mid & -> & Hpre & Hmid & Hstop).
  assert (Hi : items c = pre ++ mid ++ b :: r) by by rewrite Ha, <-app_assoc.
  pose proof (trim_from_spec pre mid (b :: r) (length a0) Hpre Hmid Hstop) as Htrim.
  rewrite <-Hi in Htrim. rewrite Htrim. exists pre, mid, (b :: r). split; try done.
  - simpl. rewrite Hi. by rewrite take_app_length.
  - rewrite turns_app, (trimmed_turns mid Hmid) in Ht. lia.
  - destruct Hstop as [Hlen|Hstop]; [right|by left].
    assert (Heq : a0 = pre /\ b0 :: r0 = mid ++ b :: r).
    { apply app_inj_1; [done|]. by rewrite <-Ha0, Hi. }
    destruct Heq as [-> <-]. by split.
  - simpl. by destruct (existsb _ mid).
Qed.
End Rollback.

(** ** Recording *)

Section Recording.
Context {V M RC WS TI : Type} (est : str -> N).
Abbreviation item := (ResponseItem V M).

Lemma truncate_items_total items p : exists out, truncate_function_output_items_with_policy est items p = Some out.
Proof.
  unfold truncate_function_output_items_with_policy.
  destruct (truncate_items_accounted est p (mkTrunc [] (policy_budget p) 0 0) items) as (x & -> & _). by eexists.
Qed.

Lemma truncate_payload_total o p : exists out, truncate_function_output_payload est o p = Some out.
Proof.
  unfold truncate_function_output_payload. destruct (body o) as [t|l].
  - destruct (truncate_text_exact t p) as (out & -> & _). by eexists.
  - destruct (truncate_items_total l p) as [out ->]. by eexists.
Qed.

(** Truncation changes no call id. *)
Lemma process_item_total (i : item) p :
  exists out, process_item est i p = Some out /\ call_key out = call_key i /\
    output_key out = output_key i /\ by_server out = by_server i.
Proof.
  destruct i; try (by eexists); simpl;
    destruct (truncate_payload_total output (with_serialization_budget p)) as [out ->]; by eexists.
Qed.

(** The items recorded, as they were and as they are kept. *)
Definition recorded_as (p : TruncationPolicy) (i o : item) : Prop := process_item est i p = Some o.

Lemma record_items_spec (c : ContextManager V M RC WS TI) l p :
  exists new, record_items est c l p
    = Some (mkContext (items c ++ new) (history_version c) (token_info c)
              (reference_context_item c) (world_state_baseline c)) /\
    Forall2 (recorded_as p) (List.filter is_api_message l) new.
Proof.
  revert c. induction l as [|i l IH]; intros c; cbn [record_items List.filter].
  { exists []. rewrite app_nil_r. split; [by destruct c|constructor]. }
  destruct (is_api_message i); [|apply IH].
  destruct (process_item_total i p) as (o & Ho & _). rewrite Ho.
  edestruct IH as (new & -> & Hnew). exists (o :: new). simpl. rewrite <-app_assoc. split; [done|by constructor].
Qed.
End Recording.

(** ** Theorems *)

(** Dropping the oldest item together with its counterpart keeps a history
    in which call ids are not reused consistent: every call still has its
    output and every output its call, so no normalization is needed after it,
    and the ids stay unique. *)
Theorem remove_first_keeps_pairs {V M RC WS TI} (c : ContextManager V M RC WS TI) :
  paired (items c) -> unique_keys (items c) ->
  paired (items (remove_first_item c)) /\ unique_keys (items (remove_first_item c)) /\
  length (items (remove_first_item c)) <= length (items c) - 1.
Proof.
  unfold remove_first_item. destruct (items c) as [|x rest] eqn:E; [by rewrite E|].
  intros Hp Hu. simpl. destruct (remove_corresponding_paired x rest Hp Hu) as [Hp' Hu'].
  split; [done|]. split; [done|]. rewrite Nat.sub_0_r. apply remove_corresponding_length.
Qed.

(** A call and its output, a search the server ran, a message. *)
Definition sample_history : list (ResponseItem unit unit) :=
  [FunctionCall None (lit "shell") None (lit "{}") None (lit "1") None;
   Message None (lit "user") [InputText (lit "hi")] None None;
   FunctionCallOutput None (lit "1") (from_text (lit "ok")) None;
   ToolSearchOutput None (Some (lit "s")) (lit "completed") (lit "server") [] None].

Lemma sample_paired : paired sample_history.
Proof.
  split.
  - intros k Hk. vm_compute in Hk. apply list_elem_of_singleton in Hk as ->. vm_compute. apply list_elem_of_here.
  - intros i k Hi Hk Hs. unfold sample_history in Hi. rewrite !elem_of_cons in Hi.
    destruct Hi as [->|[->|[->|[->|Hi]]]]; simplify_eq/=; [|by apply elem_of_nil in Hi].
    vm_compute. apply list_elem_of_here.
Qed.

Lemma remove_first_keeps_pairs_witness :
  let c : ContextManager unit unit unit unit unit := mkContext sample_history 0 None None None in
  paired (items (remove_first_item c)) /\ unique_keys (items (remove_first_item c)) /\
  length (items (remove_first_item c)) <= 3.
Proof.
  simpl. apply (remove_first_keeps_pairs
    (mkContext sample_history 0 None None None : ContextManager unit unit unit unit unit));
    [apply sample_paired|].
  split; vm_compute; repeat constructor; by intros ?%elem_of_nil || set_solver.
Defined.

(** Rolling back [n] turns cuts the history at the start of a turn: all but
    the last [n] turns stay (all go if there are fewer), together with whatever
    came before the first; context injected just above the cut goes with it,
    but nothing above the first turn does; if a trimmed developer message held
    more than context, the reference context is given up. Without turns, or for
    no turns, the items stay. *)
Theorem rollback_exact {V M RC WS TI} ctx agent (c : ContextManager V M RC WS TI) n :
  if n =? 0 then drop_last_n_user_turns ctx agent c n = c
  else exists pre mid rest,
    rolled_back ctx agent n c (drop_last_n_user_turns ctx agent c n) pre mid rest /\
    history_version (drop_last_n_user_turns ctx agent c n)
      = N.min 18446744073709551615 (history_version c + 1).
Proof.
  destruct (n =? 0) eqn:E; [unfold drop_last_n_user_turns; by rewrite E|]. apply Nat.eqb_neq in E.
  destruct (rollback_splits ctx agent n c ltac:(lia)) as (pre & mid & rest & Hr).
  exists pre, mid, rest. split; [done|]. unfold drop_last_n_user_turns.
  rewrite (proj2 (Nat.eqb_neq _ _)) by lia. destruct (user_message_positions _ _ _); [done|].
  unfold trim_pre_turn_context_updates. destruct (trim_from _ _ _ _) as [r []]; done.
Qed.

(** Recording keeps every item the model is sent, in order, with tool
    outputs truncated to the policy and everything else as it is; truncation
    never fails and never changes what joins a call and its output. *)
Theorem record_items_exact {V M RC WS TI} est (c : ContextManager V M RC WS TI) l p :
  exists new,
    record_items est c l p
    = Some (mkContext (items c ++ new) (history_version c) (token_info c)
              (reference_context_item c) (world_state_baseline c)) /\
    Forall2 (fun i o => process_item est i p = Some o) (List.filter is_api_message l) new /\
    omap call_key new = omap call_key (List.filter is_api_message l) /\
    omap output_key new = omap output_key (List.filter is_api_message l).
Proof.
  destruct (record_items_spec est c l p) as (new & Hr & Hf). exists new. split; [done|]. split; [done|].
  clear Hr. induction Hf as [|i o l' new' Ho _ [IH1 IH2]]; [done|].
  destruct (process_item_total est i p) as (o' & Ho' & Hc & Hk & _). unfold recorded_as in Ho.
  rewrite Ho in Ho'. injection Ho' as <-. csimpl. by rewrite Hc, Hk, IH1, IH2.
Qed.
