(* ===== verification/Host.v ===== *)
(** * The host the tools run on

    What the GloScope crates use of the operating system through the standard
    library and [tokio]: environment variables, files, processes.  The state
    [W] of the host is threaded by a state and error monad. *)

From Stdlib Require Import ZArith Lia.
From stdpp Require Import gmap.
From S2P Require Import Prelude RustStr PatchSyntax.

(** ** State and errors *)

Definition act (W A E : Type) : Type := W -> W * result A E.

Definition ret {W A E} (a : A) : act W A E := fun w => (w, Ok a).
Definition throw {W A E} (e : E) : act W A E := fun w => (w, Err e).
Definition of_result {W A E} (r : result A E) : act W A E := fun w => (w, r).
Definition asks {W A E} (f : W -> A) : act W A E := fun w => (w, Ok (f w)).
Definition bind {W A B E} (m : act W A E) (k : A -> act W B E) : act W B E :=
  fun w => match m w with (w, Ok a) => k a w | (w, Err e) => (w, Err e) end.
Definition map_err_act {W A E F} (f : E -> F) (m : act W A E) : act W A F :=
  fun w => match m w with (w, r) => (w, map_err f r) end.

Notation "'do?' x ':=' m 'in' k" := (bind m (fun x => k))
  (at level 10, x pattern, m at level 200, k at level 200,
   format "'[v' 'do?'  x  ':='  m  'in' '/' k ']'") : rust_scope.

Lemma bind_ok {W A B E} (m : act W A E) (k : A -> act W B E) w w' b :
  bind m k w = (w', Ok b) -> exists w1 a, m w = (w1, Ok a) /\ k a w1 = (w', Ok b).
Proof. unfold bind. destruct (m w) as [w1 [a|e]]; [eauto|done]. Qed.

Lemma bind_step {W A B E} (m : act W A E) (k : A -> act W B E) w w1 a :
  m w = (w1, Ok a) -> bind m k w = k a w1.
Proof. unfold bind. by intros ->. Qed.

Lemma bind_err {W A B E} (m : act W A E) (k : A -> act W B E) w w1 e :
  m w = (w1, Err e) -> bind m k w = (w1, Err e).
Proof. unfold bind. by intros ->. Qed.

(** ** The host *)

(** [tokio::process::Command] as the tools build it: the environment is the
    inherited one or a given map, the input nothing or a text, and the wait for
    the output is bounded. *)
Record command : Type := mkCommand {
  program : str;
  args : list str;
  current_dir : str;
  envs : option (gmap str str);
  stdin_text : option str;
  wait_timeout : Z;
}.

(** [std::env::vars().collect::<HashMap<_, _>>()]. *)
Definition collect_env (vars : list (str * str)) : gmap str str := list_to_map (rev vars).

(** The end of a spawned process: [Command::spawn] failed, feeding or waiting
    failed, the timeout elapsed, or it exited with a code (none when a signal
    ended it) and its decoded output. *)
Inductive process_outcome : Type :=
  | SpawnFailed (e : io_error)
  | WaitFailed (e : io_error)
  | WaitElapsed
  | Exited (code : option Z) (stdout stderr : str).

(** [make_temp_dir] and [replace_file] are [tempfile]'s: a fresh directory with
    a name prefix, and a file written beside its final path and renamed onto
    it. *)
Class Host (W : Type) : Type := {
  env_var : W -> str -> option str;
  env_vars : W -> list (str * str);
  home_dir : W -> option str;
  temp_dir : W -> str;
  which : W -> str -> option str;
  path_is_file : W -> str -> bool;
  canonicalize : W -> str -> result str io_error;
  read_to_string : W -> str -> result str io_error;
  fs_write : W -> str -> str -> W * result unit io_error;
  create_dir_all : W -> str -> W * result unit io_error;
  make_temp_dir : W -> str -> W * result str io_error;
  replace_file : W -> str -> str -> W * result unit io_error;
  run_process : W -> command -> W * process_outcome;
}.

(** [Path::join] on Unix: an absolute second path replaces the first. *)
Definition SLASH : N := 47.
Definition std_path_join (base rel : str) : str :=
  if starts_with [SLASH] rel then rel
  else if is_empty base then rel
  else if ends_with [SLASH] base then base ++ rel
  else base ++ [SLASH] ++ rel.

(** ** Durations *)

(** [Duration] as nanoseconds; [Duration::from_secs]. *)
Definition from_secs (s : Z) : Z := (s * 10 ^ 9)%Z.

Definition pad_digits (k : nat) (s : str) : str := repeat 48%N (k - length s) ++ s.

(** [Debug] of a [Duration]: the largest unit that has a whole part. *)
Definition debug_scaled (n : Z) (k : nat) (unit_name : str) : str :=
  let p := (10 ^ Z.of_nat k)%Z in
  show_Z (n / p)
  ++ (if (n mod p =? 0)%Z then []
      else lit "." ++ trim_end_matches 48%N (pad_digits k (show_Z (n mod p))))
  ++ unit_name.

Definition debug_duration (n : Z) : str :=
  if (10 ^ 9 <=? n)%Z then debug_scaled n 9 (lit "s")
  else if (10 ^ 6 <=? n)%Z then debug_scaled n 6 (lit "ms")
  else if (10 ^ 3 <=? n)%Z then debug_scaled n 3 (lit "µs")
  else debug_scaled n 0 (lit "ns").

Example debug_duration_300 : debug_duration (from_secs 300) = lit "300s".
Proof. vm_compute. reflexivity. Qed.
Example debug_duration_frac : debug_duration 1500000 = lit "1.5ms".
Proof. vm_compute. reflexivity. Qed.

(** ** Hosts to run the model on *)

Fixpoint assoc (k : str) (l : list (str * str)) : option str :=
  match l with
  | [] => None
  | (k', v) :: l' => if bool_decide (k = k') then Some v else assoc k l'
  end.

(** A host in memory: the process function sees the command and may write
    files. *)
Record mem_host : Type := mkMemHost {
  mem_env : list (str * str);
  mem_files : list (str * str);
  mem_process : command -> list (str * str) * process_outcome;
}.

Definition no_such_file : io_error := mkIoError NotFound (lit "No such file or directory").

Definition mem_write (w : mem_host) (files : list (str * str)) : mem_host :=
  mkMemHost (mem_env w) (files ++ mem_files w) (mem_process w).

#[export] Instance mem_host_host : Host mem_host := {|
  env_var w k := assoc k (mem_env w);
  env_vars w := mem_env w;
  home_dir _ := Some (lit "/home/u");
  temp_dir _ := lit "/tmp";
  which _ p := Some (lit "/usr/bin/" ++ p);
  path_is_file w p := match assoc p (mem_files w) with Some _ => true | None => false end;
  canonicalize _ p := Ok p;
  read_to_string w p := ok_or (assoc p (mem_files w)) no_such_file;
  fs_write w p c := (mem_write w [(p, c)], Ok tt);
  create_dir_all w _ := (w, Ok tt);
  make_temp_dir w prefix := (w, Ok (lit "/tmp/" ++ prefix ++ lit "0"));
  replace_file w p c := (mem_write w [(p, c)], Ok tt);
  run_process w c := let '(files, r) := mem_process w c in (mem_write w files, r);
|}.

(** Any host with the list of the processes it was asked to run. *)
Section Traced.
Context {W : Type} `{Host W}.

Definition traced : Type := W * list command.

Definition on_host {A} (f : W -> W * A) (tw : traced) : traced * A :=
  let '(w, a) := f tw.1 in ((w, tw.2), a).

#[export] Instance traced_host : Host traced := {|
  env_var tw := env_var tw.1;
  env_vars tw := env_vars tw.1;
  home_dir tw := home_dir tw.1;
  temp_dir tw := temp_dir tw.1;
  which tw := which tw.1;
  path_is_file tw := path_is_file tw.1;
  canonicalize tw := canonicalize tw.1;
  read_to_string tw := read_to_string tw.1;
  fs_write tw p c := on_host (fun w => fs_write w p c) tw;
  create_dir_all tw p := on_host (fun w => create_dir_all w p) tw;
  make_temp_dir tw p := on_host (fun w => make_temp_dir w p) tw;
  replace_file tw p c := on_host (fun w => replace_file w p c) tw;
  run_process tw c := let '(w, r) := run_process tw.1 c in ((w, tw.2 ++ [c]), r);
|}.
End Traced.
Arguments traced W : clear implicits.
