(* ===== verification/Json.v ===== *)
(** * JSON values

    The tools read JSON through [serde_json::Value], a library type.  They are
    written against the accessors they use of it; a small tree of values
    instantiates the interface so that the tools can be run. *)

From Stdlib Require Import ZArith Lia.
From S2P Require Import Prelude RustStr.

(** [Value::get(&str)] ([None] on anything that is no object or lacks the key),
    [as_str], [as_array], [as_u64], [as_bool] and [serde_json::from_str] with
    the text of its error. *)
Class JsonOps (V : Type) : Type := {
  get : V -> str -> option V;
  as_str : V -> option str;
  as_array : V -> option (list V);
  as_u64 : V -> option Z;
  as_bool : V -> option bool;
  from_str : str -> result V str;
}.

(** The accessors agree with one kind of value, and [u64] bounds integers. *)
Class JsonLaws (V : Type) `{JsonOps V} : Prop := {
  as_u64_range v n : as_u64 v = Some n -> in_u64 n;
  as_array_not_str v l : as_array v = Some l -> as_str v = None;
}.

(** [v.get(k).and_then(f)]. *)
Definition get_and_then {V A} `{JsonOps V} (v : V) (k : str) (f : V -> option A) : option A :=
  match get v k with Some x => f x | None => None end.

Definition get_str {V} `{JsonOps V} (v : V) (k : str) : option str := get_and_then v k as_str.

(** ** A tree of values *)

Inductive json : Type :=
  | JNull
  | JBool (b : bool)
  | JNum (n : Z)
  | JStr (s : str)
  | JArr (l : list json)
  | JObj (fields : list (str * json)).

Fixpoint field (fs : list (str * json)) (k : str) : option json :=
  match fs with
  | [] => None
  | (k', v) :: fs' => if bool_decide (k = k') then Some v else field fs' k
  end.

(** The instance, for a given reader of text. *)
Definition json_ops (parse : str -> result json str) : JsonOps json := {|
  get v k := match v with JObj fs => field fs k | _ => None end;
  as_str v := match v with JStr s => Some s | _ => None end;
  as_array v := match v with JArr l => Some l | _ => None end;
  as_u64 v :=
    match v with
    | JNum n => if (0 <=? n)%Z && (n <? u64_modulus)%Z then Some n else None
    | _ => None
    end;
  as_bool v := match v with JBool b => Some b | _ => None end;
  from_str := parse;
|}.

#[export] Instance json_laws parse : @JsonLaws json (json_ops parse).
Proof.
  split; simpl; intros [] x; try done.
  intros Hn. case_hyp Hn. boolify. simplify_eq.
  match goal with Ha : (0 <=? _)%Z = true, Hb : (_ <? _)%Z = true |- _ =>
    apply Z.leb_le in Ha; apply Z.ltb_lt in Hb; by split end.
Qed.
