(* ===== verification/Candidate.v ===== *)
(** * The vulnerability registry and candidates

    Models [ext/gloscope-tools/src/run_semgrep/candidate.rs]: the category
    table, the normalisation of CWE identifiers, the inference of a CWE and of
    a category from a rule name. *)

From Stdlib Require Import ZArith Lia.
From S2P Require Import Prelude RustStr Json.

Record VulnCategory : Type := mkVulnCategory {
  name : str;
  cwe_id : str;
  fragments : list str;
}.

Definition VULN_CATEGORIES : list VulnCategory := Eval vm_compute in
  [mkVulnCategory (lit "sql_injection") (lit "CWE-89")
     [lit "sql-injection"; lit "sqli"; lit "insecure-sql-query"; lit "tainted-sql-string"];
   mkVulnCategory (lit "ssrf") (lit "CWE-918") [lit "ssrf"; lit "request-forgery"];
   mkVulnCategory (lit "path_traversal") (lit "CWE-22") [lit "path-traversal"; lit "traversal"];
   mkVulnCategory (lit "command_injection") (lit "CWE-78")
     [lit "command-injection"; lit "os-command-injection"; lit "subprocess-injection";
      lit "subprocess-shell-true"; lit "dangerous-subprocess-use"];
   mkVulnCategory (lit "xss") (lit "CWE-79") [lit "xss"; lit "cross-site-scripting"];
   mkVulnCategory (lit "ssti") (lit "CWE-1336")
     [lit "ssti"; lit "server-side-template-injection"];
   mkVulnCategory (lit "code_injection") (lit "CWE-94") [lit "user-eval"; lit "eval-detected"];
   mkVulnCategory (lit "deserialization") (lit "CWE-502")
     [lit "pickle"; lit "deserialization"; lit "insecure-deserialization"];
   mkVulnCategory (lit "regex_dos") (lit "CWE-1333")
     [lit "regex-dos"; lit "non-literal-regexp"; lit "redos"];
   mkVulnCategory (lit "improper_check") (lit "CWE-706") [lit "non-literal-import"]].

Definition CWE_PREFIX : str := Eval vm_compute in lit "CWE-".
Definition UNKNOWN : str := Eval vm_compute in lit "unknown".
Definition COLON : N := 58.

Definition category_for_cwe (cwe : str) : option str :=
  name <$> List.find (fun c => bool_decide (cwe_id c = cwe)) VULN_CATEGORIES.

Section Candidate.
Context {V : Type} `{JsonOps V} {Std : UnicodeStd}.

Definition normalize_cwe (raw : option V) : option str :=
  let! raw := raw in
  let! raw := match as_array raw with Some items => head items | None => Some raw end in
  let! raw := as_str raw in
  let raw := trim raw in
  if is_empty raw then None
  else
    let token := to_uppercase (trim (default [] (head (split_on COLON raw)))) in
    let digits := default token (strip_prefix CWE_PREFIX token) in
    if negb (is_empty digits) && forallb is_ascii_digit digits
    then Some (CWE_PREFIX ++ digits) else None.

(** The category whose fragments occur in the lower-cased rule name. *)
Definition matching_category (check_id : str) : option VulnCategory :=
  let low := to_lowercase check_id in
  List.find (fun c => existsb (fun fragment => contains fragment low) (fragments c))
    VULN_CATEGORIES.

Definition infer_cwe (check_id : str) : option str := cwe_id <$> matching_category check_id.

Definition infer_category (check_id : str) (cwe : option str) : str :=
  match cwe ≫= category_for_cwe with
  | Some category => category
  | None => default UNKNOWN (name <$> matching_category check_id)
  end.
End Candidate.

Record Candidate : Type := mkCandidate {
  check_id : str;
  path : str;
  start_line : Z;
  end_line : Z;
  snippet : str;
  message : str;
  cwe : option str;
  category : str;
  source : str;
}.

Definition location (c : Candidate) : str := path c ++ lit ":" ++ show_Z (start_line c).

#[export] Instance candidate_eq_dec : EqDecision Candidate.
Proof. solve_decision. Defined.

(** ** The registry *)

(** The CWE identifiers are pairwise different and so are the names, and no
    category is called as the value that stands for no category. *)
Lemma registry_cwe_category c :
  c ∈ VULN_CATEGORIES -> category_for_cwe (cwe_id c) = Some (name c).
Proof.
  assert (Forall (fun c => category_for_cwe (cwe_id c) = Some (name c)) VULN_CATEGORIES) as Hall.
  { apply (bool_decide_unpack _). vm_compute. exact I. }
  intros Hc. by eapply Forall_forall in Hall.
Qed.

Lemma registry_name_known c : c ∈ VULN_CATEGORIES -> name c <> UNKNOWN.
Proof.
  assert (Forall (fun c => name c <> UNKNOWN) VULN_CATEGORIES) as Hall.
  { apply (bool_decide_unpack _). vm_compute. exact I. }
  intros Hc. by eapply Forall_forall in Hall.
Qed.

Lemma category_for_cwe_registered cwe n :
  category_for_cwe cwe = Some n ->
  exists c, c ∈ VULN_CATEGORIES /\ cwe_id c = cwe /\ name c = n.
Proof.
  unfold category_for_cwe. intros (c & Hf & ->)%fmap_Some.
  apply List.find_some in Hf as [Hin Hb]. boolify.
  exists c. split; [by apply list_elem_of_In|done].
Qed.

Section Inference.
Context {V : Type} `{JsonOps V} {Std : UnicodeStd}.

Lemma matching_category_registered check_id c :
  matching_category check_id = Some c -> c ∈ VULN_CATEGORIES.
Proof. intros [Hin _]%List.find_some. by apply list_elem_of_In. Qed.

(** An inferred CWE belongs to the inferred category. *)
Lemma infer_cwe_category check_id cwe :
  infer_cwe check_id = Some cwe -> category_for_cwe cwe = Some (infer_category check_id None).
Proof.
  unfold infer_cwe, infer_category. intros (c & Hm & ->)%fmap_Some. simpl. rewrite Hm. simpl.
  eapply registry_cwe_category, matching_category_registered, Hm.
Qed.

(** *** Normalisation *)

Definition cwe_number (d : str) : Prop := d <> [] /\ forallb is_ascii_digit d = true.

Lemma digit_facts c :
  is_ascii_digit c = true ->
  is_whitespace c = false /\ (c =? COLON)%N = false /\ ascii_upper_char c = c /\ (c <? 128)%N = true
  /\ (67 =? c)%N = false.
Proof.
  unfold is_ascii_digit, is_whitespace, ascii_upper_char, COLON. intros Hc.
  apply andb_true_iff in Hc as [H1 H2]. apply N.leb_le in H1, H2.
  repeat match goal with
  | |- context [(?a <=? ?b)%N] => destruct (N.leb_spec a b); try lia
  | |- context [(?a <? ?b)%N] => destruct (N.ltb_spec a b); try lia
  | |- context [(?a =? ?b)%N] => destruct (N.eqb_spec a b); try lia
  end; done.
Qed.

Lemma digits_upper d : forallb is_ascii_digit d = true -> to_ascii_uppercase d = d.
Proof.
  unfold to_ascii_uppercase. induction d as [|c d IH]; simpl; [done|].
  intros [Hc Hd]%andb_true_iff. destruct (digit_facts c Hc) as (_ & _ & -> & _). by rewrite IH.
Qed.

Lemma digits_ascii d : forallb is_ascii_digit d = true -> is_ascii d = true.
Proof.
  unfold is_ascii. intros Hd. apply forallb_forall. intros c Hc.
  eapply forallb_forall in Hd; [|exact Hc]. by apply digit_facts in Hd as (_ & _ & _ & ? & _).
Qed.

Lemma digits_no_ws d c : forallb is_ascii_digit d = true -> c ∈ d -> is_whitespace c = false.
Proof.
  intros Hd Hc. apply list_elem_of_In in Hc. eapply forallb_forall in Hd; [|exact Hc].
  by apply digit_facts in Hd as [? _].
Qed.

(** A text that neither starts nor ends with white space is kept by [trim]. *)
Lemma trim_id s :
  (forall c, head s = Some c -> is_whitespace c = false) ->
  (forall c, last s = Some c -> is_whitespace c = false) -> trim s = s.
Proof.
  intros Hh Hl. unfold trim, trim_start.
  rewrite (proj2 (drop_while_head is_whitespace s)) by done. by apply trim_end_id.
Qed.

Lemma no_colon_digits d : forallb is_ascii_digit d = true -> COLON ∉ d.
Proof.
  intros Hd Hc. apply list_elem_of_In in Hc. eapply forallb_forall in Hd; [|exact Hc]. done.
Qed.

(** A CWE token in one of the spellings semgrep's metadata uses. *)
Definition cwe_token (d tok : str) : Prop :=
  tok = d \/ tok = CWE_PREFIX ++ d \/ tok = to_ascii_lowercase CWE_PREFIX ++ d.

Lemma cwe_token_facts d tok :
  cwe_number d -> cwe_token d tok ->
  tok <> [] /\ trim tok = tok /\ (COLON ∉ tok) /\ is_ascii tok = true /\
  (forall c, head tok = Some c -> is_whitespace c = false) /\
  (forall c, last tok = Some c -> is_whitespace c = false) /\
  default (to_ascii_uppercase tok) (strip_prefix CWE_PREFIX (to_ascii_uppercase tok)) = d.
Proof.
  intros [Hne Hd] Ht.
  assert (forall p, p ++ d <> []) as Hpne by (intros p Hp; by apply app_eq_nil in Hp as [_ ?]).
  assert (forall c, last d = Some c -> is_whitespace c = false) as Hlast.
  { intros c Hc. eapply digits_no_ws; [done|]. rewrite (last_removelast _ _ Hc). set_solver. }
  assert (forall p c, last (p ++ d) = Some c -> is_whitespace c = false) as Hlast'.
  { intros p c. rewrite last_app. destruct (last d) eqn:E; [naive_solver|].
    by apply last_None in E. }
  assert (forall c, head tok = Some c -> is_whitespace c = false) as Hhead.
  { destruct Ht as [-> | [-> | ->]]; simpl; [|naive_solver..].
    intros c Hc. eapply digits_no_ws; [done|]. destruct d; simpl in *; simplify_eq. set_solver. }
  assert (forall c, last tok = Some c -> is_whitespace c = false) as Hl.
  { destruct Ht as [-> | [-> | ->]]; eauto. }
  pose proof (no_colon_digits d Hd) as Hnc. pose proof (digits_ascii d Hd) as Has.
  split; [destruct Ht as [-> | [-> | ->]]; auto|].
  split; [by apply trim_id|].
  split; [destruct Ht as [-> | [-> | ->]]; [done| |]; unfold CWE_PREFIX, COLON in *; set_solver|].
  split; [destruct Ht as [-> | [-> | ->]]; simpl; done|].
  split; [done|]. split; [done|].
  destruct Ht as [-> | [-> | ->]]; unfold to_ascii_uppercase; rewrite ?map_app;
    fold (to_ascii_uppercase d); rewrite ?(digits_upper d Hd).
  - destruct d as [|c d']; [done|]. simpl in Hd. apply andb_true_iff in Hd as [Hc _].
    unfold CWE_PREFIX. cbn [strip_prefix]. by destruct (digit_facts c Hc) as (_ & _ & _ & _ & ->).
  - done.
  - done.
Qed.

Context `{!UnicodeStdLaws Std}.

(** Reading the metadata field: a string, or the first of a list of strings. *)
Definition reads_as (v : V) (raw : str) : Prop :=
  (as_array v = None /\ as_str v = Some raw) \/
  (exists v0 l, as_array v = Some (v0 :: l) /\ as_str v0 = Some raw).

Lemma normalize_cwe_reads v raw :
  reads_as v raw ->
  normalize_cwe (Some v) =
    let raw := trim raw in
    if is_empty raw then None
    else
      let token := to_uppercase (trim (default [] (head (split_on COLON raw)))) in
      let digits := default token (strip_prefix CWE_PREFIX token) in
      if negb (is_empty digits) && forallb is_ascii_digit digits
      then Some (CWE_PREFIX ++ digits) else None.
Proof.
  unfold normalize_cwe. intros [[-> ->]|(v0 & l & -> & E)]; [done|]. simpl. by rewrite E.
Qed.

Lemma normalize_token d tok ws ws' tail v :
  cwe_number d -> cwe_token d tok ->
  forallb is_whitespace ws = true -> forallb is_whitespace ws' = true ->
  tail = [] \/ head tail = Some COLON ->
  reads_as v (ws ++ tok ++ ws' ++ tail) -> normalize_cwe (Some v) = Some (CWE_PREFIX ++ d).
Proof.
  intros Hd Ht Hws Hws' Htail Hv. rewrite (normalize_cwe_reads _ _ Hv). cbv zeta.
  destruct (cwe_token_facts d tok Hd Ht) as (Hne & Htrim & Hnc & Has & Hh & Hl & Hdig).
  assert (exists ws2 tail', trim (ws ++ tok ++ ws' ++ tail) = tok ++ ws2 ++ tail' /\
            forallb is_whitespace ws2 = true /\ (tail' = [] \/ head tail' = Some COLON))
    as (ws2 & tail' & -> & Hws2 & Htail').
  { unfold trim. rewrite trim_start_app_ws by done.
    assert (trim_start (tok ++ ws' ++ tail) = tok ++ ws' ++ tail) as ->.
    { apply drop_while_head. destruct tok; simpl in *; [done|]. auto. }
    destruct Htail as [->|Hc].
    - exists [], []. rewrite !app_nil_r, trim_end_app_ws by done. split; [|auto].
      by apply trim_end_id.
    - destruct tail as [|c tail]; simplify_eq/=. exists ws', (COLON :: trim_end tail).
      split; [|auto]. rewrite app_assoc, trim_end_app_cons by done. by rewrite <-app_assoc. }
  assert (is_empty (tok ++ ws2 ++ tail') = false) as -> by (by destruct tok).
  assert (COLON ∉ ws2) as Hws2c.
  { intros Hin. apply list_elem_of_In in Hin. eapply forallb_forall in Hws2; [|exact Hin]. done. }
  assert (default [] (head (split_on COLON (tok ++ ws2 ++ tail'))) = tok ++ ws2) as ->.
  { destruct Htail' as [->|Hc].
    - rewrite app_nil_r, split_on_no_sep by set_solver. done.
    - destruct tail' as [|c tail']; simplify_eq/=.
      rewrite app_assoc, split_on_app by set_solver. done. }
  assert (trim (tok ++ ws2) = tok) as ->.
  { rewrite trim_comm, trim_end_app_ws, <-trim_comm by done. done. }
  rewrite to_uppercase_ascii by done. rewrite Hdig. destruct Hd as [Hdne ->].
  by destruct d.
Qed.
(** What normalisation returns is in the canonical form. *)
Lemma normalize_cwe_form o s :
  normalize_cwe o = Some s -> exists d, cwe_number d /\ s = CWE_PREFIX ++ d.
Proof.
  unfold normalize_cwe. intros Hn.
  destruct o as [v|]; [|done].
  destruct (match as_array v with Some items => head items | None => Some v end); [|done].
  destruct (as_str _); [|done]. repeat case_hyp Hn. boolify. simplify_eq.
  eexists. split; [split; [|eassumption]|done].
  intros Hx. rewrite Hx in *. done.
Qed.

(** Every spelling of a CWE identifier in a rule's metadata is normalised to
    the same [CWE-n]: the bare number, with the prefix in either case, padded
    with white space, followed by a colon and a title, alone or first in a list;
    and normalising the result again changes nothing. *)
Theorem normalize_cwe_spellings d tok ws ws' tail v v' :
  cwe_number d -> cwe_token d tok ->
  forallb is_whitespace ws = true -> forallb is_whitespace ws' = true ->
  tail = [] \/ head tail = Some COLON ->
  reads_as v (ws ++ tok ++ ws' ++ tail) -> reads_as v' (CWE_PREFIX ++ d) ->
  normalize_cwe (Some v) = Some (CWE_PREFIX ++ d) /\
  normalize_cwe (Some v') = normalize_cwe (Some v).
Proof using UnicodeStdLaws0.
  intros Hd Ht Hws Hws' Htail Hv Hv'.
  rewrite (normalize_token d tok ws ws' tail v), (normalize_token d (CWE_PREFIX ++ d) [] [] [] v');
    auto; [by right; left|]. by rewrite !app_nil_r.
Qed.
End Inference.

Lemma normalize_cwe_spellings_witness :
  let ops := json_ops (fun _ => Err (lit "eof")) in
  normalize_cwe (Std := ascii_std) (Some (JArr [JStr (lit " cwe-89 : SQL Injection")]))
  = Some (lit "CWE-89").
Proof.
  intros ops.
  apply (normalize_cwe_spellings (Std := ascii_std) (lit "89") (lit "cwe-89") (lit " ") (lit " ")
           (lit ": SQL Injection") (JArr [JStr (lit " cwe-89 : SQL Injection")])
           (JStr (lit "CWE-89"))); try reflexivity.
  - split; [discriminate|reflexivity].
  - right. right. reflexivity.
  - right. reflexivity.
  - right. eexists _, _. split; reflexivity.
  - left. split; reflexivity.
Defined.
