(* ===== verification/Semgrep.v ===== *)
(** * The [run_semgrep] tool

    Models [ext/gloscope-tools/src/run_semgrep/mod.rs]: how the tool chooses
    the files to scan, runs semgrep, and turns its JSON report into a sorted
    list of candidates without near duplicates. *)

From Stdlib Require Import ZArith Lia Sorted.
From S2P Require Import Prelude RustStr PatchSyntax Host Json Candidate.

(** ** Data *)

Inductive SemgrepError : Type :=
  | SemgrepNotFound
  | SemgrepTimeout (d : Z)
  | NonZeroExit (code : Z) (detail : str)
  | InvalidJson (message : str)
  | SemgrepIo (message : str).

(** [codex_extension_api::FunctionCallError]. *)
Inductive FunctionCallError : Type :=
  | RespondToModel (message : str)
  | Fatal (message : str).

Definition semgrep_error_string (e : SemgrepError) : str :=
  match e with
  | SemgrepNotFound => lit "semgrep 未安装或不在 PATH：请先 `pip install semgrep`"
  | SemgrepTimeout d => lit "semgrep 超时（>" ++ debug_duration d ++ lit "）"
  | NonZeroExit code detail => lit "semgrep 退出码 " ++ show_Z code ++ lit ": " ++ detail
  | InvalidJson m => lit "semgrep 输出不是合法 JSON: " ++ m
  | SemgrepIo m => m
  end.

Definition call_error_of_semgrep (e : SemgrepError) : FunctionCallError :=
  RespondToModel (semgrep_error_string e).

Record RunSemgrepArgs : Type := mkRunSemgrepArgs {
  target : str;
  paths : option (list str);
  diff_base : option str;
}.

Inductive ArgvMode : Type :=
  | WholeRepo
  | Paths (ps : list str)
  | DiffFiles (files : list str).

Definition DEFAULT_TIMEOUT : Z := from_secs 300.

Definition build_argv (semgrep_path rules_path : str) (mode : ArgvMode) : list str :=
  [semgrep_path; lit "--json"; lit "--no-git-ignore"; lit "--config"; lit "auto";
   lit "--config"; rules_path]
  ++ match mode with
     | WholeRepo => [lit "--include"; lit "*.py"; lit "."]
     | Paths ps => ps
     | DiffFiles files => [lit "--include"; lit "*.py"] ++ files
     end.

(** ** Candidates from a report *)

Definition cand_le (a b : Candidate) : bool :=
  match str_compare (path a) (path b) with
  | Lt => true
  | Gt => false
  | Eq => (start_line a <=? start_line b)%Z
  end.

(** The same place: path and category agree, at most three lines apart. *)
Definition near (c d : Candidate) : bool :=
  bool_decide (path c = path d) && bool_decide (category c = category d)
  && (Z.abs (start_line c - start_line d) <=? 3)%Z.

Definition is_dup (c : Candidate) (deduped : list Candidate) : bool :=
  negb (bool_decide (category c = UNKNOWN)) && existsb (near c) deduped.

Fixpoint dedup (deduped cs : list Candidate) : list Candidate :=
  match cs with
  | [] => deduped
  | c :: cs' => dedup (if is_dup c deduped then deduped else deduped ++ [c]) cs'
  end.

Section Semgrep.
Context {W V : Type} `{Host W, JsonOps V} {Std : UnicodeStd}.

(** The line numbers are [u32]; [usize::try_from] and [checked_sub] cannot fail
    after the first test. *)
Definition read_snippet (w : W) (target rel_path : str) (start_ end_ : Z) : option str :=
  if (start_ =? 0)%Z || (end_ <? start_)%Z then None
  else
    let! contents := result_ok (read_to_string w (std_path_join target rel_path)) in
    let ls := lines contents in
    let start_idx := Z.to_nat start_ - 1 in
    let end_idx := Z.to_nat end_ in
    if (end_idx <=? length ls) && (start_idx <? end_idx)
    then Some (join [LF] (take (end_idx - start_idx) (drop start_idx ls)))
    else None.

Definition line_of (item : V) (key : str) : Z :=
  as_u32 (default 0%Z (get_and_then item key (fun s => get_and_then s (lit "line") as_u64))).

Definition extra_str (item : V) (key : str) : str :=
  default [] (get_and_then item (lit "extra") (fun e => get_str e key)).

Definition choose_cwe (metadata_cwe : option str) (check_id : str) : option str :=
  match metadata_cwe ≫= category_for_cwe with
  | Some _ => metadata_cwe
  | None =>
      match infer_cwe check_id with
      | Some c => Some c
      | None => metadata_cwe
      end
  end.

Definition parse_item (w : W) (target : str) (item : V) : Candidate :=
  let check_id := default (lit "unknown-rule") (get_str item (lit "check_id")) in
  let metadata_cwe :=
    normalize_cwe (get_and_then item (lit "extra")
      (fun e => get_and_then e (lit "metadata") (fun m => get m (lit "cwe")))) in
  let cwe := choose_cwe metadata_cwe check_id in
  let start_line := line_of item (lit "start") in
  let end_line := line_of item (lit "end") in
  let path := default [] (get_str item (lit "path")) in
  let extra_lines := extra_str item (lit "lines") in
  let message := extra_str item (lit "message") in
  let snippet := default extra_lines (read_snippet w target path start_line end_line) in
  mkCandidate check_id path start_line end_line snippet message cwe
    (infer_category check_id cwe) (lit "semgrep").

Definition report_items (data : V) : list V :=
  default [] (get_and_then data (lit "results") as_array).

Definition parse_results (w : W) (data : V) (target : str) : list Candidate :=
  dedup [] (stable_sort cand_le (map (parse_item w target) (report_items data))).

(** ** Running processes *)

Definition spawn_and_collect (argv : list str) (cwd : str) (timeout : Z)
    : act W (Z * str * str) SemgrepError := fun w =>
  match argv with
  | [] => (w, Err (SemgrepIo (lit "empty argv")))
  | program :: rest =>
      match run_process w (mkCommand program rest cwd None None timeout) with
      | (w, SpawnFailed e) =>
          (w, Err (if bool_decide (kind e = PatchSyntax.NotFound) then SemgrepNotFound
                   else SemgrepIo (io_message e)))
      | (w, WaitFailed e) => (w, Err (SemgrepIo (io_message e)))
      | (w, WaitElapsed) => (w, Err (SemgrepTimeout timeout))
      | (w, Exited code out err) => (w, Ok (default (-1)%Z code, out, err))
      end
  end.

(** [SemgrepTool]: the runner is [spawn_and_collect] in production. *)
Record SemgrepTool : Type := mkSemgrepTool {
  semgrep_path_override : option str;
  tool_timeout : Z;
  runner : list str -> str -> Z -> act W (Z * str * str) SemgrepError;
}.

Definition new_semgrep_tool : SemgrepTool :=
  mkSemgrepTool None DEFAULT_TIMEOUT spawn_and_collect.

Definition resolve_semgrep_path (tool : SemgrepTool) (w : W) : str :=
  match semgrep_path_override tool with
  | Some p => p
  | None => default (lit "semgrep") (which w (lit "semgrep"))
  end.

Definition git_changed_files (tool : SemgrepTool) (target base : str)
    : act W (list str) SemgrepError :=
  do? git := asks (fun w => default (lit "git") (which w (lit "git"))) in
  let argv := [git; lit "-C"; target; lit "diff"; lit "--name-only"; lit "--diff-filter=ACMR";
               base] in
  do? (returncode, stdout, stderr) := runner tool argv target (from_secs 60) in
  if negb (returncode =? 0)%Z
  then throw (SemgrepIo (lit "获取 diff 失败（base=" ++ debug_str base ++ lit "）: "
                         ++ take_chars 300 (trim stderr)))
  else ret (List.filter (fun l => negb (is_empty l)) (map trim (lines stdout))).

Context (BUNDLED_RULES : str).

Definition write_bundled_rules_to_temp : act W str SemgrepError := fun w =>
  let p := std_path_join (temp_dir w) (lit "gloscope-blindspots.yml") in
  match fs_write w p BUNDLED_RULES with
  | (w, Ok _) => (w, Ok p)
  | (w, Err e) => (w, Err (SemgrepIo (io_message e)))
  end.

Definition choose_mode (tool : SemgrepTool) (target : str) (paths : option (list str))
    (diff_base : option str) : act W ArgvMode SemgrepError :=
  match paths, diff_base with
  | Some ps, _ => ret (Paths ps)
  | None, Some base =>
      do? changed := git_changed_files tool target base in
      ret (DiffFiles (List.filter (fun f => ends_with (lit ".py") f) changed))
  | None, None => ret WholeRepo
  end.

Definition exit_detail (stdout stderr : str) : str :=
  if negb (is_empty (trim stderr)) then take_chars 500 (trim stderr)
  else take_chars 500 (trim stdout).

Definition run_semgrep (tool : SemgrepTool) (target : str) (paths : option (list str))
    (diff_base : option str) : act W (list Candidate) SemgrepError :=
  do? rules_path := write_bundled_rules_to_temp in
  do? semgrep_path := asks (resolve_semgrep_path tool) in
  do? mode := choose_mode tool target paths diff_base in
  let argv := build_argv semgrep_path rules_path mode in
  do? (returncode, stdout, stderr) := runner tool argv target (tool_timeout tool) in
  if negb (returncode =? 0)%Z
  then throw (NonZeroExit returncode (exit_detail stdout stderr))
  else
    do? data := of_result (map_err InvalidJson (from_str stdout)) in
    asks (fun w => parse_results w data target).

(** [handle]: the arguments as the call carries them, with the derived reader
    of [RunSemgrepArgs]; the response is serialised as it is. *)
Context (args_from_str : str -> result RunSemgrepArgs str).

Definition exclusive_message : str := lit "paths 与 diff_base 互斥：显式文件清单与增量模式二选一".

Definition semgrep_handle (tool : SemgrepTool) (arguments : result str FunctionCallError)
    : act W (list Candidate) FunctionCallError :=
  do? text := of_result arguments in
  do? args := of_result (map_err RespondToModel (args_from_str text)) in
  if bool_decide (is_Some (diff_base args))
     && match paths args with Some (_ :: _) => true | _ => false end
  then throw (RespondToModel exclusive_message)
  else
    map_err_act call_error_of_semgrep
      (run_semgrep tool (target args) (paths args) (diff_base args)).
End Semgrep.
Arguments SemgrepTool W : clear implicits.

(** ** The order of candidates and near duplicates *)

Lemma cand_le_total a b : cand_le a b = true \/ cand_le b a = true.
Proof.
  unfold cand_le. rewrite (str_compare_antisym (path a) (path b)).
  destruct (str_compare (path a) (path b)); simpl; auto. rewrite !Z.leb_le. lia.
Qed.

Lemma cand_le_trans a b c : cand_le a b = true -> cand_le b c = true -> cand_le a c = true.
Proof.
  unfold cand_le.
  destruct (str_compare (path a) (path b)) eqn:E1; [|destruct (str_compare (path b) (path c)) eqn:E2|done].
  - apply str_compare_eq in E1 as ->. destruct (str_compare (path b) (path c)); try done.
    rewrite !Z.leb_le. lia.
  - apply str_compare_eq in E2 as <-. by rewrite E1.
  - by rewrite (str_compare_lt_trans _ _ _ E1 E2).
  - done.
Qed.

(** What the list kept so far says about the candidates already seen. *)
Record dedup_ok (seen out : list Candidate) : Prop := {
  dedup_sub : out `sublist_of` seen;
  dedup_apart : forall i j c d, i < j -> out !! i = Some d -> out !! j = Some c ->
    category c <> UNKNOWN -> near c d = false;
  dedup_covers : forall c, c ∈ seen ->
    c ∈ out \/ (category c <> UNKNOWN /\ exists d, d ∈ out /\ near c d = true);
}.

Lemma dedup_ok_nil : dedup_ok [] [].
Proof. split; [done|intros []; done|]. intros c Hc. by apply elem_of_nil in Hc. Qed.

Lemma dedup_ok_step seen out c :
  dedup_ok seen out -> dedup_ok (seen ++ [c]) (if is_dup c out then out else out ++ [c]).
Proof.
  intros [Hs Ha Hc]. unfold is_dup. destruct (negb _ && existsb (near c) out) eqn:E.
  - boolify. match goal with Hx : existsb _ _ = true |- _ =>
      apply existsb_exists in Hx as (d & Hd%list_elem_of_In & Hn) end.
    split; [|done|].
    + by apply sublist_inserts_r.
    + intros c' [Hin|Heq%list_elem_of_singleton]%elem_of_app; [auto|]. subst c'. right. eauto.
  - split.
    + by apply sublist_app.
    + intros i j c' d Hij Hi Hj Hk.
      assert (i < length out)%nat.
      { apply lookup_lt_Some in Hj. rewrite length_app in Hj. simpl in Hj. lia. }
      rewrite lookup_app_l in Hi by done.
      destruct (decide (j < length out)) as [Hl|Hl]; [rewrite lookup_app_l in Hj by done; eauto|].
      rewrite lookup_app_r in Hj by lia. apply list_lookup_singleton_Some in Hj as [_ <-].
      apply andb_false_iff in E as [E|E]; [by boolify|].
      destruct (near c d) eqn:En; [|done].
      assert (existsb (near c) out = true) as Hx; [|congruence].
      apply existsb_exists. exists d. split; [|done]. apply list_elem_of_In.
      by eapply list_elem_of_lookup_2.
    + intros c' [Hin|Heq%list_elem_of_singleton]%elem_of_app.
      * destruct (Hc c' Hin) as [?|(? & d & ? & ?)]; [left; set_solver|].
        right. split; [done|]. exists d. set_solver.
      * subst c'. left. set_solver.
Qed.

Lemma dedup_spec cs : forall seen out, dedup_ok seen out -> dedup_ok (seen ++ cs) (dedup out cs).
Proof.
  induction cs as [|c cs IH]; intros seen out Ho; simpl; [by rewrite app_nil_r|].
  rewrite (cons_middle c seen cs), app_assoc. apply IH. by apply dedup_ok_step.
Qed.

Lemma sublist_sorted {A} (R : A -> A -> Prop) l k :
  l `sublist_of` k -> StronglySorted R k -> StronglySorted R l.
Proof.
  induction 1 as [|x l k Hs IH|x l k Hs IH]; intros Hk; inversion Hk as [|? ? Hk' Hall]; subst;
    [constructor| |by apply IH].
  constructor; [by apply IH|]. apply Forall_forall. intros a Ha.
  eapply Forall_forall in Hall; [exact Hall|]. by eapply elem_of_sublist.
Qed.

(** ** What the report becomes *)

Section Report.
Context {W V : Type} `{Host W, JsonOps V} {Std : UnicodeStd}.

(** The candidates of a report are its items in the order of path and
    line, less the near duplicates: no kept candidate of a known category is
    within three lines of an earlier kept one of the same path and category,
    and every item is kept or has such a representative; items of no known
    category are all kept. *)
Theorem parse_results_sorted_dedup (w : W) (data : V) target :
  let all := map (parse_item w target) (report_items data) in
  let out := parse_results w data target in
  StronglySorted (fun a b => cand_le a b = true) out /\
  (forall c, c ∈ out -> c ∈ all) /\
  (forall i j c d, i < j -> out !! i = Some d -> out !! j = Some c ->
     category c <> UNKNOWN -> near c d = false) /\
  (forall c, c ∈ all ->
     c ∈ out \/ (category c <> UNKNOWN /\ exists d, d ∈ out /\ near c d = true)).
Proof.
  intros all out. destruct (dedup_spec (stable_sort cand_le all) [] [] dedup_ok_nil) as [Hs Ha Hc].
  simpl in *. split_and!.
  - eapply sublist_sorted; [exact Hs|]. apply stable_sort_sorted; [apply cand_le_total|apply cand_le_trans].
  - intros c Hin. eapply stable_sort_elem, elem_of_sublist; eauto.
  - exact Ha.
  - intros c Hin. apply Hc. by apply stable_sort_elem.
Qed.

Lemma choose_cwe_category metadata_cwe check_id :
  infer_category check_id (choose_cwe metadata_cwe check_id)
  = default UNKNOWN (choose_cwe metadata_cwe check_id ≫= category_for_cwe).
Proof.
  unfold choose_cwe. destruct (metadata_cwe ≫= category_for_cwe) as [n|] eqn:Em.
  - unfold infer_category. by rewrite Em.
  - destruct (infer_cwe check_id) as [c|] eqn:Ei.
    + unfold infer_category. simpl. by rewrite (infer_cwe_category _ _ Ei).
    + unfold infer_category. rewrite Em. unfold infer_cwe in Ei.
      apply fmap_None in Ei as ->. done.
Qed.

Lemma registry_cwe_form c : c ∈ VULN_CATEGORIES -> exists d, cwe_number d /\ cwe_id c = CWE_PREFIX ++ d.
Proof.
  assert (Forall (fun c => drop 4 (cwe_id c) <> [] /\
            forallb is_ascii_digit (drop 4 (cwe_id c)) = true /\
            cwe_id c = CWE_PREFIX ++ drop 4 (cwe_id c)) VULN_CATEGORIES) as Hall.
  { apply (bool_decide_unpack _). vm_compute. exact I. }
  intros Hc. eapply Forall_forall in Hall as (? & ? & ?); [|done]. by exists (drop 4 (cwe_id c)).
Qed.

(** Every candidate is consistent: its category is the registry's category
    of its CWE and [unknown] when it has none, its CWE is in the form [CWE-n],
    its line numbers fit 32 bits. *)
Theorem parse_item_consistent (w : W) (target : str) (item : V) :
  let c := parse_item w target item in
  category c = default UNKNOWN (cwe c ≫= category_for_cwe) /\
  (forall s, cwe c = Some s -> exists d, cwe_number d /\ s = CWE_PREFIX ++ d) /\
  in_u32 (start_line c) /\ in_u32 (end_line c).
Proof.
  simpl. split; [apply choose_cwe_category|]. split; [|unfold line_of; auto with rust].
  intros s. unfold choose_cwe. case_goal; [apply normalize_cwe_form|].
  destruct (infer_cwe _) as [x|] eqn:Ei; [|apply normalize_cwe_form].
  intros [= <-]. unfold infer_cwe in Ei. apply fmap_Some in Ei as (c & Hm & ->).
  eapply registry_cwe_form, matching_category_registered, Hm.
Qed.

(** A snippet is taken from the file exactly when the line range is a range of
    its lines, and is then those lines joined; no range makes the slice panic. *)
Theorem read_snippet_correct (w : W) target rel a b s :
  in_u32 a -> in_u32 b ->
  read_snippet w target rel a b = Some s <->
  exists contents, read_to_string w (std_path_join target rel) = Ok contents /\
    (1 <= a <= b)%Z /\ (b <= Z.of_nat (length (lines contents)))%Z /\
    s = join [LF] (take (Z.to_nat (b + 1 - a)) (drop (Z.to_nat (a - 1)) (lines contents))).
Proof.
  intros [Ha0 _] [Hb0 _]. unfold read_snippet.
  destruct (Z.eqb_spec a 0) as [->|Ha]; simpl; [split; [done|]; intros (c & _ & ? & _); lia|].
  destruct (Z.ltb_spec b a); [split; [done|]; intros (c & _ & ? & _); lia|].
  destruct (read_to_string w (std_path_join target rel)) as [contents|e]; simpl;
    [|split; [done|by intros (c & ? & _)]].
  replace (Z.to_nat (a - 1)) with (Z.to_nat a - 1) by lia.
  replace (Z.to_nat (b + 1 - a)) with (Z.to_nat b - (Z.to_nat a - 1)) by lia.
  destruct (_ && _) eqn:E; boolify.
  - split.
    + intros [= <-]. exists contents. split_and!; auto; lia.
    + intros (c & [= <-] & _ & _ & ->). done.
  - split; [done|]. intros (c & [= <-] & ? & ? & _).
    apply andb_false_iff in E as [E|E]; boolify; lia.
Qed.

(** ** Running the tool *)

Context (BUNDLED_RULES : str).

(** Asking for a file list and for a diff at once is refused before anything
    is written or run. *)
Theorem semgrep_handle_exclusive args_from_str tool text args p ps base (w : W) :
  args_from_str text = Ok args -> paths args = Some (p :: ps) -> diff_base args = Some base ->
  semgrep_handle BUNDLED_RULES args_from_str tool (Ok text) w
  = (w, Err (RespondToModel exclusive_message)).
Proof.
  intros Ha Hp Hd. unfold semgrep_handle, bind, of_result. rewrite Ha. simpl. by rewrite Hp, Hd.
Qed.

(** With a file list, even an empty one, the diff base is not looked at. *)
Lemma run_semgrep_paths_first tool t ps base (w : W) :
  run_semgrep BUNDLED_RULES tool t (Some ps) (Some base) w
  = run_semgrep BUNDLED_RULES tool t (Some ps) None w.
Proof. done. Qed.

Lemma git_changed_files_lines tool t base (w w' : W) files :
  git_changed_files tool t base w = (w', Ok files) ->
  exists out err, runner tool
      [default (lit "git") (which w (lit "git")); lit "-C"; t; lit "diff"; lit "--name-only";
       lit "--diff-filter=ACMR"; base] t (from_secs 60) w = (w', Ok (0%Z, out, err)) /\
    (forall f, f ∈ files <-> f <> [] /\ exists l, l ∈ lines out /\ f = trim l).
Proof.
  unfold git_changed_files. rewrite (bind_step _ _ w w _ eq_refl). cbv beta zeta.
  intros (w1 & [[code out] err] & Hr & Hk)%bind_ok. rewrite Hr.
  destruct (Z.eqb_spec code 0) as [->|]; [|done]. injection Hk as <- <-.
  exists out, err. split; [done|]. intros f. rewrite list_elem_of_In, List.filter_In, in_map_iff.
  split.
  - intros [(l & <- & Hl) Hn]. split; [by destruct (trim l)|]. exists l.
    split; [by apply list_elem_of_In|done].
  - intros [Hn (l & Hl & ->)]. split; [exists l; split; [done|by apply list_elem_of_In]|].
    by destruct (trim l).
Qed.

(** The files a scan is pointed at, for each combination of the arguments. *)
Definition mode_for (tool : SemgrepTool W) (t : str) (paths : option (list str))
    (base : option str) (mode : ArgvMode) : Prop :=
  match paths, base with
  | Some ps, _ => mode = Paths ps
  | None, None => mode = WholeRepo
  | None, Some b =>
      exists git out err w w' files, mode = DiffFiles files /\
        runner tool [git; lit "-C"; t; lit "diff"; lit "--name-only"; lit "--diff-filter=ACMR"; b]
          t (from_secs 60) w = (w', Ok (0%Z, out, err)) /\
        (forall f, f ∈ files <->
           ends_with (lit ".py") f = true /\ exists l, l ∈ lines out /\ f = trim l)
  end.

Lemma choose_mode_for tool t ps base (w w' : W) mode :
  choose_mode tool t ps base w = (w', Ok mode) -> mode_for tool t ps base mode.
Proof.
  unfold choose_mode, mode_for.
  destruct ps as [ps|]; [by intros [= <- <-]|]. destruct base as [b|]; [|by intros [= <- <-]].
  intros (w1 & changed & Hg & Hk)%bind_ok. injection Hk as <- <-.
  apply git_changed_files_lines in Hg as (out & err & Hr & Hf).
  eexists _, _, _, _, _, _. split; [done|]. split; [exact Hr|]. intros f.
  rewrite list_elem_of_In, List.filter_In, <-list_elem_of_In, Hf. split; [naive_solver|].
  intros [He Hl]. split; [|done]. split; [|done]. intros ->. vm_compute in He. done.
Qed.

(** A scan that succeeds ran semgrep once over the chosen files, semgrep exited
    with code 0, and the candidates are those of the report it printed; in diff
    mode the files are exactly the Python files git listed as changed. *)
Theorem run_semgrep_success tool t ps base (w w' : W) cs :
  run_semgrep BUNDLED_RULES tool t ps base w = (w', Ok cs) ->
  exists w0 w1 rules mode out err data,
    mode_for tool t ps base mode /\
    runner tool (build_argv (resolve_semgrep_path tool w0) rules mode) t (tool_timeout tool) w1
      = (w', Ok (0%Z, out, err)) /\
    from_str out = Ok data /\ cs = parse_results w' data t.
Proof.
  unfold run_semgrep. intros (w0 & rules & _ & Hk)%bind_ok.
  apply bind_ok in Hk as (w1 & sp & Hs & Hk). injection Hs as <- <-.
  apply bind_ok in Hk as (w2 & mode & Hm & Hk). apply choose_mode_for in Hm.
  apply bind_ok in Hk as (w3 & [[code out] err] & Hr & Hk).
  destruct (Z.eqb_spec code 0) as [->|]; [|done]. simpl in Hk.
  apply bind_ok in Hk as (w4 & data & Hd & Hk). injection Hd as <- Hd. injection Hk as <- <-.
  destruct (from_str out) as [d|] eqn:Ef; simplify_eq/=.
  eexists _, _, _, _, _, _, _. eauto.
Qed.
End Report.

(** ** A run *)

Module SemgrepDemo.
Definition item (rule : str) (line : Z) : json :=
  JObj [(lit "check_id", JStr rule); (lit "path", JStr (lit "app.py"));
        (lit "start", JObj [(lit "line", JNum line)]);
        (lit "end", JObj [(lit "line", JNum line)])].

Definition report : json :=
  JObj [(lit "results",
    JArr [item (lit "x.sqli") 4; item (lit "y.sql-injection") 2; item (lit "odd-rule") 2])].

#[export] Instance demo_json : JsonOps json := json_ops (fun _ => Ok report).
#[export] Instance demo_std : UnicodeStd := ascii_std.

(** [git diff] lists two files, everything else prints nothing. *)
Definition demo_process (c : command) : list (str * str) * process_outcome :=
  ([], if bool_decide (lit "diff" ∈ args c)
       then Exited (Some 0%Z) (lit "app.py" ++ [LF] ++ lit "notes.md" ++ [LF]) []
       else Exited (Some 0%Z) [] []).

Definition demo_host : mem_host :=
  mkMemHost [] [(lit "/r/app.py", lit "import x" ++ [LF] ++ lit "run(q)" ++ [LF])] demo_process.

Definition demo_args (text : str) : result RunSemgrepArgs str :=
  Ok (mkRunSemgrepArgs (lit "/r") (Some [text]) (Some (lit "main"))).
End SemgrepDemo.
Import SemgrepDemo.

Lemma read_snippet_correct_witness :
  read_snippet demo_host (lit "/r") (lit "app.py") 2 2 = Some (lit "run(q)").
Proof.
  apply (read_snippet_correct demo_host (lit "/r") (lit "app.py") 2 2);
    [split; reflexivity || discriminate..|].
  exists (lit "import x" ++ [LF] ++ lit "run(q)" ++ [LF]).
  split; [reflexivity|]. split; [lia|]. split; [vm_compute; discriminate|reflexivity].
Defined.

Lemma semgrep_handle_exclusive_witness :
  semgrep_handle [] demo_args new_semgrep_tool (Ok (lit "a.py")) demo_host
  = (demo_host, Err (RespondToModel exclusive_message)).
Proof.
  apply (semgrep_handle_exclusive [] demo_args new_semgrep_tool (lit "a.py")
           (mkRunSemgrepArgs (lit "/r") (Some [lit "a.py"]) (Some (lit "main"))) (lit "a.py") []
           (lit "main")); reflexivity.
Defined.

Lemma run_semgrep_success_witness :
  let out := run_semgrep [] new_semgrep_tool (lit "/r") None (Some (lit "main")) (demo_host, []) in
  (fun c => program c :: args c) <$> out.1.2 !! 1 =
    Some (build_argv (lit "/usr/bin/semgrep") (lit "/tmp/gloscope-blindspots.yml")
            (DiffFiles [lit "app.py"])) /\
  exists mode,
    mode_for (W := traced mem_host) new_semgrep_tool (lit "/r") None (Some (lit "main")) mode.
Proof.
  split; [vm_compute; reflexivity|].
  destruct (run_semgrep [] new_semgrep_tool (lit "/r") None (Some (lit "main")) (demo_host, []))
    as [w' [cs|e]] eqn:E.
  - destruct (run_semgrep_success [] new_semgrep_tool (lit "/r") None (Some (lit "main"))
                (demo_host, []) w' cs E) as (_ & _ & _ & mode & _ & _ & _ & Hm & _).
    exists mode. exact Hm.
  - apply (f_equal (fun o => is_ok o.2)) in E. vm_compute in E. discriminate E.
Defined.

(** The report of the run: sorted, and the two neighbouring injections merged. *)
Example demo_candidates :
  map (fun c => (category c, start_line c)) (parse_results demo_host report (lit "/r"))
  = [(lit "sql_injection", 2%Z); (lit "unknown", 2%Z)].
Proof. vm_compute. reflexivity. Qed.
