(* ===== verification/Config.v ===== *)
(** * GloScope's configuration

    Models [gloscope-config/src/lib.rs]: the settings file, the API key, and the
    resolved configuration the tools use.  The TOML reader and writer and the
    secret store are interfaces; a [f64] number of seconds is a binary64 value
    in the sense of the standard library's [SpecFloat]. *)

From Stdlib Require Import ZArith Lia SpecFloat.
From S2P Require Import Prelude RustStr PatchSyntax Host.

(** ** Seconds as [f64] *)

Definition f64 : Type := spec_float.

(** The nearest integer to [n / d], halves to the even one. *)
Definition div_half_even (n d : Z) : Z :=
  let q := (n / d)%Z in
  let r := (n mod d)%Z in
  if (2 * r <? d)%Z then q
  else if (d <? 2 * r)%Z then (q + 1)%Z
  else if Z.even q then q else (q + 1)%Z.

(** The nanoseconds of [m * 2^e] seconds. *)
Definition finite_nanos (m : positive) (e : Z) : Z :=
  div_half_even (Zpos m * 2 ^ (Z.max 0 e) * 10 ^ 9) (2 ^ (Z.max 0 (- e))).

(** [Duration::from_secs_f64]: [None] is its panic, on a negative, infinite or
    undefined number and on one too large for a [Duration]. *)
Definition from_secs_f64 (x : f64) : option Z :=
  match x with
  | S754_zero _ => Some 0%Z
  | S754_finite false m e =>
      let n := finite_nanos m e in
      if (n <? u64_modulus * 10 ^ 9)%Z then Some n else None
  | S754_finite true _ _ | S754_infinity _ | S754_nan => None
  end.

(** The literals [60.0] and [600.0]. *)
Definition f64_60 : f64 := S754_finite false 8444249301319680 (-47).
Definition f64_600 : f64 := S754_finite false 5277655813324800 (-43).

Example f64_60_secs : from_secs_f64 f64_60 = Some (from_secs 60).
Proof. vm_compute. reflexivity. Qed.
Example f64_600_secs : from_secs_f64 f64_600 = Some (from_secs 600).
Proof. vm_compute. reflexivity. Qed.

(** ** Data *)

Definition SETTINGS_FILENAME : str := Eval vm_compute in lit "settings.toml".
Definition API_KEY_SECRET_NAME : str := Eval vm_compute in lit "GLOSCOPE_API_KEY".
Definition API_KEY_ENV_FALLBACK : str := Eval vm_compute in lit "GLOSCOPE_API_KEY".

Inductive ConfigError : Type :=
  | NotConfigured (home : str)
  | ReadError (message : str)
  | WriteError (message : str)
  | InvalidToml (message : str)
  | SerializeToml (message : str)
  | MissingBaseUrl
  | MissingTriageModel
  | MissingApiKey
  | SecretError (message : str).

Definition config_error_string (e : ConfigError) : str :=
  match e with
  | NotConfigured home =>
      lit "GloScope 尚未完成首次配置：请在设置向导中填写 provider/模型信息（settings.toml 不存在于 "
      ++ home ++ lit "）"
  | ReadError m => lit "读取配置文件失败: " ++ m
  | WriteError m => lit "写入配置文件失败: " ++ m
  | InvalidToml m => lit "配置文件不是合法 TOML: " ++ m
  | SerializeToml m => lit "序列化配置失败: " ++ m
  | MissingBaseUrl => lit "配置缺少 base_url"
  | MissingTriageModel => lit "配置缺少 triage_model"
  | MissingApiKey =>
      lit "未配置 API key：请在设置向导中填写，或设置环境变量 " ++ API_KEY_ENV_FALLBACK
  | SecretError m => lit "读取/写入 API key 失败: " ++ m
  end.

Record GloscopeSettings : Type := mkSettings {
  s_base_url : str;
  s_triage_model : str;
  s_verify_model : str;
  s_wire_api : str;
  s_triage_timeout_secs : f64;
  s_verify_timeout_secs : f64;
}.

(** The defaults of the optional fields. *)
Definition default_wire_api : str := Eval vm_compute in lit "responses".
Definition default_triage_timeout : f64 := f64_60.
Definition default_verify_timeout : f64 := f64_600.

Record GloscopeConfig : Type := mkConfig {
  base_url : str;
  api_key : str;
  triage_model : str;
  verify_model : str;
  wire_api : str;
  triage_timeout : Z;
  verify_timeout : Z;
}.

(** ** Interfaces *)

(** [toml::from_str] and [toml::to_string_pretty] on the settings. *)
Class SettingsToml : Type := {
  settings_from_toml : str -> result GloscopeSettings str;
  settings_to_toml : GloscopeSettings -> result str str;
}.

(** [codex_secrets::SecretsManager] over a home directory, global scope. *)
Class SecretStore (W : Type) : Type := {
  secret_get : W -> str -> str -> result (option str) str;
  secret_set : W -> str -> str -> str -> W * result unit str;
}.

(** ** Operations *)

Section Config.
Context {W : Type} `{Host W, SettingsToml, SecretStore W}.

Definition gloscope_home (w : W) : str :=
  match env_var w (lit "GLOSCOPE_HOME") with
  | Some p => p
  | None => std_path_join (default (lit ".") (home_dir w)) (lit ".gloscope")
  end.

Definition settings_path (home : str) : str := std_path_join home SETTINGS_FILENAME.

Definition is_configured (w : W) (home : str) : bool := path_is_file w (settings_path home).

Definition load_settings (w : W) (home : str) : result GloscopeSettings ConfigError :=
  let path := settings_path home in
  if negb (path_is_file w path) then Err (NotConfigured home)
  else
    let? text := map_err (fun e => ReadError (io_message e)) (read_to_string w path) in
    map_err InvalidToml (settings_from_toml text).

Definition save_settings (home : str) (settings : GloscopeSettings) : act W unit ConfigError :=
  if is_empty (trim (s_base_url settings)) then throw MissingBaseUrl
  else if is_empty (trim (s_triage_model settings)) then throw MissingTriageModel
  else
    do? _ := map_err_act (fun e => WriteError (io_message e)) (fun w => create_dir_all w home) in
    do? text := of_result (map_err SerializeToml (settings_to_toml settings)) in
    map_err_act (fun e => WriteError (io_message e))
      (fun w => fs_write w (settings_path home) text).

Definition save_api_key (home key : str) : act W unit ConfigError :=
  map_err_act SecretError (fun w => secret_set w home API_KEY_SECRET_NAME key).

Definition load_api_key (w : W) (home : str) : result (option str) ConfigError :=
  map_err SecretError (secret_get w home API_KEY_SECRET_NAME).

(** The key in use: the stored one, else the variable; never an empty one. *)
Definition effective_key (w : W) (stored : option str) : option str :=
  match (match stored with Some k => Some k | None => env_var w API_KEY_ENV_FALLBACK end) with
  | Some k => if is_empty k then None else Some k
  | None => None
  end.

Definition effective_verify_model (settings : GloscopeSettings) : str :=
  if is_empty (trim (s_verify_model settings)) then s_triage_model settings
  else s_verify_model settings.

(** [None]: the conversion of a timeout panicked. *)
Definition load_config_with (w : W) (home : str) : option (result GloscopeConfig ConfigError) :=
  match load_settings w home with
  | Err e => Some (Err e)
  | Ok settings =>
  match load_api_key w home with
  | Err e => Some (Err e)
  | Ok stored =>
  match effective_key w stored with
  | None => Some (Err MissingApiKey)
  | Some key =>
      let! triage_timeout := from_secs_f64 (s_triage_timeout_secs settings) in
      let! verify_timeout := from_secs_f64 (s_verify_timeout_secs settings) in
      Some (Ok (mkConfig (s_base_url settings) key (s_triage_model settings)
        (effective_verify_model settings) (s_wire_api settings) triage_timeout verify_timeout))
  end end end.

Definition load_config (w : W) : option (result GloscopeConfig ConfigError) :=
  load_config_with w (gloscope_home w).
End Config.

(** ** Laws of the interfaces *)

(** A file just written is there with its contents. *)
Class HostFiles (W : Type) `{Host W} : Prop := {
  fs_write_read w p c w' :
    fs_write w p c = (w', Ok tt) -> read_to_string w' p = Ok c /\ path_is_file w' p = true;
}.

Class SettingsTomlLaws `{SettingsToml} : Prop := {
  toml_round_trip s t : settings_to_toml s = Ok t -> settings_from_toml t = Ok s;
}.

(** ** Timeouts *)

Lemma div_half_even_nonneg n d : (0 <= n)%Z -> (0 < d)%Z -> (0 <= div_half_even n d)%Z.
Proof.
  intros Hn Hd. unfold div_half_even. pose proof (Z.div_pos n d Hn Hd).
  repeat case_goal; lia.
Qed.

(** A [Duration] is what 64-bit seconds and the nanoseconds hold. *)
Definition in_duration (n : Z) : Prop := (0 <= n < u64_modulus * 10 ^ 9)%Z.

Lemma from_secs_f64_range x n : from_secs_f64 x = Some n -> in_duration n.
Proof.
  destruct x as [|?| |[] m e]; simpl; intros Hx; try done.
  - injection Hx as <-. split; [done|reflexivity].
  - case_hyp Hx. injection Hx as <-. split; [|by apply Z.ltb_lt].
    apply div_half_even_nonneg; [|apply Z.pow_pos_nonneg; lia].
    repeat apply Z.mul_nonneg_nonneg; try lia; apply Z.pow_nonneg; lia.
Qed.

Section ConfigFacts.
Context {W : Type} `{Host W, SettingsToml, SecretStore W}.
Context {Files : HostFiles W} {Toml : SettingsTomlLaws}.

Lemma save_settings_load home s (w w' : W) :
  save_settings home s w = (w', Ok tt) ->
  is_empty (trim (s_base_url s)) = false /\ is_empty (trim (s_triage_model s)) = false /\
  is_configured w' home = true /\ load_settings w' home = Ok s.
Proof using Files Toml.
  unfold save_settings. intros Hs. repeat case_hyp Hs.
  apply bind_ok in Hs as (w1 & [] & _ & Hs). apply bind_ok in Hs as (w2 & text & Ht & Hs).
  injection Ht as <- Ht. destruct (settings_to_toml s) as [t|] eqn:Et; simplify_eq/=.
  unfold map_err_act in Hs. destruct (fs_write w1 _ text) as [w3 [[]|]] eqn:Ew; simplify_eq/=.
  apply fs_write_read in Ew as [Hr Hf]. split; [done|]. split; [done|].
  unfold is_configured, load_settings. rewrite Hf, Hr. simpl.
  by rewrite (toml_round_trip _ _ Et).
Qed.

(** Settings survive the file: after a successful save GloScope counts as
    configured and loading gives back the saved settings, whose endpoint and
    triage model are not blank. *)
Theorem save_load_settings home s (w w' : W) :
  save_settings home s w = (w', Ok tt) ->
  is_configured w' home = true /\ load_settings w' home = Ok s /\
  is_empty (trim (s_base_url s)) = false /\ is_empty (trim (s_triage_model s)) = false.
Proof using Files Toml. intros Hs%save_settings_load. naive_solver. Qed.

(** A negative timeout passes the checks of [save_settings], and from then on
    loading the configuration panics. *)
Theorem negative_timeout_panics home s (w w' : W) m e key :
  s_triage_timeout_secs s = S754_finite true m e ->
  save_settings home s w = (w', Ok tt) ->
  secret_get w' home API_KEY_SECRET_NAME = Ok (Some key) -> key <> [] ->
  load_config_with w' home = None.
Proof using Files Toml.
  intros Ht (_ & _ & _ & Hl)%save_settings_load Hk Hne. unfold load_config_with, load_api_key.
  rewrite Hl, Hk. destruct key; [done|]. simpl. by rewrite Ht.
Qed.
End ConfigFacts.

Section Loaded.
Context {W : Type} `{Host W, SettingsToml, SecretStore W}.

Lemma effective_key_some (w : W) stored key :
  effective_key w stored = Some key ->
  key <> [] /\ (stored = Some key \/ stored = None /\ env_var w API_KEY_ENV_FALLBACK = Some key).
Proof.
  unfold effective_key.
  destruct stored as [k|]; [|destruct (env_var w API_KEY_ENV_FALLBACK) as [k|]; [|done]];
    destruct k; simpl; naive_solver.
Qed.

(** A configuration that loads is usable: the key is not empty and is the stored
    one when there is one, else the variable's; the verification model is blank
    only if the triage model is; the timeouts are durations. *)
Theorem load_config_usable (w : W) home cfg :
  load_config_with w home = Some (Ok cfg) ->
  api_key cfg <> [] /\
  (secret_get w home API_KEY_SECRET_NAME = Ok (Some (api_key cfg)) \/
   secret_get w home API_KEY_SECRET_NAME = Ok None /\
   env_var w API_KEY_ENV_FALLBACK = Some (api_key cfg)) /\
  (is_empty (trim (verify_model cfg)) = true -> verify_model cfg = triage_model cfg) /\
  in_duration (triage_timeout cfg) /\ in_duration (verify_timeout cfg).
Proof.
  unfold load_config_with, load_api_key. intros Hl.
  destruct (load_settings w home) as [s|]; [|done].
  destruct (secret_get w home API_KEY_SECRET_NAME) as [stored|] eqn:Ek; simpl in Hl; [|done].
  destruct (effective_key w stored) as [key|] eqn:Eff; [|done].
  destruct (from_secs_f64 (s_triage_timeout_secs s)) eqn:Et; [|done].
  destruct (from_secs_f64 (s_verify_timeout_secs s)) eqn:Ev; [|done].
  apply from_secs_f64_range in Et, Ev. simplify_eq/=.
  apply effective_key_some in Eff as [Hne Hsrc]. split; [done|]. split; [naive_solver|].
  split; [|by split]. unfold effective_verify_model. case_goal; [done|congruence].
Qed.
End Loaded.

(** ** A configured host *)

Module ConfigDemo.
(** One settings value and its text; the key store holds one key. *)
Definition demo_settings : GloscopeSettings :=
  mkSettings (lit "https://api.example.com") (lit "small") (lit " ") default_wire_api
    (S754_finite true 1 0) default_verify_timeout.

Definition good_settings : GloscopeSettings :=
  mkSettings (lit "https://api.example.com") (lit "small") (lit " ") default_wire_api
    default_triage_timeout default_verify_timeout.

#[export] Instance demo_toml : SettingsToml := {|
  settings_from_toml t :=
    if bool_decide (t = lit "bad") then Ok demo_settings
    else if bool_decide (t = lit "good") then Ok good_settings else Err (lit "expected a table");
  settings_to_toml s :=
    match s_triage_timeout_secs s with
    | S754_finite true 1 0 =>
        if bool_decide (s_base_url s = s_base_url demo_settings /\
             s_triage_model s = s_triage_model demo_settings /\
             s_verify_model s = s_verify_model demo_settings /\
             s_wire_api s = s_wire_api demo_settings)
        then match s_verify_timeout_secs s with
             | S754_finite false 5277655813324800 (-43) => Ok (lit "bad")
             | _ => Err (lit "unsupported")
             end
        else Err (lit "unsupported")
    | _ => Err (lit "unsupported")
    end;
|}.

#[export] Instance demo_toml_laws : SettingsTomlLaws.
Proof.
  split. intros [bu tm vm wa tt_ vt] t. simpl. intros Hs.
  repeat case_hyp Hs. boolify. simplify_eq.
  match goal with Hc : _ /\ _ |- _ => destruct Hc as (-> & -> & -> & ->) end. reflexivity.
Qed.

#[export] Instance demo_secrets : SecretStore mem_host := {|
  secret_get _ _ _ := Ok (Some (lit "k"));
  secret_set w _ _ _ := (w, Ok tt);
|}.

#[export] Instance mem_host_files : HostFiles mem_host.
Proof.
  split. intros w p c w'. simpl. intros [= <-]. simpl. by rewrite bool_decide_true.
Qed.

Definition empty_host : mem_host := mkMemHost [] [] (fun _ => ([], WaitElapsed)).
Definition saved_host : mem_host := (save_settings (lit "/h") demo_settings empty_host).1.
Definition good_host : mem_host :=
  mkMemHost [] [(lit "/h/settings.toml", lit "good")] (fun _ => ([], WaitElapsed)).
End ConfigDemo.
Import ConfigDemo.

Lemma save_load_settings_witness : load_settings saved_host (lit "/h") = Ok demo_settings.
Proof.
  apply (save_load_settings (lit "/h") demo_settings empty_host saved_host).
  vm_compute. reflexivity.
Defined.

Lemma negative_timeout_panics_witness : load_config_with saved_host (lit "/h") = None.
Proof.
  apply (negative_timeout_panics (lit "/h") demo_settings empty_host saved_host 1 0 (lit "k"));
    [reflexivity|vm_compute; reflexivity|reflexivity|discriminate].
Defined.

Lemma load_config_usable_witness :
  exists cfg, load_config_with good_host (lit "/h") = Some (Ok cfg) /\ api_key cfg <> [].
Proof.
  destruct (load_config_with good_host (lit "/h")) as [[cfg|e]|] eqn:E.
  - exists cfg. split; [reflexivity|]. apply (load_config_usable good_host (lit "/h") cfg E).
  - vm_compute in E. discriminate E.
  - vm_compute in E. discriminate E.
Defined.
