(* ===== verification/Triage.v ===== *)
(** * The [triage] tool

    Models [ext/gloscope-tools/src/triage/mod.rs]: one chat completion that
    decides whether a candidate is worth a deep verification, failing open. *)

From Stdlib Require Import ZArith Lia.
From S2P Require Import Prelude RustStr PatchSyntax Host Json Candidate Semgrep Config.

(** The candidate as an argument of the tools ([submit_verdict/mod.rs]). *)
Record CandidateArg : Type := mkCandidateArg {
  a_check_id : str;
  a_path : str;
  a_start_line : Z;
  a_end_line : Z;
  a_snippet : str;
  a_message : str;
  a_cwe : option str;
  a_category : str;
  a_source : str;
}.

(** ** The prompt and the URL *)

Definition PLACEHOLDER : str := Eval vm_compute in lit "{candidate_json}".

Definition PROMPT_HEAD : str := Eval vm_compute in
  join [LF]
    [lit "你是一名漏洞分诊专家。下面是静态扫描（semgrep）产出的一个候选，";
     lit "请判断它是否【值得】交给深度验证 agent 追污点链（而不是明显误报）。";
     lit "";
     lit "判断要点：";
     lit "- 候选代码是否真的存在把外部输入导向危险 sink 的模式；";
     lit "- 明显的误报（常量拼接、经过参数化/白名单、测试代码等）应当 drop；";
     lit "- 拿不准的保留（keep），深度验证层会给出最终结论。";
     lit "";
     lit "候选 JSON：";
     lit ""].

Definition PROMPT_TAIL : str := Eval vm_compute in
  [LF; LF] ++ lit "只输出严格 JSON，不要多余文本：{{" ++ [QUOTE] ++ lit "keep" ++ [QUOTE]
  ++ lit ": <true|false>, " ++ [QUOTE] ++ lit "reason" ++ [QUOTE] ++ lit ": " ++ [QUOTE]
  ++ lit "<一行中文理由>" ++ [QUOTE] ++ lit "}}".

Definition PROMPT_TEMPLATE : str := PROMPT_HEAD ++ PLACEHOLDER ++ PROMPT_TAIL.

(** [serde_json::to_string_pretty] of the candidate. *)
Definition render_prompt (to_string_pretty : CandidateArg -> result str str) (c : CandidateArg)
    : str :=
  let candidate_json := default [] (result_ok (to_string_pretty c)) in
  replace PLACEHOLDER candidate_json PROMPT_TEMPLATE.

Definition CHAT_COMPLETIONS : str := Eval vm_compute in lit "/chat/completions".
Definition V_LOWER : N := 118.

(** [last.len() > 1], with a single-byte first character, is one more. *)
Definition version_segment (seg : str) : bool :=
  match seg with
  | c :: (_ :: _) as rest => (c =? V_LOWER)%N && forallb is_ascii_digit (drop 1 seg)
  | _ => false
  end.

Definition chat_completions_url (base_url : str) : str :=
  let base := trim_end_matches SLASH base_url in
  if ends_with CHAT_COMPLETIONS base then base
  else
    let has_version_suffix :=
      match last (split_on SLASH base) with Some seg => version_segment seg | None => false end in
    if has_version_suffix then base ++ CHAT_COMPLETIONS
    else base ++ lit "/v1" ++ CHAT_COMPLETIONS.

Definition FENCE : str := Eval vm_compute in lit "```".
Definition JSON_FENCE : str := Eval vm_compute in lit "```json".

Definition strip_fences (text : str) : str :=
  let s := match strip_prefix JSON_FENCE text with
           | Some rest => rest
           | None => match strip_prefix FENCE text with Some rest => rest | None => text end
           end in
  let s := match strip_suffix FENCE s with Some rest => rest | None => s end in
  trim s.

(** ** The call *)

Record TriageResult : Type := mkTriageResult {
  keep : bool;
  reason : str;
  model : str;
  tokens_in : Z;
  tokens_out : Z;
}.

Definition fail_open (reason model : str) : TriageResult :=
  mkTriageResult true (lit "triage failed（已保守保留）: " ++ reason) model 0 0.

(** The request body: the model, one user message, temperature 0. *)
Record ChatRequest : Type := mkChatRequest {
  request_model : str;
  request_prompt : str;
}.

(** The tool's seam to the network: status and text, or an error. *)
Definition HttpCaller (W : Type) : Type :=
  str -> str -> ChatRequest -> Z -> act W (Z * str) str.

Section Triage.
Context {W V : Type} `{Host W, JsonOps V}.
Context (to_string_pretty : CandidateArg -> result str str) (http : HttpCaller W).

(** [data["choices"][0]["message"]["content"].as_str()]. *)
Definition response_content (data : V) : option str :=
  let! choices := get data (lit "choices") in
  let! items := as_array choices in
  let! choice := head items in
  let! m := get choice (lit "message") in
  let! content := get m (lit "content") in
  as_str content.

Definition usage_tokens (data : V) (key : str) : Z :=
  default 0%Z (get_and_then data (lit "usage") (fun usage => get_and_then usage key as_u64)).

(** What a successful response says. *)
Definition read_response (cfg : GloscopeConfig) (text : str) : result TriageResult str :=
  let? data := from_str (V := V) text in
  let? content := ok_or (response_content data) (lit "响应缺少 choices[0].message.content") in
  let? parsed := from_str (V := V) (strip_fences (trim content)) in
  let? keep := ok_or (get_and_then parsed (lit "keep") as_bool) (lit "响应缺少 keep 字段") in
  let reason := default [] (get_str parsed (lit "reason")) in
  Ok (mkTriageResult keep reason (triage_model cfg)
        (usage_tokens data (lit "prompt_tokens")) (usage_tokens data (lit "completion_tokens"))).

Definition triage_call (c : CandidateArg) (cfg : GloscopeConfig) : act W TriageResult str :=
  let prompt := render_prompt to_string_pretty c in
  let body := mkChatRequest (triage_model cfg) prompt in
  let url := chat_completions_url (base_url cfg) in
  do? (status, text) := http url (api_key cfg) body (triage_timeout cfg) in
  if negb (status =? 200)%Z
  then throw (lit "HTTP " ++ show_Z status ++ lit ": " ++ take_chars 200 text)
  else of_result (read_response cfg text).

Definition triage (c : CandidateArg) (cfg : GloscopeConfig) (w : W) : W * TriageResult :=
  match triage_call c cfg w with
  | (w, Ok result) => (w, result)
  | (w, Err err) => (w, fail_open err (triage_model cfg))
  end.

Context `{SettingsToml, SecretStore W}.
Context (args_from_str : str -> result (str * CandidateArg) str).

(** [handle]; [None] is the panic of [load_config]. *)
Definition triage_handle (arguments : result str FunctionCallError) (w : W)
    : option (W * result TriageResult FunctionCallError) :=
  match arguments with
  | Err e => Some (w, Err e)
  | Ok text =>
  match args_from_str text with
  | Err e => Some (w, Err (RespondToModel e))
  | Ok (_, candidate) =>
  match load_config w with
  | None => None
  | Some (Err e) => Some (w, Err (RespondToModel (config_error_string e)))
  | Some (Ok cfg) => let '(w, r) := triage candidate cfg w in Some (w, Ok r)
  end end end.
End Triage.

(** ** What a decision rests on *)

Section TriageFacts.
Context {W V : Type} `{Host W, JsonOps V}.
Context (to_string_pretty : CandidateArg -> result str str) (http : HttpCaller W).

Lemma read_response_keep cfg text r :
  read_response (V := V) cfg text = Ok r ->
  exists data content parsed, from_str text = Ok data /\ response_content data = Some content /\
    from_str (strip_fences (trim content)) = Ok parsed /\
    get_and_then parsed (lit "keep") as_bool = Some (keep r).
Proof.
  unfold read_response. intros Hr.
  destruct (from_str text) as [data|]; [|done].
  destruct (response_content data) as [content|] eqn:Ec; simpl in Hr; [|done].
  destruct (from_str (strip_fences (trim content))) as [parsed|] eqn:Ep; [|done].
  destruct (get_and_then parsed (lit "keep") as_bool) as [k|] eqn:Ek; simpl in Hr; [|done].
  injection Hr as <-. exists data, content, parsed. auto.
Qed.

(** A candidate is dropped only on the model's word: when triage answers
    [keep = false], the endpoint was called once with status 200 and the
    fenced JSON of its first choice says so; every failure keeps it. *)
Theorem triage_drop_sound c cfg (w w' : W) r :
  triage (V := V) to_string_pretty http c cfg w = (w', r) -> keep r = false ->
  exists text data content parsed,
    http (chat_completions_url (base_url cfg)) (api_key cfg)
      (mkChatRequest (triage_model cfg) (render_prompt to_string_pretty c)) (triage_timeout cfg) w
    = (w', Ok (200%Z, text)) /\
    from_str text = Ok data /\ response_content data = Some content /\
    from_str (strip_fences (trim content)) = Ok parsed /\
    get_and_then parsed (lit "keep") as_bool = Some false.
Proof.
  unfold triage, triage_call. intros Ht Hk.
  destruct (bind _ _ w) as [w1 [r1|e]] eqn:E; simplify_eq/=.
  apply bind_ok in E as (w2 & [status text] & Hh & Hr).
  destruct (Z.eqb_spec status 200) as [->|]; [|done]. simpl in Hr. injection Hr as <- Hr.
  apply read_response_keep in Hr as (data & content & parsed & H1 & H2 & H3 & H4).
  rewrite Hk in H4. exists text, data, content, parsed. auto.
Qed.
End TriageFacts.

(** ** The endpoint *)

Lemma trim_end_matches_app c s n : trim_end_matches c (s ++ repeat c n) = trim_end_matches c s.
Proof.
  unfold trim_end_matches. rewrite rev_app_distr. f_equal. apply drop_while_app_all.
  rewrite forallb_rev. induction n as [|n IH]; simpl; [done|]. by rewrite N.eqb_refl.
Qed.

Lemma trim_end_matches_id c s x : x <> c -> trim_end_matches c (s ++ [x]) = s ++ [x].
Proof.
  intros Hx. unfold trim_end_matches. rewrite rev_app_distr. simpl.
  destruct (N.eqb_spec c x); [congruence|]. simpl. by rewrite rev_involutive.
Qed.

(** The URL is a trimmed base with the endpoint's path behind it. *)
Lemma chat_completions_url_form base :
  exists b, chat_completions_url base = b ++ CHAT_COMPLETIONS.
Proof.
  unfold chat_completions_url. cbv zeta. destruct (ends_with CHAT_COMPLETIONS _) eqn:E.
  - by apply ends_with_true in E.
  - case_goal; [by eexists|]. eexists (_ ++ lit "/v1"). by rewrite <-app_assoc.
Qed.

Lemma chat_completions_url_fixed b :
  chat_completions_url (b ++ CHAT_COMPLETIONS) = b ++ CHAT_COMPLETIONS.
Proof.
  unfold chat_completions_url. cbv zeta.
  assert (trim_end_matches SLASH (b ++ CHAT_COMPLETIONS) = b ++ CHAT_COMPLETIONS) as ->.
  { change CHAT_COMPLETIONS with (lit "/chat/completion" ++ [115%N]).
    rewrite app_assoc. by apply trim_end_matches_id. }
  by rewrite (proj2 (ends_with_true CHAT_COMPLETIONS (b ++ CHAT_COMPLETIONS)) (ex_intro _ b eq_refl)).
Qed.

(** The endpoint's URL always ends in [/chat/completions], is not extended
    again when it is given as the base, and does not depend on slashes at the
    end of the base. *)
Theorem chat_completions_url_stable base n :
  ends_with CHAT_COMPLETIONS (chat_completions_url base) = true /\
  chat_completions_url (chat_completions_url base) = chat_completions_url base /\
  chat_completions_url (base ++ repeat SLASH n) = chat_completions_url base.
Proof.
  destruct (chat_completions_url_form base) as [b Hb]. split; [|split].
  - apply ends_with_true. eauto.
  - rewrite Hb. apply chat_completions_url_fixed.
  - unfold chat_completions_url. by rewrite trim_end_matches_app.
Qed.

(** A version segment at the end of the base is kept, any other base gets [v1]. *)
Example url_versioned :
  chat_completions_url (lit "https://h/api/v3/") = lit "https://h/api/v3/chat/completions".
Proof. vm_compute. reflexivity. Qed.
Example url_plain : chat_completions_url (lit "https://h/vx") = lit "https://h/vx/v1/chat/completions".
Proof. vm_compute. reflexivity. Qed.

(** ** Fences *)

Lemma trim_cons_ws c s : is_whitespace c = true -> trim (c :: s) = trim s.
Proof. intros Hc. unfold trim, trim_start. simpl. by rewrite Hc. Qed.

Lemma trim_snoc_ws c s : is_whitespace c = true -> trim (s ++ [c]) = trim s.
Proof. intros Hc. rewrite !trim_comm, trim_end_app_ws; simpl; [done|]. by rewrite Hc. Qed.

(** A JSON text in a Markdown fence, with or without the language tag, is taken
    out of it whatever the text is; a text without back quotes at its ends is
    only trimmed. *)
Theorem strip_fences_correct body :
  strip_fences (JSON_FENCE ++ [LF] ++ body ++ [LF] ++ FENCE) = trim body /\
  strip_fences (FENCE ++ [LF] ++ body ++ [LF] ++ FENCE) = trim body /\
  (head body <> Some 96%N -> last body <> Some 96%N -> strip_fences body = trim body).
Proof.
  assert (forall s, strip_suffix FENCE (s ++ FENCE) = Some s) as Hsuf
    by (intros s; by apply strip_suffix_Some).
  assert (forall s, trim ([LF] ++ s ++ [LF]) = trim s) as Htrim.
  { intros s. simpl. rewrite trim_cons_ws by done. by apply trim_snoc_ws. }
  unfold strip_fences. split; [|split].
  - rewrite strip_prefix_app. rewrite !app_assoc, Hsuf, <-!app_assoc. apply Htrim.
  - change (strip_prefix JSON_FENCE (FENCE ++ [LF] ++ body ++ [LF] ++ FENCE)) with (@None str).
    rewrite strip_prefix_app, !app_assoc, Hsuf, <-!app_assoc. apply Htrim.
  - intros Hh Hl.
    destruct (strip_prefix JSON_FENCE body) eqn:E1.
    { apply strip_prefix_Some in E1 as ->. done. }
    destruct (strip_prefix FENCE body) eqn:E2.
    { apply strip_prefix_Some in E2 as ->. done. }
    destruct (strip_suffix FENCE body) as [t|] eqn:E3; [|done].
    apply strip_suffix_Some in E3 as ->. change FENCE with ([96; 96] ++ [96])%N in Hl.
    by rewrite app_assoc, last_snoc in Hl.
Qed.

(** ** The prompt *)

(** The candidate's JSON goes in once, whatever it contains; the braces around
    the answer format stay doubled. *)
Lemma render_prompt_text to_string_pretty c j :
  to_string_pretty c = Ok j ->
  render_prompt to_string_pretty c = PROMPT_HEAD ++ j ++ PROMPT_TAIL /\
  contains (lit "{{") PROMPT_TAIL = true.
Proof.
  intros Hj. unfold render_prompt. rewrite Hj. split; [|reflexivity].
  vm_compute. reflexivity.
Qed.

(** ** A call *)

Module TriageDemo.
Definition answer : str := lit "no".
Definition demo_response : json :=
  JObj [(lit "choices",
    JArr [JObj [(lit "message", JObj [(lit "content", JStr (JSON_FENCE ++ [LF] ++ answer ++ [LF] ++ FENCE))])]])].

#[export] Instance demo_triage_json : JsonOps json :=
  json_ops (fun s => if bool_decide (s = answer) then Ok (JObj [(lit "keep", JBool false)])
                     else Ok demo_response).

Definition demo_http : HttpCaller mem_host := fun _ _ _ _ w => (w, Ok (200%Z, lit "{}")).

Definition demo_candidate : CandidateArg :=
  mkCandidateArg (lit "r") (lit "a.py") 1 1 (lit "x") (lit "m") None (lit "unknown") (lit "semgrep").

Definition demo_cfg : GloscopeConfig :=
  mkConfig (lit "https://h") (lit "k") (lit "small") (lit "big") (lit "responses")
    (from_secs 60) (from_secs 600).
End TriageDemo.
Import TriageDemo.

Lemma triage_drop_sound_witness :
  exists content,
    response_content demo_response = Some content /\ strip_fences (trim content) = answer.
Proof.
  destruct (triage_drop_sound (V := json) (fun _ => Ok []) demo_http demo_candidate demo_cfg
              ConfigDemo.empty_host ConfigDemo.empty_host
              (mkTriageResult false [] (lit "small") 0 0)) as (text & data & content & parsed & Hh & Hd & Hc & _).
  - vm_compute. reflexivity.
  - reflexivity.
  - injection Hh as <-. injection Hd as <-. exists content. split; [exact Hc|].
    injection Hc as <-. vm_compute. reflexivity.
Defined.
