(* ===== verification/Verdict.v ===== *)
(** * The [submit_verdict] tool

    Models [ext/gloscope-tools/src/submit_verdict/mod.rs]: a read-only [codex
    exec] sub-agent verifies one candidate; every failure becomes an
    inconclusive verification with an error text. *)

From Stdlib Require Import ZArith Lia.
From stdpp Require Import gmap.
From S2P Require Import Prelude RustStr PatchSyntax Host Json Candidate Semgrep Config Triage.

(** ** Data *)

Definition PROVIDER_ID : str := Eval vm_compute in lit "gloscope".
Definition ENV_KEY : str := Eval vm_compute in lit "GLOSCOPE_API_KEY".
Definition MAX_RETRIES : nat := 1.
Definition VERSION_PROBE_TIMEOUT : Z := from_secs 10.

Inductive Verdict : Type := Confirmed | FalsePositive | Inconclusive.
Inductive Confidence : Type := High | Medium | Low.
Inductive ExecutionContext : Type := Server | Client | UnknownContext.

#[export] Instance verdict_eq_dec : EqDecision Verdict.
Proof. solve_decision. Defined.

Record Verification : Type := mkVerification {
  verdict : Verdict;
  v_cwe : str;
  taint_path : list str;
  confidence : Confidence;
  poc_idea : str;
  explanation : str;
  poc_method : str;
  poc_path : str;
  poc_query : str;
  poc_body : str;
  poc_signal : str;
  execution_context : ExecutionContext;
  error : option str;
  v_model : str;
  v_tokens_in : Z;
  v_tokens_out : Z;
}.

(** The defaults of the optional fields of [CandidateArg]. *)
Definition default_category : str := Eval vm_compute in lit "unknown".
Definition default_source : str := Eval vm_compute in lit "semgrep".

Inductive ExecError : Type :=
  | ExecNotFound
  | ExecTimeout (d : Z)
  | ExecIo (message : str).

Definition exec_not_found_message : str :=
  lit "codex 未安装或不在 PATH：请安装 codex-cli（npm i -g @openai/codex）或用 --codex-path 指定".

Definition exec_timeout_message (d : Z) : str :=
  lit "codex exec 超时（>" ++ debug_duration d ++ lit "）".

Definition exec_error_string (e : ExecError) : str :=
  match e with
  | ExecNotFound => exec_not_found_message
  | ExecTimeout d => exec_timeout_message d
  | ExecIo m => m
  end.

Definition inconclusive (error model : str) : Verification :=
  mkVerification Inconclusive [] [] Low [] [] [] [] [] [] [] UnknownContext (Some error) model 0 0.

(** ** The contract of the sub-agent *)

Definition string_property (description : str) : json :=
  JObj [(lit "type", JStr (lit "string")); (lit "description", JStr description)].

Definition enum_property (values : list str) (description : option str) : json :=
  JObj ([(lit "type", JStr (lit "string")); (lit "enum", JArr (map JStr values))]
        ++ match description with Some d => [(lit "description", JStr d)] | None => [] end).

Definition schema_properties : list (str * json) :=
  [(lit "verdict", enum_property [lit "confirmed"; lit "false_positive"; lit "inconclusive"]
      (Some (lit "confirmed=真实可达漏洞；false_positive=误报；inconclusive=证据不足")));
   (lit "cwe", string_property (lit "CWE 编号，如 CWE-89；未知则空字符串"));
   (lit "taint_path",
      JObj [(lit "type", JStr (lit "array"));
            (lit "items", JObj [(lit "type", JStr (lit "string"))]);
            (lit "description", JStr (lit "污点链每一步，格式 path/to/file.py:42 - 该步说明"))]);
   (lit "confidence", enum_property [lit "high"; lit "medium"; lit "low"] None);
   (lit "poc_idea", string_property (lit "利用/验证思路；无则空字符串"));
   (lit "explanation", string_property (lit "结论依据：可达性、净化情况等"));
   (lit "poc_method", string_property (lit "HTTP 方法，如 GET/POST；不适用为空"));
   (lit "poc_path", string_property (lit "请求路径，如 /user；不适用为空"));
   (lit "poc_query", string_property (lit "查询串（不含 ?），如 id=' OR '1'='1"));
   (lit "poc_body", string_property (lit "请求体（form/JSON 文本）；无则空"));
   (lit "poc_signal", string_property (lit "差分信号：仅当漏洞被触发时出现在响应中的稳定子串"));
   (lit "execution_context", enum_property [lit "server"; lit "client"; lit "unknown"]
      (Some (lit "缺陷执行位置：server=服务端 Python 代码；client=浏览器端 JS/模板；unknown=无法确定")))].

Definition schema_required : list str :=
  [lit "verdict"; lit "cwe"; lit "taint_path"; lit "confidence"; lit "poc_idea";
   lit "explanation"; lit "poc_method"; lit "poc_path"; lit "poc_query"; lit "poc_body";
   lit "poc_signal"; lit "execution_context"].

Definition output_schema : json :=
  JObj [(lit "$schema", JStr (lit "https://json-schema.org/draft/2020-12/schema"));
        (lit "type", JStr (lit "object"));
        (lit "properties", JObj schema_properties);
        (lit "required", JArr (map JStr schema_required));
        (lit "additionalProperties", JBool false)].

Definition q (s : str) : str := [QUOTE] ++ s ++ [QUOTE].

Definition VERIFY_PROMPT_TEMPLATE : str := Eval vm_compute in
  join [LF]
   [lit "你是一名资深 Web 安全审计专家，正在验证一个静态扫描候选是否为真实漏洞。";
    lit "目标仓库根目录就是你的工作目录（{target}），你已拥有只读的读文件/grep/glob 工具，可自由探索。";
    lit "";
    lit "方法论（按序执行）：";
    lit "1. 定位候选：读 {path} 第 {start_line}-{end_line} 行附近源码，确认 sink 存在。";
    lit "2. 回溯污点来源：source 是否用户可控（HTTP 参数、请求体、header、上传文件名等）。";
    lit "3. 追踪 source → sink 的完整调用链，检查每一步是否存在有效净化";
    lit "   （参数化查询、白名单校验、路径规范化+前缀校验、URL host 白名单等）。";
    lit "4. 判断可达性：路由/入口是否注册、该分支是否可被外部请求触达。";
    lit "5. 下结论：只有「污点可达且无有效净化」才 confirmed；能证明净化/不可达则 false_positive；";
    lit "   证据不足（如关键文件缺失）则 inconclusive。";
    lit "6. 判断执行上下文：缺陷代码运行在服务端（Python，如 Flask/Django 视图函数）还是";
    lit "   客户端（浏览器执行的 JS、模板文件），无法确定则 unknown——两者风险等级不同。";
    lit "";
    lit "候选 JSON（来自 semgrep）：";
    lit "{candidate_json}";
    lit "";
    lit "输出契约（最终回复必须是且仅是一个符合 schema 的 JSON 对象）：";
    lit "- verdict: " ++ q (lit "confirmed") ++ lit " | " ++ q (lit "false_positive") ++ lit " | "
      ++ q (lit "inconclusive");
    lit "- cwe: " ++ q (lit "CWE-89") ++ lit " 形式，无法判断则空字符串";
    lit "- taint_path: 数组，每项 " ++ q (lit "path/to/file.py:42 - 该步说明")
      ++ lit "，confirmed 时必须给出完整链";
    lit "- confidence: " ++ q (lit "high") ++ lit " | " ++ q (lit "medium") ++ lit " | "
      ++ q (lit "low");
    lit "- poc_idea: 如何构造请求验证（无则空字符串）";
    lit "- explanation: 结论依据（可达性、净化情况等）";
    lit "- poc_method/poc_path/poc_query/poc_body/poc_signal: 若 confirmed 且可远程触发，";
    lit "  给出最小差分请求规格与信号（signal 选仅在漏洞触发时出现的稳定子串）；否则全空串。";
    lit "- execution_context: " ++ q (lit "server") ++ lit " | " ++ q (lit "client") ++ lit " | "
      ++ q (lit "unknown") ++ lit "（缺陷运行位置）"].

Definition render_verify_prompt (to_string_pretty : CandidateArg -> result str str)
    (target : str) (c : CandidateArg) : result str ExecError :=
  let? candidate_json := map_err ExecIo (to_string_pretty c) in
  Ok (replace (lit "{candidate_json}") candidate_json
       (replace (lit "{end_line}") (show_Z (a_end_line c))
         (replace (lit "{start_line}") (show_Z (a_start_line c))
           (replace (lit "{path}") (a_path c)
             (replace (lit "{target}") target VERIFY_PROMPT_TEMPLATE))))).

Definition is_empty_output (text : str) : bool := is_empty (trim text).

Definition truncate (s : str) : option str :=
  let trimmed := trim s in
  if is_empty trimmed then None else Some (take_chars 500 trimmed).

(** [truncate(stderr).filter(non-empty).or_else(|| truncate(stdout)).unwrap_or_default()]. *)
Definition failure_detail (stdout stderr : str) : str :=
  default [] (match truncate stderr with
              | Some s => if is_empty s then truncate stdout else Some s
              | None => truncate stdout
              end).

Definition write_codex_home_text (cfg : GloscopeConfig) : str :=
  lit "[model_providers." ++ PROVIDER_ID ++ lit "]" ++ [LF]
  ++ lit "name = " ++ q (lit "GloScope user provider") ++ [LF]
  ++ lit "base_url = " ++ q (base_url cfg) ++ [LF]
  ++ lit "env_key = " ++ q ENV_KEY ++ [LF]
  ++ lit "wire_api = " ++ q (wire_api cfg) ++ [LF].

(** ** Reading the output *)

Section Output.
Context {V : Type} `{JsonOps V} {Std : UnicodeStd}.

Definition line_tokens (line : str) : Z * Z :=
  let line := trim line in
  if is_empty line then (0, 0)%Z
  else
    match from_str line with
    | Err _ => (0, 0)%Z
    | Ok event =>
        match get event (lit "usage") with
        | None => (0, 0)%Z
        | Some usage =>
            match get usage (lit "input_tokens") with
            | None => (0, 0)%Z
            | Some _ =>
                (default 0%Z (get_and_then usage (lit "input_tokens") as_u64),
                 default 0%Z (get_and_then usage (lit "output_tokens") as_u64))
            end
        end
    end.

Definition add_tokens (t u : Z * Z) : Z * Z := (u64_add t.1 u.1, u64_add t.2 u.2).

Definition parse_tokens (stdout : str) : Z * Z :=
  fold_left (fun t line => add_tokens t (line_tokens line)) (lines stdout) (0, 0)%Z.

Definition legal_verdict (s : str) : bool :=
  bool_decide (s = lit "confirmed") || bool_decide (s = lit "false_positive")
  || bool_decide (s = lit "inconclusive").

Definition parse_verdict (text : str) : result V str :=
  let? raw := from_str text in
  let? verdict := ok_or (get_str raw (lit "verdict")) (lit "缺少 verdict 字段") in
  if negb (legal_verdict verdict) then Err (lit "非法 verdict: " ++ debug_str verdict) else Ok raw.

Definition verdict_of (s : str) : Verdict :=
  if bool_decide (s = lit "confirmed") then Confirmed
  else if bool_decide (s = lit "false_positive") then FalsePositive
  else Inconclusive.

Definition confidence_of (s : str) : Confidence :=
  if bool_decide (s = lit "high") then High
  else if bool_decide (s = lit "medium") then Medium
  else Low.

Definition context_of (s : str) : ExecutionContext :=
  if bool_decide (s = lit "server") then Server
  else if bool_decide (s = lit "client") then Client
  else UnknownContext.

Definition build_verification (raw : V) (cfg : GloscopeConfig) (tokens : Z * Z) : Verification :=
  let str_of key := default [] (get_str raw key) in
  mkVerification
    (verdict_of (default (lit "inconclusive") (get_str raw (lit "verdict"))))
    (str_of (lit "cwe"))
    (match get_and_then raw (lit "taint_path") as_array with
     | Some arr => omap as_str arr
     | None => []
     end)
    (confidence_of (default (lit "low") (get_str raw (lit "confidence"))))
    (str_of (lit "poc_idea")) (str_of (lit "explanation"))
    (to_uppercase (str_of (lit "poc_method")))
    (str_of (lit "poc_path")) (str_of (lit "poc_query")) (str_of (lit "poc_body"))
    (str_of (lit "poc_signal"))
    (context_of (default (lit "unknown") (get_str raw (lit "execution_context"))))
    None (verify_model cfg) tokens.1 tokens.2.
End Output.

(** ** Running the sub-agent *)

Section Verdict.
Context {W V : Type} `{Host W, JsonOps V} {Std : UnicodeStd}.
Context (to_string_pretty : CandidateArg -> result str str).
(** [serde_json::to_string_pretty(&output_schema()).unwrap_or_default()]. *)
Context (schema_text : str).

Definition spawn_and_collect_with (argv : list str) (cwd : str) (env : gmap str str)
    (timeout : Z) (stdin : option str) : act W (Z * str * str) ExecError := fun w =>
  match argv with
  | [] => (w, Err (ExecIo (lit "empty argv")))
  | prog :: rest =>
      match run_process w (mkCommand prog rest cwd (Some env) stdin timeout) with
      | (w, SpawnFailed e) =>
          (w, Err (if bool_decide (kind e = PatchSyntax.NotFound) then ExecNotFound
                   else ExecIo (io_message e)))
      | (w, WaitFailed e) => (w, Err (ExecIo (io_message e)))
      | (w, WaitElapsed) => (w, Err (ExecTimeout timeout))
      | (w, Exited code out err) => (w, Ok (default (-1)%Z code, out, err))
      end
  end.

(** [VersionCache]: nothing, or the outcome of the probe. *)
Definition VersionCache : Type := option (result str str).

(** [SubmitVerdictTool] with its production runner; the version cache is part
    of the state. *)
Record SubmitVerdictTool : Type := mkVerdictTool {
  codex_path_override : option str;
  verdict_timeout : Z;
  home_override : option str;
}.

Definition new_verdict_tool : SubmitVerdictTool := mkVerdictTool None (from_secs 600) None.

Definition resolve_codex_path (tool : SubmitVerdictTool) (w : W) : str :=
  match codex_path_override tool with
  | Some p => p
  | None => default (lit "codex") (which w (lit "codex"))
  end.

Definition write_codex_home (cfg : GloscopeConfig) (home_override : option str)
    : act W str io_error :=
  do? home := asks (fun w =>
    match home_override with
    | Some p => p
    | None => std_path_join (std_path_join (default (lit ".") (home_dir w)) (lit ".gloscope"))
                (lit "codex-home")
    end) in
  do? _ := (fun w => create_dir_all w home) in
  let final_path := std_path_join home (lit "config.toml") in
  do? _ := (fun w => replace_file w final_path (write_codex_home_text cfg)) in
  ret home.

Definition probe_result (outcome : result (Z * str * str) ExecError) : result str str :=
  match outcome with
  | Ok (code, stdout, _) =>
      if (code =? 0)%Z then Ok (trim stdout)
      else Err (lit "codex --version 退出码 " ++ show_Z code ++ lit "：codex 安装可能损坏")
  | Err err => Err (lit "codex 版本探测失败: " ++ exec_error_string err)
  end.

Definition probe_version (codex_path : str) (cache : VersionCache) (w : W)
    : W * VersionCache * result str str :=
  match cache with
  | Some cached => (w, cache, cached)
  | None =>
      let argv := [codex_path; lit "--version"] in
      let env := collect_env (env_vars w) in
      let '(w, outcome) :=
        spawn_and_collect_with argv (lit ".") env VERSION_PROBE_TIMEOUT None w in
      let r := probe_result outcome in
      (w, Some r, r)
  end.

Definition exec_argv (codex_path target schema_path out_path model : str) : list str :=
  [codex_path; lit "exec"; lit "--ephemeral"; lit "--skip-git-repo-check"; lit "--json";
   lit "-s"; lit "read-only"; lit "-C"; target; lit "--output-schema"; schema_path;
   lit "-o"; out_path; lit "-c"; lit "model_provider=" ++ PROVIDER_ID; lit "-m"; model; lit "-"].

Definition retry_suffix (retried : bool) : str :=
  if retried then lit "（已重试一次仍失败）" else [].

(** The loop that reads the output file: a blank one is worth one more run.
    [run] is the sub-agent with its arguments fixed. *)
Fixpoint read_loop (run : act W (Z * str * str) ExecError) (out_path : str)
    (cfg : GloscopeConfig) (retries_left : nat) (retried : bool) (tokens : Z * Z) (w : W)
    : W * Verification :=
  let fail msg := inconclusive msg (verify_model cfg) in
  let unparsable msg := fail (lit "验证输出不可解析: " ++ msg ++ retry_suffix retried) in
  match read_to_string w out_path with
  | Ok text =>
      if negb (is_empty_output text) then
        match parse_verdict text with
        | Ok raw => (w, build_verification raw cfg tokens)
        | Err err => (w, unparsable err)
        end
      else
        match retries_left with
        | O => (w, unparsable (lit "输出为空"))
        | S retries_left =>
            match run w with
            | (w, Ok (code, stdout, stderr)) =>
                if (code =? 0)%Z then
                  read_loop run out_path cfg retries_left true
                    (add_tokens tokens (parse_tokens stdout)) w
                else (w, fail (lit "codex exec 退出码 " ++ show_Z code ++ lit "（retry）: "
                               ++ failure_detail stdout stderr))
            | (w, Err err) => (w, fail (exec_error_string err))
            end
        end
  | Err err => (w, unparsable (io_message err))
  end.

Definition run_and_read (run : act W (Z * str * str) ExecError) (out_path : str)
    (cfg : GloscopeConfig) (w : W) : W * Verification :=
  match run w with
  | (w, Err err) => (w, inconclusive (exec_error_string err) (verify_model cfg))
  | (w, Ok (returncode, stdout, stderr)) =>
      if negb (returncode =? 0)%Z then
        (w, inconclusive (lit "codex exec 退出码 " ++ show_Z returncode ++ lit ": "
                          ++ failure_detail stdout stderr) (verify_model cfg))
      else read_loop run out_path cfg MAX_RETRIES false (parse_tokens stdout) w
  end.

(** The command of the sub-agent, as the two runs of [exec] give it. *)
Definition exec_env (w : W) (cfg : GloscopeConfig) (codex_home : str) : gmap str str :=
  <[ENV_KEY := api_key cfg]> (<[lit "CODEX_HOME" := codex_home]> (collect_env (env_vars w))).

Definition exec (tool : SubmitVerdictTool) (codex_path target : str) (c : CandidateArg)
    (cfg : GloscopeConfig) (w : W) : W * Verification :=
  let fail msg := inconclusive msg (verify_model cfg) in
  match render_verify_prompt to_string_pretty target c with
  | Err err => (w, fail (exec_error_string err))
  | Ok prompt =>
  match write_codex_home cfg (home_override tool) w with
  | (w, Err err) => (w, fail (lit "写入 CODEX_HOME 失败: " ++ io_message err))
  | (w, Ok codex_home) =>
  match make_temp_dir w (lit "gloscope-codex-") with
  | (w, Err err) => (w, fail (lit "创建临时目录失败: " ++ io_message err))
  | (w, Ok tmpdir) =>
  let schema_path := std_path_join tmpdir (lit "output-schema.json") in
  match fs_write w schema_path schema_text with
  | (w, Err err) => (w, fail (lit "写入 output-schema 失败: " ++ io_message err))
  | (w, Ok _) =>
      let out_path := std_path_join tmpdir (lit "final.json") in
      let argv := exec_argv codex_path target schema_path out_path (verify_model cfg) in
      let env := exec_env w cfg codex_home in
      run_and_read
        (spawn_and_collect_with argv target env (verdict_timeout tool) (Some prompt))
        out_path cfg w
  end end end end.

Definition verify (tool : SubmitVerdictTool) (target : str) (c : CandidateArg)
    (cfg : GloscopeConfig) (cache : VersionCache) (w : W) : W * VersionCache * Verification :=
  let fail msg := inconclusive msg (verify_model cfg) in
  match canonicalize w target with
  | Err err => (w, cache, fail (lit "目标路径无法解析: " ++ io_message err))
  | Ok target =>
      let codex_path := resolve_codex_path tool w in
      match probe_version codex_path cache w with
      | (w, cache, Err err) => (w, cache, fail err)
      | (w, cache, Ok _) =>
          let '(w, v) := exec tool codex_path target c cfg w in (w, cache, v)
      end
  end.

Context `{SettingsToml, SecretStore W}.
Context (args_from_str : str -> result (str * CandidateArg) str).

(** [handle]; [None] is the panic of [load_config]. *)
Definition verdict_handle (tool : SubmitVerdictTool) (arguments : result str FunctionCallError)
    (cache : VersionCache) (w : W)
    : option (W * VersionCache * result Verification FunctionCallError) :=
  match arguments with
  | Err e => Some (w, cache, Err e)
  | Ok text =>
  match args_from_str text with
  | Err e => Some (w, cache, Err (RespondToModel e))
  | Ok (target, candidate) =>
  match load_config w with
  | None => None
  | Some (Err e) => Some (w, cache, Err (RespondToModel (config_error_string e)))
  | Some (Ok cfg) =>
      let '(w, cache, v) := verify tool target candidate cfg cache w in Some (w, cache, Ok v)
  end end end.
End Verdict.

(** ** What a verdict rests on *)

Definition verdict_name (v : Verdict) : str :=
  match v with
  | Confirmed => lit "confirmed"
  | FalsePositive => lit "false_positive"
  | Inconclusive => lit "inconclusive"
  end.

Lemma verdict_of_legal s : legal_verdict s = true -> s = verdict_name (verdict_of s).
Proof.
  unfold legal_verdict, verdict_of. intros Hs.
  repeat case_bool_decide; simpl in *; try done; by subst.
Qed.

Section VerdictFacts.
Context {W V : Type} `{Host W, JsonOps V} {Std : UnicodeStd}.
Context (to_string_pretty : CandidateArg -> result str str) (schema_text : str).

(** The verification of a failure: inconclusive, with an error text. *)
Definition failed (cfg : GloscopeConfig) (v : Verification) : Prop :=
  exists msg, v = inconclusive msg (verify_model cfg) /\ verdict v = Inconclusive /\ error v = Some msg.

Lemma failed_inconclusive cfg msg : failed cfg (inconclusive msg (verify_model cfg)).
Proof. by exists msg. Qed.

Lemma parse_verdict_ok text (raw : V) :
  parse_verdict text = Ok raw ->
  from_str text = Ok raw /\
  exists s, get_str raw (lit "verdict") = Some s /\ legal_verdict s = true.
Proof.
  unfold parse_verdict. intros Hp. destruct (from_str text) as [r|]; [|done].
  destruct (get_str r (lit "verdict")) as [s|] eqn:Es; simpl in Hp; [|done].
  case_hyp Hp. boolify. simplify_eq. eauto.
Qed.

(** The world is the one a run that exited with 0 left. *)
Definition just_ran (run : act W (Z * str * str) ExecError) (w : W) : Prop :=
  exists w0 out err, run w0 = (w, Ok (0%Z, out, err)).

(** What an output file says. *)
Definition output_says (cfg : GloscopeConfig) (w : W) (out_path : str) (v : Verification) : Prop :=
  exists text raw tokens,
    read_to_string w out_path = Ok text /\ trim text <> [] /\ from_str text = Ok raw
    /\ get_str raw (lit "verdict") = Some (verdict_name (verdict v)) /\ v = build_verification raw cfg tokens.

Lemma read_loop_says run out_path cfg n : forall retried tokens (w w' : W) v,
  just_ran run w -> read_loop (V := V) run out_path cfg n retried tokens w = (w', v) ->
  failed cfg v \/ (just_ran run w' /\ output_says cfg w' out_path v).
Proof.
  induction n as [|n IH]; intros retried tokens w w' v Hw; simpl;
    (destruct (read_to_string w out_path) as [text|err] eqn:Er;
       [|intros [= <- <-]; left; apply failed_inconclusive]);
    (destruct (negb (is_empty_output text)) eqn:Ee;
       [destruct (parse_verdict text) as [raw|e] eqn:Ep; intros [= <- <-];
          [|left; apply failed_inconclusive]|]).
  1, 3: apply parse_verdict_ok in Ep as (Hf & s & Hs & Hl); right; split; [done|];
      exists text, raw, tokens; split_and!; [done| |done| |done];
      [unfold is_empty_output in Ee; intros E; by rewrite E in Ee | simpl; rewrite Hs; simpl; by rewrite <-(verdict_of_legal s Hl)].
  - intros [= <- <-]. left. apply failed_inconclusive.
  - destruct (run w) as [w1 [[[code out] err]|e]] eqn:Erun; [|intros [= <- <-]; left; apply failed_inconclusive].
    destruct (Z.eqb_spec code 0) as [->|_]; [|intros [= <- <-]; left; apply failed_inconclusive].
    apply IH. by exists w, out, err.
Qed.

Lemma run_and_read_says run out_path cfg (w w' : W) v :
  run_and_read (V := V) run out_path cfg w = (w', v) -> failed cfg v \/ (just_ran run w' /\ output_says cfg w' out_path v).
Proof.
  unfold run_and_read.
  destruct (run w) as [w1 [[[code out] err]|e]] eqn:Erun; [|intros [= <- <-]; left; apply failed_inconclusive].
  destruct (Z.eqb_spec code 0) as [->|_]; cbn [negb].
  2: { lazymatch goal with |- (_, _) = _ -> _ => intros [= <- <-] end. left. apply failed_inconclusive. }
  apply read_loop_says. by exists w, out, err.
Qed.

(** The verification of an answer: in a fresh directory a read-only run of the sub-agent
    in the target exited with 0, and the file it was told to write is what was read. *)
Definition answered (tool : SubmitVerdictTool) (codex_path target : str) (cfg : GloscopeConfig) (w' : W) (v : Verification) : Prop :=
  exists w0 w1 tmp w2 env prompt out err,
    make_temp_dir w0 (lit "gloscope-codex-") = (w1, Ok tmp)
    /\ run_process w2
         (mkCommand codex_path
            [lit "exec"; lit "--ephemeral"; lit "--skip-git-repo-check"; lit "--json"; lit "-s"; lit "read-only"; lit "-C"; target;
             lit "--output-schema"; std_path_join tmp (lit "output-schema.json"); lit "-o"; std_path_join tmp (lit "final.json");
             lit "-c"; lit "model_provider=gloscope"; lit "-m"; verify_model cfg; lit "-"]
            target (Some env) (Some prompt) (verdict_timeout tool))
       = (w', Exited (Some 0%Z) out err)
    /\ output_says cfg w' (std_path_join tmp (lit "final.json")) v /\ error v = None.

Lemma spawned_Ok argv cwd env timeout stdin (w w' : W) out err :
  spawn_and_collect_with argv cwd env timeout stdin w = (w', Ok (0%Z, out, err)) ->
  exists prog rest, argv = prog :: rest
    /\ run_process w (mkCommand prog rest cwd (Some env) stdin timeout) = (w', Exited (Some 0%Z) out err).
Proof.
  unfold spawn_and_collect_with. destruct argv as [|prog rest]; [done|].
  destruct (run_process w _) as [w1 [e|e| |code o e]] eqn:E; try done. intros [= <- Hc <- <-].
  exists prog, rest. split; [done|]. destruct code as [c|]; simpl in Hc; [by subst | done].
Qed.

Lemma exec_answered tool codex_path target c cfg (w w' : W) v :
  exec (V := V) to_string_pretty schema_text tool codex_path target c cfg w = (w', v) ->
  failed cfg v \/ answered tool codex_path target cfg w' v.
Proof.
  unfold exec. cbv zeta.
  destruct (render_verify_prompt to_string_pretty target c) as [prompt|e]; [|intros [= <- <-]; left; apply failed_inconclusive].
  destruct (write_codex_home cfg (home_override tool) w) as [w1 [home|e]]; [|intros [= <- <-]; left; apply failed_inconclusive].
  destruct (make_temp_dir w1 (lit "gloscope-codex-")) as [w2 [tmp|e]] eqn:Et; [|intros [= <- <-]; left; apply failed_inconclusive].
  destruct (fs_write w2 _ schema_text) as [w3 [[]|e]]; [|intros [= <- <-]; left; apply failed_inconclusive].
  intros [Hf|[(w0 & out & err & Hrun) Hsays]]%run_and_read_says; [by left|right].
  apply spawned_Ok in Hrun as (prog & rest & [= <- <-] & Hrun).
  eexists w1, w2, tmp, w0, _, prompt, out, err. split; [done|]. split; [exact Hrun|]. split; [done|].
  by destruct Hsays as (text & raw & tokens & _ & _ & _ & _ & ->).
Qed.

(** C28.  The verdict is the sub-agent's or none.  A verification is either the failed one,
    inconclusive and with an error text, or without an error; and then the version probe
    succeeded, the last thing that was run is the read-only sub-agent in the target, it
    exited with code 0, and the file its [-o] option names in the fresh directory of this
    verification holds an object whose [verdict] field spells exactly the verdict that is
    reported, and the other fields are read from it.  So a run that fails, times out or
    exits otherwise, or leaves no legal verdict, is a failed verification, and nothing is
    confirmed that the output does not call confirmed. *)
Theorem verify_grounded tool target c cfg cache (w w' : W) cache' v :
  verify (V := V) to_string_pretty schema_text tool target c cfg cache w = (w', cache', v) ->
  failed cfg v
  \/ exists t version, canonicalize w target = Ok t /\ cache' = Some (Ok version)
       /\ answered tool (resolve_codex_path tool w) t cfg w' v.
Proof.
  unfold verify. cbv zeta. destruct (canonicalize w target) as [t|err];
    [|intros [= <- <- <-]; left; apply failed_inconclusive].
  destruct (probe_version _ cache w) as [[w1 cache1] [ver|err]] eqn:Ep;
    [|intros [= <- <- <-]; left; apply failed_inconclusive].
  destruct (exec _ _ _ _ _ _ _ w1) as [w2 v2] eqn:E. intros [= <- <- <-].
  apply exec_answered in E as [Hf|Ha]; [by left|right]. exists t, ver. split; [done|]. split; [|done].
  unfold probe_version in Ep. destruct cache as [cached|]; [by injection Ep as <- <- ->|].
  destruct (spawn_and_collect_with _ _ _ _ _ w) as [w3 o]. by injection Ep as <- <- ->.
Qed.
End VerdictFacts.

(** ** The processes a verification starts *)

Section Runs.
Context {W V : Type} `{Host W, JsonOps V} {Std : UnicodeStd}.
Context (to_string_pretty : CandidateArg -> result str str) (schema_text : str).

(** [m] runs the command [cmd] once, whatever the outcome. *)
Definition runs_once {A E} (m : act (traced W) A E) (cmd : command) : Prop :=
  forall tw, (m tw).1.2 = tw.2 ++ [cmd].

Lemma spawn_runs_once prog rest cwd env timeout stdin :
  runs_once (spawn_and_collect_with (prog :: rest) cwd env timeout stdin)
    (mkCommand prog rest cwd (Some env) stdin timeout).
Proof.
  intros [w tr]. unfold spawn_and_collect_with. simpl.
  destruct (run_process w _) as [w' [| | |]]; done.
Qed.

Lemma read_loop_runs run cmd out_path cfg n : runs_once run cmd ->
  forall retried tokens (tw : traced W), exists k, k <= n /\
    (read_loop (V := V) run out_path cfg n retried tokens tw).1.2 = tw.2 ++ replicate k cmd.
Proof.
  intros Hrun. induction n as [|n IH]; intros retried tokens tw; simpl;
    (destruct (read_to_string tw.1 out_path) as [text|err];
       [|exists 0; rewrite app_nil_r; split; [lia|done]]);
    (destruct (negb (is_empty_output text));
       [exists 0; rewrite app_nil_r; split; [lia|by case_goal]|]).
  - exists 0. by rewrite app_nil_r.
  - pose proof (Hrun tw) as Hr.
    destruct (run tw) as [tw1 [[[code out] err]|e]]; simpl in Hr.
    + destruct (code =? 0)%Z.
      * destruct (IH true (add_tokens tokens (parse_tokens out)) tw1) as (k & Hk & ->).
        exists (S k). split; [lia|]. by rewrite Hr, <-app_assoc.
      * exists 1. split; [lia|done].
    + exists 1. split; [lia|done].
Qed.

Lemma run_and_read_runs run cmd out_path cfg (tw : traced W) : runs_once run cmd ->
  exists k, 1 <= k <= 2 /\
    (run_and_read (V := V) run out_path cfg tw).1.2 = tw.2 ++ replicate k cmd.
Proof.
  intros Hrun. unfold run_and_read. pose proof (Hrun tw) as Hr.
  destruct (run tw) as [tw1 [[[code out] err]|e]]; simpl in Hr; [|exists 1; split; [lia|done]].
  destruct (negb _); [exists 1; split; [lia|done]|].
  destruct (read_loop_runs run cmd out_path cfg MAX_RETRIES Hrun false (parse_tokens out) tw1)
    as (k & Hk & ->).
  exists (S k). split; [unfold MAX_RETRIES in Hk; lia|]. by rewrite Hr, <-app_assoc.
Qed.

Lemma write_codex_home_quiet cfg ho (tw : traced W) : (write_codex_home cfg ho tw).1.2 = tw.2.
Proof.
  unfold write_codex_home, bind, asks, ret. simpl. unfold on_host.
  destruct (create_dir_all _ _) as [w1 [|]]; simpl; [|done].
  by destruct (replace_file _ _ _) as [w2 [|]].
Qed.

(** A run of the sub-agent: read-only, in the target, with the key in the
    environment and the prompt as its input. *)
Definition agent_command (tool : SubmitVerdictTool) (codex_path target : str)
    (cfg : GloscopeConfig) (cmd : command) : Prop :=
  exists schema_path out_path env prompt,
    cmd = mkCommand codex_path
            (drop 1 (exec_argv codex_path target schema_path out_path (verify_model cfg)))
            target (Some env) (Some prompt) (verdict_timeout tool) /\
    env !! ENV_KEY = Some (api_key cfg).

Lemma exec_runs tool codex_path target c cfg (tw : traced W) :
  exists k cmd, k <= 2 /\ agent_command tool codex_path target cfg cmd /\
    (exec (V := V) to_string_pretty schema_text tool codex_path target c cfg tw).1.2
    = tw.2 ++ replicate k cmd.
Proof.
  unfold exec.
  assert (agent_command tool codex_path target cfg
    (mkCommand codex_path (drop 1 (exec_argv codex_path target [] [] (verify_model cfg)))
       target (Some (<[ENV_KEY := api_key cfg]> ∅)) (Some []) (verdict_timeout tool))) as Hcmd0.
  { eexists _, _, _, _. split; [done|]. apply lookup_insert_eq. }
  assert (forall tw' : traced W, tw'.2 = tw.2 -> exists k cmd, k <= 2 /\
    agent_command tool codex_path target cfg cmd /\ tw'.2 = tw.2 ++ replicate k cmd) as Hnone.
  { intros tw' Ht. eexists 0, _. split; [lia|]. split; [exact Hcmd0|]. by rewrite app_nil_r. }
  destruct (render_verify_prompt to_string_pretty target c) as [prompt|err]; [|by apply Hnone].
  pose proof (write_codex_home_quiet cfg (home_override tool) tw) as Hq1.
  destruct (write_codex_home cfg (home_override tool) tw) as [tw1 [home|err]]; simpl in Hq1;
    [|by apply Hnone].
  simpl. unfold on_host. destruct (make_temp_dir tw1.1 _) as [w2 [tmp|err]]; simpl;
    [|by apply Hnone].
  destruct (fs_write w2 _ schema_text) as [w3 [[]|err]]; simpl; [|by apply Hnone].
  match goal with |- context [run_and_read (spawn_and_collect_with (exec_argv ?a ?b ?s ?o ?m) ?t ?e ?d ?p) ?o ?cf ?tw0] =>
    destruct (run_and_read_runs _ _ o cf tw0 (spawn_runs_once a (drop 1 (exec_argv a b s o m)) t e d p))
      as (k & Hk & Hr) end.
  eexists k, _. split; [lia|]. split; [|etrans; [exact Hr|]; by rewrite <-Hq1].
  eexists _, _, _, _. split; [done|]. apply lookup_insert_eq.
Qed.

(** One verification starts at most three processes: the version probe, only
    when its outcome is not cached yet, and then the same read-only sub-agent
    command once or twice, bounded by the tool's timeout; once a target has
    been resolved the probe's outcome stays cached. *)
Theorem verify_runs tool target c cfg cache (tw tw' : traced W) cache' v :
  verify (V := V) to_string_pretty schema_text tool target c cfg cache tw = (tw', cache', v) ->
  exists t probes k cmd,
    tw'.2 = tw.2 ++ probes ++ replicate k cmd /\ k <= 2 /\
    (probes = [] \/ (cache = None /\ exists p env, probes =
       [mkCommand p [lit "--version"] (lit ".") (Some env) None VERSION_PROBE_TIMEOUT])) /\
    agent_command tool (resolve_codex_path tool tw) t cfg cmd /\
    (is_Some cache \/ canonicalize tw target = Ok t -> is_Some cache').
Proof.
  assert (forall t, exists cmd, agent_command tool (resolve_codex_path tool tw) t cfg cmd) as Hcmd.
  { intros t. eexists. exists [], [], (<[ENV_KEY := api_key cfg]> ∅), []. split; [done|].
    apply lookup_insert_eq. }
  unfold verify. cbv zeta. destruct (canonicalize tw target) as [t|err] eqn:Ec.
  2: { intros [= <- <- <-]. destruct (Hcmd []) as [cmd ?]. exists [], [], 0, cmd.
       rewrite !app_nil_r. split; [done|]. split; [lia|]. split; [by left|]. split; [done|].
       by intros [?|?]. }
  intros Hv. exists t. destruct (Hcmd t) as [cmd0 Hcmd0].
  assert (exists tw1 cache1 r probes, probe_version (resolve_codex_path tool tw) cache tw
      = (tw1, Some cache1, r) /\ tw1.2 = tw.2 ++ probes /\
      (probes = [] \/ (cache = None /\ exists p env, probes =
         [mkCommand p [lit "--version"] (lit ".") (Some env) None VERSION_PROBE_TIMEOUT])))
    as (tw1 & cache1 & r & probes & Hprobe & Htr & Hp).
  { unfold probe_version. destruct cache as [cached|].
    - eexists _, _, _, []. rewrite app_nil_r. split; [done|]. auto.
    - match goal with |- context [spawn_and_collect_with (?a :: ?r) ?t ?e ?d ?p tw] =>
        pose proof (spawn_runs_once a r t e d p tw) as Ho end.
      destruct (spawn_and_collect_with _ _ _ _ _ tw) as [tw1 o]. simpl in Ho.
      eexists tw1, _, _, _. split; [done|]. split; [exact Ho|]. right. eauto. }
  rewrite Hprobe in Hv. destruct r as [ver|err].
  - destruct (exec_runs tool (resolve_codex_path tool tw) t c cfg tw1) as (k & cmd & Hk & Hc & He).
    destruct (exec _ _ _ _ _ _ _ tw1) as [tw2 v2]. injection Hv as <- <- <-. simpl in He.
    exists probes, k, cmd. rewrite He, Htr, <-app_assoc. eauto 7.
  - injection Hv as <- <- <-. exists probes, 0, cmd0. rewrite Htr, app_nil_r.
    split; [done|]. split; [lia|]. eauto.
Qed.
End Runs.

(** ** Token accounting *)

Section Tokens.
Context {V : Type} `{JsonOps V, !JsonLaws V}.

Definition sum_tokens (ts : list (Z * Z)) : Z * Z :=
  (foldr Z.add 0%Z (map fst ts), foldr Z.add 0%Z (map snd ts)).

Lemma fold_add_tokens ts t :
  in_u64 t.1 -> in_u64 t.2 ->
  fold_left add_tokens ts t
  = ((t.1 + (sum_tokens ts).1) mod u64_modulus, (t.2 + (sum_tokens ts).2) mod u64_modulus)%Z.
Proof.
  unfold sum_tokens. revert t. induction ts as [|u ts IH]; intros [a b] Ha Hb; simpl in *.
  - rewrite !Z.add_0_r, !Z.mod_small by done. done.
  - rewrite IH by (simpl; auto with rust). unfold add_tokens, u64_add. simpl.
    rewrite !Z.add_mod_idemp_l by done. by rewrite !Z.add_assoc.
Qed.

Lemma line_tokens_trim l : line_tokens (trim l) = line_tokens l.
Proof. unfold line_tokens. by rewrite trim_idemp. Qed.

Lemma trim_strip_cr l : trim (strip_cr l) = trim l.
Proof.
  unfold strip_cr. destruct (strip_suffix [CR] l) as [r|] eqn:E; simpl; [|done].
  apply strip_suffix_Some in E as ->. by rewrite trim_snoc_ws.
Qed.

(** Carriage returns and the missing last newline make no difference. *)
Lemma sum_tokens_lines s :
  sum_tokens (map line_tokens (lines s)) = sum_tokens (map line_tokens (split_on LF s)).
Proof.
  assert (forall ls ms, map line_tokens ls = map line_tokens ms ->
            forall k, sum_tokens (map line_tokens (ls ++ k)) = sum_tokens (map line_tokens (ms ++ k)))
    as Hmap by (intros ls ms He k; by rewrite !map_app, He).
  unfold lines. destruct (last (split_on LF s)) as [l|] eqn:El.
  2: { apply last_None in El. by apply split_on_nonnil in El. }
  rewrite (last_removelast _ _ El) at 2.
  rewrite (Hmap (map strip_cr (removelast (split_on LF s))) (removelast (split_on LF s))).
  - destruct l; [|done]. unfold sum_tokens. rewrite app_nil_r, !map_app, !foldr_app. simpl. done.
  - rewrite map_map. apply map_ext. intros x.
    by rewrite <-(line_tokens_trim (strip_cr x)), trim_strip_cr, line_tokens_trim.
Qed.

(** The tokens reported for a run are the usage of its event lines added up
    modulo 2^64: blank and malformed lines and lines without usage count
    nothing, and the sum over two outputs joined by a newline is the sum of
    the two. *)
Theorem parse_tokens_sum stdout more :
  parse_tokens stdout
  = ((sum_tokens (map line_tokens (split_on LF stdout))).1 mod u64_modulus,
     (sum_tokens (map line_tokens (split_on LF stdout))).2 mod u64_modulus)%Z /\
  parse_tokens (stdout ++ LF :: more) = add_tokens (parse_tokens stdout) (parse_tokens more).
Proof.
  assert (forall s, parse_tokens s
    = ((sum_tokens (map line_tokens (split_on LF s))).1 mod u64_modulus,
       (sum_tokens (map line_tokens (split_on LF s))).2 mod u64_modulus)%Z) as Hsum.
  { intros s. rewrite <-sum_tokens_lines. unfold parse_tokens.
    assert (forall ls t, fold_left (fun t l => add_tokens t (line_tokens l)) ls t
              = fold_left add_tokens (map line_tokens ls) t) as ->.
    { induction ls as [|l ls IH]; intros t; simpl; [done|]. apply IH. }
    rewrite fold_add_tokens by (split; reflexivity || discriminate). simpl. done. }
  split; [apply Hsum|]. rewrite !Hsum. unfold add_tokens, u64_add. simpl.
  rewrite <-!Z.add_mod by done. rewrite split_on_app_any.
  unfold sum_tokens. rewrite !map_app, !foldr_app. simpl.
  f_equal; f_equal; apply foldr_Zadd_base.
Qed.
End Tokens.

(** ** The schema *)

(** The schema given to the sub-agent fits the reader: it requires each of its
    properties and nothing else, allows no other, and its verdicts are exactly
    the ones [parse_verdict] accepts. *)
Theorem schema_fits_reader s :
  map fst schema_properties = schema_required /\
  field schema_properties (lit "verdict") =
    Some (enum_property (map verdict_name [Confirmed; FalsePositive; Inconclusive])
            (Some (lit "confirmed=真实可达漏洞；false_positive=误报；inconclusive=证据不足"))) /\
  (legal_verdict s = true <-> s ∈ map verdict_name [Confirmed; FalsePositive; Inconclusive]).
Proof.
  split; [vm_compute; reflexivity|]. split; [vm_compute; reflexivity|].
  unfold legal_verdict. cbn [map verdict_name]. rewrite !elem_of_cons, elem_of_nil.
  rewrite !orb_true_iff, !bool_decide_eq_true. tauto.
Qed.

(** ** A verification *)

Module VerdictDemo.
Definition answer_text : str := lit "answer".

#[export] Instance demo_verdict_json : JsonOps json :=
  json_ops (fun s => if bool_decide (s = answer_text)
                     then Ok (JObj [(lit "verdict", JStr (lit "confirmed"))])
                     else Err (lit "expected value")).
#[export] Instance demo_verdict_std : UnicodeStd := ascii_std.

(** The sub-agent writes its answer to the path after [-o]. *)
Definition demo_agent (c : command) : list (str * str) * process_outcome :=
  match args c !! 11 with
  | Some out_path => ([(out_path, answer_text)], Exited (Some 0%Z) [] [])
  | None => ([], Exited (Some 0%Z) (lit "codex 1.0") [])
  end.

Definition demo_verify_host : traced mem_host := (mkMemHost [] [] demo_agent, []).

Definition demo_run : traced mem_host * VersionCache * Verification :=
  verify (fun _ => Ok []) [] new_verdict_tool (lit "/r") TriageDemo.demo_candidate
    TriageDemo.demo_cfg None demo_verify_host.
End VerdictDemo.
Import VerdictDemo.

Lemma verify_grounded_witness :
  verdict demo_run.2 = Confirmed
  /\ exists t version, demo_run.1.2 = Some (Ok version)
       /\ answered new_verdict_tool (lit "/usr/bin/codex") t TriageDemo.demo_cfg demo_run.1.1 demo_run.2.
Proof.
  assert (verdict demo_run.2 = Confirmed) as Hc by (vm_compute; reflexivity). split; [exact Hc|].
  destruct (verify_grounded (fun _ => Ok []) [] new_verdict_tool (lit "/r") TriageDemo.demo_candidate
              TriageDemo.demo_cfg None demo_verify_host demo_run.1.1 demo_run.1.2 demo_run.2) as [(msg & _ & Hi & _)|(t & version & _ & Hv & Ha)].
  - vm_compute. reflexivity.
  - exfalso. rewrite Hc in Hi. discriminate Hi.
  - exists t, version. split; [exact Hv | exact Ha].
Defined.

Lemma verify_runs_witness : length demo_run.1.1.2 = 2 /\
  exists t probes k cmd, demo_run.1.1.2 = [] ++ probes ++ replicate k cmd /\
    agent_command new_verdict_tool (lit "/usr/bin/codex") t TriageDemo.demo_cfg cmd.
Proof.
  split; [vm_compute; reflexivity|].
  destruct (verify_runs (fun _ => Ok []) [] new_verdict_tool (lit "/r") TriageDemo.demo_candidate
              TriageDemo.demo_cfg None demo_verify_host demo_run.1.1 demo_run.1.2 demo_run.2)
    as (t & probes & k & cmd & Ht & _ & _ & Hc & _).
  - vm_compute. reflexivity.
  - exists t, probes, k, cmd. split; [exact Ht|exact Hc].
Defined.
