(* ===== verification/ShellScript.v ===== *)
(** * Shell scripts

    Models [shell-command/src/bash.rs] and [detect_shell_type] of
    [shell_detect.rs]: which commands a shell script runs. The script is parsed
    by tree-sitter with the grammar of bash, a library: the parser is a parameter,
    and a node is what the code reads of one (its kind, whether it is named, its
    text, where it starts, its children). Paths are those of Unix. *)

From Stdlib Require Import Lia.
From S2P Require Import Prelude RustStr.

(** ** Paths *)

Definition SLASH : N := 47.
Definition DOT : N := 46.

(** The components of a path, without empty ones and [.]. *)
Definition components (p : str) : list str :=
  List.filter (fun c => negb (is_empty c) && negb (bool_decide (c = [DOT]))) (split_on SLASH p).

(** [Path::file_name]. *)
Definition file_name (p : str) : option str :=
  match last (components p) with
  | Some c => if bool_decide (c = [DOT; DOT]) then None else Some c
  | None => None
  end.

(** [Path::file_stem]. *)
Definition file_stem (p : str) : option str :=
  let! name := file_name p in
  match rsplit_once DOT name with
  | Some (before, _) => Some (if is_empty before then name else before)
  | None => Some name
  end.

(** A path equal, component by component, to the single name [c]. *)
Definition is_single_component (p c : str) : bool :=
  negb (starts_with [SLASH] p)
  && negb (match split_on SLASH p with first :: _ => bool_decide (first = [DOT]) | [] => false end)
  && bool_decide (components p = [c]).

Inductive ShellType : Type := Zsh | Bash | PowerShell | Sh | Cmd.

#[export] Instance ShellType_eq_dec : EqDecision ShellType.
Proof. solve_decision. Defined.

(** The names [detect_shell_type] knows. *)
Definition shell_of_name (s : str) : option ShellType :=
  if bool_decide (s = lit "zsh") then Some Zsh
  else if bool_decide (s = lit "sh") then Some Sh
  else if bool_decide (s = lit "cmd") then Some Cmd
  else if bool_decide (s = lit "bash") then Some Bash
  else if bool_decide (s = lit "pwsh") then Some PowerShell
  else if bool_decide (s = lit "powershell") then Some PowerShell
  else None.

(** Each step takes an extension or a directory off, so as many steps as there
    are characters are enough. *)
Fixpoint detect_shell (fuel : nat) (p : str) : option ShellType :=
  match fuel with
  | 0 => None
  | S fuel' =>
      match shell_of_name p with
      | Some t => Some t
      | None =>
          match file_stem p with
          | Some stem => if is_single_component p stem then None else detect_shell fuel' stem
          | None => None
          end
      end
  end.
Definition detect_shell_type (p : str) : option ShellType := detect_shell (S (length p)) p.

Example detect_examples :
  map detect_shell_type [lit "/bin/bash"; lit "zsh"; lit "C/pwsh.exe"; lit "bash/"; lit "ls"; lit "./sh"]
  = [Some Bash; Some Zsh; Some PowerShell; None; None; Some Sh].
Proof. vm_compute. reflexivity. Qed.

(** ** Syntax trees *)

#[warnings="-register-all"]
Inductive Node : Type := mkNode {
  kind : str;
  is_named : bool;
  (** [utf8_text]; [None] when it fails. *)
  node_text : option str;
  start_byte : nat;
  children : list Node;
}.

Record Tree : Type := mkTree { root_node : Node; has_error : bool }.

Definition named_children (n : Node) : list Node := List.filter is_named (children n).
Definition is_kind (k : str) (n : Node) : bool := bool_decide (kind n = k).

Fixpoint node_size (n : Node) : nat := S (list_sum (map node_size (children n))).
Definition stack_size (ns : list Node) : nat := list_sum (map node_size ns).

(** The loops pop a node from a stack and push the children [next] selects; the
    result is every node in the order it was popped. The stack is kept with its
    top first. *)
Fixpoint walk (fuel : nat) (next : Node -> list Node) (stack : list Node) : list Node :=
  match fuel with
  | 0 => []
  | S fuel' =>
      match stack with
      | [] => []
      | n :: stack' => n :: walk fuel' next (rev (next n) ++ stack')
      end
  end.
Definition walk_all (next : Node -> list Node) (root : Node) : list Node :=
  walk (S (node_size root)) next [root].

(** ** Words *)

Definition QUOTE_CHAR : N := 34.
Definition APOSTROPHE : N := 39.

Definition strip_both_ends (c : N) (s : str) : option str :=
  let! s := strip_prefix [c] s in strip_suffix [c] s.

Definition parse_double_quoted_string (n : Node) : option str :=
  if negb (is_kind (lit "string") n) then None
  else if forallb (is_kind (lit "string_content")) (named_children n)
  then let! raw := node_text n in strip_both_ends QUOTE_CHAR raw
  else None.

Definition parse_raw_string (n : Node) : option str :=
  if negb (is_kind (lit "raw_string") n) then None
  else let! raw := node_text n in strip_both_ends APOSTROPHE raw.

Definition is_word_or_number (n : Node) : bool := is_kind (lit "word") n || is_kind (lit "number") n.

Definition is_literal_word_or_number (n : Node) : bool :=
  is_word_or_number n && match named_children n with [] => true | _ => false end.

(** A part of a concatenation in a plain command. *)
Definition parse_concat_part (n : Node) : option str :=
  if is_word_or_number n then node_text n
  else if is_kind (lit "string") n then parse_double_quoted_string n
  else if is_kind (lit "raw_string") n then parse_raw_string n
  else None.

(** All of a list, or nothing. *)
Fixpoint collect {A B} (f : A -> option B) (l : list A) : option (list B) :=
  match l with
  | [] => Some []
  | x :: l' => let! y := f x in let! ys := collect f l' in Some (y :: ys)
  end.

(** A word of a plain command. *)
Definition parse_plain_word (n : Node) : option str :=
  if is_kind (lit "command_name") n then
    match named_children n with
    | w :: _ => if is_kind (lit "word") w then node_text w else None
    | [] => None
    end
  else if is_word_or_number n then node_text n
  else if is_kind (lit "string") n then parse_double_quoted_string n
  else if is_kind (lit "raw_string") n then parse_raw_string n
  else if is_kind (lit "concatenation") n then
    let! parts := collect parse_concat_part (named_children n) in
    let whole := concat parts in
    if is_empty whole then None else Some whole
  else None.

Definition parse_plain_command_from_node (cmd : Node) : option (list str) :=
  if negb (is_kind (lit "command") cmd) then None
  else collect parse_plain_word (named_children cmd).

(** ** Word-only scripts *)

Definition ALLOWED_KINDS : list str :=
  [lit "program"; lit "list"; lit "pipeline"; lit "command"; lit "command_name"; lit "word"; lit "string";
   lit "string_content"; lit "raw_string"; lit "number"; lit "concatenation"].
Definition ALLOWED_PUNCT_TOKENS : list str :=
  [lit "&&"; lit "||"; lit ";"; lit "|"; [QUOTE_CHAR]; [APOSTROPHE]].

(** Whether a node of the tree is acceptable. *)
Definition node_allowed (n : Node) : bool :=
  if is_named n then bool_decide (kind n ∈ ALLOWED_KINDS)
  else
    if existsb (fun c => contains_char c (lit "&;|")) (kind n) && negb (bool_decide (kind n ∈ ALLOWED_PUNCT_TOKENS))
    then false
    else bool_decide (kind n ∈ ALLOWED_PUNCT_TOKENS) || is_empty (trim (kind n)).

(** [sort_by_key(start_byte)], a stable sort. *)
Definition by_start (ns : list Node) : list Node :=
  stable_sort (fun a b => start_byte a <=? start_byte b) ns.

Definition is_command (n : Node) : bool := is_named n && is_kind (lit "command") n.

Definition try_parse_word_only_commands_sequence (t : Tree) : option (list (list str)) :=
  if has_error t then None
  else
    let nodes := walk_all children (root_node t) in
    if forallb node_allowed nodes
    then collect parse_plain_command_from_node (by_start (List.filter is_command nodes))
    else None.

(** ** Literal commands *)

(** Concatenations are nested trees, so the recursion follows the node. *)
Fixpoint parse_literal_shell_word (n : Node) : option str :=
  let fix parts (l : list Node) : option str :=
    match l with
    | [] => Some []
    | p :: l' =>
        if is_named p then
          let! w := parse_literal_shell_word p in let! r := parts l' in Some (w ++ r)
        else parts l'
    end in
  if is_literal_word_or_number n then node_text n
  else if is_word_or_number n then None
  else if is_kind (lit "string") n then parse_double_quoted_string n
  else if is_kind (lit "raw_string") n then parse_raw_string n
  else if is_kind (lit "concatenation") n then
    let! whole := parts (children n) in if is_empty whole then None else Some whole
  else None.

(** The loop over the children of a command: the words so far and whether the
    name was found; [None] when the name is not literal. *)
Fixpoint literal_words (found : bool) (l : list Node) : option (bool * list str) :=
  match l with
  | [] => Some (found, [])
  | c :: l' =>
      if is_kind (lit "command_name") c then
        match named_children c with
        | [] => None
        | w :: _ =>
            let! name := parse_literal_shell_word w in
            let! r := literal_words true l' in
            Some (r.1, name :: r.2)
        end
      else
        match (if found then parse_literal_shell_word c else None) with
        | Some w => let! r := literal_words found l' in Some (r.1, w :: r.2)
        | None => literal_words found l'
        end
  end.

Definition parse_literal_command_from_node (cmd : Node) : option (list str) :=
  if negb (is_kind (lit "command") cmd) then None
  else match literal_words false (named_children cmd) with
       | Some (true, words) => Some words
       | _ => None
       end.

(** ** Here-documents *)

Definition is_allowed_heredoc_attachment_kind (n : Node) : bool :=
  bool_decide (kind n ∈ [lit "heredoc_body"; lit "simple_heredoc_body"; lit "heredoc_redirect";
                          lit "herestring_redirect"; lit "redirected_statement"]).

(** A child of the command: a word, nothing, or a reason to give up. *)
Definition parse_heredoc_word (c : Node) : option (option str) :=
  if is_kind (lit "command_name") c then
    match named_children c with
    | w :: _ =>
        if is_literal_word_or_number w then let! t := node_text w in Some (Some t) else None
    | [] => None
    end
  else if is_word_or_number c then
    if is_literal_word_or_number c then let! t := node_text c in Some (Some t) else None
  else if is_kind (lit "comment") c || is_allowed_heredoc_attachment_kind c then Some None
  else None.

Definition parse_heredoc_command_words (cmd : Node) : option (list str) :=
  if negb (is_kind (lit "command") cmd) then None
  else
    let! ws := collect parse_heredoc_word (named_children cmd) in
    match omap id ws with [] => None | words => Some words end.

Definition has_named_descendant_kind (n : Node) (k : str) : bool :=
  existsb (is_kind k) (walk_all named_children n).

Definition find_single_command_node (root : Node) : option Node :=
  match List.filter (is_kind (lit "command")) (walk_all named_children root) with
  | [n] => Some n
  | _ => None
  end.

Section Scripts.
(** [try_parse_shell]. *)
Context (try_parse_shell : str -> option Tree).

Definition parse_shell_script_into_commands (script : str) : option (list (list str)) :=
  let! t := try_parse_shell script in try_parse_word_only_commands_sequence t.

Definition extract_bash_command (command : list str) : option (str * str) :=
  match command with
  | [shell; flag; script] =>
      if bool_decide (flag = lit "-lc") || bool_decide (flag = lit "-c") then
        match detect_shell_type shell with
        | Some Zsh | Some Bash | Some Sh => Some (shell, script)
        | _ => None
        end
      else None
  | _ => None
  end.

Definition parse_shell_lc_plain_commands (command : list str) : option (list (list str)) :=
  let! r := extract_bash_command command in parse_shell_script_into_commands r.2.

Definition parse_shell_lc_literal_commands (command : list str) : option (list (list str)) :=
  let! r := extract_bash_command command in
  let! t := try_parse_shell r.2 in
  if has_error t then None
  else Some (omap (fun n => if is_kind (lit "command") n then parse_literal_command_from_node n else None)
               (walk_all named_children (root_node t))).

Definition parse_shell_lc_single_command_prefix (command : list str) : option (list str) :=
  let! r := extract_bash_command command in
  let! t := try_parse_shell r.2 in
  if has_error t then None
  else if negb (has_named_descendant_kind (root_node t) (lit "heredoc_redirect")) then None
  else if has_named_descendant_kind (root_node t) (lit "file_redirect") then None
  else let! cmd := find_single_command_node (root_node t) in parse_heredoc_command_words cmd.
End Scripts.

(** ** Lemmas: the walk *)

#[local] Arguments node_size : simpl never.

Lemma node_size_eq n : node_size n = S (stack_size (children n)).
Proof. destruct n. reflexivity. Qed.

Lemma stack_size_cons n ns : stack_size (n :: ns) = node_size n + stack_size ns.
Proof. reflexivity. Qed.

Lemma stack_size_app ns ms : stack_size (ns ++ ms) = stack_size ns + stack_size ms.
Proof. unfold stack_size. rewrite map_app, list_sum_app. reflexivity. Qed.

Lemma stack_size_rev ns : stack_size (rev ns) = stack_size ns.
Proof.
  induction ns as [|n ns IH]; [reflexivity|].
  cbn [rev]. rewrite stack_size_app, IH, !stack_size_cons. unfold stack_size at 2. simpl. lia.
Qed.

Lemma stack_size_sublist ns ms : sublist ns ms -> stack_size ns <= stack_size ms.
Proof. induction 1; rewrite ?stack_size_cons; lia. Qed.

Lemma filter_sublist {A} (f : A -> bool) l : sublist (List.filter f l) l.
Proof. induction l as [|x l IH]; [constructor|]. simpl. destruct (f x); by constructor. Qed.

Lemma walk_elem next st m fuel :
  (forall n, sublist (next n) (children n)) ->
  stack_size st < fuel ->
  m ∈ walk fuel next st <-> exists n, n ∈ st /\ rtc (fun a b => b ∈ next a) n m.
Proof.
  intros Hnext. revert st. induction fuel as [|fuel IH]; intros st Hfuel; [lia|].
  destruct st as [|n st]; cbn [walk].
  { split; [by intros ?%elem_of_nil | by intros (n & ?%elem_of_nil & _)]. }
  rewrite elem_of_cons, IH.
  2:{ rewrite stack_size_cons, node_size_eq in Hfuel. rewrite stack_size_app, stack_size_rev.
      pose proof (stack_size_sublist _ _ (Hnext n)). lia. }
  split.
  - intros [-> | (k & Hk & Hm)]; [exists n; split; [apply list_elem_of_here | reflexivity]|].
    apply elem_of_app in Hk as [Hk|Hk].
    + exists n. split; [apply list_elem_of_here|].
      econstructor; [|exact Hm]. apply list_elem_of_In, in_rev, list_elem_of_In, Hk.
    + exists k. split; [by apply list_elem_of_further | done].
  - intros (k & Hk & Hm). apply elem_of_cons in Hk as [-> | Hk].
    + inversion Hm as [|? k ? Hnk Hkm]; subst; [by left|]. right. exists k. split; [|done].
      apply elem_of_app. left. apply list_elem_of_In. rewrite <- in_rev. by apply list_elem_of_In.
    + right. exists k. split; [apply elem_of_app; by right | done].
Qed.

(** The loop visits the node and everything below it that [next] leads to. *)
Lemma walk_all_elem next root m :
  (forall n, sublist (next n) (children n)) ->
  m ∈ walk_all next root <-> rtc (fun a b => b ∈ next a) root m.
Proof.
  intros Hnext. unfold walk_all. rewrite walk_elem; [|done|].
  - split; [|intros H; exists root; split; [apply list_elem_of_singleton; reflexivity | done]].
    intros (n & ->%list_elem_of_singleton & H). done.
  - rewrite stack_size_cons. unfold stack_size. simpl. lia.
Qed.

Lemma named_walk_in_walk root m : m ∈ walk_all named_children root -> m ∈ walk_all children root.
Proof.
  rewrite !walk_all_elem; [|by intros; reflexivity | by intros; apply filter_sublist].
  induction 1 as [|a b c Hab _ IH]; [constructor|].
  econstructor; [|exact IH]. apply list_elem_of_In. apply list_elem_of_In, filter_In in Hab. tauto.
Qed.

(** ** Lemmas: shells *)

Lemma split_on_piece c s x : x ∈ split_on c s -> (x = s /\ c ∉ s) \/ length x < length s.
Proof.
  revert x. induction s as [|d s IH]; intros x.
  - intros ->%list_elem_of_singleton. left. split; [done | apply not_elem_of_nil].
  - cbn [split_on]. pose proof (split_on_nonnil c s) as Hne. destruct (N.eqb_spec d c) as [-> | Hd].
    + intros [-> | Hx]%elem_of_cons; [right; simpl; lia|]. right.
      destruct (IH x Hx) as [[-> _]|?]; simpl; lia.
    + destruct (split_on c s) as [|y ys] eqn:E; [done|].
      intros [-> | Hx]%elem_of_cons.
      * destruct (IH y (list_elem_of_here _ _)) as [[-> ?]|?]; [left | right; simpl; lia].
        split; [done|]. rewrite not_elem_of_cons. split; congruence.
      * right. destruct (IH x (list_elem_of_further _ _ _ Hx)) as [[-> ?]|?]; simpl; lia.
Qed.

Lemma split_once_shorter c s a b : split_once c s = Some (a, b) -> length b < length s.
Proof.
  revert a b. induction s as [|x s IH]; intros a b; simpl; [done|].
  destruct (N.eqb_spec x c) as [-> | ?]; intros H; simplify_eq; [lia|].
  destruct (split_once c s) as [[a' b']|] eqn:E; simplify_eq. specialize (IH _ _ eq_refl). lia.
Qed.

Lemma rsplit_once_shorter c s a b : rsplit_once c s = Some (a, b) -> length a < length s.
Proof.
  unfold rsplit_once. destruct (split_once c (rev s)) as [[x y]|] eqn:E; intros H; simplify_eq.
  apply split_once_shorter in E. rewrite length_rev in *. done.
Qed.

Lemma file_name_component p name :
  file_name p = Some name -> name ∈ components p /\ name <> [DOT; DOT].
Proof.
  unfold file_name. destruct (last (components p)) as [c|] eqn:E; [|done].
  case_bool_decide; intros H'; simplify_eq. split; [|done].
  apply last_Some in E as [l ->]. apply elem_of_app. right. by apply list_elem_of_singleton.
Qed.

(** The name a path is searched under next is shorter, or the search is over. *)
Lemma file_stem_shorter p stem :
  file_stem p = Some stem -> is_single_component p stem = false -> length stem < length p.
Proof.
  unfold file_stem. destruct (file_name p) as [name|] eqn:En; [|done].
  apply file_name_component in En as [Hin _]. pose proof Hin as Hcomp.
  apply list_elem_of_In, filter_In in Hin as [Hin Hok].
  apply list_elem_of_In, split_on_piece in Hin as [[-> Hp]|Hlt].
  2:{ destruct (rsplit_once DOT name) as [[a b]|] eqn:E; intros H; simplify_eq; intros _; [|lia].
      apply rsplit_once_shorter in E. destruct (is_empty a); lia. }
  intros Hs Hsingle. destruct (decide (stem = p)) as [-> | Hne].
  - exfalso. unfold is_single_component in Hsingle. unfold components in *.
    rewrite (split_on_no_sep _ _ Hp) in Hsingle. simpl in Hsingle. rewrite Hok in Hsingle.
    rewrite (bool_decide_eq_true_2 ([p] = [p])), andb_true_r in Hsingle by done.
    apply andb_true_iff in Hok as [_ Hdot]. rewrite Hdot, andb_true_r in Hsingle.
    apply negb_false_iff, starts_with_true in Hsingle as [r ->]. apply Hp. simpl. apply list_elem_of_here.
  - destruct (rsplit_once DOT p) as [[a b]|] eqn:E; simplify_eq.
    apply rsplit_once_shorter in E. destruct (is_empty a); [congruence | done].
Qed.

(** Any amount of fuel above the length of the path gives the same answer. *)
Lemma detect_shell_fuel f g p : length p < f -> length p < g -> detect_shell f p = detect_shell g p.
Proof.
  revert g p. induction f as [|f IH]; intros [|g] p Hf Hg; try lia. cbn [detect_shell].
  destruct (shell_of_name p); [done|]. destruct (file_stem p) as [stem|] eqn:E; [|done].
  destruct (is_single_component p stem) eqn:Hs; [done|].
  pose proof (file_stem_shorter _ _ E Hs). apply IH; lia.
Qed.

Lemma shell_name_file p : is_Some (shell_of_name p) -> file_name p = Some p.
Proof.
  unfold shell_of_name. intros [t Ht].
  repeat (case_bool_decide as E; [by rewrite E|]; clear E). done.
Qed.

(** A name that is no shell's and has no extension or separator. *)
Definition is_bare_name (name : str) : bool :=
  bool_decide (shell_of_name name = None) && bool_decide (rsplit_once DOT name = None)
  && is_single_component name name && bool_decide (file_name name = Some name).

(** Such a name is no shell, wherever the file is. *)
Lemma not_a_shell p name : file_name p = Some name -> is_bare_name name = true -> detect_shell_type p = None.
Proof.
  unfold is_bare_name. rewrite !andb_true_iff, !bool_decide_eq_true.
  intros Hp (((Hname & Hdot) & Hsingle) & Hself). unfold detect_shell_type. cbn [detect_shell].
  destruct (shell_of_name p) eqn:Hs.
  { rewrite (shell_name_file p) in Hp; [congruence | by eexists]. }
  unfold file_stem. rewrite Hp, Hdot. destruct (is_single_component p name); [done|].
  destruct (length p); [done|]. cbn [detect_shell]. rewrite Hname. unfold file_stem.
  by rewrite Hself, Hdot, Hsingle.
Qed.

(** ** Lemmas: plain and literal commands *)

Lemma collect_Forall2 {A B} (f : A -> option B) l r :
  collect f l = Some r <-> Forall2 (fun x y => f x = Some y) l r.
Proof.
  revert r. induction l as [|x l IH]; intros r; simpl.
  - split; [intros; simplify_eq; constructor | by inversion 1].
  - split.
    + destruct (f x) as [y|] eqn:Ex; [|done]. destruct (collect f l) as [ys|]; intros; simplify_eq.
      constructor; [done | by apply IH].
    + inversion 1 as [|? y ? ys Hy Hys]; subst. apply IH in Hys. by rewrite Hy, Hys.
Qed.

(** Where tree-sitter's grammar of bash has words in a command: after its name,
    of which there is one; assignments and redirections may come first. *)
Definition is_wordlike (n : Node) : bool :=
  is_word_or_number n || is_kind (lit "string") n || is_kind (lit "raw_string") n || is_kind (lit "concatenation") n.

Definition words_after_name (cmd : Node) : Prop :=
  exists before name after,
    named_children cmd = before ++ name :: after
    /\ is_kind (lit "command_name") name = true
    /\ Forall (fun c => is_wordlike c = false /\ is_kind (lit "command_name") c = false) before.

Class BashGrammar (try_parse_shell : str -> option Tree) : Prop := {
  commands_have_names script t n :
    try_parse_shell script = Some t -> has_error t = false ->
    n ∈ walk_all children (root_node t) -> is_command n = true -> words_after_name n;
}.

Lemma parse_plain_word_wordlike c w :
  parse_plain_word c = Some w -> is_wordlike c = false -> is_kind (lit "command_name") c = true.
Proof.
  unfold parse_plain_word, is_wordlike. rewrite !orb_false_iff. intros H (((Hw & Hs) & Hr) & Hc).
  rewrite Hw, Hs, Hr, Hc in H. by destruct (is_kind (lit "command_name") c).
Qed.

Lemma is_kind_ne n j k : is_kind j n = true -> j <> k -> is_kind k n = false.
Proof. unfold is_kind. intros Hj%bool_decide_eq_true_1 Hne. apply bool_decide_eq_false_2. congruence. Qed.

Lemma parse_literal_word_text n w :
  is_kind (lit "word") n = true -> parse_literal_shell_word n = Some w -> node_text n = Some w.
Proof.
  intros Hk. destruct n. cbn [parse_literal_shell_word].
  assert (is_word_or_number (mkNode kind0 is_named0 node_text0 start_byte0 children0) = true) as Hw.
  { unfold is_word_or_number. by rewrite Hk. }
  rewrite Hw. destruct (is_literal_word_or_number _); done.
Qed.

(** A command that is both plain and literal has the same name either way. *)
Lemma plain_literal_same_name cmd ws ws' :
  words_after_name cmd -> parse_plain_command_from_node cmd = Some ws ->
  parse_literal_command_from_node cmd = Some ws' -> exists name, head ws = Some name /\ head ws' = Some name.
Proof.
  intros (before & name & after & Hch & Hname & Hbefore).
  unfold parse_plain_command_from_node, parse_literal_command_from_node.
  destruct (is_kind (lit "command") cmd); cbn [negb]; [|done]. rewrite Hch.
  rewrite collect_Forall2. destruct before as [|b before].
  2:{ apply Forall_cons_1 in Hbefore as [[Hb Hb'] _]. cbn [app]. inversion 1; subst.
      pose proof (parse_plain_word_wordlike _ _ ltac:(eassumption) Hb). congruence. }
  cbn [app]. inversion 1 as [|? w ? ws0 Hw _]; subst. cbn [literal_words]. rewrite Hname.
  unfold parse_plain_word in Hw. rewrite Hname in Hw.
  destruct (named_children name) as [|c cs]; [done|].
  destruct (is_kind (lit "word") c) eqn:Hc; [|done].
  destruct (parse_literal_shell_word c) as [w'|] eqn:Hl; [|done].
  apply (parse_literal_word_text _ _ Hc) in Hl.
  destruct (literal_words true after) as [[[] r]|]; cbn; intros H'; simplify_eq. by eexists.
Qed.

Lemma allowed_command_named n : node_allowed n = true -> is_kind (lit "command") n = true -> is_command n = true.
Proof.
  unfold node_allowed, is_command, is_kind. intros H Hk. rewrite Hk. apply bool_decide_eq_true_1 in Hk.
  destruct (is_named n); [done|]. rewrite Hk in H. vm_compute in H. done.
Qed.

(** Every literal command of a word-only script is one of its plain commands, with
    the same name. *)
Lemma literal_commands_plain `{BashGrammar parse} command plain literal ws' :
  parse_shell_lc_plain_commands parse command = Some plain ->
  parse_shell_lc_literal_commands parse command = Some literal -> ws' ∈ literal ->
  exists ws name, ws ∈ plain /\ head ws = Some name /\ head ws' = Some name.
Proof.
  unfold parse_shell_lc_plain_commands, parse_shell_lc_literal_commands, parse_shell_script_into_commands.
  destruct (extract_bash_command command) as [[shell script]|]; cbn [snd]; [|done].
  destruct (parse script) as [t|] eqn:Ht; [|done].
  unfold try_parse_word_only_commands_sequence. destruct (has_error t) eqn:He; [done|].
  destruct (forallb node_allowed _) eqn:Hall; [|done]. intros Hplain Hlit Hin. simplify_eq.
  apply list_elem_of_omap in Hin as (n & Hn & Hcmd).
  destruct (is_kind (lit "command") n) eqn:Hk; [|done].
  apply named_walk_in_walk in Hn. rewrite forallb_forall in Hall.
  pose proof (allowed_command_named n (Hall n ltac:(by apply list_elem_of_In)) Hk) as Hc.
  apply collect_Forall2 in Hplain.
  assert (n ∈ by_start (List.filter is_command (walk_all children (root_node t)))) as Hs.
  { apply stable_sort_elem, list_elem_of_In, filter_In. split; [by apply list_elem_of_In | done]. }
  apply list_elem_of_lookup in Hs as [i Hi].
  destruct (Forall2_lookup_l _ _ _ _ _ Hplain Hi) as (ws & Hws & Hp).
  destruct (plain_literal_same_name n ws ws') as (name & H1 & H2); [|done|done|].
  - by eapply commands_have_names.
  - exists ws, name. split; [by eapply list_elem_of_lookup_2 | done].
Qed.
