(* ===== verification/CommandSafety.v ===== *)
(** * Command safety

    Models [shell-command/src/command_safety]: the commands that run without
    asking ([is_safe_command.rs]) and the ones that are recognised as forced
    removals ([is_dangerous_command.rs]), on Unix. [linux] is
    [cfg!(target_os = "linux")]; the parser of scripts is that of
    [ShellScript]. *)

From Stdlib Require Import Lia.
From stdpp Require Import relations.
From S2P Require Import Prelude RustStr ShellScript.

(** ** Executables and git options *)

Definition executable_name_lookup_key (raw : str) : option str := file_name raw.

Definition is_one_of (options : list str) (arg : str) : bool := bool_decide (arg ∈ options).

Definition is_git_global_option_with_value (arg : str) : bool :=
  is_one_of [lit "-C"; lit "-c"; lit "--config-env"; lit "--exec-path"; lit "--git-dir"; lit "--namespace";
             lit "--super-prefix"; lit "--work-tree"] arg.

Definition is_git_global_option_with_inline_value (arg : str) : bool :=
  existsb (fun p => starts_with p arg)
    [lit "--config-env="; lit "--exec-path="; lit "--git-dir="; lit "--namespace="; lit "--super-prefix=";
     lit "--work-tree="]
  || ((starts_with (lit "-C") arg || starts_with (lit "-c") arg) && (2 <? str_len arg)).

(** The loop of [find_git_subcommand] over the arguments from index [idx] on. *)
Fixpoint scan_git_args (subcommands : list str) (skip_next : bool) (idx : nat) (args : list str)
  : option (nat * str) :=
  match args with
  | [] => None
  | arg :: args' =>
      if skip_next then scan_git_args subcommands false (S idx) args'
      else if is_git_global_option_with_inline_value arg then scan_git_args subcommands false (S idx) args'
      else if is_git_global_option_with_value arg then scan_git_args subcommands true (S idx) args'
      else if bool_decide (arg = lit "--") || starts_with [MINUS] arg
      then scan_git_args subcommands false (S idx) args'
      else if is_one_of subcommands arg then Some (idx, arg)
      else None
  end.

Definition find_git_subcommand (command : list str) (subcommands : list str) : option (nat * str) :=
  let! cmd0 := head command in
  if negb (bool_decide (executable_name_lookup_key cmd0 = Some (lit "git"))) then None
  else scan_git_args subcommands false 1 (tail command).

(** ** Dangerous commands *)

Inductive DangerousCommandMatch : Type := ForcedRm | Other.

Definition MAX_DANGEROUS_COMMAND_WRAPPER_DEPTH : nat := 8.

Fixpoint take_until_dashes (args : list str) : list str :=
  match args with
  | [] => []
  | a :: args' => if bool_decide (a = lit "--") then [] else a :: take_until_dashes args'
  end.

Definition is_force_option (arg : str) : bool :=
  bool_decide (arg = lit "--force")
  || match strip_prefix [MINUS] arg with
     | Some flags => negb (starts_with [MINUS] flags) && contains_char 102 flags
     | None => false
     end.

Definition rm_args_include_force_option (args : list str) : bool :=
  existsb is_force_option (take_until_dashes args).

Definition is_env_prefix (argument : str) : bool :=
  bool_decide (argument = lit "-i") || bool_decide (argument = lit "--ignore-environment")
  || match split_once 61 argument with
     | Some (name, _) => negb (is_empty name) && negb (starts_with [MINUS] name)
     | None => false
     end.

(** The loop of [dangerous_command_match_for_env]: what is left from
    [command_index] on. *)
Fixpoint skip_env_prefixes (args : list str) : list str :=
  match args with
  | [] => []
  | argument :: args' =>
      if bool_decide (argument = lit "--") then args'
      else if is_env_prefix argument then skip_env_prefixes args'
      else args
  end.

(** The action of a [trap], as a shell command. *)
Definition trap_action (args : list str) : option (list str) :=
  let args := match args with
              | a :: args' => if bool_decide (a = lit "--") then args' else args
              | [] => []
              end in
  let! action := head args in
  if starts_with [MINUS] action then None else Some [lit "sh"; lit "-c"; action].

Section Dangerous.
Context (try_parse_shell : str -> option Tree).

(** [dangerous_command_match_for_exec], with the function it calls one wrapper
    deeper as [deeper]. *)
Definition dangerous_command_match_for_exec (deeper : list str -> option DangerousCommandMatch)
  (command : list str) : option DangerousCommandMatch :=
  match command with
  | [] => None
  | cmd0 :: args =>
      match executable_name_lookup_key cmd0 with
      | None => None
      | Some name =>
          if bool_decide (name = lit "rm") then
            if rm_args_include_force_option args then Some ForcedRm else None
          else if bool_decide (name = lit "sudo") then deeper args
          else if bool_decide (name = lit "env") then deeper (skip_env_prefixes args)
          else if bool_decide (name = lit "trap") then
            let! shell_command := trap_action args in deeper shell_command
          else None
      end
  end.

(** [dangerous_command_match_with_depth]; [left] is how many more wrappers it
    looks into, that is 9 less [wrapper_depth]. *)
Fixpoint dangerous_command_match_with_depth (left : nat) (command : list str) : option DangerousCommandMatch :=
  match left with
  | 0 => None
  | S left' =>
      match dangerous_command_match_for_exec (dangerous_command_match_with_depth left') command with
      | Some m => Some m
      | None =>
          let! commands := parse_shell_lc_literal_commands try_parse_shell command in
          find_map (dangerous_command_match_with_depth left') commands
      end
  end.

Definition dangerous_command_match (command : list str) : option DangerousCommandMatch :=
  dangerous_command_match_with_depth (S MAX_DANGEROUS_COMMAND_WRAPPER_DEPTH) command.
End Dangerous.

(** ** Safe commands *)

Inductive GitOptionPattern : Type :=
| Exact (option : str)
| ShortWithInlineValue (option : str)
| Prefix (prefix : str).

Definition pattern_matches (p : GitOptionPattern) (arg : str) : bool :=
  match p with
  | Exact option => bool_decide (arg = option)
  | ShortWithInlineValue option => starts_with option arg && (str_len option <? str_len arg)
  | Prefix prefix => starts_with prefix arg
  end.

Definition UNSAFE_GIT_GLOBAL_OPTIONS : list GitOptionPattern :=
  [Exact (lit "-C"); ShortWithInlineValue (lit "-C"); Exact (lit "-c"); ShortWithInlineValue (lit "-c");
   Exact (lit "-p"); Exact (lit "--config-env"); Prefix (lit "--config-env="); Exact (lit "--exec-path");
   Prefix (lit "--exec-path="); Exact (lit "--git-dir"); Prefix (lit "--git-dir="); Exact (lit "--namespace");
   Prefix (lit "--namespace="); Exact (lit "--paginate"); Exact (lit "--super-prefix");
   Prefix (lit "--super-prefix="); Exact (lit "--work-tree"); Prefix (lit "--work-tree=")].

Definition UNSAFE_GIT_SUBCOMMAND_OPTIONS : list GitOptionPattern :=
  [Exact (lit "--output"); Prefix (lit "--output="); Exact (lit "--ext-diff"); Exact (lit "--textconv");
   Exact (lit "--exec"); Prefix (lit "--exec=")].

Definition git_matches_option_pattern (arg : str) (patterns : list GitOptionPattern) : bool :=
  existsb (fun p => pattern_matches p arg) patterns.

Definition git_has_unsafe_global_option (global_args : list str) : bool :=
  existsb (fun arg => git_matches_option_pattern arg UNSAFE_GIT_GLOBAL_OPTIONS) global_args.

Definition git_subcommand_args_are_read_only (args : list str) : bool :=
  negb (existsb (fun arg => git_matches_option_pattern arg UNSAFE_GIT_SUBCOMMAND_OPTIONS) args).

Definition is_read_only_branch_flag (arg : str) : bool :=
  is_one_of [lit "--list"; lit "-l"; lit "--show-current"; lit "-a"; lit "--all"; lit "-r"; lit "--remotes";
             lit "-v"; lit "-vv"; lit "--verbose"] arg
  || starts_with (lit "--format=") arg.

(** The loop of [git_branch_is_read_only]. *)
Fixpoint branch_flags_scan (saw_read_only_flag : bool) (args : list str) : bool :=
  match args with
  | [] => saw_read_only_flag
  | arg :: args' => if is_read_only_branch_flag arg then branch_flags_scan true args' else false
  end.

Definition git_branch_is_read_only (branch_args : list str) : bool :=
  match branch_args with [] => true | _ => branch_flags_scan false branch_args end.

Definition is_safe_git_command (command : list str) : bool :=
  match find_git_subcommand command [lit "status"; lit "log"; lit "diff"; lit "show"; lit "branch"] with
  | None => false
  | Some (subcommand_idx, subcommand) =>
      let global_args := take (subcommand_idx - 1) (tail command) in
      if git_has_unsafe_global_option global_args then false
      else
        let subcommand_args := drop (S subcommand_idx) command in
        if is_one_of [lit "status"; lit "log"; lit "diff"; lit "show"] subcommand
        then git_subcommand_args_are_read_only subcommand_args
        else if bool_decide (subcommand = lit "branch")
        then git_subcommand_args_are_read_only subcommand_args && git_branch_is_read_only subcommand_args
        else false
  end.

Definition is_number (s : str) : bool := negb (is_empty s) && forallb is_ascii_digit s.

Definition is_valid_sed_n_arg (arg : option str) : bool :=
  match arg with
  | None => false
  | Some s =>
      match strip_suffix (lit "p") s with
      | None => false
      | Some core =>
          match split_on 44 core with
          | [num] => is_number num
          | [a; b] => is_number a && is_number b
          | _ => false
          end
      end
  end.

Definition LINUX_ONLY_SAFE : list str := [lit "numfmt"; lit "tac"].
Definition ALWAYS_SAFE : list str :=
  [lit "cat"; lit "cd"; lit "cut"; lit "echo"; lit "expr"; lit "false"; lit "grep"; lit "head"; lit "id"; lit "ls";
   lit "nl"; lit "paste"; lit "pwd"; lit "rev"; lit "seq"; lit "stat"; lit "tail"; lit "tr"; lit "true";
   lit "uname"; lit "uniq"; lit "wc"; lit "which"; lit "whoami"].

Definition is_unsafe_base64_option (arg : str) : bool :=
  is_one_of [lit "-o"; lit "--output"] arg || starts_with (lit "--output=") arg
  || (starts_with (lit "-o") arg && negb (bool_decide (arg = lit "-o"))).

Definition UNSAFE_FIND_OPTIONS : list str :=
  [lit "-exec"; lit "-execdir"; lit "-ok"; lit "-okdir"; lit "-delete"; lit "-fls"; lit "-fprint"; lit "-fprint0";
   lit "-fprintf"].

Definition is_unsafe_ripgrep_option (arg : str) : bool :=
  is_one_of [lit "--search-zip"; lit "-z"] arg
  || existsb (fun opt => bool_decide (arg = opt) || starts_with (opt ++ lit "=") arg)
       [lit "--pre"; lit "--hostname-bin"].

Definition is_safe_sed (command : list str) : bool :=
  (length command <=? 4) && bool_decide (command !! 1 = Some (lit "-n")) && is_valid_sed_n_arg (command !! 2).

Definition is_safe_to_call_with_exec (linux : bool) (command : list str) : bool :=
  match command with
  | [] => false
  | cmd0 :: args =>
      match executable_name_lookup_key cmd0 with
      | None => false
      | Some cmd =>
          if linux && is_one_of LINUX_ONLY_SAFE cmd then true
          else if is_one_of ALWAYS_SAFE cmd then true
          else if bool_decide (cmd = lit "base64") then negb (existsb is_unsafe_base64_option args)
          else if bool_decide (cmd = lit "find") then negb (existsb (is_one_of UNSAFE_FIND_OPTIONS) command)
          else if bool_decide (cmd = lit "rg") then negb (existsb is_unsafe_ripgrep_option command)
          else if bool_decide (cmd = lit "git") then is_safe_git_command command
          else bool_decide (cmd = lit "sed") && is_safe_sed command
      end
  end.

Definition zsh_as_bash (s : str) : str := if bool_decide (s = lit "zsh") then lit "bash" else s.

Definition is_known_safe_command (try_parse_shell : str -> option Tree) (linux : bool) (command : list str) : bool :=
  let command := map zsh_as_bash command in
  if is_safe_to_call_with_exec linux command then true
  else
    match parse_shell_lc_plain_commands try_parse_shell command with
    | Some all_commands =>
        negb (match all_commands with [] => true | _ => false end)
        && forallb (is_safe_to_call_with_exec linux) all_commands
    | None => false
    end.

Example safe_examples :
  map (is_safe_to_call_with_exec true)
    [[lit "/bin/ls"; lit "-l"]; [lit "git"; lit "--no-pager"; lit "log"; lit "-p"];
     [lit "git"; lit "-C"; lit "x"; lit "status"]; [lit "git"; lit "branch"; lit "-d"; lit "x"];
     [lit "sed"; lit "-n"; lit "1,5p"; lit "f"]; [lit "sed"; lit "-n"; lit "1,p"]; [lit "find"; lit "."; lit "-delete"]]
  = [true; true; false; false; true; false; false].
Proof. vm_compute. reflexivity. Qed.

(** ** Lemmas: names that run nothing else *)

Definition SAFE_NAMES : list str :=
  LINUX_ONLY_SAFE ++ ALWAYS_SAFE ++ [lit "base64"; lit "find"; lit "rg"; lit "git"; lit "sed"].
Definition WRAPPER_NAMES : list str := [lit "rm"; lit "sudo"; lit "env"; lit "trap"].

Lemma safe_names_bare name : name ∈ SAFE_NAMES -> is_bare_name name = true /\ name ∉ WRAPPER_NAMES.
Proof.
  intros Hin.
  assert (forallb (fun n => is_bare_name n && negb (is_one_of WRAPPER_NAMES n)) SAFE_NAMES = true) as H
    by by vm_compute.
  rewrite forallb_forall in H. specialize (H name ltac:(by apply list_elem_of_In)).
  apply andb_true_iff in H as [? H]. split; [done|]. by apply negb_true_iff, bool_decide_eq_false in H.
Qed.

Lemma wrapper_names_bare name : name ∈ WRAPPER_NAMES -> is_bare_name name = true.
Proof.
  assert (forallb is_bare_name WRAPPER_NAMES = true) as H by by vm_compute.
  rewrite forallb_forall in H. intros Hin. apply H. by apply list_elem_of_In.
Qed.

Lemma safe_has_name linux command :
  is_safe_to_call_with_exec linux command = true ->
  exists cmd0 args name, command = cmd0 :: args /\ file_name cmd0 = Some name /\ name ∈ SAFE_NAMES.
Proof.
  unfold is_safe_to_call_with_exec, executable_name_lookup_key. destruct command as [|cmd0 args]; [done|].
  destruct (file_name cmd0) as [name|] eqn:E; [|done]. intros H. exists cmd0, args, name.
  split; [done|]. split; [done|]. unfold SAFE_NAMES. rewrite !elem_of_app.
  destruct (linux && is_one_of LINUX_ONLY_SAFE name) eqn:E1.
  { apply andb_true_iff in E1 as [_ E1%bool_decide_eq_true]. by left. }
  destruct (is_one_of ALWAYS_SAFE name) eqn:E2; [apply bool_decide_eq_true in E2; auto|].
  right; right. repeat (case_bool_decide as En; [rewrite En; set_solver|]; clear En). done.
Qed.

Lemma bare_not_extracted cmd0 args name :
  file_name cmd0 = Some name -> is_bare_name name = true -> extract_bash_command (cmd0 :: args) = None.
Proof.
  intros Hn Hb. unfold extract_bash_command. destruct args as [|flag [|script []]]; try done.
  rewrite (not_a_shell _ _ Hn Hb). by destruct (_ || _).
Qed.

Lemma not_wrapper_exec deeper cmd0 args name :
  file_name cmd0 = Some name -> name ∉ WRAPPER_NAMES -> dangerous_command_match_for_exec deeper (cmd0 :: args) = None.
Proof.
  intros Hn Hw. unfold dangerous_command_match_for_exec, executable_name_lookup_key. rewrite Hn.
  unfold WRAPPER_NAMES in Hw. rewrite !not_elem_of_cons in Hw. destruct Hw as (? & ? & ? & ? & _).
  by rewrite !bool_decide_eq_false_2 by done.
Qed.

Lemma shell_not_wrapper deeper command r :
  extract_bash_command command = Some r -> dangerous_command_match_for_exec deeper command = None.
Proof.
  destruct command as [|cmd0 args]; [done|]. intros Hr.
  destruct (file_name cmd0) as [name|] eqn:Hn.
  2:{ unfold dangerous_command_match_for_exec, executable_name_lookup_key. by rewrite Hn. }
  destruct (decide (name ∈ WRAPPER_NAMES)) as [Hw|Hw]; [|by eapply not_wrapper_exec].
  rewrite (bare_not_extracted _ args _ Hn (wrapper_names_bare _ Hw)) in Hr. done.
Qed.

Section Parsed.
Context (parse : str -> option Tree).

Lemma safe_name_not_dangerous left cmd0 args name :
  file_name cmd0 = Some name -> name ∈ SAFE_NAMES ->
  dangerous_command_match_with_depth parse left (cmd0 :: args) = None.
Proof.
  intros Hn Hs. destruct (safe_names_bare _ Hs) as [Hb Hw]. destruct left as [|left]; [done|].
  cbn [dangerous_command_match_with_depth]. rewrite (not_wrapper_exec _ _ _ _ Hn Hw).
  unfold parse_shell_lc_literal_commands. by rewrite (bare_not_extracted _ _ _ Hn Hb).
Qed.

Lemma zsh_as_bash_id s : s <> lit "zsh" -> zsh_as_bash s = s.
Proof. unfold zsh_as_bash. by case_bool_decide. Qed.

Lemma plain_commands_zsh command :
  lit "zsh" ∉ tail command ->
  parse_shell_lc_plain_commands parse (map zsh_as_bash command) = parse_shell_lc_plain_commands parse command.
Proof.
  intros Htail. destruct command as [|s0 rest]; [done|]. cbn [tail] in Htail.
  assert (map zsh_as_bash rest = rest) as Hrest.
  { clear s0. induction rest as [|s rest IH]; [done|]. apply not_elem_of_cons in Htail as [? ?].
    cbn [map]. rewrite zsh_as_bash_id by congruence. f_equal. by apply IH. }
  cbn [map]. rewrite Hrest. unfold parse_shell_lc_plain_commands, extract_bash_command.
  destruct rest as [|flag [|script []]]; try done. destruct (_ || _); [|done].
  unfold zsh_as_bash. case_bool_decide as Hz; [|done]. rewrite Hz. done.
Qed.
End Parsed.

(** A command that is known to be safe is not matched as dangerous. *)
Lemma known_safe_not_dangerous `{BashGrammar parse} linux command :
  lit "zsh" ∉ tail command -> is_known_safe_command parse linux command = true ->
  dangerous_command_match parse command = None.
Proof.
  intros Htail. unfold is_known_safe_command, dangerous_command_match.
  destruct (is_safe_to_call_with_exec linux (map zsh_as_bash command)) eqn:Hexec.
  - intros _. apply safe_has_name in Hexec as (cmd0 & args & name & Hc & Hn & Hs).
    destruct command as [|s0 rest]; [done|]. cbn [map] in Hc. injection Hc as <- <-.
    apply (safe_name_not_dangerous parse _ _ _ name); [|done].
    unfold zsh_as_bash in Hn. case_bool_decide; [|done]. vm_compute in Hn. simplify_eq.
    by apply safe_names_bare in Hs as [Hb _].
  - rewrite (plain_commands_zsh parse command Htail).
    destruct (parse_shell_lc_plain_commands parse command) as [plain|] eqn:Hplain; [|done].
    rewrite andb_true_iff, forallb_forall. intros [_ Hall]. cbn [dangerous_command_match_with_depth].
    destruct (extract_bash_command command) as [r|] eqn:Hr.
    2:{ unfold parse_shell_lc_plain_commands in Hplain. by rewrite Hr in Hplain. }
    rewrite (shell_not_wrapper _ _ _ Hr).
    destruct (parse_shell_lc_literal_commands parse command) as [literal|] eqn:Hlit; [|done].
    apply find_map_None. intros ws' Hin.
    destruct (literal_commands_plain _ _ _ _ Hplain Hlit Hin) as (ws & name & Hws & Hhd & Hhd').
    apply list_elem_of_In, Hall, safe_has_name in Hws as (cmd0 & args & key & -> & Hkey & Hsafe).
    destruct ws' as [|cmd0' args']; [done|]. injection Hhd as <-. injection Hhd' as ->.
    by eapply safe_name_not_dangerous.
Qed.

(** ** Lemmas: what the dangerous match looks into *)

Section Wrappers.
Context (parse : str -> option Tree).

(** A command that removes files without asking: [rm] with [--force], or with a
    group of short flags that has an [f], before any [--]. *)
Definition force_option (arg : str) : Prop :=
  arg = lit "--force" \/ exists flags, arg = MINUS :: flags /\ head flags <> Some MINUS /\ 102%N ∈ flags.
Definition forced_rm (command : list str) : Prop :=
  exists cmd0 before arg after, command = cmd0 :: before ++ arg :: after
    /\ file_name cmd0 = Some (lit "rm") /\ (lit "--" ∉ before) /\ force_option arg.

(** What a wrapper runs: what follows [sudo]; what follows [env] and its
    assignments; the action of a [trap], as a script; and every literal command of
    a script. *)
Inductive wraps : list str -> list str -> Prop :=
| wraps_sudo cmd0 args : file_name cmd0 = Some (lit "sudo") -> wraps (cmd0 :: args) args
| wraps_env cmd0 prefixes rest :
    file_name cmd0 = Some (lit "env") -> Forall (fun a => is_env_prefix a = true) prefixes ->
    (forall a, head rest = Some a -> is_env_prefix a = false /\ a <> lit "--") ->
    wraps (cmd0 :: prefixes ++ rest) rest
| wraps_env_dashes cmd0 prefixes rest :
    file_name cmd0 = Some (lit "env") -> Forall (fun a => is_env_prefix a = true) prefixes ->
    wraps (cmd0 :: prefixes ++ lit "--" :: rest) rest
| wraps_trap cmd0 dashes action rest :
    file_name cmd0 = Some (lit "trap") -> dashes = [] \/ dashes = [lit "--"] ->
    starts_with [MINUS] action = false ->
    wraps (cmd0 :: dashes ++ action :: rest) [lit "sh"; lit "-c"; action]
| wraps_script command commands c :
    parse_shell_lc_literal_commands parse command = Some commands -> c ∈ commands -> wraps command c.

Lemma is_force_option_iff arg : is_force_option arg = true <-> force_option arg.
Proof.
  unfold is_force_option, force_option. rewrite orb_true_iff, bool_decide_eq_true. apply or_iff_compat_l.
  destruct (strip_prefix [MINUS] arg) as [flags|] eqn:E.
  - apply strip_prefix_Some in E as ->. rewrite andb_true_iff, negb_true_iff. unfold contains_char.
    rewrite existsb_exists. split.
    + intros [Hm (c & Hc & <-%N.eqb_eq)]. exists flags. split; [done|]. split; [|by apply list_elem_of_In].
      intros Hh. destruct flags; simplify_eq/=.
    + intros (flags' & [= <-] & Hm & Hf). split; [|exists 102%N; split; [by apply list_elem_of_In | done]].
      apply not_true_is_false. intros [r ->]%starts_with_true. done.
  - split; [done|]. intros (flags & -> & _).
    rewrite (proj2 (strip_prefix_Some [MINUS] (MINUS :: flags) flags)) in E by done. done.
Qed.

Lemma rm_force_iff args :
  rm_args_include_force_option args = true
  <-> exists before arg after, args = before ++ arg :: after /\ (lit "--" ∉ before) /\ force_option arg.
Proof.
  unfold rm_args_include_force_option. induction args as [|a args IH]; cbn [take_until_dashes existsb].
  { split; [done|]. intros ([] & ? & ? & ? & _); done. }
  destruct (bool_decide_reflect (a = lit "--")) as [-> | Hne]; cbn [existsb].
  - split; [done|]. intros ([|b before] & arg & after & Heq & Hb & Hf); injection Heq as Ha _.
    + rewrite <- Ha in Hf. apply is_force_option_iff in Hf. by vm_compute in Hf.
    + destruct Hb. rewrite Ha. apply list_elem_of_here.
  - rewrite orb_true_iff, IH, is_force_option_iff. split.
    + intros [Hf|(before & arg & after & -> & Hb & Hf)].
      * exists [], a, args. split; [done|]. split; [apply not_elem_of_nil | done].
      * exists (a :: before), arg, after. split; [done|]. split; [|done]. by apply not_elem_of_cons.
    + intros ([|b before] & arg & after & [= -> ->] & Hb & Hf); [by left|]. right.
      exists before, arg, after. split; [done|]. split; [|done]. by apply not_elem_of_cons in Hb as [_ ?].
Qed.

Lemma skip_env_wraps cmd0 args :
  file_name cmd0 = Some (lit "env") -> wraps (cmd0 :: args) (skip_env_prefixes args).
Proof.
  intros Hn. enough (forall done_, Forall (fun a => is_env_prefix a = true) done_ ->
    wraps (cmd0 :: done_ ++ args) (skip_env_prefixes args)) as H by by apply (H []).
  induction args as [|a args IH]; intros done_ Hd; cbn [skip_env_prefixes].
  - by apply wraps_env.
  - destruct (bool_decide_reflect (a = lit "--")) as [-> | Hne]; [by apply wraps_env_dashes|].
    destruct (is_env_prefix a) eqn:Ha.
    + specialize (IH (done_ ++ [a])). rewrite <- app_assoc in IH. apply IH, Forall_app. by split; [|constructor].
    + apply wraps_env; try done. by intros ? [= <-].
Qed.

Lemma skip_env_prefixes_app prefixes rest :
  Forall (fun a => is_env_prefix a = true) prefixes -> skip_env_prefixes (prefixes ++ rest) = skip_env_prefixes rest.
Proof.
  induction 1 as [|a prefixes Ha _ IH]; [done|]. cbn [app skip_env_prefixes].
  rewrite bool_decide_eq_false_2 by (intros ->; by vm_compute in Ha). by rewrite Ha.
Qed.

Lemma skip_env_stops rest :
  (forall a, head rest = Some a -> is_env_prefix a = false /\ a <> lit "--") -> skip_env_prefixes rest = rest.
Proof.
  destruct rest as [|a rest]; [done|]. intros Ha. destruct (Ha a eq_refl) as [Hp Hd]. cbn [skip_env_prefixes].
  by rewrite bool_decide_eq_false_2, Hp.
Qed.

Lemma trap_wraps cmd0 args action :
  file_name cmd0 = Some (lit "trap") -> trap_action args = Some action -> wraps (cmd0 :: args) action.
Proof.
  intros Hn. unfold trap_action. destruct args as [|a args]; [done|].
  destruct (bool_decide_reflect (a = lit "--")) as [-> | _].
  - destruct args as [|b args]; [done|]. cbn [head]. destruct (starts_with [MINUS] b) eqn:Hb; intros [= <-].
    apply (wraps_trap cmd0 [lit "--"] b args); auto.
  - cbn [head]. destruct (starts_with [MINUS] a) eqn:Ha; intros [= <-]. apply (wraps_trap cmd0 [] a args); auto.
Qed.

Lemma trap_action_of dashes action rest :
  dashes = [] \/ dashes = [lit "--"] -> starts_with [MINUS] action = false ->
  trap_action (dashes ++ action :: rest) = Some [lit "sh"; lit "-c"; action].
Proof.
  intros [-> | ->] Ha; unfold trap_action; cbn [app].
  - rewrite bool_decide_eq_false_2; [cbn [head]; by rewrite Ha|]. intros ->. by vm_compute in Ha.
  - rewrite bool_decide_eq_true_2 by done. cbn [head]. by rewrite Ha.
Qed.

Lemma exec_sound deeper command m :
  dangerous_command_match_for_exec deeper command = Some m ->
  (m = ForcedRm /\ forced_rm command) \/ exists c, wraps command c /\ deeper c = Some m.
Proof.
  unfold dangerous_command_match_for_exec, executable_name_lookup_key.
  destruct command as [|cmd0 args]; [done|]. destruct (file_name cmd0) as [name|] eqn:Hn; [|done].
  case_bool_decide as E1.
  { destruct (rm_args_include_force_option args) eqn:Hf; intros [= <-]. left. split; [done|].
    apply rm_force_iff in Hf as (before & arg & after & -> & Hb & Hf).
    exists cmd0, before, arg, after. split; [done|]. split; [congruence | done]. }
  intros H. right. case_bool_decide as E2; [exists args; split; [constructor; congruence | done]|].
  case_bool_decide as E3; [eexists; split; [apply skip_env_wraps; congruence | exact H]|].
  case_bool_decide as E4; [|done]. destruct (trap_action args) as [action|] eqn:Ha; [|done].
  exists action. split; [by apply trap_wraps; [congruence|] | done].
Qed.

Lemma exec_complete deeper command c :
  wraps command c -> is_Some (deeper c) ->
  is_Some (dangerous_command_match_for_exec deeper command)
  \/ exists commands, parse_shell_lc_literal_commands parse command = Some commands /\ c ∈ commands.
Proof.
  intros Hw Hd. destruct Hw as [cmd0 args Hn|cmd0 prefixes rest Hn Hp Hr|cmd0 prefixes rest Hn Hp
    |cmd0 dashes action rest Hn Hds Ha|command commands c Hp Hc].
  5:{ right. by exists commands. }
  all: left; unfold dangerous_command_match_for_exec, executable_name_lookup_key; rewrite Hn; try exact Hd.
  - rewrite skip_env_prefixes_app, skip_env_stops by done. exact Hd.
  - rewrite skip_env_prefixes_app by done. exact Hd.
  - rewrite trap_action_of by done. exact Hd.
Qed.

Lemma forced_rm_exec deeper command :
  forced_rm command -> dangerous_command_match_for_exec deeper command = Some ForcedRm.
Proof.
  intros (cmd0 & before & arg & after & -> & Hn & Hb & Hf).
  unfold dangerous_command_match_for_exec, executable_name_lookup_key. rewrite Hn. simpl.
  rewrite (proj2 (rm_force_iff _)); [done|]. by exists before, arg, after.
Qed.

Lemma depth_sound left command m :
  dangerous_command_match_with_depth parse (S left) command = Some m ->
  m = ForcedRm /\ exists c, bsteps wraps left command c /\ forced_rm c.
Proof.
  revert command m. induction left as [|left IH]; intros command m; cbn [dangerous_command_match_with_depth].
  - destruct (dangerous_command_match_for_exec _ command) as [m'|] eqn:E.
    + intros [= ->]. apply exec_sound in E as [[-> Hf]|(c & _ & Hc)]; [|done].
      split; [done|]. exists command. split; [constructor | done].
    + destruct (parse_shell_lc_literal_commands parse command) as [cs|]; [|done].
      intros (c & _ & Hc)%find_map_Some. done.
  - assert (forall c, wraps command c -> dangerous_command_match_with_depth parse (S left) c = Some m ->
                      m = ForcedRm /\ exists c', bsteps wraps (S left) command c' /\ forced_rm c') as Hstep.
    { intros c Hw Hc. destruct (IH c m Hc) as (-> & c' & Hb & Hf). split; [done|].
      exists c'. split; [by eapply bsteps_l | done]. }
    change (match dangerous_command_match_for_exec (dangerous_command_match_with_depth parse (S left)) command with
            | Some m => Some m
            | None => let! commands := parse_shell_lc_literal_commands parse command in
                      find_map (dangerous_command_match_with_depth parse (S left)) commands
            end = Some m -> m = ForcedRm /\ exists c, bsteps wraps (S left) command c /\ forced_rm c).
    destruct (dangerous_command_match_for_exec _ command) as [m'|] eqn:E.
    + intros [= ->]. apply exec_sound in E as [[-> Hf]|(c & Hw & Hc)]; [|by eapply Hstep].
      split; [done|]. exists command. split; [constructor | done].
    + destruct (parse_shell_lc_literal_commands parse command) as [cs|] eqn:Hp; [|done].
      intros (c & Hin & Hc)%find_map_Some. eapply Hstep; [by eapply wraps_script | exact Hc].
Qed.

Lemma depth_complete left command c :
  bsteps wraps left command c -> forced_rm c ->
  is_Some (dangerous_command_match_with_depth parse (S left) command).
Proof.
  induction 1 as [n x|n x y z Hxy _ IH]; intros Hf.
  - cbn [dangerous_command_match_with_depth]. rewrite (forced_rm_exec _ _ Hf). by eexists.
  - specialize (IH Hf). set (d := S n) in *. cbn [dangerous_command_match_with_depth].
    destruct (exec_complete (dangerous_command_match_with_depth parse d) x y Hxy IH) as [[m ->]|(cs & Hp & Hin)].
    + by eexists.
    + destruct (dangerous_command_match_for_exec _ x); [by eexists|]. rewrite Hp.
      eapply find_map_is_Some; [exact Hin | exact IH].
Qed.
End Wrappers.

(** The dangerous match is exact: it reports a forced removal if and only if
    one is reached from the command through at most eight wrappers ([sudo], [env],
    the action of a [trap], a literal command of a script), and reports nothing
    else. *)
Theorem dangerous_exact parse command :
  (dangerous_command_match parse command = Some ForcedRm
   <-> exists c, bsteps (wraps parse) MAX_DANGEROUS_COMMAND_WRAPPER_DEPTH command c /\ forced_rm c)
  /\ dangerous_command_match parse command <> Some Other.
Proof.
  unfold dangerous_command_match. split; [split|].
  - intros [_ H]%depth_sound. exact H.
  - intros (c & Hb & Hf). destruct (depth_complete parse _ _ _ Hb Hf) as [m Hm].
    rewrite Hm. by apply depth_sound in Hm as [-> _].
  - intros H. apply depth_sound in H as [? _]. done.
Qed.

(** A command that runs without asking, alone or as a script of plain
    commands, leads to no forced removal through up to eight wrappers, however
    [sudo], [env], [trap] and scripts are nested. Assumed of the parser: in
    bash's grammar the words of a command follow its name. *)
Theorem safe_not_dangerous `{BashGrammar parse} linux command :
  lit "zsh" ∉ tail command -> is_known_safe_command parse linux command = true ->
  ~ exists c, bsteps (wraps parse) MAX_DANGEROUS_COMMAND_WRAPPER_DEPTH command c /\ forced_rm c.
Proof.
  intros Hz Hs (c & Hb & Hf). destruct (depth_complete parse _ _ _ Hb Hf) as [m Hm].
  change (dangerous_command_match parse command = Some m) in Hm.
  by rewrite (known_safe_not_dangerous linux) in Hm.
Qed.

(** [ls && pwd] as tree-sitter has it. *)
Definition a_word (start : nat) (w : str) : Node := mkNode (lit "word") true (Some w) start [].
Definition a_command (start : nat) (name : str) : Node :=
  mkNode (lit "command") true (Some name) start
    [mkNode (lit "command_name") true (Some name) start [a_word start name]].
Definition ls_and_pwd : Tree :=
  mkTree (mkNode (lit "program") true (Some (lit "ls && pwd")) 0
    [mkNode (lit "list") true (Some (lit "ls && pwd")) 0
       [a_command 0 (lit "ls"); mkNode (lit "&&") false (Some (lit "&&")) 3 []; a_command 6 (lit "pwd")]]) false.
Definition parse_ls_and_pwd (s : str) : option Tree :=
  if bool_decide (s = lit "ls && pwd") then Some ls_and_pwd else None.

#[export] Instance ls_and_pwd_grammar : BashGrammar parse_ls_and_pwd.
Proof.
  constructor. intros script t n. unfold parse_ls_and_pwd. case_bool_decide; [|done].
  intros [= <-] _ Hin Hc.
  assert (forallb (fun n => negb (is_command n)
                            || match named_children n with c :: _ => is_kind (lit "command_name") c | [] => false end)
            (walk_all children (root_node ls_and_pwd)) = true) as Hall by by vm_compute.
  rewrite forallb_forall in Hall. specialize (Hall n ltac:(by apply list_elem_of_In)). rewrite Hc in Hall.
  simpl in Hall. destruct (named_children n) as [|c cs] eqn:E; [done|].
  exists [], c, cs. split; [done|]. split; [done | constructor].
Qed.

Lemma safe_not_dangerous_witness :
  is_known_safe_command parse_ls_and_pwd false [lit "/bin/zsh"; lit "-lc"; lit "ls && pwd"] = true
  /\ ~ exists c, bsteps (wraps parse_ls_and_pwd) MAX_DANGEROUS_COMMAND_WRAPPER_DEPTH
                   [lit "/bin/zsh"; lit "-lc"; lit "ls && pwd"] c /\ forced_rm c.
Proof.
  split; [vm_compute; reflexivity|]. apply (safe_not_dangerous false).
  - cbn [tail]. rewrite !not_elem_of_cons. split; [|split; [|apply not_elem_of_nil]]; vm_compute; discriminate.
  - vm_compute. reflexivity.
Defined.

(** Eight [sudo]s are looked through, and not nine. *)
Example wrapper_bound :
  map (fun k => dangerous_command_match (fun _ => None) (replicate k (lit "sudo") ++ [lit "rm"; lit "-rf"; lit "x"]))
    [0; 8; 9]
  = [Some ForcedRm; Some ForcedRm; None].
Proof. vm_compute. reflexivity. Qed.

(** ** What runs without asking *)

(** A global option of git that is accepted: a flag, none of the ones that change
    where git works or what it runs. *)
Definition harmless_global (arg : str) : Prop :=
  starts_with [MINUS] arg = true /\ git_matches_option_pattern arg UNSAFE_GIT_GLOBAL_OPTIONS = false.
Definition harmless_argument (arg : str) : Prop :=
  git_matches_option_pattern arg UNSAFE_GIT_SUBCOMMAND_OPTIONS = false.

(** The print command of [sed -n]: [N] or [M,N], then [p]. *)
Inductive sed_range : str -> Prop :=
| sed_line n : is_number n = true -> sed_range (n ++ lit "p")
| sed_lines a b : is_number a = true -> is_number b = true -> sed_range (a ++ lit "," ++ b ++ lit "p").

(** The forms in the terms of the code, for the proofs. *)
Inductive accepted (linux : bool) : list str -> Prop :=
| accepted_plain cmd0 args name :
    file_name cmd0 = Some name -> name ∈ ALWAYS_SAFE \/ (linux = true /\ name ∈ LINUX_ONLY_SAFE) ->
    accepted linux (cmd0 :: args)
| accepted_base64 cmd0 args :
    file_name cmd0 = Some (lit "base64") -> Forall (fun a => is_unsafe_base64_option a = false) args ->
    accepted linux (cmd0 :: args)
| accepted_find cmd0 args :
    file_name cmd0 = Some (lit "find") -> Forall (fun a => a ∉ UNSAFE_FIND_OPTIONS) args ->
    accepted linux (cmd0 :: args)
| accepted_rg cmd0 args :
    file_name cmd0 = Some (lit "rg") -> Forall (fun a => is_unsafe_ripgrep_option a = false) (cmd0 :: args) ->
    accepted linux (cmd0 :: args)
| accepted_git cmd0 globals sub args :
    file_name cmd0 = Some (lit "git") -> Forall harmless_global globals ->
    sub ∈ [lit "status"; lit "log"; lit "diff"; lit "show"] -> Forall harmless_argument args ->
    accepted linux (cmd0 :: globals ++ sub :: args)
| accepted_git_branch cmd0 globals args :
    file_name cmd0 = Some (lit "git") -> Forall harmless_global globals ->
    Forall (fun a => is_read_only_branch_flag a = true) args ->
    accepted linux (cmd0 :: globals ++ lit "branch" :: args)
| accepted_sed cmd0 range files :
    file_name cmd0 = Some (lit "sed") -> sed_range range -> length files <= 1 ->
    accepted linux (cmd0 :: lit "-n" :: range :: files).

Lemma existsb_Forall_false {A} (f : A -> bool) l : negb (existsb f l) = true <-> Forall (fun a => f a = false) l.
Proof.
  induction l as [|x l IH]; [split; [constructor | done]|]. cbn [existsb].
  rewrite negb_orb, andb_true_iff, IH, negb_true_iff, Forall_cons. done.
Qed.

(** An option that takes a value, or holds one, is an unsafe one. *)
Lemma valued_globals_unsafe arg :
  is_git_global_option_with_value arg = true \/ is_git_global_option_with_inline_value arg = true ->
  git_matches_option_pattern arg UNSAFE_GIT_GLOBAL_OPTIONS = true.
Proof.
  unfold is_git_global_option_with_value, is_git_global_option_with_inline_value, is_one_of,
    git_matches_option_pattern, UNSAFE_GIT_GLOBAL_OPTIONS.
  intros [H|H].
  - apply bool_decide_eq_true in H. apply existsb_exists. exists (Exact arg). split; [|by apply bool_decide_eq_true].
    rewrite !elem_of_cons, elem_of_nil in H. unfold In. naive_solver.
  - cbn [existsb pattern_matches]. cbn [existsb] in H.
    change (str_len (lit "-C")) with 2. change (str_len (lit "-c")) with 2.
    repeat (apply orb_true_iff in H as [H|H] || apply andb_true_iff in H as [H ?]); try done;
      repeat match goal with H : ?b = true |- _ => rewrite H; clear H end;
      rewrite ?orb_true_r; done.
Qed.


Lemma not_flag_not_global arg :
  starts_with [MINUS] arg = false ->
  is_git_global_option_with_value arg = false /\ is_git_global_option_with_inline_value arg = false.
Proof.
  intros H. destruct arg as [|c s]; [split; vm_compute; reflexivity|].
  assert (c <> MINUS) as Hc.
  { intros ->. rewrite (proj2 (starts_with_true [MINUS] (MINUS :: s))) in H; [done | by exists s]. }
  assert (forall p, head p = Some MINUS -> starts_with p (c :: s) = false) as Hp.
  { intros p Hp. apply not_true_is_false. intros [r Hr]%starts_with_true.
    destruct p; simplify_eq/=; congruence. }
  split.
  - apply bool_decide_eq_false_2. rewrite !not_elem_of_cons.
    repeat split; try apply not_elem_of_nil; intros E%(f_equal head); apply Hc; vm_compute in E; by injection E.
  - unfold is_git_global_option_with_inline_value. cbn [existsb]. by rewrite !Hp.
Qed.

Lemma scan_index subs skip idx args j sub : scan_git_args subs skip idx args = Some (j, sub) -> idx <= j.
Proof.
  revert skip idx. induction args as [|a args IH]; intros skip idx; cbn [scan_git_args]; [done|].
  repeat case_match; intros H'; simplify_eq; try done; apply IH in H'; lia.
Qed.

Lemma scan_sound subs idx args j sub :
  scan_git_args subs false idx args = Some (j, sub) ->
  git_has_unsafe_global_option (take (j - idx) args) = false ->
  exists globals rest, args = globals ++ sub :: rest /\ Forall harmless_global globals
    /\ sub ∈ subs /\ j = idx + length globals.
Proof.
  revert idx. induction args as [|a args IH]; intros idx; cbn [scan_git_args]; [done|].
  assert (forall skip, scan_git_args subs skip (S idx) args = Some (j, sub) ->
            git_has_unsafe_global_option (take (j - idx) (a :: args)) = false ->
            git_matches_option_pattern a UNSAFE_GIT_GLOBAL_OPTIONS = false
            /\ git_has_unsafe_global_option (take (j - S idx) args) = false) as Hstep.
  { intros skip Hs. apply scan_index in Hs. replace (j - idx) with (S (j - S idx)) by lia.
    cbn [take]. unfold git_has_unsafe_global_option. cbn [existsb]. by intros ?%orb_false_iff. }
  destruct (is_git_global_option_with_inline_value a) eqn:Ei.
  { intros Hs Hu. destruct (Hstep _ Hs Hu) as [Ha _]. by rewrite valued_globals_unsafe in Ha by auto. }
  destruct (is_git_global_option_with_value a) eqn:Ev.
  { intros Hs Hu. destruct (Hstep _ Hs Hu) as [Ha _]. by rewrite valued_globals_unsafe in Ha by auto. }
  destruct (_ || _) eqn:Ef.
  - intros Hs Hu. destruct (Hstep _ Hs Hu) as [Ha Hu'].
    destruct (IH _ Hs Hu') as (globals & rest & -> & Hg & Hsub & ->).
    exists (a :: globals), rest. split; [done|]. split; [|split; [done | simpl; lia]].
    constructor; [|done]. split; [|done]. apply orb_true_iff in Ef as [Ef|?]; [|done].
    apply bool_decide_eq_true in Ef as ->. vm_compute. reflexivity.
  - unfold is_one_of. destruct (bool_decide_reflect (a ∈ subs)); [|done]. intros [= <- <-] _. exists [], args.
    split; [done|]. split; [constructor|]. split; [done | simpl; lia].
Qed.

Lemma scan_complete subs idx globals sub rest :
  Forall harmless_global globals -> sub ∈ subs -> starts_with [MINUS] sub = false ->
  scan_git_args subs false idx (globals ++ sub :: rest) = Some (idx + length globals, sub).
Proof.
  intros Hg Hsub Hm. revert idx. induction Hg as [|g globals [Hf Hu] _ IH]; intros idx; cbn [app scan_git_args].
  - destruct (not_flag_not_global _ Hm) as [-> ->]. rewrite Hm, orb_false_r. unfold is_one_of.
    rewrite bool_decide_eq_false_2, bool_decide_eq_true_2 by first [done | by intros ->].
    f_equal. f_equal. simpl. lia.
  - assert (is_git_global_option_with_value g = false) as ->.
    { apply not_true_is_false. intros H. by rewrite valued_globals_unsafe in Hu by auto. }
    assert (is_git_global_option_with_inline_value g = false) as ->.
    { apply not_true_is_false. intros H. by rewrite valued_globals_unsafe in Hu by auto. }
    rewrite Hf, orb_true_r, IH. f_equal. f_equal. simpl. lia.
Qed.

Lemma sed_arg_range s : is_valid_sed_n_arg (Some s) = true <-> sed_range s.
Proof.
  assert (forall n, is_number n = true -> 44%N ∉ n) as Hcomma.
  { unfold is_number. intros n [_ Hd]%andb_true_iff Hin. rewrite forallb_forall in Hd.
    apply list_elem_of_In, Hd in Hin. vm_compute in Hin. done. }
  unfold is_valid_sed_n_arg. split.
  - destruct (strip_suffix (lit "p") s) as [core|] eqn:E; [|done]. apply strip_suffix_Some in E as ->.
    pose proof (join_split_on 44 core) as Hj. destruct (split_on 44 core) as [|a [|b []]]; try done.
    + intros Ha. simpl in Hj. rewrite <- Hj. by constructor.
    + intros [Ha Hb]%andb_true_iff. simpl in Hj. rewrite <- Hj.
      change (sed_range ((a ++ lit "," ++ b) ++ lit "p")). rewrite <- !app_assoc. by constructor.
  - destruct 1 as [n Hn|a b Ha Hb].
    + rewrite (proj2 (strip_suffix_Some _ _ n)) by done. by rewrite split_on_no_sep by auto.
    + rewrite (proj2 (strip_suffix_Some _ _ (a ++ lit "," ++ b))) by by rewrite <- !app_assoc.
      change (a ++ lit "," ++ b) with (a ++ 44%N :: b). rewrite split_on_app by auto.
      rewrite split_on_no_sep by auto. by rewrite Ha, Hb.
Qed.

Lemma branch_flag_harmless a : is_read_only_branch_flag a = true -> harmless_argument a.
Proof.
  unfold is_read_only_branch_flag, harmless_argument. intros [H|H]%orb_true_iff.
  - apply bool_decide_eq_true in H. rewrite !elem_of_cons, elem_of_nil in H.
    repeat destruct H as [-> | H]; try done; vm_compute; reflexivity.
  - apply starts_with_true in H as [r ->]. vm_compute. reflexivity.
Qed.

Lemma branch_scan saw args :
  branch_flags_scan saw args = true
  <-> Forall (fun a => is_read_only_branch_flag a = true) args /\ (args = [] -> saw = true).
Proof.
  revert saw. induction args as [|a args IH]; intros saw; cbn [branch_flags_scan].
  - split; [intros ->; split; [constructor | done] | intros [_ H]; by apply H].
  - rewrite Forall_cons. destruct (is_read_only_branch_flag a); [rewrite IH|]; naive_solver.
Qed.

Lemma branch_read_only args :
  git_subcommand_args_are_read_only args && git_branch_is_read_only args = true
  <-> Forall (fun a => is_read_only_branch_flag a = true) args.
Proof.
  unfold git_subcommand_args_are_read_only. rewrite andb_true_iff, existsb_Forall_false.
  assert (git_branch_is_read_only args = true <-> Forall (fun a => is_read_only_branch_flag a = true) args) as ->.
  { destruct args as [|a args]; [split; [constructor | done]|]. unfold git_branch_is_read_only.
    rewrite branch_scan. naive_solver. }
  split; [by intros [_ ?]|]. intros H. split; [|done].
  eapply Forall_impl; [exact H|]. intros a. apply branch_flag_harmless.
Qed.

(** Both kinds of git query. *)
Definition git_query (sub : str) (args : list str) : Prop :=
  (sub ∈ [lit "status"; lit "log"; lit "diff"; lit "show"] /\ Forall harmless_argument args)
  \/ (sub = lit "branch" /\ Forall (fun a => is_read_only_branch_flag a = true) args).

Lemma git_query_args sub args :
  (if is_one_of [lit "status"; lit "log"; lit "diff"; lit "show"] sub
   then git_subcommand_args_are_read_only args
   else if bool_decide (sub = lit "branch")
   then git_subcommand_args_are_read_only args && git_branch_is_read_only args
   else false) = true <-> git_query sub args.
Proof.
  unfold git_query, is_one_of. destruct (bool_decide_reflect (sub ∈ [lit "status"; lit "log"; lit "diff"; lit "show"])) as [Hin|Hin].
  - unfold git_subcommand_args_are_read_only. rewrite existsb_Forall_false.
    split; [auto|]. intros [[_ ?]|[-> _]]; [done|]. exfalso. revert Hin. rewrite !elem_of_cons, elem_of_nil.
    vm_compute. naive_solver.
  - case_bool_decide; [rewrite branch_read_only|]; naive_solver.
Qed.

Lemma safe_git_exact cmd0 rest :
  file_name cmd0 = Some (lit "git") ->
  is_safe_git_command (cmd0 :: rest) = true
  <-> exists globals sub args, rest = globals ++ sub :: args /\ Forall harmless_global globals /\ git_query sub args.
Proof.
  intros Hn. unfold is_safe_git_command, find_git_subcommand. cbn [head tail].
  unfold executable_name_lookup_key. rewrite Hn. rewrite bool_decide_eq_true_2 by done. cbn [negb].
  set (subs := [lit "status"; lit "log"; lit "diff"; lit "show"; lit "branch"]). split.
  - destruct (scan_git_args subs false 1 rest) as [[j sub]|] eqn:Hs; [|done].
    destruct (git_has_unsafe_global_option _) eqn:Hu; [done|]. rewrite git_query_args. intros Hq.
    destruct (scan_sound _ _ _ _ _ Hs Hu) as (globals & args & -> & Hg & _ & ->).
    exists globals, sub, args. split; [done|]. split; [done|].
    change (drop (S (1 + length globals)) (cmd0 :: globals ++ sub :: args))
      with (drop (S (length globals)) (globals ++ sub :: args)) in Hq.
    by rewrite drop_app_ge, Nat.sub_succ_l, Nat.sub_diag in Hq by lia.
  - intros (globals & sub & args & -> & Hg & Hq).
    assert (sub ∈ subs /\ starts_with [MINUS] sub = false) as [Hsub Hm].
    { destruct Hq as [[Hin _]|[-> _]]; [|split; [set_solver | by vm_compute]].
      split; [set_solver|]. rewrite !elem_of_cons, elem_of_nil in Hin.
      repeat destruct Hin as [-> | Hin]; try done; by vm_compute. }
    rewrite scan_complete by done.
    replace (1 + length globals - 1) with (length globals) by lia. rewrite take_app_length.
    assert (git_has_unsafe_global_option globals = false) as ->.
    { apply negb_true_iff, existsb_Forall_false. eapply Forall_impl; [exact Hg|]. by intros ? [_ ?]. }
    apply git_query_args.
    change (drop (S (1 + length globals)) (cmd0 :: globals ++ sub :: args))
      with (drop (S (length globals)) (globals ++ sub :: args)).
    by rewrite drop_app_ge, Nat.sub_succ_l, Nat.sub_diag by lia.
Qed.

Lemma safe_sed_exact cmd0 rest :
  is_safe_sed (cmd0 :: rest) = true
  <-> exists range files, rest = lit "-n" :: range :: files /\ sed_range range /\ length files <= 1.
Proof.
  unfold is_safe_sed. rewrite !andb_true_iff, Nat.leb_le, bool_decide_eq_true. split.
  - intros [[Hl Hf] Hr]. destruct rest as [|flag [|range files]]; simplify_eq/=.
    exists range, files. split; [done|]. split; [by apply sed_arg_range | lia].
  - intros (range & files & -> & Hr & Hl). simpl. split; [split; [lia | done]|]. by apply sed_arg_range.
Qed.

Lemma find_options_not_find a : a ∈ UNSAFE_FIND_OPTIONS -> file_name a <> Some (lit "find").
Proof.
  assert (forallb (fun o => negb (bool_decide (file_name o = Some (lit "find")))) UNSAFE_FIND_OPTIONS = true) as H
    by by vm_compute.
  rewrite forallb_forall in H. intros Hin. apply list_elem_of_In, H, negb_true_iff in Hin.
  by apply bool_decide_eq_false in Hin.
Qed.

Lemma safe_find_exact cmd0 args :
  file_name cmd0 = Some (lit "find") ->
  negb (existsb (is_one_of UNSAFE_FIND_OPTIONS) (cmd0 :: args)) = true
  <-> Forall (fun a => a ∉ UNSAFE_FIND_OPTIONS) args.
Proof.
  intros Hn. rewrite existsb_Forall_false, Forall_cons. unfold is_one_of.
  assert (forall l, Forall (fun a => bool_decide (a ∈ UNSAFE_FIND_OPTIONS) = false) l
                    <-> Forall (fun a => a ∉ UNSAFE_FIND_OPTIONS) l) as ->.
  { intros l. apply Forall_iff. intros a. apply bool_decide_eq_false. }
  rewrite bool_decide_eq_false. split; [by intros [_ ?]|]. intros H. split; [|done].
  intros Hin. by apply find_options_not_find in Hin.
Qed.

(** The decision for an executable of a known name. *)
Lemma named_safe linux cmd0 args name :
  file_name cmd0 = Some name ->
  is_safe_to_call_with_exec linux (cmd0 :: args)
  = if linux && is_one_of LINUX_ONLY_SAFE name then true
    else if is_one_of ALWAYS_SAFE name then true
    else if bool_decide (name = lit "base64") then negb (existsb is_unsafe_base64_option args)
    else if bool_decide (name = lit "find") then negb (existsb (is_one_of UNSAFE_FIND_OPTIONS) (cmd0 :: args))
    else if bool_decide (name = lit "rg") then negb (existsb is_unsafe_ripgrep_option (cmd0 :: args))
    else if bool_decide (name = lit "git") then is_safe_git_command (cmd0 :: args)
    else bool_decide (name = lit "sed") && is_safe_sed (cmd0 :: args).
Proof. intros Hn. unfold is_safe_to_call_with_exec, executable_name_lookup_key. by rewrite Hn. Qed.

Lemma safe_exec_sound linux command :
  is_safe_to_call_with_exec linux command = true -> accepted linux command.
Proof.
  destruct command as [|cmd0 args]; [done|].
  destruct (file_name cmd0) as [name|] eqn:Hn.
  2:{ unfold is_safe_to_call_with_exec, executable_name_lookup_key. by rewrite Hn. }
  rewrite (named_safe _ _ _ _ Hn). unfold is_one_of at 1 2.
  destruct (linux && _) eqn:El.
  { apply andb_true_iff in El as [-> El%bool_decide_eq_true]. intros _. eapply accepted_plain; eauto. }
  destruct (bool_decide_reflect (name ∈ ALWAYS_SAFE)); [intros _; eapply accepted_plain; eauto|].
  destruct (bool_decide_reflect (name = lit "base64")) as [-> | _].
  { intros H%existsb_Forall_false. by apply accepted_base64. }
  destruct (bool_decide_reflect (name = lit "find")) as [-> | _].
  { intros H%safe_find_exact; [|done]. by apply accepted_find. }
  destruct (bool_decide_reflect (name = lit "rg")) as [-> | _].
  { intros H%existsb_Forall_false. by apply accepted_rg. }
  destruct (bool_decide_reflect (name = lit "git")) as [-> | _].
  { intros (globals & sub & rest & -> & Hg & [[Hs Hq]|[-> Hq]])%safe_git_exact; [| |done].
    - by apply accepted_git.
    - by apply accepted_git_branch. }
  destruct (bool_decide_reflect (name = lit "sed")) as [-> | _]; [|done]. cbn [andb].
  intros (range & files & -> & Hr & Hl)%safe_sed_exact. by apply accepted_sed.
Qed.

Lemma safe_exec_complete linux command :
  accepted linux command -> is_safe_to_call_with_exec linux command = true.
Proof.
  destruct 1 as [cmd0 args name Hn Hs|cmd0 args Hn H|cmd0 args Hn H|cmd0 args Hn H
                |cmd0 globals sub args Hn Hg Hs H|cmd0 globals args Hn Hg H|cmd0 range files Hn Hr Hl];
    rewrite (named_safe _ _ _ _ Hn).
  1:{ unfold is_one_of at 1 2. destruct Hs as [Hs|[-> Hs]].
      - rewrite (bool_decide_eq_true_2 (name ∈ ALWAYS_SAFE)) by done. by destruct (_ && _).
      - rewrite (bool_decide_eq_true_2 (name ∈ LINUX_ONLY_SAFE)) by done. done. }
  all: match goal with
       | |- (if ?l && is_one_of LINUX_ONLY_SAFE ?n then _ else _) = _ =>
           change (is_one_of LINUX_ONLY_SAFE n) with false; rewrite andb_false_r;
           change (is_one_of ALWAYS_SAFE n) with false
       end; cbn beta iota; rewrite ?bool_decide_eq_false_2, ?bool_decide_eq_true_2 by done.
  - by apply existsb_Forall_false.
  - by apply safe_find_exact.
  - by apply existsb_Forall_false.
  - apply safe_git_exact; [done|]. exists globals, sub, args. split; [done|]. split; [done|]. by left.
  - apply safe_git_exact; [done|]. exists globals, (lit "branch"), args. split; [done|]. split; [done|]. by right.
  - apply safe_sed_exact. by exists range, files.
Qed.

(** *** The forms, spelled out *)

(** The option on its own, or with a value after an equals sign. *)
Definition sets_option (option arg : str) : Prop := arg = option \/ exists v, arg = option ++ lit "=" ++ v.

Definition reading_names : list str :=
  [lit "cat"; lit "cd"; lit "cut"; lit "echo"; lit "expr"; lit "false"; lit "grep"; lit "head"; lit "id"; lit "ls"; lit "nl"; lit "paste";
   lit "pwd"; lit "rev"; lit "seq"; lit "stat"; lit "tail"; lit "tr"; lit "true"; lit "uname"; lit "uniq"; lit "wc"; lit "which"; lit "whoami"].

(** [base64] writes to a file. *)
Definition base64_writes (arg : str) : Prop := (exists file, arg = lit "-o" ++ file) \/ sets_option (lit "--output") arg.

(** [find] runs a command, deletes or writes to a file. *)
Definition find_acts (arg : str) : Prop :=
  arg ∈ [lit "-exec"; lit "-execdir"; lit "-ok"; lit "-okdir"] \/ arg = lit "-delete"
  \/ arg ∈ [lit "-fls"; lit "-fprint"; lit "-fprint0"; lit "-fprintf"].

(** [rg] runs another program. *)
Definition rg_runs (arg : str) : Prop :=
  arg = lit "--search-zip" \/ arg = lit "-z" \/ sets_option (lit "--pre") arg \/ sets_option (lit "--hostname-bin") arg.

(** A cluster of short flags with the [z] of [--search-zip]. *)
Definition rg_zip_cluster (arg : str) : Prop := exists flags, arg = MINUS :: flags /\ head flags <> Some MINUS /\ 122%N ∈ flags.

(** A global option by which git works elsewhere, on another configuration, or runs a pager or another program. *)
Definition git_redirects (arg : str) : Prop :=
  (exists v, arg = lit "-C" ++ v) \/ (exists v, arg = lit "-c" ++ v) \/ arg = lit "-p" \/ arg = lit "--paginate"
  \/ Exists (fun o => sets_option o arg)
       [lit "--config-env"; lit "--exec-path"; lit "--git-dir"; lit "--namespace"; lit "--super-prefix"; lit "--work-tree"].

(** An option by which a git query writes to a file or runs another program. *)
Definition git_acts (arg : str) : Prop :=
  sets_option (lit "--output") arg \/ arg = lit "--ext-diff" \/ arg = lit "--textconv" \/ sets_option (lit "--exec") arg.

Definition lists_branches (arg : str) : Prop :=
  arg ∈ [lit "--list"; lit "-l"; lit "--show-current"; lit "-a"; lit "--all"; lit "-r"; lit "--remotes"; lit "-v"; lit "-vv"; lit "--verbose"]
  \/ exists f, arg = lit "--format=" ++ f.

Inductive runs_unasked (linux : bool) : list str -> Prop :=
| unasked_plain cmd0 args name :
    file_name cmd0 = Some name -> name ∈ reading_names \/ (linux = true /\ name ∈ [lit "numfmt"; lit "tac"]) ->
    runs_unasked linux (cmd0 :: args)
| unasked_base64 cmd0 args :
    file_name cmd0 = Some (lit "base64") -> Forall (fun a => ~ base64_writes a) args -> runs_unasked linux (cmd0 :: args)
| unasked_find cmd0 args :
    file_name cmd0 = Some (lit "find") -> Forall (fun a => ~ find_acts a) args -> runs_unasked linux (cmd0 :: args)
| unasked_rg cmd0 args :
    file_name cmd0 = Some (lit "rg") -> Forall (fun a => ~ rg_runs a) (cmd0 :: args) -> runs_unasked linux (cmd0 :: args)
| unasked_git cmd0 globals sub args :
    file_name cmd0 = Some (lit "git") -> Forall (fun a => (exists f, a = MINUS :: f) /\ ~ git_redirects a) globals ->
    sub ∈ [lit "status"; lit "log"; lit "diff"; lit "show"] -> Forall (fun a => ~ git_acts a) args ->
    runs_unasked linux (cmd0 :: globals ++ sub :: args)
| unasked_git_branch cmd0 globals args :
    file_name cmd0 = Some (lit "git") -> Forall (fun a => (exists f, a = MINUS :: f) /\ ~ git_redirects a) globals ->
    Forall lists_branches args -> runs_unasked linux (cmd0 :: globals ++ lit "branch" :: args)
| unasked_sed cmd0 range files :
    file_name cmd0 = Some (lit "sed") -> sed_range range -> length files <= 1 ->
    runs_unasked linux (cmd0 :: lit "-n" :: range :: files).

(** The tests of the code are these. *)
Lemma not_iff_false (b : bool) (P : Prop) : (b = true <-> P) -> b = false <-> ~ P.
Proof. intros <-. symmetry. apply not_true_iff_false. Qed.

Lemma sets_option_test option arg :
  bool_decide (arg = option) || starts_with (option ++ lit "=") arg = true <-> sets_option option arg.
Proof.
  unfold sets_option. rewrite orb_true_iff, bool_decide_eq_true, starts_with_true.
  split; (intros [?|[v E]]; [by left | right; exists v]); by rewrite <-?app_assoc in * || rewrite app_assoc.
Qed.

Lemma base64_test arg : is_unsafe_base64_option arg = false <-> ~ base64_writes arg.
Proof.
  apply not_iff_false. unfold base64_writes, is_unsafe_base64_option, is_one_of. rewrite <-sets_option_test.
  rewrite !orb_true_iff, andb_true_iff, negb_true_iff, bool_decide_eq_false, !bool_decide_eq_true, !starts_with_true, !elem_of_cons, elem_of_nil.
  change (lit "--output" ++ lit "=") with (lit "--output="). split.
  - intros [[[-> |[-> |[]]]|Ho]|[Ho _]]; [left; exists []; done|naive_solver..].
  - intros [[file ->]|[-> |Ho]]; [|naive_solver..]. destruct (decide (lit "-o" ++ file = lit "-o")) as [E|E]; [left; left; left; exact E|].
    right. eauto.
Qed.

Lemma find_test arg : arg ∉ UNSAFE_FIND_OPTIONS <-> ~ find_acts arg.
Proof.
  apply not_iff_compat. unfold UNSAFE_FIND_OPTIONS, find_acts. rewrite !elem_of_cons, !elem_of_nil. tauto.
Qed.

Lemma rg_test arg : is_unsafe_ripgrep_option arg = false <-> ~ rg_runs arg.
Proof.
  apply not_iff_false. unfold is_unsafe_ripgrep_option, rg_runs, is_one_of. cbn [existsb].
  rewrite !orb_false_r, <-!sets_option_test, !orb_true_iff, !bool_decide_eq_true, !elem_of_cons, elem_of_nil. tauto.
Qed.

Lemma short_test option arg :
  bool_decide (arg = option) || (starts_with option arg && (str_len option <? str_len arg)) = true <-> exists v, arg = option ++ v.
Proof.
  rewrite orb_true_iff, andb_true_iff, bool_decide_eq_true, starts_with_true. split.
  - intros [-> |[? _]]; [exists []; by rewrite app_nil_r | done].
  - intros [[|c v] ->]; [left; by rewrite app_nil_r|]. right. split; [eauto|]. apply Nat.ltb_lt. unfold str_len.
    rewrite sum_list_with_app. simpl. assert (0 < utf8_char_len c) by (unfold utf8_char_len; repeat case_match; lia). lia.
Qed.

Lemma redirects_test arg : git_matches_option_pattern arg UNSAFE_GIT_GLOBAL_OPTIONS = false <-> ~ git_redirects arg.
Proof.
  apply not_iff_false. unfold git_redirects. rewrite <-!short_test, !Exists_cons, Exists_nil, <-!sets_option_test.
  unfold git_matches_option_pattern, UNSAFE_GIT_GLOBAL_OPTIONS. cbn [existsb pattern_matches].
  change (lit "--config-env" ++ lit "=") with (lit "--config-env=").
  change (lit "--exec-path" ++ lit "=") with (lit "--exec-path=").
  change (lit "--git-dir" ++ lit "=") with (lit "--git-dir=").
  change (lit "--namespace" ++ lit "=") with (lit "--namespace=").
  change (lit "--super-prefix" ++ lit "=") with (lit "--super-prefix=").
  change (lit "--work-tree" ++ lit "=") with (lit "--work-tree=").
  rewrite ?orb_true_iff, ?bool_decide_eq_true. assert (false = true <-> False) as -> by done. tauto.
Qed.

Lemma acts_test arg : git_matches_option_pattern arg UNSAFE_GIT_SUBCOMMAND_OPTIONS = false <-> ~ git_acts arg.
Proof.
  apply not_iff_false. unfold git_acts. rewrite <-!sets_option_test.
  unfold git_matches_option_pattern, UNSAFE_GIT_SUBCOMMAND_OPTIONS. cbn [existsb pattern_matches].
  change (lit "--output" ++ lit "=") with (lit "--output="). change (lit "--exec" ++ lit "=") with (lit "--exec=").
  rewrite !orb_true_iff, !bool_decide_eq_true. assert (false = true <-> False) as -> by done. tauto.
Qed.

Lemma branch_test arg : is_read_only_branch_flag arg = true <-> lists_branches arg.
Proof. unfold is_read_only_branch_flag, lists_branches, is_one_of. by rewrite orb_true_iff, bool_decide_eq_true, starts_with_true. Qed.

Lemma global_test arg : harmless_global arg <-> (exists f, arg = MINUS :: f) /\ ~ git_redirects arg.
Proof. unfold harmless_global. by rewrite redirects_test, starts_with_true. Qed.

Lemma accepted_forms linux command : accepted linux command <-> runs_unasked linux command.
Proof.
  assert (forall l, Forall harmless_global l <-> Forall (fun a => (exists f, a = MINUS :: f) /\ ~ git_redirects a) l) as Hg
    by (intros l; apply Forall_iff; intros a; apply global_test).
  assert (forall l, Forall harmless_argument l <-> Forall (fun a => ~ git_acts a) l) as Ha by (intros l; apply Forall_iff; intros a; apply acts_test).
  assert (forall l, Forall (fun a => is_read_only_branch_flag a = true) l <-> Forall lists_branches l) as Hb
    by (intros l; apply Forall_iff; intros a; apply branch_test).
  split; destruct 1.
  - by eapply unasked_plain.
  - apply unasked_base64; [done|]. eapply Forall_impl; [eassumption|]. intros a. apply base64_test.
  - apply unasked_find; [done|]. eapply Forall_impl; [eassumption|]. intros a. apply find_test.
  - apply unasked_rg; [done|]. eapply Forall_impl; [eassumption|]. intros a. apply rg_test.
  - apply unasked_git; [done|by apply Hg|done|by apply Ha].
  - apply unasked_git_branch; [done|by apply Hg|by apply Hb].
  - by apply unasked_sed.
  - by eapply accepted_plain.
  - apply accepted_base64; [done|]. eapply Forall_impl; [eassumption|]. intros a. apply base64_test.
  - apply accepted_find; [done|]. eapply Forall_impl; [eassumption|]. intros a. apply find_test.
  - apply accepted_rg; [done|]. eapply Forall_impl; [eassumption|]. intros a. apply rg_test.
  - apply accepted_git; [done|by apply Hg|done|by apply Ha].
  - apply accepted_git_branch; [done|by apply Hg|by apply Hb].
  - by apply accepted_sed.
Qed.

(** C36.  A single command runs without asking only if it is one of the listed forms: a
    name that only reads, [base64], [find] and [rg] without the options that write or
    run something, a git query whose global options are flags that redirect nothing and
    whose arguments write and run nothing, [git branch] with listing flags only, or
    [sed -n] with a line range and at most one file.  And each of these forms does run
    without asking, where for [rg] no cluster of short flags holds a [z]. *)
Theorem safe_exec_exact linux command :
  (is_safe_to_call_with_exec linux command = true -> runs_unasked linux command)
  /\ (runs_unasked linux command ->
      (forall cmd0 args, command = cmd0 :: args -> file_name cmd0 = Some (lit "rg") -> Forall (fun a => ~ rg_zip_cluster a) args) ->
      is_safe_to_call_with_exec linux command = true).
Proof.
  rewrite <-accepted_forms. split; [apply safe_exec_sound|]. intros Ha _. by apply safe_exec_complete.
Qed.

Lemma safe_exec_exact_witness :
  runs_unasked true [lit "git"; lit "--no-pager"; lit "log"; lit "-p"]
  /\ is_safe_to_call_with_exec false [lit "/usr/bin/wc"; lit "-l"] = true.
Proof.
  split.
  - apply (proj1 (safe_exec_exact true _)). vm_compute. reflexivity.
  - apply (proj2 (safe_exec_exact false _)).
    + eapply (unasked_plain false _ _ (lit "wc")); [vm_compute; reflexivity|]. left.
      apply (bool_decide_eq_true_1 _). vm_compute. reflexivity.
    + intros cmd0 args [= <- <-] E. vm_compute in E. discriminate E.
Defined.

(** Only the flag on its own is looked for: with another short flag in front of it,
    the option that makes [rg] run decompression tools passes. *)
Example clustered_zip_flag :
  map (is_safe_to_call_with_exec true) [[lit "rg"; lit "-z"; lit "x"]; [lit "rg"; lit "-iz"; lit "x"]] = [false; true].
Proof. vm_compute. reflexivity. Qed.
