(* ===== verification/AbsPath.v ===== *)
(** * Paths and absolute paths

    Models what the code uses of [std::path] on Unix and the crate
    [utils/absolute-path]: [absolutize.rs] and [AbsolutePathBuf] of [lib.rs].
    A path is the list of its components, which is what [Path] compares, orders
    and hashes; [path_new] reads it from text and [display] writes it.  The home
    directory and the working directory of the process come from [PathHost]. *)

From S2P Require Import Prelude RustStr PatchSyntax.

(** ** [std::path] *)

Inductive Component : Type := RootDir | CurDir | ParentDir | Normal (name : str).

#[export] Instance component_eq_dec : EqDecision Component.
Proof. solve_decision. Defined.

Abbreviation path := (list Component).

Definition SEP : N := 47.
Definition dot : str := [46%N].
Definition dotdot : str := [46%N; 46%N].

(** A piece between separators; [.] is skipped but at the start of a relative path. *)
Definition body_component (piece : str) : option Component :=
  if bool_decide (piece = []) || bool_decide (piece = dot) then None
  else if bool_decide (piece = dotdot) then Some ParentDir
  else Some (Normal piece).

(** [Path::new(s).components()] *)
Definition path_new (s : str) : path :=
  if bool_decide (head s = Some SEP) then RootDir :: omap body_component (split_on SEP s)
  else
    match split_on SEP s with
    | piece :: pieces =>
        (if bool_decide (piece = dot) then [CurDir] else option_list (body_component piece))
        ++ omap body_component pieces
    | [] => []
    end.

Definition is_absolute (p : path) : bool := bool_decide (head p = Some RootDir).

(** [Component::as_os_str] and the text of a path made of its components. *)
Definition as_os_str (c : Component) : str :=
  match c with RootDir => [SEP] | CurDir => dot | ParentDir => dotdot | Normal name => name end.

Definition display (p : path) : str :=
  match p with
  | RootDir :: p' => SEP :: join [SEP] (map as_os_str p')
  | _ => join [SEP] (map as_os_str p)
  end.

(** [Path::join]: an absolute path replaces, and a leading [.] is not at the start any more. *)
Definition path_join (base p : path) : path :=
  if is_absolute p then p
  else
    match base, p with
    | [], _ => p
    | _, CurDir :: p' => base ++ p'
    | _, _ => base ++ p
    end.

(** [Path::parent], [PathBuf::pop] and [PathBuf::push] of one component. *)
Definition parent (p : path) : option path :=
  match last p with
  | Some RootDir | None => None
  | Some _ => Some (removelast p)
  end.

Definition pop (p : path) : path := default p (parent p).

Definition push (p : path) (c : Component) : path :=
  match c with RootDir => [RootDir] | _ => p ++ [c] end.

Definition file_name (p : path) : option str :=
  match last p with Some (Normal name) => Some name | _ => None end.

(** [Path::strip_prefix] and [Path::starts_with], component by component. *)
Fixpoint path_strip_prefix (base p : path) : option path :=
  match base, p with
  | [], _ => Some p
  | b :: base', c :: p' => if bool_decide (b = c) then path_strip_prefix base' p' else None
  | _ :: _, [] => None
  end.

Definition path_starts_with (p base : path) : bool := bool_decide (is_Some (path_strip_prefix base p)).

(** [Path::ancestors]: the path, its parent and so on. *)
Fixpoint ancestors_fuel (n : nat) (p : path) : list path :=
  match n with
  | O => [p]
  | S n' => p :: match parent p with Some q => ancestors_fuel n' q | None => [] end
  end.

Definition ancestors (p : path) : list path := ancestors_fuel (length p) p.

(** The order of components and of paths. *)
Definition component_compare (a b : Component) : comparison :=
  match a, b with
  | RootDir, RootDir | CurDir, CurDir | ParentDir, ParentDir => Eq
  | RootDir, _ => Lt
  | _, RootDir => Gt
  | CurDir, _ => Lt
  | _, CurDir => Gt
  | ParentDir, _ => Lt
  | _, ParentDir => Gt
  | Normal x, Normal y => str_compare x y
  end.

Fixpoint path_compare (a b : path) : comparison :=
  match a, b with
  | [], [] => Eq
  | [], _ => Lt
  | _, [] => Gt
  | x :: a', y :: b' =>
      match component_compare x y with Eq => path_compare a' b' | c => c end
  end.

(** ** [absolutize.rs] *)

Fixpoint normalize_onto (normalized : path) (p : path) : path :=
  match p with
  | [] => normalized
  | CurDir :: p' => normalize_onto normalized p'
  | ParentDir :: p' => normalize_onto (pop normalized) p'
  | c :: p' => normalize_onto (push normalized c) p'
  end.

Definition normalize_path (p : path) : path :=
  match normalize_onto [] p with
  | [] => [CurDir]
  | normalized => normalized
  end.

Definition path_with_base (p base_path : path) : path := if is_absolute p then p else path_join base_path p.

Definition absolutize_from (p base_path : path) : path := normalize_path (path_with_base p base_path).

(** ** [AbsolutePathBuf] *)

Record AbsolutePathBuf : Type := mkAbs { as_path : path }.

#[export] Instance abs_eq_dec : EqDecision AbsolutePathBuf.
Proof. solve_decision. Defined.

Class PathHost : Type := {
  home_dir : option path;
  current_dir : result path io_error;
}.

Definition TILDE : str := [126%N].

Section Host.
Context `{PathHost}.

Definition absolutize (p : path) : result path io_error :=
  if is_absolute p then Ok (normalize_path p)
  else
    let? current := current_dir in
    Ok (absolutize_from p current).

(** [~] and [~/rest]. *)
Definition maybe_expand_home_directory (p : path) : path :=
  match home_dir, p with
  | Some home, Normal first :: rest => if bool_decide (first = TILDE) then path_join home rest else p
  | _, _ => p
  end.

Definition resolve_path_against_base (p base_path : path) : AbsolutePathBuf :=
  mkAbs (absolutize_from (maybe_expand_home_directory p) base_path).

Definition from_absolute_path (p : path) : result AbsolutePathBuf io_error :=
  let? absolute := absolutize (maybe_expand_home_directory p) in
  Ok (mkAbs absolute).

Definition from_absolute_path_checked (p : path) : result AbsolutePathBuf io_error :=
  let expanded := maybe_expand_home_directory p in
  if negb (is_absolute expanded)
  then Err (mkIoError InvalidInput (lit "path is not absolute: " ++ display p))
  else Ok (mkAbs (absolutize_from expanded [RootDir])).

Definition relative_to_current_dir (p : path) : result AbsolutePathBuf io_error :=
  let? current := current_dir in
  Ok (resolve_path_against_base p current).

Definition abs_join (a : AbsolutePathBuf) (p : path) : AbsolutePathBuf := resolve_path_against_base p (as_path a).

Definition abs_parent (a : AbsolutePathBuf) : option AbsolutePathBuf := mkAbs <$> parent (as_path a).
End Host.

(** ** Well-formed and normal paths *)

(** A component's name is a piece of text between separators. *)
Definition good_name (name : str) : Prop := name <> [] /\ name <> dot /\ name <> dotdot /\ SEP ∉ name.

Definition wf_component (c : Component) : Prop :=
  match c with Normal name => good_name name | _ => True end.

Definition wf_path (p : path) : Prop :=
  Forall wf_component p /\ (RootDir ∉ tail p) /\ (CurDir ∉ tail p).

(** Absolute, with names only. *)
Definition normal_path (p : path) : Prop :=
  exists names, p = RootDir :: map Normal names /\ Forall good_name names.

Definition normal (a : AbsolutePathBuf) : Prop := normal_path (as_path a).

(** *** Reading and writing *)

Lemma body_component_wf piece c : SEP ∉ piece -> body_component piece = Some c -> wf_component c /\ c <> RootDir /\ c <> CurDir.
Proof.
  unfold body_component. intros Hs H. repeat case_bool_decide; simplify_eq/=; done.
Qed.

Lemma body_components_wf pieces :
  Forall (fun piece => SEP ∉ piece) pieces ->
  Forall wf_component (omap body_component pieces) /\ (RootDir ∉ omap body_component pieces)
  /\ (CurDir ∉ omap body_component pieces).
Proof.
  rewrite !Forall_forall. intros Hp. setoid_rewrite list_elem_of_omap. split; [|split].
  - intros c (piece & Hin & Hc). apply (body_component_wf piece c (Hp _ Hin) Hc).
  - intros (piece & Hin & Hc). by destruct (body_component_wf piece _ (Hp _ Hin) Hc) as (_ & ? & _).
  - intros (piece & Hin & Hc). by destruct (body_component_wf piece _ (Hp _ Hin) Hc) as (_ & _ & ?).
Qed.

Lemma path_new_wf s : wf_path (path_new s).
Proof.
  unfold path_new, wf_path. pose proof (split_on_pieces SEP s) as Hp. case_bool_decide.
  { destruct (body_components_wf _ Hp) as (? & ? & ?). simpl. split; [by constructor | done]. }
  destruct (split_on SEP s) as [|piece pieces]; [repeat split; simpl; auto using not_elem_of_nil|].
  inversion Hp as [|? ? Hpiece Hpieces]; subst.
  destruct (body_components_wf _ Hpieces) as (Hw & Hr & Hc). case_bool_decide; simpl.
  { split; [by constructor | done]. }
  destruct (body_component piece) as [c|] eqn:Eb; simpl.
  - apply body_component_wf in Eb as [? ?]; [|done]. split; [by constructor | done].
  - split; [done|]. split; intros Hin%list_elem_of_In.
    + apply Hr, list_elem_of_In. destruct (omap body_component pieces); simpl in *; [done | by right].
    + apply Hc, list_elem_of_In. destruct (omap body_component pieces); simpl in *; [done | by right].
Qed.

Lemma path_new_relative names :
  Forall good_name names -> omap body_component names = map Normal names.
Proof.
  induction 1 as [|n names (Hn & Hd & Hdd & _) _ IH]; [done|]. csimpl.
  assert (body_component n = Some (Normal n)) as -> by (unfold body_component; by rewrite !bool_decide_false by done).
  by f_equal.
Qed.

Lemma display_normal names : display (RootDir :: map Normal names) = SEP :: join [SEP] names.
Proof. simpl. rewrite map_map. simpl. by rewrite map_id. Qed.

Lemma path_new_display p : normal_path p -> path_new (display p) = p.
Proof.
  intros (names & -> & Hn). rewrite display_normal. unfold path_new. rewrite bool_decide_true by done.
  cbn [split_on]. rewrite N.eqb_refl. simpl. f_equal.
  destruct names as [|n names]; [done|]. rewrite split_on_join; [by apply path_new_relative | done|].
  eapply Forall_impl; [exact Hn|]. by intros ? (? & ? & ? & ?).
Qed.

(** *** Prefixes *)

Lemma path_strip_prefix_Some base p r : path_strip_prefix base p = Some r <-> p = base ++ r.
Proof.
  revert p. induction base as [|b base IH]; intros [|c p]; simpl; try naive_solver.
  case_bool_decide as Hb; [subst; rewrite IH; naive_solver | naive_solver].
Qed.

Lemma path_starts_with_true p base : path_starts_with p base = true <-> exists r, p = base ++ r.
Proof.
  unfold path_starts_with. rewrite bool_decide_eq_true. split.
  - intros [r Hr%path_strip_prefix_Some]. by exists r.
  - intros [r Hr%path_strip_prefix_Some]. by exists r.
Qed.

Lemma path_starts_with_prefix p base : path_starts_with p base = true <-> base `prefix_of` p.
Proof. apply path_starts_with_true. Qed.

(** *** Normalization *)

Lemma pop_normal names :
  exists names', pop (RootDir :: map Normal names) = RootDir :: map Normal names' /\ names' `prefix_of` names.
Proof.
  destruct names as [|n names _] using rev_ind; [by exists []|]. exists names. split; [|by exists [n]].
  unfold pop, parent. rewrite map_app. simpl map. rewrite app_comm_cons, last_snoc, removelast_snoc. done.
Qed.

Lemma normalize_onto_normal names p :
  Forall good_name names -> Forall wf_component p -> RootDir ∉ p ->
  normal_path (normalize_onto (RootDir :: map Normal names) p).
Proof.
  intros Hn Hp. revert names Hn. induction Hp as [|c p Hc _ IH]; intros names Hn Hr; simpl; [by exists names|].
  apply not_elem_of_cons in Hr as [Hne Hr]. destruct c as [| | |name]; simpl.
  - done.
  - by apply IH.
  - destruct (pop_normal names) as (names' & -> & [l ->]). apply Forall_app in Hn as [? _]. by apply IH.
  - replace (map Normal names ++ [Normal name]) with (map Normal (names ++ [name])) by by rewrite map_app.
    apply IH; [|done]. apply Forall_app. split; [done | by apply Forall_singleton].
Qed.

Lemma normalize_onto_names acc names : normalize_onto acc (map Normal names) = acc ++ map Normal names.
Proof.
  revert acc. induction names as [|n names IH]; intros acc; simpl; [by rewrite app_nil_r|].
  by rewrite IH, <-app_assoc.
Qed.

Lemma normalize_absolute p : wf_path p -> is_absolute p = true -> normal_path (normalize_path p).
Proof.
  unfold is_absolute, wf_path. intros (Hw & Hr & _) Ha. boolify.
  destruct p as [|c p]; simplify_eq/=. apply Forall_cons in Hw as [_ Hw].
  destruct (normalize_onto_normal [] p) as (names & Hn & Hg); try done.
  unfold normalize_path. cbn [normalize_onto push]. simpl in Hn. rewrite Hn. by exists names.
Qed.

Lemma normalize_normal p : normal_path p -> normalize_path p = p.
Proof.
  intros (names & -> & _). unfold normalize_path. cbn [normalize_onto push]. by rewrite normalize_onto_names.
Qed.

Lemma normal_is_absolute p : normal_path p -> is_absolute p = true.
Proof. by intros (names & -> & _). Qed.

Lemma normal_wf p : normal_path p -> wf_path p.
Proof.
  intros (names & -> & Hg). repeat split; simpl.
  - constructor; [done|]. by apply Forall_fmap.
  - intros (n & ? & _)%list_elem_of_fmap. done.
  - intros (n & ? & _)%list_elem_of_fmap. done.
Qed.

(** *** The type's promise *)

(** What is taken for granted of the host: the working directory is absolute. *)
Class PathHostLaws `{PathHost} : Prop := {
  home_dir_wf home : home_dir = Some home -> wf_path home;
  current_dir_wf current : current_dir = Ok current -> wf_path current /\ is_absolute current = true;
}.

Section Normal.
Context `{PathHostLaws}.

Lemma path_join_wf base p : wf_path base -> wf_path p -> base <> [] -> wf_path (path_join base p).
Proof.
  unfold wf_path, path_join, is_absolute. intros (Hb & Hbr & Hbc) (Hp & Hpr & Hpc) Hne.
  case_bool_decide; [done|]. destruct base as [|b base]; [done|].
  assert (forall p', Forall wf_component p' -> RootDir ∉ p' -> CurDir ∉ p' ->
    Forall wf_component ((b :: base) ++ p') /\ (RootDir ∉ tail ((b :: base) ++ p')) /\ (CurDir ∉ tail ((b :: base) ++ p')))
    as Happ.
  { intros p' ? ? ?. split; [by apply Forall_app|]. simpl. by rewrite !not_elem_of_app. }
  destruct p as [|c p]; [by apply Happ; auto using not_elem_of_nil|]. simpl in *.
  apply Forall_cons in Hp as [? ?].
  destruct c; try done; apply Happ; try done; try (by constructor); by apply not_elem_of_cons.
Qed.

Lemma expand_wf p : wf_path p -> wf_path (maybe_expand_home_directory p).
Proof.
  unfold maybe_expand_home_directory. intros Hp. destruct home_dir as [home|] eqn:Eh; [|done].
  destruct p as [|[| | |n] rest]; try done. case_bool_decide; [|done].
  apply home_dir_wf in Eh. destruct Hp as (Hp & Hr & Hc). simpl in *. apply Forall_cons in Hp as [_ Hp].
  assert (wf_path rest) as Hrest.
  { repeat split; [done| |]; destruct rest; simpl in *; set_solver. }
  destruct home as [|h home]; [|by apply path_join_wf].
  unfold path_join. by case_match.
Qed.

Lemma expand_absolute p : is_absolute p = true -> maybe_expand_home_directory p = p.
Proof.
  unfold maybe_expand_home_directory, is_absolute. intros Ha. boolify.
  destruct p as [|c p]; simplify_eq/=. by destruct home_dir.
Qed.

Lemma join_absolute base p : is_absolute base = true -> is_absolute (path_join base p) = true.
Proof.
  unfold path_join. intros Hb. destruct (is_absolute p) eqn:Ep; [done|].
  unfold is_absolute in *. boolify. destruct base as [|b base]; simplify_eq/=. destruct p as [|[] p]; done.
Qed.

Lemma absolutize_from_normal p base :
  wf_path p -> wf_path base -> is_absolute base = true -> normal_path (absolutize_from p base).
Proof.
  intros Hp Hb Ha. unfold absolutize_from, path_with_base. destruct (is_absolute p) eqn:Ep.
  { by apply normalize_absolute. }
  apply normalize_absolute; [|by apply join_absolute]. apply path_join_wf; [done..|].
  by intros ->.
Qed.

Lemma absolutize_normal p q : wf_path p -> absolutize p = Ok q -> normal_path q.
Proof.
  unfold absolutize. intros Hp Hq. destruct (is_absolute p) eqn:Ep.
  { injection Hq as <-. by apply normalize_absolute. }
  destruct current_dir as [current|] eqn:Ec; [|done]. injection Hq as <-.
  apply current_dir_wf in Ec as [? ?]. by apply absolutize_from_normal.
Qed.

Lemma from_absolute_path_normal p a : wf_path p -> from_absolute_path p = Ok a -> normal a.
Proof.
  unfold from_absolute_path. intros Hp Ha.
  destruct (absolutize (maybe_expand_home_directory p)) as [q|] eqn:Eq; [|done]. injection Ha as <-.
  eapply absolutize_normal; [by apply expand_wf | done].
Qed.

Lemma resolve_normal p base : wf_path p -> normal_path base -> normal (resolve_path_against_base p base).
Proof.
  intros Hp Hb. apply absolutize_from_normal; [by apply expand_wf | by apply normal_wf | by apply normal_is_absolute].
Qed.

Lemma from_absolute_path_id p : normal_path p -> from_absolute_path p = Ok (mkAbs p).
Proof.
  intros Hp. unfold from_absolute_path, absolutize. apply normal_is_absolute in Hp as Ha.
  rewrite expand_absolute, Ha by done. by rewrite normalize_normal.
Qed.

(** C31.  The promise of [AbsolutePathBuf]: whatever text it is made from, with [~],
    [.] and [..] in it, the value is absolute and has names only; so are the
    values made from it by joining, resolving and taking the parent. Making the
    value from its own path gives it back, and so does reading what it displays. *)
Theorem absolute_paths_normal (text : str) :
  (forall a, from_absolute_path (path_new text) = Ok a -> normal a) /\
  (forall a, from_absolute_path_checked (path_new text) = Ok a -> normal a) /\
  (forall a, relative_to_current_dir (path_new text) = Ok a -> normal a) /\
  forall a, normal a ->
    normal (resolve_path_against_base (path_new text) (as_path a)) /\ normal (abs_join a (path_new text)) /\
    (forall b, abs_parent a = Some b -> normal b) /\
    from_absolute_path (as_path a) = Ok a /\ path_new (display (as_path a)) = as_path a.
Proof.
  pose proof (path_new_wf text) as Hw. split_and!.
  - intros a. by apply from_absolute_path_normal.
  - unfold from_absolute_path_checked. intros a Ha. case_match; [done|]. injection Ha as <-.
    apply absolutize_from_normal; [by apply expand_wf | by apply normal_wf; exists [] | done].
  - unfold relative_to_current_dir. intros a Ha. destruct current_dir as [current|] eqn:Ec; [|done].
    injection Ha as <-. apply current_dir_wf in Ec as [? ?]. apply absolutize_from_normal; [by apply expand_wf | done..].
  - intros a Ha. split_and!; [by apply resolve_normal | by apply resolve_normal | | | by apply path_new_display].
    + destruct a as [p]. destruct Ha as (names & Hp & Hg). simpl in Hp. subst p. unfold abs_parent, parent.
      destruct names as [|n names _] using rev_ind; [done|]. simpl as_path. rewrite map_app. simpl map.
      rewrite app_comm_cons, last_snoc, removelast_snoc. intros b [= <-]. apply Forall_app in Hg as [? _]. by exists names.
    + destruct a as [p]. by apply from_absolute_path_id.
Qed.
End Normal.

Module AbsPathDemo.
(** A home directory and a working directory. *)
#[export] Instance demo_paths : PathHost := {|
  home_dir := Some (path_new (lit "/home/ann"));
  current_dir := Ok (path_new (lit "/work/repo"));
|}.
#[export] Instance demo_paths_laws : PathHostLaws.
Proof. split; [intros home [= <-] | intros current [= <-]; split; [|done]]; apply path_new_wf. Qed.
End AbsPathDemo.
Import AbsPathDemo.

Example absolute_paths_examples :
  from_absolute_path (path_new (lit "~/a/./b/../c")) = Ok (mkAbs (path_new (lit "/home/ann/a/c")))
  /\ from_absolute_path (path_new (lit "../x//y")) = Ok (mkAbs (path_new (lit "/work/x/y")))
  /\ resolve_path_against_base (path_new (lit "../../../x")) (path_new (lit "/a")) = mkAbs (path_new (lit "/x"))
  /\ resolve_path_against_base (path_new (lit "..")) (path_new (lit "a")) = mkAbs [CurDir].
Proof. split_and!; vm_compute; reflexivity. Qed.

Lemma absolute_paths_normal_witness : normal (abs_join (mkAbs [RootDir; Normal (lit "work")]) (path_new (lit "a/../.git"))).
Proof.
  apply (absolute_paths_normal (lit "a/../.git")). exists [lit "work"]. split; [reflexivity|].
  apply Forall_singleton. split_and!; try discriminate. vm_compute. set_solver.
Defined.
