(* ===== verification/ExecPolicy.v ===== *)
(** * Execution policy

    Models [execpolicy/src/decision.rs], [rule.rs] and [policy.rs]: prefix rules
    on commands, rules on network hosts, and the decision they give. *)

From Stdlib Require Import ZArith Lia Sorted.
From stdpp Require Import gmap.
From S2P Require Import AbsPath Prelude RustStr.

(** ** Decisions *)

Inductive Decision : Type := Allow | Prompt | Forbidden.

#[export] Instance decision_eq_dec : EqDecision Decision.
Proof. solve_decision. Defined.

(** [Ord] as derived: the order of the constructors. *)
Definition decision_rank (d : Decision) : nat :=
  match d with Allow => 0 | Prompt => 1 | Forbidden => 2 end.
Definition decision_le (a b : Decision) : Prop := decision_rank a <= decision_rank b.
Definition decision_max (a b : Decision) : Decision :=
  if decision_rank a <=? decision_rank b then b else a.

(** [crate::error::Error], the errors of these files. *)
Inductive policy_error : Type :=
  | InvalidDecision (raw : str)
  | InvalidPattern (message : str)
  | InvalidRule (message : str)
  | ExampleDidNotMatch (rules examples : list str)
  | ExampleDidMatch (rule example : str).

Definition parse_decision (raw : str) : result Decision policy_error :=
  if bool_decide (raw = lit "allow") then Ok Allow
  else if bool_decide (raw = lit "prompt") then Ok Prompt
  else if bool_decide (raw = lit "forbidden") then Ok Forbidden
  else Err (InvalidDecision raw).

(** ** Prefix rules *)

Inductive PatternToken : Type :=
  | Single (value : str)
  | Alts (alternatives : list str).

Definition token_matches (t : PatternToken) (token : str) : bool :=
  match t with
  | Single expected => bool_decide (expected = token)
  | Alts alternatives => existsb (fun alt => bool_decide (alt = token)) alternatives
  end.

Record PrefixPattern : Type := mkPattern { first : str; rest : list PatternToken }.

(** The [zip] stops with the shorter of the two lists. *)
Fixpoint zip_all (ts : list PatternToken) (cmd : list str) : bool :=
  match ts, cmd with
  | t :: ts', c :: cmd' => token_matches t c && zip_all ts' cmd'
  | _, _ => true
  end.

Definition matches_prefix (p : PrefixPattern) (cmd : list str) : option (list str) :=
  let pattern_length := length (rest p) + 1 in
  match cmd with
  | [] => None
  | c0 :: _ =>
      if (length cmd <? pattern_length) || negb (bool_decide (c0 = first p)) then None
      else if zip_all (rest p) (take (pattern_length - 1) (drop 1 cmd))
      then Some (take pattern_length cmd)
      else None
  end.

Record PrefixRule : Type := mkPrefixRule {
  pattern : PrefixPattern;
  rule_decision : Decision;
  justification : option str;
}.

(** ** Network rules *)

Inductive NetworkRuleProtocol : Type := Http | Https | Socks5Tcp | Socks5Udp.

Definition parse_protocol (raw : str) : result NetworkRuleProtocol policy_error :=
  if bool_decide (raw = lit "http") then Ok Http
  else if bool_decide (raw = lit "https") || bool_decide (raw = lit "https_connect")
          || bool_decide (raw = lit "http-connect") then Ok Https
  else if bool_decide (raw = lit "socks5_tcp") then Ok Socks5Tcp
  else if bool_decide (raw = lit "socks5_udp") then Ok Socks5Udp
  else Err (InvalidRule
    (lit "network_rule protocol must be one of http, https, socks5_tcp, socks5_udp (got "
     ++ raw ++ lit ")")).

Definition as_policy_string (p : NetworkRuleProtocol) : str :=
  match p with
  | Http => lit "http"
  | Https => lit "https"
  | Socks5Tcp => lit "socks5_tcp"
  | Socks5Udp => lit "socks5_udp"
  end.

Record NetworkRule : Type := mkNetworkRule {
  host : str;
  protocol : NetworkRuleProtocol;
  net_decision : Decision;
  net_justification : option str;
}.

Definition COLON_ : N := 58.
Definition STAR : N := 42.
Definition DOT : N := 46.

Definition all_digits (s : str) : bool := negb (is_empty s) && forallb is_ascii_digit s.

(** The host without brackets and port. *)
Definition strip_port (raw host : str) : result str policy_error :=
  match strip_prefix (lit "[") host with
  | Some stripped =>
      match split_once 93%N stripped with
      | None => Err (InvalidRule (lit "network_rule host has an invalid bracketed IPv6 literal"))
      | Some (inside, rest) =>
          let port_ok :=
            match strip_prefix [COLON_] rest with Some port => all_digits port | None => false end in
          if negb (is_empty rest) && negb port_ok
          then Err (InvalidRule (lit "network_rule host contains an unsupported suffix: " ++ raw))
          else Ok inside
      end
  | None =>
      if (count_occ N.eq_dec host COLON_ =? 1)
      then match rsplit_once COLON_ host with
           | Some (candidate, port) =>
               if negb (is_empty candidate) && all_digits port then Ok candidate else Ok host
           | None => Ok host
           end
      else Ok host
  end.

Definition normalize_network_rule_host (raw : str) : result str policy_error :=
  let host := trim raw in
  if is_empty host then Err (InvalidRule (lit "network_rule host cannot be empty"))
  else if contains (lit "://") host || contains_char 47 host || contains_char 63 host
          || contains_char 35 host
  then Err (InvalidRule
         (lit "network_rule host must be a hostname or IP literal (without scheme or path)"))
  else
    let? host := strip_port raw host in
    let normalized := to_ascii_lowercase (trim (trim_end_matches DOT host)) in
    if is_empty normalized then Err (InvalidRule (lit "network_rule host cannot be empty"))
    else if contains_char STAR normalized
    then Err (InvalidRule
           (lit "network_rule host must be a specific host; wildcards are not allowed"))
    else if existsb is_whitespace normalized
    then Err (InvalidRule (lit "network_rule host cannot contain whitespace"))
    else Ok normalized.

(** ** Policies *)

(** What the policy uses of [AbsolutePathBuf]: reading one from text, which resolves a
    relative name against the working directory, and the last component of it. *)
Class AbsPathOps (P : Type) : Type := {
  abs_try_from : str -> option P;
  abs_file_name : P -> option str;
}.

(** The crate [utils/absolute-path]: [TryFrom<String>] and [Path::file_name]. *)
#[export] Instance absolute_path_ops `{PathHost} : AbsPathOps AbsolutePathBuf := {|
  abs_try_from text := result_ok (from_absolute_path (path_new text));
  abs_file_name program := AbsPath.file_name (as_path program);
|}.

(** [MultiMap<String, RuleRef>]: the rules of a program in insertion order. *)
Abbreviation rule_map := (gmap str (list PrefixRule)).

Section Policy.
Context {P : Type} `{EqDecision P, AbsPathOps P}.

Inductive RuleMatch : Type :=
  | PrefixRuleMatch (matched_prefix : list str) (decision : Decision)
      (resolved_program : option P) (justification : option str)
  | HeuristicsRuleMatch (command : list str) (decision : Decision).

Definition match_decision (m : RuleMatch) : Decision :=
  match m with PrefixRuleMatch _ d _ _ => d | HeuristicsRuleMatch _ d => d end.

Definition with_resolved_program (m : RuleMatch) (p : P) : RuleMatch :=
  match m with
  | PrefixRuleMatch prefix d _ j => PrefixRuleMatch prefix d (Some p) j
  | other => other
  end.

(** [Rule::matches] of a [PrefixRule], the only implementation of [Rule]. *)
Definition rule_matches (r : PrefixRule) (cmd : list str) : option RuleMatch :=
  (fun prefix => PrefixRuleMatch prefix (rule_decision r) None (justification r))
    <$> matches_prefix (pattern r) cmd.

Definition get_vec (m : rule_map) (program : str) : option (list PrefixRule) := m !! program.
Definition multi_insert (program : str) (r : PrefixRule) (m : rule_map) : rule_map :=
  <[program := default [] (m !! program) ++ [r]]> m.

Record Policy : Type := mkPolicy {
  rules_by_program : rule_map;
  network_rules : list NetworkRule;
  host_executables_by_name : gmap str (list P);
}.

Definition empty_policy : Policy := mkPolicy ∅ [] ∅.

Record Evaluation : Type := mkEvaluation {
  decision : Decision;
  matched_rules : list RuleMatch;
}.

(** [Iterator::max] of the decisions; [None] is the panic of [expect]. *)
Fixpoint max_decision (ds : list Decision) : option Decision :=
  match ds with
  | [] => None
  | d :: ds' =>
      match max_decision ds' with Some e => Some (decision_max d e) | None => Some d end
  end.

Definition from_matches (ms : list RuleMatch) : option Evaluation :=
  let! d := max_decision (map match_decision ms) in Some (mkEvaluation d ms).

Definition is_match (e : Evaluation) : bool :=
  existsb (fun m => match m with HeuristicsRuleMatch _ _ => false | _ => true end)
    (matched_rules e).

Definition executable_lookup_key (raw : str) : str := raw.

Definition match_exact_rules (p : Policy) (cmd : list str) : option (list RuleMatch) :=
  let! first := head cmd in
  Some (match get_vec (rules_by_program p) first with
        | Some rules => omap (fun r => rule_matches r cmd) rules
        | None => []
        end).

Definition match_host_executable_rules (p : Policy) (cmd : list str) : list RuleMatch :=
  match cmd with
  | [] => []
  | first :: tail =>
      match abs_try_from first with
      | None => []
      | Some program =>
          match executable_lookup_key <$> abs_file_name program with
          | None => []
          | Some basename =>
              match get_vec (rules_by_program p) basename with
              | None => []
              | Some rules =>
                  if match host_executables_by_name p !! basename with
                     | Some paths => negb (existsb (fun q => bool_decide (q = program)) paths)
                     | None => false
                     end
                  then []
                  else map (fun m => with_resolved_program m program)
                         (omap (fun r => rule_matches r (basename :: tail)) rules)
              end
          end
      end
  end.

Definition non_empty {A} (l : list A) : option (list A) :=
  match l with [] => None | _ => Some l end.

Definition matches_for_command_with_options (p : Policy) (cmd : list str)
    (heuristics_fallback : option (list str -> Decision)) (resolve_host_executables : bool)
    : list RuleMatch :=
  let exact := match match_exact_rules p cmd with Some ms => non_empty ms | None => None end in
  let matched :=
    match exact with
    | Some ms => ms
    | None => if resolve_host_executables then match_host_executable_rules p cmd else []
    end in
  match matched, heuristics_fallback with
  | [], Some fallback => [HeuristicsRuleMatch cmd (fallback cmd)]
  | ms, _ => ms
  end.

Definition check_with_options (p : Policy) (cmd : list str) (fallback : list str -> Decision)
    (resolve_host_executables : bool) : option Evaluation :=
  from_matches (matches_for_command_with_options p cmd (Some fallback) resolve_host_executables).

Definition check (p : Policy) (cmd : list str) (fallback : list str -> Decision)
    : option Evaluation :=
  check_with_options p cmd fallback false.

Definition check_multiple_with_options (p : Policy) (commands : list (list str))
    (fallback : list str -> Decision) (resolve_host_executables : bool) : option Evaluation :=
  from_matches (commands ≫= fun cmd =>
    matches_for_command_with_options p cmd (Some fallback) resolve_host_executables).

Definition check_multiple (p : Policy) (commands : list (list str))
    (fallback : list str -> Decision) : option Evaluation :=
  check_multiple_with_options p commands fallback false.

(** *** Changing a policy *)

Definition add_prefix_rule (prefix : list str) (d : Decision) (p : Policy)
    : result Policy policy_error :=
  match prefix with
  | [] => Err (InvalidPattern (lit "prefix cannot be empty"))
  | first_token :: rest =>
      let rule := mkPrefixRule (mkPattern first_token (map Single rest)) d None in
      Ok (mkPolicy (multi_insert first_token rule (rules_by_program p)) (network_rules p)
            (host_executables_by_name p))
  end.

Definition add_network_rule (h : str) (proto : NetworkRuleProtocol) (d : Decision)
    (j : option str) (p : Policy) : result Policy policy_error :=
  let? h := normalize_network_rule_host h in
  if match j with Some raw => is_empty (trim raw) | None => false end
  then Err (InvalidRule (lit "justification cannot be empty"))
  else Ok (mkPolicy (rules_by_program p) (network_rules p ++ [mkNetworkRule h proto d j])
             (host_executables_by_name p)).

Definition set_host_executable_paths (n : str) (paths : list P) (p : Policy) : Policy :=
  mkPolicy (rules_by_program p) (network_rules p) (<[n := paths]> (host_executables_by_name p)).

Definition merge_rules (base overlay : rule_map) : rule_map :=
  map_fold (fun program rules acc => fold_left (fun acc r => multi_insert program r acc) rules acc)
    base overlay.

Definition merge_overlay (p overlay : Policy) : Policy :=
  mkPolicy (merge_rules (rules_by_program p) (rules_by_program overlay))
    (network_rules p ++ network_rules overlay)
    (host_executables_by_name overlay ∪ host_executables_by_name p).

(** *** Compiled views *)

Definition retain_not (h : str) (l : list str) : list str :=
  List.filter (fun e => negb (bool_decide (e = h))) l.

Definition upsert_domain (entries : list str) (h : str) : list str := retain_not h entries ++ [h].

Definition apply_network_rule (s : list str * list str) (r : NetworkRule) : list str * list str :=
  let '(allowed, denied) := s in
  match net_decision r with
  | Allow => (upsert_domain allowed (host r), retain_not (host r) denied)
  | Forbidden => (retain_not (host r) allowed, upsert_domain denied (host r))
  | Prompt => (allowed, denied)
  end.

Definition compiled_network_domains (p : Policy) : list str * list str :=
  fold_left apply_network_rule (network_rules p) ([], []).

Definition render_pattern_token (t : PatternToken) : str :=
  match t with
  | Single value => value
  | Alts alternatives => lit "[" ++ join (lit "|") alternatives ++ lit "]"
  end.

Fixpoint prefix_compare (a b : list str) : comparison :=
  match a, b with
  | [], [] => Eq
  | [], _ => Lt
  | _, [] => Gt
  | x :: a', y :: b' => match str_compare x y with Eq => prefix_compare a' b' | c => c end
  end.

Definition prefix_le (a b : list str) : bool :=
  match prefix_compare a b with Gt => false | _ => true end.

Definition allowed_prefix (r : PrefixRule) : option (list str) :=
  if bool_decide (rule_decision r = Allow)
  then Some (first (pattern r) :: map render_pattern_token (rest (pattern r)))
  else None.

Definition get_allowed_prefixes (p : Policy) : list (list str) :=
  dedup_adjacent (stable_sort prefix_le
    (omap allowed_prefix (map_to_list (rules_by_program p) ≫= snd))).

(** *** Examples in a policy file *)

(** [shlex::try_join] and the [Debug] forms are parameters. *)
Context (try_join : list str -> option str) (debug_rule : PrefixRule -> str)
  (debug_match : RuleMatch -> str).

Definition render_example (example : list str) : str :=
  default (lit "unable to render example") (try_join example).

Definition validate_match_examples (p : Policy) (rules : list PrefixRule)
    (examples : list (list str)) : result unit policy_error :=
  let unmatched := List.filter (fun e =>
    match matches_for_command_with_options p e None true with [] => true | _ => false end)
    examples in
  match unmatched with
  | [] => Ok tt
  | _ => Err (ExampleDidNotMatch (map debug_rule rules) (map render_example unmatched))
  end.

Fixpoint validate_not_match_examples (p : Policy) (examples : list (list str))
    : result unit policy_error :=
  match examples with
  | [] => Ok tt
  | e :: examples' =>
      match matches_for_command_with_options p e None true with
      | m :: _ => Err (ExampleDidMatch (debug_match m) (render_example e))
      | [] => validate_not_match_examples p examples'
      end
  end.
End Policy.
Arguments RuleMatch P : clear implicits.
Arguments Policy P : clear implicits.
Arguments Evaluation P : clear implicits.

(** ** Decisions and their maximum *)

Lemma decision_max_l a b : decision_le a (decision_max a b).
Proof. by destruct a, b; unfold decision_le; simpl; lia. Qed.

Lemma decision_max_r a b : decision_le b (decision_max a b).
Proof. by destruct a, b; unfold decision_le; simpl; lia. Qed.

Lemma decision_max_choice a b : decision_max a b = a \/ decision_max a b = b.
Proof. unfold decision_max. case_goal; auto. Qed.

Lemma decision_le_trans a b c : decision_le a b -> decision_le b c -> decision_le a c.
Proof. unfold decision_le. lia. Qed.

Lemma decision_le_antisym a b : decision_le a b -> decision_le b a -> a = b.
Proof. unfold decision_le. destruct a, b; simpl; lia || done. Qed.

Lemma max_decision_spec ds d :
  max_decision ds = Some d -> d ∈ ds /\ forall e, e ∈ ds -> decision_le e d.
Proof.
  revert d. induction ds as [|x ds IH]; intros d; simpl; [done|].
  destruct (max_decision ds) as [y|] eqn:E; intros [= <-].
  - destruct (IH y eq_refl) as [Hy Hle]. split.
    + destruct (decision_max_choice x y) as [-> | ->]; set_solver.
    + intros e [-> |He]%elem_of_cons; [apply decision_max_l|].
      eapply decision_le_trans; [by apply Hle|apply decision_max_r].
  - split; [set_solver|]. intros e [-> |He]%elem_of_cons; [unfold decision_le; lia|].
    destruct ds as [|z ds]; [by apply elem_of_nil in He|]. simpl in E. by case_hyp E.
Qed.

Lemma max_decision_total ds : ds <> [] -> is_Some (max_decision ds).
Proof. destruct ds as [|d ds]; [done|]. simpl. case_goal; by eauto. Qed.

(** ** Prefix patterns *)

Definition tokens_match (ts : list PatternToken) (toks : list str) : Prop :=
  Forall2 (fun t tok => token_matches t tok = true) ts toks.

Lemma zip_all_spec ts toks :
  length toks = length ts -> zip_all ts toks = true <-> tokens_match ts toks.
Proof.
  unfold tokens_match. revert toks.
  induction ts as [|t ts IH]; intros [|tok toks]; simpl; try done.
  intros [= Hl]. rewrite andb_true_iff, IH by done. split.
  - intros [? ?]. by constructor.
  - by inversion 1.
Qed.

(** A pattern matches the commands that start with its first word and one word
    per further token, and returns that prefix. *)
Lemma matches_prefix_spec p cmd prefix :
  matches_prefix p cmd = Some prefix <->
  exists toks tail, cmd = first p :: toks ++ tail /\ tokens_match (rest p) toks /\
    prefix = first p :: toks.
Proof.
  unfold matches_prefix. destruct cmd as [|c0 cmd]; [naive_solver|].
  assert (length (rest p) + 1 = S (length (rest p))) as -> by lia.
  replace (S (length (rest p)) - 1) with (length (rest p)) by lia. simpl.
  split.
  - intros Hm. repeat case_hyp Hm. boolify. injection Hm as <-. subst c0.
    exists (take (length (rest p)) cmd), (drop (length (rest p)) cmd).
    rewrite take_drop. split; [done|]. split; [|done].
    apply zip_all_spec; [|done]. rewrite length_take. lia.
  - intros (toks & tail & [= -> ->] & Ht & ->).
    assert (length toks = length (rest p)) as Hl by (symmetry; by eapply Forall2_length).
    rewrite length_app, Hl. rewrite bool_decide_true by done.
    replace (S (length (rest p) + length tail) <? S (length (rest p))) with false
      by (symmetry; apply Nat.ltb_ge; lia). simpl.
    rewrite drop_0, (take_app_length' toks tail (length (rest p))) by done.
    by rewrite (proj2 (zip_all_spec (rest p) toks Hl) Ht).
Qed.

(** ** Evaluation *)

Section Evaluate.
Context {P : Type} `{EqDecision P, AbsPathOps P}.
Implicit Types (p q : Policy P) (fb : list str -> Decision).

Lemma matches_non_empty p cmd fb b :
  matches_for_command_with_options p cmd (Some fb) b <> [].
Proof. unfold matches_for_command_with_options. repeat case_goal; done. Qed.

Lemma from_matches_total (ms : list (RuleMatch P)) :
  ms <> [] -> exists e, from_matches ms = Some e /\ matched_rules e = ms /\
    (exists m, m ∈ ms /\ match_decision m = decision e) /\
    (forall m, m ∈ ms -> decision_le (match_decision m) (decision e)).
Proof.
  intros Hne. unfold from_matches.
  destruct (max_decision_total (map match_decision ms)) as [d Hd]; [by destruct ms|].
  rewrite Hd. eexists. split; [done|]. split; [done|]. simpl.
  apply max_decision_spec in Hd as [Hin Hle]. split.
  - apply list_elem_of_In, in_map_iff in Hin as (m & Hm & Hin). exists m.
    split; [by apply list_elem_of_In|done].
  - intros m Hm. apply Hle. apply list_elem_of_In, in_map. by apply list_elem_of_In.
Qed.

Lemma from_matches_inv (ms : list (RuleMatch P)) e :
  from_matches ms = Some e ->
  matched_rules e = ms /\ (exists m, m ∈ ms /\ match_decision m = decision e) /\
  (forall m, m ∈ ms -> decision_le (match_decision m) (decision e)).
Proof.
  intros Hf. destruct ms as [|m ms]; [done|].
  destruct (from_matches_total (m :: ms)) as (e' & He & Hr); [done|]. naive_solver.
Qed.

(** Evaluating a command list never panics unless it is empty, and the decision
    is the strictest of the decisions of its commands. *)
Theorem check_multiple_strictest p commands fb b :
  (commands = [] -> check_multiple_with_options p commands fb b = None) /\
  (commands <> [] -> exists e, check_multiple_with_options p commands fb b = Some e /\
     (forall cmd, cmd ∈ commands -> exists e1, check_with_options p cmd fb b = Some e1 /\
        decision_le (decision e1) (decision e)) /\
     (exists cmd e1, cmd ∈ commands /\ check_with_options p cmd fb b = Some e1 /\
        decision e1 = decision e)).
Proof.
  split; [by intros ->|]. intros Hne. unfold check_multiple_with_options, check_with_options.
  assert (forall cmd, cmd ∈ commands -> exists e1,
    from_matches (matches_for_command_with_options p cmd (Some fb) b) = Some e1 /\
    (exists m, m ∈ matches_for_command_with_options p cmd (Some fb) b /\
       match_decision m = decision e1) /\
    (forall m, m ∈ matches_for_command_with_options p cmd (Some fb) b ->
       decision_le (match_decision m) (decision e1))) as Hone.
  { intros cmd _. destruct (from_matches_total _ (matches_non_empty p cmd fb b)) as (e & ? & _ & ?).
    eauto. }
  destruct (from_matches_total
    (commands ≫= (fun cmd => matches_for_command_with_options p cmd (Some fb) b)))
    as (e & He & _ & (m & Hm & Hmd) & Hle).
  { destruct commands as [|cmd cs]; [done|]. simpl. intros [Hn _]%app_eq_nil.
    by apply matches_non_empty in Hn. }
  exists e. split; [done|]. split.
  - intros cmd Hc. destruct (Hone cmd Hc) as (e1 & H1 & (m1 & Hm1 & Hd1) & _).
    exists e1. split; [done|]. rewrite <-Hd1. apply Hle. apply list_elem_of_bind. eauto.
  - apply list_elem_of_bind in Hm as (cmd & Hm & Hc).
    destruct (Hone cmd Hc) as (e1 & H1 & (m1 & Hm1 & Hd1) & Hle1).
    exists cmd, e1. split; [done|]. split; [done|]. apply decision_le_antisym.
    + rewrite <-Hd1. apply Hle. apply list_elem_of_bind. eauto.
    + rewrite <-Hmd. auto.
Qed.

(** *** Exact matches *)

(** The rules a policy keeps for a program. *)
Definition rules_of p (program : str) : list PrefixRule :=
  default [] (rules_by_program p !! program).

Definition exact_matches p (cmd : list str) : list (RuleMatch P) :=
  match cmd with
  | [] => []
  | program :: _ => omap (fun r => rule_matches r cmd) (rules_of p program)
  end.

Lemma matches_exact p cmd fb :
  matches_for_command_with_options p cmd (Some fb) false =
  match exact_matches p cmd with
  | [] => [HeuristicsRuleMatch cmd (fb cmd)]
  | ms => ms
  end.
Proof.
  unfold matches_for_command_with_options, match_exact_rules, exact_matches, rules_of, get_vec.
  destruct cmd as [|program cmd]; simpl; [done|].
  destruct (rules_by_program p !! program) as [rs|]; simpl; [|done].
  by destruct (omap _ rs).
Qed.

Lemma rule_matches_prefix_match r cmd (m : RuleMatch P) :
  rule_matches r cmd = Some m ->
  exists prefix, m = PrefixRuleMatch prefix (rule_decision r) None (justification r).
Proof. unfold rule_matches. intros (x & ? & ->)%fmap_Some. eauto. Qed.

(** A match of rules happened exactly when some rule of the program matched. *)
Lemma check_is_match p cmd fb e :
  check p cmd fb = Some e -> is_match e = true <-> exact_matches p cmd <> [].
Proof.
  unfold check, check_with_options. rewrite matches_exact. intros Hf.
  apply from_matches_inv in Hf as (Hm & _ & _). unfold is_match. rewrite Hm.
  destruct (exact_matches p cmd) as [|m ms] eqn:E; [naive_solver|].
  split; [done|]. intros _. assert (m ∈ exact_matches p cmd) as Hin by (rewrite E; set_solver).
  unfold exact_matches in Hin. destruct cmd; [by apply elem_of_nil in Hin|].
  apply list_elem_of_omap in Hin as (r & _ & (pre & ->)%rule_matches_prefix_match). done.
Qed.

Lemma check_total p cmd fb : is_Some (check p cmd fb).
Proof.
  unfold check, check_with_options.
  destruct (from_matches_total _ (matches_non_empty p cmd fb false)) as (e & -> & _). eauto.
Qed.

(** More rules for the program cannot make a matched decision laxer. *)
Lemma check_mono p q cmd fb e :
  exact_matches p cmd ⊆ exact_matches q cmd -> check p cmd fb = Some e -> is_match e = true ->
  exists e', check q cmd fb = Some e' /\ is_match e' = true /\ decision_le (decision e) (decision e').
Proof.
  intros Hsub Hp Hm. apply (check_is_match p cmd fb) in Hm as Hne; [|done].
  destruct (check_total q cmd fb) as [e' Hq]. exists e'. split; [done|].
  assert (exact_matches q cmd <> []) as Hneq.
  { destruct (exact_matches p cmd) as [|m ms]; [done|]. intros Hn. rewrite Hn in Hsub.
    specialize (Hsub m ltac:(set_solver)). by apply elem_of_nil in Hsub. }
  split; [by apply (check_is_match q cmd fb)|].
  unfold check, check_with_options in Hp, Hq. rewrite matches_exact in Hp, Hq.
  apply from_matches_inv in Hp as (_ & (m & Hin & <-) & _), Hq as (_ & _ & Hle). apply Hle.
  destruct (exact_matches p cmd) as [|x xs] eqn:Ep; [done|].
  destruct (exact_matches q cmd) as [|y ys]; [done|]. by apply Hsub.
Qed.
End Evaluate.

(** ** Changing a policy *)

Section Change.
Context {P : Type} `{EqDecision P, AbsPathOps P}.
Implicit Types (p q : Policy P) (fb : list str -> Decision).

Lemma multi_insert_all (program : str) (rs : list PrefixRule) (m : rule_map) (k : str) :
  default [] (fold_left (fun acc r => multi_insert program r acc) rs m !! k)
  = default [] (m !! k) ++ (if decide (k = program) then rs else []).
Proof.
  revert m. induction rs as [|r rs IH]; intros m; simpl.
  - case_decide; by rewrite app_nil_r.
  - rewrite IH. unfold multi_insert. case_decide as Hk.
    + subst k. rewrite lookup_insert_eq. simpl. by rewrite <-app_assoc.
    + by rewrite lookup_insert_ne.
Qed.

(** The overlay's rules for a program come after the base's. *)
Lemma merge_rules_lookup (base overlay : rule_map) (k : str) :
  default [] (merge_rules base overlay !! k)
  = default [] (base !! k) ++ default [] (overlay !! k).
Proof.
  unfold merge_rules.
  apply (map_fold_weak_ind (fun acc m => default [] (acc !! k)
           = default [] (base !! k) ++ default [] (m !! k))).
  - by rewrite lookup_empty, app_nil_r.
  - intros program rs m acc Hnone IH. rewrite multi_insert_all, IH.
    destruct (decide (k = program)) as [->|Hk].
    + by rewrite Hnone, lookup_insert_eq, app_nil_r.
    + by rewrite lookup_insert_ne, app_nil_r.
Qed.

Lemma exact_matches_merge p q cmd :
  exact_matches (merge_overlay p q) cmd = exact_matches p cmd ++ exact_matches q cmd.
Proof.
  unfold exact_matches, rules_of. destruct cmd as [|program cmd]; [done|]. simpl.
  by rewrite merge_rules_lookup, omap_app.
Qed.

(** Merging an overlay never relaxes: when rules of the base or of the overlay
    match a command, the merged policy matches it too and its decision is at
    least as strict; a forbidden command stays forbidden. *)
Theorem merge_overlay_strict p q cmd fb e :
  check p cmd fb = Some e \/ check q cmd fb = Some e -> is_match e = true ->
  exists e', check (merge_overlay p q) cmd fb = Some e' /\ is_match e' = true /\
    decision_le (decision e) (decision e') /\ (decision e = Forbidden -> decision e' = Forbidden).
Proof.
  intros Hc Hm.
  assert (exists e', check (merge_overlay p q) cmd fb = Some e' /\ is_match e' = true /\
            decision_le (decision e) (decision e')) as (e' & He & Hm' & Hle).
  { destruct Hc as [Hc|Hc];
      [apply (check_mono p _ cmd fb e)|apply (check_mono q _ cmd fb e)]; try done;
      rewrite exact_matches_merge; set_solver. }
  exists e'. split_and!; try done. intros Hf. rewrite Hf in Hle.
  unfold decision_le in Hle. destruct (decision e'); simpl in Hle; lia || done.
Qed.

Lemma add_prefix_rule_lookup prefix d p p' k :
  add_prefix_rule prefix d p = Ok p' ->
  exists f r, prefix = f :: r /\ rules_of p' k = rules_of p k ++
    (if decide (k = f) then [mkPrefixRule (mkPattern f (map Single r)) d None] else []).
Proof.
  unfold add_prefix_rule. destruct prefix as [|f r]; [done|]. intros [= <-].
  exists f, r. split; [done|]. unfold rules_of. simpl. unfold multi_insert. case_decide as Hk.
  - subst k. by rewrite lookup_insert_eq.
  - by rewrite lookup_insert_ne, app_nil_r.
Qed.

Lemma tokens_match_singles r toks : tokens_match (map Single r) toks <-> toks = r.
Proof.
  unfold tokens_match. revert toks. induction r as [|x r IH]; intros [|t toks]; simpl.
  - split; [done|constructor].
  - split; [inversion 1|done].
  - split; [inversion 1|done].
  - split.
    + inversion 1 as [|? ? ? ? Hx Hr]; subst. simpl in Hx. boolify. subst. f_equal. by apply IH.
    + intros [= -> ->]. constructor; [simpl; by apply bool_decide_eq_true|by apply IH].
Qed.

(** The rule [add_prefix_rule] builds. *)
Definition single_rule (f : str) (r : list str) (d : Decision) : PrefixRule :=
  mkPrefixRule (mkPattern f (map Single r)) d None.

Lemma single_rule_matches f r d c (m : RuleMatch P) :
  rule_matches (single_rule f r d) (f :: c) = Some m <->
  m = PrefixRuleMatch (f :: r) d None None /\ exists tail, c = r ++ tail.
Proof.
  unfold rule_matches. split.
  - intros (pre & Hp & ->)%fmap_Some.
    apply matches_prefix_spec in Hp as (toks & tail & [= ->] & ->%tokens_match_singles & ->).
    simpl. eauto.
  - intros [-> [tail ->]].
    assert (matches_prefix (pattern (single_rule f r d)) (f :: r ++ tail) = Some (f :: r)) as ->;
      [|done].
    apply matches_prefix_spec. exists r, tail. split; [done|]. split; [|done].
    by apply tokens_match_singles.
Qed.

Lemma exact_matches_added prefix d p p' cmd :
  add_prefix_rule prefix d p = Ok p' ->
  (forall tail, cmd = prefix ++ tail ->
     PrefixRuleMatch prefix d None None ∈ exact_matches p' cmd) /\
  ((forall tail, cmd <> prefix ++ tail) -> exact_matches p' cmd = exact_matches p cmd).
Proof.
  intros Ha. unfold exact_matches. split.
  - intros tail ->. destruct (add_prefix_rule_lookup _ _ _ _ (hd [] prefix) Ha) as (f & r & -> & Hl).
    simpl in *. rewrite Hl, decide_True by done. fold (single_rule f r d).
    rewrite omap_app, elem_of_app. right. apply list_elem_of_omap.
    exists (single_rule f r d). split; [set_solver|]. apply single_rule_matches. eauto.
  - intros Hno. destruct cmd as [|k c]; [done|].
    destruct (add_prefix_rule_lookup _ _ _ _ k Ha) as (f & r & -> & ->). rewrite omap_app.
    case_decide as Hk; [|by rewrite app_nil_r]. subst k. simpl. fold (single_rule f r d).
    destruct (rule_matches (single_rule f r d) (f :: c)) as [m|] eqn:Em; [|by rewrite app_nil_r].
    apply single_rule_matches in Em as [_ [tail ->]]. by destruct (Hno tail).
Qed.

(** A prefix rule added to a policy applies to exactly the commands that start
    with the prefix: their decision is then at least the rule's, and any other
    command is evaluated as before. *)
Theorem add_prefix_rule_applies prefix d p p' cmd fb :
  add_prefix_rule prefix d p = Ok p' ->
  (forall tail, cmd = prefix ++ tail ->
     exists e, check p' cmd fb = Some e /\ is_match e = true /\ decision_le d (decision e)) /\
  ((forall tail, cmd <> prefix ++ tail) -> check p' cmd fb = check p cmd fb).
Proof.
  intros Ha. destruct (exact_matches_added _ _ _ _ cmd Ha) as [Hhit Hmiss]. split.
  - intros tail Hc. specialize (Hhit tail Hc).
    destruct (check_total p' cmd fb) as [e He]. exists e. split; [done|].
    assert (exact_matches p' cmd <> []) as Hne
      by (intros Hn; rewrite Hn in Hhit; by apply elem_of_nil in Hhit).
    split; [by apply (check_is_match p' cmd fb)|].
    unfold check, check_with_options in He. rewrite matches_exact in He.
    apply from_matches_inv in He as (_ & _ & Hle).
    apply (Hle (PrefixRuleMatch prefix d None None)). by destruct (exact_matches p' cmd).
  - intros Hno. unfold check, check_with_options. by rewrite !matches_exact, Hmiss.
Qed.

(** ** Network domains *)

(** The last rule on a host that is not a prompt. *)
Fixpoint last_verdict (h : str) (rs : list NetworkRule) : option Decision :=
  match rs with
  | [] => None
  | r :: rs' =>
      match last_verdict h rs' with
      | Some d => Some d
      | None =>
          if bool_decide (host r = h) && negb (bool_decide (net_decision r = Prompt))
          then Some (net_decision r) else None
      end
  end.

Lemma last_verdict_snoc h rs r :
  last_verdict h (rs ++ [r]) =
  if bool_decide (host r = h) && negb (bool_decide (net_decision r = Prompt))
  then Some (net_decision r) else last_verdict h rs.
Proof.
  induction rs as [|x rs IH]; simpl; [done|]. rewrite IH.
  by destruct (bool_decide (host r = h) && _).
Qed.

Lemma retain_not_elem h e l : e ∈ retain_not h l <-> e <> h /\ e ∈ l.
Proof.
  unfold retain_not. rewrite list_elem_of_In, List.filter_In, <-list_elem_of_In.
  rewrite negb_true_iff, bool_decide_eq_false. tauto.
Qed.

Lemma retain_not_nodup h l : NoDup l -> NoDup (retain_not h l).
Proof. unfold retain_not. rewrite !NoDup_ListNoDup. apply List.NoDup_filter. Qed.

Lemma upsert_domain_nodup h l : NoDup l -> NoDup (upsert_domain l h).
Proof.
  intros Hl. apply NoDup_app. split; [by apply retain_not_nodup|]. split; [|apply NoDup_singleton].
  intros x [Hx _]%retain_not_elem. by rewrite list_elem_of_singleton.
Qed.

Lemma upsert_domain_elem h e l : e ∈ upsert_domain l h <-> e = h \/ e ∈ l.
Proof.
  unfold upsert_domain. rewrite elem_of_app, retain_not_elem, list_elem_of_singleton.
  destruct (decide (e = h)); tauto.
Qed.

(** The compiled host lists: the last rule on a host that allows or forbids
    decides which list it is in, prompts do not count, no host is in both lists
    or twice in one. *)
Theorem compiled_domains_last_wins p h :
  let '(allowed, denied) := compiled_network_domains p in
  (h ∈ allowed <-> last_verdict h (network_rules p) = Some Allow) /\
  (h ∈ denied <-> last_verdict h (network_rules p) = Some Forbidden) /\
  NoDup allowed /\ NoDup denied.
Proof.
  unfold compiled_network_domains. generalize (network_rules p) as rs. intros rs.
  induction rs as [|r rs IH] using rev_ind.
  { simpl. repeat split; try done; try constructor; intros Hx; by apply elem_of_nil in Hx. }
  rewrite fold_left_app. simpl. rewrite last_verdict_snoc.
  destruct (fold_left apply_network_rule rs ([], [])) as [allowed denied].
  destruct IH as (Ha & Hd & Na & Nd). unfold apply_network_rule.
  destruct (net_decision r) eqn:Er; rewrite ?upsert_domain_elem, ?retain_not_elem, Ha, Hd;
    repeat case_bool_decide; simpl; split_and!;
    auto using upsert_domain_nodup, retain_not_nodup; naive_solver.
Qed.
End Change.

(** ** Hosts *)

Lemma split_once_spec c s a b : split_once c s = Some (a, b) -> s = a ++ c :: b.
Proof.
  revert a b. induction s as [|x s IH]; intros a b; simpl; [done|].
  destruct (N.eqb_spec x c) as [->|]; [by intros [= <- <-]|].
  destruct (split_once c s) as [[a' b']|]; [|done]. intros [= <- <-].
  simpl. f_equal. by apply IH.
Qed.

Lemma rsplit_once_spec c s a b : rsplit_once c s = Some (a, b) -> s = a ++ c :: b.
Proof.
  unfold rsplit_once. destruct (split_once c (rev s)) as [[x y]|] eqn:E; [|done].
  intros [= <- <-]. apply split_once_spec in E. apply (f_equal (@rev N)) in E.
  rewrite rev_involutive, rev_app_distr in E. simpl in E. by rewrite <-app_assoc in E.
Qed.

Lemma drop_while_incl f s : drop_while f s ⊆ s.
Proof. destruct (drop_while_split f s) as (ws & Hs & _). rewrite Hs at 2. set_solver. Qed.

Lemma rev_incl {A} (l : list A) : rev l ⊆ l.
Proof. intros x. by rewrite !list_elem_of_In, <-in_rev. Qed.

Lemma trim_end_incl s : trim_end s ⊆ s.
Proof. destruct (trim_end_split s) as (ws & Hs & _). rewrite Hs at 2. set_solver. Qed.

Lemma trim_incl s : trim s ⊆ s.
Proof.
  unfold trim. etrans; [apply trim_end_incl|]. apply drop_while_incl.
Qed.

Lemma trim_end_matches_incl c s : trim_end_matches c s ⊆ s.
Proof.
  unfold trim_end_matches. etrans; [apply rev_incl|]. etrans; [apply drop_while_incl|].
  apply rev_incl.
Qed.

Lemma strip_port_incl raw h h' : strip_port raw h = Ok h' -> h' ⊆ h.
Proof.
  unfold strip_port. intros Hs.
  destruct (strip_prefix (lit "[") h) as [stripped|] eqn:E1.
  - apply strip_prefix_Some in E1 as ->.
    destruct (split_once 93%N stripped) as [[inside rest]|] eqn:E2; [|done].
    apply split_once_spec in E2 as ->. case_hyp Hs. simplify_eq. set_solver.
  - repeat case_hyp Hs; simplify_eq; try done.
    match goal with Hr : rsplit_once _ _ = Some _ |- _ => apply rsplit_once_spec in Hr as -> end.
    set_solver.
Qed.

Lemma ascii_lower_idemp c : ascii_lower_char (ascii_lower_char c) = ascii_lower_char c.
Proof.
  unfold ascii_lower_char at 2 3. destruct ((65 <=? c)%N && (c <=? 90)%N) eqn:E.
  - unfold ascii_lower_char. apply andb_true_iff in E as [E1%N.leb_le E2%N.leb_le].
    destruct (N.leb_spec (c + 32) 90); [lia|]. by rewrite andb_false_r.
  - unfold ascii_lower_char. by rewrite E.
Qed.

Lemma ascii_lower_small c x : (x < 65)%N -> ascii_lower_char c = x -> c = x.
Proof.
  unfold ascii_lower_char. intros Hx.
  destruct ((65 <=? c)%N && (c <=? 90)%N) eqn:E; [|done].
  apply andb_true_iff in E as [E1%N.leb_le _]. lia.
Qed.

(** A host that is accepted for a network rule is a plain name: not empty, in
    lower case, without white space, wildcard, slash, query or fragment
    character. *)
Theorem normalize_host_plain raw h :
  normalize_network_rule_host raw = Ok h ->
  h <> [] /\ to_ascii_lowercase h = h /\
  (forall c, c ∈ h -> is_whitespace c = false /\ c <> STAR /\ c <> 47%N /\ c <> 63%N /\ c <> 35%N).
Proof.
  unfold normalize_network_rule_host. intros Hn.
  destruct (is_empty (trim raw)); [done|].
  destruct (_ || _ || _ || contains_char 35 (trim raw)) eqn:Eb; [done|]. boolify.
  destruct (strip_port raw (trim raw)) as [host|] eqn:Es; [|done].
  apply strip_port_incl in Es.
  set (n := to_ascii_lowercase _) in Hn.
  destruct (is_empty n) eqn:E1; [done|]. destruct (contains_char STAR n) eqn:E2; [done|].
  destruct (existsb is_whitespace n) eqn:E3; [done|]. injection Hn as <-.
  split; [by destruct n|]. split.
  { unfold n, to_ascii_lowercase. rewrite map_map. apply map_ext, ascii_lower_idemp. }
  assert (forall (f : N -> bool) l c, existsb f l = false -> c ∈ l -> f c = false) as Hex.
  { intros f l c He Hc. destruct (f c) eqn:Ef; [|done].
    assert (existsb f l = true) as Ht; [|congruence]. apply existsb_exists.
    exists c. by rewrite <-list_elem_of_In. }
  assert (forall c, c ∈ n -> exists c0, c0 ∈ trim raw /\ c = ascii_lower_char c0) as Hsrc.
  { intros c Hc. apply list_elem_of_In, in_map_iff in Hc as (c0 & <- & Hc0%list_elem_of_In).
    exists c0. split; [|done]. apply Es. by apply trim_incl, trim_end_matches_incl in Hc0. }
  assert (forall c x, c ∈ n -> (x < 65)%N -> contains_char x (trim raw) = false -> c <> x) as Hno.
  { intros c x Hc Hx Hcx ->. destruct (Hsrc x Hc) as (c0 & Hin & Heq). symmetry in Heq.
    apply ascii_lower_small in Heq as ->; [|done].
    pose proof (Hex _ _ _ Hcx Hin). rewrite N.eqb_refl in *. done. }
  intros c Hc. split; [by eapply Hex|]. split.
  - intros ->. by pose proof (Hex _ _ _ E2 Hc).
  - split_and!; apply Hno; auto; lia.
Qed.

(** ** The list of allowed prefixes *)

Lemma prefix_compare_eq a b : prefix_compare a b = Eq <-> a = b.
Proof.
  revert b. induction a as [|x a IH]; intros [|y b]; simpl; try done.
  destruct (str_compare x y) eqn:E.
  - apply str_compare_eq in E as ->. rewrite IH. split; [by intros ->|by intros [=]].
  - split; [done|]. intros [= -> _]. by rewrite (proj2 (str_compare_eq y y)) in E.
  - split; [done|]. intros [= -> _]. by rewrite (proj2 (str_compare_eq y y)) in E.
Qed.

Lemma prefix_compare_antisym a b : prefix_compare b a = CompOpp (prefix_compare a b).
Proof.
  revert b. induction a as [|x a IH]; intros [|y b]; simpl; try done.
  rewrite (str_compare_antisym x y). destruct (str_compare x y); simpl; auto.
Qed.

Lemma prefix_compare_lt_trans a b c :
  prefix_compare a b = Lt -> prefix_compare b c = Lt -> prefix_compare a c = Lt.
Proof.
  revert b c. induction a as [|x a IH]; intros [|y b] [|z c]; simpl; try done.
  intros H1 H2. destruct (str_compare x y) eqn:E1; [| |done].
  - apply str_compare_eq in E1 as ->. destruct (str_compare y z); try done. eauto.
  - destruct (str_compare y z) eqn:E2; [| |done].
    + apply str_compare_eq in E2 as <-. by rewrite E1.
    + by rewrite (str_compare_lt_trans x y z).
Qed.

Lemma prefix_le_total a b : prefix_le a b = true \/ prefix_le b a = true.
Proof.
  unfold prefix_le. rewrite (prefix_compare_antisym a b). destruct (prefix_compare a b); auto.
Qed.

Lemma prefix_le_trans a b c :
  prefix_le a b = true -> prefix_le b c = true -> prefix_le a c = true.
Proof.
  unfold prefix_le. destruct (prefix_compare a b) eqn:E1; [| |done].
  - apply prefix_compare_eq in E1 as ->. done.
  - destruct (prefix_compare b c) eqn:E2; [| |done]; intros _ _.
    + apply prefix_compare_eq in E2 as <-. by rewrite E1.
    + by rewrite (prefix_compare_lt_trans a b c).
Qed.

Definition prefix_lt (a b : list str) : Prop := prefix_compare a b = Lt.

Lemma dedup_adjacent_strict l :
  StronglySorted (fun a b => prefix_le a b = true) l -> StronglySorted prefix_lt (dedup_adjacent l).
Proof.
  induction l as [|a l IH]; [constructor|]. intros Hs. inversion Hs as [|? ? Hl Ha]; subst.
  destruct l as [|b l]; [repeat constructor|]. rewrite dedup_adjacent_cons. case_bool_decide as Hab; [auto|].
  constructor; [auto|]. apply Forall_forall. intros x Hx.
  rewrite dedup_adjacent_elem in Hx. unfold prefix_lt.
  assert (prefix_le a b = true /\ (x = b \/ prefix_le b x = true)) as [Hab' Hbx].
  { inversion Hl as [|? ? _ Hb]; subst. apply Forall_cons in Ha as [? _].
    apply elem_of_cons in Hx as [->|Hx]; [auto|]. rewrite Forall_forall in Hb. auto. }
  unfold prefix_le in Hab', Hbx.
  destruct (prefix_compare a b) eqn:E1; [by apply prefix_compare_eq in E1| |done].
  destruct Hbx as [->|Hbx]; [done|].
  destruct (prefix_compare b x) eqn:E2; [|by eapply prefix_compare_lt_trans|done].
  by apply prefix_compare_eq in E2 as <-.
Qed.

Section Prefixes.
Context {P : Type} `{EqDecision P, AbsPathOps P}.

(** The allowed prefixes a policy reports are exactly the rendered patterns of
    its allowing rules, in strictly increasing order whatever order the rule
    map is walked in. *)
Theorem allowed_prefixes_exact (p : Policy P) :
  StronglySorted prefix_lt (get_allowed_prefixes p) /\
  (forall prefix, prefix ∈ get_allowed_prefixes p <->
     exists program rs r, rules_by_program p !! program = Some rs /\ r ∈ rs /\
       allowed_prefix r = Some prefix).
Proof.
  unfold get_allowed_prefixes. split.
  - apply dedup_adjacent_strict, stable_sort_sorted; [apply prefix_le_total|apply prefix_le_trans].
  - intros prefix. rewrite dedup_adjacent_elem, stable_sort_elem, list_elem_of_omap. split.
    + intros (r & Hr & Ha). apply list_elem_of_bind in Hr as ([program rs] & Hr & Hp).
      apply elem_of_map_to_list in Hp. eauto 6.
    + intros (program & rs & r & Hp & Hr & Ha). exists r. split; [|done].
      apply list_elem_of_bind. exists (program, rs). split; [done|]. by apply elem_of_map_to_list.
Qed.
End Prefixes.

(** ** Names and paths *)

(** The last component of a path, read as text again, is a path with that last
    component: in the working directory. Only [~] is read as something else. *)
Class AbsPathLaws (P : Type) `{AbsPathOps P} : Prop := {
  file_name_resolves text (program program' : P) name :
    abs_try_from text = Some program -> abs_file_name program = Some name -> name <> lit "~" ->
    abs_try_from name = Some program' -> abs_file_name program' = Some name;
}.

Lemma path_new_name name : good_name name -> path_new name = [Normal name].
Proof.
  intros (Hne & Hd & Hdd & Hs). unfold path_new. rewrite bool_decide_false.
  - rewrite (split_on_no_sep _ _ Hs). rewrite bool_decide_false by done. simpl.
    unfold body_component. by rewrite !bool_decide_false by done.
  - intros Hh. apply Hs. destruct name; simplify_eq/=. apply list_elem_of_here.
Qed.

Lemma normalize_onto_snoc acc p name : normalize_onto acc (p ++ [Normal name]) = normalize_onto acc p ++ [Normal name].
Proof. revert acc. induction p as [|[] p IH]; intros acc; simpl; try apply IH. done. Qed.

#[export] Instance absolute_path_laws `{PathHostLaws} : AbsPathLaws AbsolutePathBuf.
Proof.
  split. intros text program program' name Hp Hn Htilde Hp'.
  unfold abs_try_from, abs_file_name, absolute_path_ops in *.
  destruct (from_absolute_path (path_new text)) as [a|] eqn:Ha; simplify_eq/=.
  destruct (from_absolute_path_normal _ _ (path_new_wf text) Ha) as (names & Hnames & Hgood).
  unfold AbsPath.file_name in *. rewrite Hnames in Hn.
  destruct names as [|n names _] using rev_ind; [done|].
  rewrite map_app in Hn. simpl map in Hn. rewrite app_comm_cons, last_snoc in Hn. simplify_eq.
  apply Forall_app in Hgood as [_ Hgood]. apply Forall_cons_1 in Hgood as [Hgood _].
  unfold from_absolute_path, absolutize in Hp'. rewrite (path_new_name _ Hgood) in Hp'.
  unfold maybe_expand_home_directory in Hp'. rewrite bool_decide_false in Hp' by done.
  destruct home_dir; destruct current_dir as [current|]; simplify_eq/=;
    unfold absolutize_from, path_with_base, path_join; simpl; destruct current as [|c current]; try done;
    unfold normalize_path; rewrite normalize_onto_snoc; by destruct (normalize_onto [] _); simpl; rewrite ?app_comm_cons, ?last_snoc.
Qed.

(** ** A policy *)

Module PolicyDemo.
Export AbsPathDemo.

Definition base : Policy AbsolutePathBuf :=
  default empty_policy (result_ok (add_prefix_rule [lit "git"; lit "push"] Forbidden empty_policy)).
Definition overlay : Policy AbsolutePathBuf :=
  default empty_policy (result_ok (add_prefix_rule [lit "git"] Allow empty_policy)).
Definition push : list str := [lit "git"; lit "push"; lit "-f"].
Definition ask : list str -> Decision := fun _ => Prompt.
End PolicyDemo.
Import PolicyDemo.

Lemma merge_overlay_strict_witness :
  exists e', check (merge_overlay base overlay) push ask = Some e' /\ decision e' = Forbidden.
Proof.
  destruct (check base push ask) as [e|] eqn:E.
  - destruct (merge_overlay_strict base overlay push ask e (or_introl E)) as (e' & He & _ & _ & Hf).
    + apply (f_equal (fun o => default false (is_match <$> o))) in E.
      vm_compute in E. by symmetry.
    + exists e'. split; [exact He|]. apply Hf.
      apply (f_equal (fun o => decision <$> o)) in E. vm_compute in E. by injection E.
  - vm_compute in E. discriminate E.
Defined.

Lemma add_prefix_rule_applies_witness :
  exists e, check base push ask = Some e /\ decision_le Forbidden (decision e).
Proof.
  destruct (add_prefix_rule_applies [lit "git"; lit "push"] Forbidden empty_policy base push ask)
    as [Hhit _].
  - vm_compute. reflexivity.
  - destruct (Hhit [lit "-f"]) as (e & He & _ & Hd); [reflexivity|]. exists e. by split.
Defined.

Lemma normalize_host_plain_witness :
  normalize_network_rule_host (lit " Example.COM.:443 ") = Ok (lit "example.com") /\
  to_ascii_lowercase (lit "example.com") = lit "example.com".
Proof.
  split; [vm_compute; reflexivity|].
  apply (normalize_host_plain (lit " Example.COM.:443 ") (lit "example.com")).
  vm_compute. reflexivity.
Defined.
