(* ===== verification/Requirements.v ===== *)
(** * Required rules

    Models [config/src/requirements_exec_policy.rs]: the rules of
    [requirements.toml], which an administrator sets, and the policy they become.
    Reading the TOML is derived code; what is read is data here. *)

From stdpp Require Import gmap.
From S2P Require Import AbsPath Prelude RustStr ExecPolicy.

(** ** Data *)

Record PatternTokenToml : Type := mkTokenToml { token : option str; any_of : option (list str) }.

Inductive DecisionToml : Type := TomlAllow | TomlPrompt | TomlForbidden.

Definition as_decision (d : DecisionToml) : Decision :=
  match d with TomlAllow => Allow | TomlPrompt => Prompt | TomlForbidden => Forbidden end.

Record PrefixRuleToml : Type := mkRuleToml {
  toml_pattern : list PatternTokenToml;
  toml_decision : option DecisionToml;
  toml_justification : option str;
}.

Inductive ParseError : Type :=
| EmptyPrefixRules
| EmptyPattern (rule_index : nat)
| InvalidPatternToken (rule_index token_index : nat) (reason : str)
| EmptyJustification (rule_index : nat)
| MissingDecision (rule_index : nat)
| AllowDecisionNotAllowed (rule_index : nat).

(** ** The policy *)

Definition parse_pattern_token (t : PatternTokenToml) (rule_index token_index : nat)
  : result PatternToken ParseError :=
  let invalid reason := Err (InvalidPatternToken rule_index token_index reason) in
  match token t, any_of t with
  | Some single, None =>
      if is_empty (trim single) then invalid (lit "token cannot be empty") else Ok (Single single)
  | None, Some alternatives =>
      if match alternatives with [] => true | _ => false end then invalid (lit "any_of cannot be empty")
      else if existsb (fun alt => is_empty (trim alt)) alternatives
      then invalid (lit "any_of cannot include empty tokens")
      else Ok (Alts alternatives)
  | Some _, Some _ => invalid (lit "set either token or any_of, not both")
  | None, None => invalid (lit "set either token or any_of")
  end.

Fixpoint parse_tokens (rule_index token_index : nat) (ts : list PatternTokenToml)
  : result (list PatternToken) ParseError :=
  match ts with
  | [] => Ok []
  | t :: ts' =>
      let? p := parse_pattern_token t rule_index token_index in
      let? ps := parse_tokens rule_index (S token_index) ts' in
      Ok (p :: ps)
  end.

Definition alternatives (t : PatternToken) : list str :=
  match t with Single value => [value] | Alts alternatives => alternatives end.

(** One rule per first word. *)
Definition insert_heads (heads : list str) (rest : list PatternToken) (d : Decision) (j : option str) (m : rule_map)
  : rule_map :=
  fold_left (fun acc head => multi_insert head (mkPrefixRule (mkPattern head rest) d j) acc) heads m.

Definition rule_decision_of (rule_index : nat) (r : PrefixRuleToml) : result Decision ParseError :=
  match toml_decision r with
  | Some TomlAllow => Err (AllowDecisionNotAllowed rule_index)
  | Some d => Ok (as_decision d)
  | None => Err (MissingDecision rule_index)
  end.

(** The loop over the rules. *)
Fixpoint collect_rules (rule_index : nat) (rs : list PrefixRuleToml) (m : rule_map) : result rule_map ParseError :=
  match rs with
  | [] => Ok m
  | r :: rs' =>
      if match toml_justification r with Some j => is_empty (trim j) | None => false end
      then Err (EmptyJustification rule_index)
      else if match toml_pattern r with [] => true | _ => false end then Err (EmptyPattern rule_index)
      else
        let? tokens := parse_tokens rule_index 0 (toml_pattern r) in
        let? d := rule_decision_of rule_index r in
        match tokens with
        | [] => Err (EmptyPattern rule_index)
        | first_token :: rest =>
            collect_rules (S rule_index) rs' (insert_heads (alternatives first_token) rest d (toml_justification r) m)
        end
  end.

Definition to_policy {P} (prefix_rules : list PrefixRuleToml) : result (Policy P) ParseError :=
  match prefix_rules with
  | [] => Err EmptyPrefixRules
  | _ =>
      let? rules_by_program := collect_rules 0 prefix_rules ∅ in
      Ok (mkPolicy rules_by_program [] ∅)
  end.

(** ** What a rule says *)

Definition token_says (t : PatternTokenToml) (word : str) : Prop :=
  token t = Some word \/ exists words, any_of t = Some words /\ word ∈ words.

(** The rule covers the commands that start with one word for each token. *)
Definition rule_covers (r : PrefixRuleToml) (cmd prefix : list str) : Prop :=
  Forall2 token_says (toml_pattern r) prefix /\ exists tail, cmd = prefix ++ tail.

Definition blank (s : str) : Prop := trim s = [].

(** One of the two fields is set, and none of its words is blank. *)
Definition token_ok (t : PatternTokenToml) : Prop :=
  (exists word, token t = Some word /\ any_of t = None /\ ~ blank word) \/
  (exists words, token t = None /\ any_of t = Some words /\ words <> [] /\ Forall (fun w => ~ blank w) words).

Definition rule_ok (r : PrefixRuleToml) : Prop :=
  (forall j, toml_justification r = Some j -> ~ blank j) /\ toml_pattern r <> [] /\ Forall token_ok (toml_pattern r)
  /\ (toml_decision r = Some TomlPrompt \/ toml_decision r = Some TomlForbidden).

(** ** Lemmas *)

(** The indices only show in the error. *)
Definition parsed (t : PatternTokenToml) (p : PatternToken) : Prop := parse_pattern_token t 0 0 = Ok p.

Lemma parsed_at t i j p : parse_pattern_token t i j = Ok p <-> parsed t p.
Proof.
  unfold parsed, parse_pattern_token. destruct (token t), (any_of t); try done; repeat case_match; done.
Qed.

Lemma parsed_fun ts ps qs : Forall2 parsed ts ps -> Forall2 parsed ts qs -> ps = qs.
Proof.
  intros H. revert qs. induction H as [|t p ts ps Hp _ IH]; intros qs; inversion 1 as [|? q ? qs' Hq Hqs]; subst; [done|].
  unfold parsed in *. rewrite Hp in Hq. injection Hq as <-. f_equal. by apply IH.
Qed.

Lemma parsed_token t pt w :
  parsed t pt ->
  (w ∈ alternatives pt <-> token_says t w) /\ (token_matches pt w = true <-> token_says t w).
Proof.
  unfold parsed, parse_pattern_token, token_says. intros H.
  destruct (token t) as [single|] eqn:Et, (any_of t) as [words|] eqn:Ea; simpl in H; try done.
  - destruct (is_empty (trim single)); simplify_eq/=. rewrite list_elem_of_singleton, bool_decide_eq_true. naive_solver.
  - destruct words as [|x xs]; [done|]. set (ws := x :: xs) in *. clearbody ws.
    destruct (existsb _ ws); simplify_eq/=. rewrite existsb_exists.
    split; [naive_solver|]. split.
    + intros (alt & Hin & ->%bool_decide_eq_true). right. exists ws. split; [done | by apply list_elem_of_In].
    + intros [?|(words & [= <-] & Hin)]; [done|]. exists w. split; [by apply list_elem_of_In|].
      by apply bool_decide_eq_true.
Qed.

Lemma parsed_tokens i j ts ps :
  parse_tokens i j ts = Ok ps -> Forall2 parsed ts ps.
Proof.
  revert j ps. induction ts as [|t ts IH]; intros j ps; simpl; [intros [= <-]; constructor|].
  destruct (parse_pattern_token t i j) as [p|] eqn:Ep; [|done].
  destruct (parse_tokens i (S j) ts) as [ps'|] eqn:Eps; [|done]. intros [= <-]. constructor; [by apply (parsed_at t i j) | eauto].
Qed.

Lemma parsed_tokens_match ts ps words :
  Forall2 parsed ts ps ->
  tokens_match ps words <-> Forall2 token_says ts words.
Proof.
  unfold tokens_match. intros Hts. revert words. induction Hts as [|t p ts ps Hp _ IH]; intros words.
  - split; inversion 1; constructor.
  - split; inversion 1 as [|? w ? ws Hw Hws]; subst; constructor; (try by apply IH); by apply (parsed_token _ _ w Hp).
Qed.

Lemma insert_heads_elem heads rest d j m k r :
  r ∈ default [] (insert_heads heads rest d j m !! k)
  <-> r ∈ default [] (m !! k) \/ (k ∈ heads /\ r = mkPrefixRule (mkPattern k rest) d j).
Proof.
  unfold insert_heads. revert m. induction heads as [|h heads IH]; intros m; cbn [fold_left].
  - rewrite elem_of_nil. naive_solver.
  - rewrite IH, elem_of_cons. unfold multi_insert. destruct (decide (k = h)) as [-> | Hk].
    + rewrite lookup_insert_eq. simpl. rewrite elem_of_app, list_elem_of_singleton. naive_solver.
    + rewrite lookup_insert_ne by done. naive_solver.
Qed.

(** A rule that is kept for a program, by the entry it comes from. *)
Definition comes_from (rs : list PrefixRuleToml) (k : str) (rl : PrefixRule) : Prop :=
  exists r d first_token rest, r ∈ rs /\ toml_decision r = Some d /\ as_decision d <> Allow
    /\ Forall2 parsed (toml_pattern r) (first_token :: rest)
    /\ k ∈ alternatives first_token /\ rl = mkPrefixRule (mkPattern k rest) (as_decision d) (toml_justification r).

Lemma collect_rules_elem i rs m m' k rl :
  collect_rules i rs m = Ok m' ->
  rl ∈ default [] (m' !! k) <-> rl ∈ default [] (m !! k) \/ comes_from rs k rl.
Proof.
  revert i m. induction rs as [|r rs IH]; intros i m; cbn [collect_rules].
  - intros [= <-]. split; [by left|]. intros [?|(r & ? & ? & ? & ?%elem_of_nil & _)]; done.
  - destruct (match toml_justification r with Some j => _ | None => _ end); [done|].
    destruct (match toml_pattern r with [] => true | _ => false end); [done|].
    destruct (parse_tokens i 0 (toml_pattern r)) as [tokens|] eqn:Et; [|done]. apply parsed_tokens in Et.
    unfold rule_decision_of. destruct (toml_decision r) as [d|] eqn:Ed; [|done].
    assert (d = TomlAllow \/ as_decision d <> Allow) as [-> | Hd] by (destruct d; auto; by right); [done|].
    destruct tokens as [|first_token rest]; [by destruct d|].
    intros Hc. assert (collect_rules (S i) rs (insert_heads (alternatives first_token) rest (as_decision d)
                         (toml_justification r) m) = Ok m') as Hc' by by destruct d.
    rewrite (IH _ _ Hc'), insert_heads_elem. unfold comes_from. split.
    + intros [[?|[Hk ->]]|(r' & d' & ft & rt & Hin & Hrest)]; [by left| |].
      * right. exists r, d, first_token, rest. split; [apply list_elem_of_here | done].
      * right. exists r', d', ft, rt. split; [by apply list_elem_of_further | done].
    + intros [?|(r' & d' & ft & rt & Hin & Hd' & Hna & Ht & Hk & ->)]; [by left; left|].
      apply elem_of_cons in Hin as [-> | Hin]; [|right; by exists r', d', ft, rt].
      left; right. rewrite Ed in Hd'. injection Hd' as <-.
      injection (parsed_fun _ _ _ Et Ht) as <- <-. done.
Qed.

(** ** Which entries are accepted *)

Lemma is_empty_blank s : is_empty (trim s) = true <-> blank s.
Proof. unfold blank. by destruct (trim s). Qed.

Lemma token_ok_parsed t : token_ok t <-> exists p, parsed t p.
Proof.
  unfold token_ok, parsed, parse_pattern_token.
  destruct (token t) as [single|], (any_of t) as [words|]; try naive_solver.
  - destruct (is_empty (trim single)) eqn:Eb; [apply is_empty_blank in Eb|]; [naive_solver|].
    split; [eauto|]. intros _. left. exists single. rewrite <-is_empty_blank. naive_solver congruence.
  - destruct words as [|x xs]; [naive_solver|]. set (ws := x :: xs). assert (ws <> []) as Hne by done. clearbody ws.
    destruct (existsb _ ws) eqn:Eb.
    + apply existsb_exists in Eb as (w & Hw%list_elem_of_In & Hb%is_empty_blank).
      split; [|naive_solver]. intros [(? & ? & _)|(? & _ & [= <-] & _ & Hf)]; [done|].
      rewrite Forall_forall in Hf. by destruct (Hf w).
    + split; [eauto|]. intros _. right. exists ws. split_and!; try done. apply Forall_forall. intros w Hw Hb.
      enough (existsb (fun alt => is_empty (trim alt)) ws = true) by congruence.
      apply existsb_exists. exists w. split; [by apply list_elem_of_In | by apply is_empty_blank].
Qed.

Lemma tokens_ok_parsed ts : Forall token_ok ts -> exists ps, Forall2 parsed ts ps.
Proof.
  induction 1 as [|t ts Ht _ [ps IH]]; [by exists []|].
  apply token_ok_parsed in Ht as [p Hp]. exists (p :: ps). by constructor.
Qed.

Lemma parse_tokens_ok i j ts : is_ok (parse_tokens i j ts) = true <-> Forall token_ok ts.
Proof.
  revert j. induction ts as [|t ts IH]; intros j; simpl; [by split|].
  rewrite Forall_cons, token_ok_parsed, <-(IH (S j)).
  destruct (parse_pattern_token t i j) as [p|] eqn:Ep; simpl.
  - apply parsed_at in Ep. destruct (parse_tokens i (S j) ts); simpl; naive_solver.
  - split; [done|]. intros [[p Hp%(parsed_at t i j)] _]. congruence.
Qed.

Lemma justification_ok r :
  match toml_justification r with Some j => is_empty (trim j) | None => false end = false
  <-> forall j, toml_justification r = Some j -> ~ blank j.
Proof.
  destruct (toml_justification r) as [j|]; [|done]. split.
  - intros Hj ? [= <-]. rewrite <-is_empty_blank. congruence.
  - intros Hj. specialize (Hj j eq_refl). rewrite <-is_empty_blank in Hj. by destruct (is_empty (trim j)).
Qed.

Lemma rule_decision_ok i r :
  is_ok (rule_decision_of i r) = true <-> toml_decision r = Some TomlPrompt \/ toml_decision r = Some TomlForbidden.
Proof. unfold rule_decision_of. destruct (toml_decision r) as [[]|]; simpl; naive_solver. Qed.

Lemma collect_rules_ok i rs m : is_ok (collect_rules i rs m) = true <-> Forall rule_ok rs.
Proof.
  revert i m. induction rs as [|r rs IH]; intros i m; cbn [collect_rules]; [by split|].
  rewrite Forall_cons. unfold rule_ok. rewrite <-justification_ok, <-(rule_decision_ok i), <-(parse_tokens_ok i 0).
  destruct (match toml_justification r with Some j => _ | None => _ end); [naive_solver|].
  destruct (toml_pattern r) as [|t ts] eqn:Ep; [naive_solver|]. rewrite <-Ep.
  destruct (parse_tokens i 0 (toml_pattern r)) as [tokens|] eqn:Et; [|naive_solver].
  destruct (rule_decision_of i r) as [d|]; [|naive_solver].
  apply parsed_tokens in Et. rewrite Ep in Et.
  inversion Et as [|? first_token ? rest]; subst. rewrite IH. naive_solver congruence.
Qed.

(** ** The policy says what the entries say *)

Section Exact.
Context {P : Type} `{EqDecision P, AbsPathOps P}.

Lemma to_policy_ok rs : is_ok (to_policy (P := P) rs) = true <-> rs <> [] /\ Forall rule_ok rs.
Proof.
  unfold to_policy. destruct rs as [|r rs]; [naive_solver|].
  rewrite <-(collect_rules_ok 0 (r :: rs) ∅). destruct (collect_rules 0 (r :: rs) ∅); simpl; naive_solver.
Qed.

(** The kept rules that match a command are the entries that cover it. *)
Lemma comes_from_matches rs cmd (m : RuleMatch P) :
  (exists program rl, head cmd = Some program /\ comes_from rs program rl /\ rule_matches rl cmd = Some m) <->
  exists r d prefix, r ∈ rs /\ toml_decision r = Some d /\ as_decision d <> Allow
    /\ (exists ps, Forall2 parsed (toml_pattern r) ps) /\ toml_pattern r <> [] /\ rule_covers r cmd prefix
    /\ m = PrefixRuleMatch prefix (as_decision d) None (toml_justification r).
Proof.
  unfold rule_matches, rule_covers. split.
  - intros (program & rl & Hh & (r & d & ft & rest & Hin & Hd & Hna & Hp & Hk & ->) & Hm). simpl in Hm.
    apply fmap_Some in Hm as (prefix & Hm & ->).
    apply matches_prefix_spec in Hm as (toks & tail & -> & Ht & ->). simpl in *.
    inversion Hp as [|t ? ts ? Hft Hrest Ep]; subst.
    exists r, d, (program :: toks). rewrite <-Ep. split_and!; try done; [by exists (ft :: rest); constructor| |by exists tail].
    constructor; [by apply (proj1 (parsed_token _ _ _ Hft)) | by apply (parsed_tokens_match _ _ _ Hrest)].
  - intros (r & d & prefix & Hin & Hd & Hna & [ps Hp] & Hne & [Hs [tail ->]] & ->).
    inversion Hp as [Ep|t ft ts rest Hft Hrest Ep]; subst; [by rewrite <-Ep in Hne|].
    rewrite <-Ep in Hs. inversion Hs as [|? program ? toks Hw Hws]; subst.
    exists program, (mkPrefixRule (mkPattern program rest) (as_decision d) (toml_justification r)). split_and!; [done| |].
    + exists r, d, ft, rest. rewrite <-Ep. split_and!; try done; [by constructor|]. by apply (proj1 (parsed_token _ _ _ Hft)).
    + apply fmap_Some. exists (program :: toks). split; [|done]. apply matches_prefix_spec.
      exists toks, tail. split_and!; try done. by apply (parsed_tokens_match _ _ _ Hrest).
Qed.

Lemma to_policy_matches rs (policy : Policy P) cmd (m : RuleMatch P) :
  to_policy rs = Ok policy ->
  m ∈ exact_matches policy cmd
  <-> exists program rl, head cmd = Some program /\ comes_from rs program rl /\ rule_matches rl cmd = Some m.
Proof.
  unfold to_policy. destruct rs as [|r0 rs0]; [done|]. set (rs := r0 :: rs0). clearbody rs.
  destruct (collect_rules 0 rs ∅) as [rules|] eqn:Ec; [|done]. intros [= <-].
  unfold exact_matches, rules_of. destruct cmd as [|program cmd]; simpl.
  { rewrite elem_of_nil. naive_solver. }
  rewrite list_elem_of_omap.
  assert (forall rl, rl ∈ default [] (rules !! program) <-> comes_from rs program rl) as Hr.
  { intros rl. rewrite (collect_rules_elem _ _ _ _ _ _ Ec), lookup_empty. simpl. rewrite elem_of_nil. naive_solver. }
  setoid_rewrite Hr. naive_solver.
Qed.

(** The rules an administrator requires become exactly what they say.  They are
    accepted when there is one, and each has a pattern of non-blank words, a
    decision other than allow and no blank justification.  Then the policy's
    matches of a command are the prefixes of it that an entry covers word for
    word, with that entry's decision and justification; none of them allows. *)
Theorem requirements_policy_exact (rs : list PrefixRuleToml) :
  (is_ok (to_policy (P := P) rs) = true <-> rs <> [] /\ Forall rule_ok rs) /\
  forall (policy : Policy P) cmd m, to_policy rs = Ok policy ->
    (m ∈ exact_matches policy cmd <->
       exists r d prefix, r ∈ rs /\ toml_decision r = Some d /\ rule_covers r cmd prefix
         /\ m = PrefixRuleMatch prefix (as_decision d) None (toml_justification r)) /\
    (m ∈ exact_matches policy cmd -> match_decision m <> Allow).
Proof.
  split; [apply to_policy_ok|]. intros policy cmd m Hp.
  assert (Forall rule_ok rs) as Hok by (apply to_policy_ok; by rewrite Hp). rewrite Forall_forall in Hok.
  rewrite (to_policy_matches _ _ _ _ Hp), comes_from_matches. split; [split; [naive_solver|]|].
  - intros (r & d & prefix & Hin & Hd & Hc & Hm). exists r, d, prefix.
    destruct (Hok r Hin) as (_ & Hne & Ht & Hdec). split_and!; try done; try apply Hc.
    + destruct Hdec; naive_solver.
    + by apply tokens_ok_parsed.
  - naive_solver.
Qed.
End Exact.

Module RequirementsTomlDemo.
(** No pushing and no resetting with git. *)
Definition no_push : PrefixRuleToml :=
  mkRuleToml [mkTokenToml (Some (lit "git")) None; mkTokenToml None (Some [lit "push"; lit "reset"])]
    (Some TomlForbidden) (Some (lit "use a review")).
Definition push_main : list str := [lit "git"; lit "push"; lit "main"].
End RequirementsTomlDemo.
Import RequirementsTomlDemo PolicyDemo.

Lemma requirements_policy_exact_witness :
  exists policy : Policy AbsolutePathBuf, to_policy [no_push] = Ok policy
  /\ PrefixRuleMatch [lit "git"; lit "push"] Forbidden None (Some (lit "use a review")) ∈ exact_matches policy push_main.
Proof.
  destruct (requirements_policy_exact (P := AbsolutePathBuf) [no_push]) as [_ Hexact].
  destruct (to_policy (P := AbsolutePathBuf) [no_push]) as [policy|] eqn:Hp; [|vm_compute in Hp; discriminate Hp].
  exists policy. split; [reflexivity|]. apply (Hexact policy push_main _ eq_refl).
  exists no_push, TomlForbidden, [lit "git"; lit "push"]. split_and!; try reflexivity.
  - apply list_elem_of_singleton. reflexivity.
  - split; [|exists [lit "main"]; reflexivity]. apply Forall2_cons_2; [left; reflexivity|]. apply Forall2_cons_2; [|apply Forall2_nil_2].
    right. eexists. split; [reflexivity|]. apply list_elem_of_here.
Defined.

(** The errors name the entry, the token and the first thing that is wrong. *)
Example invalid_entries :
  to_policy (P := AbsolutePathBuf) [no_push; mkRuleToml [mkTokenToml (Some (lit "rm")) None] (Some TomlAllow) None]
    = Err (AllowDecisionNotAllowed 1)
  /\ to_policy (P := AbsolutePathBuf) [mkRuleToml [mkTokenToml (Some (lit "rm")) None; mkTokenToml None (Some [])] None None]
    = Err (InvalidPatternToken 0 1 (lit "any_of cannot be empty"))
  /\ to_policy (P := AbsolutePathBuf) [mkRuleToml [] None (Some (lit " "))] = Err (EmptyJustification 0).
Proof. split_and!; vm_compute; reflexivity. Qed.
