(* ===== verification/Amend.v ===== *)
(** * Amending a policy file

    Models [execpolicy/src/amend.rs]: a rule the user allowed is appended to the
    policy file as one line, under a lock.  Paths and files are interfaces;
    writes may fail half way, and other processes may change the file until the
    lock is held. *)

From Stdlib Require Import ZArith Lia.
From S2P Require Import Prelude RustStr PatchSyntax Host ExecPolicy.

(** ** Data *)

Inductive AmendError : Type :=
  | EmptyPrefix
  | InvalidNetworkRule (message : str)
  | MissingParent (path : str)
  | CreatePolicyDir (dir : str) (source : io_error)
  | SerializePrefix (source : str)
  | SerializeNetworkRule (source : str)
  | OpenPolicyFile (path : str) (source : io_error)
  | WritePolicyFile (path : str) (source : io_error)
  | LockPolicyFile (path : str) (source : io_error)
  | SeekPolicyFile (path : str) (source : io_error)
  | ReadPolicyFile (path : str) (source : io_error)
  | PolicyMetadata (path : str) (source : io_error).

(** [Path::parent], [std::fs::create_dir] and the operations of a [File] opened
    for reading and appending; [serde_json::to_string] of a string. *)
Class PolicyFiles (W : Type) : Type := {
  parent : str -> option str;
  create_dir : W -> str -> W * result unit io_error;
  open_append : W -> str -> W * result unit io_error;
  lock : W -> str -> W * result unit io_error;
  seek_start : W -> str -> W * result unit io_error;
  read_contents : W -> str -> W * result str io_error;
  write_all : W -> str -> str -> W * result unit io_error;
  json_string : str -> result str str;
}.

(** ** Operations *)

Section Amend.
Context {W : Type} `{PolicyFiles W} {Std : UnicodeStd}.

Definition append_locked_line (policy_path line : str) : act W unit AmendError :=
  do? _ := map_err_act (OpenPolicyFile policy_path) (fun w => open_append w policy_path) in
  do? _ := map_err_act (LockPolicyFile policy_path) (fun w => lock w policy_path) in
  do? _ := map_err_act (SeekPolicyFile policy_path) (fun w => seek_start w policy_path) in
  do? contents := map_err_act (ReadPolicyFile policy_path) (fun w => read_contents w policy_path) in
  if existsb (fun existing => bool_decide (existing = line)) (lines contents) then ret tt
  else
    do? _ := (if negb (is_empty contents) && negb (ends_with [LF] contents)
              then map_err_act (WritePolicyFile policy_path) (fun w => write_all w policy_path [LF])
              else ret tt) in
    map_err_act (WritePolicyFile policy_path) (fun w => write_all w policy_path (line ++ [LF])).

Definition append_rule_line (policy_path rule : str) : act W unit AmendError :=
  match parent policy_path with
  | None => throw (MissingParent policy_path)
  | Some dir => fun w =>
      match create_dir w dir with
      | (w, Ok _) => append_locked_line policy_path rule w
      | (w, Err source) =>
          if bool_decide (kind source = AlreadyExists) then append_locked_line policy_path rule w
          else (w, Err (CreatePolicyDir dir source))
      end
  end.

(** [iter().map(serde_json::to_string).collect::<Result<Vec<_>, _>>()]. *)
Fixpoint json_strings (tokens : list str) : result (list str) str :=
  match tokens with
  | [] => Ok []
  | t :: ts => let? j := json_string t in let? js := json_strings ts in Ok (j :: js)
  end.

Definition prefix_rule_line (tokens : list str) : str :=
  lit "prefix_rule(pattern=[" ++ join (lit ", ") tokens ++ lit "], decision=" ++ [QUOTE]
  ++ lit "allow" ++ [QUOTE] ++ lit ")".

Definition blocking_append_allow_prefix_rule (policy_path : str) (prefix : list str)
    : act W unit AmendError :=
  match prefix with
  | [] => throw EmptyPrefix
  | _ =>
      do? tokens := of_result (map_err SerializePrefix (json_strings prefix)) in
      append_rule_line policy_path (prefix_rule_line tokens)
  end.

Definition policy_decision_string (d : Decision) : str :=
  match d with
  | Allow => lit "allow"
  | Prompt => lit "prompt"
  | Forbidden => lit "deny"
  end.

(** [Debug] of a [Vec<String>] and [Display] of the policy errors. *)
Definition debug_strs (l : list str) : str := lit "[" ++ join (lit ", ") (map debug_str l) ++ lit "]".

Definition policy_error_string (e : policy_error) : str :=
  match e with
  | InvalidRule m => lit "invalid rule: " ++ m
  | InvalidDecision raw => lit "invalid decision: " ++ raw
  | InvalidPattern m => lit "invalid pattern element: " ++ m
  | ExampleDidNotMatch rules examples =>
      lit "expected every example to match at least one rule. rules: " ++ debug_strs rules
      ++ lit "; unmatched examples: " ++ debug_strs examples
  | ExampleDidMatch rule example =>
      lit "expected example to not match rule `" ++ rule ++ lit "`: " ++ example
  end.

Definition network_rule_line (args : list str) : str :=
  lit "network_rule(" ++ join (lit ", ") args ++ lit ")".

(** The [key=value] arguments, in the order of the source. *)
Definition network_rule_args (host : str) (protocol : NetworkRuleProtocol) (decision : Decision)
    (justification : option str) : result (list str) str :=
  let? host := json_string host in
  let? protocol := json_string (as_policy_string protocol) in
  let? decision := json_string (policy_decision_string decision) in
  let args := [lit "host=" ++ host; lit "protocol=" ++ protocol; lit "decision=" ++ decision] in
  match justification with
  | None => Ok args
  | Some j => let? j := json_string j in Ok (args ++ [lit "justification=" ++ j])
  end.

Definition blocking_append_network_rule (policy_path host : str) (protocol : NetworkRuleProtocol)
    (decision : Decision) (justification : option str) : act W unit AmendError :=
  do? host := of_result
    (map_err (fun e => InvalidNetworkRule (policy_error_string e)) (normalize_network_rule_host host)) in
  if match justification with Some raw => is_empty (trim raw) | None => false end
  then throw (InvalidNetworkRule (lit "justification cannot be empty"))
  else
    do? args := of_result (map_err SerializeNetworkRule
                  (network_rule_args host protocol decision justification)) in
    append_rule_line policy_path (network_rule_line args).
End Amend.

(** ** Laws of the files *)

(** [view] gives the text of the files.  Opening creates the file; until the
    lock is held other processes may write, so locking promises nothing about
    the text; afterwards only [write_all] changes it, and a failed write may
    have written a part.  A JSON string has no raw line feed and is closed by a
    quotation mark. *)
Class PolicyFilesLaws {W : Type} `{PolicyFiles W} (view : W -> str -> option str) : Prop := {
  open_view w p w' : open_append w p = (w', Ok tt) -> view w' p = Some (default [] (view w p));
  open_fails w p w' e : open_append w p = (w', Err e) -> view w' = view w;
  lock_exists w p w' r : lock w p = (w', r) -> is_Some (view w p) -> is_Some (view w' p);
  seek_view w p w' r : seek_start w p = (w', r) -> view w' = view w;
  read_view w p w' r : read_contents w p = (w', r) -> view w' = view w;
  read_text w p w' c : read_contents w p = (w', Ok c) -> view w p = Some c;
  write_view w p t w' c :
    write_all w p t = (w', Ok tt) -> view w p = Some c -> view w' p = Some (c ++ t);
  write_fails w p t w' e c :
    write_all w p t = (w', Err e) -> view w p = Some c ->
    exists u, u `prefix_of` t /\ view w' p = Some (c ++ u);
  json_string_line s j : json_string s = Ok j -> LF ∉ j;
}.

(** ** The text of the file *)

(** The text with its last line ended. *)
Definition ended (contents : str) : str :=
  if negb (is_empty contents) && negb (ends_with [LF] contents) then contents ++ [LF] else contents.

(** The text after a rule was appended. *)
Definition append_text (contents line : str) : str :=
  if existsb (fun existing => bool_decide (existing = line)) (lines contents) then contents
  else ended contents ++ line ++ [LF].

(** The rules after one was added that was not there. *)
Definition add_absent (line : str) (ls : list str) : list str :=
  if bool_decide (line ∈ ls) then ls else ls ++ [line].

Lemma present_spec (line : str) (ls : list str) :
  existsb (fun existing => bool_decide (existing = line)) ls = bool_decide (line ∈ ls).
Proof.
  apply eq_true_iff_eq. rewrite existsb_exists, bool_decide_eq_true, list_elem_of_In.
  split; [intros (x & Hx & ->%bool_decide_eq_true); done|].
  intros Hl. exists line. split; [done|]. by apply bool_decide_eq_true.
Qed.

Lemma ended_shape c : ended c = [] \/ exists t, ended c = t ++ [LF].
Proof.
  unfold ended. destruct c as [|x c]; [by left|]. right.
  destruct (ends_with [LF] (x :: c)) eqn:E; simpl; [by apply ends_with_true|by exists (x :: c)].
Qed.

Lemma strip_cr_id l : last l <> Some CR -> strip_cr l = l.
Proof.
  intros Hl. unfold strip_cr. destruct (strip_suffix [CR] l) as [r|] eqn:E; [|done].
  apply strip_suffix_Some in E. subst. by rewrite last_snoc in Hl.
Qed.

Lemma lines_terminated t : lines (t ++ [LF]) = map strip_cr (split_on LF t).
Proof.
  unfold lines. rewrite split_on_app_any. change (split_on LF []) with [@nil N].
  by rewrite removelast_snoc, last_snoc, app_nil_r.
Qed.

Lemma lines_add c l :
  LF ∉ l -> last l <> Some CR -> lines (ended c ++ l ++ [LF]) = lines (ended c) ++ [l].
Proof.
  intros Hl Hcr. destruct (ended_shape c) as [-> | [t ->]].
  - simpl. rewrite lines_terminated, split_on_no_sep by done. simpl. by rewrite strip_cr_id.
  - rewrite <-app_assoc. simpl. rewrite (app_comm_cons l [LF] LF).
    change (t ++ (LF :: l) ++ [LF]) with (t ++ LF :: (l ++ [LF])).
    rewrite app_comm_cons, app_assoc, !lines_terminated, split_on_app_any, map_app.
    rewrite (split_on_no_sep LF l) by done. simpl. by rewrite strip_cr_id.
Qed.

Lemma join_last ps b :
  exists pre, join [LF] (ps ++ [b]) = pre ++ b /\ (pre = [] \/ last pre = Some LF).
Proof.
  induction ps as [|p ps (pre & Hj & Hpre)]; [by exists []; auto|].
  exists (p ++ [LF] ++ pre). split.
  - simpl. rewrite Hj. destruct ps; simpl in *; by rewrite <-app_assoc.
  - right. destruct Hpre as [-> | Hl]; [by rewrite app_nil_r, last_snoc|].
    rewrite app_assoc, last_app, Hl. done.
Qed.

(** Ending the last line leaves the lines, unless it ended in a lone carriage
    return. *)
Lemma lines_ended c : last c <> Some CR -> lines (ended c) = lines c.
Proof.
  intros Hcr. unfold ended. destruct (negb _ && negb _) eqn:E; [|done].
  rewrite lines_terminated. unfold lines.
  pose proof (split_on_nonnil LF c) as Hne. pose proof (join_split_on LF c) as Hj.
  destruct (split_on LF c) as [|b ps _] using rev_ind; [done|].
  rewrite removelast_snoc, last_snoc, map_app. f_equal.
  destruct (join_last ps b) as (pre & Hpre & Hlast). rewrite Hj in Hpre.
  rewrite Hpre in E, Hcr. boolify. clear Hj Hpre.
  destruct b as [|x b].
  - exfalso. rewrite app_nil_r in *. destruct Hlast as [-> | Hl]; [by simplify_eq/=|].
    apply last_Some in Hl as [r ->]. enough (ends_with [LF] (r ++ [LF]) = true) by congruence.
    apply ends_with_true. by exists r.
  - simpl. rewrite strip_cr_id; [done|]. by rewrite last_app_cons in Hcr.
Qed.

Lemma lines_append c l :
  LF ∉ l -> last l <> Some CR -> last c <> Some CR -> lines (append_text c l) = add_absent l (lines c).
Proof.
  intros Hl Hlcr Hc. unfold append_text, add_absent. rewrite present_spec. case_bool_decide; [done|].
  by rewrite lines_add, lines_ended.
Qed.

Lemma append_text_has c l : LF ∉ l -> last l <> Some CR -> l ∈ lines (append_text c l).
Proof.
  intros Hl Hcr. unfold append_text. rewrite present_spec. case_bool_decide; [done|].
  rewrite lines_add by done. set_solver.
Qed.

Lemma append_text_prefix c l : c `prefix_of` append_text c l.
Proof.
  unfold append_text, ended. case_goal; [done|]. case_goal; [|by eexists].
  rewrite <-app_assoc. by eexists.
Qed.

Lemma append_text_idemp c l :
  LF ∉ l -> last l <> Some CR -> append_text (append_text c l) l = append_text c l.
Proof.
  intros Hl Hcr. unfold append_text at 1. rewrite present_spec, bool_decide_true; [done|].
  by apply append_text_has.
Qed.

(** ** The operations *)

Section Appended.
Context {W : Type} `{PolicyFiles W} {Std : UnicodeStd} (view : W -> str -> option str).
Context {Laws : PolicyFilesLaws view}.

(** [c] is the text of the file when the lock was taken after opening it in [w]. *)
Definition locked_text (w : W) (path : str) (wl : W) : Prop :=
  exists w1, open_append w path = (w1, Ok tt) /\ lock w1 path = (wl, Ok tt).

Lemma append_locked_line_ok path line (w w' : W) :
  append_locked_line path line w = (w', Ok tt) ->
  exists wl c, locked_text w path wl /\ view wl path = Some c /\
    view w' path = Some (append_text c line).
Proof using Laws.
  unfold append_locked_line, bind, map_err_act, ret.
  destruct (open_append w path) as [w1 [[]|e]] eqn:Eo; [simpl|done].
  destruct (lock w1 path) as [wl [[]|e]] eqn:El; [simpl|done].
  destruct (seek_start wl path) as [w2 [[]|e]] eqn:Es; [simpl|done].
  destruct (read_contents w2 path) as [w3 [c|e]] eqn:Er; [simpl|done].
  pose proof (read_text _ _ _ _ Er) as Ht. apply read_view in Er. apply seek_view in Es.
  intros Ha. exists wl, c. split; [by exists w1|]. split; [by rewrite <-Es|].
  rewrite <-Er in Ht. unfold append_text, ended. case_hyp Ha; [congruence|].
  destruct (negb _ && negb _).
  - destruct (write_all w3 path [LF]) as [w4 [[]|e]] eqn:E4; [simpl in Ha|done].
    destruct (write_all w4 path (line ++ [LF])) as [w5 [[]|e]] eqn:E5; simplify_eq/=.
    pose proof (write_view _ _ _ _ _ E4 Ht) as H4. rewrite (write_view _ _ _ _ _ E5 H4).
    by rewrite <-app_assoc.
  - destruct (write_all w3 path (line ++ [LF])) as [w5 [[]|e]] eqn:E5; simplify_eq/=.
    by rewrite (write_view _ _ _ _ _ E5 Ht).
Qed.

Lemma append_locked_line_partial path line (w w' : W) p e :
  append_locked_line path line w = (w', Err (WritePolicyFile p e)) ->
  exists wl c c', locked_text w path wl /\ view wl path = Some c /\ view w' path = Some c' /\
    c `prefix_of` c' /\ c' `prefix_of` append_text c line.
Proof using Laws.
  unfold append_locked_line, bind, map_err_act, ret.
  destruct (open_append w path) as [w1 [[]|]] eqn:Eo; [simpl|done].
  destruct (lock w1 path) as [wl [[]|]] eqn:El; [simpl|done].
  destruct (seek_start wl path) as [w2 [[]|]] eqn:Es; [simpl|done].
  destruct (read_contents w2 path) as [w3 [c|]] eqn:Er; [simpl|done].
  pose proof (read_text _ _ _ _ Er) as Ht. apply read_view in Er. apply seek_view in Es.
  rewrite <-Er in Ht. rewrite Er, Es in Ht. intros Ha. exists wl, c.
  rewrite <-Es, <-Er in Ht. unfold append_text, ended. case_hyp Ha.
  destruct (negb _ && negb _).
  - destruct (write_all w3 path [LF]) as [w4 [[]|]] eqn:E4; simpl in Ha.
    + destruct (write_all w4 path (line ++ [LF])) as [w5 [[]|]] eqn:E5; simplify_eq/=.
      pose proof (write_view _ _ _ _ _ E4 Ht) as H4.
      destruct (write_fails _ _ _ _ _ _ E5 H4) as (u & Hu & Hw). exists ((c ++ [LF]) ++ u).
      split; [by exists w1|]. split; [congruence|]. split; [done|].
      split; [rewrite <-app_assoc; by eexists|by apply prefix_app].
    + simplify_eq/=. destruct (write_fails _ _ _ _ _ _ E4 Ht) as (u & Hu & Hw). exists (c ++ u).
      split; [by exists w1|]. split; [congruence|]. split; [done|]. split; [by eexists|].
      rewrite <-app_assoc. apply prefix_app. by apply prefix_app_r.
  - destruct (write_all w3 path (line ++ [LF])) as [w5 [[]|]] eqn:E5; simplify_eq/=.
    destruct (write_fails _ _ _ _ _ _ E5 Ht) as (u & Hu & Hw). exists (c ++ u).
    split; [by exists w1|]. split; [congruence|]. split; [done|]. split; [by eexists|].
    by apply prefix_app.
Qed.

(** The line appended in [w']: the file held [c] when the lock was taken, after
    the directory was created in [w]. *)
Definition appended (path rule : str) (w w' : W) : Prop :=
  exists dir wd wl c c',
    parent path = Some dir /\ (create_dir w dir).1 = wd /\ locked_text wd path wl /\
    view wl path = Some c /\ view w' path = Some c' /\
    c' = append_text c rule /\ c `prefix_of` c' /\ rule ∈ lines c' /\
    (last c <> Some CR -> lines c' = add_absent rule (lines c)) /\
    append_text c' rule = c'.

Lemma append_rule_line_cases path rule (w w' : W) r :
  append_rule_line path rule w = (w', r) ->
  (exists dir, parent path = Some dir /\
     append_locked_line path rule (create_dir w dir).1 = (w', r)) \/
  r = Err (MissingParent path) \/ exists dir e, r = Err (CreatePolicyDir dir e).
Proof.
  unfold append_rule_line, throw. destruct (parent path) as [dir|]; [|naive_solver].
  destruct (create_dir w dir) as [wd [[]|e]] eqn:Ed; intros Ha.
  - left. exists dir. by rewrite Ed.
  - case_hyp Ha; [|naive_solver]. left. exists dir. by rewrite Ed.
Qed.

Lemma append_rule_line_ok path rule (w w' : W) :
  LF ∉ rule -> last rule <> Some CR -> append_rule_line path rule w = (w', Ok tt) ->
  appended path rule w w'.
Proof using Laws.
  intros Hlf Hcr [(dir & Hd & Ha)|[|(? & ? & ?)]]%append_rule_line_cases; try done.
  apply append_locked_line_ok in Ha as (wl & c & Hl & Hc & Hc').
  exists dir, (create_dir w dir).1, wl, c, (append_text c rule).
  repeat split; auto using append_text_prefix, append_text_has, lines_append, append_text_idemp.
Qed.

Lemma no_LF (s : str) : forallb (fun c => negb (c =? LF)%N) s = true -> LF ∉ s.
Proof.
  intros Hs Hin. rewrite forallb_forall in Hs. apply list_elem_of_In, Hs in Hin. done.
Qed.

Lemma join_no_LF sep ls : LF ∉ sep -> Forall (fun l => LF ∉ l) ls -> LF ∉ join sep ls.
Proof.
  intros Hsep. induction 1 as [|l ls Hl Hls IH]; [apply not_elem_of_nil|]. simpl.
  destruct ls; [done|]. rewrite !elem_of_app. naive_solver.
Qed.

Lemma json_strings_no_LF ts js : json_strings ts = Ok js -> Forall (fun j => LF ∉ j) js.
Proof using Laws.
  revert js. induction ts as [|t ts IH]; simpl; intros js Hj; [by simplify_eq|].
  destruct (json_string t) as [j|] eqn:Ej; [|done].
  destruct (json_strings ts) as [js'|]; simplify_eq. constructor; [|by auto].
  by eapply json_string_line.
Qed.

(** Allowing a command prefix: a call that succeeds has found or appended the
    line of its rule.  The text that was there under the lock stays as it was,
    the rule is one of the lines, it is added only if it was absent, no other
    line changes, and allowing the same prefix again changes nothing. *)
Theorem append_prefix_rule_exact path prefix (w w' : W) :
  blocking_append_allow_prefix_rule path prefix w = (w', Ok tt) ->
  prefix <> [] /\ exists tokens, json_strings prefix = Ok tokens /\
    appended path (prefix_rule_line tokens) w w'.
Proof using Laws.
  unfold blocking_append_allow_prefix_rule. destruct prefix as [|t ts]; [done|]. intros Ha.
  split; [done|]. set (pre := t :: ts) in *. clearbody pre.
  apply bind_ok in Ha as (w1 & tokens & Hj & Ha). injection Hj as <- Hj.
  destruct (json_strings pre) as [js|] eqn:Ej; simplify_eq/=. exists tokens. split; [done|].
  apply append_rule_line_ok; [|by unfold prefix_rule_line; rewrite !app_assoc, last_app|done].
  pose proof (join_no_LF (lit ", ") tokens (no_LF (lit ", ") eq_refl) (json_strings_no_LF _ _ Ej)) as Hn.
  unfold prefix_rule_line. rewrite !not_elem_of_app. repeat split; try done; by apply no_LF.
Qed.

Lemma network_rule_args_no_LF h protocol decision j args :
  network_rule_args h protocol decision j = Ok args -> Forall (fun a => LF ∉ a) args.
Proof using Laws.
  unfold network_rule_args. intros Ha.
  destruct (json_string h) as [jh|] eqn:Eh; [|done].
  destruct (json_string (as_policy_string protocol)) as [jp|] eqn:Ep; [|done].
  destruct (json_string (policy_decision_string decision)) as [jd|] eqn:Ed; [|done].
  apply json_string_line in Eh, Ep, Ed.
  assert (Hall : Forall (fun a => LF ∉ a)
            [lit "host=" ++ jh; lit "protocol=" ++ jp; lit "decision=" ++ jd]).
  { repeat constructor; apply not_elem_of_app; split; try done; by apply no_LF. }
  destruct j as [j|]; [|by simplify_eq].
  destruct (json_string j) as [jj|] eqn:Ej; [|done]. apply json_string_line in Ej.
  assert (args = [lit "host=" ++ jh; lit "protocol=" ++ jp; lit "decision=" ++ jd]
            ++ [lit "justification=" ++ jj]) as -> by congruence.
  apply Forall_app. split; [done|]. constructor; [|done].
  apply not_elem_of_app. split; [by apply no_LF|done].
Qed.

(** Allowing or denying a network host: a call that succeeds was given a host
    that normalises and no blank justification, and has found or appended the
    line of its rule for the normalised host, as for a command prefix. *)
Theorem append_network_rule_exact path raw protocol decision justification (w w' : W) :
  blocking_append_network_rule path raw protocol decision justification w = (w', Ok tt) ->
  exists h args, normalize_network_rule_host raw = Ok h /\
    (forall j, justification = Some j -> trim j <> []) /\
    network_rule_args h protocol decision justification = Ok args /\
    appended path (network_rule_line args) w w'.
Proof using Laws.
  unfold blocking_append_network_rule. intros Ha. apply bind_ok in Ha as (w1 & h & Hh & Ha).
  injection Hh as <- Hh. destruct (normalize_network_rule_host raw) as [h'|]; simplify_eq/=.
  destruct (match justification with Some raw => _ | None => _ end) eqn:Hj; [done|].
  apply bind_ok in Ha as (w1 & args & Hargs & Ha). injection Hargs as <- Hargs.
  destruct (network_rule_args h protocol decision justification) as [args'|] eqn:E; simplify_eq/=.
  exists h, args. split; [done|]. split; [intros j -> Ht; by rewrite Ht in Hj|]. split; [done|].
  apply append_rule_line_ok; [|by unfold network_rule_line; rewrite !app_assoc, last_app|done].
  pose proof (join_no_LF (lit ", ") args (no_LF (lit ", ") eq_refl) (network_rule_args_no_LF _ _ _ _ _ E)).
  unfold network_rule_line. rewrite !not_elem_of_app. repeat split; try done; by apply no_LF.
Qed.

(** A write that fails half way never damages the rules that were there: the
    file then holds its old text and a beginning of what was to be appended. *)
Theorem append_rule_write_failure path rule (w w' : W) p e :
  append_rule_line path rule w = (w', Err (WritePolicyFile p e)) ->
  exists dir wl c c', parent path = Some dir /\ locked_text (create_dir w dir).1 path wl /\
    view wl path = Some c /\ view w' path = Some c' /\
    c `prefix_of` c' /\ c' `prefix_of` append_text c rule.
Proof using Laws.
  intros [(dir & Hd & Ha)|[|(? & ? & ?)]]%append_rule_line_cases; try done.
  apply append_locked_line_partial in Ha as (wl & c & c' & Ha). exists dir, wl, c, c'. naive_solver.
Qed.
End Appended.

(** ** Files in memory *)

Module AmendDemo.
(** One file; writes fail from the time the disk is full. *)
Record disk : Type := mkDisk { file : option str; room : nat }.

#[export] Instance disk_files : PolicyFiles disk := {|
  parent p := Some (lit "/p");
  create_dir w _ := (w, Err (mkIoError AlreadyExists (lit "exists")));
  open_append w _ := (mkDisk (Some (default [] (file w))) (room w), Ok tt);
  lock w _ := (w, Ok tt);
  seek_start w _ := (w, Ok tt);
  read_contents w _ := (w, ok_or (file w) (mkIoError NotFound (lit "gone")));
  write_all w _ t :=
    match file w with
    | None => (w, Err (mkIoError NotFound (lit "gone")))
    | Some c =>
        if length t <=? room w then (mkDisk (Some (c ++ t)) (room w - length t), Ok tt)
        else (mkDisk (Some (c ++ take (room w) t)) 0, Err (mkIoError OtherKind (lit "full")))
    end;
  json_string s := if bool_decide (LF ∈ s) then Err (lit "unsupported")
                   else Ok ([QUOTE] ++ s ++ [QUOTE]);
|}.

Definition disk_view (w : disk) (_ : str) : option str := file w.

Lemma disk_write w p t w' r c :
  write_all w p t = (w', r) -> file w = Some c ->
  (r = Ok tt /\ file w' = Some (c ++ t)) \/
  (exists e, r = Err e) /\ exists u, u `prefix_of` t /\ file w' = Some (c ++ u).
Proof.
  simpl. intros Hw Hf. rewrite Hf in Hw. case_hyp Hw; simplify_eq/=; [by left|right].
  split; [by eexists|]. exists (take (room w) t). split; [|done].
  exists (drop (room w) t). by rewrite take_drop.
Qed.

#[export] Instance disk_laws : PolicyFilesLaws disk_view.
Proof.
  split; unfold disk_view.
  7: intros w p t w' c Hw Hf; destruct (disk_write _ _ _ _ _ _ Hw Hf) as [[_ ?]|[[e ?] _]]; done.
  7: intros w p t w' e c Hw Hf; destruct (disk_write _ _ _ _ _ _ Hw Hf) as [[? _]|[_ ?]]; done.
  all: simpl; intros; simplify_eq; try done.
  - match goal with Hr : ok_or ?f _ = Ok _ |- _ => destruct f; by simplify_eq/= end.
  - match goal with Hj : (if _ then _ else _) = _ |- _ => case_hyp Hj end. boolify. simplify_eq.
    rewrite elem_of_cons, elem_of_app, list_elem_of_singleton. naive_solver.
Qed.

Definition path : str := lit "/p/default.rules".
Definition old_disk : disk := mkDisk (Some (lit "# mine")) 1000.
Definition full_disk : disk := mkDisk (Some (lit "# mine")) 3.
Definition new_disk : disk :=
  (blocking_append_allow_prefix_rule path [lit "git"; lit "status"] old_disk).1.
Definition net_disk : disk :=
  (blocking_append_network_rule (Std := ascii_std) path (lit "Example.com") Https Allow None
     old_disk).1.
Definition broken_disk : disk := (append_rule_line path (lit "r()") full_disk).1.
End AmendDemo.
Import AmendDemo.

Example new_disk_text :
  lines (default [] (file new_disk))
  = [lit "# mine";
     lit "prefix_rule(pattern=[" ++ [QUOTE] ++ lit "git" ++ [QUOTE] ++ lit ", " ++ [QUOTE]
     ++ lit "status" ++ [QUOTE] ++ lit "], decision=" ++ [QUOTE] ++ lit "allow" ++ [QUOTE] ++ lit ")"].
Proof. vm_compute. reflexivity. Qed.

Lemma append_prefix_rule_exact_witness :
  exists tokens, appended disk_view path (prefix_rule_line tokens) old_disk new_disk.
Proof.
  destruct (append_prefix_rule_exact disk_view path [lit "git"; lit "status"] old_disk new_disk)
    as (_ & tokens & _ & Happ); [vm_compute; reflexivity|].
  exists tokens. exact Happ.
Defined.

Lemma append_network_rule_exact_witness :
  exists args, appended disk_view path (network_rule_line args) old_disk net_disk.
Proof.
  destruct (@append_network_rule_exact disk disk_files ascii_std disk_view disk_laws path
    (lit "Example.com") Https Allow None old_disk net_disk) as (h & args & _ & _ & _ & Happ);
    [vm_compute; reflexivity|].
  exists args. exact Happ.
Defined.

Lemma append_rule_write_failure_witness :
  exists c', disk_view broken_disk path = Some c' /\ lit "# mine" `prefix_of` c'.
Proof.
  destruct (append_rule_write_failure disk_view path (lit "r()") full_disk broken_disk path
    (mkIoError OtherKind (lit "full"))) as (dir & wl & c & c' & _ & Hl & Hc & Hc' & Hp & _);
    [vm_compute; reflexivity|].
  exists c'. split; [exact Hc'|]. destruct Hl as (w1 & Ho & Hlock). vm_compute in Ho, Hlock.
  injection Ho as <-. injection Hlock as <-. vm_compute in Hc. injection Hc as <-. exact Hp.
Defined.
