(* ===== verification/IpAddr.v ===== *)
(** * Addresses

    The addresses of [std::net] as [network-proxy/src/policy.rs] uses them: reading their
    text as [IpAddr::from_str] does, the classes of the standard library, and the
    classification of that file.  An IPv4 address is a number below [2^32], an IPv6
    address its eight 16-bit segments. *)

From Stdlib Require Import ZArith NArith Lia.
From S2P Require Import Prelude RustStr.

Inductive IpAddr : Type := V4 (ip : N) | V6 (segments : list N).
#[export] Instance ip_addr_eq_dec : EqDecision IpAddr.
Proof. solve_decision. Defined.

Definition wf_ip (a : IpAddr) : Prop :=
  match a with
  | V4 ip => (ip < 2 ^ 32)%N
  | V6 segments => length segments = 8 /\ Forall (fun g => (g < 2 ^ 16)%N) segments
  end.

(** ** Reading an address ([IpAddr::from_str]) *)

Definition COLON : N := 58.
Definition PERIOD : N := 46.

Definition digit_value (radix c : N) : option N :=
  let! d :=
    (if is_ascii_digit c then Some (c - 48)
     else if (97 <=? c) && (c <=? 102) then Some (c - 87)
     else if (65 <=? c) && (c <=? 70) then Some (c - 55) else None)%N in
  if (d <? radix)%N then Some d else None.

(** The digits at the start of the text: how many, their value, what follows. *)
Fixpoint read_digits (radix : N) (acc : N) (s : str) : nat * N * str :=
  match s with
  | c :: s' =>
      match digit_value radix c with
      | Some d => let '(n, v, rest) := read_digits radix (acc * radix + d) s' in (S n, v, rest)
      | None => (0, acc, s)
      end
  | [] => (0, acc, s)
  end.

(** [read_number] with at most [max_digits] digits and values below [bound]. *)
Definition read_number (radix bound : N) (max_digits : nat) (allow_zero_prefix : bool) (s : str) : option (N * str) :=
  let '(n, v, rest) := read_digits radix 0 s in
  let has_leading_zero := match s with c :: _ => (c =? 48)%N | [] => false end in
  if (n =? 0)%nat || (max_digits <? n)%nat || (bound <=? v)%N then None
  else if negb allow_zero_prefix && has_leading_zero && (1 <? n)%nat then None
  else Some (v, rest).

Definition read_given_char (c : N) (s : str) : option str :=
  match s with x :: s' => if (x =? c)%N then Some s' else None | [] => None end.

(** [read_separator]: the separator comes before all but the first. *)
Definition read_separator {A} (sep : N) (index : nat) (inner : str -> option (A * str)) (s : str) : option (A * str) :=
  match index with
  | O => inner s
  | S _ => let! s := read_given_char sep s in inner s
  end.

Definition read_octet : str -> option (N * str) := read_number 10 256 3 false.

Definition read_ipv4_addr (s : str) : option (N * str) :=
  let! (a, s) := read_separator PERIOD 0 read_octet s in
  let! (b, s) := read_separator PERIOD 1 read_octet s in
  let! (c, s) := read_separator PERIOD 2 read_octet s in
  let! (d, s) := read_separator PERIOD 3 read_octet s in
  Some (((a * 256 + b) * 256 + c) * 256 + d, s)%N.

(** [read_groups] from index [i], with room for [left] more: the groups, whether they
    end in an IPv4 address, what follows. *)
Fixpoint read_groups (i left : nat) (s : str) : list N * bool * str :=
  match left with
  | O => ([], false, s)
  | S left' =>
      match (match left' with O => None | S _ => read_separator COLON i read_ipv4_addr s end) with
      | Some (v4, s') => ([(v4 / 2 ^ 16)%N; (v4 mod 2 ^ 16)%N], true, s')
      | None =>
          match read_separator COLON i (read_number 16 (2 ^ 16) 4 true) s with
          | Some (g, s') => let '(gs, v4, rest) := read_groups (S i) left' s' in (g :: gs, v4, rest)
          | None => ([], false, s)
          end
      end
  end.

Definition read_ipv6_addr (s : str) : option (list N * str) :=
  let '(head, head_ipv4, s) := read_groups 0 8 s in
  if (length head =? 8)%nat then Some (head, s)
  else if head_ipv4 then None
  else
    let! s := read_given_char COLON s in
    let! s := read_given_char COLON s in
    let '(tail, _, s) := read_groups 0 (8 - (length head + 1)) s in
    Some (head ++ repeat 0%N (8 - length head - length tail) ++ tail, s).

Definition parse_ip (s : str) : option IpAddr :=
  let! (a, rest) :=
    (match read_ipv4_addr s with
     | Some (ip, rest) => Some (V4 ip, rest)
     | None => (fun r => (V6 r.1, r.2)) <$> read_ipv6_addr s
     end) in
  match rest with [] => Some a | _ => None end.

(** ** Classes of the standard library *)

Definition octet (i : N) (ip : N) : N := (ip / 2 ^ (8 * (3 - i)) mod 2 ^ 8)%N.
Definition segment (i : nat) (segments : list N) : N := nth i segments 0%N.

Definition v4_is_loopback (ip : N) : bool := (octet 0 ip =? 127)%N.
Definition v4_is_private (ip : N) : bool :=
  ((octet 0 ip =? 10) || ((octet 0 ip =? 172) && (16 <=? octet 1 ip) && (octet 1 ip <=? 31))
   || ((octet 0 ip =? 192) && (octet 1 ip =? 168)))%N.
Definition v4_is_link_local (ip : N) : bool := ((octet 0 ip =? 169) && (octet 1 ip =? 254))%N.
Definition v4_is_unspecified (ip : N) : bool := (ip =? 0)%N.
Definition v4_is_multicast (ip : N) : bool := ((224 <=? octet 0 ip) && (octet 0 ip <=? 239))%N.
Definition v4_is_broadcast (ip : N) : bool := (ip =? 2 ^ 32 - 1)%N.

Definition v6_is_loopback (segments : list N) : bool := bool_decide (segments = [0; 0; 0; 0; 0; 0; 0; 1]%N).
Definition v6_is_unspecified (segments : list N) : bool := bool_decide (segments = [0; 0; 0; 0; 0; 0; 0; 0]%N).
Definition v6_is_multicast (segments : list N) : bool := (N.land (segment 0 segments) 65280 =? 65280)%N.
Definition v6_is_unique_local (segments : list N) : bool := (N.land (segment 0 segments) 65024 =? 64512)%N.
Definition v6_is_unicast_link_local (segments : list N) : bool := (N.land (segment 0 segments) 65472 =? 65152)%N.

(** [Ipv6Addr::to_ipv4]: the mapped and the compatible addresses. *)
Definition to_ipv4 (segments : list N) : option N :=
  match segments with
  | [0; 0; 0; 0; 0; f; ab; cd]%N => if ((f =? 0) || (f =? 65535))%N then Some (ab * 2 ^ 16 + cd)%N else None
  | _ => None
  end.

Definition is_loopback (a : IpAddr) : bool :=
  match a with V4 ip => v4_is_loopback ip | V6 segments => v6_is_loopback segments end.

(** ** [policy.rs] *)

Definition ipv4_in_cidr (ip base prefix : N) : bool :=
  let mask := if (prefix =? 0)%N then 0%N else (N.shiftl (2 ^ 32 - 1) (32 - prefix) mod 2 ^ 32)%N in
  (N.land ip mask =? N.land base mask)%N.

Definition v4 (a b c d : N) : N := (((a * 256 + b) * 256 + c) * 256 + d)%N.

Definition is_non_public_ipv4 (ip : N) : bool :=
  v4_is_loopback ip || v4_is_private ip || v4_is_link_local ip || v4_is_unspecified ip || v4_is_multicast ip
  || v4_is_broadcast ip
  || ipv4_in_cidr ip (v4 0 0 0 0) 8
  || ipv4_in_cidr ip (v4 100 64 0 0) 10
  || ipv4_in_cidr ip (v4 192 0 0 0) 24
  || ipv4_in_cidr ip (v4 192 0 2 0) 24
  || ipv4_in_cidr ip (v4 198 18 0 0) 15
  || ipv4_in_cidr ip (v4 198 51 100 0) 24
  || ipv4_in_cidr ip (v4 203 0 113 0) 24
  || ipv4_in_cidr ip (v4 240 0 0 0) 4.

Definition is_non_public_ipv6 (segments : list N) : bool :=
  match to_ipv4 segments with
  | Some ip => is_non_public_ipv4 ip || v6_is_loopback segments
  | None =>
      v6_is_loopback segments || v6_is_unspecified segments || v6_is_multicast segments || v6_is_unique_local segments
      || v6_is_unicast_link_local segments
  end.

Definition is_non_public_ip (a : IpAddr) : bool :=
  match a with V4 ip => is_non_public_ipv4 ip | V6 segments => is_non_public_ipv6 segments end.

Example parse_examples :
  parse_ip (lit "127.0.0.1") = Some (V4 (v4 127 0 0 1)) /\ parse_ip (lit "127.0.0.01") = None /\ parse_ip (lit "1.2.3") = None
  /\ parse_ip (lit "::1") = Some (V6 [0; 0; 0; 0; 0; 0; 0; 1]%N)
  /\ parse_ip (lit "fe80::1:2") = Some (V6 [65152; 0; 0; 0; 0; 0; 1; 2]%N)
  /\ parse_ip (lit "::ffff:10.0.0.1") = Some (V6 [0; 0; 0; 0; 0; 65535; 2560; 1]%N)
  /\ parse_ip (lit "1:2:3:4:5:6:7:8") = Some (V6 [1; 2; 3; 4; 5; 6; 7; 8]%N) /\ parse_ip (lit "1::2::3") = None
  /\ parse_ip (lit "::") = Some (V6 (repeat 0%N 8)) /\ parse_ip (lit "fe80::1%eth0") = None.
Proof. split_and!; vm_compute; reflexivity. Qed.

(** ** The blocks *)

(** The addresses of a block, by its first address and its prefix length. *)
Definition in_block (ip : N) (block : N * N) : Prop := (block.1 <= ip < block.1 + 2 ^ (32 - block.2))%N.

(** The blocks of the special-purpose registry that the code means. *)
Definition NON_PUBLIC_BLOCKS : list (N * N) :=
  [(v4 0 0 0 0, 8); (v4 10 0 0 0, 8); (v4 100 64 0 0, 10); (v4 127 0 0 0, 8); (v4 169 254 0 0, 16); (v4 172 16 0 0, 12);
   (v4 192 0 0 0, 24); (v4 192 0 2 0, 24); (v4 192 168 0 0, 16); (v4 198 18 0 0, 15); (v4 198 51 100 0, 24);
   (v4 203 0 113 0, 24); (v4 224 0 0 0, 4); (v4 240 0 0 0, 4)]%N.

(** A mask of [p] ones above [k] zeros rounds down. *)
Lemma land_mask x p k : (x < 2 ^ (p + k))%N -> N.land x (N.shiftl (N.ones p) k) = (x / 2 ^ k * 2 ^ k)%N.
Proof.
  intros Hx. rewrite <-N.shiftr_div_pow2, <-N.shiftl_mul_pow2, <-N.ldiff_ones_r. apply N.bits_inj. intros m.
  rewrite N.land_spec, N.ldiff_spec. destruct (N.lt_ge_cases m k) as [Hm|Hm].
  - rewrite N.shiftl_spec_low, (N.ones_spec_low k m) by done. by rewrite !andb_false_r.
  - rewrite N.shiftl_spec_high', (N.ones_spec_high k m) by done. rewrite andb_true_r.
    destruct (N.lt_ge_cases (m - k) p) as [Hp|Hp]; [by rewrite N.ones_spec_low, andb_true_r|].
    rewrite N.ones_spec_high, andb_false_r by done. symmetry.
    destruct (N.eq_dec x 0%N) as [-> | Hz]; [by rewrite N.bits_0|].
    apply N.bits_above_log2, N.log2_lt_pow2; [lia|]. eapply N.lt_le_trans; [exact Hx|]. apply N.pow_le_mono_r; lia.
Qed.

Lemma rounds_to x b k : (x / 2 ^ k * 2 ^ k = b * 2 ^ k <-> b * 2 ^ k <= x < b * 2 ^ k + 2 ^ k)%N.
Proof.
  pose proof (N.pow_nonzero 2 k ltac:(done)) as Hk. pose proof (N.div_mod x (2 ^ k) Hk) as Hd.
  pose proof (N.mod_lt x (2 ^ k) Hk) as Hm. rewrite (N.mul_comm (2 ^ k)) in Hd. split.
  - intros E. rewrite E in Hd. clear E Hk. revert Hd Hm. generalize (2 ^ k)%N (b * 2 ^ k)%N (x mod 2 ^ k)%N. lia.
  - intros Hx. f_equal. symmetry. apply (N.div_unique x (2 ^ k) b (x - b * 2 ^ k)); lia.
Qed.

Lemma cidr_block ip b prefix :
  (ip < 2 ^ 32)%N -> (0 < prefix <= 32)%N -> (b < 2 ^ prefix)%N ->
  ipv4_in_cidr ip (b * 2 ^ (32 - prefix)) prefix = true <-> in_block ip (b * 2 ^ (32 - prefix), prefix)%N.
Proof.
  intros Hip Hp Hb. unfold ipv4_in_cidr, in_block. destruct (N.eqb_spec prefix 0%N) as [-> | _]; [lia|].
  set (k := (32 - prefix)%N).
  assert (N.shiftl (2 ^ 32 - 1) k mod 2 ^ 32 = N.shiftl (N.ones prefix) k)%N as ->.
  { assert (2 ^ 32 - 1 = N.ones 32)%N as -> by done. rewrite <-N.land_ones. apply N.bits_inj. intros m.
    rewrite N.land_spec. destruct (N.lt_ge_cases m k) as [Hm|Hm]; [by rewrite !N.shiftl_spec_low|].
    rewrite !N.shiftl_spec_high' by done.
    destruct (N.lt_ge_cases (m - k) prefix) as [Hq|Hq].
    - rewrite !N.ones_spec_low by lia. done.
    - rewrite (N.ones_spec_high prefix) by done. rewrite (N.ones_spec_high 32 m) by (unfold k in *; lia). by rewrite andb_false_r. }
  assert (prefix + k = 32)%N as Ek by (unfold k; lia).
  rewrite N.eqb_eq, !land_mask.
  - rewrite N.div_mul by (apply N.pow_nonzero; done). apply rounds_to.
  - rewrite N.pow_add_r. apply N.mul_lt_mono_pos_r; [|done]. apply N.neq_0_lt_0, N.pow_nonzero. done.
  - by rewrite Ek.
Qed.

Lemma octet_first ip : (ip < 2 ^ 32)%N -> octet 0 ip = (ip / 2 ^ 24)%N.
Proof. intros Hip. unfold octet. apply N.mod_small, N.Div0.div_lt_upper_bound. exact Hip. Qed.

Lemma octet_second ip : octet 1 ip = (ip / 2 ^ 16 - ip / 2 ^ 24 * 2 ^ 8)%N.
Proof.
  unfold octet. change (2 ^ (8 * (3 - 1)))%N with (2 ^ 16)%N. change (2 ^ 24)%N with (2 ^ 16 * 2 ^ 8)%N.
  rewrite <-N.Div0.div_div, N.Div0.mod_eq. lia.
Qed.

(** What divisions by powers of two say of a number. *)
#[local] Ltac blocks :=
  rewrite ?octet_second, ?octet_first by done; unfold in_block; cbn [fst snd];
  change (v4 10 0 0 0) with 167772160%N; change (v4 127 0 0 0) with 2130706432%N; change (v4 169 254 0 0) with 2851995648%N;
  change (v4 172 16 0 0) with 2886729728%N; change (v4 192 168 0 0) with 3232235520%N; change (v4 224 0 0 0) with 3758096384%N;
  change (32 - 8)%N with 24%N; change (32 - 16)%N with 16%N; change (32 - 12)%N with 20%N; change (32 - 4)%N with 28%N;
  change (2 ^ 24)%N with 16777216%N; change (2 ^ 16)%N with 65536%N; change (2 ^ 20)%N with 1048576%N;
  change (2 ^ 28)%N with 268435456%N; change (2 ^ 8)%N with 256%N; change (2 ^ 32)%N with 4294967296%N in *;
  zify; Z.to_euclidean_division_equations; lia.

Lemma loopback_block ip : (ip < 2 ^ 32)%N -> v4_is_loopback ip = true <-> in_block ip (v4 127 0 0 0, 8%N).
Proof. intros Hip. unfold v4_is_loopback. rewrite N.eqb_eq. blocks. Qed.

Lemma private_blocks ip :
  (ip < 2 ^ 32)%N ->
  v4_is_private ip = true <->
  in_block ip (v4 10 0 0 0, 8%N) \/ in_block ip (v4 172 16 0 0, 12%N) \/ in_block ip (v4 192 168 0 0, 16%N).
Proof.
  intros Hip. unfold v4_is_private. rewrite !orb_true_iff, !andb_true_iff, !N.eqb_eq, !N.leb_le. blocks.
Qed.

Lemma link_local_block ip : (ip < 2 ^ 32)%N -> v4_is_link_local ip = true <-> in_block ip (v4 169 254 0 0, 16%N).
Proof. intros Hip. unfold v4_is_link_local. rewrite andb_true_iff, !N.eqb_eq. blocks. Qed.

Lemma multicast_block ip : (ip < 2 ^ 32)%N -> v4_is_multicast ip = true <-> in_block ip (v4 224 0 0 0, 4%N).
Proof. intros Hip. unfold v4_is_multicast. rewrite andb_true_iff, !N.leb_le. blocks. Qed.

(** A block of the code's list, from the number its prefix holds. *)
Lemma code_block ip base b prefix :
  (base = b * 2 ^ (32 - prefix))%N -> (0 < prefix <= 32)%N -> (b < 2 ^ prefix)%N -> (ip < 2 ^ 32)%N ->
  ipv4_in_cidr ip base prefix = true <-> in_block ip (base, prefix).
Proof. intros -> Hp Hb Hip. by apply cidr_block. Qed.

Lemma non_public_v4 ip : (ip < 2 ^ 32)%N -> is_non_public_ipv4 ip = true <-> Exists (in_block ip) NON_PUBLIC_BLOCKS.
Proof.
  intros Hip. unfold is_non_public_ipv4, NON_PUBLIC_BLOCKS. rewrite !orb_true_iff, !Exists_cons, Exists_nil.
  rewrite loopback_block, private_blocks, link_local_block, multicast_block by done.
  rewrite (code_block ip _ 0), (code_block ip _ 401), (code_block ip _ 12582912), (code_block ip _ 12582914), (code_block ip _ 25353),
    (code_block ip _ 12989284), (code_block ip _ 13303921), (code_block ip _ 15) by done.
  assert (v4_is_unspecified ip = true -> in_block ip (v4 0 0 0 0, 8%N)) as Hu.
  { unfold v4_is_unspecified. intros ->%N.eqb_eq. unfold in_block. vm_compute. by split. }
  assert (v4_is_broadcast ip = true -> in_block ip (v4 240 0 0 0, 4%N)) as Hb.
  { unfold v4_is_broadcast. intros ->%N.eqb_eq. unfold in_block. vm_compute. by split. }
  tauto.
Qed.

(** A 16-bit segment under a mask. *)
Lemma segment_mask g p b :
  (g < 2 ^ 16)%N -> (p <= 16)%N -> (N.land g (N.shiftl (N.ones p) (16 - p)) =? b * 2 ^ (16 - p))%N = true
  <-> (b * 2 ^ (16 - p) <= g < b * 2 ^ (16 - p) + 2 ^ (16 - p))%N.
Proof. intros Hg Hp. rewrite N.eqb_eq, land_mask; [apply rounds_to|]. by replace (p + (16 - p))%N with 16%N by lia. Qed.

(** The addresses that the comments of the code name as not public: the IPv4 blocks;
    and for IPv6 the addresses that stand for one of them (mapped or compatible), [::1],
    [::], unique-local [fc00::/7], link-local [fe80::/10] and multicast [ff00::/8]. *)
Definition non_public (a : IpAddr) : Prop :=
  match a with
  | V4 ip => Exists (in_block ip) NON_PUBLIC_BLOCKS
  | V6 segments =>
      (exists f ab cd, segments = [0; 0; 0; 0; 0; f; ab; cd]%N /\ (f = 0 \/ f = 65535)%N
                       /\ Exists (in_block (ab * 2 ^ 16 + cd)%N) NON_PUBLIC_BLOCKS)
      \/ segments = [0; 0; 0; 0; 0; 0; 0; 1]%N \/ segments = [0; 0; 0; 0; 0; 0; 0; 0]%N
      \/ (let g := segment 0 segments in 64512 <= g < 65024 \/ 65152 <= g < 65216 \/ 65280 <= g)%N
  end.

Lemma to_ipv4_bound segments ip :
  Forall (fun g => (g < 2 ^ 16)%N) segments -> to_ipv4 segments = Some ip -> (ip < 2 ^ 32)%N.
Proof.
  intros Hs H. unfold to_ipv4 in H. repeat case_match; try done. simplify_eq.
  rewrite !Forall_cons in Hs. destruct Hs as (_ & _ & _ & _ & _ & _ & Hab & Hcd & _).
  change (2 ^ 32)%N with (2 ^ 16 * 2 ^ 16)%N. change (2 ^ 16)%N with 65536%N in *. lia.
Qed.

Lemma to_ipv4_first segments : segment 0 segments <> 0%N -> to_ipv4 segments = None.
Proof. intros Hg. unfold to_ipv4. by repeat case_match. Qed.

Lemma high_segment g :
  (g < 2 ^ 16)%N -> (64512 <= g < 65024 \/ 65152 <= g < 65216 \/ 65280 <= g)%N ->
  (N.land g 65280 =? 65280)%N = true \/ (N.land g 65024 =? 64512)%N = true \/ (N.land g 65472 =? 65152)%N = true.
Proof.
  intros Hg. rewrite (segment_mask _ 8 255), (segment_mask _ 7 126), (segment_mask _ 10 1018) by done.
  change (255 * 2 ^ (16 - 8))%N with 65280%N. change (126 * 2 ^ (16 - 7))%N with 64512%N.
  change (1018 * 2 ^ (16 - 10))%N with 65152%N. change (2 ^ (16 - 8))%N with 256%N. change (2 ^ (16 - 7))%N with 512%N.
  change (2 ^ (16 - 10))%N with 64%N. change (2 ^ 16)%N with 65536%N in Hg. lia.
Qed.

Lemma listed_non_public a : wf_ip a -> non_public a -> is_non_public_ip a = true.
Proof.
  destruct a as [ip|segments]; simpl; [by intros ? ?; apply non_public_v4|]. intros [Hl Hs].
  intros [(f & ab & cd & -> & Hf & Hb)|[-> |[-> | Hg]]]; [|vm_compute; reflexivity..|].
  - unfold is_non_public_ipv6, to_ipv4. assert (((f =? 0) || (f =? 65535))%N = true) as -> by (destruct Hf as [-> | ->]; done).
    rewrite orb_true_iff. left. apply non_public_v4; [|done]. apply (to_ipv4_bound [0; 0; 0; 0; 0; f; ab; cd]%N); [done|].
    unfold to_ipv4. by destruct Hf as [-> | ->].
  - unfold is_non_public_ipv6. rewrite to_ipv4_first by lia. rewrite !orb_true_iff.
    unfold v6_is_multicast, v6_is_unique_local, v6_is_unicast_link_local.
    assert (segment 0 segments < 2 ^ 16)%N as Hlt.
    { unfold segment. destruct segments; [done|]. by apply Forall_cons in Hs as [? _]. }
    destruct (high_segment _ Hlt Hg) as [?|[?|?]]; tauto.
Qed.

(** C27.  The addresses that are meant not to be public are classified so: an IPv4
    address counts as not public exactly when it lies in one of the fourteen
    special-purpose blocks; an IPv6 address counts as not public when it stands for such
    an IPv4 address, or is the loopback or the unspecified address, unique-local,
    link-local or multicast.  Nothing is said of the other IPv6 prefixes. *)
Theorem non_public_classified a :
  wf_ip a -> (non_public a -> is_non_public_ip a = true) /\ (forall ip, a = V4 ip -> is_non_public_ip a = true -> non_public a).
Proof.
  intros Hw. split; [by apply listed_non_public|]. intros ip -> Hn. by apply non_public_v4.
Qed.

Lemma non_public_classified_witness : is_non_public_ip (V4 (v4 100 100 7 9)) = true /\ is_non_public_ip (V6 [65152; 0; 0; 0; 0; 0; 0; 1]%N) = true.
Proof.
  split.
  - apply (non_public_classified (V4 (v4 100 100 7 9))); [vm_compute; reflexivity|].
    right. right. left. vm_compute. split; [discriminate | reflexivity].
  - apply (non_public_classified (V6 [65152; 0; 0; 0; 0; 0; 0; 1]%N)).
    + split; [reflexivity|]. repeat constructor; vm_compute; reflexivity.
    + right. right. right. right. left. vm_compute. split; [discriminate | reflexivity].
Defined.

(** Prefixes that are not globally routable but count as public. *)
Example not_routable_public :
  is_non_public_ip (V6 [8193; 3512; 0; 0; 0; 0; 0; 1]%N) = false /\ is_non_public_ip (V6 [65216; 0; 0; 0; 0; 0; 0; 1]%N) = false
  /\ is_non_public_ip (V6 [100; 65435; 0; 0; 0; 0; 2560; 1]%N) = false.
Proof. split_and!; vm_compute; reflexivity. Qed.

(** ** What is read is an address *)

Lemma read_number_bound radix bound n z s v rest : read_number radix bound n z s = Some (v, rest) -> (v < bound)%N.
Proof.
  unfold read_number. destruct (read_digits radix 0 s) as [[k w] r].
  destruct (_ || _ || _) eqn:E; [done|]. apply orb_false_iff in E as [_ E%N.leb_gt].
  destruct (_ && _ && _); [done|]. by intros [= <- <-].
Qed.

Lemma read_separator_inner {A} sep i (inner : str -> option (A * str)) s r :
  read_separator sep i inner s = Some r -> exists s', inner s' = Some r.
Proof. unfold read_separator. destruct i; [eauto|]. destruct (read_given_char sep s); [eauto | done]. Qed.

Lemma read_ipv4_bound s ip rest : read_ipv4_addr s = Some (ip, rest) -> (ip < 2 ^ 32)%N.
Proof.
  unfold read_ipv4_addr, read_octet. intros H.
  destruct (read_separator PERIOD 0 _ s) as [[a s1]|] eqn:Ea; [|done].
  destruct (read_separator PERIOD 1 _ s1) as [[b s2]|] eqn:Eb; [|done].
  destruct (read_separator PERIOD 2 _ s2) as [[c s3]|] eqn:Ec; [|done].
  destruct (read_separator PERIOD 3 _ s3) as [[d s4]|] eqn:Ed; [|done]. injection H as <- _.
  apply read_separator_inner in Ea as (? & Ea%read_number_bound), Eb as (? & Eb%read_number_bound),
    Ec as (? & Ec%read_number_bound), Ed as (? & Ed%read_number_bound).
  change (2 ^ 32)%N with 4294967296%N. lia.
Qed.

Lemma read_groups_wf left : forall i s gs b rest,
  read_groups i left s = (gs, b, rest) -> length gs <= left /\ Forall (fun g => (g < 2 ^ 16)%N) gs.
Proof.
  induction left as [|left IH]; intros i s gs b rest H; simpl in H; [simplify_eq; split; [simpl; lia | constructor]|].
  destruct (match left with O => None | S _ => read_separator COLON i read_ipv4_addr s end) as [[ip s']|] eqn:E4.
  - destruct left; [done|]. simplify_eq. split; [simpl; lia|].
    apply read_separator_inner in E4 as (? & E4%read_ipv4_bound). constructor; [|constructor; [|constructor]].
    + apply N.Div0.div_lt_upper_bound. exact E4.
    + apply N.mod_lt. done.
  - destruct (read_separator COLON i (read_number 16 (2 ^ 16) 4 true) s) as [[g s']|] eqn:Eg;
      [|simplify_eq; split; [simpl; lia | constructor]].
    destruct (read_groups (S i) left s') as [[gs' b'] rest'] eqn:Er. simplify_eq.
    apply IH in Er as [Hl Hf]. apply read_separator_inner in Eg as (? & Eg%read_number_bound). split; [simpl; lia | by constructor].
Qed.

Lemma parse_ip_wf s a : parse_ip s = Some a -> wf_ip a.
Proof.
  unfold parse_ip. destruct (read_ipv4_addr s) as [[ip [|]]|] eqn:E4; [intros [= <-]; by eapply read_ipv4_bound | done |].
  unfold read_ipv6_addr. destruct (read_groups 0 8 s) as [[head b] s1] eqn:Eh. apply read_groups_wf in Eh as [Hl Hf].
  destruct (Nat.eqb_spec (length head) 8) as [E8|E8]; simpl; [by destruct s1; intros [= <-]|].
  destruct b; [done|]. destruct (read_given_char COLON s1) as [s2|]; [|done]. destruct (read_given_char COLON s2) as [s3|]; [|done].
  destruct (read_groups 0 (8 - (length head + 1)) s3) as [[tail b'] s4] eqn:Et. apply read_groups_wf in Et as [Hl' Hf'].
  simpl. destruct s4; [|done]. intros [= <-]. simpl. split; [rewrite !length_app, repeat_length; lia|].
  rewrite !Forall_app. split_and!; [done| |done]. apply Forall_forall. intros g Hg. apply list_elem_of_In, repeat_spec in Hg. by subst.
Qed.
