(* ===== verification/NetworkPolicy.v ===== *)
(** * Hosts and domain patterns of the network policy

    [network-proxy/src/policy.rs]: how a host is normalised, how the patterns of an
    allowlist or denylist are compiled to a glob set, and the comparison of patterns by
    which a managed allowlist bounds the user's.  The [globset] and [url] crates are
    parameters; what is relied on is stated for the patterns the code builds. *)

From Stdlib Require Import NArith Lia.
From S2P Require Import Prelude RustStr IpAddr.

(** ** The crates *)

Record GlobOptions : Type := mkGlobOptions {
  case_insensitive : bool;
  literal_separator : bool;
  backslash_escape : bool;
}.

Class GlobLib : Type := {
  Glob : Type;
  glob_build : GlobOptions -> str -> option Glob;
  glob_is_match : Glob -> str -> bool;
  GlobSet : Type;
  globset_build : list Glob -> option GlobSet;
  globset_is_match : GlobSet -> str -> bool;
  (** [url::Host::parse] followed by [to_string]. *)
  url_host_parse : str -> option str;
}.

(** The options of [GlobBuilder::new(..).case_insensitive(true)] on Unix. *)
Definition DOMAIN_OPTIONS : GlobOptions := mkGlobOptions true false true.

(** ** Hosts *)

Definition PERCENT : N := 37.
Definition STAR : N := 42.
Definition QUESTION : N := 63.
Definition LBRACKET : N := 91.
Definition RBRACKET : N := 93.

(** [str::split_once] at a string. *)
Fixpoint split_once_str (p s : str) : option (str * str) :=
  match strip_prefix p s with
  | Some r => Some ([], r)
  | None => match s with [] => None | c :: s' => (fun r => (c :: r.1, r.2)) <$> split_once_str p s' end
  end.

Definition unscoped_ip_literal (host : str) : option str :=
  let! (ip, _) := split_once PERCENT host in
  let! _ := parse_ip ip in
  Some ip.

Definition normalize_ip_literal (host : str) : option str :=
  if bool_decide (is_Some (parse_ip host)) then Some host
  else
    find_map (fun delimiter =>
      let! (ip, scope) := split_once_str delimiter host in
      if bool_decide (is_Some (parse_ip ip)) then Some (ip ++ [PERCENT] ++ scope) else None)
      [lit "%25"; lit "%"].

Definition normalize_dns_host_or_ip_literal (host : str) : str :=
  let host := trim_end_matches PERIOD (to_ascii_lowercase host) in
  default host (normalize_ip_literal host).

Definition count_char (c : N) (s : str) : nat := length (filter (fun x => x = c) s).

Definition normalize_host (host : str) : str :=
  let host := trim host in
  match (if starts_with [LBRACKET] host then split_once RBRACKET (tail host) else None) with
  | Some (inner, _) => normalize_dns_host_or_ip_literal inner
  | None =>
      if (count_char COLON host =? 1)%nat then normalize_dns_host_or_ip_literal (default [] (head (split_on COLON host)))
      else normalize_dns_host_or_ip_literal host
  end.

(** [Host::parse]: a normalised host that is not empty. *)
Definition host_parse (input : str) : option str :=
  let normalized := normalize_host input in
  if is_empty normalized then None else Some normalized.

Definition is_loopback_host (host : str) : bool :=
  let host := default host (unscoped_ip_literal host) in
  bool_decide (host = lit "localhost") || match parse_ip host with Some ip => is_loopback ip | None => false end.

(** ** Patterns *)

Inductive DomainPattern : Type :=
  | ApexAndSubdomains (domain : str)
  | SubdomainsOnly (domain : str)
  | Exact (domain : str).
#[export] Instance domain_pattern_eq_dec : EqDecision DomainPattern.
Proof. solve_decision. Defined.

Definition normalize_pattern (pattern : str) : str :=
  let pattern := trim pattern in
  if bool_decide (pattern = lit "*") then lit "*"
  else
    match strip_prefix (lit "**.") pattern with
    | Some domain => lit "**." ++ normalize_host domain
    | None =>
        match strip_prefix (lit "*.") pattern with
        | Some domain => lit "*." ++ normalize_host domain
        | None => normalize_host pattern
        end
    end.

Definition parse_domain (domain : str) (build : str -> DomainPattern) : DomainPattern :=
  let domain := trim domain in
  if is_empty domain then Exact [] else build domain.

Definition pattern_parse (input : str) : DomainPattern :=
  let input := trim input in
  if is_empty input then Exact []
  else
    match strip_prefix (lit "**.") input with
    | Some domain => parse_domain domain ApexAndSubdomains
    | None =>
        match strip_prefix (lit "*.") input with
        | Some domain => parse_domain domain SubdomainsOnly
        | None => Exact input
        end
    end.

Definition expand_domain_pattern (pattern : str) : list str :=
  match pattern_parse pattern with
  | Exact domain => [domain]
  | SubdomainsOnly domain => [lit "?*." ++ domain]
  | ApexAndSubdomains domain => [domain; lit "?*." ++ domain]
  end.

Definition is_global_wildcard_domain_pattern (pattern : str) : bool :=
  existsb (fun candidate => bool_decide (candidate = lit "*")) (expand_domain_pattern (normalize_pattern pattern)).

Inductive GlobalWildcard : Type := WildcardAllow | WildcardReject.
#[export] Instance global_wildcard_eq_dec : EqDecision GlobalWildcard.
Proof. solve_decision. Defined.

Inductive CompileError : Type :=
  | UnsupportedGlobalWildcard
  | InvalidGlobPattern (candidate : str)
  | GlobSetFailed.

(** *** Comparing patterns *)

Definition normalize_domain (domain : str) : str := to_ascii_lowercase (trim_end_matches PERIOD domain).

Definition domain_eq (left right : str) : bool := bool_decide (normalize_domain left = normalize_domain right).

Definition is_subdomain_or_equal (child parent : str) : bool :=
  let child := normalize_domain child in
  let parent := normalize_domain parent in
  bool_decide (child = parent) || ends_with (PERIOD :: parent) child.

Definition is_strict_subdomain (child parent : str) : bool :=
  let child := normalize_domain child in
  let parent := normalize_domain parent in
  negb (bool_decide (child = parent)) && ends_with (PERIOD :: parent) child.

Definition allows (self candidate : DomainPattern) : bool :=
  match self with
  | Exact domain => match candidate with Exact candidate => domain_eq candidate domain | _ => false end
  | SubdomainsOnly domain =>
      match candidate with
      | Exact candidate => is_strict_subdomain candidate domain
      | SubdomainsOnly candidate => is_subdomain_or_equal candidate domain
      | ApexAndSubdomains candidate => is_strict_subdomain candidate domain
      end
  | ApexAndSubdomains domain =>
      match candidate with
      | Exact candidate => is_subdomain_or_equal candidate domain
      | SubdomainsOnly candidate => is_subdomain_or_equal candidate domain
      | ApexAndSubdomains candidate => is_subdomain_or_equal candidate domain
      end
  end.

Section Crates.
Context `{GlobLib}.

(** The loop over the patterns: [seen] holds the candidates added so far. *)
Fixpoint add_candidates (seen : list str) (globs : list Glob) (candidates : list str)
  : result (list str * list Glob) CompileError :=
  match candidates with
  | [] => Ok (seen, globs)
  | candidate :: rest =>
      if bool_decide (candidate ∈ seen) then add_candidates seen globs rest
      else
        match glob_build DOMAIN_OPTIONS candidate with
        | Some glob => add_candidates (candidate :: seen) (globs ++ [glob]) rest
        | None => Err (InvalidGlobPattern candidate)
        end
  end.

Fixpoint add_patterns (global_wildcard : GlobalWildcard) (seen : list str) (globs : list Glob) (patterns : list str)
  : result (list Glob) CompileError :=
  match patterns with
  | [] => Ok globs
  | pattern :: rest =>
      if bool_decide (global_wildcard = WildcardReject) && is_global_wildcard_domain_pattern pattern
      then Err UnsupportedGlobalWildcard
      else
        let? (seen, globs) := add_candidates seen globs (expand_domain_pattern (normalize_pattern pattern)) in
        add_patterns global_wildcard seen globs rest
  end.

Definition compile_globset_with_policy (patterns : list str) (global_wildcard : GlobalWildcard) : result GlobSet CompileError :=
  let? globs := add_patterns global_wildcard [] [] patterns in
  ok_or (globset_build globs) GlobSetFailed.

Definition compile_allowlist_globset (patterns : list str) : result GlobSet CompileError :=
  compile_globset_with_policy patterns WildcardAllow.
Definition compile_denylist_globset (patterns : list str) : result GlobSet CompileError :=
  compile_globset_with_policy patterns WildcardReject.

Definition parse_domain_for_constraints (domain : str) : str :=
  let domain := trim_end_matches PERIOD (trim domain) in
  if is_empty domain then []
  else
    let host := if starts_with [LBRACKET] domain && ends_with [RBRACKET] domain then removelast (tail domain) else domain in
    if contains_char STAR host || contains_char QUESTION host || contains_char PERCENT host then domain
    else default [] (url_host_parse host).

Definition parse_for_constraints (input : str) : DomainPattern :=
  let input := trim input in
  if is_empty input then Exact []
  else
    match strip_prefix (lit "**.") input with
    | Some domain => ApexAndSubdomains (parse_domain_for_constraints domain)
    | None =>
        match strip_prefix (lit "*.") input with
        | Some domain => SubdomainsOnly (parse_domain_for_constraints domain)
        | None => Exact (parse_domain_for_constraints input)
        end
    end.
End Crates.

(** ** What is relied on *)

(** A character that stands for itself in a glob. *)
Definition literal_char (c : N) : bool :=
  (c <? 128)%N && negb (contains_char c (lit "?*[]{}\,/")).

Definition alphabetic (c : N) : bool := ((97 <=? c) && (c <=? 122) || (65 <=? c) && (c <=? 90))%N.
Definition label_char (c : N) : bool := alphabetic c || is_ascii_digit c || (c =? MINUS)%N.

(** An ordinary domain name: labels of letters, digits and hyphens, none of them in the
    encoding of international names, the last of letters only. *)
Definition plain_label (l : str) : bool :=
  negb (is_empty l) && forallb label_char l && negb (starts_with (lit "xn--") (to_ascii_lowercase l)).
Definition plain_domain (d : str) : bool :=
  forallb plain_label (split_on PERIOD d) && forallb alphabetic (default [] (last (split_on PERIOD d))).

(** [h] is a name strictly below [d]. *)
Definition below (d h : str) : Prop := exists x, x <> [] /\ h = x ++ PERIOD :: d.

Class GlobLaws `{GlobLib} : Prop := {
  globset_any globs set h :
    globset_build globs = Some set -> globset_is_match set h = existsb (fun g => glob_is_match g h) globs;
  glob_star : exists g, glob_build DOMAIN_OPTIONS (lit "*") = Some g /\ forall h, is_ascii h = true -> glob_is_match g h = true;
  glob_literal p :
    forallb literal_char p = true ->
    exists g, glob_build DOMAIN_OPTIONS p = Some g
              /\ forall h, is_ascii h = true -> glob_is_match g h = true <-> to_ascii_lowercase h = to_ascii_lowercase p;
  glob_below d :
    forallb literal_char d = true ->
    exists g, glob_build DOMAIN_OPTIONS (lit "?*." ++ d) = Some g
              /\ forall h, is_ascii h = true -> glob_is_match g h = true <-> below (to_ascii_lowercase d) (to_ascii_lowercase h);
  url_plain d : plain_domain d = true -> url_host_parse d = Some (to_ascii_lowercase d);
}.

(** The hosts a pattern stands for. *)
Definition covers (p : DomainPattern) (h : str) : Prop :=
  let h := to_ascii_lowercase h in
  match p with
  | Exact d => d = lit "*" \/ h = to_ascii_lowercase d
  | SubdomainsOnly d => below (to_ascii_lowercase d) h
  | ApexAndSubdomains d => h = to_ascii_lowercase d \/ below (to_ascii_lowercase d) h
  end.

Definition literal_pattern (p : DomainPattern) : Prop :=
  match p with
  | Exact d => d = lit "*" \/ forallb literal_char d = true
  | SubdomainsOnly d | ApexAndSubdomains d => forallb literal_char d = true
  end.

(** What a pattern of the configuration stands for. *)
Definition pattern_of (p : str) : DomainPattern := pattern_parse (normalize_pattern p).

(** ** The compiled set *)

Section Compiled.
Context `{GlobLaws}.

(** The glob of a candidate matches [h]. *)
Definition candidate_matches (h c : str) : Prop :=
  exists g, glob_build DOMAIN_OPTIONS c = Some g /\ glob_is_match g h = true.

(** The globs so far are those of the candidates seen. *)
Definition globs_of (seen : list str) (globs : list Glob) : Prop :=
  forall h, existsb (fun g => glob_is_match g h) globs = true <-> Exists (candidate_matches h) seen.

Lemma add_candidates_spec candidates : forall seen globs seen' globs',
  globs_of seen globs -> add_candidates seen globs candidates = Ok (seen', globs') ->
  globs_of seen' globs' /\ forall c, c ∈ seen' <-> c ∈ seen \/ c ∈ candidates.
Proof.
  induction candidates as [|c candidates IH]; intros seen globs seen' globs' Hg; simpl.
  - intros [= <- <-]. split; [done|]. set_solver.
  - case_bool_decide as Hc.
    + intros [Hg' Hs]%(IH _ _ _ _ Hg). split; [done|]. intros x. rewrite Hs. set_solver.
    + destruct (glob_build DOMAIN_OPTIONS c) as [g|] eqn:E; [|done]. intros [Hg' Hs]%IH.
      * split; [done|]. intros x. rewrite Hs. set_solver.
      * intros h. rewrite existsb_app, orb_true_iff, Exists_cons, (Hg h). simpl. rewrite orb_false_r.
        unfold candidate_matches at 2. naive_solver.
Qed.

Lemma add_patterns_spec w patterns : forall seen globs globs',
  globs_of seen globs -> add_patterns w seen globs patterns = Ok globs' ->
  exists seen', globs_of seen' globs'
    /\ forall c, c ∈ seen' <-> c ∈ seen \/ exists p, p ∈ patterns /\ c ∈ expand_domain_pattern (normalize_pattern p).
Proof.
  induction patterns as [|p patterns IH]; intros seen globs globs' Hg; simpl.
  - intros [= <-]. exists seen. split; [done|]. set_solver.
  - destruct (_ && _); [done|].
    destruct (add_candidates _ _ _) as [[seen1 globs1]|] eqn:E; [|done].
    apply add_candidates_spec in E as [Hg1 Hs1]; [|done]. intros (seen' & Hg' & Hs')%IH; [|done].
    exists seen'. split; [done|]. intros c. rewrite Hs', Hs1. set_solver.
Qed.

(** One pattern: some candidate of it matches exactly the hosts it stands for. *)
Lemma expand_matches p h :
  literal_pattern (pattern_parse p) -> is_ascii h = true ->
  Exists (candidate_matches h) (expand_domain_pattern p) <-> covers (pattern_parse p) h.
Proof.
  intros Hl Hh. unfold expand_domain_pattern.
  assert (forall d, forallb literal_char d = true ->
            candidate_matches h d <-> to_ascii_lowercase h = to_ascii_lowercase d) as Hlit.
  { intros d Hd. destruct (glob_literal d Hd) as (g & Eg & Hm). unfold candidate_matches. specialize (Hm h Hh). naive_solver. }
  assert (forall d, forallb literal_char d = true ->
            candidate_matches h (lit "?*." ++ d) <-> below (to_ascii_lowercase d) (to_ascii_lowercase h)) as Hbel.
  { intros d Hd. destruct (glob_below d Hd) as (g & Eg & Hm). unfold candidate_matches. specialize (Hm h Hh). naive_solver. }
  destruct (pattern_parse p) as [d|d|d]; unfold covers, literal_pattern in *;
    rewrite ?Exists_cons, Exists_nil.
  - rewrite Hlit, Hbel by done. tauto.
  - rewrite Hbel by done. tauto.
  - destruct Hl as [->|Hd].
    + destruct glob_star as (g & Eg & Hm). split; [by left|]. intros _. left. exists g. auto.
    + rewrite Hlit by done. assert (d <> lit "*") by (intros ->; done). tauto.
Qed.

(** A pattern of a list matches a host by the globs it stands for, wildcards inside a
    label included: a name by itself, [*.name] by what is below it, [**.name] by both. *)
Definition matched_by (p h : str) : Prop :=
  match pattern_of p with
  | Exact d => candidate_matches h d
  | SubdomainsOnly d => candidate_matches h (lit "?*." ++ d)
  | ApexAndSubdomains d => candidate_matches h d \/ candidate_matches h (lit "?*." ++ d)
  end.

Lemma matched_by_candidates p h : Exists (candidate_matches h) (expand_domain_pattern (normalize_pattern p)) <-> matched_by p h.
Proof.
  unfold matched_by, pattern_of, expand_domain_pattern.
  destruct (pattern_parse (normalize_pattern p)); rewrite ?Exists_cons, Exists_nil; tauto.
Qed.

(** For names of ordinary characters that is what the pattern says. *)
Lemma matched_by_literal p h : literal_pattern (pattern_of p) -> is_ascii h = true -> matched_by p h <-> covers (pattern_of p) h.
Proof. intros Hl Hh. rewrite <-matched_by_candidates. by apply expand_matches. Qed.

(** A compiled list matches exactly the hosts that one of its patterns matches. *)
Lemma compiled_matches w patterns set h :
  compile_globset_with_policy patterns w = Ok set -> globset_is_match set h = true <-> exists p, p ∈ patterns /\ matched_by p h.
Proof.
  intros Hc. unfold compile_globset_with_policy in Hc.
  destruct (add_patterns w [] [] patterns) as [globs|] eqn:E; [|done].
  destruct (globset_build globs) as [s|] eqn:Es; [|done]. injection Hc as <-.
  apply add_patterns_spec in E as (seen & Hg & Hs); [|intros ?; by rewrite Exists_nil].
  rewrite (globset_any _ _ _ Es), (Hg h), Exists_exists. setoid_rewrite Hs. setoid_rewrite <-matched_by_candidates.
  setoid_rewrite Exists_exists. split.
  - intros (c & [?|(p & Hp & Hc)] & Hm); [set_solver|]. eauto.
  - intros (p & Hp & c & Hc & Hm). exists c. eauto.
Qed.

(** A compiled list matches exactly the hosts its patterns stand for: a name the
    name itself, [*.name] what is below it, [**.name] both, [*] everything. *)
Lemma compiled_exact w patterns set :
  Forall (fun p => literal_pattern (pattern_of p)) patterns ->
  compile_globset_with_policy patterns w = Ok set ->
  forall h, is_ascii h = true ->
    globset_is_match set h = true <-> exists p, p ∈ patterns /\ covers (pattern_of p) h.
Proof.
  intros Hl Hc h Hh. rewrite (compiled_matches _ _ _ h Hc). rewrite Forall_forall in Hl.
  split; intros (p & Hp & Hm); exists p; (split; [done|]); by apply (matched_by_literal p h (Hl p Hp) Hh).
Qed.

(** One pattern of a list is enough for a match, whatever the others are. *)
Lemma compiled_one w patterns set p h :
  compile_globset_with_policy patterns w = Ok set -> p ∈ patterns -> literal_pattern (pattern_of p) -> is_ascii h = true ->
  covers (pattern_of p) h -> globset_is_match set h = true.
Proof.
  intros Hc Hp Hl Hh Hcov. apply (compiled_matches _ _ _ h Hc). exists p. split; [done|]. by apply matched_by_literal.
Qed.
End Compiled.

(** ** Ordinary domain names *)

Lemma split_on_elem c s : forall x, x ∈ s -> x <> c -> exists l, l ∈ split_on c s /\ x ∈ l.
Proof.
  intros x Hx Hc. rewrite <-(join_split_on c s) in Hx. revert Hx. generalize (split_on c s). intros ls.
  induction ls as [|l ls IH]; [set_solver|]. destruct ls as [|l' ls]; [set_solver|].
  cbn [join]. rewrite !elem_of_app, list_elem_of_singleton. intros [Hl|[->|Hl]]; [set_solver|done|].
  apply IH in Hl as (k & Hk & Hxk). set_solver.
Qed.

Lemma plain_chars d c : plain_domain d = true -> c ∈ d -> c = PERIOD \/ label_char c = true.
Proof.
  intros [Hd _]%andb_true_iff Hc. destruct (decide (c = PERIOD)) as [|Hn]; [by left|]. right.
  destruct (split_on_elem PERIOD d c Hc Hn) as (l & Hl & Hcl).
  rewrite forallb_forall in Hd. apply list_elem_of_In, Hd in Hl. unfold plain_label in Hl. boolify.
  match goal with E : forallb label_char l = true |- _ => rewrite forallb_forall in E; by apply E, list_elem_of_In end.
Qed.

Lemma plain_not_char d c : plain_domain d = true -> label_char c = false -> c <> PERIOD -> c ∉ d.
Proof. intros Hd Hl Hc Hin. destruct (plain_chars d c Hd Hin); congruence. Qed.

Lemma plain_head d : plain_domain d = true -> exists c d', d = c :: d' /\ c <> PERIOD.
Proof.
  intros [Hd _]%andb_true_iff. destruct d as [|c d]; [done|]. exists c, d. split; [done|]. intros ->. by cbn in Hd.
Qed.

(** The last label is that of the end of the name. *)
Lemma plain_last d c : plain_domain d = true -> last d = Some c -> alphabetic c = true.
Proof.
  intros [Hd Hl]%andb_true_iff Hc. apply last_Some in Hc as (d' & ->).
  destruct (decide (c = PERIOD)) as [-> | Hn].
  { exfalso. rewrite split_on_app_any, forallb_app in Hd. simpl in Hd. by rewrite andb_false_r in Hd. }
  assert (exists l, last (split_on PERIOD (d' ++ [c])) = Some (l ++ [c])) as [l E].
  { clear Hd Hl. induction d' as [|x d' IH]; simpl.
    - destruct (N.eqb_spec c PERIOD); [done|]. by exists [].
    - destruct IH as [l IH]. destruct (x =? PERIOD)%N.
      + exists l. rewrite last_cons. by rewrite IH.
      + destruct (split_on PERIOD (d' ++ [c])) as [|h t] eqn:Es; [done|]. destruct t as [|h' t].
        * injection IH as ->. by exists (x :: l).
        * exists l. done. }
  rewrite E in Hl. simpl in Hl. rewrite forallb_app in Hl. simpl in Hl. boolify. done.
Qed.

Lemma label_not_ws c : label_char c = true -> is_whitespace c = false.
Proof.
  unfold label_char, alphabetic, is_ascii_digit, is_whitespace, MINUS. intros Hc.
  rewrite !orb_true_iff, !andb_true_iff, !N.leb_le, !N.eqb_eq in Hc.
  repeat match goal with |- context [(?a <=? ?b)%N] => destruct (N.leb_spec a b); try lia end;
  repeat match goal with |- context [(?a =? ?b)%N] => destruct (N.eqb_spec a b); try lia end; done.
Qed.

Lemma alphabetic_label c : alphabetic c = true -> label_char c = true.
Proof. unfold label_char. by intros ->. Qed.

(** Lower case is a shift of the upper-case letters. *)
Lemma lower_char_cases c : (ascii_lower_char c = c + 32 /\ 65 <= c <= 90 \/ ascii_lower_char c = c /\ ~ 65 <= c <= 90)%N.
Proof. unfold ascii_lower_char. destruct (N.leb_spec 65 c), (N.leb_spec c 90); simpl; lia. Qed.

Lemma alphabetic_true c : alphabetic c = true <-> (97 <= c <= 122 \/ 65 <= c <= 90)%N.
Proof. unfold alphabetic. rewrite orb_true_iff, !andb_true_iff, !N.leb_le. done. Qed.

Lemma lower_alphabetic c : alphabetic (ascii_lower_char c) = alphabetic c.
Proof. apply eq_true_iff_eq. rewrite !alphabetic_true. destruct (lower_char_cases c) as [[-> ?]|[-> ?]]; lia. Qed.

Lemma lower_label c : label_char (ascii_lower_char c) = label_char c.
Proof.
  unfold label_char. rewrite lower_alphabetic. destruct (alphabetic c) eqn:E; [done|].
  destruct (lower_char_cases c) as [[_ ?]|[-> ?]]; [|done].
  assert (alphabetic c = true) by (apply alphabetic_true; lia). congruence.
Qed.

Lemma lower_char_idemp c : ascii_lower_char (ascii_lower_char c) = ascii_lower_char c.
Proof.
  destruct (lower_char_cases (ascii_lower_char c)) as [[-> ?]|[-> ?]]; [|done].
  destruct (lower_char_cases c) as [[E ?]|[E ?]]; rewrite E in *; lia.
Qed.

Lemma lower_idemp s : to_ascii_lowercase (to_ascii_lowercase s) = to_ascii_lowercase s.
Proof. unfold to_ascii_lowercase. rewrite map_map. apply map_ext, lower_char_idemp. Qed.

Lemma lower_app s t : to_ascii_lowercase (s ++ t) = to_ascii_lowercase s ++ to_ascii_lowercase t.
Proof. apply map_app. Qed.

Lemma trim_plain s :
  (forall c, head s = Some c -> is_whitespace c = false) -> (forall c, last s = Some c -> is_whitespace c = false) -> trim s = s.
Proof.
  intros Hh Hl. unfold trim, trim_start. rewrite (proj2 (drop_while_head _ _) Hh). by apply trim_end_id.
Qed.

Lemma trim_end_matches_last c s : last s <> Some c -> trim_end_matches c s = s.
Proof.
  intros Hl. unfold trim_end_matches. rewrite (proj2 (drop_while_head _ _)); [apply rev_involutive|].
  intros x Hx. apply N.eqb_neq. intros <-. apply Hl. by rewrite <-(rev_involutive s), last_rev.
Qed.

(** Membership in a literal, by evaluation. *)
#[local] Ltac in_literal := apply (bool_decide_eq_true_1 _); vm_compute; reflexivity.

Lemma split_once_str_None c p s : c ∈ p -> c ∉ s -> split_once_str p s = None.
Proof.
  intros Hp. induction s as [|x s IH]; intros Hs; simpl.
  - destruct (strip_prefix p []) as [r|] eqn:E; [|done]. apply strip_prefix_Some in E. destruct p; set_solver.
  - destruct (strip_prefix p (x :: s)) as [r|] eqn:E.
    + apply strip_prefix_Some in E. exfalso. apply Hs. rewrite E. apply elem_of_app. by left.
    + rewrite IH; [done|]. set_solver.
Qed.

Lemma normalize_dns_id d :
  last d <> Some PERIOD -> PERCENT ∉ d -> normalize_dns_host_or_ip_literal d = to_ascii_lowercase d.
Proof.
  intros Hl Hp. unfold normalize_dns_host_or_ip_literal.
  assert (forall x c, (x < 65)%N -> ascii_lower_char c = x -> c = x) as Hc.
  { intros x c Hx E. destruct (lower_char_cases c) as [[E' ?]|[E' ?]]; rewrite E' in E; lia. }
  rewrite trim_end_matches_last.
  - unfold normalize_ip_literal. case_bool_decide; [done|].
    assert (PERCENT ∉ to_ascii_lowercase d) as Hd.
    { intros Hin. apply list_elem_of_In, in_map_iff in Hin as (c & E & Hin). apply Hp.
      apply Hc in E; [|done]. subst. by apply list_elem_of_In. }
    cbn [find_map]. by rewrite !(split_once_str_None PERCENT) by (done || in_literal).
  - intros E. apply Hl. unfold to_ascii_lowercase in E. rewrite fmap_last in E.
    destruct (last d) as [c|]; [|done]. injection E as E. f_equal. by apply Hc in E.
Qed.

Lemma count_char_none c s : c ∉ s -> count_char c s = 0.
Proof.
  intros Hc. unfold count_char. induction s as [|x s IH]; [done|].
  rewrite filter_cons, decide_False by set_solver. apply IH. set_solver.
Qed.

Lemma plain_trim d : plain_domain d = true -> trim d = d.
Proof.
  intros Hd. apply trim_plain; intros c Hc.
  - destruct (plain_head d Hd) as (x & d' & -> & Hx). injection Hc as <-.
    destruct (plain_chars _ x Hd) as [?|?]; [set_solver|done|by apply label_not_ws].
  - by apply label_not_ws, alphabetic_label, (plain_last d).
Qed.

Lemma plain_last_period d : plain_domain d = true -> last d <> Some PERIOD.
Proof. intros Hd Hl. by apply (plain_last d) in Hl. Qed.

Lemma normalize_host_domain d : plain_domain d = true -> normalize_host d = to_ascii_lowercase d.
Proof.
  intros Hd. unfold normalize_host. rewrite plain_trim by done.
  assert (starts_with [LBRACKET] d = false) as ->.
  { apply not_true_iff_false. intros [r ->]%starts_with_true.
    apply (plain_not_char _ LBRACKET) in Hd; [set_solver|done..]. }
  rewrite count_char_none by (by apply plain_not_char). simpl.
  apply normalize_dns_id; [by apply plain_last_period|by apply plain_not_char].
Qed.

Lemma split_on_lower d : split_on PERIOD (to_ascii_lowercase d) = map to_ascii_lowercase (split_on PERIOD d).
Proof.
  induction d as [|c d IH]; [done|]. simpl. rewrite IH.
  destruct (N.eqb_spec c PERIOD) as [-> | Hc]; [done|].
  destruct (N.eqb_spec (ascii_lower_char c) PERIOD) as [E|_].
  { destruct (lower_char_cases c) as [[E' ?]|[E' ?]]; rewrite E' in E; unfold PERIOD in *; lia. }
  by destruct (split_on PERIOD d).
Qed.

Lemma plain_lower d : plain_domain d = true -> plain_domain (to_ascii_lowercase d) = true.
Proof.
  unfold plain_domain. rewrite split_on_lower, !andb_true_iff. intros [Hd Hl].
  assert (forall f (l : str), (forall c, f (ascii_lower_char c) = f c) -> forallb f (to_ascii_lowercase l) = forallb f l) as Hf.
  { intros f l Hc. induction l as [|c l IH]; [done|]. simpl. by rewrite Hc, IH. }
  split.
  - rewrite forallb_forall in Hd. apply forallb_forall. intros l (k & <- & Hk)%in_map_iff. apply Hd in Hk.
    unfold plain_label in *. rewrite lower_idemp, (Hf label_char) by apply lower_label. by destruct k.
  - rewrite fmap_last. destruct (last (split_on PERIOD d)) as [l|]; [|done]. simpl in *.
    rewrite (Hf alphabetic); [done|]. apply lower_alphabetic.
Qed.

Lemma normalize_domain_plain d : plain_domain d = true -> normalize_domain d = to_ascii_lowercase d.
Proof. intros Hd. unfold normalize_domain. by rewrite trim_end_matches_last by (by apply plain_last_period). Qed.

(** *** Ordinary patterns *)

Definition pattern_domain (p : DomainPattern) : str :=
  match p with Exact d | SubdomainsOnly d | ApexAndSubdomains d => d end.

Definition map_domain (f : str -> str) (p : DomainPattern) : DomainPattern :=
  match p with
  | Exact d => Exact (f d) | SubdomainsOnly d => SubdomainsOnly (f d) | ApexAndSubdomains d => ApexAndSubdomains (f d)
  end.

(** How a pattern is written. *)
Definition written (p : DomainPattern) : str :=
  match p with Exact d => d | SubdomainsOnly d => lit "*." ++ d | ApexAndSubdomains d => lit "**." ++ d end.

Definition plain_pattern (p : DomainPattern) : Prop := plain_domain (pattern_domain p) = true.

Lemma trim_written p : plain_pattern p -> trim (written p) = written p.
Proof.
  destruct p as [d|d|d]; unfold plain_pattern; simpl; intros Hd; [| |by apply plain_trim];
    (apply trim_plain; [by intros c [= <-]|]; intros c Hc;
     destruct (plain_head d Hd) as (x & d' & -> & _); rewrite ?last_cons_cons in Hc;
     by apply label_not_ws, alphabetic_label, (plain_last (x :: d'))).
Qed.

Lemma plain_no_star p d : plain_domain d = true -> STAR ∈ p -> strip_prefix p d = None.
Proof.
  intros Hd Hp. destruct (strip_prefix p d) as [r|] eqn:E; [|done]. apply strip_prefix_Some in E as ->.
  apply (plain_not_char _ STAR) in Hd; [set_solver|done..].
Qed.

Lemma normalize_pattern_plain p : plain_pattern p -> normalize_pattern (written p) = written (map_domain to_ascii_lowercase p).
Proof.
  intros Hp. unfold normalize_pattern. rewrite trim_written by done.
  destruct p as [d|d|d]; unfold plain_pattern in Hp; cbn [written map_domain pattern_domain] in *.
  - simpl. by rewrite normalize_host_domain.
  - destruct (plain_head d Hp) as (x & d' & -> & _). simpl. by rewrite normalize_host_domain.
  - rewrite bool_decide_eq_false_2 by (intros ->; done).
    rewrite !plain_no_star by (done || in_literal). by apply normalize_host_domain.
Qed.

Lemma plain_nonempty d : plain_domain d = true -> is_empty d = false.
Proof. intros (c & d' & -> & _)%plain_head. done. Qed.

Lemma pattern_parse_plain p : plain_pattern p -> pattern_parse (written p) = p.
Proof.
  intros Hp. unfold pattern_parse, parse_domain. rewrite trim_written by done.
  destruct p as [d|d|d]; unfold plain_pattern in Hp; cbn [written pattern_domain] in *.
  1,2: simpl; by rewrite plain_trim, plain_nonempty.
  rewrite plain_nonempty by done. by rewrite !plain_no_star by (done || in_literal).
Qed.

Lemma pattern_of_plain p : plain_pattern p -> pattern_of (written p) = map_domain to_ascii_lowercase p.
Proof.
  intros Hp. unfold pattern_of. rewrite normalize_pattern_plain by done. apply pattern_parse_plain.
  destruct p; by apply plain_lower.
Qed.

(** *** Comparing ordinary patterns *)

Lemma below_trans m c h : below m c -> below c h -> below m h.
Proof.
  intros (x & Hx & ->) (y & Hy & ->). exists (y ++ PERIOD :: x). split; [by destruct y|]. by rewrite <-app_assoc.
Qed.

Lemma below_longer d h : below d h -> length d < length h.
Proof. intros (x & Hx & ->). rewrite length_app. simpl. lia. Qed.

Lemma ends_with_below d h : plain_domain h = true -> ends_with (PERIOD :: d) h = true <-> below d h.
Proof.
  intros Hh. rewrite ends_with_true. split.
  - intros [x ->]. exists x. split; [|done]. intros ->. by apply plain_head in Hh as (? & ? & [= <- _] & ?).
  - intros (x & _ & ->). by exists x.
Qed.

Section Lowercase.
Context (m c : str) (Hm : plain_domain m = true) (Hc : plain_domain c = true).
Let m' := to_ascii_lowercase m.
Let c' := to_ascii_lowercase c.

Lemma domain_eq_plain : domain_eq c m = true <-> c' = m'.
Proof. unfold domain_eq. rewrite !normalize_domain_plain by done. apply bool_decide_eq_true. Qed.

Lemma sub_or_equal_plain : is_subdomain_or_equal c m = true <-> c' = m' \/ below m' c'.
Proof.
  unfold is_subdomain_or_equal. rewrite !normalize_domain_plain by done.
  rewrite orb_true_iff, bool_decide_eq_true, ends_with_below by (by apply plain_lower). done.
Qed.

Lemma strict_sub_plain : is_strict_subdomain c m = true <-> below m' c'.
Proof.
  unfold is_strict_subdomain. rewrite !normalize_domain_plain by done.
  rewrite andb_true_iff, negb_true_iff, bool_decide_eq_false, ends_with_below by (by apply plain_lower).
  split; [by intros [_ ?]|]. intros Hb. split; [|done]. intros E. apply below_longer in Hb. unfold m', c' in Hb. rewrite E in Hb. lia.
Qed.
End Lowercase.

(** A lower-case name below [c] that is not [m], and below [m] only if [c] is in [m]. *)
Lemma fresh_below m c :
  plain_domain c = true -> to_ascii_lowercase c = c ->
  exists h, below c h /\ to_ascii_lowercase h = h /\ h <> m /\ (below m h -> c = m \/ below m c).
Proof.
  intros Hc Lc. exists (repeat 97%N (S (length m)) ++ PERIOD :: c). split_and!.
  - by exists (repeat 97%N (S (length m))).
  - rewrite lower_app. simpl. rewrite Lc. do 2 f_equal. generalize (length m). intros n. induction n; [done|]. simpl. by f_equal.
  - intros E. apply (f_equal length) in E. rewrite length_app, repeat_length in E. simpl in E. lia.
  - intros (x & Hx & E). apply app_eq_inv in E as [(k & Ek & E)|(k & Ek & E)].
    + destruct k as [|y k]; simpl in E; [injection E as ->; by left|]. injection E as <- _. exfalso.
      assert (PERIOD ∈ repeat 97%N (S (length m))) as Hin by (rewrite Ek; set_solver).
      apply list_elem_of_In, repeat_spec in Hin. done.
    + destruct k as [|y k]; simpl in E; [injection E as ->; by left|]. injection E as <- ->. right. exists k.
      split; [|done]. intros ->. by apply plain_head in Hc as (? & ? & [= <- _] & ?).
Qed.

(** Inclusions of sets of lower-case names. *)
Section Inclusion.
Context (m c : str) (Hc : plain_domain c = true) (Lc : to_ascii_lowercase c = c).

Lemma eq_included (P : str -> Prop) : (forall h, to_ascii_lowercase h = c -> P (to_ascii_lowercase h)) <-> P c.
Proof using Lc. split; [intros Hp; rewrite <-Lc; by apply Hp | by intros Hp h ->]. Qed.

Lemma below_included : (forall h, below c (to_ascii_lowercase h) -> below m (to_ascii_lowercase h)) <-> c = m \/ below m c.
Proof using Hc Lc.
  split.
  - intros Hi. destruct (fresh_below m c Hc Lc) as (h & Hb & Lh & _ & Hf). apply Hf. rewrite <-Lh. apply Hi. by rewrite Lh.
  - intros [-> | Hb] h; [done|]. by apply below_trans.
Qed.

Lemma below_included_apex :
  (forall h, below c (to_ascii_lowercase h) -> to_ascii_lowercase h = m \/ below m (to_ascii_lowercase h)) <-> c = m \/ below m c.
Proof using Hc Lc.
  rewrite <-below_included. split; intros Hi h Hb; [|right; by apply Hi].
  apply below_included in Hb; [done|].
  destruct (fresh_below m c Hc Lc) as (f & Hbf & Lf & Hn & Hf). apply Hf. destruct (Hi f); rewrite Lf in *; done.
Qed.

Lemma below_not_included : ~ (forall h, below c (to_ascii_lowercase h) -> to_ascii_lowercase h = m).
Proof using Hc Lc.
  intros Hi. destruct (fresh_below m c Hc Lc) as (h & Hb & Lh & Hn & _). apply Hn. rewrite <-Lh. apply Hi. by rewrite Lh.
Qed.
End Inclusion.

Lemma included_or {A} (P Q R : A -> Prop) : (forall h, P h \/ Q h -> R h) <-> (forall h, P h -> R h) /\ (forall h, Q h -> R h).
Proof. split; [intros Hr; split; intros h Hh; apply Hr; auto | intros [Hp Hq] h [?|?]; auto]. Qed.

(** Patterns without the global wildcard, on lower-case names. *)
Lemma covers_plain p h :
  plain_pattern p ->
  covers (map_domain to_ascii_lowercase p) h <->
  match p with
  | Exact d => to_ascii_lowercase h = to_ascii_lowercase d
  | SubdomainsOnly d => below (to_ascii_lowercase d) (to_ascii_lowercase h)
  | ApexAndSubdomains d => to_ascii_lowercase h = to_ascii_lowercase d \/ below (to_ascii_lowercase d) (to_ascii_lowercase h)
  end.
Proof.
  intros Hp%plain_lower. destruct p as [d|d|d]; cbn [covers map_domain pattern_domain] in *; rewrite lower_idemp; [done..|].
  split; [|by right]. intros [E|?]; [|done]. by rewrite E in Hp.
Qed.

Lemma allows_inclusion m c :
  plain_pattern m -> plain_pattern c ->
  allows m c = true <-> (forall h, covers (pattern_of (written c)) h -> covers (pattern_of (written m)) h).
Proof.
  intros Hm Hc. rewrite !pattern_of_plain by done. setoid_rewrite covers_plain; [|done..].
  pose proof (plain_lower _ Hc) as Pc.
  pose proof (eq_included _ (lower_idemp (pattern_domain c))) as Heq.
  pose proof (below_included (to_ascii_lowercase (pattern_domain m)) _ Pc (lower_idemp _)) as Hbi.
  pose proof (below_included_apex (to_ascii_lowercase (pattern_domain m)) _ Pc (lower_idemp _)) as Hba.
  pose proof (below_not_included (to_ascii_lowercase (pattern_domain m)) _ Pc (lower_idemp _)) as Hni.
  destruct m as [m|m|m], c as [c|c|c]; cbn [allows] in *; unfold plain_pattern in *; cbn [pattern_domain] in *;
    rewrite ?domain_eq_plain, ?sub_or_equal_plain, ?strict_sub_plain by done; rewrite ?included_or.
  - rewrite (Heq (fun x => x = _ \/ below _ x)), Hba. tauto.
  - symmetry. exact Hba.
  - by rewrite (Heq (fun x => x = _ \/ below _ x)).
  - rewrite (Heq (below _)), Hbi. tauto.
  - symmetry. exact Hbi.
  - by rewrite (Heq (below _)).
  - split; [done | intros [_ Hi]; by destruct (Hni Hi)].
  - split; [done | intros Hi; by destruct (Hni Hi)].
  - by rewrite (Heq (fun x => x = _)).
Qed.

(** *** A name that normalises to itself *)

Lemma normalize_dns_star s : head (normalize_dns_host_or_ip_literal (STAR :: s)) = Some STAR.
Proof.
  unfold normalize_dns_host_or_ip_literal. change (to_ascii_lowercase (STAR :: s)) with (STAR :: to_ascii_lowercase s).
  generalize (to_ascii_lowercase s). clear s. intros s.
  assert (exists t, trim_end_matches PERIOD (STAR :: s) = STAR :: t) as [t ->].
  { unfold trim_end_matches. cbn [rev]. generalize (rev s). intros r. induction r as [|c r [t IH]]; [by exists []|].
    cbn [app drop_while]. destruct (PERIOD =? c)%N; [eauto|]. rewrite app_comm_cons, rev_app_distr. simpl. eauto. }
  unfold normalize_ip_literal. rewrite bool_decide_eq_false_2 by (intros [? E]; discriminate E). cbn [find_map].
  assert (forall d, match split_once_str d (STAR :: t) with
                    | Some (ip, scope) => if bool_decide (is_Some (parse_ip ip)) then Some (ip ++ [PERCENT] ++ scope) else None
                    | None => None
                    end = None \/ d = []) as Hd.
  { intros [|x d]; [by right|]. left.
    assert (forall r, split_once_str (x :: d) (STAR :: t) = Some r -> r.1 = [] \/ exists i, r.1 = STAR :: i) as Hr.
    { intros r E. cbn [split_once_str] in E. destruct (strip_prefix (x :: d) (STAR :: t)); [injection E as <-; by left|].
      destruct (split_once_str (x :: d) t) as [r'|]; [|done]. injection E as <-. right. by eexists. }
    destruct (split_once_str (x :: d) (STAR :: t)) as [[ip scope]|]; [|done].
    destruct (Hr _ eq_refl) as [E | [i E]]; cbn [fst] in E; subst ip; by rewrite bool_decide_eq_false_2 by (intros [? E]; discriminate E). }
  destruct (Hd (lit "%25")) as [-> | ?]; [|done]. destruct (Hd (lit "%")) as [-> | ?]; done.
Qed.

(** A pattern with a leading wildcard keeps it. *)
Lemma normalize_host_star p s : trim p = STAR :: s -> head (normalize_host p) = Some STAR.
Proof.
  intros E. unfold normalize_host. rewrite E. cbn [starts_with strip_prefix].
  replace (starts_with [LBRACKET] (STAR :: s)) with false by done.
  destruct (_ =? 1)%nat; [|apply normalize_dns_star]. cbn [split_on]. change (STAR =? COLON)%N with false. cbv iota.
  destruct (split_on COLON s) as [|x l]; apply normalize_dns_star.
Qed.

Lemma exact_of_normalized p h :
  normalize_host p = h -> trim h = h -> h <> [] -> STAR ∉ h -> pattern_of p = Exact h.
Proof.
  intros Hp Ht Hne Hs.
  assert (forall s, trim p = STAR :: s -> False) as Hns.
  { intros s E%normalize_host_star. rewrite Hp in E. destruct h as [|c h']; [done|]. injection E as ->. apply Hs, elem_of_cons. by left. }
  unfold pattern_of, normalize_pattern.
  rewrite bool_decide_eq_false_2 by (intros E; exact (Hns [] E)).
  assert (forall x, strip_prefix (STAR :: x) (trim p) = None) as Hsp.
  { intros x. destruct (strip_prefix (STAR :: x) (trim p)) as [r|] eqn:E; [|done]. apply strip_prefix_Some in E. by edestruct Hns. }
  change (lit "**.") with (STAR :: lit "*."). change (lit "*.") with (STAR :: lit "."). rewrite !Hsp.
  assert (normalize_host (trim p) = h) as -> by (rewrite <-Hp; unfold normalize_host; by rewrite trim_idemp).
  unfold pattern_parse. rewrite Ht. destruct h as [|c h']; [done|]. cbn [is_empty].
  assert (forall x, strip_prefix (STAR :: x) (c :: h') = None) as Hsp'.
  2: { change (lit "**.") with (STAR :: lit "*."). change (lit "*.") with (STAR :: lit "."). by rewrite !Hsp'. }
  intros x. destruct (strip_prefix (STAR :: x) (c :: h')) as [r|] eqn:E; [|done]. apply strip_prefix_Some in E.
  exfalso. apply Hs. rewrite E. apply elem_of_cons. by left.
Qed.

Section Constraints.
Context `{GlobLaws}.

Lemma constraint_domain_plain d : plain_domain d = true -> parse_domain_for_constraints d = to_ascii_lowercase d.
Proof.
  intros Hd. unfold parse_domain_for_constraints.
  rewrite plain_trim, trim_end_matches_last, plain_nonempty by (done || by apply plain_last_period).
  assert (forall c, label_char c = false -> c <> PERIOD -> contains_char c d = false) as Hn.
  { intros c Hl Hp. unfold contains_char. apply not_true_iff_false. intros (x & Hx & ->%N.eqb_eq)%existsb_exists.
    apply (plain_not_char d x); [done..|]. by apply list_elem_of_In. }
  assert (starts_with [LBRACKET] d = false) as ->.
  { apply not_true_iff_false. intros [r ->]%starts_with_true. by apply (plain_not_char _ LBRACKET) in Hd; [set_solver|..]. }
  simpl. rewrite !Hn by done. simpl. by rewrite url_plain.
Qed.

Lemma parse_for_constraints_plain p : plain_pattern p -> parse_for_constraints (written p) = map_domain to_ascii_lowercase p.
Proof.
  intros Hp. unfold parse_for_constraints. rewrite trim_written by done.
  destruct p as [d|d|d]; unfold plain_pattern in Hp; cbn [written pattern_domain] in *.
  1,2: simpl; by rewrite constraint_domain_plain.
  rewrite plain_nonempty by done. rewrite !plain_no_star by (done || in_literal). by rewrite constraint_domain_plain.
Qed.

(** The comparison of patterns is inclusion: for ordinary domain names a managed
    pattern allows a user's pattern exactly when every host the user's pattern is
    compiled to match is one the managed pattern stands for. *)
Lemma allows_exact m c :
  plain_pattern m -> plain_pattern c ->
  allows (parse_for_constraints (written m)) (parse_for_constraints (written c)) = true <->
  (forall h, covers (pattern_of (written c)) h -> covers (pattern_of (written m)) h).
Proof.
  intros Hm Hc. rewrite !parse_for_constraints_plain by done.
  assert (forall p, plain_pattern p -> plain_pattern (map_domain to_ascii_lowercase p)) as Hl.
  { intros [] ?; by apply plain_lower. }
  assert (forall p, plain_pattern p -> pattern_of (written (map_domain to_ascii_lowercase p)) = pattern_of (written p)) as Hw.
  { intros p Hp. rewrite !pattern_of_plain by auto. destruct p; simpl; by rewrite lower_idemp. }
  rewrite allows_inclusion by auto. by rewrite !Hw.
Qed.
End Constraints.

(** ** A small engine

    An implementation of what is relied on, for evaluating the definitions: [*], [?] and
    literal characters; ordinary domain names. *)
Module MiniGlob.
Inductive token : Type := Char (c : N) | AnyChar | AnyString.

Definition token_of (c : N) : option token :=
  if (c =? STAR)%N then Some AnyString else if (c =? QUESTION)%N then Some AnyChar
  else if literal_char c then Some (Char (ascii_lower_char c)) else None.

Fixpoint suffixes (s : str) : list str := s :: match s with [] => [] | _ :: s' => suffixes s' end.

Fixpoint gmatch (ts : list token) (s : str) : bool :=
  match ts with
  | [] => is_empty s
  | Char c :: ts' => match s with x :: s' => (x =? c)%N && gmatch ts' s' | [] => false end
  | AnyChar :: ts' => match s with _ :: s' => gmatch ts' s' | [] => false end
  | AnyString :: ts' => existsb (gmatch ts') (suffixes s)
  end.

#[export] Instance lib : GlobLib := {|
  Glob := list token;
  glob_build _ p := mapM token_of p;
  glob_is_match ts h := gmatch ts (to_ascii_lowercase h);
  GlobSet := list (list token);
  globset_build := Some;
  globset_is_match set h := existsb (fun ts => gmatch ts (to_ascii_lowercase h)) set;
  url_host_parse d := if plain_domain d then Some (to_ascii_lowercase d) else None;
|}.

Lemma build_literal p : forallb literal_char p = true -> mapM token_of p = Some (map Char (to_ascii_lowercase p)).
Proof.
  induction p as [|c p IH]; simpl; [done|]. intros [Hc Hp]%andb_true_iff. rewrite IH by done.
  assert (token_of c = Some (Char (ascii_lower_char c))) as ->; [|done].
  unfold token_of. destruct (N.eqb_spec c STAR) as [->|_]; [done|]. destruct (N.eqb_spec c QUESTION) as [->|_]; [done|]. by rewrite Hc.
Qed.

Lemma gmatch_literal p : forall s, gmatch (map Char p) s = true <-> s = p.
Proof.
  induction p as [|c p IH]; intros [|x s]; simpl; try (split; done). rewrite andb_true_iff, N.eqb_eq, IH. naive_solver.
Qed.

Lemma suffixes_elem s r : r ∈ suffixes s <-> exists x, s = x ++ r.
Proof.
  revert r. induction s as [|c s IH]; intros r.
  - cbn. rewrite list_elem_of_singleton. split; [intros ->; by exists [] | intros [x E]; by destruct x, r].
  - cbn [suffixes]. rewrite elem_of_cons, IH. split.
    + intros [-> | [x ->]]; [by exists [] | by exists (c :: x)].
    + intros [[|y x] E]; [by left | injection E as -> ->; right; by exists x].
Qed.

#[export] Instance laws : GlobLaws.
Proof.
  split.
  - intros globs set h [= <-]. done.
  - exists [AnyString]. split; [done|]. intros h _. apply existsb_exists. exists []. split; [|done].
    apply list_elem_of_In, suffixes_elem. eexists. by rewrite app_nil_r.
  - intros p Hp. eexists. split; [by apply build_literal|]. intros h _. apply gmatch_literal.
  - intros d Hd. exists (AnyChar :: AnyString :: Char PERIOD :: map Char (to_ascii_lowercase d)). split.
    + change (lit "?*." ++ d) with (QUESTION :: STAR :: PERIOD :: d). simpl. by rewrite build_literal.
    + intros h _. cbn [glob_is_match lib gmatch]. destruct (to_ascii_lowercase h) as [|c t].
      { split; [done|]. intros ([|] & ? & ?); done. }
      rewrite existsb_exists. setoid_rewrite <-list_elem_of_In. setoid_rewrite suffixes_elem.
      assert (forall r, gmatch (Char PERIOD :: map Char (to_ascii_lowercase d)) r = true <-> r = PERIOD :: to_ascii_lowercase d) as Hm
        by apply (gmatch_literal (PERIOD :: _)).
      setoid_rewrite Hm. unfold below. split.
      * intros (r & [x ->] & ->). by exists (c :: x).
      * intros ([|y x] & Hx & E); [done|]. injection E as -> ->. eauto.
  - intros d Hd. simpl. by rewrite Hd.
Qed.
End MiniGlob.

Module PolicyDemo.
Import MiniGlob.

Lemma compiled_exact_demo :
  exists set, compile_denylist_globset [lit "**.Example.com"; lit " api.test. "] = Ok set
    /\ globset_is_match set (lit "A.EXAMPLE.com") = true.
Proof.
  eexists. split; [vm_compute; reflexivity|].
  apply (compiled_exact WildcardReject [lit "**.Example.com"; lit " api.test. "]);
    [|vm_compute; reflexivity..|].
  { constructor; [vm_compute; reflexivity|]. constructor; [right; vm_compute; reflexivity|constructor]. }
  exists (lit "**.Example.com"). split; [constructor|]. right. exists (lit "a"). split; [discriminate | vm_compute; reflexivity].
Defined.

Lemma allows_exact_demo :
  allows (parse_for_constraints (lit "*.example.com")) (parse_for_constraints (lit "**.Api.example.com")) = true.
Proof.
  apply (allows_exact (SubdomainsOnly (lit "example.com")) (ApexAndSubdomains (lit "Api.example.com"))); [vm_compute; reflexivity..|].
  intros h Hh. rewrite pattern_of_plain in Hh |- * by (vm_compute; reflexivity). cbn [covers map_domain] in *.
  rewrite lower_idemp in *.
  assert (below (to_ascii_lowercase (lit "example.com")) (to_ascii_lowercase (lit "Api.example.com"))) as Hb
    by (exists (lit "api"); split; [discriminate | vm_compute; reflexivity]).
  destruct Hh as [-> | Hh]; [exact Hb | exact (below_trans _ _ _ Hb Hh)].
Defined.

(** Not so for other texts: this pattern is compared as a name below [example.com] but
    compiled, after the port is cut off, to match [evil.com]. *)
Example managed_pattern_bypassed :
  allows (parse_for_constraints (lit "*.example.com")) (parse_for_constraints (lit "evil.com:*.example.com")) = true
  /\ pattern_of (lit "evil.com:*.example.com") = Exact (lit "evil.com").
Proof. split; vm_compute; reflexivity. Qed.

Example normalize_examples :
  normalize_host (lit " Example.COM.:443") = lit "example.com" /\ normalize_host (lit "[::1]:80") = lit "::1"
  /\ normalize_host (lit "fe80::1%25eth0") = lit "fe80::1%eth0" /\ normalize_host (lit "EXAMPLE.com..") = lit "example.com"
  /\ pattern_of (lit "*.") = Exact [] /\ is_global_wildcard_domain_pattern (lit " * ") = true
  /\ is_loopback_host (lit "127.3.2.1") = true /\ is_loopback_host (lit "::1%lo") = true.
Proof. split_and!; vm_compute; reflexivity. Qed.
End PolicyDemo.
