(* ===== verification/NetworkConfig.v ===== *)
(** * Configuration of the network proxy

    [network-proxy/src/config.rs]: the configuration with its domain and Unix socket
    permissions, the operations that change them, and the addresses the proxy listens
    on.  The hook configuration of [mitm_hook.rs] is part of it.  A [BTreeMap] is the list
    of its entries in the order of the keys. *)

From Stdlib Require Import NArith Lia.
From stdpp Require Import gmap.
From S2P Require Import Prelude RustStr PatchSyntax AbsPath IpAddr.

(** ** Data *)

(** [None < Allow < Deny]. *)
Inductive NetworkDomainPermission : Type := PermNone | PermAllow | PermDeny.
#[export] Instance domain_permission_eq_dec : EqDecision NetworkDomainPermission.
Proof. solve_decision. Defined.

Definition permission_rank (p : NetworkDomainPermission) : nat :=
  match p with PermNone => 0 | PermAllow => 1 | PermDeny => 2 end.

Record NetworkDomainPermissionEntry : Type := mkDomainEntry {
  pattern : str;
  permission : NetworkDomainPermission;
}.
#[export] Instance domain_entry_eq_dec : EqDecision NetworkDomainPermissionEntry.
Proof. solve_decision. Defined.

(** [NetworkDomainPermissions]: its entries. *)
Definition NetworkDomainPermissions : Type := list NetworkDomainPermissionEntry.

Inductive NetworkUnixSocketPermission : Type := SocketAllow | SocketDeny.
#[export] Instance socket_permission_eq_dec : EqDecision NetworkUnixSocketPermission.
Proof. solve_decision. Defined.

Inductive NetworkMode : Type := Limited | Full.
#[export] Instance network_mode_eq_dec : EqDecision NetworkMode.
Proof. solve_decision. Defined.

(** *** Hooks ([mitm_hook.rs]); the JSON of a body matcher is kept as its text *)

Record MitmHookMatchConfig : Type := mkHookMatch {
  hm_methods : list str;
  hm_path_prefixes : list str;
  hm_query : list (str * list str);
  hm_headers : list (str * list str);
  hm_body : option str;
}.

Record InjectedHeaderConfig : Type := mkInjectedHeader {
  ih_name : str;
  secret_env_var : option str;
  secret_file : option str;
  ih_prefix : option str;
}.
#[export] Instance injected_header_eq_dec : EqDecision InjectedHeaderConfig.
Proof. solve_decision. Defined.

Record MitmHookActionsConfig : Type := mkHookActions {
  ha_strip_request_headers : list str;
  ha_inject_request_headers : list InjectedHeaderConfig;
}.

Record MitmHookConfig : Type := mkHookConfig {
  hook_host : str;
  hook_match : MitmHookMatchConfig;
  hook_actions : MitmHookActionsConfig;
}.
#[export] Instance hook_match_eq_dec : EqDecision MitmHookMatchConfig.
Proof. solve_decision. Defined.
#[export] Instance hook_actions_eq_dec : EqDecision MitmHookActionsConfig.
Proof. solve_decision. Defined.
#[export] Instance hook_config_eq_dec : EqDecision MitmHookConfig.
Proof. solve_decision. Defined.

Record NetworkProxyConfig : Type := mkNetworkConfig {
  enabled : bool;
  proxy_url : str;
  enable_socks5 : bool;
  socks_url : str;
  enable_socks5_udp : bool;
  allow_upstream_proxy : bool;
  dangerously_allow_non_loopback_proxy : bool;
  dangerously_allow_all_unix_sockets : bool;
  mode : NetworkMode;
  domains : option NetworkDomainPermissions;
  unix_sockets : option (list (str * NetworkUnixSocketPermission));
  allow_local_binding : bool;
  mitm : bool;
  credential_broker : bool;
  dangerously_allow_plaintext_credential_injection : bool;
  mitm_hooks : list MitmHookConfig;
}.
#[export] Instance network_config_eq_dec : EqDecision NetworkProxyConfig.
Proof. solve_decision. Defined.

Definition default_proxy_url : str := lit "http://127.0.0.1:3128".
Definition default_socks_url : str := lit "http://127.0.0.1:8081".

Definition default_config : NetworkProxyConfig :=
  mkNetworkConfig false default_proxy_url true default_socks_url true true false false Full None None false false false false [].

(** Assignments to single fields. *)
Definition with_domains (c : NetworkProxyConfig) (d : option NetworkDomainPermissions) : NetworkProxyConfig :=
  mkNetworkConfig c.(enabled) c.(proxy_url) c.(enable_socks5) c.(socks_url) c.(enable_socks5_udp) c.(allow_upstream_proxy)
    c.(dangerously_allow_non_loopback_proxy) c.(dangerously_allow_all_unix_sockets) c.(mode) d c.(unix_sockets) c.(allow_local_binding)
    c.(mitm) c.(credential_broker) c.(dangerously_allow_plaintext_credential_injection) c.(mitm_hooks).
Definition with_unix_sockets (c : NetworkProxyConfig) (u : option (list (str * NetworkUnixSocketPermission))) : NetworkProxyConfig :=
  mkNetworkConfig c.(enabled) c.(proxy_url) c.(enable_socks5) c.(socks_url) c.(enable_socks5_udp) c.(allow_upstream_proxy)
    c.(dangerously_allow_non_loopback_proxy) c.(dangerously_allow_all_unix_sockets) c.(mode) c.(domains) u c.(allow_local_binding)
    c.(mitm) c.(credential_broker) c.(dangerously_allow_plaintext_credential_injection) c.(mitm_hooks).
Definition with_mode (c : NetworkProxyConfig) (m : NetworkMode) : NetworkProxyConfig :=
  mkNetworkConfig c.(enabled) c.(proxy_url) c.(enable_socks5) c.(socks_url) c.(enable_socks5_udp) c.(allow_upstream_proxy)
    c.(dangerously_allow_non_loopback_proxy) c.(dangerously_allow_all_unix_sockets) m c.(domains) c.(unix_sockets) c.(allow_local_binding)
    c.(mitm) c.(credential_broker) c.(dangerously_allow_plaintext_credential_injection) c.(mitm_hooks).

Definition set_credential_broker_enabled (c : NetworkProxyConfig) (on : bool) : NetworkProxyConfig :=
  mkNetworkConfig c.(enabled) c.(proxy_url) c.(enable_socks5) c.(socks_url) c.(enable_socks5_udp) c.(allow_upstream_proxy)
    c.(dangerously_allow_non_loopback_proxy) c.(dangerously_allow_all_unix_sockets) c.(mode) c.(domains) c.(unix_sockets)
    c.(allow_local_binding) (c.(mitm) || on) on c.(dangerously_allow_plaintext_credential_injection) c.(mitm_hooks).

(** ** Domains *)

(** The loop of [effective_entries]: the patterns in the order they first occur and the
    permission of each so far. *)
Fixpoint scan_entries (order : list str) (effective_permissions : gmap str NetworkDomainPermission) (entries : list NetworkDomainPermissionEntry)
  : list str * gmap str NetworkDomainPermission :=
  match entries with
  | [] => (order, effective_permissions)
  | entry :: rest =>
      let order := match effective_permissions !! entry.(pattern) with None => order ++ [entry.(pattern)] | Some _ => order end in
      let perm := default entry.(permission) (effective_permissions !! entry.(pattern)) in
      let perm := if (permission_rank perm <? permission_rank entry.(permission))%nat then entry.(permission) else perm in
      scan_entries order (<[entry.(pattern) := perm]> effective_permissions) rest
  end.

(** Taking the permissions out in that order. *)
Fixpoint drain_entries (order : list str) (effective_permissions : gmap str NetworkDomainPermission) : list NetworkDomainPermissionEntry :=
  match order with
  | [] => []
  | p :: rest =>
      match effective_permissions !! p with
      | Some perm => mkDomainEntry p perm :: drain_entries rest (delete p effective_permissions)
      | None => drain_entries rest effective_permissions
      end
  end.

Definition effective_entries (entries : list NetworkDomainPermissionEntry) : list NetworkDomainPermissionEntry :=
  let '(order, effective_permissions) := scan_entries [] ∅ entries in
  drain_entries order effective_permissions.

(** [Option<Vec>::filter(|entries| !entries.is_empty())]. *)
Definition some_nonempty {A} (l : list A) : option (list A) := match l with [] => None | _ => Some l end.

Definition domain_entries (c : NetworkProxyConfig) (perm : NetworkDomainPermission) : option (list str) :=
  let! entries := c.(domains) in
  some_nonempty (map pattern (filter (fun entry => entry.(permission) = perm) (effective_entries entries))).

Definition allowed_domains (c : NetworkProxyConfig) : option (list str) := domain_entries c PermAllow.
Definition denied_domains (c : NetworkProxyConfig) : option (list str) := domain_entries c PermDeny.

Definition upsert_domain_permission (c : NetworkProxyConfig) (host : str) (perm : NetworkDomainPermission) (normalize : str -> str)
  : NetworkProxyConfig :=
  let entries := default [] c.(domains) in
  let entries := filter (fun entry => normalize entry.(pattern) <> normalize host) entries in
  with_domains c (some_nonempty (entries ++ [mkDomainEntry host perm])).

Definition push_entry (perm : NetworkDomainPermission) (acc : list NetworkDomainPermissionEntry) (entry : str) : list NetworkDomainPermissionEntry :=
  if bool_decide (mkDomainEntry entry perm ∈ acc) then acc else acc ++ [mkDomainEntry entry perm].

Definition set_domain_entries (c : NetworkProxyConfig) (entries : list str) (perm : NetworkDomainPermission) : NetworkProxyConfig :=
  let kept := filter (fun entry => entry.(permission) <> perm) (default [] c.(domains)) in
  with_domains c (some_nonempty (foldl (push_entry perm) kept entries)).

Definition set_allowed_domains (c : NetworkProxyConfig) (l : list str) : NetworkProxyConfig := set_domain_entries c l PermAllow.
Definition set_denied_domains (c : NetworkProxyConfig) (l : list str) : NetworkProxyConfig := set_domain_entries c l PermDeny.

(** ** Unix sockets *)

(** [BTreeMap::insert]. *)
Fixpoint btree_insert {V} (k : str) (v : V) (m : list (str * V)) : list (str * V) :=
  match m with
  | [] => [(k, v)]
  | (k', v') :: m' =>
      match str_compare k k' with
      | Lt => (k, v) :: m
      | Eq => (k', v) :: m'
      | Gt => (k', v') :: btree_insert k v m'
      end
  end.

Definition allow_unix_sockets (c : NetworkProxyConfig) : list str :=
  map fst (filter (fun e => e.2 = SocketAllow) (default [] c.(unix_sockets))).

Definition set_unix_socket_entries (c : NetworkProxyConfig) (entries : list str) (permission : NetworkUnixSocketPermission)
  : NetworkProxyConfig :=
  let kept := filter (fun e => e.2 <> permission) (default [] c.(unix_sockets)) in
  with_unix_sockets c (some_nonempty (foldl (fun m entry => btree_insert entry permission m) kept entries)).

Definition set_allow_unix_sockets (c : NetworkProxyConfig) (l : list str) : NetworkProxyConfig := set_unix_socket_entries c l SocketAllow.

Definition allows_method (m : NetworkMode) (method : str) : bool :=
  match m with
  | Full => true
  | Limited => bool_decide (method ∈ [lit "GET"; lit "HEAD"; lit "OPTIONS"])
  end.

Inductive ValidatedUnixSocketPath : Type :=
  | Native (path : AbsolutePathBuf)
  | UnixStyleAbsolute (path : str).

Inductive NetworkConfigError : Type :=
  | NormalizeSocketPath (socket_path : str) (e : io_error)
  | ExpectedAbsolutePath (socket_path : str)
  | InvalidAllowUnixSockets (index : nat) (e : NetworkConfigError)
  | MissingHost (url : str)
  | InvalidProxyUrl (url : str) (e : NetworkConfigError)
  | InvalidSocksUrl (url : str) (e : NetworkConfigError)
  | ProxyPortNotFixed
  | SocksPortNotFixed.

Section Paths.
Context `{PathHost}.

Definition unix_style_parse (value : str) : option str := if starts_with [SEP] value then Some value else None.

Definition validated_socket_parse (socket_path : str) : result ValidatedUnixSocketPath NetworkConfigError :=
  let path := path_new socket_path in
  if is_absolute path then
    match from_absolute_path path with
    | Ok path => Ok (Native path)
    | Err e => Err (NormalizeSocketPath socket_path e)
    end
  else match unix_style_parse socket_path with
       | Some path => Ok (UnixStyleAbsolute path)
       | None => Err (ExpectedAbsolutePath socket_path)
       end.

Fixpoint validate_sockets (index : nat) (l : list str) : result unit NetworkConfigError :=
  match l with
  | [] => Ok tt
  | socket_path :: rest =>
      let? _ := map_err (InvalidAllowUnixSockets index) (validated_socket_parse socket_path) in
      validate_sockets (S index) rest
  end.

Definition validate_unix_socket_allowlist_paths (c : NetworkProxyConfig) : result unit NetworkConfigError :=
  validate_sockets 0 (allow_unix_sockets c).
End Paths.

(** ** Addresses the proxy listens on *)

Record SocketAddr : Type := mkSocketAddr { addr_ip : IpAddr; addr_port : N }.
#[export] Instance socket_addr_eq_dec : EqDecision SocketAddr.
Proof. solve_decision. Defined.

Definition LOCALHOST : IpAddr := V4 (v4 127 0 0 1).

Definition clamp_non_loopback (addr : SocketAddr) (allow_non_loopback : bool) : SocketAddr :=
  if is_loopback addr.(addr_ip) then addr
  else if allow_non_loopback then addr
  else mkSocketAddr LOCALHOST addr.(addr_port).

Definition clamp_bind_addrs (http_addr socks_addr : SocketAddr) (c : NetworkProxyConfig) : SocketAddr * SocketAddr :=
  let http_addr := clamp_non_loopback http_addr c.(dangerously_allow_non_loopback_proxy) in
  let socks_addr := clamp_non_loopback socks_addr c.(dangerously_allow_non_loopback_proxy) in
  match allow_unix_sockets c with
  | [] =>
      if negb c.(dangerously_allow_all_unix_sockets) then (http_addr, socks_addr)
      else (mkSocketAddr LOCALHOST http_addr.(addr_port), mkSocketAddr LOCALHOST socks_addr.(addr_port))
  | _ => (mkSocketAddr LOCALHOST http_addr.(addr_port), mkSocketAddr LOCALHOST socks_addr.(addr_port))
  end.

(** [str::parse::<u16>]: an optional plus sign and decimal digits. *)
Fixpoint decimal_value (acc : N) (s : str) : option N :=
  match s with
  | [] => Some acc
  | c :: s' => if is_ascii_digit c then decimal_value (acc * 10 + (c - 48)) s' else None
  end.
Definition parse_u16 (s : str) : option N :=
  let s := default s (strip_prefix [PLUS] s) in
  let! n := (if is_empty s then None else decimal_value 0 s) in
  if (n <? 2 ^ 16)%N then Some n else None.

Record SocketAddressParts : Type := mkAddressParts { part_host : str; part_port : N }.

(** [url::Url::parse]: the host and the port of a URL it accepts. *)
Class UrlLib : Type := { url_parse : str -> option (option str * option N) }.

Definition AT_SIGN : N := 64.
Definition OPEN_BRACKET : N := 91.
Definition CLOSE_BRACKET : N := 93.
Definition SCHEME_END : str := lit "://".

(** [str::split_once("://")]. *)
Fixpoint split_scheme (s : str) : option (str * str) :=
  match strip_prefix SCHEME_END s with
  | Some rest => Some ([], rest)
  | None => match s with [] => None | c :: s' => (fun r => (c :: r.1, r.2)) <$> split_scheme s' end
  end.

Definition parse_host_port_fallback (input : str) (default_port : N) : result SocketAddressParts NetworkConfigError :=
  let without_scheme := match split_scheme input with Some (_, rest) => rest | None => input end in
  let host_port := default without_scheme (head (split_on SEP without_scheme)) in
  let host_port := match rsplit_once AT_SIGN host_port with Some (_, rest) => rest | None => host_port end in
  match (if starts_with [OPEN_BRACKET] host_port then split_once CLOSE_BRACKET (tail host_port) else None) with
  | Some (host, rest) =>
      let port := default default_port (let! port := strip_prefix [COLON] rest in parse_u16 port) in
      if is_empty host then Err (MissingHost input) else Ok (mkAddressParts host port)
  | None =>
      match (if (length (filter (fun c => c = COLON) host_port) =? 1)%nat then rsplit_once COLON host_port else None) with
      | Some (host, port) =>
          if is_empty host then Err (MissingHost input) else Ok (mkAddressParts host (default default_port (parse_u16 port)))
      | None => if is_empty host_port then Err (MissingHost input) else Ok (mkAddressParts host_port default_port)
      end
  end.

(** [trim_matches] of brackets. *)
Definition is_bracket (c : N) : bool := (c =? OPEN_BRACKET)%N || (c =? CLOSE_BRACKET)%N.
Definition trim_brackets (s : str) : str := rev (drop_while is_bracket (rev (drop_while is_bracket s))).

Section Urls.
Context `{UrlLib, PathHost}.

Definition parse_host_port (url : str) (default_port : N) : result SocketAddressParts NetworkConfigError :=
  let trimmed := trim url in
  if is_empty trimmed then Err (MissingHost url)
  else
    match parse_ip trimmed, starts_with [OPEN_BRACKET] trimmed with
    | Some (V6 _), false => Ok (mkAddressParts trimmed default_port)
    | _, _ =>
        let candidate := if contains SCHEME_END trimmed then trimmed else lit "http://" ++ trimmed in
        match url_parse candidate with
        | Some (Some host, port) =>
            let host := trim_brackets host in
            if is_empty host then Err (MissingHost url) else Ok (mkAddressParts host (default default_port port))
        | _ => parse_host_port_fallback trimmed default_port
        end
    end.

Definition resolve_addr (url : str) (default_port : N) : result SocketAddr NetworkConfigError :=
  let? addr_parts := parse_host_port url default_port in
  let host := if eq_ignore_ascii_case addr_parts.(part_host) (lit "localhost") then lit "127.0.0.1" else addr_parts.(part_host) in
  match parse_ip host with
  | Some ip => Ok (mkSocketAddr ip addr_parts.(part_port))
  | None => Ok (mkSocketAddr LOCALHOST addr_parts.(part_port))
  end.

Definition format_host_and_port (host : str) (port : N) : str :=
  if contains_char COLON host then lit "[" ++ host ++ lit "]:" ++ show_N port else host ++ lit ":" ++ show_N port.

Definition host_and_port_from_network_addr (value : str) (default_port : N) : str :=
  let trimmed := trim value in
  if is_empty trimmed then lit "<missing>"
  else
    match parse_host_port trimmed default_port with
    | Ok parts => format_host_and_port parts.(part_host) parts.(part_port)
    | Err _ => format_host_and_port trimmed default_port
    end.

Record RuntimeConfig : Type := mkRuntimeConfig { http_addr : SocketAddr; socks_addr : SocketAddr }.

Definition resolve_runtime (c : NetworkProxyConfig) : result RuntimeConfig NetworkConfigError :=
  let? _ := validate_unix_socket_allowlist_paths c in
  let? http := map_err (InvalidProxyUrl c.(proxy_url)) (resolve_addr c.(proxy_url) 3128) in
  let? socks := map_err (InvalidSocksUrl c.(socks_url)) (resolve_addr c.(socks_url) 8081) in
  let '(http, socks) := clamp_bind_addrs http socks c in
  Ok (mkRuntimeConfig http socks).

Definition managed_proxy_ports (c : NetworkProxyConfig) : result (list N) NetworkConfigError :=
  let? runtime := resolve_runtime c in
  if (runtime.(http_addr).(addr_port) =? 0)%N then Err ProxyPortNotFixed
  else
    let ports := [runtime.(http_addr).(addr_port)] in
    let? ports :=
      (if c.(enable_socks5) then
         if (runtime.(socks_addr).(addr_port) =? 0)%N then Err SocksPortNotFixed
         else Ok (ports ++ [runtime.(socks_addr).(addr_port)])
       else Ok ports) in
    Ok (dedup_adjacent (stable_sort N.leb ports)).
End Urls.

(** ** The effective permissions *)

(** The strongest permission given for a pattern. *)
Definition strongest (entries : list NetworkDomainPermissionEntry) (p : str) (perm : NetworkDomainPermission) : Prop :=
  mkDomainEntry p perm ∈ entries /\ forall perm', mkDomainEntry p perm' ∈ entries -> permission_rank perm' <= permission_rank perm.

Lemma permission_rank_inj a b : permission_rank a = permission_rank b -> a = b.
Proof. by destruct a, b. Qed.

Lemma strongest_snoc entries e p perm :
  strongest (entries ++ [e]) p perm <->
  if decide (p = e.(pattern))
  then (strongest entries p perm /\ permission_rank e.(permission) <= permission_rank perm)
       \/ (perm = e.(permission) /\ forall perm', mkDomainEntry p perm' ∈ entries -> permission_rank perm' <= permission_rank perm)
  else strongest entries p perm.
Proof.
  destruct e as [q r]. unfold strongest. cbn [pattern permission]. setoid_rewrite elem_of_app. setoid_rewrite list_elem_of_singleton.
  destruct (decide (p = q)) as [-> | Hn]; naive_solver.
Qed.

(** What the loop has after the entries [done]. *)
Definition scanned (seen : list NetworkDomainPermissionEntry) (order : list str) (m : gmap str NetworkDomainPermission) : Prop :=
  NoDup order /\ (forall p, p ∈ order <-> is_Some (m !! p)) /\ (forall p perm, m !! p = Some perm <-> strongest seen p perm).

Lemma strongest_unique entries p a b : strongest entries p a -> strongest entries p b -> a = b.
Proof. intros [Ha Ma] [Hb Mb]. apply permission_rank_inj. apply Ma in Hb. apply Mb in Ha. lia. Qed.

Lemma permission_rank_bound p : permission_rank p <= 2.
Proof. destruct p; simpl; lia. Qed.

Lemma strongest_exists entries p perm : mkDomainEntry p perm ∈ entries -> exists top, strongest entries p top.
Proof.
  remember (2 - permission_rank perm) as k eqn:Hk. revert perm Hk. induction k as [k IH] using lt_wf_ind. intros r Hr Hin.
  destruct (decide (Exists (fun e => e.(pattern) = p /\ permission_rank r < permission_rank e.(permission)) entries)) as [Hex|Hno].
  - apply Exists_exists in Hex as ([q s] & Hs & Hq & Hlt). cbn [pattern permission] in *. subst q.
    pose proof (permission_rank_bound s). eapply (IH (2 - permission_rank s)); [lia | done | exact Hs].
  - exists r. split; [done|]. intros s Hs. destruct (le_lt_dec (permission_rank s) (permission_rank r)); [done|].
    exfalso. apply Hno, Exists_exists. eexists. split; [exact Hs|]. done.
Qed.

Lemma scan_step seen order m e :
  scanned seen order m ->
  scanned (seen ++ [e])
    (match m !! e.(pattern) with None => order ++ [e.(pattern)] | Some _ => order end)
    (<[e.(pattern) :=
       let perm := default e.(permission) (m !! e.(pattern)) in
       if (permission_rank perm <? permission_rank e.(permission))%nat then e.(permission) else perm]> m).
Proof.
  intros (Hnd & Ho & Hm). destruct e as [q r]. cbn [pattern permission]. split_and!.
  - destruct (m !! q) eqn:E; [done|]. apply NoDup_app. split_and!; [done| |apply NoDup_singleton].
    intros x Hx ->%list_elem_of_singleton. apply Ho in Hx. rewrite E in Hx. by destruct Hx.
  - intros p. destruct (decide (p = q)) as [-> | Hn].
    + rewrite lookup_insert_eq. split; [by eexists|]. intros _. destruct (m !! q) eqn:E; [apply Ho; by eexists | set_solver].
    + rewrite lookup_insert_ne by done. rewrite <-Ho. destruct (m !! q); [done|]. set_solver.
  - intros p perm. rewrite strongest_snoc. cbn [pattern permission]. destruct (decide (p = q)) as [-> | Hn].
    + rewrite lookup_insert_eq. destruct (m !! q) as [s|] eqn:E; simpl.
      * apply Hm in E as Hs. destruct (Nat.ltb_spec (permission_rank s) (permission_rank r)) as [Hlt|Hge].
        -- split.
           ++ intros [= <-]. right. split; [done|]. intros s' Hs'. apply Hs in Hs'. lia.
           ++ intros [[Hp Hle]|[-> _]]; [|done]. pose proof (strongest_unique _ _ _ _ Hs Hp) as ->. lia.
        -- split.
           ++ intros [= <-]. by left.
           ++ intros [[Hp _]|[-> Hall]]; [by rewrite (strongest_unique _ _ _ _ Hs Hp)|].
              f_equal. apply permission_rank_inj. destruct Hs as [Hs _]. apply Hall in Hs. lia.
      * assert (forall s, mkDomainEntry q s ∉ seen) as Hno.
        { intros s Hs. destruct (strongest_exists _ _ _ Hs) as [top Ht%Hm]. congruence. }
        rewrite Nat.ltb_irrefl. split.
        -- intros [= <-]. right. split; [done|]. intros s Hs. by apply Hno in Hs.
        -- intros [[[Hp _] _]|[-> _]]; [by apply Hno in Hp | done].
    + by rewrite lookup_insert_ne, Hm by done.
Qed.

Lemma scan_entries_spec entries : forall seen order m order' m',
  scanned seen order m -> scan_entries order m entries = (order', m') -> scanned (seen ++ entries) order' m'.
Proof.
  induction entries as [|e entries IH]; intros seen order m order' m' Hs H; simpl in H.
  - simplify_eq. by rewrite app_nil_r.
  - apply (IH (seen ++ [e])) in H; [by rewrite <-app_assoc in H|]. by apply scan_step.
Qed.

Lemma drain_entries_spec order : forall m,
  NoDup order -> (forall p, p ∈ order -> is_Some (m !! p)) ->
  map pattern (drain_entries order m) = order
  /\ forall p perm, mkDomainEntry p perm ∈ drain_entries order m <-> p ∈ order /\ m !! p = Some perm.
Proof.
  induction order as [|q order IH]; intros m Hnd Hm; simpl; [split; [done | set_solver]|].
  apply NoDup_cons in Hnd as [Hq Hnd]. destruct (Hm q) as [s Es]; [set_solver|]. rewrite Es.
  destruct (IH (delete q m)) as [Hp He]; [done| |].
  - intros p Hin. rewrite lookup_delete_ne by (intros ->; done). apply Hm. set_solver.
  - cbn [map pattern]. split; [by rewrite Hp|]. intros p perm. rewrite elem_of_cons, He, elem_of_cons.
    destruct (decide (p = q)) as [-> | Hn]; [rewrite Es; naive_solver|].
    rewrite lookup_delete_ne by done. naive_solver.
Qed.

Lemma effective_entries_spec entries :
  NoDup (map pattern (effective_entries entries))
  /\ forall p perm, mkDomainEntry p perm ∈ effective_entries entries <-> strongest entries p perm.
Proof.
  unfold effective_entries. destruct (scan_entries [] ∅ entries) as [order m] eqn:E.
  apply (scan_entries_spec _ []) in E as (Hnd & Ho & Hm).
  - destruct (drain_entries_spec order m Hnd) as [Hp He]; [intros p; by apply Ho|].
    split; [by rewrite Hp|]. intros p perm. rewrite He, <-Hm. split; [by intros [_ ?]|]. intros E. split; [|done]. apply Ho. by eexists.
  - split_and!; [constructor | intros p; rewrite lookup_empty; split; [set_solver | by intros []]|].
    intros p perm. rewrite lookup_empty. split; [done|]. intros [Hin _]. set_solver.
Qed.

(** The patterns of a configuration with a permission. *)
Definition entries_of (c : NetworkProxyConfig) : list NetworkDomainPermissionEntry := default [] c.(domains).

Lemma some_nonempty_default {A} (l : list A) : default [] (some_nonempty l) = l.
Proof. by destruct l. Qed.

Lemma domain_entries_elem c perm p : p ∈ default [] (domain_entries c perm) <-> strongest (entries_of c) p perm.
Proof.
  unfold domain_entries, entries_of. destruct (domains c) as [entries|]; simpl.
  - rewrite some_nonempty_default, <-(proj2 (effective_entries_spec entries)), list_elem_of_fmap. split.
    + intros ([q r] & -> & [Hr Hin]%list_elem_of_filter). cbn in *. by subst.
    + intros Hin. exists (mkDomainEntry p perm). split; [done|]. by apply list_elem_of_filter.
  - split; [set_solver|]. intros [Hin _]. set_solver.
Qed.

Lemma denied_elem c p : p ∈ default [] (denied_domains c) <-> mkDomainEntry p PermDeny ∈ entries_of c.
Proof.
  unfold denied_domains. rewrite domain_entries_elem. split; [by intros [? _]|].
  intros Hin. split; [done|]. intros [] _; simpl; lia.
Qed.

Lemma allowed_elem c p :
  p ∈ default [] (allowed_domains c) <-> mkDomainEntry p PermAllow ∈ entries_of c /\ mkDomainEntry p PermDeny ∉ entries_of c.
Proof.
  unfold allowed_domains. rewrite domain_entries_elem. split.
  - intros [Hin Hmax]. split; [done|]. intros Hd. apply Hmax in Hd. simpl in Hd. lia.
  - intros [Hin Hn]. split; [done|]. intros [] Hp; simpl; [lia..|]. done.
Qed.

Lemma domain_entries_NoDup c perm : NoDup (default [] (domain_entries c perm)).
Proof.
  unfold domain_entries. destruct (domains c) as [entries|]; simpl; [|constructor]. rewrite some_nonempty_default.
  destruct (effective_entries_spec entries) as [Hnd _]. revert Hnd. generalize (effective_entries entries). intros l.
  induction l as [|e l IH]; [done|]. cbn [map]. rewrite NoDup_cons. intros [Hn Hnd]. rewrite filter_cons.
  destruct (decide _); [|auto]. cbn [map]. apply NoDup_cons. split; [|auto].
  intros (x & Ex & [_ Hx]%list_elem_of_filter)%list_elem_of_fmap. apply Hn, list_elem_of_fmap. eauto.
Qed.

Lemma push_entries_elem perm l : forall acc e,
  e ∈ foldl (push_entry perm) acc l <-> e ∈ acc \/ (e.(permission) = perm /\ e.(pattern) ∈ l).
Proof.
  induction l as [|x l IH]; intros acc e; simpl; [set_solver|]. rewrite IH. unfold push_entry.
  destruct e as [q r]. cbn [pattern permission]. case_bool_decide; set_solver.
Qed.

Lemma entries_of_with c l : entries_of (with_domains c (some_nonempty l)) = l.
Proof. apply some_nonempty_default. Qed.

Lemma set_domain_entries_elem c l perm e :
  e ∈ entries_of (set_domain_entries c l perm) <->
  if decide (e.(permission) = perm) then e.(pattern) ∈ l else e ∈ entries_of c.
Proof.
  unfold set_domain_entries. rewrite entries_of_with, push_entries_elem, list_elem_of_filter.
  unfold entries_of. destruct (decide _); naive_solver.
Qed.

Lemma upsert_elem c host perm normalize e :
  e ∈ entries_of (upsert_domain_permission c host perm normalize) <->
  e = mkDomainEntry host perm \/ (e ∈ entries_of c /\ normalize e.(pattern) <> normalize host).
Proof.
  unfold upsert_domain_permission. rewrite entries_of_with, elem_of_app, list_elem_of_filter, list_elem_of_singleton.
  unfold entries_of. naive_solver.
Qed.

(** The domain lists: a pattern is denied exactly when some entry denies it, allowed
    when some entry allows and none denies it, and listed once.  Setting one list leaves
    the other's entries alone, so that a pattern on both stays denied; changing the
    permission of a host replaces every entry that normalises to it. *)
Theorem domain_lists_exact c l host perm normalize :
  (forall p, p ∈ default [] (denied_domains c) <-> mkDomainEntry p PermDeny ∈ entries_of c)
  /\ (forall p, p ∈ default [] (allowed_domains c) <->
        mkDomainEntry p PermAllow ∈ entries_of c /\ p ∉ default [] (denied_domains c))
  /\ NoDup (default [] (allowed_domains c)) /\ NoDup (default [] (denied_domains c))
  /\ (forall p, p ∈ default [] (denied_domains (set_allowed_domains c l)) <-> p ∈ default [] (denied_domains c))
  /\ (forall p, p ∈ default [] (allowed_domains (set_allowed_domains c l)) <-> p ∈ l /\ p ∉ default [] (denied_domains c))
  /\ (forall p, p ∈ default [] (denied_domains (set_denied_domains c l)) <-> p ∈ l)
  /\ (forall p, p ∈ default [] (allowed_domains (set_denied_domains c l)) <->
        mkDomainEntry p PermAllow ∈ entries_of c /\ p ∉ l)
  /\ (let c' := upsert_domain_permission c host perm normalize in
      forall p, normalize p = normalize host ->
        (p ∈ default [] (allowed_domains c') <-> p = host /\ perm = PermAllow)
        /\ (p ∈ default [] (denied_domains c') <-> p = host /\ perm = PermDeny)).
Proof.
  unfold set_allowed_domains, set_denied_domains. split_and!.
  1: apply denied_elem. 2,3: apply domain_entries_NoDup.
  1-5: intros p; rewrite ?allowed_elem, ?denied_elem, ?set_domain_entries_elem; cbn [permission pattern];
    repeat (rewrite decide_True by done || rewrite decide_False by done); done.
  intros p Hp. rewrite allowed_elem, denied_elem, !upsert_elem. cbn [pattern]. naive_solver.
Qed.

(** ** Listening *)

(** The proxy listens beyond the machine only when that is asked for and no Unix
    socket can be reached through it; the ports for provisioning are the ports listened
    on, none of them zero. *)
Theorem listens_locally `{UrlLib, PathHost} c r :
  resolve_runtime c = Ok r ->
  ((is_loopback r.(http_addr).(addr_ip) = true /\ is_loopback r.(socks_addr).(addr_ip) = true)
   \/ (c.(dangerously_allow_non_loopback_proxy) = true /\ allow_unix_sockets c = [] /\ c.(dangerously_allow_all_unix_sockets) = false))
  /\ (forall ports, managed_proxy_ports c = Ok ports ->
        forall p, p ∈ ports <-> p <> 0%N /\ (p = r.(http_addr).(addr_port) \/ c.(enable_socks5) = true /\ p = r.(socks_addr).(addr_port))).
Proof.
  intros Hr. split.
  - unfold resolve_runtime in Hr. repeat case_hyp Hr. injection Hr as <-. cbn [http_addr socks_addr].
    match goal with E : clamp_bind_addrs _ _ _ = _ |- _ => unfold clamp_bind_addrs, clamp_non_loopback in E end.
    repeat case_match; simplify_eq; simpl in *; auto; try (right; split_and!; done || by apply negb_true_iff); left; split; done.
  - intros ports. unfold managed_proxy_ports. rewrite Hr.
    destruct (N.eqb_spec (addr_port (http_addr r)) 0); [done|].
    destruct (enable_socks5 c); [destruct (N.eqb_spec (addr_port (socks_addr r)) 0); [done|]|];
      set (sorted := stable_sort N.leb _); intros E p; replace ports with (dedup_adjacent sorted) by congruence; unfold sorted; rewrite dedup_adjacent_elem, stable_sort_elem; simpl; set_solver.
Qed.

Module ConfigDemo.
(** A URL parser that leaves everything to the fallback. *)
#[export] Instance no_urls : UrlLib := {| url_parse _ := None |}.
#[export] Instance demo_paths : PathHost := {| home_dir := None; current_dir := Ok [RootDir] |}.

Definition demo : NetworkProxyConfig :=
  let c := set_allowed_domains default_config [lit "*.example.com"; lit "bad.example.com"] in
  let c := set_denied_domains c [lit "bad.example.com"] in
  set_allow_unix_sockets c [lit "/run/b.sock"; lit "/run/a.sock"].

Example demo_lists :
  allowed_domains demo = Some [lit "*.example.com"] /\ denied_domains demo = Some [lit "bad.example.com"]
  /\ allow_unix_sockets demo = [lit "/run/a.sock"; lit "/run/b.sock"]
  /\ parse_host_port (lit "user@[::1]:9000/x") 1 = Ok (mkAddressParts (lit "::1") 9000)
  /\ host_and_port_from_network_addr (lit "::1") 3128 = lit "[::1]:3128"
  /\ parse_host_port (lit "host:99999") 7 = Ok (mkAddressParts (lit "host") 7).
Proof. split_and!; vm_compute; reflexivity. Qed.

Definition demo_runtime : RuntimeConfig := mkRuntimeConfig (mkSocketAddr LOCALHOST 3128) (mkSocketAddr LOCALHOST 8081).

Lemma listens_locally_witness :
  resolve_runtime demo = Ok demo_runtime /\ is_loopback demo_runtime.(http_addr).(addr_ip) = true.
Proof.
  assert (resolve_runtime demo = Ok demo_runtime) as E by (vm_compute; reflexivity). split; [exact E|].
  destruct (listens_locally demo demo_runtime E) as [[[Hl _]|[Hf _]] _]; [exact Hl|].
  exfalso. revert Hf. vm_compute. discriminate.
Defined.
End ConfigDemo.
