(* ===== verification/MitmHook.v ===== *)
(** * Hooks on intercepted requests

    [network-proxy/src/mitm_hook.rs]: the configured hooks are checked and compiled, by
    host, and a request that is intercepted for a host gets the actions of the first hook
    that matches it.  Header names and values, the decoding of a query and the globs are
    those of the [http], [url] and [globset] crates. *)

From stdpp Require Import gmap.
From S2P Require Import Prelude RustStr PatchSyntax AbsPath IpAddr NetworkPolicy NetworkConfig.

(** ** The crates and the host *)

Class HttpLib : Type := {
  HeaderName : Type;
  header_name_eq : EqDecision HeaderName;
  header_name_from_bytes : str -> option HeaderName;
  HeaderValue : Type;
  header_value_from_str : str -> option HeaderValue;
  header_value_to_str : HeaderValue -> option str;
  form_urlencoded_parse : str -> list (str * str);
}.
#[export] Existing Instance header_name_eq.

(** The environment and the files of the proxy process. *)
Class SecretHost : Type := {
  env_var : str -> option str;
  read_to_string : AbsolutePathBuf -> result str io_error;
}.

(** ** Data *)

Inductive SecretSource : Type := EnvVar (name : str) | SecretFile (path : AbsolutePathBuf).

Inductive MitmHookError : Type :=
  | HooksRequireMitm
  | InvalidHook (index : nat) (field : str) (e : MitmHookError)
  | HookFieldEmpty (index : nat) (field : str)
  | HookBodyReserved (index : nat)
  | EmptyHost
  | HostHasWildcard
  | EmptyMethod
  | EmptyPathPrefix
  | EmptyGlob
  | InvalidGlob (pattern : str)
  | EmptyQueryKey
  | QueryKeyWithoutValue (name : str)
  | InvalidValueMatcher (name : str) (e : MitmHookError)
  | InvalidHeaderName (name : str)
  | EmptySecretEnvVar
  | ExactlyOneSecret
  | EmptySecretFile
  | SecretFileNotAbsolute (path : str)
  | SecretFileNotNormalized (path : str) (e : io_error)
  | MissingEnvVar (name : str)
  | SecretFileUnreadable (path : AbsolutePathBuf) (e : io_error)
  | InvalidHeaderValue (name : str)
  | InjectedHeaderFailed (name : str) (e : MitmHookError).

Inductive MatcherPattern : Type := MatchLiteral (s : str) | MatchGlob (s : str).

Definition PATTERN_PREFIX : str := lit "pattern:".
Definition LITERAL_PREFIX : str := lit "literal:".

Definition parse_matcher_pattern (pattern : str) : result MatcherPattern MitmHookError :=
  match strip_prefix LITERAL_PREFIX pattern with
  | Some literal => Ok (MatchLiteral literal)
  | None =>
      match strip_prefix PATTERN_PREFIX pattern with
      | None => Ok (MatchLiteral pattern)
      | Some glob_pattern => if is_empty glob_pattern then Err EmptyGlob else Ok (MatchGlob glob_pattern)
      end
  end.

Definition normalize_hook_host (host : str) : result str MitmHookError :=
  let normalized := normalize_host host in
  if is_empty normalized then Err EmptyHost
  else if contains_char STAR normalized then Err HostHasWildcard
  else Ok normalized.

Definition normalize_method (method : str) : result str MitmHookError :=
  let normalized := to_ascii_uppercase (trim method) in
  if is_empty normalized then Err EmptyMethod else Ok normalized.
Definition normalize_methods (methods : list str) : result (list str) MitmHookError :=
  collect_results (map normalize_method methods).

Definition normalize_query_name (name : str) : result str MitmHookError :=
  if is_empty name then Err EmptyQueryKey else Ok name.

Section Hooks.
Context `{GlobLib, HttpLib, PathHost, SecretHost}.

Record CompiledGlobMatcher : Type := mkCompiledGlob { glob_text : str; matcher : Glob }.

Inductive PathMatcher : Type := PathPrefix (prefix : str) | PathGlob (g : CompiledGlobMatcher).
Inductive ValueMatcher : Type := ValueExact (value : str) | ValueGlob (g : CompiledGlobMatcher).

Record QueryConstraint : Type := mkQueryConstraint { qc_name : str; qc_allowed_values : list ValueMatcher }.
Record HeaderConstraint : Type := mkHeaderConstraint { hc_name : HeaderName; hc_allowed_values : list ValueMatcher }.

(** The body matcher of a compiled hook is always [None] and is left out. *)
Record MitmHookMatcher : Type := mkMatcher {
  methods : list str;
  path_prefixes : list PathMatcher;
  query : list QueryConstraint;
  headers : list HeaderConstraint;
}.

Record ResolvedInjectedHeader : Type := mkResolvedHeader {
  rh_name : HeaderName;
  rh_value : HeaderValue;
  rh_source : SecretSource;
}.

Record MitmHookActions : Type := mkActions {
  strip_request_headers : list HeaderName;
  inject_request_headers : list ResolvedInjectedHeader;
}.

Record MitmHook : Type := mkHook {
  host : str;
  hook_matcher : MitmHookMatcher;
  actions : MitmHookActions;
}.

Record Request : Type := mkRequest {
  req_method : str;
  req_path : str;
  req_query : option str;
  req_headers : list (HeaderName * HeaderValue);
}.

Inductive HookEvaluation : Type :=
  | NoHooksForHost
  | Matched (actions : MitmHookActions)
  | HookedHostNoMatch.

(** ** Compiling the parts *)

Definition compile_glob_matcher (pattern : str) (literal_separator : bool) : result CompiledGlobMatcher MitmHookError :=
  match glob_build (mkGlobOptions false literal_separator true) pattern with
  | Some g => Ok (mkCompiledGlob pattern g)
  | None => Err (InvalidGlob pattern)
  end.

Definition compile_path_matcher (prefix : str) : result PathMatcher MitmHookError :=
  let? p := parse_matcher_pattern prefix in
  match p with
  | MatchLiteral prefix => if is_empty prefix then Err EmptyPathPrefix else Ok (PathPrefix prefix)
  | MatchGlob glob_pattern => let? g := compile_glob_matcher glob_pattern true in Ok (PathGlob g)
  end.
Definition compile_path_matchers (l : list str) : result (list PathMatcher) MitmHookError :=
  collect_results (map compile_path_matcher l).

Definition compile_value_matcher (value : str) : result ValueMatcher MitmHookError :=
  let? p := parse_matcher_pattern value in
  match p with
  | MatchLiteral value => Ok (ValueExact value)
  | MatchGlob glob_pattern => let? g := compile_glob_matcher glob_pattern false in Ok (ValueGlob g)
  end.
Definition compile_value_matchers (l : list str) : result (list ValueMatcher) MitmHookError :=
  collect_results (map compile_value_matcher l).

Definition parse_header_name (name : str) : result HeaderName MitmHookError :=
  ok_or (header_name_from_bytes name) (InvalidHeaderName name).

Definition parse_secret_file (p : str) : result AbsolutePathBuf MitmHookError :=
  if is_empty (trim p) then Err EmptySecretFile
  else if negb (is_absolute (path_new p)) then Err (SecretFileNotAbsolute p)
  else map_err (SecretFileNotNormalized p) (from_absolute_path (path_new p)).

(** ** Checking *)

(** A loop that stops at the first error. *)
Fixpoint try_all {A E} (f : A -> result unit E) (l : list A) : result unit E :=
  match l with
  | [] => Ok tt
  | x :: l' => let? _ := f x in try_all f l'
  end.

Definition validate_query_constraint (c : str * list str) : result unit MitmHookError :=
  let '(name, values) := c in
  let? normalized := normalize_query_name name in
  if is_empty normalized then Err EmptyQueryKey
  else match values with
       | [] => Err (QueryKeyWithoutValue name)
       | _ => let? _ := map_err (InvalidValueMatcher name) (compile_value_matchers values) in Ok tt
       end.
Definition validate_query_constraints (l : list (str * list str)) : result unit MitmHookError :=
  try_all validate_query_constraint l.

Definition validate_header_constraint (c : str * list str) : result unit MitmHookError :=
  let '(name, values) := c in
  let? _ := parse_header_name name in
  let? _ := map_err (InvalidValueMatcher name) (compile_value_matchers values) in
  Ok tt.
Definition validate_header_constraints (l : list (str * list str)) : result unit MitmHookError :=
  try_all validate_header_constraint l.

Definition validate_strip_request_headers (l : list str) : result unit MitmHookError :=
  try_all (fun name => let? _ := parse_header_name name in Ok tt) l.

Definition validate_injected_header (header : InjectedHeaderConfig) : result unit MitmHookError :=
  let? _ := parse_header_name header.(ih_name) in
  match header.(secret_env_var), header.(secret_file) with
  | Some secret_env_var, None => if is_empty (trim secret_env_var) then Err EmptySecretEnvVar else Ok tt
  | None, Some secret_file => let? _ := parse_secret_file secret_file in Ok tt
  | _, _ => Err ExactlyOneSecret
  end.
Definition validate_injected_headers (l : list InjectedHeaderConfig) : result unit MitmHookError :=
  try_all validate_injected_header l.

(** One hook of the configuration. *)
Definition validate_hook (hook_index : nat) (hook : MitmHookConfig) : result unit MitmHookError :=
  let m := hook.(hook_match) in
  let a := hook.(hook_actions) in
  let? host := map_err (InvalidHook hook_index (lit "host")) (normalize_hook_host hook.(hook_host)) in
  let? methods := map_err (InvalidHook hook_index (lit "match.methods")) (normalize_methods m.(hm_methods)) in
  if bool_decide (methods = []) then Err (HookFieldEmpty hook_index (lit "match.methods"))
  else
    let? prefixes := map_err (InvalidHook hook_index (lit "match.path_prefixes")) (compile_path_matchers m.(hm_path_prefixes)) in
    match prefixes with
    | [] => Err (HookFieldEmpty hook_index (lit "match.path_prefixes"))
    | _ =>
        match m.(hm_body) with
        | Some _ => Err (HookBodyReserved hook_index)
        | None =>
            let? _ := map_err (InvalidHook hook_index (lit "match.query")) (validate_query_constraints m.(hm_query)) in
            let? _ := map_err (InvalidHook hook_index (lit "match.headers")) (validate_header_constraints m.(hm_headers)) in
            let? _ := map_err (InvalidHook hook_index (lit "actions.strip_request_headers"))
                              (validate_strip_request_headers a.(ha_strip_request_headers)) in
            let? _ := map_err (InvalidHook hook_index (lit "actions.inject_request_headers"))
                              (validate_injected_headers a.(ha_inject_request_headers)) in
            if is_empty host then Err (HookFieldEmpty hook_index (lit "host")) else Ok tt
        end
    end.

Fixpoint validate_hooks (hook_index : nat) (hooks : list MitmHookConfig) : result unit MitmHookError :=
  match hooks with
  | [] => Ok tt
  | hook :: rest => let? _ := validate_hook hook_index hook in validate_hooks (S hook_index) rest
  end.

Definition validate_mitm_hook_config (config : NetworkProxyConfig) : result unit MitmHookError :=
  match config.(mitm_hooks) with
  | [] => Ok tt
  | hooks => if negb config.(mitm) then Err HooksRequireMitm else validate_hooks 0 hooks
  end.

(** ** Compiling *)

Definition compile_injected_header (header : InjectedHeaderConfig) : result ResolvedInjectedHeader MitmHookError :=
  let? name := parse_header_name header.(ih_name) in
  let? (secret, source) :=
    (match header.(secret_env_var), header.(secret_file) with
     | Some name, None => let? value := ok_or (env_var name) (MissingEnvVar name) in Ok (value, EnvVar name)
     | None, Some file =>
         let? path := parse_secret_file file in
         let? value := map_err (SecretFileUnreadable path) (read_to_string path) in
         Ok (trim value, SecretFile path)
     | _, _ => Err ExactlyOneSecret
     end) in
  let? value := ok_or (header_value_from_str (default [] header.(ih_prefix) ++ secret)) (InvalidHeaderValue header.(ih_name)) in
  Ok (mkResolvedHeader name value source).

Definition compile_query_constraint (c : str * list str) : result QueryConstraint MitmHookError :=
  let? name := normalize_query_name c.1 in
  let? allowed := compile_value_matchers c.2 in
  Ok (mkQueryConstraint name allowed).

Definition compile_header_constraint (c : str * list str) : result HeaderConstraint MitmHookError :=
  let? name := parse_header_name c.1 in
  let? allowed := compile_value_matchers c.2 in
  Ok (mkHeaderConstraint name allowed).

(** What the loop makes of one hook. *)
Definition compile_hook (hook : MitmHookConfig) : result MitmHook MitmHookError :=
  let m := hook.(hook_match) in
  let a := hook.(hook_actions) in
  let? host := normalize_hook_host hook.(hook_host) in
  let? methods := normalize_methods m.(hm_methods) in
  let? prefixes := compile_path_matchers m.(hm_path_prefixes) in
  let? query := collect_results (map compile_query_constraint m.(hm_query)) in
  let? headers := collect_results (map compile_header_constraint m.(hm_headers)) in
  let? strip := collect_results (map parse_header_name a.(ha_strip_request_headers)) in
  let? inject :=
    collect_results (map (fun header => map_err (InjectedHeaderFailed header.(ih_name)) (compile_injected_header header))
                         a.(ha_inject_request_headers)) in
  Ok (mkHook host (mkMatcher methods prefixes query headers) (mkActions strip inject)).

Definition MitmHooksByHost : Type := gmap str (list MitmHook).

Fixpoint compile_loop (hooks_by_host : gmap str (list MitmHook)) (hooks : list MitmHookConfig) : result MitmHooksByHost MitmHookError :=
  match hooks with
  | [] => Ok hooks_by_host
  | hook :: rest =>
      let? h := compile_hook hook in
      compile_loop (<[h.(host) := default [] (hooks_by_host !! h.(host)) ++ [h]]> hooks_by_host) rest
  end.

Definition compile_mitm_hooks (config : NetworkProxyConfig) : result MitmHooksByHost MitmHookError :=
  let? _ := validate_mitm_hook_config config in
  compile_loop ∅ config.(mitm_hooks).

(** ** Matching *)

Definition path_matcher_matches (m : PathMatcher) (candidate : str) : bool :=
  match m with PathPrefix prefix => starts_with prefix candidate | PathGlob g => glob_is_match g.(matcher) candidate end.
Definition value_matcher_matches (m : ValueMatcher) (candidate : str) : bool :=
  match m with ValueExact value => bool_decide (value = candidate) | ValueGlob g => glob_is_match g.(matcher) candidate end.

Definition path_matches (l : list PathMatcher) (path : str) : bool := existsb (fun m => path_matcher_matches m path) l.

(** The decoded values of a name, in order. *)
Definition query_values (pairs : list (str * str)) (name : str) : list str := map snd (filter (fun p => p.1 = name) pairs).

Definition query_matches (constraints : list QueryConstraint) (req : Request) : bool :=
  match constraints with
  | [] => true
  | _ =>
      let pairs := form_urlencoded_parse (default [] req.(req_query)) in
      forallb (fun c =>
        existsb (fun candidate => existsb (fun allowed => value_matcher_matches allowed candidate) c.(qc_allowed_values))
                (query_values pairs c.(qc_name))) constraints
  end.

Definition header_values (req : Request) (name : HeaderName) : list HeaderValue :=
  map snd (filter (fun p => p.1 = name) req.(req_headers)).

Definition headers_match (constraints : list HeaderConstraint) (req : Request) : bool :=
  forallb (fun c =>
    match header_values req c.(hc_name) with
    | [] => false
    | actual =>
        match c.(hc_allowed_values) with
        | [] => true
        | allowed_values =>
            existsb (fun value =>
              match header_value_to_str value with
              | Some candidate => existsb (fun allowed => value_matcher_matches allowed candidate) allowed_values
              | None => false
              end) actual
        end
    end) constraints.

Definition hook_matches (hook : MitmHook) (req : Request) : bool :=
  let m := hook.(hook_matcher) in
  let method := to_ascii_uppercase req.(req_method) in
  if negb (existsb (fun allowed => bool_decide (allowed = method)) m.(methods)) then false
  else if negb (path_matches m.(path_prefixes) req.(req_path)) then false
  else if negb (query_matches m.(query) req) then false
  else headers_match m.(headers) req.

Fixpoint first_match (hooks : list MitmHook) (req : Request) : HookEvaluation :=
  match hooks with
  | [] => HookedHostNoMatch
  | hook :: rest => if hook_matches hook req then Matched hook.(actions) else first_match rest req
  end.

Definition evaluate_mitm_hooks (hooks_by_host : MitmHooksByHost) (h : str) (req : Request) : HookEvaluation :=
  match hooks_by_host !! normalize_host h with
  | None => NoHooksForHost
  | Some hooks => first_match hooks req
  end.
End Hooks.

(** ** What is compiled *)

Section Compiled.
Context `{GlobLib, HttpLib, PathHost, SecretHost}.

Definition hooks_for (h : str) (hooks : list MitmHook) : list MitmHook := filter (fun k => k.(host) = h) hooks.

Lemma compile_loop_spec hooks : forall m m',
  compile_loop m hooks = Ok m' ->
  exists compiled, Forall2 (fun c k => compile_hook c = Ok k) hooks compiled
    /\ forall h, m' !! h = match hooks_for h compiled with [] => m !! h | ks => Some (default [] (m !! h) ++ ks) end.
Proof.
  induction hooks as [|c hooks IH]; intros m m' Hm; simpl in Hm.
  - injection Hm as <-. exists []. split; [constructor | done].
  - destruct (compile_hook c) as [k|] eqn:Ek; [|done]. apply IH in Hm as (compiled & Hc & Hl).
    exists (k :: compiled). split; [by constructor|]. intros h. rewrite Hl. unfold hooks_for. rewrite filter_cons.
    destruct (decide (host k = h)) as [<- | Hn].
    + rewrite lookup_insert_eq. destruct (filter _ compiled); [done|]. simpl. by rewrite <-app_assoc.
    + by rewrite lookup_insert_ne.
Qed.

Lemma first_match_spec ks req :
  match first_match ks req with
  | NoHooksForHost => False
  | Matched a => exists ks1 k ks2, ks = ks1 ++ k :: ks2 /\ a = k.(actions) /\ hook_matches k req = true
                                   /\ Forall (fun k => hook_matches k req = false) ks1
  | HookedHostNoMatch => Forall (fun k => hook_matches k req = false) ks
  end.
Proof.
  induction ks as [|k ks IH]; simpl; [done|]. destruct (hook_matches k req) eqn:E; [by exists [], k, ks|].
  destruct (first_match ks req); [done| |by constructor].
  destruct IH as (ks1 & x & ks2 & -> & -> & Hx & Hf). exists (k :: ks1), x, ks2. split_and!; [done..|]. by constructor.
Qed.

(** *** What a configured hook says *)

(** A value is meant literally, or as a glob when it begins with [pattern:]; [literal:]
    keeps a literal from being read so. *)
Definition text_says (literal : str -> Prop) (separator : bool) (v candidate : str) : Prop :=
  match strip_prefix (lit "literal:") v, strip_prefix (lit "pattern:") v with
  | Some x, _ => literal x
  | None, Some g => exists glob, glob_build (mkGlobOptions false separator true) g = Some glob /\ glob_is_match glob candidate = true
  | None, None => literal v
  end.
Definition value_says (v candidate : str) : Prop := text_says (fun x => candidate = x) false v candidate.
Definition path_says (v candidate : str) : Prop := text_says (fun x => exists rest, candidate = x ++ rest) true v candidate.

(** One of the methods and one of the paths match; for each query name one of the values
    of the request is allowed; each header is there, and where values are given one of
    its values is allowed. *)
Definition request_matches (c : MitmHookConfig) (req : Request) : Prop :=
  let m := c.(hook_match) in
  (exists method, method ∈ m.(hm_methods) /\ to_ascii_uppercase (trim method) = to_ascii_uppercase req.(req_method))
  /\ (exists prefix, prefix ∈ m.(hm_path_prefixes) /\ path_says prefix req.(req_path))
  /\ Forall (fun q => exists v x, v ∈ q.2 /\ (q.1, x) ∈ form_urlencoded_parse (default [] req.(req_query)) /\ value_says v x) m.(hm_query)
  /\ Forall (fun q => exists name hv, header_name_from_bytes q.1 = Some name /\ (name, hv) ∈ req.(req_headers)
                     /\ (q.2 = [] \/ exists v x, v ∈ q.2 /\ header_value_to_str hv = Some x /\ value_says v x)) m.(hm_headers).

(** The header that is injected: the prefix and the secret of the variable or of the file. *)
Definition injects (header : InjectedHeaderConfig) (r : ResolvedInjectedHeader) : Prop :=
  header_name_from_bytes header.(ih_name) = Some r.(rh_name)
  /\ exists secret, header_value_from_str (default [] header.(ih_prefix) ++ secret) = Some r.(rh_value)
     /\ ((exists name, header.(secret_env_var) = Some name /\ header.(secret_file) = None
            /\ env_var name = Some secret /\ r.(rh_source) = EnvVar name)
         \/ exists file path text, header.(secret_file) = Some file /\ header.(secret_env_var) = None
            /\ parse_secret_file file = Ok path /\ read_to_string path = Ok text /\ secret = trim text /\ r.(rh_source) = SecretFile path).

Definition acts (c : MitmHookConfig) (a : MitmHookActions) : Prop :=
  Forall2 (fun text name => header_name_from_bytes text = Some name) c.(hook_actions).(ha_strip_request_headers) a.(strip_request_headers)
  /\ Forall2 injects c.(hook_actions).(ha_inject_request_headers) a.(inject_request_headers).

Lemma map_err_Ok {A E F} (g : E -> F) (r : result A E) a : map_err g r = Ok a <-> r = Ok a.
Proof. destruct r; simpl; split; congruence. Qed.

Lemma compile_value_says v k x : compile_value_matcher v = Ok k -> value_matcher_matches k x = true <-> value_says v x.
Proof.
  unfold compile_value_matcher, parse_matcher_pattern, value_says, text_says, LITERAL_PREFIX, PATTERN_PREFIX.
  destruct (strip_prefix (lit "literal:") v) as [l|]; [intros [= <-]; simpl; rewrite bool_decide_eq_true; naive_solver|].
  destruct (strip_prefix (lit "pattern:") v) as [g|]; [|intros [= <-]; simpl; rewrite bool_decide_eq_true; naive_solver].
  destruct (is_empty g); [done|]. cbn. unfold compile_glob_matcher. destruct (glob_build _ g); [|done]. intros [= <-]. simpl. naive_solver.
Qed.

Lemma compile_path_says v k x : compile_path_matcher v = Ok k -> path_matcher_matches k x = true <-> path_says v x.
Proof.
  unfold compile_path_matcher, parse_matcher_pattern, path_says, text_says, LITERAL_PREFIX, PATTERN_PREFIX.
  destruct (strip_prefix (lit "literal:") v) as [l|].
  { simpl. destruct (is_empty l); [done|]. intros [= <-]. simpl. apply starts_with_true. }
  destruct (strip_prefix (lit "pattern:") v) as [g|].
  - destruct (is_empty g); [done|]. cbn. unfold compile_glob_matcher. destruct (glob_build _ g); [|done]. intros [= <-]. simpl. naive_solver.
  - simpl. destruct (is_empty v); [done|]. intros [= <-]. simpl. apply starts_with_true.
Qed.

(** A test on compiled entries is one on the entries they come from. *)
Lemma compiled_exists {A B E} (f : A -> result B E) (P : A -> Prop) (test : B -> bool) l ks :
  collect_results (map f l) = Ok ks -> (forall a k, f a = Ok k -> test k = true <-> P a) ->
  existsb test ks = true <-> exists a, a ∈ l /\ P a.
Proof.
  intros Hc%collect_results_Ok Hp. induction Hc as [|a k l ks Hak _ IH]; simpl; [set_solver|].
  rewrite orb_true_iff, IH, (Hp _ _ Hak). set_solver.
Qed.

Lemma compiled_forall {A B E} (f : A -> result B E) (P : A -> Prop) (test : B -> bool) l ks :
  collect_results (map f l) = Ok ks -> (forall a k, f a = Ok k -> test k = true <-> P a) ->
  forallb test ks = true <-> Forall P l.
Proof.
  intros Hc%collect_results_Ok Hp. induction Hc as [|a k l ks Hak _ IH]; simpl; [done|].
  by rewrite andb_true_iff, IH, (Hp _ _ Hak), Forall_cons.
Qed.

Lemma any_value_says values ks x :
  compile_value_matchers values = Ok ks ->
  existsb (fun allowed => value_matcher_matches allowed x) ks = true <-> exists v, v ∈ values /\ value_says v x.
Proof. intros Hc. apply (compiled_exists _ _ _ _ _ Hc). intros v k. apply compile_value_says. Qed.

Lemma query_says constraints qs req :
  collect_results (map compile_query_constraint constraints) = Ok qs ->
  query_matches qs req = true <->
  Forall (fun q => exists v x, v ∈ q.2 /\ (q.1, x) ∈ form_urlencoded_parse (default [] req.(req_query)) /\ value_says v x) constraints.
Proof.
  intros Hc. unfold query_matches. set (pairs := form_urlencoded_parse _).
  transitivity (forallb (fun c => existsb (fun candidate => existsb (fun allowed => value_matcher_matches allowed candidate) c.(qc_allowed_values))
                                          (query_values pairs c.(qc_name))) qs = true); [by destruct qs|].
  apply (compiled_forall _ _ _ _ _ Hc). intros [name values] k. unfold compile_query_constraint, normalize_query_name. cbn [fst snd].
  destruct (is_empty name); [done|]. destruct (compile_value_matchers values) as [vs|] eqn:Ev; [|done]. intros [= <-].
  cbn [qc_name qc_allowed_values].
  rewrite existsb_exists. setoid_rewrite (any_value_says _ _ _ Ev). setoid_rewrite <-list_elem_of_In.
  unfold query_values. setoid_rewrite list_elem_of_fmap. setoid_rewrite list_elem_of_filter. split.
  - intros (x & ([n y] & -> & Hn & Hin) & v & Hv & Hs). simpl in *. subst. eauto.
  - intros (v & x & Hv & Hin & Hs). exists x. split; [|eauto]. by exists (name, x).
Qed.

Lemma headers_say constraints hs req :
  collect_results (map compile_header_constraint constraints) = Ok hs ->
  headers_match hs req = true <->
  Forall (fun q => exists name hv, header_name_from_bytes q.1 = Some name /\ (name, hv) ∈ req.(req_headers)
                   /\ (q.2 = [] \/ exists v x, v ∈ q.2 /\ header_value_to_str hv = Some x /\ value_says v x)) constraints.
Proof.
  intros Hc. apply (compiled_forall _ _ _ _ _ Hc). intros [name values] k. unfold compile_header_constraint, parse_header_name. cbn [fst snd].
  destruct (header_name_from_bytes name) as [hn|]; [|done]. simpl.
  destruct (compile_value_matchers values) as [vs|] eqn:Ev; [|done]. intros [= <-].
  cbn [hc_name hc_allowed_values].
  assert (forall hv, hv ∈ header_values req hn <-> (hn, hv) ∈ req_headers req) as Hh.
  { intros hv. unfold header_values. rewrite list_elem_of_fmap. setoid_rewrite list_elem_of_filter. split.
    - intros ([n y] & -> & Hn & Hin). simpl in *. by subst.
    - intros Hin. by exists (hn, hv). }
  assert (values = [] <-> vs = []) as Hnil.
  { apply collect_results_Ok, Forall2_length in Ev. destruct values, vs; done. }
  destruct (header_values req hn) as [|h1 hs'] eqn:E.
  { split; [done|]. intros (n & hv & [= <-] & Hin & _). apply Hh in Hin. by apply elem_of_nil in Hin. }
  destruct vs as [|v1 vs'].
  { split; [|done]. intros _. exists hn, h1. split_and!; [done|apply Hh; by left|]. left. by apply Hnil. }
  change (existsb (fun value => match header_value_to_str value with
                                | Some x => existsb (fun allowed => value_matcher_matches allowed x) (v1 :: vs') | None => false end) (h1 :: hs') = true
          <-> exists name0 hv, Some hn = Some name0 /\ (name0, hv) ∈ req_headers req
              /\ (values = [] \/ exists v x, v ∈ values /\ header_value_to_str hv = Some x /\ value_says v x)).
  rewrite existsb_exists. setoid_rewrite <-list_elem_of_In. split.
  - intros (hv & Hin%Hh & Hs). exists hn, hv. split_and!; [done..|]. right. destruct (header_value_to_str hv) as [x|]; [|done].
    apply (any_value_says _ _ _ Ev) in Hs as (v & Hv & Hs). eauto.
  - intros (n & hv & [= <-] & Hin%Hh & [E0%Hnil|(v & x & Hv & Hx & Hs)]); [done|]. exists hv. split; [done|]. rewrite Hx.
    apply (any_value_says _ _ _ Ev). eauto.
Qed.

Lemma normalize_methods_elem l ms method :
  normalize_methods l = Ok ms -> existsb (fun allowed => bool_decide (allowed = method)) ms = true
  <-> exists m, m ∈ l /\ to_ascii_uppercase (trim m) = method.
Proof.
  intros Hc. apply (compiled_exists _ _ _ _ _ Hc). intros m k. unfold normalize_method.
  destruct (is_empty _); [done|]. intros [= <-]. apply bool_decide_eq_true.
Qed.

Lemma injected_header_injects header r :
  map_err (InjectedHeaderFailed header.(ih_name)) (compile_injected_header header) = Ok r -> injects header r.
Proof.
  intros Hr%map_err_Ok. unfold compile_injected_header, parse_header_name in Hr. unfold injects.
  destruct (header_name_from_bytes (ih_name header)) as [n|]; [simpl in Hr|done].
  destruct (secret_env_var header) as [v|], (secret_file header) as [f|]; try done.
  - destruct (env_var v) as [s|] eqn:Es; [simpl in Hr|done]. destruct (header_value_from_str _) eqn:E; [|done]. injection Hr as <-.
    split; [done|]. exists s. split; [done|]. left. by exists v.
  - destruct (parse_secret_file f) as [p|] eqn:Ep; [simpl in Hr|done]. destruct (read_to_string p) as [t|] eqn:Et; [simpl in Hr|done].
    destruct (header_value_from_str _) eqn:E; [|done]. injection Hr as <-.
    split; [done|]. exists (trim t). split; [done|]. right. by exists f, p, t.
Qed.

(** A compiled hook does what its configuration says. *)
Lemma compile_hook_says c k :
  compile_hook c = Ok k ->
  k.(host) = normalize_host c.(hook_host) /\ (forall req, hook_matches k req = true <-> request_matches c req) /\ acts c k.(actions).
Proof.
  unfold compile_hook. intros Hk.
  destruct (normalize_hook_host (hook_host c)) as [h|] eqn:Eh; [simpl in Hk|done].
  destruct (normalize_methods _) as [ms|] eqn:Em; [simpl in Hk|done].
  destruct (compile_path_matchers _) as [ps|] eqn:Ep; [simpl in Hk|done].
  destruct (collect_results (map compile_query_constraint _)) as [qs|] eqn:Eq; [simpl in Hk|done].
  destruct (collect_results (map compile_header_constraint _)) as [hs|] eqn:Ehs; [simpl in Hk|done].
  destruct (collect_results (map parse_header_name _)) as [ss|] eqn:Es; [simpl in Hk|done].
  destruct (collect_results (map (fun header => map_err _ _) _)) as [injs|] eqn:Ei; [simpl in Hk|done]. injection Hk as <-.
  cbn [host hook_matcher actions]. split_and!.
  - unfold normalize_hook_host in Eh. destruct (is_empty _); [done|]. destruct (contains_char _ _); by simplify_eq.
  - intros req. unfold hook_matches, request_matches. cbn [hook_matcher methods path_prefixes query headers].
    rewrite <-(normalize_methods_elem _ _ _ Em), <-(query_says _ _ _ Eq), <-(headers_say _ _ _ Ehs).
    rewrite <-(compiled_exists _ _ (fun m => path_matcher_matches m (req_path req)) _ _ Ep) by (intros ? ?; apply compile_path_says).
    unfold path_matches. destruct (existsb _ ms), (existsb _ ps), (query_matches qs req), (headers_match hs req); naive_solver.
  - split; cbn [strip_request_headers inject_request_headers].
    + apply collect_results_Ok in Es. eapply Forall2_impl; [exact Es|]. intros x y. unfold parse_header_name. by destruct (header_name_from_bytes x); intros [= <-].
    + apply collect_results_Ok in Ei. eapply Forall2_impl; [exact Ei|]. intros x y. apply injected_header_injects.
Qed.

(** The compiled hooks of a host are those of the configuration. *)
Lemma hooks_for_config configs compiled h :
  Forall2 (fun c k => compile_hook c = Ok k) configs compiled ->
  Forall2 (fun c k => compile_hook c = Ok k) (filter (fun c => normalize_host c.(hook_host) = h) configs) (hooks_for h compiled).
Proof.
  unfold hooks_for. induction 1 as [|c k cs ks Hck _ IH]; [constructor|]. rewrite !filter_cons.
  destruct (compile_hook_says _ _ Hck) as (Hh & _). rewrite Hh. destruct (decide _); [by constructor | done].
Qed.

(** C26.  An intercepted request gets the actions of the first configured hook for its
    host that the request matches: by one of the methods, whatever their case, by one of
    the path prefixes or path globs, by a value for each of the query names, and by each
    of the headers, with one of the values where some are given.  The actions are to
    strip the headers named and to inject the headers with the secrets configured.  A
    host has no hooks exactly when none is configured for it. *)
Theorem hooks_exact config m :
  compile_mitm_hooks config = Ok m ->
  forall h req,
    let configured := filter (fun c => normalize_host c.(hook_host) = normalize_host h) config.(mitm_hooks) in
    match evaluate_mitm_hooks m h req with
    | NoHooksForHost => configured = []
    | HookedHostNoMatch => configured <> [] /\ Forall (fun c => ~ request_matches c req) configured
    | Matched a =>
        exists before c after, configured = before ++ c :: after /\ request_matches c req /\ acts c a
                               /\ Forall (fun c => ~ request_matches c req) before
    end.
Proof.
  unfold compile_mitm_hooks. destruct (validate_mitm_hook_config config); [|done].
  intros (compiled & Hc & Hl)%compile_loop_spec h req. cbv zeta.
  set (configured := filter _ (mitm_hooks config)).
  apply (hooks_for_config _ _ (normalize_host h)) in Hc. fold configured in Hc.
  unfold evaluate_mitm_hooks. rewrite Hl, lookup_empty.
  assert (forall cs ks, Forall2 (fun c k => compile_hook c = Ok k) cs ks -> Forall (fun k => hook_matches k req = false) ks ->
            Forall (fun c => ~ request_matches c req) cs) as Hnot.
  { intros cs ks Hcs Hf. induction Hcs as [|c k cs ks Hck _ IH]; constructor; apply Forall_cons in Hf as [Hk Hf]; [|by apply IH].
    destruct (compile_hook_says _ _ Hck) as (_ & Hm & _). rewrite <-Hm. by rewrite Hk. }
  destruct (hooks_for (normalize_host h) compiled) as [|k ks']; [by apply Forall2_nil_inv_r in Hc|].
  simpl default. rewrite app_nil_l. pose proof (first_match_spec (k :: ks') req) as Hf.
  destruct (first_match (k :: ks') req) as [|acted|]; [done| |].
  - destruct Hf as (ks1 & x & ks2 & Eks & -> & Hx & Hn). rewrite Eks in Hc.
    apply Forall2_app_inv_r in Hc as (cs1 & cs' & Hc1 & Hc2 & Ec). rewrite Ec. clear Ec.
    apply Forall2_cons_inv_r in Hc2 as (c & cs2 & Hcx & _ & ->). destruct (compile_hook_says _ _ Hcx) as (_ & Hm & Ha).
    exists cs1, c, cs2. split_and!; [done|by apply Hm|done|by eapply Hnot].
  - split; [|by eapply Hnot]. intros E. rewrite E in Hc. by apply Forall2_nil_inv_l in Hc.
Qed.

(** ** Checking comes first *)

Lemma try_all_Ok {A E} (f : A -> result unit E) l : try_all f l = Ok tt <-> Forall (fun x => f x = Ok tt) l.
Proof.
  induction l as [|x l IH]; simpl; [done|]. rewrite Forall_cons, <-IH.
  destruct (f x) as [[]|]; [tauto|]. split; [done | by intros []].
Qed.

Lemma Forall2_exists {A B} (P : A -> B -> Prop) l : Forall (fun a => exists b, P a b) l <-> exists bs, Forall2 P l bs.
Proof.
  split.
  - induction 1 as [|a l [b Hb] _ [bs IH]]; [by exists []|]. exists (b :: bs). by constructor.
  - intros [bs Hl]. induction Hl; constructor; eauto.
Qed.

Lemma collect_results_exists {A B E} (f : A -> result B E) l :
  (exists bs, collect_results (map f l) = Ok bs) <-> Forall (fun a => exists b, f a = Ok b) l.
Proof. setoid_rewrite collect_results_Ok. by rewrite Forall2_exists. Qed.

(** Two conditions that agree on what was checked. *)
Lemma Forall_iff_check {A} (C P Q : A -> Prop) l : Forall C l -> (forall x, C x -> P x <-> Q x) -> Forall P l <-> Forall Q l.
Proof. induction 1 as [|x l Hx _ IH]; intros Hpq; [done|]. rewrite !Forall_cons, IH, Hpq by done. done. Qed.

(** The secret of an injected header is there and makes a header value. *)
Definition secret_available (header : InjectedHeaderConfig) : Prop :=
  exists secret,
    match header.(secret_env_var), header.(secret_file) with
    | Some name, _ => env_var name = Some secret
    | None, Some file => exists path text, parse_secret_file file = Ok path /\ read_to_string path = Ok text /\ secret = trim text
    | None, None => False
    end /\ is_Some (header_value_from_str (default [] header.(ih_prefix) ++ secret)).

Lemma injected_header_compiles header :
  validate_injected_header header = Ok tt ->
  (exists r, compile_injected_header header = Ok r) <-> secret_available header.
Proof.
  unfold validate_injected_header, compile_injected_header, secret_available.
  destruct (parse_header_name (ih_name header)); [|done].
  destruct (secret_env_var header) as [v|], (secret_file header) as [f|]; try done.
  - intros _. destruct (env_var v) as [s|]; simpl; [|naive_solver].
    destruct (header_value_from_str _) eqn:E; simpl; split.
    + intros _. exists s. rewrite E. split; [done | by eexists].
    + eauto.
    + by intros [].
    + intros (s' & [= <-] & Hs). rewrite E in Hs. by destruct Hs.
  - destruct (parse_secret_file f) as [p|]; [|done]. intros _. destruct (read_to_string p) as [t|] eqn:Er; simpl;
      [|split; [by intros [] | intros (? & (? & ? & [= <-] & Ht & _) & _); congruence]].
    destruct (header_value_from_str _) eqn:E; simpl; split.
    + intros _. exists (trim t). rewrite E. split; [eauto | by eexists].
    + eauto.
    + by intros [].
    + intros (s' & (? & t' & [= <-] & Ht & ->) & Hs). assert (t' = t) as -> by congruence. rewrite E in Hs. by destruct Hs.
Qed.

Definition hook_secrets (hook : MitmHookConfig) : Prop :=
  Forall secret_available hook.(hook_actions).(ha_inject_request_headers).

Lemma query_constraint_compiles c : validate_query_constraint c = Ok tt -> exists q, compile_query_constraint c = Ok q.
Proof.
  destruct c as [name values]. unfold validate_query_constraint, compile_query_constraint. cbn [fst snd].
  destruct (normalize_query_name name); [|done]. destruct (is_empty _); [done|]. destruct values as [|v values]; [done|].
  destruct (compile_value_matchers _); [eauto | done].
Qed.

Lemma header_constraint_compiles c : validate_header_constraint c = Ok tt -> exists q, compile_header_constraint c = Ok q.
Proof.
  destruct c as [name values]. unfold validate_header_constraint, compile_header_constraint. cbn [fst snd].
  destruct (parse_header_name name); [|done]. destruct (compile_value_matchers _); [eauto | done].
Qed.

Lemma header_name_compiles name :
  (let? _ := parse_header_name name in Ok tt) = Ok tt -> exists n, parse_header_name name = Ok n.
Proof. destruct (parse_header_name name); [eauto | done]. Qed.

Lemma Forall_compiles {A B E} (check : A -> result unit E) (f : A -> result B E) l :
  (forall x, check x = Ok tt -> exists y, f x = Ok y) -> Forall (fun x => check x = Ok tt) l ->
  exists ys, collect_results (map f l) = Ok ys.
Proof. intros Hf Hl. apply collect_results_exists. eapply Forall_impl; [exact Hl | exact Hf]. Qed.

(** A hook that passes the checks compiles exactly when its secrets are there. *)
Lemma hook_compiles i hook :
  validate_hook i hook = Ok tt -> (exists k, compile_hook hook = Ok k) <-> hook_secrets hook.
Proof.
  unfold validate_hook, compile_hook, hook_secrets. intros Hv.
  destruct (normalize_hook_host (hook_host hook)) as [h|]; [simpl in Hv|done].
  destruct (normalize_methods _) as [ms|]; [simpl in Hv|done]. case_bool_decide; [done|].
  destruct (compile_path_matchers _) as [ps|]; [simpl in Hv|done]. destruct ps as [|p ps]; [done|].
  destruct (hm_body _); [done|].
  destruct (validate_query_constraints _) as [[]|] eqn:Eq; [simpl in Hv|done].
  destruct (validate_header_constraints _) as [[]|] eqn:Eh; [simpl in Hv|done].
  destruct (validate_strip_request_headers _) as [[]|] eqn:Es; [simpl in Hv|done].
  destruct (validate_injected_headers _) as [[]|] eqn:Ei; [clear Hv|done].
  apply try_all_Ok in Eq, Eh, Es, Ei.
  destruct (Forall_compiles _ _ _ query_constraint_compiles Eq) as [qs ->].
  destruct (Forall_compiles _ _ _ header_constraint_compiles Eh) as [hs ->].
  destruct (Forall_compiles _ _ _ header_name_compiles Es) as [ss ->].
  set (inject := fun header => map_err _ (compile_injected_header header)).
  assert ((exists hs, collect_results (map inject (ha_inject_request_headers (hook_actions hook))) = Ok hs)
          <-> Forall secret_available (ha_inject_request_headers (hook_actions hook))) as <-.
  { rewrite collect_results_exists. apply Forall_iff_check with (1 := Ei). intros header Hc. unfold inject.
    setoid_rewrite map_err_Ok. by apply injected_header_compiles. }
  destruct (collect_results (map inject _)); split; eauto; by intros [].
Qed.

Lemma validate_hooks_Forall hooks : forall i, validate_hooks i hooks = Ok tt -> Forall (fun h => exists j, validate_hook j h = Ok tt) hooks.
Proof.
  induction hooks as [|h hooks IH]; intros i Hv; simpl in Hv; constructor.
  - exists i. by destruct (validate_hook i h) as [[]|].
  - apply (IH (S i)). by destruct (validate_hook i h).
Qed.

Lemma compile_loop_Ok hooks : forall m,
  (exists m', compile_loop m hooks = Ok m') <-> Forall (fun h => exists k, compile_hook h = Ok k) hooks.
Proof.
  induction hooks as [|h hooks IH]; intros m; simpl; [split; [constructor | eauto]|].
  rewrite Forall_cons. destruct (compile_hook h) as [k|]; [rewrite IH; naive_solver | split; [by intros [] | by intros [[] _]]].
Qed.

(** C40.  Checking is enough: a configuration whose hooks pass the checks compiles exactly
    when the secrets of the injected headers can be read and make header values; one
    whose hooks do not pass does not compile. *)
Theorem checked_hooks_compile config :
  (exists m, compile_mitm_hooks config = Ok m) <->
  validate_mitm_hook_config config = Ok tt /\ Forall hook_secrets config.(mitm_hooks).
Proof.
  unfold compile_mitm_hooks. destruct (validate_mitm_hook_config config) as [[]|] eqn:Ev; [|split; [by intros [] | by intros []]].
  rewrite compile_loop_Ok. transitivity (Forall hook_secrets (mitm_hooks config)); [|tauto].
  assert (Forall (fun h => exists j, validate_hook j h = Ok tt) (mitm_hooks config)) as Hv.
  { unfold validate_mitm_hook_config in Ev. destruct (mitm_hooks config) as [|h hooks] eqn:E; [constructor|].
    destruct (negb (mitm config)); [done|]. by eapply validate_hooks_Forall. }
  apply Forall_iff_check with (1 := Hv). intros h [j Hj]. by eapply hook_compiles.
Qed.
End Compiled.

Module HookDemo.
Import MiniGlob ConfigDemo.

#[export] Instance demo_http : HttpLib := {|
  HeaderName := str;
  header_name_eq := _;
  header_name_from_bytes s := if is_empty s then None else Some (to_ascii_lowercase s);
  HeaderValue := str;
  header_value_from_str := Some;
  header_value_to_str := Some;
  form_urlencoded_parse s := omap (fun piece => split_once 61%N piece) (split_on 38%N s);
|}.
#[export] Instance demo_secrets : SecretHost := {|
  env_var name := if bool_decide (name = lit "TOKEN") then Some (lit "t0") else None;
  read_to_string _ := Err (mkIoError NotFound []);
|}.

Definition demo_hook (prefix : str) : MitmHookConfig :=
  mkHookConfig (lit "API.github.com:443")
    (mkHookMatch [lit "post"] [prefix] [(lit "ref", [lit "main"; lit "pattern:rel*"])] [] None)
    (mkHookActions [lit "Authorization"] [mkInjectedHeader (lit "Authorization") (Some (lit "TOKEN")) None (Some (lit "Bearer "))]).

Definition demo_hooks : NetworkProxyConfig :=
  mkNetworkConfig true default_proxy_url true default_socks_url true true false false Limited None None false true false false
    [demo_hook (lit "/repos/x/"); demo_hook (lit "/repos")].

Definition demo_request (path : str) : Request := mkRequest (lit "POST") path (Some (lit "a=b&ref=release")) [].

Definition demo_actions : MitmHookActions :=
  mkActions [lit "authorization"] [mkResolvedHeader (lit "authorization") (lit "Bearer t0") (EnvVar (lit "TOKEN"))].

Lemma hooks_exact_witness :
  exists m, compile_mitm_hooks demo_hooks = Ok m
    /\ evaluate_mitm_hooks m (lit "api.GITHUB.com") (demo_request (lit "/repos/y")) = Matched demo_actions
    /\ evaluate_mitm_hooks m (lit "api.github.com") (demo_request (lit "/user")) = HookedHostNoMatch
    /\ exists c, c ∈ demo_hooks.(mitm_hooks) /\ request_matches c (demo_request (lit "/repos/y")) /\ acts c demo_actions.
Proof.
  destruct (compile_mitm_hooks demo_hooks) as [m|] eqn:E; [|vm_compute in E; discriminate E].
  pose proof (hooks_exact demo_hooks m E (lit "api.GITHUB.com") (demo_request (lit "/repos/y"))) as Hx.
  assert (evaluate_mitm_hooks m (lit "api.GITHUB.com") (demo_request (lit "/repos/y")) = Matched demo_actions) as Em
    by (vm_compute in E; injection E as <-; vm_compute; reflexivity).
  exists m. split; [reflexivity|]. split; [exact Em|].
  split; [vm_compute in E; injection E as <-; vm_compute; reflexivity|].
  rewrite Em in Hx. destruct Hx as (before & c & after & Hc & Hm & Ha & _). exists c. split; [|split; [exact Hm | exact Ha]].
  apply (list_elem_of_filter (fun c => normalize_host c.(hook_host) = normalize_host (lit "api.GITHUB.com"))).
  rewrite Hc. apply elem_of_app. right. left.
Defined.

Example hook_examples :
  validate_mitm_hook_config (mkNetworkConfig true [] true [] true true false false Full None None false false false false [demo_hook (lit "/")])
    = Err HooksRequireMitm
  /\ validate_hook 3 (mkHookConfig (lit "*.x.com") (mkHookMatch [] [] [] [] None) (mkHookActions [] []))
     = Err (InvalidHook 3 (lit "host") HostHasWildcard)
  /\ compile_path_matcher (lit "pattern:") = Err EmptyGlob /\ compile_path_matcher (lit "literal:pattern:x") = Ok (PathPrefix (lit "pattern:x")).
Proof. split_and!; vm_compute; reflexivity. Qed.
End HookDemo.
