(* ===== verification/NetworkState.v ===== *)
(** * Managed constraints and the compiled state of the network proxy

    [network-proxy/src/state.rs]: a configuration is checked against the constraints of
    the managed configuration and compiled into the state the proxy decides with.  The
    text of an error keeps its lists as lists, with the entries of a hash set in one
    fixed order. *)

From Stdlib Require Import ZArith.
From stdpp Require Import gmap.
From S2P Require Import Prelude RustStr PatchSyntax AbsPath IpAddr NetworkPolicy NetworkConfig MitmHook.

(** ** Data *)

Record NetworkProxyConstraints : Type := mkConstraints {
  c_enabled : option bool;
  c_mode : option NetworkMode;
  c_allow_upstream_proxy : option bool;
  c_dangerously_allow_non_loopback_proxy : option bool;
  c_dangerously_allow_all_unix_sockets : option bool;
  c_allowed_domains : option (list str);
  c_allowlist_expansion_enabled : option bool;
  c_denied_domains : option (list str);
  c_denylist_expansion_enabled : option bool;
  c_allow_unix_sockets : option (list str);
  c_allow_local_binding : option bool;
}.
#[export] Instance constraints_eq_dec : EqDecision NetworkProxyConstraints.
Proof. solve_decision. Defined.

Definition no_constraints : NetworkProxyConstraints :=
  mkConstraints None None None None None None None None None None None.

(** The parts of a message. *)
Inductive ErrorText : Type :=
  | Text (s : str)
  | Patterns (l : list str)
  | ModeText (m : NetworkMode)
  | HookErrorText (e : MitmHookError).

Inductive NetworkProxyConstraintError : Type :=
  | InvalidValue (field_name : str) (candidate allowed : ErrorText).

Inductive BuildError : Type :=
  | BuildConfigError (e : NetworkConfigError)
  | CredentialBrokerRequiresMitm
  | BuildConstraintError (e : NetworkProxyConstraintError)
  | BuildCompileError (e : CompileError)
  | BuildHookError (e : MitmHookError)
  | BuildMitmError (e : str).

Record BlockedRequest : Type := mkBlockedRequest {
  br_host : str;
  br_reason : str;
  br_client : option str;
  br_method : option str;
  br_mode : option NetworkMode;
  br_protocol : str;
  br_execution_id : option str;
  br_decision : option str;
  br_source : option str;
  br_port : option N;
  br_timestamp : Z;
}.

(** [MitmState::new] of [mitm.rs] sets up the certificate authority. *)
Class MitmHost : Type := {
  MitmState : Type;
  mitm_state_new : bool -> result MitmState str;
}.

Definition network_mode_rank (m : NetworkMode) : nat := match m with Limited => 0 | Full => 1 end.

(** [validate_non_global_wildcard_domain_patterns] *)
Definition validate_non_global_wildcard_domain_patterns (field_name : str) (patterns : list str)
  : result unit NetworkProxyConstraintError :=
  match List.find is_global_wildcard_domain_pattern patterns with
  | Some pattern =>
      Err (InvalidValue field_name (Text (trim pattern))
             (Text (lit "exact hosts or scoped wildcards like *.example.com or **.example.com")))
  | None => Ok tt
  end.

(** The set of the entries in lower case. *)
Definition lowercase_set (l : list str) : gset str := list_to_set (map to_ascii_lowercase l).

(** One of the [validate] calls: the value is refused when [bad] holds. *)
Definition refuse_if (bad : bool) (field_name : str) (candidate allowed : ErrorText) : result unit NetworkProxyConstraintError :=
  if bad then Err (InvalidValue field_name candidate allowed) else Ok tt.

Definition DISABLED : ErrorText := Text (lit "false (disabled by managed config)").

Section State.
Context `{GlobLib, HttpLib, PathHost, SecretHost, MitmHost}.

Record ConfigState : Type := mkConfigState {
  config : NetworkProxyConfig;
  allow_set : GlobSet;
  deny_set : GlobSet;
  mitm_state : option MitmState;
  mitm_hooks_by_host : gmap str (list MitmHook);
  constraints : NetworkProxyConstraints;
  blocked : list BlockedRequest;
  blocked_total : Z;
}.

Definition build_config_state (c : NetworkProxyConfig) (k : NetworkProxyConstraints) : result ConfigState BuildError :=
  let? _ := map_err BuildConfigError (validate_unix_socket_allowlist_paths c) in
  if c.(credential_broker) && negb c.(mitm) then Err CredentialBrokerRequiresMitm
  else
    let allowed := default [] (allowed_domains c) in
    let denied := default [] (denied_domains c) in
    let? _ := map_err BuildConstraintError (validate_non_global_wildcard_domain_patterns (lit "network.denied_domains") denied) in
    let? deny_set := map_err BuildCompileError (compile_denylist_globset denied) in
    let? allow_set := map_err BuildCompileError (compile_allowlist_globset allowed) in
    let? hooks := map_err BuildHookError (compile_mitm_hooks c) in
    let? m :=
      (if c.(mitm) then let? m := map_err BuildMitmError (mitm_state_new c.(allow_upstream_proxy)) in Ok (Some m)
       else Ok None) in
    Ok (mkConfigState c allow_set deny_set m hooks k [] 0).

(** *** The checks on the domains *)

Definition validate_allowed (c : NetworkProxyConfig) (k : NetworkProxyConstraints) : result unit NetworkProxyConstraintError :=
  let candidate := default [] (allowed_domains c) in
  let denied_domain_overrides := lowercase_set (default [] (denied_domains c)) in
  match k.(c_allowed_domains) with
  | None => Ok tt
  | Some managed =>
      let? _ := validate_non_global_wildcard_domain_patterns (lit "network.allowed_domains") managed in
      let required_set := lowercase_set managed in
      let candidate_set := lowercase_set candidate in
      match k.(c_allowlist_expansion_enabled) with
      | Some true =>
          let missing := filter (fun entry => (entry ∉ candidate_set) /\ (entry ∉ denied_domain_overrides)) (elements required_set) in
          refuse_if (negb (bool_decide (missing = []))) (lit "network.allowed_domains")
            (Text (lit "missing managed allowed_domains entries")) (Patterns missing)
      | Some false =>
          let expected_set := required_set ∖ denied_domain_overrides in
          refuse_if (negb (bool_decide (candidate_set = expected_set))) (lit "network.allowed_domains")
            (Patterns candidate) (Text (lit "must match managed allowed_domains"))
      | None =>
          let managed_patterns := map parse_for_constraints managed in
          let invalid :=
            filter (fun entry => existsb (fun managed => allows managed (parse_for_constraints entry)) managed_patterns = false) candidate in
          refuse_if (negb (bool_decide (invalid = []))) (lit "network.allowed_domains")
            (Patterns invalid) (Text (lit "subset of managed allowed_domains"))
      end
  end.

Definition validate_denied (c : NetworkProxyConfig) (k : NetworkProxyConstraints) : result unit NetworkProxyConstraintError :=
  let candidate := default [] (denied_domains c) in
  match k.(c_denied_domains) with
  | None => Ok tt
  | Some managed =>
      let? _ := validate_non_global_wildcard_domain_patterns (lit "network.denied_domains") managed in
      let required_set := lowercase_set managed in
      let candidate_set := lowercase_set candidate in
      match k.(c_denylist_expansion_enabled) with
      | Some false =>
          refuse_if (negb (bool_decide (candidate_set = required_set))) (lit "network.denied_domains")
            (Patterns candidate) (Text (lit "must match managed denied_domains"))
      | Some true | None =>
          let missing := filter (fun entry => entry ∉ candidate_set) (elements required_set) in
          refuse_if (negb (bool_decide (missing = []))) (lit "network.denied_domains")
            (Text (lit "missing managed denied_domains entries")) (Patterns missing)
      end
  end.

Definition validate_sockets_constraint (c : NetworkProxyConfig) (k : NetworkProxyConstraints) : result unit NetworkProxyConstraintError :=
  match k.(c_allow_unix_sockets) with
  | None => Ok tt
  | Some managed =>
      let invalid := filter (fun entry => to_ascii_lowercase entry ∉ lowercase_set managed) (allow_unix_sockets c) in
      refuse_if (negb (bool_decide (invalid = []))) (lit "network.allow_unix_sockets")
        (Patterns invalid) (Text (lit "subset of managed allow_unix_sockets"))
  end.

Definition is_some_false (b : option bool) : bool := bool_decide (b = Some false).

Definition validate_policy_against_constraints (c : NetworkProxyConfig) (k : NetworkProxyConstraints)
  : result unit NetworkProxyConstraintError :=
  let true_text := Text (lit "true") in
  let? _ := map_err (fun e => InvalidValue (lit "network.mitm_hooks") (HookErrorText e) (Text (lit "valid MITM hook configuration")))
                    (validate_mitm_hook_config c) in
  let? _ := validate_non_global_wildcard_domain_patterns (lit "network.denied_domains") (default [] (denied_domains c)) in
  let? _ := refuse_if (c.(enabled) && is_some_false k.(c_enabled)) (lit "network.enabled") true_text DISABLED in
  let? _ :=
    (match k.(c_mode) with
     | Some max_mode =>
         refuse_if (network_mode_rank max_mode <? network_mode_rank c.(mode))%nat (lit "network.mode") (ModeText c.(mode)) (ModeText max_mode)
     | None => Ok tt
     end) in
  let? _ := refuse_if (is_some_false k.(c_allow_upstream_proxy) && c.(allow_upstream_proxy))
                      (lit "network.allow_upstream_proxy") true_text DISABLED in
  let? _ := refuse_if (is_some_false k.(c_dangerously_allow_non_loopback_proxy) && c.(dangerously_allow_non_loopback_proxy))
                      (lit "network.dangerously_allow_non_loopback_proxy") true_text DISABLED in
  let allow_all_unix_sockets :=
    default (bool_decide (k.(c_allow_unix_sockets) = None)) k.(c_dangerously_allow_all_unix_sockets) in
  let? _ := refuse_if (c.(dangerously_allow_all_unix_sockets) && negb allow_all_unix_sockets)
                      (lit "network.dangerously_allow_all_unix_sockets") true_text DISABLED in
  let? _ := refuse_if (c.(allow_local_binding) && is_some_false k.(c_allow_local_binding))
                      (lit "network.allow_local_binding") true_text DISABLED in
  let? _ := validate_allowed c k in
  let? _ := validate_denied c k in
  validate_sockets_constraint c k.
End State.

(** ** What the constraints bound *)

Section Bounds.
Context `{GlobLaws, HttpLib, PathHost, SecretHost, MitmHost}.

Lemma refuse_if_Ok bad f a b : refuse_if bad f a b = Ok tt <-> bad = false.
Proof. unfold refuse_if. by destruct bad. Qed.

Lemma seq_Ok {E F A} (r : result unit E) (g : E -> F) (k : result A F) a :
  (match r with Ok _ => k | Err e => Err (g e) end) = Ok a <-> r = Ok tt /\ k = Ok a.
Proof. destruct r as [[]|]; naive_solver. Qed.

Lemma if_false_iff (b d : bool) : (b && d = false) <-> (b = true -> d = false).
Proof. destruct b, d; simpl; naive_solver. Qed.

Lemma filter_nil_iff {A} (P : A -> Prop) `{!forall x, Decision (P x)} l : filter P l = [] <-> forall x, x ∈ l -> ~ P x.
Proof.
  split.
  - intros E x Hx Hp. assert (x ∈ filter P l) as Hin by (by apply list_elem_of_filter). rewrite E in Hin. set_solver.
  - intros Hn. destruct (filter P l) as [|x l'] eqn:E; [done|]. exfalso.
    assert (x ∈ filter P l) as [Hp Hx]%list_elem_of_filter by (rewrite E; set_solver). by apply (Hn x).
Qed.

Lemma lowercase_set_elem l x : x ∈ lowercase_set l <-> exists p, p ∈ l /\ x = to_ascii_lowercase p.
Proof. unfold lowercase_set. rewrite elem_of_list_to_set, list_elem_of_fmap. naive_solver. Qed.

Lemma is_some_false_false b : is_some_false b = false <-> b <> Some false.
Proof. unfold is_some_false. apply bool_decide_eq_false. Qed.

(** The checks, one by one. *)
Lemma validate_policy_Ok c k :
  validate_policy_against_constraints c k = Ok tt <->
  validate_mitm_hook_config c = Ok tt
  /\ validate_non_global_wildcard_domain_patterns (lit "network.denied_domains") (default [] (denied_domains c)) = Ok tt
  /\ (k.(c_enabled) = Some false -> c.(enabled) = false)
  /\ (forall m, k.(c_mode) = Some m -> network_mode_rank c.(mode) <= network_mode_rank m)
  /\ (k.(c_allow_upstream_proxy) = Some false -> c.(allow_upstream_proxy) = false)
  /\ (k.(c_dangerously_allow_non_loopback_proxy) = Some false -> c.(dangerously_allow_non_loopback_proxy) = false)
  /\ (default (bool_decide (k.(c_allow_unix_sockets) = None)) k.(c_dangerously_allow_all_unix_sockets) = false ->
      c.(dangerously_allow_all_unix_sockets) = false)
  /\ (k.(c_allow_local_binding) = Some false -> c.(allow_local_binding) = false)
  /\ validate_allowed c k = Ok tt /\ validate_denied c k = Ok tt /\ validate_sockets_constraint c k = Ok tt.
Proof.
  unfold validate_policy_against_constraints. cbv zeta. rewrite !(seq_Ok _ id), !refuse_if_Ok, map_err_Ok.
  rewrite !if_false_iff, !negb_false_iff. unfold is_some_false.
  repeat (apply Morphisms_Prop.and_iff_morphism; [try done|]); try done.
  - rewrite bool_decide_eq_false. destruct (enabled c); naive_solver.
  - destruct (c_mode k) as [m|]; [rewrite refuse_if_Ok, Nat.ltb_ge; naive_solver | naive_solver].
  - by rewrite bool_decide_eq_true.
  - by rewrite bool_decide_eq_true.
  - destruct (dangerously_allow_all_unix_sockets c), (default _ _); naive_solver.
  - rewrite bool_decide_eq_false. destruct (allow_local_binding c); naive_solver.
Qed.

(** The compiled sets of a state that was built. *)
Lemma build_Ok c k st :
  build_config_state c k = Ok st ->
  st.(config) = c /\ st.(constraints) = k /\ st.(blocked) = [] /\ st.(blocked_total) = 0%Z
  /\ compile_denylist_globset (default [] (denied_domains c)) = Ok st.(deny_set)
  /\ compile_allowlist_globset (default [] (allowed_domains c)) = Ok st.(allow_set)
  /\ compile_mitm_hooks c = Ok st.(mitm_hooks_by_host).
Proof.
  unfold build_config_state. destruct (validate_unix_socket_allowlist_paths c); [simpl|done]. destruct (_ && _); [done|].
  destruct (validate_non_global_wildcard_domain_patterns _ _); [simpl|done].
  destruct (compile_denylist_globset _); [simpl|done]. destruct (compile_allowlist_globset _); [simpl|done].
  destruct (compile_mitm_hooks c); [simpl|done].
  destruct (mitm c); [destruct (mitm_state_new _); [simpl|done]|]; intros [= <-]; done.
Qed.

(** A pattern written with an ordinary domain name. *)
Definition ordinary (p : str) : Prop := exists pat, plain_pattern pat /\ p = written pat.

Lemma label_literal c : label_char c = true -> literal_char c = true.
Proof.
  unfold literal_char. intros Hc. apply andb_true_iff. split.
  - apply N.ltb_lt. unfold label_char, alphabetic, is_ascii_digit, MINUS in Hc.
    rewrite !orb_true_iff, !andb_true_iff, !N.leb_le, N.eqb_eq in Hc. lia.
  - apply negb_true_iff, not_true_iff_false. intros (x & Hx & ->%N.eqb_eq)%existsb_exists. revert Hc.
    apply list_elem_of_In in Hx. vm_compute in Hx.
    repeat (apply elem_of_cons in Hx as [-> | Hx]; [by vm_compute|]). by apply elem_of_nil in Hx.
Qed.

Lemma plain_literal d : plain_domain d = true -> forallb literal_char d = true.
Proof.
  intros Hd. apply forallb_forall. intros c Hc%list_elem_of_In.
  destruct (plain_chars d c Hd Hc) as [-> | Hl]; [done | by apply label_literal].
Qed.

Lemma ordinary_literal p : ordinary p -> literal_pattern (pattern_of p).
Proof.
  intros (pat & Hp & ->). rewrite pattern_of_plain by done. unfold plain_pattern in Hp. apply plain_lower, plain_literal in Hp.
  destruct pat; simpl in *; auto.
Qed.

(** Patterns that differ in case only are the same. *)
Lemma pattern_of_lower p q : ordinary p -> ordinary q -> to_ascii_lowercase p = to_ascii_lowercase q -> pattern_of p = pattern_of q.
Proof.
  assert (forall pat, plain_pattern pat -> pattern_of (written pat) = pattern_parse (to_ascii_lowercase (written pat))) as Hl.
  { intros pat Hp. unfold pattern_of. rewrite normalize_pattern_plain by done. f_equal. destruct pat; done. }
  intros (p' & Hp & ->) (q' & Hq & ->) E. by rewrite !Hl, E.
Qed.


(** An allowed pattern lies within the managed ones, unless they may be added to. *)
Lemma validate_allowed_bound c k managed p h :
  validate_allowed c k = Ok tt -> k.(c_allowed_domains) = Some managed -> k.(c_allowlist_expansion_enabled) <> Some true ->
  Forall ordinary managed -> ordinary p -> p ∈ default [] (allowed_domains c) -> covers (pattern_of p) h ->
  exists m, m ∈ managed /\ covers (pattern_of m) h.
Proof.
  intros Hv Hm He Ho Hop Hp Hc. unfold validate_allowed in Hv. rewrite Hm, (seq_Ok _ id) in Hv. destruct Hv as [_ Hv].
  destruct (c_allowlist_expansion_enabled k) as [[]|]; [done| |].
  - rewrite refuse_if_Ok, negb_false_iff, bool_decide_eq_true in Hv.
    assert (to_ascii_lowercase p ∈ lowercase_set (default [] (allowed_domains c))) as Hin by (apply lowercase_set_elem; eauto).
    rewrite Hv, elem_of_difference in Hin. destruct Hin as [(m & Hin & E)%lowercase_set_elem _]. exists m. split; [done|].
    rewrite <-(pattern_of_lower p m); [done..| |done]. by eapply Forall_forall in Ho.
  - rewrite refuse_if_Ok, negb_false_iff, bool_decide_eq_true in Hv.
    apply (proj1 (filter_nil_iff _ _)) with (x := p) in Hv; [|done].
    apply not_false_is_true, existsb_exists in Hv as (x & (m & <- & Hin)%in_map_iff & Ha). apply list_elem_of_In in Hin.
    exists m. split; [done|]. rewrite Forall_forall in Ho. destruct (Ho m Hin) as (pm & Hpm & ->). destruct Hop as (pp & Hpp & ->).
    by apply (proj1 (allows_exact _ _ Hpm Hpp) Ha).
Qed.

(** The managed denials are among the user's. *)
Lemma validate_denied_bound c k managed m :
  validate_denied c k = Ok tt -> k.(c_denied_domains) = Some managed -> m ∈ managed ->
  exists p, p ∈ default [] (denied_domains c) /\ to_ascii_lowercase p = to_ascii_lowercase m.
Proof.
  intros Hv Hk Hm. unfold validate_denied in Hv. rewrite Hk, (seq_Ok _ id) in Hv. destruct Hv as [_ Hv].
  assert (to_ascii_lowercase m ∈ lowercase_set managed) as Hin by (apply lowercase_set_elem; eauto).
  assert (to_ascii_lowercase m ∈ lowercase_set (default [] (denied_domains c))) as (p & Hp & E)%lowercase_set_elem; [|by exists p].
  destruct (c_denylist_expansion_enabled k) as [[]|]; rewrite refuse_if_Ok, negb_false_iff, bool_decide_eq_true in Hv.
  2: by rewrite Hv.
  all: apply (proj1 (filter_nil_iff _ _)) with (x := to_ascii_lowercase m) in Hv; [|by apply elem_of_elements].
  all: by apply dec_stable.
Qed.

(** C15.  Managed lists bind: with ordinary domain names, the hosts that the compiled
    allowlist of a configuration matches that passed the checks are hosts of the managed
    allowlist, unless it may be added to; and every host of the managed denylist is
    matched by the compiled denylist. *)
Theorem managed_lists_bind c k st h :
  validate_policy_against_constraints c k = Ok tt -> build_config_state c k = Ok st ->
  Forall ordinary (default [] (allowed_domains c)) -> Forall ordinary (default [] (denied_domains c)) -> is_ascii h = true ->
  (forall managed, k.(c_allowed_domains) = Some managed -> k.(c_allowlist_expansion_enabled) <> Some true -> Forall ordinary managed ->
     globset_is_match st.(allow_set) h = true -> exists m, m ∈ managed /\ covers (pattern_of m) h)
  /\ (forall managed m, k.(c_denied_domains) = Some managed -> Forall ordinary managed ->
     m ∈ managed -> covers (pattern_of m) h -> globset_is_match st.(deny_set) h = true).
Proof.
  intros Hv (_ & _ & _ & _ & Hd & Ha & _)%build_Ok Hoa Hod Hh.
  apply validate_policy_Ok in Hv as (_ & _ & _ & _ & _ & _ & _ & _ & Hva & Hvd & _).
  assert (forall l, Forall ordinary l -> Forall (fun p => literal_pattern (pattern_of p)) l) as Hl.
  { intros l Hf. eapply Forall_impl; [exact Hf|]. apply ordinary_literal. }
  split.
  - intros managed Hm He Ho Hmatch. apply (compiled_exact _ _ _ (Hl _ Hoa) Ha h Hh) in Hmatch as (p & Hp & Hc).
    eapply Forall_forall in Hoa; [|exact Hp]. by eapply validate_allowed_bound.
  - intros managed m Hm Ho Hin Hc. apply (compiled_exact _ _ _ (Hl _ Hod) Hd h Hh).
    destruct (validate_denied_bound c k managed m) as (p & Hp & E); [done..|]. exists p. split; [done|].
    rewrite Forall_forall in Hod, Ho. rewrite (pattern_of_lower p m); auto.
Qed.
End Bounds.

Module StateDemo.
Import MiniGlob ConfigDemo HookDemo.

#[export] Instance demo_mitm : MitmHost := {| MitmState := unit; mitm_state_new _ := Ok tt |}.

Definition managed : NetworkProxyConstraints :=
  mkConstraints None (Some Limited) None None None (Some [lit "*.example.com"]) None (Some [lit "bad.example.com"]) None None (Some false).

Definition user (allowed : list str) : NetworkProxyConfig :=
  with_mode (set_denied_domains (set_allowed_domains default_config allowed) [lit "Bad.example.com"]) Limited.

Definition built (allowed : list str) : option ConfigState := result_ok (build_config_state (user allowed) managed).

Lemma ordinary_of pat : plain_domain (pattern_domain pat) = true -> ordinary (written pat).
Proof. intros Hp. by exists pat. Qed.

Lemma managed_lists_bind_witness :
  exists st, built [lit "api.example.com"] = Some st
    /\ globset_is_match st.(allow_set) (lit "API.example.com") = true
    /\ globset_is_match st.(deny_set) (lit "bad.EXAMPLE.com") = true.
Proof.
  assert (exists st, build_config_state (user [lit "api.example.com"]) managed = Ok st) as [st Est]
    by (eexists; vm_compute; reflexivity).
  exists st. unfold built. rewrite Est. split; [reflexivity|].
  assert (globset_is_match st.(allow_set) (lit "API.example.com") = true) as Ha
    by (vm_compute in Est; injection Est as <-; vm_compute; reflexivity).
  split; [exact Ha|].
  assert (ordinary (lit "api.example.com")) as Oa by (apply (ordinary_of (Exact (lit "api.example.com"))); vm_compute; reflexivity).
  assert (ordinary (lit "Bad.example.com")) as Ob by (apply (ordinary_of (Exact (lit "Bad.example.com"))); vm_compute; reflexivity).
  assert (ordinary (lit "bad.example.com")) as Oc by (apply (ordinary_of (Exact (lit "bad.example.com"))); vm_compute; reflexivity).
  eapply (managed_lists_bind (user [lit "api.example.com"]) managed st (lit "bad.EXAMPLE.com")) with (m := lit "bad.example.com");
    [vm_compute; reflexivity | exact Est | .. | vm_compute; reflexivity | reflexivity | | constructor | right; vm_compute; reflexivity].
  - apply Forall_singleton. exact Oa.
  - apply Forall_singleton. exact Ob.
  - apply Forall_singleton. exact Oc.
Defined.

(** With other texts they do not: this passes the checks and lets [evil.com] through. *)
Example managed_allowlist_bypassed :
  validate_policy_against_constraints (user [lit "evil.com:*.example.com"]) managed = Ok tt
  /\ (fun st => globset_is_match st.(allow_set) (lit "evil.com")) <$> built [lit "evil.com:*.example.com"] = Some true.
Proof. split; vm_compute; reflexivity. Qed.
End StateDemo.
