(* ===== verification/NetworkProxy.v ===== *)
(** * Decisions of the network proxy

    [network-proxy/src/runtime.rs], [network_policy.rs] and [connect_policy.rs]: whether a
    host may be reached, who may override that, which addresses a connection may go to,
    and the state the proxy shares between its tasks.  What the reloader and the name
    service answer are arguments; an operation that awaits between reading and writing
    the state is split there, and the tasks interleave. *)

From Stdlib Require Import ZArith Lia.
From stdpp Require Import gmap.
From S2P Require Import Prelude RustStr PatchSyntax AbsPath IpAddr NetworkPolicy NetworkConfig MitmHook NetworkState.

(** ** Data *)

Inductive HostBlockReason : Type := Denied | NotAllowed | NotAllowedLocal.
Inductive HostBlockDecision : Type := HostAllowed | HostBlocked (reason : HostBlockReason).
#[export] Instance host_block_reason_eq_dec : EqDecision HostBlockReason.
Proof. solve_decision. Defined.
#[export] Instance host_block_decision_eq_dec : EqDecision HostBlockDecision.
Proof. solve_decision. Defined.

Definition REASON_POLICY_DENIED : str := lit "policy_denied".
Definition reason_as_str (r : HostBlockReason) : str :=
  match r with Denied => lit "denied" | NotAllowed => lit "not_allowed" | NotAllowedLocal => lit "not_allowed_local" end.

Definition MAX_BLOCKED_EVENTS : nat := 200.

Inductive DomainListKind : Type := ListAllow | ListDeny.

Definition list_name (k : DomainListKind) : str := match k with ListAllow => lit "allowlist" | ListDeny => lit "denylist" end.
Definition constraint_field (k : DomainListKind) : str :=
  match k with ListAllow => lit "network.allowed_domains" | ListDeny => lit "network.denied_domains" end.
Definition list_permission (k : DomainListKind) : NetworkDomainPermission :=
  match k with ListAllow => PermAllow | ListDeny => PermDeny end.
Definition list_entries (k : DomainListKind) (c : NetworkProxyConfig) : list str :=
  default [] (match k with ListAllow => allowed_domains c | ListDeny => denied_domains c end).
Definition opposite_entries (k : DomainListKind) (c : NetworkProxyConfig) : list str :=
  default [] (match k with ListAllow => denied_domains c | ListDeny => allowed_domains c end).

Inductive ProxyError : Type :=
  | ReloadFailed (e : str)
  | CredentialBrokerChanged
  | InvalidNetworkHost
  | ConstrainedByManaged (field : str) (e : NetworkProxyConstraintError)
  | CompileUpdatedFailed (list_name : str) (e : BuildError).

(** *** Requests and decisions ([network_policy.rs]) *)

Inductive NetworkProtocol : Type := Http | HttpsConnect | Socks5Tcp | Socks5Udp.
Inductive NetworkPolicyDecision : Type := DecisionDeny | DecisionAsk.
Inductive NetworkDecisionSource : Type := BaselinePolicy | ModeGuard | ProxyState | Decider.

Record NetworkPolicyRequest : Type := mkPolicyRequest {
  pr_protocol : NetworkProtocol;
  pr_host : str;
  pr_port : N;
  pr_environment_id : option str;
  pr_client_addr : option str;
  pr_method : option str;
  pr_command : option str;
  pr_exec_policy_hint : option str;
  pr_execution_id : option str;
}.

Inductive NetworkDecision : Type :=
  | DecideAllow
  | DecideDeny (reason : str) (source : NetworkDecisionSource) (decision : NetworkPolicyDecision).

Definition deny_with_source (reason : str) (source : NetworkDecisionSource) : NetworkDecision :=
  DecideDeny (if is_empty reason then REASON_POLICY_DENIED else reason) source DecisionDeny.
Definition ask_with_source (reason : str) (source : NetworkDecisionSource) : NetworkDecision :=
  DecideDeny (if is_empty reason then REASON_POLICY_DENIED else reason) source DecisionAsk.

Definition map_decider_decision (decision : NetworkDecision) : NetworkDecision :=
  match decision with
  | DecideAllow => DecideAllow
  | DecideDeny reason _ decision => DecideDeny reason Decider decision
  end.

(** What is written to the audit log. *)
Record PolicyAudit : Type := mkAudit {
  audit_decision : str;
  audit_source : NetworkDecisionSource;
  audit_reason : str;
  policy_override : bool;
}.

(** *** Targets of connections ([rama_net::address::Host]) *)

Inductive TargetHost : Type := HostAddress (ip : IpAddr) | HostName (name : str).

Definition is_localhost_name (name : str) : bool := eq_ignore_ascii_case (trim_end_matches PERIOD name) (lit "localhost").

Definition is_non_public_target (h : TargetHost) : bool :=
  match h with HostAddress ip => is_non_public_ip ip | HostName name => is_localhost_name name end.

Definition target_matches_non_public_addr (h : TargetHost) (addr : IpAddr) : bool :=
  match h with
  | HostAddress ip => bool_decide (ip = addr)
  | HostName name => is_localhost_name name && is_loopback addr
  end.

(** ** Local hosts *)

Definition is_explicit_local_allowlisted (allowed : list str) (host : str) : bool :=
  existsb (fun pattern =>
    let pattern := trim pattern in
    if bool_decide (pattern = lit "*") || starts_with (lit "*.") pattern || starts_with (lit "**.") pattern then false
    else if contains_char STAR pattern || contains_char QUESTION pattern then false
    else
      let normalized_pattern := normalize_host pattern in
      bool_decide (normalized_pattern = host)
      || match unscoped_ip_literal host with Some ip => bool_decide (normalized_pattern = ip) | None => false end) allowed.

(** The name service: [None] when it fails or takes too long. *)
Abbreviation Lookup := (str -> N -> option (list SocketAddr)).

Definition host_resolves_to_non_public_ip (host : str) (port : N) (lookup : Lookup) : bool :=
  match parse_ip host with
  | Some ip => is_non_public_ip ip
  | None =>
      match lookup host port with
      | None => true
      | Some addrs => existsb (fun addr => is_non_public_ip addr.(addr_ip)) addrs
      end
  end.

Definition local_literal (host : str) : bool :=
  let host_no_scope := default host (unscoped_ip_literal host) in
  if is_loopback_host host then true
  else match parse_ip host_no_scope with Some ip => is_non_public_ip ip | None => false end.

Section Proxy.
Context `{GlobLib, HttpLib, PathHost, SecretHost, MitmHost}.

Definition globset_matches_host_or_unscoped (set : GlobSet) (host : str) : bool :=
  globset_is_match set host || match unscoped_ip_literal host with Some ip => globset_is_match set ip | None => false end.

(** [host_blocked], once the state is current. *)
Definition host_decision (st : ConfigState) (lookup : Lookup) (input : str) (port : N) : HostBlockDecision :=
  match host_parse input with
  | None => HostBlocked NotAllowed
  | Some host =>
      let allowed := allowed_domains st.(config) in
      let allowed_domains_empty := bool_decide (allowed = None) in
      let allowed := default [] allowed in
      if globset_matches_host_or_unscoped st.(deny_set) host then HostBlocked Denied
      else
        let is_allowlisted := globset_matches_host_or_unscoped st.(allow_set) host in
        let last := if allowed_domains_empty || negb is_allowlisted then HostBlocked NotAllowed else HostAllowed in
        if negb st.(config).(allow_local_binding) then
          if local_literal host then
            if negb (is_explicit_local_allowlisted allowed host) then HostBlocked NotAllowedLocal else last
          else if host_resolves_to_non_public_ip host port lookup then HostBlocked NotAllowedLocal
          else last
        else last
  end.

(** ** The shared state *)

Definition with_blocked (st : ConfigState) (b : list BlockedRequest) (total : Z) : ConfigState :=
  mkConfigState st.(config) st.(allow_set) st.(deny_set) st.(mitm_state) st.(mitm_hooks_by_host) st.(constraints) b total.
Definition with_config (st : ConfigState) (c : NetworkProxyConfig) : ConfigState :=
  mkConfigState c st.(allow_set) st.(deny_set) st.(mitm_state) st.(mitm_hooks_by_host) st.(constraints) st.(blocked) st.(blocked_total).

(** [credential_broker] is what the proxy was started with. *)
Definition ensure_credential_broker_enablement_unchanged (broker : bool) (new_state : ConfigState) : result unit ProxyError :=
  if Bool.eqb broker new_state.(config).(credential_broker) then Ok tt else Err CredentialBrokerChanged.

(** [reload_if_needed]: the snapshot of the blocked requests is taken in one step and
    the state is replaced in another. *)
Definition reload_read (broker : bool) (maybe_reload : result (option ConfigState) str) (st : ConfigState)
  : result (option ConfigState) ProxyError :=
  let? reloaded := map_err ReloadFailed maybe_reload in
  match reloaded with
  | None => Ok None
  | Some new_state =>
      let? _ := ensure_credential_broker_enablement_unchanged broker new_state in
      Ok (Some (with_blocked new_state st.(blocked) st.(blocked_total)))
  end.

Definition reload_if_needed (broker : bool) (maybe_reload : result (option ConfigState) str) (st : ConfigState)
  : ConfigState * result unit ProxyError :=
  match reload_read broker maybe_reload st with
  | Ok None => (st, Ok tt)
  | Ok (Some new_state) => (new_state, Ok tt)
  | Err e => (st, Err e)
  end.

(** An operation that brings the state up to date first. *)
Definition reloading {A} (broker : bool) (maybe_reload : result (option ConfigState) str) (op : ConfigState -> ConfigState * A) (st : ConfigState)
  : ConfigState * result A ProxyError :=
  match reload_if_needed broker maybe_reload st with
  | (st, Ok _) => let '(st, a) := op st in (st, Ok a)
  | (st, Err e) => (st, Err e)
  end.

Definition host_blocked (broker : bool) (maybe_reload : result (option ConfigState) str) (lookup : Lookup) (host : str) (port : N)
  : ConfigState -> ConfigState * result HostBlockDecision ProxyError :=
  reloading broker maybe_reload (fun st => (st, host_decision st lookup host port)).

(** [force_reload] reads only the configuration before, for the log. *)
Definition force_reload (broker : bool) (reload_now : result ConfigState str) (st : ConfigState) : ConfigState * result unit ProxyError :=
  match reload_now with
  | Ok new_state =>
      match ensure_credential_broker_enablement_unchanged broker new_state with
      | Ok _ => (with_blocked new_state st.(blocked) new_state.(blocked_total), Ok tt)
      | Err e => (st, Err e)
      end
  | Err e => (st, Err (ReloadFailed e))
  end.

(** [replace_config_state], once the state is current. *)
Definition replace_state (broker : bool) (new_state st : ConfigState) : ConfigState * result unit ProxyError :=
  match ensure_credential_broker_enablement_unchanged broker new_state with
  | Ok _ => (with_blocked new_state st.(blocked) st.(blocked_total), Ok tt)
  | Err e => (st, Err e)
  end.

Definition replace_config_state (broker : bool) (maybe_reload : result (option ConfigState) str) (new_state st : ConfigState)
  : ConfigState * result unit ProxyError :=
  match reload_if_needed broker maybe_reload st with
  | (st, Ok _) => replace_state broker new_state st
  | (st, Err e) => (st, Err e)
  end.

Definition u64_saturating_succ (n : Z) : Z := Z.min (n + 1) (u64_modulus - 1).

(** [pop_front] while there are too many. *)
Definition keep_last (n : nat) {A} (l : list A) : list A := drop (length l - n) l.

(** The locked part of [record_blocked]; the entry also goes to the observer. *)
Definition push_blocked (entry : BlockedRequest) (st : ConfigState) : ConfigState :=
  with_blocked st (keep_last MAX_BLOCKED_EVENTS (st.(blocked) ++ [entry])) (u64_saturating_succ st.(blocked_total)).

Definition attributed (execution_id : option str) (e : BlockedRequest) : BlockedRequest :=
  mkBlockedRequest e.(br_host) e.(br_reason) e.(br_client) e.(br_method) e.(br_mode) e.(br_protocol) execution_id e.(br_decision)
    e.(br_source) e.(br_port) e.(br_timestamp).

Definition record_blocked (broker : bool) (maybe_reload : result (option ConfigState) str) (execution_id : option str) (e : BlockedRequest)
  : ConfigState -> ConfigState * result BlockedRequest ProxyError :=
  reloading broker maybe_reload (fun st => (push_blocked (attributed execution_id e) st, attributed execution_id e)).

Definition drain_blocked (broker : bool) (maybe_reload : result (option ConfigState) str)
  : ConfigState -> ConfigState * result (list BlockedRequest) ProxyError :=
  reloading broker maybe_reload (fun st => (with_blocked st [] st.(blocked_total), st.(blocked))).

Definition blocked_snapshot (broker : bool) (maybe_reload : result (option ConfigState) str)
  : ConfigState -> ConfigState * result (list BlockedRequest) ProxyError :=
  reloading broker maybe_reload (fun st => (st, st.(blocked))).

Definition method_allowed (broker : bool) (maybe_reload : result (option ConfigState) str) (method : str)
  : ConfigState -> ConfigState * result bool ProxyError :=
  reloading broker maybe_reload (fun st => (st, allows_method st.(config).(mode) method)).

(** *** Changing the mode *)

(** The part before the lock for writing: the constraints it was checked against. *)
Definition set_mode_read (m : NetworkMode) (st : ConfigState) : result NetworkProxyConstraints ProxyError :=
  let? _ := map_err (ConstrainedByManaged (lit "network.mode"))
                    (validate_policy_against_constraints (with_mode st.(config) m) st.(constraints)) in
  Ok st.(constraints).

(** The part under the lock; [None] to start over. *)
Definition set_mode_write (m : NetworkMode) (checked : NetworkProxyConstraints) (st : ConfigState) : option ConfigState :=
  if bool_decide (st.(constraints) = checked) then Some (with_config st (with_mode st.(config) m)) else None.

(** *** Changing a domain list *)

Record PendingUpdate : Type := mkPending {
  previous_cfg : NetworkProxyConfig;
  seen_constraints : NetworkProxyConstraints;
  new_state : ConfigState;
}.

(** [Ok None]: there is nothing to change. *)
Definition update_read (normalized_host : str) (target : DomainListKind) (st : ConfigState) : result (option PendingUpdate) ProxyError :=
  let named entry := bool_decide (normalize_host entry = normalized_host) in
  let target_contains := existsb named (list_entries target st.(config)) in
  let opposite_contains := existsb named (opposite_entries target st.(config)) in
  if target_contains && negb opposite_contains then Ok None
  else
    let candidate := upsert_domain_permission st.(config) normalized_host (list_permission target) normalize_host in
    let? _ := map_err (ConstrainedByManaged (constraint_field target)) (validate_policy_against_constraints candidate st.(constraints)) in
    let? built := map_err (CompileUpdatedFailed (list_name target)) (build_config_state candidate st.(constraints)) in
    Ok (Some (mkPending st.(config) st.(constraints) (with_blocked built st.(blocked) st.(blocked_total)))).

Definition update_write (p : PendingUpdate) (st : ConfigState) : option ConfigState :=
  if bool_decide (st.(constraints) = p.(seen_constraints)) && bool_decide (st.(config) = p.(previous_cfg))
  then Some p.(new_state) else None.

(** One round of a retry loop: what the reloader says and what other tasks do to the
    state between the two parts. *)
Record Round : Type := mkRound {
  round_reload : result (option ConfigState) str;
  meanwhile : ConfigState -> ConfigState;
}.

(** [update_domain_list]; [None] when the rounds given are not enough. *)
Fixpoint update_domain_list_loop (broker : bool) (rounds : list Round) (normalized_host : str) (target : DomainListKind) (st : ConfigState)
  : ConfigState * option (result unit ProxyError) :=
  match rounds with
  | [] => (st, None)
  | r :: rounds' =>
      match reload_if_needed broker r.(round_reload) st with
      | (st, Err e) => (st, Some (Err e))
      | (st, Ok _) =>
          match update_read normalized_host target st with
          | Err e => (st, Some (Err e))
          | Ok None => (st, Some (Ok tt))
          | Ok (Some p) =>
              let st := r.(meanwhile) st in
              match update_write p st with
              | Some st => (st, Some (Ok tt))
              | None => update_domain_list_loop broker rounds' normalized_host target st
              end
          end
      end
  end.

Definition update_domain_list (broker : bool) (rounds : list Round) (host : str) (target : DomainListKind) (st : ConfigState)
  : ConfigState * option (result unit ProxyError) :=
  match host_parse host with
  | None => (st, Some (Err InvalidNetworkHost))
  | Some normalized_host => update_domain_list_loop broker rounds normalized_host target st
  end.

Definition add_allowed_domain (broker : bool) (rounds : list Round) (host : str) := update_domain_list broker rounds host ListAllow.
Definition add_denied_domain (broker : bool) (rounds : list Round) (host : str) := update_domain_list broker rounds host ListDeny.

Fixpoint set_network_mode (broker : bool) (rounds : list Round) (m : NetworkMode) (st : ConfigState)
  : ConfigState * option (result unit ProxyError) :=
  match rounds with
  | [] => (st, None)
  | r :: rounds' =>
      match reload_if_needed broker r.(round_reload) st with
      | (st, Err e) => (st, Some (Err e))
      | (st, Ok _) =>
          match set_mode_read m st with
          | Err e => (st, Some (Err e))
          | Ok checked =>
              let st := r.(meanwhile) st in
              match set_mode_write m checked st with
              | Some st => (st, Some (Ok tt))
              | None => set_network_mode broker rounds' m st
              end
          end
      end
  end.

(** ** Unix sockets *)

(** [canonicalize] is the file system's; [supported] holds on macOS. *)
Definition is_unix_socket_allowed_in (supported : bool) (canonicalize : path -> option path) (p : str) (c : NetworkProxyConfig) : bool :=
  if negb supported then false
  else
    let requested_path := path_new p in
    if negb (is_absolute requested_path) then false
    else if c.(dangerously_allow_all_unix_sockets) then true
    else
      match from_absolute_path requested_path with
      | Err _ => false
      | Ok requested_abs =>
          let requested_canonical := canonicalize requested_abs.(as_path) in
          existsb (fun allowed =>
            match validated_socket_parse allowed with
            | Ok (Native allowed_path) =>
                if bool_decide (allowed_path.(as_path) = requested_abs.(as_path)) then true
                else
                  match requested_canonical, canonicalize allowed_path.(as_path) with
                  | Some requested_canonical, Some allowed_canonical => bool_decide (allowed_canonical = requested_canonical)
                  | _, _ => false
                  end
            | _ => false
            end) (allow_unix_sockets c)
      end.

Definition is_unix_socket_allowed (broker : bool) (maybe_reload : result (option ConfigState) str) (supported : bool)
    (canonicalize : path -> option path) (p : str) : ConfigState -> ConfigState * result bool ProxyError :=
  reloading broker maybe_reload (fun st => (st, is_unix_socket_allowed_in supported canonicalize p st.(config))).

(** ** Policy decisions ([evaluate_host_policy]) *)

Record ProxyIdentity : Type := mkIdentity { environment_id : option str; execution_id : option str }.

(** Executions by the token their requests carry. *)
Definition register_execution (token environment_id execution_id : str) (m : gmap str ProxyIdentity) : gmap str ProxyIdentity :=
  <[token := mkIdentity (Some environment_id) (Some execution_id)]> m.
Definition unregister_execution (token : str) (m : gmap str ProxyIdentity) : gmap str ProxyIdentity := delete token m.
Definition for_execution_token (token : str) (m : gmap str ProxyIdentity) : option ProxyIdentity := m !! token.

Definition for_decider (id : ProxyIdentity) (r : NetworkPolicyRequest) : NetworkPolicyRequest :=
  mkPolicyRequest r.(pr_protocol) r.(pr_host) r.(pr_port)
    (match r.(pr_environment_id) with None => id.(environment_id) | Some e => Some e end)
    r.(pr_client_addr) r.(pr_method) r.(pr_command) r.(pr_exec_policy_hint) id.(execution_id).

Definition decide_host_policy (id : ProxyIdentity) (decider : option (NetworkPolicyRequest -> NetworkDecision)) (request : NetworkPolicyRequest)
    (host : HostBlockDecision) : NetworkDecision * bool :=
  match host with
  | HostAllowed => (DecideAllow, false)
  | HostBlocked NotAllowed =>
      match decider with
      | Some decide =>
          let decision := map_decider_decision (decide (for_decider id request)) in
          (decision, match decision with DecideAllow => true | _ => false end)
      | None => (deny_with_source (reason_as_str NotAllowed) BaselinePolicy, false)
      end
  | HostBlocked reason => (deny_with_source (reason_as_str reason) BaselinePolicy, false)
  end.

Definition audit_of (decision : NetworkDecision) (override : bool) : PolicyAudit :=
  match decision with
  | DecideAllow =>
      mkAudit (lit "allow") (if override then Decider else BaselinePolicy)
              (if override then reason_as_str NotAllowed else lit "allow") override
  | DecideDeny reason source d =>
      mkAudit (match d with DecisionDeny => lit "deny" | DecisionAsk => lit "ask" end) source reason override
  end.

Definition evaluate_host_policy (broker : bool) (maybe_reload : result (option ConfigState) str) (lookup : Lookup) (id : ProxyIdentity)
    (decider : option (NetworkPolicyRequest -> NetworkDecision)) (request : NetworkPolicyRequest) (st : ConfigState)
  : ConfigState * result (NetworkDecision * PolicyAudit) ProxyError :=
  match host_blocked broker maybe_reload lookup request.(pr_host) request.(pr_port) st with
  | (st, Err e) => (st, Err e)
  | (st, Ok host) =>
      let '(decision, override) := decide_host_policy id decider request host in
      (st, Ok (decision, audit_of decision override))
  end.

(** ** Connections ([connect_policy.rs]) *)

(** The text of a target, of [rama_net]. *)
Class TargetText : Type := { target_text : TargetHost -> str }.

Inductive ConnectResult : Type :=
  | Connected
  | TargetRejected
  | ReadConfigFailed (e : ProxyError)
  | EvaluateTargetFailed (e : ProxyError).

(** [TargetCheckedStreamConnector::connect] up to the connection itself: [reload1] is for
    the setting, [reload2] for the evaluation of the target. *)
Definition connect_check `{TargetText} (broker : bool) (reload1 reload2 : result (option ConfigState) str) (lookup : Lookup)
    (target : TargetHost) (target_port : N) (addr : SocketAddr) (st : ConfigState) : ConfigState * ConnectResult :=
  if negb (is_non_public_ip addr.(addr_ip)) then (st, Connected)
  else
    match reloading broker reload1 (fun st => (st, st.(config).(allow_local_binding))) st with
    | (st, Err e) => (st, ReadConfigFailed e)
    | (st, Ok true) => (st, Connected)
    | (st, Ok false) =>
        if negb (target_matches_non_public_addr target addr.(addr_ip)) then (st, TargetRejected)
        else
          match host_blocked broker reload2 lookup (target_text target) target_port st with
          | (st, Err e) => (st, EvaluateTargetFailed e)
          | (st, Ok decision) => if bool_decide (decision = HostAllowed) then (st, Connected) else (st, TargetRejected)
          end
    end.

(** What [TargetCheckedTcpConnector::serve] comes to. *)
Inductive ServeResult : Type :=
  | ViaUpstreamProxy
  | TargetUnreadable (e : str)
  | TargetWithoutPort
  | Direct (r : ConnectResult).

(** [upstream]: the request carries the address of an upstream proxy, which it is then
    sent to as it is.  [target] is what the request says of its host and port; the
    connector of [rama] picks [addr] among the addresses of the target and connects
    through the check. *)
Definition serve `{TargetText} (broker : bool) (reload1 reload2 : result (option ConfigState) str) (lookup : Lookup)
    (upstream : bool) (target : result (option (TargetHost * N)) str) (addr : SocketAddr) (st : ConfigState) : ConfigState * ServeResult :=
  if upstream then (st, ViaUpstreamProxy)
  else
    match target with
    | Err e => (st, TargetUnreadable e)
    | Ok None => (st, TargetWithoutPort)
    | Ok (Some (host, port)) =>
        let '(st, r) := connect_check broker reload1 reload2 lookup host port addr st in (st, Direct r)
    end.
End Proxy.

(** ** A consistent state *)

Section Consistent.
Context `{GlobLib, HttpLib, PathHost, SecretHost, MitmHost}.

Record consistent (st : ConfigState) : Prop := mkConsistent {
  deny_compiled : compile_denylist_globset (default [] (denied_domains st.(config))) = Ok st.(deny_set);
  allow_compiled : compile_allowlist_globset (default [] (allowed_domains st.(config))) = Ok st.(allow_set);
  hooks_compiled : compile_mitm_hooks st.(config) = Ok st.(mitm_hooks_by_host);
  within_constraints : validate_policy_against_constraints st.(config) st.(constraints) = Ok tt;
  blocked_bounded : length st.(blocked) <= MAX_BLOCKED_EVENTS;
}.

Lemma consistent_blocked st b total : consistent st -> length b <= MAX_BLOCKED_EVENTS -> consistent (with_blocked st b total).
Proof. intros [] Hb. by split. Qed.

Lemma keep_last_length {A} n (l : list A) : length (keep_last n l) <= n.
Proof. unfold keep_last. rewrite length_drop. lia. Qed.

(** The newest entries are kept. *)
Lemma push_blocked_consistent e st : consistent st -> consistent (push_blocked e st).
Proof. intros Hc. apply consistent_blocked; [done|]. apply keep_last_length. Qed.

Lemma update_read_spec host target st p :
  consistent st -> update_read host target st = Ok (Some p) ->
  consistent p.(new_state) /\ p.(previous_cfg) = st.(config) /\ p.(seen_constraints) = st.(constraints)
  /\ p.(new_state).(config) = upsert_domain_permission st.(config) host (list_permission target) normalize_host
  /\ p.(new_state).(constraints) = st.(constraints).
Proof.
  intros Hc. unfold update_read. destruct (_ && _); [done|].
  destruct (validate_policy_against_constraints _ _) as [[]|] eqn:Ev; [simpl|done].
  destruct (build_config_state _ _) as [built|] eqn:Eb; [simpl|done]. intros [= <-]. cbn [new_state previous_cfg seen_constraints].
  apply build_Ok in Eb as (Ec & Ek & Eb & _ & Ed & Ea & Eh). split_and!; try done.
  split; cbn [with_blocked config deny_set allow_set mitm_hooks_by_host constraints blocked]; rewrite ?Ec, ?Ek; try done.
  by destruct Hc.
Qed.

(** What a checked mode means for any state under the same constraints. *)
Definition mode_checked (m : NetworkMode) (k : NetworkProxyConstraints) : Prop :=
  forall max, k.(c_mode) = Some max -> network_mode_rank m <= network_mode_rank max.

Lemma set_mode_read_spec m st k : set_mode_read m st = Ok k -> k = st.(constraints) /\ mode_checked m k.
Proof.
  unfold set_mode_read. destruct (validate_policy_against_constraints _ _) as [[]|] eqn:E; [|done]. intros [= <-].
  split; [done|]. apply validate_policy_Ok in E as (_ & _ & _ & Hm & _). exact Hm.
Qed.

Lemma set_mode_consistent m st : consistent st -> mode_checked m st.(constraints) -> consistent (with_config st (with_mode st.(config) m)).
Proof.
  intros [Hd Ha Hh Hv Hb] Hm. split; try done.
  apply validate_policy_Ok in Hv as (? & ? & ? & _ & ? & ? & ? & ? & ? & ? & ?). apply validate_policy_Ok. split_and!; done.
Qed.

Lemma ensure_broker_Ok broker st : ensure_credential_broker_enablement_unchanged broker st = Ok tt -> st.(config).(credential_broker) = broker.
Proof. unfold ensure_credential_broker_enablement_unchanged. destruct (Bool.eqb _ _) eqn:E; [|done]. by apply Bool.eqb_prop in E. Qed.

Lemma reload_read_spec broker new st new' :
  consistent new -> consistent st -> reload_read broker (Ok (Some new)) st = Ok (Some new') -> consistent new'.
Proof.
  unfold reload_read. simpl. destruct (ensure_credential_broker_enablement_unchanged _ _); [|done].
  intros Hn Hs [= <-]. apply consistent_blocked; [done|]. by destruct Hs.
Qed.

(** ** Tasks that interleave *)

Inductive task : Type :=
  | TReload (new : ConfigState)
  | TUpdate (p : PendingUpdate)
  | TMode (m : NetworkMode) (checked : NetworkProxyConstraints).

Record world : Type := mkWorld { shared : ConfigState; pending : list task }.

(** The steps of the operations; [Loaded] are the states the reloader and callers make. *)
Inductive proxy_step (broker : bool) (Loaded : ConfigState -> Prop) : world -> world -> Prop :=
  | step_reload_read st ts new new' :
      Loaded new -> reload_read broker (Ok (Some new)) st = Ok (Some new') ->
      proxy_step broker Loaded (mkWorld st ts) (mkWorld st (ts ++ [TReload new']))
  | step_reload_write st ts1 ts2 new :
      proxy_step broker Loaded (mkWorld st (ts1 ++ TReload new :: ts2)) (mkWorld new (ts1 ++ ts2))
  | step_update_read st ts host target p :
      update_read host target st = Ok (Some p) ->
      proxy_step broker Loaded (mkWorld st ts) (mkWorld st (ts ++ [TUpdate p]))
  | step_update_write st ts1 ts2 p st' :
      update_write p st = Some st' -> proxy_step broker Loaded (mkWorld st (ts1 ++ TUpdate p :: ts2)) (mkWorld st' (ts1 ++ ts2))
  | step_update_retry st ts1 ts2 p :
      update_write p st = None -> proxy_step broker Loaded (mkWorld st (ts1 ++ TUpdate p :: ts2)) (mkWorld st (ts1 ++ ts2))
  | step_mode_read st ts m k :
      set_mode_read m st = Ok k -> proxy_step broker Loaded (mkWorld st ts) (mkWorld st (ts ++ [TMode m k]))
  | step_mode_write st ts1 ts2 m k st' :
      set_mode_write m k st = Some st' -> proxy_step broker Loaded (mkWorld st (ts1 ++ TMode m k :: ts2)) (mkWorld st' (ts1 ++ ts2))
  | step_mode_retry st ts1 ts2 m k :
      set_mode_write m k st = None -> proxy_step broker Loaded (mkWorld st (ts1 ++ TMode m k :: ts2)) (mkWorld st (ts1 ++ ts2))
  | step_force st ts new :
      Loaded new -> proxy_step broker Loaded (mkWorld st ts) (mkWorld (force_reload broker (Ok new) st).1 ts)
  | step_replace st ts new :
      Loaded new -> proxy_step broker Loaded (mkWorld st ts) (mkWorld (replace_state broker new st).1 ts)
  | step_record st ts e : proxy_step broker Loaded (mkWorld st ts) (mkWorld (push_blocked e st) ts)
  | step_drain st ts : proxy_step broker Loaded (mkWorld st ts) (mkWorld (with_blocked st [] st.(blocked_total)) ts).

Definition task_ok (t : task) : Prop :=
  match t with
  | TReload new => consistent new
  | TUpdate p => consistent p.(new_state)
  | TMode m k => mode_checked m k
  end.

Definition world_ok (w : world) : Prop := consistent w.(shared) /\ Forall task_ok w.(pending).

Lemma Forall_take_out {A} (P : A -> Prop) l1 x l2 : Forall P (l1 ++ x :: l2) -> P x /\ Forall P (l1 ++ l2).
Proof. rewrite !Forall_app, Forall_cons. tauto. Qed.

Lemma world_step_ok broker (Loaded : ConfigState -> Prop) w w' :
  (forall st, Loaded st -> consistent st) -> proxy_step broker Loaded w w' -> world_ok w -> world_ok w'.
Proof.
  intros HL Hs [Hc Ht]. unfold world_ok. destruct Hs; cbn [shared pending] in *;
    try (apply Forall_take_out in Ht as [Hx Ht]; cbn [task_ok] in Hx).
  - split; [done|]. apply Forall_app. split; [done|]. apply Forall_singleton. eapply reload_read_spec; [apply HL; eassumption | exact Hc | eassumption].
  - done.
  - split; [done|]. apply Forall_app. split; [done|]. apply Forall_singleton. by eapply update_read_spec.
  - split; [|done]. unfold update_write in *. destruct (_ && _); by simplify_eq.
  - done.
  - split; [done|]. apply Forall_app. split; [done|]. apply Forall_singleton. by eapply set_mode_read_spec.
  - split; [|done]. unfold set_mode_write in *. case_bool_decide; simplify_eq. by apply set_mode_consistent.
  - done.
  - split; [|done]. unfold force_reload. destruct (ensure_credential_broker_enablement_unchanged _ _); [|done].
    apply consistent_blocked; [auto|]. by destruct Hc.
  - split; [|done]. unfold replace_state. destruct (ensure_credential_broker_enablement_unchanged _ _); [|done].
    apply consistent_blocked; [auto|]. by destruct Hc.
  - split; [|done]. by apply push_blocked_consistent.
  - split; [|done]. apply consistent_blocked; [done|]. simpl. lia.
Qed.

(** C11.  However reloads, changes of the domain lists and of the mode, recorded requests
    and drains interleave, the shared state stays consistent: the sets it decides with
    are compiled from its configuration, the configuration is within its constraints,
    and at most 200 blocked requests are kept. *)
Theorem shared_state_consistent broker (Loaded : ConfigState -> Prop) st w :
  (forall st, Loaded st -> consistent st) -> consistent st ->
  rtc (proxy_step broker Loaded) (mkWorld st []) w -> consistent w.(shared).
Proof.
  intros HL Hst Hr. enough (world_ok w) as Hw; [by destruct Hw|].
  assert (world_ok (mkWorld st [])) as Hok by (split; [done | constructor]). revert Hok.
  induction Hr as [|x y z Hs _ IH]; [done|]. intros Hx. apply IH. by eapply world_step_ok.
Qed.
End Consistent.

(** ** Which hosts are reached *)

Section Decisions.
Context `{GlobLaws, HttpLib, PathHost, SecretHost, MitmHost}.

(** A pattern of a list matches the host, or its address without the scope. *)
Definition reaches (h p : str) : Prop :=
  matched_by p h \/ exists ip, unscoped_ip_literal h = Some ip /\ matched_by p ip.

Definition listed (patterns : option (list str)) (h : str) : Prop := Exists (reaches h) (default [] patterns).

Lemma split_once_app c s a b : split_once c s = Some (a, b) -> s = a ++ c :: b.
Proof.
  revert a b. induction s as [|x s IH]; intros a b Hs; simpl in Hs; [done|]. destruct (N.eqb_spec x c) as [-> | Hn].
  - by injection Hs as <- <-.
  - destruct (split_once c s) as [[a' b']|]; [|done]. injection Hs as <- <-. by rewrite (IH a' b').
Qed.

Lemma set_reaches w patterns set h :
  compile_globset_with_policy patterns w = Ok set ->
  globset_matches_host_or_unscoped set h = true <-> Exists (reaches h) patterns.
Proof.
  intros Hc. unfold globset_matches_host_or_unscoped, reaches.
  rewrite orb_true_iff, (compiled_matches _ _ _ h Hc), Exists_exists.
  destruct (unscoped_ip_literal h) as [ip|]; [rewrite (compiled_matches _ _ _ ip Hc)|]; naive_solver.
Qed.

(** An entry without wildcards that names the host, or its address without the scope. *)
Definition names (h p : str) : Prop :=
  (STAR ∉ trim p) /\ (QUESTION ∉ trim p) /\ (normalize_host p = h \/ unscoped_ip_literal h = Some (normalize_host p)).

Lemma not_contains_char c s : contains_char c s = false <-> c ∉ s.
Proof.
  unfold contains_char. rewrite <-not_true_iff_false, existsb_exists. split.
  - intros Hc Hin. apply Hc. exists c. split; [by apply list_elem_of_In | apply N.eqb_refl].
  - intros Hc (x & Hin%list_elem_of_In & ->%N.eqb_eq). done.
Qed.

Lemma explicit_named allowed h : is_explicit_local_allowlisted allowed h = true <-> Exists (names h) allowed.
Proof.
  unfold is_explicit_local_allowlisted. rewrite existsb_exists, Exists_exists. setoid_rewrite <-list_elem_of_In.
  assert (forall p, normalize_host (trim p) = normalize_host p) as Hn by (intros p; unfold normalize_host; by rewrite trim_idemp).
  assert (forall q (p : str), STAR ∉ p -> STAR ∈ q -> starts_with q p = false) as Hst.
  { intros q p Hp Hq. apply not_true_iff_false. intros [r ->]%starts_with_true. apply Hp, elem_of_app. by left. }
  apply exist_proper. intros p. apply and_iff_compat_l. unfold names. rewrite Hn, <-!not_contains_char.
  destruct (contains_char STAR (trim p)) eqn:Es.
  { split; [|by intros [? _]]. by destruct (_ || _ || _). }
  apply not_contains_char in Es.
  rewrite (bool_decide_eq_false_2 (trim p = lit "*")) by (intros E; rewrite E in Es; apply Es, elem_of_cons; by left).
  rewrite !(Hst _ _ Es) by (apply elem_of_cons; by left). cbn [orb].
  destruct (contains_char QUESTION (trim p)); [naive_solver|].
  rewrite orb_true_iff, bool_decide_eq_true. destruct (unscoped_ip_literal h) as [ip|]; [rewrite bool_decide_eq_true|]; naive_solver.
Qed.

(** Localhost, or the literal of an address that is not public, with a scope or without. *)
Definition is_local_literal (h : str) : Prop :=
  let bare := default h (unscoped_ip_literal h) in
  bare = lit "localhost" \/ exists ip, parse_ip bare = Some ip /\ (is_loopback ip = true \/ is_non_public_ip ip = true).

Lemma local_literal_true h : local_literal h = true <-> is_local_literal h.
Proof.
  unfold local_literal, is_local_literal, is_loopback_host. cbv zeta. set (bare := default h (unscoped_ip_literal h)).
  case_bool_decide as E; [split; [by left | done]|]. cbn [orb].
  destruct (parse_ip bare) as [ip|]; [|split; [done | by intros [?|(? & ? & _)]]].
  split.
  - intros Hl. right. exists ip. split; [done|]. destruct (is_loopback ip); [by left | by right].
  - intros [?|(ip' & [= <-] & [-> | ->])]; [done..|]. by destruct (is_loopback ip).
Qed.

Lemma local_literal_false h : local_literal h = false <-> ~ is_local_literal h.
Proof. by rewrite <-local_literal_true, not_true_iff_false. Qed.

(** Everything local is allowed; or the host is a local literal that the allowlist
    names; or it is none, and it is a public address or resolves, and to public addresses only. *)
Definition local_permitted (st : ConfigState) (lookup : Lookup) (h : str) (port : N) : Prop :=
  st.(config).(allow_local_binding) = true
  \/ (is_local_literal h /\ Exists (names h) (default [] (allowed_domains st.(config))))
  \/ (~ is_local_literal h
      /\ ((exists ip, parse_ip h = Some ip /\ is_non_public_ip ip = false)
          \/ (parse_ip h = None /\ exists addrs, lookup h port = Some addrs /\ Forall (fun a => is_non_public_ip a.(addr_ip) = false) addrs))).

Lemma resolves_public h port lookup :
  host_resolves_to_non_public_ip h port lookup = false <->
  (exists ip, parse_ip h = Some ip /\ is_non_public_ip ip = false)
  \/ (parse_ip h = None /\ exists addrs, lookup h port = Some addrs /\ Forall (fun a => is_non_public_ip a.(addr_ip) = false) addrs).
Proof.
  unfold host_resolves_to_non_public_ip. destruct (parse_ip h) as [ip|]; [naive_solver|].
  destruct (lookup h port) as [addrs|]; [|naive_solver].
  rewrite <-not_true_iff_false, existsb_exists. setoid_rewrite Forall_forall. split.
  - intros Hn. right. split; [done|]. exists addrs. split; [done|]. intros a Ha. apply not_true_is_false. intros Ht. apply Hn.
    exists a. split; [by apply list_elem_of_In | done].
  - intros [(? & [=] & _)|(_ & ? & [= <-] & Hf)] (a & Ha%list_elem_of_In%Hf & Ht). congruence.
Qed.

(** C5.  The decision on a host, in every case.  A text that is no host is refused.  A
    host is denied exactly when a pattern of the denylist matches it; otherwise refused
    as local unless local access is on, or the host is a local literal that the allowlist
    names, or every address it resolves to is public by the code's classification; and
    then allowed exactly when a pattern of the allowlist matches it.  Patterns match as
    the globs they are compiled to, which for patterns of ordinary characters and ASCII
    hosts is: a name the name itself, [*.name] what is below it, [**.name] both, [*]
    everything, without regard to case. *)
Theorem host_decision_exact st lookup input port :
  consistent st ->
  (host_parse input = None -> host_decision st lookup input port = HostBlocked NotAllowed)
  /\ (forall h, host_parse input = Some h ->
        (host_decision st lookup input port = HostBlocked Denied <-> listed (denied_domains st.(config)) h)
        /\ (host_decision st lookup input port = HostBlocked NotAllowedLocal <->
            ~ listed (denied_domains st.(config)) h /\ ~ local_permitted st lookup h port)
        /\ (host_decision st lookup input port = HostAllowed <->
            ~ listed (denied_domains st.(config)) h /\ local_permitted st lookup h port /\ listed (allowed_domains st.(config)) h)
        /\ (host_decision st lookup input port = HostBlocked NotAllowed <->
            ~ listed (denied_domains st.(config)) h /\ local_permitted st lookup h port /\ ~ listed (allowed_domains st.(config)) h))
  /\ (forall p h, literal_pattern (pattern_of p) -> is_ascii h = true -> matched_by p h <-> covers (pattern_of p) h).
Proof.
  intros [Hd Ha _ _ _]. split; [intros E; unfold host_decision; by rewrite E|]. split; [|intros p h; apply matched_by_literal].
  intros h Hp. unfold host_decision, listed. rewrite Hp.
  rewrite <-(set_reaches _ _ _ h Hd), <-(set_reaches _ _ _ h Ha).
  assert (bool_decide (allowed_domains (config st) = None) = true -> globset_matches_host_or_unscoped (allow_set st) h = true -> False) as Hnone.
  { rewrite bool_decide_eq_true. intros E Ht. apply (set_reaches _ _ _ _ Ha) in Ht. rewrite E in Ht. by apply Exists_nil in Ht. }
  unfold local_permitted. rewrite <-resolves_public, <-local_literal_false, <-local_literal_true, <-explicit_named.
  destruct (globset_matches_host_or_unscoped (deny_set st) h); [naive_solver|].
  destruct (globset_matches_host_or_unscoped (allow_set st) h), (bool_decide (allowed_domains (config st) = None));
    try (exfalso; by apply Hnone);
    destruct (allow_local_binding (config st)), (local_literal h), (is_explicit_local_allowlisted _ h),
      (host_resolves_to_non_public_ip h port lookup); simpl; clear; intuition discriminate.
Qed.

(** What has been checked before a decider is asked. *)
Lemma passed_checks st lookup input port h :
  host_parse input = Some h ->
  host_decision st lookup input port = HostAllowed \/ host_decision st lookup input port = HostBlocked NotAllowed ->
  globset_matches_host_or_unscoped st.(deny_set) h = false /\ local_permitted st lookup h port.
Proof.
  intros Hp. unfold host_decision, local_permitted.
  rewrite Hp, <-resolves_public, <-local_literal_false, <-local_literal_true, <-explicit_named.
  destruct (globset_matches_host_or_unscoped (deny_set st) h); [by intros []|].
  destruct (allow_local_binding (config st)), (local_literal h), (is_explicit_local_allowlisted _ h),
      (host_resolves_to_non_public_ip h port lookup); simpl; intuition discriminate.
Qed.

Lemma reload_if_needed_consistent broker reload st st' r :
  consistent st -> (forall new, reload = Ok (Some new) -> consistent new) ->
  reload_if_needed broker reload st = (st', r) -> consistent st'.
Proof.
  intros Hs Hr. unfold reload_if_needed. destruct (reload_read broker reload st) as [[new'|]|] eqn:E; intros [= <- _]; [|done..].
  destruct reload as [[new|]|]; [|done..]. eapply reload_read_spec; [|exact Hs|exact E]. by apply Hr.
Qed.

Lemma reloading_Ok {A} broker reload (op : ConfigState -> ConfigState * A) st st' a :
  reloading broker reload op st = (st', Ok a) -> exists st1, reload_if_needed broker reload st = (st1, Ok tt) /\ op st1 = (st', a).
Proof.
  unfold reloading. destruct (reload_if_needed broker reload st) as [st1 [[]|]]; [|done].
  destruct (op st1) eqn:E. intros [= <- <-]. eauto.
Qed.

(** C25.  Whoever decides on requests that the lists leave open cannot get through what
    they deny: a request that is allowed goes to a host that no pattern of the denylist
    matches and that passes the check for local hosts; and the audit log says either that
    the baseline policy allowed it, and then a pattern of the allowlist matches it, or
    that a decider overrode the policy, and then it is the decider that allowed it.  A
    text that is no host passes only by the decider, and is logged so. *)
Theorem decider_bounded broker reload lookup id decider request st st' audit :
  evaluate_host_policy broker reload lookup id decider request st = (st', Ok (DecideAllow, audit)) ->
  consistent st -> (forall new, reload = Ok (Some new) -> consistent new) ->
  (forall h, host_parse request.(pr_host) = Some h ->
     ~ listed (denied_domains st'.(config)) h /\ local_permitted st' lookup h request.(pr_port))
  /\ (audit = mkAudit (lit "allow") BaselinePolicy (lit "allow") false
      /\ (exists h, host_parse request.(pr_host) = Some h /\ listed (allowed_domains st'.(config)) h)
      \/ audit = mkAudit (lit "allow") Decider (lit "not_allowed") true
         /\ exists decide, decider = Some decide /\ decide (for_decider id request) = DecideAllow).
Proof.
  intros He Hs Hr. unfold evaluate_host_policy in He.
  destruct (host_blocked _ _ _ _ _ _) as [st1 [d|]] eqn:Eb; [|done].
  apply reloading_Ok in Eb as (st2 & Hrel & [= -> Hdec]).
  destruct (decide_host_policy id decider request d) as [decision override] eqn:Ed. injection He as -> -> <-.
  apply reload_if_needed_consistent in Hrel; [|done..]. destruct Hrel as [Hd Ha _ _ _].
  assert (d = HostAllowed \/ d = HostBlocked NotAllowed) as Hcase by (destruct d as [|[]]; auto; done).
  split.
  - intros h Hp. destruct (passed_checks st' lookup (pr_host request) (pr_port request) h Hp) as [Hden Hloc]; [by rewrite Hdec|].
    split; [|done]. unfold listed. intros Hl. apply (set_reaches _ _ _ _ Hd) in Hl. congruence.
  - destruct Hcase as [-> | ->]; simpl in Ed.
    + left. injection Ed as <-. split; [done|]. unfold host_decision in Hdec.
      destruct (host_parse (pr_host request)) as [h|]; [|done]. exists h. split; [done|].
      unfold listed. apply (set_reaches _ _ _ _ Ha).
      destruct (globset_matches_host_or_unscoped (allow_set st') h); [done|]. rewrite orb_true_r in Hdec. by repeat case_match.
    + right. destruct decider as [decide|]; [|done].
      destruct (decide (for_decider id request)) eqn:Edd; simpl in Ed; [|done]. injection Ed as <-. split; [done|]. by exists decide.
Qed.
End Decisions.

(** ** Connections *)

(** The text of a target: a name as it is, an address in its usual notation. *)
Definition address_text (ip : IpAddr) (s : str) : Prop :=
  parse_ip s = Some ip
  /\ (forall c, c ∈ s -> is_ascii_digit c = true \/ (97 <= c <= 102)%N \/ c = COLON \/ c = PERIOD)
  /\ count_char COLON s <> 1 /\ last s <> Some PERIOD.

Definition usual_text `{TargetText} (target : TargetHost) : Prop :=
  match target with
  | HostName name => target_text target = name
  | HostAddress ip => address_text ip (target_text target)
  end.

Lemma normalize_host_simple s :
  (forall c, c ∈ s -> is_whitespace c = false) -> LBRACKET ∉ s -> count_char COLON s <> 1 ->
  normalize_host s = normalize_dns_host_or_ip_literal s.
Proof.
  intros Hw Hb Hc. unfold normalize_host. rewrite trim_plain.
  - assert (starts_with [LBRACKET] s = false) as ->; [|by destruct (Nat.eqb_spec (count_char COLON s) 1)].
    apply not_true_iff_false. intros [r ->]%starts_with_true. apply Hb. apply elem_of_cons. by left.
  - intros c Hh. apply Hw. destruct s; [done|]. injection Hh as <-. apply elem_of_cons. by left.
  - intros c (s' & ->)%last_Some. apply Hw, elem_of_app. right. by apply list_elem_of_singleton.
Qed.

Lemma lower_period c : (PERIOD =? ascii_lower_char c)%N = (PERIOD =? c)%N.
Proof.
  destruct (lower_char_cases c) as [[E ?]|[E ?]]; rewrite E; [|done]. unfold PERIOD.
  destruct (N.eqb_spec 46 c), (N.eqb_spec 46 (c + 32)); lia || done.
Qed.

Lemma trim_end_lower s : trim_end_matches PERIOD (to_ascii_lowercase s) = to_ascii_lowercase (trim_end_matches PERIOD s).
Proof.
  unfold trim_end_matches, to_ascii_lowercase. rewrite <-(map_rev _ s), (map_rev _ (drop_while _ _)). f_equal.
  induction (rev s) as [|c t IH]; [done|]. cbn [map drop_while]. rewrite lower_period. destruct (PERIOD =? c)%N; [exact IH | done].
Qed.

Lemma localhost_normalized name : is_localhost_name name = true -> normalize_host name = lit "localhost".
Proof.
  unfold is_localhost_name, eq_ignore_ascii_case. rewrite bool_decide_eq_true. intros E.
  assert (forall c, c ∈ name -> c = PERIOD \/ label_char c = true) as Hchars.
  { intros c Hc. unfold trim_end_matches in E. destruct (drop_while_split (N.eqb PERIOD) (rev name)) as (dots & Hs & Hd).
    rewrite <-(rev_involutive name), Hs, rev_app_distr in Hc. apply elem_of_app in Hc as [Hc|Hc].
    - right. rewrite <-lower_label. apply (list_elem_of_fmap_2 ascii_lower_char) in Hc.
      change (ascii_lower_char <$> ?l) with (to_ascii_lowercase l) in Hc. rewrite E in Hc. revert Hc. generalize (ascii_lower_char c).
      intros x Hx. vm_compute in Hx. repeat (apply elem_of_cons in Hx as [-> | Hx]; [done|]). by apply elem_of_nil in Hx.
    - left. apply list_elem_of_In, in_rev in Hc. rewrite forallb_forall in Hd. by apply Hd, N.eqb_eq in Hc. }
  rewrite normalize_host_simple.
  - unfold normalize_dns_host_or_ip_literal. rewrite trim_end_lower, E. vm_compute. reflexivity.
  - intros c [-> | Hl]%Hchars; [done | by apply label_not_ws].
  - intros [|]%Hchars; done.
  - rewrite count_char_none; [done|]. intros [|]%Hchars; done.
Qed.

Section Connections.
Context `{GlobLib, HttpLib, PathHost, SecretHost, MitmHost, TargetText}.

Lemma address_char_facts c :
  is_ascii_digit c = true \/ (97 <= c <= 102)%N \/ c = COLON \/ c = PERIOD ->
  is_whitespace c = false /\ c <> LBRACKET /\ c <> PERCENT /\ ascii_lower_char c = c.
Proof.
  intros Hc. assert ((46 <= c <= 58 \/ 97 <= c <= 102)%N) as Hr.
  { unfold is_ascii_digit, COLON, PERIOD in Hc. rewrite andb_true_iff, !N.leb_le in Hc. lia. }
  unfold LBRACKET, PERCENT. split_and!; [|lia|lia|destruct (lower_char_cases c) as [[? ?]|[? ?]]; [lia|done]].
  unfold is_whitespace.
  repeat match goal with |- context [(?a <=? ?b)%N] => destruct (N.leb_spec a b); try lia end;
  repeat match goal with |- context [(?a =? ?b)%N] => destruct (N.eqb_spec a b); try lia end; done.
Qed.

(** The text of an address is a host that stands for it. *)
Lemma address_text_host ip h :
  address_text ip h -> host_parse h = Some h /\ parse_ip h = Some ip /\ unscoped_ip_literal h = None.
Proof.
  intros (Hp & Hc & Hcol & Hlast).
  assert (forall c, c ∈ h -> is_whitespace c = false /\ c <> LBRACKET /\ c <> PERCENT /\ ascii_lower_char c = c) as Hf.
  { intros c Hin. by apply address_char_facts, Hc. }
  assert (to_ascii_lowercase h = h) as Hl.
  { clear Hp Hc Hcol Hlast. unfold to_ascii_lowercase. induction h as [|c t IH]; [done|]. cbn [map]. f_equal; [apply Hf; set_solver|].
    apply IH. intros x Hx. apply Hf. set_solver. }
  assert (normalize_host h = h) as Hn.
  { rewrite normalize_host_simple.
    - unfold normalize_dns_host_or_ip_literal, normalize_ip_literal.
      rewrite Hl, trim_end_matches_last by done.
      by rewrite bool_decide_eq_true_2 by (rewrite Hp; by eexists).
    - intros c Hin. by apply Hf.
    - intros Hin. by apply Hf in Hin as (_ & ? & _).
    - done. }
  split_and!; [|done|].
  - unfold host_parse. rewrite Hn. destruct h; [|done]. by vm_compute in Hp.
  - unfold unscoped_ip_literal. destruct (split_once PERCENT h) as [[a b]|] eqn:E; [|done]. apply split_once_app in E.
    assert (PERCENT ∈ h) as (_ & _ & Hne & _)%Hf by (rewrite E; apply elem_of_app; right; apply elem_of_cons; by left). done.
Qed.

Lemma allowed_is_named st lookup input port h :
  host_decision st lookup input port = HostAllowed -> host_parse input = Some h -> is_local_literal h ->
  st.(config).(allow_local_binding) = true \/ Exists (names h) (default [] (allowed_domains st.(config))).
Proof.
  intros Hd Hp Hl. destruct (passed_checks st lookup input port h Hp) as [_ [?|[[_ ?]|[E _]]]]; [by left|by left|by right|done].
Qed.

(** C6.  A request is connected directly to an address of the blocks that are meant not
    to be public only if local access is on or an entry of the allowlist without
    wildcards names the target: the very address that is connected to, or localhost for
    a loopback address.  A request that carries the address of an upstream proxy is
    handed to that proxy without this check.  Assumed is that a target is written as
    usual: a name as it is, an address in digits, [a] to [f], colons and periods. *)
Theorem connections_checked broker reload1 reload2 lookup upstream target addr st st' r :
  serve broker reload1 reload2 lookup upstream target addr st = (st', r) ->
  (upstream = true <-> r = ViaUpstreamProxy)
  /\ (r = Direct Connected -> wf_ip addr.(addr_ip) -> non_public addr.(addr_ip) ->
      exists host port, target = Ok (Some (host, port))
      /\ (usual_text host ->
          (exists st1 st0, reload_if_needed broker reload1 st = (st1, Ok tt) /\ (st0 = st1 \/ st0 = st') /\ st0.(config).(allow_local_binding) = true)
          \/ exists p, p ∈ default [] (allowed_domains st'.(config)) /\ (STAR ∉ trim p) /\ (QUESTION ∉ trim p)
               /\ match host with
                  | HostAddress ip => ip = addr.(addr_ip) /\ parse_ip (normalize_host p) = Some ip
                  | HostName name => is_localhost_name name = true /\ is_loopback addr.(addr_ip) = true /\ normalize_host p = lit "localhost"
                  end)).
Proof.
  unfold serve. destruct upstream; [intros [= <- <-]; by split|].
  destruct target as [[[host port]|]|e]; [|by intros [= <- <-]; split..].
  destruct (connect_check _ _ _ _ _ _ _ _) as [st2 r2] eqn:Hc. intros [= -> <-]. split; [done|]. intros [= ->] Hwf Hnp.
  apply listed_non_public in Hnp as Hn; [|done]. exists host, port. split; [done|]. intros Hw. revert Hc.
  unfold connect_check. rewrite Hn. simpl.
  destruct (reloading _ _ _ st) as [st1 [local|]] eqn:E1; [|done].
  apply reloading_Ok in E1 as (st1' & Hrel & [= -> <-]).
  destruct (allow_local_binding (config st1)) eqn:El; [intros [= ->]; left; exists st', st'; auto|].
  destruct (target_matches_non_public_addr host (addr_ip addr)) eqn:Et; [simpl|done].
  destruct (host_blocked _ _ _ _ _ st1) as [st3 [d|]] eqn:Eb; [|done]. case_bool_decide as Hd; [|done]. intros [= ->]. subst d.
  apply reloading_Ok in Eb as (st3' & _ & [= -> Hdec]).
  destruct host as [ip|name]; cbn [target_matches_non_public_addr] in Et.
  - apply bool_decide_eq_true in Et as Eip. destruct (address_text_host ip _ Hw) as (Hh & Hpi & Hu).
    destruct (allowed_is_named _ _ _ _ _ Hdec Hh) as [Hb|He]; [|left; exists st1, st'; auto|].
    { unfold is_local_literal. rewrite Hu. simpl. right. exists ip. split; [done|]. right. by rewrite Eip. }
    right. apply Exists_exists in He as (p & Hp & Hs & Hq & [Hnm|Hnm]); [|congruence].
    exists p. split_and!; try done. by rewrite Hnm.
  - apply andb_true_iff in Et as [Hlo Hlb]. cbn [usual_text] in Hw. rewrite Hw in Hdec.
    assert (host_parse name = Some (lit "localhost")) as Hh by (unfold host_parse; by rewrite localhost_normalized).
    destruct (allowed_is_named _ _ _ _ _ Hdec Hh) as [Hb|He]; [by left|left; exists st1, st'; auto|].
    right. apply Exists_exists in He as (p & Hp & Hs & Hq & [Hnm|Hnm]); [|assert (unscoped_ip_literal (lit "localhost") = None) by (vm_compute; reflexivity); congruence].
    exists p. split_and!; done.
Qed.
End Connections.

(** ** Denying a host *)

Section Denying.
Context `{GlobLaws, HttpLib, PathHost, SecretHost, MitmHost}.

(** A host whose pattern is itself. *)
Definition stable_host (h : str) : Prop := normalize_host h = h /\ trim h = h /\ forallb literal_char h = true.

Lemma literal_ascii h : forallb literal_char h = true -> is_ascii h = true.
Proof.
  intros Hl. apply forallb_forall. intros c Hc. rewrite forallb_forall in Hl. apply Hl, andb_true_iff in Hc as [Hc _]. exact Hc.
Qed.

Lemma denied_entry_decides st lookup input port h p :
  consistent st -> host_parse input = Some h -> stable_host h ->
  p ∈ default [] (denied_domains st.(config)) -> normalize_host p = h ->
  host_decision st lookup input port = HostBlocked Denied.
Proof.
  intros [Hd _ _ _ _] Hi (Hn & Ht & Hl) Hp Hnp. unfold host_decision. rewrite Hi.
  assert (h <> []) as Hne by (intros ->; unfold host_parse in Hi; destruct (normalize_host input); done).
  assert (STAR ∉ h) as Hs.
  { intros Hin%list_elem_of_In. rewrite forallb_forall in Hl. by apply Hl in Hin. }
  assert (globset_matches_host_or_unscoped (deny_set st) h = true) as ->; [|done].
  unfold globset_matches_host_or_unscoped. apply orb_true_iff. left.
  pose proof (exact_of_normalized p h Hnp Ht Hne Hs) as Ep.
  eapply compiled_one; [exact Hd | exact Hp | rewrite Ep; by right | by apply literal_ascii | rewrite Ep; by right].
Qed.

(** What may happen between the parts of a round keeps the state consistent. *)
Definition round_ok (r : Round) : Prop :=
  (forall new, r.(round_reload) = Ok (Some new) -> consistent new) /\ (forall st, consistent st -> consistent (r.(meanwhile) st)).

Lemma update_loop_denies broker rounds h : forall st st',
  consistent st -> Forall round_ok rounds -> normalize_host h = h ->
  update_domain_list_loop broker rounds h ListDeny st = (st', Some (Ok tt)) ->
  consistent st' /\ exists p, p ∈ default [] (denied_domains st'.(config)) /\ normalize_host p = h.
Proof.
  induction rounds as [|r rounds IH]; intros st st' Hc Hr Hh Hu; simpl in Hu; [done|].
  apply Forall_cons in Hr as [[Hrl Hrm] Hr].
  destruct (reload_if_needed broker (round_reload r) st) as [st1 [[]|]] eqn:E1; [|done].
  apply reload_if_needed_consistent in E1; [|done..].
  destruct (update_read h ListDeny st1) as [[p|]|] eqn:Er; [| |done].
  - destruct (update_write p (meanwhile r st1)) as [st2|] eqn:Ew.
    + injection Hu as <-. apply update_read_spec in Er as (Hcp & _ & _ & Hcfg & _); [|done].
      unfold update_write in Ew. destruct (_ && _); [|done]. injection Ew as <-. split; [done|]. exists h. split; [|done].
      apply denied_elem. rewrite Hcfg. apply upsert_elem. by left.
    + eapply IH; [|done..|exact Hu]. by apply Hrm.
  - injection Hu as <-. split; [done|]. unfold update_read in Er.
    destruct (_ && _) eqn:E; [|by repeat case_hyp Er]. apply andb_true_iff in E as [(p & Hp & Hn)%existsb_exists _].
    apply bool_decide_eq_true in Hn. exists p. split; [by apply list_elem_of_In | done].
Qed.

Lemma update_loop_ends broker rounds h target : forall st,
  Exists (fun r => forall st, r.(meanwhile) st = st) rounds ->
  (update_domain_list_loop broker rounds h target st).2 <> None.
Proof.
  induction rounds as [|r rounds IH]; intros st Hx; [by apply Exists_nil in Hx|]. simpl.
  destruct (reload_if_needed broker (round_reload r) st) as [st1 [[]|]]; [|done].
  destruct (update_read h target st1) as [[p|]|] eqn:Er; [|done..].
  apply Exists_cons in Hx as [Hq|Hx].
  - rewrite Hq. unfold update_read in Er. destruct (_ && _); [done|].
    destruct (validate_policy_against_constraints _ _); [|done]. destruct (build_config_state _ _); [|done]. injection Er as <-.
    unfold update_write. simpl. by rewrite !bool_decide_eq_true_2 by done.
  - destruct (update_write p (meanwhile r st1)); [done|]. by apply IH.
Qed.

(** An entry of the denylist names the host. *)
Definition denied_entry (h : str) (st : ConfigState) : Prop :=
  exists p, p ∈ default [] (denied_domains st.(config)) /\ normalize_host p = h.

(** A change of a list that is not to allow the host keeps the entry. *)
Lemma update_read_denied h host target st p :
  consistent st -> update_read host target st = Ok (Some p) -> (normalize_host host <> h \/ target = ListDeny) ->
  denied_entry h st -> denied_entry h p.(new_state).
Proof.
  intros Hc Hu Ho (q & Hq & Hn). apply update_read_spec in Hu as (_ & _ & _ & Hcfg & _); [|done].
  destruct (decide (normalize_host host = h)) as [Eh|Eh].
  - destruct Ho as [? | ->]; [done|]. exists host. split; [|done]. apply denied_elem. rewrite Hcfg. apply upsert_elem. by left.
  - exists q. split; [|done]. apply denied_elem. rewrite Hcfg. apply upsert_elem. right. apply denied_elem in Hq. split; [done|].
    simpl. congruence.
Qed.

(** The steps other tasks may take while the denial stands: all of them, but what is
    loaded denies the host too and no change of the lists begins that is to allow it. *)
Inductive quiet_step (broker : bool) (h : str) : world -> world -> Prop :=
  | quiet_other w w' :
      proxy_step broker (fun st => consistent st /\ denied_entry h st) w w' ->
      (forall p, TUpdate p ∈ w'.(pending) -> TUpdate p ∈ w.(pending)) -> quiet_step broker h w w'
  | quiet_update st ts host target p :
      normalize_host host <> h \/ target = ListDeny -> update_read host target st = Ok (Some p) ->
      quiet_step broker h (mkWorld st ts) (mkWorld st (ts ++ [TUpdate p])).

(** What may be under way: a reload that installs the denial as well; a change of the
    lists, which is only written over the configuration it was made for. *)
Definition task_denies (h : str) (t : task) : Prop :=
  match t with
  | TReload new => denied_entry h new
  | TUpdate p => forall st, st.(config) = p.(previous_cfg) -> denied_entry h st -> denied_entry h p.(new_state)
  | TMode _ _ => True
  end.

Definition stays_denied (h : str) (w : world) : Prop := world_ok w /\ denied_entry h w.(shared) /\ Forall (task_denies h) w.(pending).

Lemma denied_entry_config h st st' : st'.(config) = st.(config) -> denied_entry h st -> denied_entry h st'.
Proof. unfold denied_entry. by intros ->. Qed.

Lemma loaded_denied broker h new st :
  denied_entry h new -> denied_entry h st ->
  denied_entry h (force_reload broker (Ok new) st).1 /\ denied_entry h (replace_state broker new st).1.
Proof.
  intros Hn Hs. unfold force_reload, replace_state. by destruct (ensure_credential_broker_enablement_unchanged broker new).
Qed.

(** The new tasks of a step that are no change of the lists, and what it writes. *)
Lemma proxy_step_denied broker h w w' :
  proxy_step broker (fun st => consistent st /\ denied_entry h st) w w' ->
  (forall p, TUpdate p ∈ w'.(pending) -> TUpdate p ∈ w.(pending)) ->
  denied_entry h w.(shared) -> Forall (task_denies h) w.(pending) ->
  denied_entry h w'.(shared) /\ Forall (task_denies h) w'.(pending).
Proof.
  intros Hs Hnew Hd Ht. destruct Hs; cbn [shared pending] in *;
    try (apply Forall_take_out in Ht as [Hx Ht]; cbn [task_denies] in Hx); try (split; [|done]); try done.
  - split; [done|]. apply Forall_app. split; [done|]. apply Forall_singleton. unfold reload_read in *. simpl in *.
    destruct (ensure_credential_broker_enablement_unchanged _ _); simplify_eq. eapply (denied_entry_config _ new); [reflexivity | tauto].
  - split; [done|]. apply Forall_app. split; [done|]. apply Forall_singleton. rewrite Forall_forall in Ht. apply Ht, Hnew.
    apply elem_of_app. right. by apply list_elem_of_singleton.
  - unfold update_write in *. destruct (_ && _) eqn:E; [|done]. simplify_eq. apply andb_true_iff in E as [_ E%bool_decide_eq_true].
    by apply (Hx st).
  - split; [done|]. apply Forall_app. split; [done|]. by apply Forall_singleton.
  - unfold set_mode_write in *. case_bool_decide; simplify_eq. destruct Hd as (q & Hq & Hn). by exists q.
  - apply loaded_denied; tauto.
  - apply loaded_denied; tauto.
Qed.

Lemma quiet_step_denied broker h w w' : quiet_step broker h w w' -> stays_denied h w -> stays_denied h w'.
Proof.
  intros Hq (Hok & Hd & Ht). destruct Hq as [w w' Hs Hnew|st ts host target p Ho Hu].
  - split; [eapply world_step_ok; [|exact Hs|done]; by intros ? []|]. by eapply proxy_step_denied.
  - destruct Hok as [Hc Hp]. cbn [shared pending] in *. split.
    + split; [done|]. apply Forall_app. split; [done|]. apply Forall_singleton. by eapply update_read_spec.
    + split; [done|]. apply Forall_app. split; [done|]. apply Forall_singleton. intros st0 E Hd0.
      apply update_read_spec in Hu as Hcfg; [|done]. eapply update_read_denied; done.
Qed.

(** C12.  Denying a host takes effect and lasts.  Once the change is made, and however
    reloads, list and mode changes and recorded requests of other tasks interleave after
    it, every later request to the host is refused as denied by the baseline policy, on
    any port, wherever it resolves to and whoever decides, until a configuration is
    loaded that does not deny the host or a change begins that allows it.  The change
    itself is made or refused at the latest in the first round that nothing else
    disturbs.  The host is one whose normal form is made of ordinary characters. *)
Theorem denying_takes_effect broker rounds host h st :
  consistent st -> Forall round_ok rounds -> host_parse host = Some h -> stable_host h ->
  (forall st' tasks w, add_denied_domain broker rounds host st = (st', Some (Ok tt)) ->
     Forall (fun t => task_ok t /\ task_denies h t) tasks -> rtc (quiet_step broker h) (mkWorld st' tasks) w ->
     forall lookup id decider request reload,
       host_parse request.(pr_host) = Some h -> (forall new, reload = Ok (Some new) -> consistent new /\ denied_entry h new) ->
       match (evaluate_host_policy broker reload lookup id decider request w.(shared)).2 with
       | Ok (decision, audit) => decision = DecideDeny (lit "denied") BaselinePolicy DecisionDeny
                                 /\ audit = mkAudit (lit "deny") BaselinePolicy (lit "denied") false
       | Err _ => reload <> Ok None
       end)
  /\ (Exists (fun r => forall st, r.(meanwhile) st = st) rounds -> (add_denied_domain broker rounds host st).2 <> None).
Proof.
  intros Hc Hr Hh Hs. unfold add_denied_domain, update_domain_list. rewrite Hh. split; [|apply update_loop_ends].
  intros st' tasks w Hu Ht Hq lookup id decider request reload Hi Hrel.
  apply update_loop_denies in Hu as (Hc' & Hd'); [|done..|by destruct Hs].
  assert (stays_denied h w) as ((Hcw & _) & Hdw & _).
  { assert (stays_denied h (mkWorld st' tasks)) as Hw0 by (apply Forall_and in Ht as [? ?]; split_and!; done). revert Hw0.
    clear -Hq. induction Hq as [|x y z Hxy _ IH]; [done|]. intros Hx. apply IH. by eapply quiet_step_denied. }
  assert (forall st1, consistent st1 -> denied_entry h st1 ->
            host_decision st1 lookup (pr_host request) (pr_port request) = HostBlocked Denied) as Hden.
  { intros st1 Hc1 (p & Hp & Hn). by eapply denied_entry_decides. }
  unfold evaluate_host_policy, host_blocked, reloading, reload_if_needed, reload_read.
  destruct reload as [[new|]|e]; simpl.
  - destruct (Hrel new eq_refl) as [Hcn Hdn]. destruct (ensure_credential_broker_enablement_unchanged broker new); [|done].
    simpl. rewrite Hden; [done| |by eapply denied_entry_config]. apply consistent_blocked; [done|]. by destruct Hcw.
  - by rewrite Hden.
  - done.
Qed.
End Denying.

Module ProxyDemo.
Import MiniGlob ConfigDemo HookDemo StateDemo.

#[export] Instance demo_text : TargetText := {| target_text h := match h with HostName n => n | HostAddress _ => lit "10.0.0.1" end |}.

Definition demo_config : NetworkProxyConfig :=
  set_denied_domains (set_allowed_domains default_config [lit "**.example.com"; lit "10.0.0.1"; lit "localhost"]) [lit "bad.example.com"].
Definition fallback : ConfigState :=
  mkConfigState default_config [] [] None ∅ no_constraints [] 0.
Definition demo_state : ConfigState := default fallback (result_ok (build_config_state demo_config no_constraints)).

Lemma demo_consistent : consistent demo_state.
Proof. split; vm_compute; [reflexivity.. | lia]. Qed.

Definition public : Lookup := fun _ _ => Some [mkSocketAddr (V4 (v4 93 184 216 34)) 443].
Definition private : Lookup := fun _ _ => Some [mkSocketAddr (V4 (v4 10 0 0 7)) 443].

Example decisions :
  host_decision demo_state public (lit "API.example.com:443") 443 = HostAllowed
  /\ host_decision demo_state private (lit "api.example.com") 443 = HostBlocked NotAllowedLocal
  /\ host_decision demo_state (fun _ _ => None) (lit "api.example.com") 443 = HostBlocked NotAllowedLocal
  /\ host_decision demo_state public (lit "bad.example.com.") 443 = HostBlocked Denied
  /\ host_decision demo_state public (lit "other.org") 443 = HostBlocked NotAllowed
  /\ host_decision demo_state public (lit "10.0.0.1") 443 = HostAllowed
  /\ host_decision demo_state public (lit "10.0.0.2") 443 = HostBlocked NotAllowedLocal.
Proof. split_and!; vm_compute; reflexivity. Qed.

Lemma shared_state_consistent_witness :
  exists w, rtc (proxy_step false consistent) (mkWorld demo_state []) w /\ w.(shared).(config).(mode) = Limited /\ consistent w.(shared).
Proof.
  assert (rtc (proxy_step false consistent) (mkWorld demo_state [])
            (mkWorld (with_config demo_state (with_mode demo_state.(config) Limited)) [])) as Hr.
  { eapply rtc_l; [apply (step_mode_read false consistent demo_state [] Limited no_constraints); vm_compute; reflexivity|].
    eapply rtc_l; [|apply rtc_refl]. apply (step_mode_write false consistent demo_state [] [] Limited no_constraints). vm_compute. reflexivity. }
  eexists. split; [exact Hr|]. split; [reflexivity|].
  apply (shared_state_consistent false consistent demo_state); [auto | exact demo_consistent | exact Hr].
Defined.

Lemma host_decision_exact_witness :
  ~ listed (denied_domains demo_state.(config)) (lit "api.example.com") /\ listed (allowed_domains demo_state.(config)) (lit "api.example.com").
Proof.
  destruct (host_decision_exact demo_state public (lit "API.example.com:443") 443 demo_consistent) as (_ & Hh & _).
  destruct (Hh (lit "api.example.com") ltac:(vm_compute; reflexivity)) as (_ & _ & [Ha _] & _).
  destruct (Ha ltac:(vm_compute; reflexivity)) as (Hd & _ & Hl). split; [exact Hd | exact Hl].
Defined.

Definition demo_request (host : str) : NetworkPolicyRequest := mkPolicyRequest HttpsConnect host 443 None None None None None None.

Lemma decider_bounded_witness :
  exists audit, evaluate_host_policy false (Ok None) public (mkIdentity None None) (Some (fun _ => DecideAllow)) (demo_request (lit "other.org")) demo_state
    = (demo_state, Ok (DecideAllow, audit)) /\ ~ listed (denied_domains demo_state.(config)) (lit "other.org").
Proof.
  eexists. split; [vm_compute; reflexivity|].
  eapply (decider_bounded false (Ok None) public (mkIdentity None None) (Some (fun _ => DecideAllow)) (demo_request (lit "other.org"))
            demo_state demo_state _);
    [vm_compute; reflexivity | exact demo_consistent | intros ? [=] | vm_compute; reflexivity].
Defined.

Definition local_addr : SocketAddr := mkSocketAddr (V4 (v4 10 0 0 1)) 8080.

Lemma local_text : address_text local_addr.(addr_ip) (lit "10.0.0.1").
Proof.
  split; [vm_compute; reflexivity|]. split; [|split; vm_compute; discriminate].
  assert (forallb (fun c => is_ascii_digit c || (c =? PERIOD)%N) (lit "10.0.0.1") = true) as Hb by (vm_compute; reflexivity).
  intros c Hc%list_elem_of_In. rewrite forallb_forall in Hb. apply Hb, orb_true_iff in Hc as [Hc|Hc]; [left; exact Hc|].
  right. right. right. apply N.eqb_eq. exact Hc.
Qed.

Lemma connections_checked_witness :
  serve false (Ok None) (Ok None) public false (Ok (Some (HostAddress local_addr.(addr_ip), 8080%N))) local_addr demo_state = (demo_state, Direct Connected)
  /\ exists p, p ∈ default [] (allowed_domains demo_state.(config)) /\ parse_ip (normalize_host p) = Some local_addr.(addr_ip).
Proof.
  assert (serve false (Ok None) (Ok None) public false (Ok (Some (HostAddress local_addr.(addr_ip), 8080%N))) local_addr demo_state
          = (demo_state, Direct Connected)) as E by (vm_compute; reflexivity).
  split; [exact E|].
  destruct (connections_checked false (Ok None) (Ok None) public false _ local_addr demo_state demo_state _ E) as [_ Hc].
  destruct Hc as (host & port & [= <- <-] & Hc).
  - reflexivity.
  - vm_compute. reflexivity.
  - right. left. vm_compute. split; [discriminate | reflexivity].
  - destruct (Hc local_text) as [(st1 & st0 & Hr & [-> | ->] & Hl)|(p & Hp & _ & _ & _ & Hi)].
    + exfalso. vm_compute in Hr. injection Hr as <-. vm_compute in Hl. discriminate.
    + exfalso. vm_compute in Hl. discriminate.
    + exists p. split; [exact Hp | exact Hi].
Defined.

Lemma denying_takes_effect_witness :
  exists st', add_denied_domain false [mkRound (Ok None) (fun st => st)] (lit "API.example.com") demo_state = (st', Some (Ok tt))
    /\ match (evaluate_host_policy false (Ok None) public (mkIdentity None None) (Some (fun _ => DecideAllow)) (demo_request (lit "api.example.com"))
                (push_blocked (mkBlockedRequest (lit "other.org") (lit "not_allowed") None None None (lit "http") None None None None 0) st')).2 with
       | Ok (decision, _) => decision = DecideDeny (lit "denied") BaselinePolicy DecisionDeny
       | Err _ => False
       end.
Proof.
  destruct (add_denied_domain false [mkRound (Ok None) (fun st => st)] (lit "API.example.com") demo_state) as [st' r] eqn:E.
  assert (r = Some (Ok tt)) as -> by (vm_compute in E; injection E as _ <-; reflexivity).
  exists st'. split; [reflexivity|].
  destruct (denying_takes_effect false [mkRound (Ok None) (fun st => st)] (lit "API.example.com") (lit "api.example.com") demo_state) as [Hd _];
    [exact demo_consistent | | vm_compute; reflexivity | split_and!; vm_compute; reflexivity |].
  { constructor; [|constructor]. split; [intros ? [=] | auto]. }
  specialize (Hd st' [] (mkWorld (push_blocked (mkBlockedRequest (lit "other.org") (lit "not_allowed") None None None (lit "http") None None None None 0) st') []) E).
  specialize (Hd (@Forall_nil_2 _ _)).
  assert (rtc (quiet_step false (lit "api.example.com")) (mkWorld st' [])
            (mkWorld (push_blocked (mkBlockedRequest (lit "other.org") (lit "not_allowed") None None None (lit "http") None None None None 0) st') [])) as Hq.
  { apply rtc_once, quiet_other; [apply step_record | auto]. }
  specialize (Hd Hq public (mkIdentity None None) (Some (fun _ => DecideAllow)) (demo_request (lit "api.example.com"))
                (Ok None) ltac:(vm_compute; reflexivity) ltac:(intros ? [=])).
  destruct (evaluate_host_policy _ _ _ _ _ _ _).2 as [[d audit]|e]; [exact (proj1 Hd) | exact (Hd eq_refl)].
Defined.

(** A request that is blocked between the two parts of a change is forgotten. *)
Definition some_request : BlockedRequest :=
  mkBlockedRequest (lit "other.org") (lit "not_allowed") None None None (lit "http") None None None None 0.
Definition with_other : DomainListKind -> result (option PendingUpdate) ProxyError := fun k => update_read (lit "other.org") k demo_state.

Example blocked_entry_lost :
  match with_other ListAllow with
  | Ok (Some p) =>
      (fun st => (length st.(blocked), st.(blocked_total))) <$> update_write p (push_blocked some_request demo_state) = Some (0, 0%Z)
  | _ => False
  end.
Proof. vm_compute. reflexivity. Qed.

(** A forced reload keeps the blocked requests but starts their count again. *)
Example forced_reload_count :
  let st := (force_reload false (Ok demo_state) (push_blocked some_request demo_state)).1 in
  length st.(blocked) = 1 /\ st.(blocked_total) = 0%Z.
Proof. vm_compute. split; reflexivity. Qed.
End ProxyDemo.
