(* ===== verification/Profile.v ===== *)
(** * Permission profiles

    The data of [protocol/src/models.rs] and [protocol/src/permissions.rs] that
    says what a command may touch.  The entries of a policy and the network
    policy are parameters here: [Approval] does not look at them, [Permissions]
    instantiates them. *)

From S2P Require Import Prelude RustStr.

Inductive FileSystemSandboxKind : Type := Restricted | Unrestricted | ExternalSandbox.

#[export] Instance kind_eq_dec : EqDecision FileSystemSandboxKind.
Proof. solve_decision. Defined.

Section Profiles.
Context {E Net : Type}.

Record FileSystemSandboxPolicy : Type := mkSandboxPolicy {
  sandbox_kind : FileSystemSandboxKind;
  glob_scan_max_depth : option N;
  entries : list E;
}.

Definition unrestricted : FileSystemSandboxPolicy := mkSandboxPolicy Unrestricted None [].
Definition external_sandbox : FileSystemSandboxPolicy := mkSandboxPolicy ExternalSandbox None [].

Inductive ManagedFileSystemPermissions : Type :=
| ManagedRestricted (entries : list E) (glob_scan_max_depth : option N)
| ManagedUnrestricted.

Definition to_sandbox_policy (m : ManagedFileSystemPermissions) : FileSystemSandboxPolicy :=
  match m with
  | ManagedRestricted entries depth => mkSandboxPolicy Restricted depth entries
  | ManagedUnrestricted => unrestricted
  end.

Inductive PermissionProfile : Type :=
| Managed (file_system : ManagedFileSystemPermissions) (network : Net)
| Disabled
| External (network : Net).

Definition file_system_sandbox_policy (p : PermissionProfile) : FileSystemSandboxPolicy :=
  match p with
  | Managed file_system _ => to_sandbox_policy file_system
  | Disabled => unrestricted
  | External _ => external_sandbox
  end.
End Profiles.
Arguments FileSystemSandboxPolicy E : clear implicits.
Arguments ManagedFileSystemPermissions E : clear implicits.
Arguments PermissionProfile E Net : clear implicits.
