(* ===== verification/Approval.v ===== *)
(** * Approval of commands

    Models [core/src/exec_policy.rs]: what is required before a command runs
    (nothing, an approval, or that it is refused), how an approved prefix is
    remembered, and how the policy is loaded; and
    [default_exec_approval_requirement] of [core/src/tools/sandboxing.rs]. It
    composes the rules of [ExecPolicy], the policy file of [Amend] and the
    heuristics of [CommandSafety], on Unix. *)

From Stdlib Require Import Lia.
From stdpp Require Import gmap relations.
From S2P Require Import AbsPath Prelude RustStr PatchSyntax Host ShellScript CommandSafety ExecPolicy Amend Profile.

(** ** Data *)

Record GranularApprovalConfig : Type := mkGranular {
  sandbox_approval : bool;
  rules : bool;
  skill_approval : bool;
  request_permissions : bool;
  mcp_elicitations : bool;
}.

Inductive AskForApproval : Type :=
| UnlessTrusted
| OnRequest
| Granular (config : GranularApprovalConfig)
| Never.

Inductive SandboxPermissions : Type := UseDefault | RequireEscalated | WithAdditionalPermissions.

Definition requests_sandbox_override (s : SandboxPermissions) : bool :=
  match s with UseDefault => false | _ => true end.

Record ExecPolicyAmendment : Type := mkAmendment { amendment_command : list str }.

Inductive ExecApprovalRequirement : Type :=
| Skip (bypass_sandbox : bool) (proposed_execpolicy_amendment : option ExecPolicyAmendment)
| NeedsApproval (reason : option str) (proposed_execpolicy_amendment : option ExecPolicyAmendment)
| ForbiddenReq (reason : str).

(** [default_exec_approval_requirement], for tools without a requirement of
    their own. *)
Definition default_exec_approval_requirement {E} (policy : AskForApproval) (fs : FileSystemSandboxPolicy E)
  : ExecApprovalRequirement :=
  let needs_approval :=
    match policy with
    | Never => false
    | OnRequest | Granular _ => bool_decide (sandbox_kind fs = Restricted)
    | UnlessTrusted => true
    end in
  let rejects := match policy with Granular config => negb (sandbox_approval config) | _ => false end in
  if needs_approval && rejects then ForbiddenReq (lit "approval policy disallowed sandbox approval prompt")
  else if needs_approval then NeedsApproval None None
  else Skip false None.

(** ** Prompts *)

Definition PROMPT_CONFLICT_REASON : str := lit "approval required by policy, but AskForApproval is set to Never".
Definition REJECT_SANDBOX_APPROVAL_REASON : str :=
  lit "approval required by policy, but AskForApproval::Granular.sandbox_approval is false".
Definition REJECT_RULES_APPROVAL_REASON : str :=
  lit "approval required by policy rule, but AskForApproval::Granular.rules is false".

Definition prompt_is_rejected_by_policy (approval_policy : AskForApproval) (prompt_is_rule : bool) : option str :=
  match approval_policy with
  | Never => Some PROMPT_CONFLICT_REASON
  | OnRequest | UnlessTrusted => None
  | Granular config =>
      if prompt_is_rule then (if rules config then None else Some REJECT_RULES_APPROVAL_REASON)
      else if sandbox_approval config then None
      else Some REJECT_SANDBOX_APPROVAL_REASON
  end.

Definition dangerous_command_rejection_reason (m : DangerousCommandMatch) : str :=
  match m with
  | ForcedRm => lit "rm -f style commands are not permitted. Use a safer approach"
  | Other => lit "blocked by policy"
  end.

Definition derive_rejected_prompt_reason (fallback_reason : str) (m : option DangerousCommandMatch) : str :=
  match m with
  | Some ForcedRm => dangerous_command_rejection_reason ForcedRm
  | Some Other | None => fallback_reason
  end.

(** [Iterator::max_by_key]: the last of the largest. *)
Fixpoint max_by_key {A} (key : A -> nat) (l : list A) : option A :=
  match l with
  | [] => None
  | x :: l' =>
      match max_by_key key l' with
      | Some y => if key y <? key x then Some x else Some y
      | None => Some x
      end
  end.

(** Each written with blanks between its words, none of which has one. *)
Definition BANNED_PREFIX_SUGGESTIONS : list (list str) :=
  map (split_on SPACE)
    [lit "/bin/bash"; lit "/bin/bash -c"; lit "/bin/bash -lc"; lit "/bin/sh"; lit "/bin/sh -c";
     lit "/bin/sh -lc"; lit "/bin/zsh"; lit "/bin/zsh -c"; lit "/bin/zsh -lc"; lit "Rscript"; lit "bash";
     lit "bash -c"; lit "bash -lc"; lit "bun"; lit "bun -e"; lit "bun run"; lit "cmd"; lit "cmd /c";
     lit "cmd /k"; lit "cmd.exe"; lit "cmd.exe /c"; lit "cmd.exe /k"; lit "dash"; lit "dash -c"; lit "deno";
     lit "deno eval"; lit "env"; lit "fish"; lit "fish -c"; lit "git"; lit "julia"; lit "julia -e"; lit "ksh";
     lit "ksh -c"; lit "lua"; lit "lua -e"; lit "node"; lit "node -e"; lit "nodejs"; lit "nodejs -e";
     lit "npm run"; lit "osascript"; lit "perl"; lit "perl -e"; lit "php"; lit "php -r"; lit "pnpm run";
     lit "powershell"; lit "powershell -Command"; lit "powershell -EncodedCommand"; lit "powershell -File";
     lit "powershell -c"; lit "powershell.exe"; lit "powershell.exe -Command";
     lit "powershell.exe -EncodedCommand"; lit "powershell.exe -File"; lit "powershell.exe -c"; lit "pwsh";
     lit "pwsh -Command"; lit "pwsh -EncodedCommand"; lit "pwsh -File"; lit "pwsh -c"; lit "pwsh -e";
     lit "pwsh -ec"; lit "pwsh -f"; lit "py"; lit "py -3"; lit "pypy"; lit "pypy3"; lit "python";
     lit "python -"; lit "python -c"; lit "python3"; lit "python3 -"; lit "python3 -c"; lit "pythonw";
     lit "pyw"; lit "rm"; lit "ruby"; lit "ruby -e"; lit "sh"; lit "sh -c"; lit "sh -lc"; lit "sudo";
     lit "yarn run"; lit "zsh"; lit "zsh -c"; lit "zsh -lc"].

(** ** The requirement for a command *)

Section Requirement.
Context {P E Net : Type} `{EqDecision P, AbsPathOps P}.
(** The parser of scripts, [shlex::try_join] and [cfg!(target_os = "linux")]. *)
Context (try_parse_shell : str -> option Tree) (shlex_try_join : list str -> option str) (linux : bool).

Record ExecPolicyCommands : Type := mkCommands { commands : list (list str); used_complex_parsing : bool }.

Definition commands_for_exec_policy (command : list str) : ExecPolicyCommands :=
  match parse_shell_lc_plain_commands try_parse_shell command with
  | Some (c :: cs) => mkCommands (c :: cs) false
  | _ =>
      match parse_shell_lc_single_command_prefix try_parse_shell command with
      | Some single_command => mkCommands [single_command] true
      | None => mkCommands [command] false
      end
  end.

Record ExecApprovalRequest : Type := mkRequest {
  command : list str;
  approval_policy : AskForApproval;
  permission_profile : PermissionProfile E Net;
  sandbox_permissions : SandboxPermissions;
  prefix_rule : option (list str);
}.

(** [render_decision_for_unmatched_command], with the fields of its context that
    the request has and [used_complex_parsing]. *)
Definition render_decision_for_unmatched_command (req : ExecApprovalRequest) (complex : bool) (cmd : list str)
  : Decision :=
  let dangerous := dangerous_command_match try_parse_shell cmd in
  let is_known_safe := is_known_safe_command try_parse_shell linux cmd in
  let unless_trusted := match approval_policy req with UnlessTrusted => true | _ => false end in
  if is_known_safe && negb complex && unless_trusted then Allow
  else
    match dangerous with
    | Some _ => match approval_policy req with Never => Forbidden | _ => Prompt end
    | None =>
        match approval_policy req with
        | Never => Allow
        | UnlessTrusted => Prompt
        | OnRequest | Granular _ =>
            match sandbox_kind (file_system_sandbox_policy (permission_profile req)) with
            | Unrestricted | ExternalSandbox => Allow
            | Restricted => if requests_sandbox_override (sandbox_permissions req) then Prompt else Allow
            end
        end
    end.

Definition is_policy_match (m : RuleMatch P) : bool :=
  match m with PrefixRuleMatch _ _ _ _ => true | HeuristicsRuleMatch _ _ => false end.

Definition has_decision (d : Decision) (m : RuleMatch P) : bool := bool_decide (match_decision m = d).

Definition dangerous_command_match_for_heuristics (e : Evaluation P) (d : Decision) : option DangerousCommandMatch :=
  find_map (fun m =>
    match m with
    | HeuristicsRuleMatch cmd matched =>
        if bool_decide (matched = d) then dangerous_command_match try_parse_shell cmd else None
    | _ => None
    end) (matched_rules e).

Definition heuristics_command (d : Decision) (m : RuleMatch P) : option ExecPolicyAmendment :=
  match m with
  | HeuristicsRuleMatch cmd matched => if bool_decide (matched = d) then Some (mkAmendment cmd) else None
  | _ => None
  end.

Definition try_derive_execpolicy_amendment_for_prompt_rules (ms : list (RuleMatch P)) : option ExecPolicyAmendment :=
  if existsb (fun m => is_policy_match m && has_decision Prompt m) ms then None
  else find_map (heuristics_command Prompt) ms.

Definition try_derive_execpolicy_amendment_for_allow_rules (ms : list (RuleMatch P)) : option ExecPolicyAmendment :=
  if existsb is_policy_match ms then None else find_map (heuristics_command Allow) ms.

Definition prefix_rule_would_approve_all_commands (policy : Policy P) (prefix : list str) (cmds : list (list str))
  (fallback : list str -> Decision) : bool :=
  match add_prefix_rule prefix Allow policy with
  | Err _ => false
  | Ok policy_with_prefix_rule =>
      forallb (fun cmd =>
        match check_with_options policy_with_prefix_rule cmd fallback true with
        | Some e => bool_decide (decision e = Allow)
        | None => false
        end) cmds
  end.

Definition derive_requested_execpolicy_amendment_from_prefix_rule (prefix_rule : option (list str))
  (ms : list (RuleMatch P)) (policy : Policy P) (cmds : list (list str)) (fallback : list str -> Decision)
  : option ExecPolicyAmendment :=
  let! prefix := prefix_rule in
  if match prefix with [] => true | _ => false end then None
  else if bool_decide (prefix ∈ BANNED_PREFIX_SUGGESTIONS) then None
  else if existsb is_policy_match ms then None
  else if prefix_rule_would_approve_all_commands policy prefix cmds fallback then Some (mkAmendment prefix)
  else None.

Definition render_shlex_command (args : list str) : str := default (join (lit " ") args) (shlex_try_join args).

(** The prefix and justification of the rules that matched with decision [d]. *)
Definition rule_reasons (d : Decision) (ms : list (RuleMatch P)) : list (list str * option str) :=
  omap (fun m =>
    match m with
    | PrefixRuleMatch prefix matched _ justification =>
        if bool_decide (matched = d) then Some (prefix, justification) else None
    | _ => None
    end) ms.

Definition most_specific (d : Decision) (ms : list (RuleMatch P)) : option (list str * option str) :=
  max_by_key (fun r => length r.1) (rule_reasons d ms).

Definition BACKTICK : str := [96%N].

Definition derive_prompt_reason (command_args : list str) (e : Evaluation P) : option str :=
  let command := render_shlex_command command_args in
  match most_specific Prompt (matched_rules e) with
  | Some (_, Some justification) =>
      Some (BACKTICK ++ command ++ BACKTICK ++ lit " requires approval: " ++ justification)
  | Some (_, None) => Some (BACKTICK ++ command ++ BACKTICK ++ lit " requires approval by policy")
  | None => None
  end.

Definition derive_forbidden_reason (command_args : list str) (e : Evaluation P) (m : option DangerousCommandMatch)
  : str :=
  let rejected := BACKTICK ++ render_shlex_command command_args ++ BACKTICK ++ lit " rejected: " in
  match most_specific Forbidden (matched_rules e) with
  | Some (_, Some justification) => rejected ++ justification
  | Some (prefix, None) =>
      rejected ++ lit "policy forbids commands starting with " ++ BACKTICK ++ render_shlex_command prefix ++ BACKTICK
  | None =>
      match m with
      | Some d => rejected ++ dangerous_command_rejection_reason d
      | None => rejected ++ lit "blocked by policy"
      end
  end.

(** The parts of a request, how it is evaluated and the amendment it asks for. *)
Definition request_commands (req : ExecApprovalRequest) : ExecPolicyCommands :=
  commands_for_exec_policy (command req).

Definition exec_policy_fallback (req : ExecApprovalRequest) (cmd : list str) : Decision :=
  render_decision_for_unmatched_command req (used_complex_parsing (request_commands req)) cmd.

Definition evaluate_request (policy : Policy P) (req : ExecApprovalRequest) : option (Evaluation P) :=
  check_multiple_with_options policy (commands (request_commands req)) (exec_policy_fallback req) true.

Definition requested_amendment (policy : Policy P) (req : ExecApprovalRequest) (e : Evaluation P)
  : option ExecPolicyAmendment :=
  if negb (used_complex_parsing (request_commands req)) then
    derive_requested_execpolicy_amendment_from_prefix_rule (prefix_rule req) (matched_rules e) policy
      (commands (request_commands req)) (exec_policy_fallback req)
  else None.

Definition bypasses_sandbox (policy : Policy P) (cmds : list (list str)) : bool :=
  forallb (fun cmd =>
    existsb (fun m => is_policy_match m && has_decision Allow m)
      (matches_for_command_with_options policy cmd None true)) cmds.

(** [None] is the panic of an evaluation without matches. *)
Definition create_exec_approval_requirement_for_command (policy : Policy P) (req : ExecApprovalRequest)
  : option ExecApprovalRequirement :=
  let auto_amendment_allowed := negb (used_complex_parsing (request_commands req)) in
  let! e := evaluate_request policy req in
  Some match decision e with
       | Forbidden =>
           ForbiddenReq (derive_forbidden_reason (command req) e (dangerous_command_match_for_heuristics e Forbidden))
       | Prompt =>
           let prompt_is_rule := existsb (fun m => is_policy_match m && has_decision Prompt m) (matched_rules e) in
           match prompt_is_rejected_by_policy (approval_policy req) prompt_is_rule with
           | Some reason =>
               if prompt_is_rule then ForbiddenReq reason
               else ForbiddenReq
                      (derive_rejected_prompt_reason reason (dangerous_command_match_for_heuristics e Prompt))
           | None =>
               NeedsApproval (derive_prompt_reason (command req) e)
                 (match requested_amendment policy req e with
                  | Some a => Some a
                  | None =>
                      if auto_amendment_allowed
                      then try_derive_execpolicy_amendment_for_prompt_rules (matched_rules e) else None
                  end)
           end
       | Allow =>
           Skip (bypasses_sandbox policy (commands (request_commands req)))
             (if auto_amendment_allowed then try_derive_execpolicy_amendment_for_allow_rules (matched_rules e)
              else None)
       end.
End Requirement.
Arguments ExecApprovalRequest E Net : clear implicits.

(** ** Remembering an approval *)

Inductive ExecPolicyUpdateError : Type :=
| AppendRule (path : str) (source : AmendError)
| JoinBlockingTask (source : str)
| AddRule (source : policy_error).

Definition RULES_DIR_NAME : str := lit "rules".
Definition RULE_EXTENSION : str := lit "rules".
Definition DEFAULT_POLICY_FILE : str := lit "default.rules".

Definition default_policy_path (codex_home : str) : str :=
  std_path_join (std_path_join codex_home RULES_DIR_NAME) DEFAULT_POLICY_FILE.

(** [tokio::task::spawn_blocking], awaited: the task's result, or an error when
    the task did not finish. *)
Class BlockingTasks (W : Type) : Type := {
  spawn_blocking : act W unit AmendError -> W -> W * result (result unit AmendError) str;
}.
Class BlockingTasksLaws (W : Type) `{BlockingTasks W} : Prop := {
  spawn_blocking_runs task w w' r : spawn_blocking task w = (w', Ok r) -> task w = (w', r);
}.

Section Manager.
Context {P W : Type} `{EqDecision P, AbsPathOps P, PolicyFiles W, BlockingTasks W} {Std : UnicodeStd}.

(** The manager's state is the policy it holds; [update_lock] admits one update
    at a time, so an update sees no other between its steps. *)
Definition in_blocking_task (policy_path : str) (task : act W unit AmendError)
  : act (W * Policy P) unit ExecPolicyUpdateError :=
  fun s =>
    match spawn_blocking task s.1 with
    | (w, Err source) => ((w, s.2), Err (JoinBlockingTask source))
    | (w, Ok (Err source)) => ((w, s.2), Err (AppendRule policy_path source))
    | (w, Ok (Ok _)) => ((w, s.2), Ok tt)
    end.

Definition store_policy (r : result (Policy P) policy_error) : act (W * Policy P) unit ExecPolicyUpdateError :=
  fun s =>
    match r with
    | Ok policy => ((s.1, policy), Ok tt)
    | Err source => (s, Err (AddRule source))
    end.

Definition already_allowed (policy : Policy P) (cmd : list str) : bool :=
  match check_multiple_with_options policy [cmd] (fun _ => Forbidden) true with
  | Some e =>
      bool_decide (decision e = Allow)
      && existsb (fun m => is_policy_match m && has_decision Allow m) (matched_rules e)
  | None => false
  end.

Definition append_amendment_and_update (codex_home : str) (a : ExecPolicyAmendment)
  : act (W * Policy P) unit ExecPolicyUpdateError :=
  let policy_path := default_policy_path codex_home in
  do? _ := in_blocking_task policy_path (blocking_append_allow_prefix_rule policy_path (amendment_command a)) in
  fun s =>
    if already_allowed s.2 (amendment_command a) then (s, Ok tt)
    else store_policy (add_prefix_rule (amendment_command a) Allow s.2) s.

Definition append_network_rule_and_update (codex_home host : str) (protocol : NetworkRuleProtocol)
  (decision : Decision) (justification : option str) : act (W * Policy P) unit ExecPolicyUpdateError :=
  let policy_path := default_policy_path codex_home in
  do? _ := in_blocking_task policy_path
             (blocking_append_network_rule policy_path host protocol decision justification) in
  fun s => store_policy (add_network_rule host protocol decision justification s.2) s.
End Manager.

(** ** Loading the policy *)

Inductive ExecPolicyError : Type :=
| ReadDir (dir : str) (source : io_error)
| ReadFile (path : str) (source : io_error)
| ParsePolicy (path : str) (source : str).

Inductive ConfigLayerSource : Type :=
| Mdm (domain key : str)
| System (file : str)
| EnterpriseManaged (id name : str)
| User (file : str) (profile : option str)
| Project (dot_codex_folder : str)
| SessionFlags
| LegacyManagedConfigTomlFromFile (file : str)
| LegacyManagedConfigTomlFromMdm.

Definition is_user_or_project (source : ConfigLayerSource) : bool :=
  match source with User _ _ | Project _ => true | _ => false end.

(** [Path::extension]. *)
Definition extension (p : str) : option str :=
  let! name := file_name p in
  match rsplit_once ShellScript.DOT name with
  | Some (before, after) => if is_empty before then None else Some after
  | None => None
  end.

(** [Ord] of paths: the components in order. *)
Fixpoint components_le (a b : list str) : bool :=
  match a, b with
  | [], _ => true
  | _, [] => false
  | x :: a', y :: b' =>
      match str_compare x y with Lt => true | Gt => false | Eq => components_le a' b' end
  end.
Definition path_le (a b : str) : bool := components_le (components a) (components b).

(** What is read of the file system while loading: [Path::parent], the entries of
    a directory with whether they are files, the text of a file. *)
Class RuleFiles : Type := {
  path_parent : str -> option str;
  read_dir : str -> result (list (result (str * result bool io_error) io_error)) io_error;
  read_rules : str -> result str io_error;
}.

(** [PolicyParser]: it evaluates Starlark; [parse_rules] adds a file to what was
    parsed so far. *)
Class PolicyParser (P PS : Type) : Type := {
  new_parser : PS;
  parse_rules : PS -> str -> str -> result PS str;
  build_policy : PS -> Policy P;
}.

Section Load.
Context {P PS : Type} `{EqDecision P, AbsPathOps P, RuleFiles, PolicyParser P PS}.

(** [config_layer_stack]: the enabled layers from low to high, whether rules of
    the user and the project are ignored, and the policy of the requirements. *)
Record ConfigLayerStack : Type := mkStack {
  layers_low_to_high : list ConfigLayerSource;
  ignore_user_and_project_exec_policy_rules : bool;
  requirements_exec_policy : option (Policy P);
}.

Definition config_folder (source : ConfigLayerSource) : option str :=
  match source with
  | System file | User file _ => path_parent file
  | Project dot_codex_folder => Some dot_codex_folder
  | _ => None
  end.

(** The loop over the entries of a directory. *)
Fixpoint rule_entries (dir : str) (l : list (result (str * result bool io_error) io_error))
  : result (list str) ExecPolicyError :=
  match l with
  | [] => Ok []
  | entry :: l' =>
      let? e := map_err (ReadDir dir) entry in
      let? is_file := map_err (ReadDir dir) e.2 in
      let? paths := rule_entries dir l' in
      Ok (if bool_decide (extension e.1 = Some RULE_EXTENSION) && is_file then e.1 :: paths else paths)
  end.

Definition collect_policy_files (dir : str) : result (list str) ExecPolicyError :=
  match read_dir dir with
  | Err source => if bool_decide (PatchSyntax.kind source = NotFound) then Ok [] else Err (ReadDir dir source)
  | Ok l => let? paths := rule_entries dir l in Ok (stable_sort path_le paths)
  end.

(** The loop over the layers. *)
Fixpoint layer_policy_paths (ignore : bool) (layers : list ConfigLayerSource) : result (list str) ExecPolicyError :=
  match layers with
  | [] => Ok []
  | layer :: layers' =>
      if ignore && is_user_or_project layer then layer_policy_paths ignore layers'
      else
        match config_folder layer with
        | None => layer_policy_paths ignore layers'
        | Some folder =>
            let? paths := collect_policy_files (std_path_join folder RULES_DIR_NAME) in
            let? more := layer_policy_paths ignore layers' in
            Ok (paths ++ more)
        end
  end.

(** The loop over the files. *)
Fixpoint parse_policy_files (parser : PS) (paths : list str) : result PS ExecPolicyError :=
  match paths with
  | [] => Ok parser
  | path :: paths' =>
      let? contents := map_err (ReadFile path) (read_rules path) in
      let? parser := map_err (ParsePolicy path) (parse_rules parser path contents) in
      parse_policy_files parser paths'
  end.

Definition load_exec_policy (stack : ConfigLayerStack) : result (Policy P) ExecPolicyError :=
  let? policy_paths :=
    layer_policy_paths (ignore_user_and_project_exec_policy_rules stack) (layers_low_to_high stack) in
  let? parser := parse_policy_files new_parser policy_paths in
  let policy := build_policy parser in
  match requirements_exec_policy stack with
  | None => Ok policy
  | Some requirements_policy => Ok (merge_overlay policy requirements_policy)
  end.

Definition load_exec_policy_with_warning (stack : ConfigLayerStack)
  : result (Policy P * option ExecPolicyError) ExecPolicyError :=
  match load_exec_policy stack with
  | Ok policy => Ok (policy, None)
  | Err (ParsePolicy path source) =>
      Ok (default empty_policy (requirements_exec_policy stack), Some (ParsePolicy path source))
  | Err err => Err err
  end.
End Load.
Arguments ConfigLayerStack P : clear implicits.

(** ** Lemmas: the rules that match a command *)

Section Hits.
Context {P : Type} `{EqDecision P} {Abs : AbsPathOps P}.
Implicit Types (p : Policy P) (fb : list str -> Decision) (ms : list (RuleMatch P)).

(** The rules of a policy that match a command, with absolute programs resolved. *)
Definition rule_hits p (cmd : list str) : list (RuleMatch P) :=
  matches_for_command_with_options p cmd None true.

Lemma rule_hits_eq p cmd :
  rule_hits p cmd = match exact_matches p cmd with [] => match_host_executable_rules p cmd | ms => ms end.
Proof.
  unfold rule_hits, matches_for_command_with_options, match_exact_rules, exact_matches, rules_of, get_vec.
  destruct cmd as [|program cmd]; simpl; [done|].
  destruct (rules_by_program p !! program) as [rs|]; simpl;
    [destruct (omap (fun r => rule_matches r (program :: cmd)) rs); simpl; [|done]|];
    by destruct (match_host_executable_rules p (program :: cmd)) eqn:E; unfold match_host_executable_rules in E |- *;
      simpl in E |- *; rewrite E.
Qed.

Lemma matches_fallback p cmd fb :
  matches_for_command_with_options p cmd (Some fb) true
  = match rule_hits p cmd with [] => [HeuristicsRuleMatch cmd (fb cmd)] | ms => ms end.
Proof.
  unfold rule_hits, matches_for_command_with_options.
  destruct (match match_exact_rules p cmd with Some ms => non_empty ms | None => None end) as [[|m ms]|]; try done.
  by destruct (match_host_executable_rules p cmd).
Qed.

Lemma with_resolved_policy_match (m : RuleMatch P) prog :
  is_policy_match (with_resolved_program m prog) = is_policy_match m.
Proof. by destruct m. Qed.

Lemma rule_hits_policy_match p cmd m : m ∈ rule_hits p cmd -> is_policy_match m = true.
Proof.
  rewrite rule_hits_eq. intros Hm.
  assert (m ∈ exact_matches p cmd \/ m ∈ match_host_executable_rules p cmd) as [H1|H1]
    by (destruct (exact_matches p cmd); auto).
  - unfold exact_matches in H1. destruct cmd as [|program cmd]; [by apply elem_of_nil in H1|].
    apply list_elem_of_omap in H1 as (r & _ & (prefix & ->)%rule_matches_prefix_match). done.
  - unfold match_host_executable_rules in H1. destruct cmd as [|program cmd]; [by apply elem_of_nil in H1|].
    repeat (case_match; try by apply elem_of_nil in H1).
    all: apply list_elem_of_In, in_map_iff in H1 as (m' & <- & H1); rewrite with_resolved_policy_match;
      apply list_elem_of_In, list_elem_of_omap in H1 as (rr & _ & (prefix & ->)%rule_matches_prefix_match); done.
Qed.

Lemma from_matches_allow ms e :
  from_matches ms = Some e -> decision e = Allow <-> Forall (fun m => match_decision m = Allow) ms.
Proof.
  intros (_ & (m & Hm & Hd) & Hle)%from_matches_inv. rewrite Forall_forall. split.
  - intros He x Hx. specialize (Hle x Hx). rewrite He in Hle. by destruct (match_decision x); unfold decision_le in Hle; simpl in Hle; lia || done.
  - intros Hall. rewrite <- Hd. by apply Hall.
Qed.

Lemma from_matches_forbidden ms e :
  from_matches ms = Some e -> decision e = Forbidden <-> Exists (fun m => match_decision m = Forbidden) ms.
Proof.
  intros (_ & (m & Hm & Hd) & Hle)%from_matches_inv. rewrite Exists_exists. split.
  - intros He. exists m. split; [done | congruence].
  - intros (x & Hx & Hf). specialize (Hle x Hx). rewrite Hf in Hle.
    by destruct (decision e); unfold decision_le in Hle; simpl in Hle; lia || done.
Qed.

(** A rule that matches a command matches what extends it. *)
Lemma rule_matches_extends (r : PrefixRule) cmd tail (m : RuleMatch P) :
  rule_matches r cmd = Some m -> is_Some (rule_matches (P := P) r (cmd ++ tail)).
Proof.
  unfold rule_matches. intros (prefix & Hp & _)%fmap_Some.
  apply matches_prefix_spec in Hp as (toks & rest & -> & Ht & ->).
  assert (matches_prefix (pattern r) ((first (pattern r) :: toks ++ rest) ++ tail)
          = Some (first (pattern r) :: toks)) as ->; [|by eexists].
  apply matches_prefix_spec. exists toks, (rest ++ tail). simpl. by rewrite <- app_assoc.
Qed.

Lemma omap_nonempty {A B} (f : A -> option B) l : omap f l <> [] <-> exists x, x ∈ l /\ is_Some (f x).
Proof.
  split.
  - intros H. destruct (omap f l) as [|y ys] eqn:E; [done|].
    assert (y ∈ omap f l) as (x & Hx & Hf)%list_elem_of_omap by (rewrite E; set_solver). exists x. by split; [|eexists].
  - intros (x & Hx & [y Hy]) Hn. assert (y ∈ omap f l) as Hin by (apply list_elem_of_omap; by exists x).
    rewrite Hn in Hin. by apply elem_of_nil in Hin.
Qed.

Lemma exact_matches_extends p cmd tail :
  exact_matches p cmd <> [] -> exact_matches p (cmd ++ tail) <> [].
Proof.
  unfold exact_matches. destruct cmd as [|program cmd]; [done|]. cbn [app].
  rewrite !omap_nonempty. intros (r & Hr & [m Hm]). exists r. split; [done|].
  by apply (rule_matches_extends r (program :: cmd) tail m).
Qed.

(** The rules that match through the name of an absolute program: the name is one
    of the files declared for it, when any are. *)
Definition host_allowed p (prog : P) (name : str) : bool :=
  match host_executables_by_name p !! name with
  | Some paths => existsb (fun q => bool_decide (q = prog)) paths
  | None => true
  end.

Lemma host_matches_nonempty p program tail :
  match_host_executable_rules p (program :: tail) <> []
  <-> exists prog name, abs_try_from program = Some prog /\ abs_file_name prog = Some name
      /\ host_allowed p prog name = true /\ exact_matches p (name :: tail) <> [].
Proof.
  unfold match_host_executable_rules, host_allowed, executable_lookup_key, exact_matches, rules_of, get_vec.
  destruct (abs_try_from program) as [prog|]; [|naive_solver].
  destruct (abs_file_name prog) as [name|] eqn:Hn; simpl; [|naive_solver].
  destruct (rules_by_program p !! name) as [rs|] eqn:Hr; simpl.
  - destruct (host_executables_by_name p !! name) as [paths|] eqn:Hh.
    + destruct (existsb _ paths) eqn:He; simpl.
      * split.
        -- intros H. exists prog, name. rewrite Hh, Hr. simpl. repeat split; try done.
           by intros Hnil; apply H; rewrite Hnil.
        -- intros (? & ? & [= <-] & ? & _ & H). simplify_eq. rewrite Hr in H. simpl in H.
           intros Hm%map_eq_nil. done.
      * split; [done|]. intros (? & ? & [= <-] & ? & Hf & _). simplify_eq. rewrite Hh in Hf. congruence.
    + split.
      * intros H. exists prog, name. rewrite Hh, Hr. simpl. repeat split; try done.
        by intros Hnil; apply H; rewrite Hnil.
      * intros (? & ? & [= <-] & ? & _ & H). simplify_eq. rewrite Hr in H. simpl in H.
        intros Hm%map_eq_nil. done.
  - split; [done|]. intros (? & ? & [= <-] & ? & _ & H). simplify_eq. by rewrite Hr in H.
Qed.

Lemma rule_hits_nonempty p cmd :
  rule_hits p cmd <> [] <-> exact_matches p cmd <> [] \/ match_host_executable_rules p cmd <> [].
Proof. rewrite rule_hits_eq. destruct (exact_matches p cmd); naive_solver. Qed.
End Hits.

(** ** What runs without asking *)

Section Requirements.
Context {P E Net : Type} `{EqDecision P} {Abs : AbsPathOps P}.
Context (parse : str -> option Tree) (linux : bool).
Implicit Types (p : Policy P) (req : ExecApprovalRequest E Net).

Abbreviation parts req := (commands (request_commands parse req)).
Abbreviation complex req := (used_complex_parsing (request_commands parse req)).
Abbreviation fallback := (exec_policy_fallback parse linux).
Abbreviation dangerous := (dangerous_command_match parse).

(** A part no rule matches, when it runs unasked. *)
Inductive unmatched_unasked req (cmd : list str) : Prop :=
| unasked_known_safe :
    approval_policy req = UnlessTrusted -> is_known_safe_command parse linux cmd = true -> complex req = false ->
    unmatched_unasked req cmd
| unasked_never : approval_policy req = Never -> dangerous cmd = None -> unmatched_unasked req cmd
| unasked_sandboxed :
    approval_policy req = OnRequest \/ (exists config, approval_policy req = Granular config) ->
    dangerous cmd = None ->
    sandbox_kind (file_system_sandbox_policy (permission_profile req)) <> Restricted
    \/ sandbox_permissions req = UseDefault ->
    unmatched_unasked req cmd.

Definition allowed_by_rules p (cmd : list str) : Prop :=
  rule_hits p cmd <> [] /\ Forall (fun m => match_decision m = Allow) (rule_hits p cmd).

Definition part_unasked p req (cmd : list str) : Prop :=
  allowed_by_rules p cmd \/ (rule_hits p cmd = [] /\ unmatched_unasked req cmd).

Lemma fallback_allow req cmd : fallback req cmd = Allow <-> unmatched_unasked req cmd.
Proof.
  unfold exec_policy_fallback, render_decision_for_unmatched_command.
  destruct (is_known_safe_command parse linux cmd && negb (complex req)
            && match approval_policy req with UnlessTrusted => true | _ => false end) eqn:Hsafe.
  - split; [intros _|done]. apply andb_true_iff in Hsafe as [[Hk Hc%negb_true_iff]%andb_true_iff Ht].
    apply unasked_known_safe; try done. by destruct (approval_policy req).
  - assert (approval_policy req = UnlessTrusted -> is_known_safe_command parse linux cmd = true ->
            complex req = false -> False) as Hns.
    { intros Ha Hk Hc. rewrite Ha, Hk, Hc in Hsafe. done. }
    split.
    + destruct (dangerous cmd) eqn:Hd; [by destruct (approval_policy req)|].
      destruct (approval_policy req) eqn:Ha; try done; [| |by intros; apply unasked_never].
      all: destruct (sandbox_kind _) eqn:Hk; intros Hq;
        apply unasked_sandboxed; try done; try (by left); try (by right; eexists); try (left; congruence).
      all: right; destruct (sandbox_permissions req); done.
    + destruct 1 as [Ha Hk Hc|Ha Hd|Ha Hd Hs]; [by destruct Hns| |]; rewrite Hd.
      * by rewrite Ha.
      * destruct Ha as [-> | [config ->]]; destruct (sandbox_kind _) eqn:Hk; try done;
          destruct Hs as [Hs | ->]; done.
Qed.

Lemma parts_nonempty req : parts req <> [].
Proof. unfold request_commands, commands_for_exec_policy. repeat case_match; done. Qed.

Lemma evaluate_matches p req :
  exists e, evaluate_request parse linux p req = Some e
    /\ from_matches (parts req ≫= fun cmd =>
         match rule_hits p cmd with [] => [HeuristicsRuleMatch cmd (fallback req cmd)] | ms => ms end) = Some e.
Proof.
  unfold evaluate_request, check_multiple_with_options.
  assert ((parts req ≫= fun cmd => matches_for_command_with_options p cmd (Some (fallback req)) true)
          = (parts req ≫= fun cmd =>
               match rule_hits p cmd with [] => [HeuristicsRuleMatch cmd (fallback req cmd)] | ms => ms end)) as Heq.
  { apply list_bind_ext; [|done]. intros cmd. apply matches_fallback. }
  rewrite <- Heq. destruct (from_matches_total
    (parts req ≫= fun cmd => matches_for_command_with_options p cmd (Some (fallback req)) true)) as (e & He & _).
  - pose proof (parts_nonempty req) as Hne. destruct (parts req) as [|cmd cmds]; [done|]. simpl.
    intros [Hn _]%app_eq_nil. by apply matches_non_empty in Hn.
  - by exists e.
Qed.

(** A property of all the matches, part by part. *)
Lemma Forall_part_matches (Q : RuleMatch P -> Prop) p req :
  Forall Q (parts req ≫= fun cmd =>
    match rule_hits p cmd with [] => [HeuristicsRuleMatch cmd (fallback req cmd)] | ms => ms end)
  <-> Forall (fun cmd => (rule_hits p cmd <> [] /\ Forall Q (rule_hits p cmd))
                         \/ (rule_hits p cmd = [] /\ Q (HeuristicsRuleMatch cmd (fallback req cmd)))) (parts req).
Proof.
  induction (parts req) as [|cmd cmds IH]; [split; constructor|].
  cbn [mbind list_bind]. rewrite Forall_app, Forall_cons, IH.
  destruct (rule_hits p cmd) as [|m ms].
  - rewrite Forall_singleton. naive_solver.
  - naive_solver.
Qed.

Lemma evaluate_allow p req e :
  evaluate_request parse linux p req = Some e ->
  decision e = Allow <-> Forall (part_unasked p req) (parts req).
Proof.
  intros He. destruct (evaluate_matches p req) as (e' & He' & Hm). simplify_eq.
  rewrite (from_matches_allow _ _ Hm), Forall_part_matches. apply Forall_iff. intros cmd.
  unfold part_unasked, allowed_by_rules. cbn [match_decision]. by rewrite fallback_allow.
Qed.

Lemma bypass_allowed p cmd :
  existsb (fun m => is_policy_match m && has_decision Allow m) (rule_hits p cmd) = true
  <-> Exists (fun m => match_decision m = Allow) (rule_hits p cmd).
Proof.
  rewrite existsb_exists, Exists_exists. split; intros (m & Hm & Hd); exists m.
  - apply andb_true_iff in Hd as [_ Hd%bool_decide_eq_true]. split; [by apply list_elem_of_In | done].
  - split; [by apply list_elem_of_In|]. rewrite (rule_hits_policy_match _ _ _ Hm). by apply bool_decide_eq_true.
Qed.

Lemma bypasses_sandbox_iff p req :
  Forall (part_unasked p req) (parts req) ->
  bypasses_sandbox p (parts req) = true <-> Forall (allowed_by_rules p) (parts req).
Proof.
  intros Hall. unfold bypasses_sandbox. rewrite forallb_forall, !Forall_forall.
  rewrite Forall_forall in Hall. split; intros Hb cmd Hin.
  - destruct (Hall cmd Hin) as [?|[Hn _]]; [done|].
    apply list_elem_of_In, Hb in Hin. fold (rule_hits p cmd) in Hin. by rewrite Hn in Hin.
  - fold (rule_hits p cmd). apply bypass_allowed. apply list_elem_of_In in Hin.
    destruct (Hb cmd Hin) as [Hne Ha]. destruct (rule_hits p cmd); [done|].
    apply Exists_cons_hd. by apply Forall_cons_1 in Ha as [? _].
Qed.
End Requirements.

(** C4.  The requirement is always found, and a request runs without asking exactly
    when each of its parts may: every rule that matches the part allows it, or no
    rule matches and the heuristics let it run (a command known to be safe when
    only such are trusted; otherwise one not recognised as dangerous that asks
    for nothing beyond its sandbox). The sandbox is bypassed exactly when rules
    allow every part. *)
Theorem skip_exact {P E Net : Type} `{EqDecision P} {Abs : AbsPathOps P} parse shlex linux
    (p : Policy P) (req : ExecApprovalRequest E Net) :
  exists r, create_exec_approval_requirement_for_command parse shlex linux p req = Some r
  /\ ((exists b a, r = Skip b a)
      <-> Forall (part_unasked parse linux p req) (commands (request_commands parse req)))
  /\ ((exists a, r = Skip true a) <-> Forall (allowed_by_rules p) (commands (request_commands parse req))).
Proof.
  destruct (evaluate_matches parse linux p req) as (e & He & _).
  pose proof (evaluate_allow parse linux p req e He) as Hallow.
  unfold create_exec_approval_requirement_for_command. rewrite He. eexists. split; [reflexivity|].
  assert (Forall (allowed_by_rules p) (commands (request_commands parse req))
          -> Forall (part_unasked parse linux p req) (commands (request_commands parse req))) as Hweak.
  { intros Hr. eapply Forall_impl; [exact Hr|]. intros cmd Hc. by left. }
  destruct (decision e) eqn:Hd.
  - assert (Forall (part_unasked parse linux p req) (commands (request_commands parse req))) as Hall by by apply Hallow.
    split; [split; [done|]; intros _; by do 2 eexists|].
    rewrite <- (bypasses_sandbox_iff parse linux p req Hall). split; [by intros (a & [= ->])|].
    intros ->. by eexists.
  - assert (~ Forall (part_unasked parse linux p req) (commands (request_commands parse req))) as Hn
      by by rewrite <- Hallow.
    split; (split; [|intros; exfalso; auto]); intros Hex; repeat case_match; naive_solver.
  - assert (~ Forall (part_unasked parse linux p req) (commands (request_commands parse req))) as Hn
      by by rewrite <- Hallow.
    split; (split; [|intros; exfalso; auto]); naive_solver.
Qed.

(** A forced removal reached from a part of the request through up to eight
    wrappers never runs without consent, unless a rule matches the part: the
    request is refused, or the user is asked, and the user is asked only when
    the approval policy permits the prompt. *)
Theorem removal_needs_consent {P E Net : Type} `{EqDecision P} {Abs : AbsPathOps P} parse `{!BashGrammar parse}
    shlex linux (p : Policy P) (req : ExecApprovalRequest E Net) cmd c :
  cmd ∈ commands (request_commands parse req) -> rule_hits p cmd = [] -> lit "zsh" ∉ tail cmd ->
  bsteps (wraps parse) MAX_DANGEROUS_COMMAND_WRAPPER_DEPTH cmd c -> forced_rm c ->
  exists r, create_exec_approval_requirement_for_command parse shlex linux p req = Some r
  /\ ((exists reason, r = ForbiddenReq reason)
      \/ (approval_policy req <> Never
          /\ exists reason a is_rule, r = NeedsApproval reason a
             /\ prompt_is_rejected_by_policy (approval_policy req) is_rule = None)).
Proof.
  intros Hin Hhits Hz Hb Hf.
  destruct (depth_complete parse _ _ _ Hb Hf) as [m Hm].
  change (dangerous_command_match parse cmd = Some m) in Hm.
  destruct (evaluate_matches parse linux p req) as (e & He & _).
  assert (decision e <> Allow) as Hna.
  { intros Ha. apply (evaluate_allow parse linux p req e He) in Ha. rewrite Forall_forall in Ha.
    destruct (Ha cmd Hin) as [[Hne _]|[_ Hu]]; [done|].
    destruct Hu as [_ Hk _|_ Hd|_ Hd _]; try congruence.
    by rewrite (known_safe_not_dangerous linux cmd Hz Hk) in Hm. }
  unfold create_exec_approval_requirement_for_command. rewrite He. eexists. split; [reflexivity|].
  destruct (decision e); [done| |by left; eexists].
  destruct (prompt_is_rejected_by_policy (approval_policy req) _) as [reason|] eqn:Hr.
  - left. destruct (existsb _ _); by eexists.
  - right. split; [by intros Hn; rewrite Hn in Hr|]. do 3 eexists. split; [reflexivity | exact Hr].
Qed.

Module ApprovalDemo.
(** A parser that gives up, and a request to remove files. *)
Definition no_parse : str -> option Tree := fun _ => None.
#[export] Instance no_parse_grammar : BashGrammar no_parse.
Proof. by constructor. Qed.
Definition removal : list str := [lit "sudo"; lit "rm"; lit "-rf"; lit "x"].
Definition ask_for (policy : AskForApproval) (cmd : list str) (prefix : option (list str))
  : ExecApprovalRequest unit unit :=
  mkRequest cmd policy (Managed (ManagedRestricted [] None) tt) RequireEscalated prefix.
End ApprovalDemo.
Import ApprovalDemo PolicyDemo.

Lemma removal_needs_consent_witness :
  exists r, create_exec_approval_requirement_for_command no_parse (fun _ => None) true empty_policy
              (ask_for OnRequest removal None) = Some r
  /\ ((exists reason, r = ForbiddenReq reason)
      \/ (OnRequest <> Never
          /\ exists reason a is_rule, r = NeedsApproval reason a
             /\ prompt_is_rejected_by_policy OnRequest is_rule = None)).
Proof.
  apply (removal_needs_consent no_parse (fun _ => None) true empty_policy (ask_for OnRequest removal None)
           removal (tail removal)).
  - apply list_elem_of_singleton. reflexivity.
  - vm_compute. reflexivity.
  - rewrite <- (bool_decide_eq_true (_ ∉ _)). vm_compute. reflexivity.
  - eapply bsteps_l; [|apply bsteps_refl]. apply wraps_sudo. vm_compute. reflexivity.
  - exists (lit "rm"), [], (lit "-rf"), [lit "x"]. split; [reflexivity|]. split; [vm_compute; reflexivity|].
    split; [apply not_elem_of_nil|]. right. exists (lit "rf"). split; [reflexivity|].
    split; [vm_compute; discriminate|].
    apply (bool_decide_eq_true (_ ∈ _)). vm_compute. reflexivity.
Defined.

(** ** Approving a prefix *)

Section Approving.
Context {P E Net : Type} `{EqDecision P} {Abs : AbsPathOps P} {AbsLaws : AbsPathLaws P}.
Context (parse : str -> option Tree) (linux : bool).
Implicit Types (p : Policy P) (req : ExecApprovalRequest E Net).

Lemma check_one p cmd fb :
  check_with_options p cmd fb true
  = from_matches (match rule_hits p cmd with [] => [HeuristicsRuleMatch cmd (fb cmd)] | ms => ms end).
Proof. unfold check_with_options. by rewrite matches_fallback. Qed.

(** What the new rule can match: extensions of the prefix, written out or through
    the name of an absolute program. *)
Lemma added_rule_hits prefix p p' cmd :
  add_prefix_rule prefix Allow p = Ok p' -> rule_hits p cmd = [] -> rule_hits p' cmd <> [] ->
  (exists tail, cmd = prefix ++ tail)
  \/ exists program prog name tail, cmd = program :: tail /\ abs_try_from program = Some prog
     /\ abs_file_name prog = Some name /\ host_allowed p prog name = true
     /\ exists rest, name :: tail = prefix ++ rest.
Proof.
  intros Hadd Hno Hyes.
  assert (exact_matches p cmd = [] /\ match_host_executable_rules p cmd = []) as [Hex Hhost].
  { rewrite rule_hits_eq in Hno. by destruct (exact_matches p cmd). }
  assert (host_executables_by_name p' = host_executables_by_name p) as Hsame.
  { unfold add_prefix_rule in Hadd. destruct prefix; simplify_eq. done. }
  apply rule_hits_nonempty in Hyes as [Hyes|Hyes].
  - left. destruct (exact_matches_added _ _ _ _ cmd Hadd) as [_ Hmiss].
    destruct (decide (prefix `prefix_of` cmd)) as [[tail ->]|Hnp]; [by exists tail|].
    rewrite Hmiss in Hyes; [done|]. intros tail ->. apply Hnp. by exists tail.
  - right. destruct cmd as [|program tail]; [done|].
    apply host_matches_nonempty in Hyes as (prog & name & Hprog & Hname & Hal & Hm).
    exists program, prog, name, tail. split; [done|]. split; [done|]. split; [done|].
    unfold host_allowed in *. rewrite Hsame in Hal. split; [done|].
    destruct (exact_matches_added _ _ _ _ (name :: tail) Hadd) as [_ Hmiss].
    destruct (decide (prefix `prefix_of` (name :: tail))) as [[rest Hr]|Hnp]; [by exists rest|].
    exfalso. rewrite Hmiss in Hm.
    + assert (match_host_executable_rules p (program :: tail) <> []) as Hc; [|done].
      apply host_matches_nonempty. by exists prog, name.
    + intros rest Hr. apply Hnp. by exists rest.
Qed.

(** A rule that matches the prefix matches whatever the prefix would newly cover. *)
Lemma covered_prefix_covers prefix p p' cmd :
  head prefix <> Some (lit "~") ->
  add_prefix_rule prefix Allow p = Ok p' -> rule_hits p' cmd <> [] -> rule_hits p prefix <> [] ->
  rule_hits p cmd <> [].
Proof using AbsLaws.
  intros Htilde Hadd Hyes Hprefix Hno.
  destruct (added_rule_hits _ _ _ _ Hadd Hno Hyes) as
    [[tail ->]|(program & prog & name & tail & -> & Hprog & Hname & Hal & rest & Hr)];
    apply rule_hits_nonempty in Hprefix as [Hx|Hx]; revert Hno; apply rule_hits_nonempty.
  - left. by apply exact_matches_extends.
  - right. destruct prefix as [|f r]; [done|]. apply host_matches_nonempty in Hx as (prog & name & ? & ? & ? & Hm).
    apply host_matches_nonempty. exists prog, name. repeat split; try done.
    by apply (exact_matches_extends p (name :: r) tail).
  - right. apply host_matches_nonempty. exists prog, name. repeat split; try done.
    rewrite Hr. by apply exact_matches_extends.
  - destruct prefix as [|f r]; [done|]. simplify_eq/=.
    right. apply host_matches_nonempty in Hx as (prog' & name' & Habs & Hname' & _ & Hm).
    rewrite (file_name_resolves _ _ _ _ Hprog Hname ltac:(congruence) Habs) in Hname'. injection Hname' as <-.
    apply host_matches_nonempty. exists prog, f. repeat split; try done.
    by apply (exact_matches_extends p (f :: r) rest).
Qed.

Lemma already_allowed_hits p cmd : already_allowed p cmd = true -> rule_hits p cmd <> [].
Proof.
  unfold already_allowed, check_multiple_with_options. cbn [mbind list_bind]. rewrite app_nil_r, matches_fallback.
  destruct (rule_hits p cmd); [|done]. by vm_compute.
Qed.

Lemma would_approve prefix p cmds fb :
  prefix_rule_would_approve_all_commands p prefix cmds fb = true ->
  exists p', add_prefix_rule prefix Allow p = Ok p' /\
    Forall (fun cmd => allowed_by_rules p' cmd \/ (rule_hits p' cmd = [] /\ fb cmd = Allow)) cmds.
Proof.
  unfold prefix_rule_would_approve_all_commands. destruct (add_prefix_rule prefix Allow p) as [p'|]; [|done].
  rewrite forallb_forall. intros Hall. exists p'. split; [done|]. rewrite Forall_forall. intros cmd Hin.
  apply list_elem_of_In, Hall in Hin. rewrite check_one in Hin. unfold allowed_by_rules.
  destruct (from_matches _) as [e|] eqn:He; [|done]. apply bool_decide_eq_true in Hin.
  apply (from_matches_allow _ _ He) in Hin. destruct (rule_hits p' cmd) as [|m ms].
  - right. split; [done|]. by apply Forall_cons_1 in Hin as [? _].
  - left. done.
Qed.

Lemma no_policy_match p req e :
  evaluate_request parse linux p req = Some e -> existsb is_policy_match (matched_rules e) = false ->
  Forall (fun cmd => rule_hits p cmd = []) (commands (request_commands parse req)).
Proof.
  intros He Hno. destruct (evaluate_matches parse linux p req) as (e' & He' & Hm). simplify_eq.
  apply from_matches_inv in Hm as [Hm _]. rewrite Hm in Hno.
  apply negb_true_iff, existsb_Forall_false in Hno. rewrite Forall_part_matches in Hno.
  eapply Forall_impl; [exact Hno|]. intros cmd [[Hne Hall]|[? _]]; [|done].
  destruct (rule_hits p cmd) as [|m ms] eqn:Eh; [done|]. apply Forall_cons_1 in Hall as [Hf _].
  rewrite (rule_hits_policy_match p cmd m) in Hf; [done|]. rewrite Eh. apply list_elem_of_here.
Qed.

(** The amendment a request asks for: what was checked about it. *)
Lemma requested_amendment_inv p req e a :
  requested_amendment parse linux p req e = Some a ->
  prefix_rule req = Some (amendment_command a) /\ amendment_command a <> []
  /\ (amendment_command a ∉ BANNED_PREFIX_SUGGESTIONS)
  /\ existsb is_policy_match (matched_rules e) = false
  /\ prefix_rule_would_approve_all_commands p (amendment_command a) (commands (request_commands parse req))
       (exec_policy_fallback parse linux req) = true.
Proof.
  unfold requested_amendment, derive_requested_execpolicy_amendment_from_prefix_rule.
  destruct (negb _); [|done]. destruct (prefix_rule req) as [prefix|]; [|done].
  destruct (match prefix with [] => true | _ => false end) eqn:H0; [done|].
  destruct (bool_decide_reflect (prefix ∈ BANNED_PREFIX_SUGGESTIONS)); [done|].
  destruct (existsb is_policy_match (matched_rules e)); [done|].
  destruct (prefix_rule_would_approve_all_commands _ _ _ _) eqn:Hw; intros; simplify_eq/=.
  repeat split; try done. by destruct prefix.
Qed.

(** When a request is asked about and the prefix would be enough, the prefix is not
    covered by the policy yet. *)
Lemma requested_not_covered p req e a :
  head (amendment_command a) <> Some (lit "~") ->
  evaluate_request parse linux p req = Some e -> decision e <> Allow ->
  requested_amendment parse linux p req e = Some a -> already_allowed p (amendment_command a) = false.
Proof using AbsLaws.
  intros Htilde He Hd Hreq. apply not_true_is_false. intros Hal%already_allowed_hits.
  apply requested_amendment_inv in Hreq as (_ & _ & _ & Hno & Hw).
  apply would_approve in Hw as (p' & Hadd & Hw). apply Hd.
  apply (evaluate_allow parse linux p req e He). rewrite Forall_forall in Hw |- *. intros cmd Hin.
  pose proof (no_policy_match p req e He Hno) as Hnone. rewrite Forall_forall in Hnone.
  destruct (Hw cmd Hin) as [[Hne _]|[_ Hf]].
  - by destruct (covered_prefix_covers _ _ _ cmd Htilde Hadd Hne Hal (Hnone cmd Hin)).
  - right. split; [by apply Hnone | by apply fallback_allow].
Qed.

(** With the prefix added, the request is let through. *)
Lemma requested_lets_through p p' req a e :
  requested_amendment parse linux p req e = Some a -> add_prefix_rule (amendment_command a) Allow p = Ok p' ->
  Forall (part_unasked parse linux p' req) (commands (request_commands parse req)).
Proof.
  intros (_ & _ & _ & _ & Hw)%requested_amendment_inv Hadd.
  apply would_approve in Hw as (p'' & Hadd' & Hw). rewrite Hadd in Hadd'. injection Hadd' as <-.
  eapply Forall_impl; [exact Hw|]. intros cmd [?|[? ?]]; [by left | right]. by rewrite <- fallback_allow.
Qed.
End Approving.

(** C20.  An approved prefix is not asked about again: when a request needs an
    approval and the prefix it proposes passes the checks and does not begin with
    [~], that prefix is the amendment offered; once it is remembered without an
    error, the policy file under the user's folder holds the rule's line after
    what it held when it was locked, and the same request runs without asking. *)
Theorem approved_prefix_not_asked_again {P E Net W : Type} `{EqDecision P} {Abs : AbsPathOps P}
    {AbsLaws : AbsPathLaws P} `{PolicyFiles W, !BlockingTasks W, !BlockingTasksLaws W}
    (view : W -> str -> option str) {Files : PolicyFilesLaws view}
    parse shlex linux (p p' : Policy P) (req : ExecApprovalRequest E Net) e a reason offered home (w w' : W) :
  create_exec_approval_requirement_for_command parse shlex linux p req = Some (NeedsApproval reason offered) ->
  evaluate_request parse linux p req = Some e -> requested_amendment parse linux p req e = Some a ->
  head (amendment_command a) <> Some (lit "~") ->
  append_amendment_and_update home a (w, p) = ((w', p'), Ok tt) ->
  offered = Some a
  /\ (exists tokens before after, json_strings (amendment_command a) = Ok tokens
      /\ view w' (default_policy_path home) = Some after /\ before `prefix_of` after
      /\ prefix_rule_line tokens ∈ lines after
      /\ (last before <> Some CR -> lines after = add_absent (prefix_rule_line tokens) (lines before))
      /\ exists wl, view wl (default_policy_path home) = Some before
         /\ locked_text (create_dir w (default [] (parent (default_policy_path home)))).1 (default_policy_path home) wl)
  /\ exists b more, create_exec_approval_requirement_for_command parse shlex linux p' req = Some (Skip b more).
Proof.
  intros Hneeds He Hreq Htilde Hup. unfold append_amendment_and_update, in_blocking_task, bind in Hup. cbn [fst snd] in Hup.
  destruct (spawn_blocking _ w) as [w1 [[[]|]|]] eqn:Hspawn; cbn [fst snd] in Hup; [|done|done].
  apply spawn_blocking_runs in Hspawn.
  unfold create_exec_approval_requirement_for_command in Hneeds. rewrite He in Hneeds.
  assert (decision e <> Allow) as Hd by (intros Hd; by rewrite Hd in Hneeds).
  rewrite (requested_not_covered parse linux p req e a Htilde He Hd Hreq) in Hup.
  unfold store_policy in Hup. cbn [fst snd] in Hup.
  destruct (add_prefix_rule (amendment_command a) Allow p) as [q|] eqn:Hadd; [|done]. simplify_eq.
  split_and!.
  - destruct (decision e); try done. rewrite Hreq in Hneeds.
    destruct (prompt_is_rejected_by_policy _ _); [by destruct (existsb _ _) in Hneeds | congruence].
  - apply (append_prefix_rule_exact view) in Hspawn as (_ & tokens & Ht & dir & wd & wl & c & c' & Hdir & <- & Hl & Hc & Hc' & _ & Hpre & Hin & Hls & _).
    exists tokens, c, c'. split_and!; try done. exists wl. by rewrite Hdir.
  - pose proof (requested_lets_through parse linux p p' req a e Hreq Hadd) as Hall.
    destruct (evaluate_matches parse linux p' req) as (e' & He' & _).
    apply (evaluate_allow parse linux p' req e' He') in Hall.
    unfold create_exec_approval_requirement_for_command. rewrite He', Hall. by do 2 eexists.
Qed.

Module UpdateDemo.
#[export] Instance demo_tasks {W} : BlockingTasks W := {|
  spawn_blocking task w := let '(w', r) := task w in (w', Ok r);
|}.
#[export] Instance demo_tasks_laws {W} : BlockingTasksLaws W.
Proof. constructor. intros task w w' r. simpl. by destruct (task w) as [w1 r1]; intros [= -> ->]. Qed.

Definition no_rules : Policy AbsolutePathBuf := empty_policy.
Definition install : ExecApprovalRequest unit unit :=
  ask_for UnlessTrusted [lit "npm"; lit "install"; lit "left-pad"] (Some [lit "npm"; lit "install"]).
Definition installing : ExecPolicyAmendment := mkAmendment [lit "npm"; lit "install"].
End UpdateDemo.
Import UpdateDemo AmendDemo.

Lemma approved_prefix_not_asked_again_witness :
  exists p', (append_amendment_and_update (lit "/h") installing (mkDisk None 1000, no_rules)).1.2 = p'
  /\ exists b more, create_exec_approval_requirement_for_command no_parse (fun _ => None) true p' install
                    = Some (Skip b more).
Proof.
  destruct (evaluate_request no_parse true no_rules install) as [e|] eqn:He;
    [|vm_compute in He; discriminate He].
  destruct (create_exec_approval_requirement_for_command no_parse (fun _ => None) true no_rules install)
    as [[]|] eqn:Hc; try (vm_compute in Hc; discriminate Hc).
  destruct (append_amendment_and_update (lit "/h") installing (mkDisk None 1000, no_rules))
    as [[w' p'] r] eqn:Hu.
  assert (r = Ok tt) as -> by (vm_compute in Hu; by injection Hu as _ _ <-).
  exists p'. split; [reflexivity|].
  refine (proj2 (proj2 (approved_prefix_not_asked_again disk_view no_parse (fun _ => None) true no_rules p' install e
            installing _ _ (lit "/h") (mkDisk None 1000) w' Hc He _ _ Hu))); [|discriminate].
  vm_compute in He. injection He as <-. vm_compute. reflexivity.
Defined.

(** ** The requirements *)

Section Enforced.
Context {P PS E Net : Type} `{EqDecision P} {Abs : AbsPathOps P} `{RuleFiles, !PolicyParser P PS}.

Lemma loaded_policy (stack : ConfigLayerStack P) policy warning requirements :
  load_exec_policy_with_warning stack = Ok (policy, warning) ->
  requirements_exec_policy stack = Some requirements ->
  policy = requirements \/ exists base, policy = merge_overlay base requirements.
Proof.
  unfold load_exec_policy_with_warning, load_exec_policy. intros Hl Hr. rewrite Hr in Hl. cbn [default from_option] in Hl.
  destruct (layer_policy_paths _ _) as [paths|err]; [|by destruct err; simplify_eq; left].
  destruct (parse_policy_files new_parser paths) as [parser|err]; [|by destruct err; simplify_eq; left].
  simplify_eq. right. by eexists.
Qed.

Lemma loaded_exact_matches (stack : ConfigLayerStack P) policy warning requirements cmd :
  load_exec_policy_with_warning stack = Ok (policy, warning) ->
  requirements_exec_policy stack = Some requirements ->
  exact_matches requirements cmd ⊆ exact_matches policy cmd.
Proof.
  intros Hl Hr. destruct (loaded_policy _ _ _ _ Hl Hr) as [-> | [base ->]]; [done|].
  rewrite exact_matches_merge. set_solver.
Qed.
End Enforced.

(** C33.  The requirements hold whatever the other rule files say, also when one of
    them does not parse: a part that starts with words a rule of the requirements
    forbids is refused, and one a rule prompts for does not run without asking.
    This is for rules on the program as the command writes it: a rule that matches
    [/bin/rm] by its file name only is passed over for the other files' rules on
    [/bin/rm] itself. *)
Theorem requirements_enforced {P PS E Net : Type} `{EqDecision P} {Abs : AbsPathOps P}
    `{RuleFiles, !PolicyParser P PS} (stack : ConfigLayerStack P) policy warning requirements
    parse shlex linux (req : ExecApprovalRequest E Net) program args rules r prefix :
  load_exec_policy_with_warning stack = Ok (policy, warning) ->
  requirements_exec_policy stack = Some requirements ->
  (program :: args) ∈ commands (request_commands parse req) ->
  rules_by_program requirements !! program = Some rules -> r ∈ rules ->
  matches_prefix (pattern r) (program :: args) = Some prefix ->
  exists q, create_exec_approval_requirement_for_command parse shlex linux policy req = Some q
  /\ (rule_decision r = Forbidden -> exists reason, q = ForbiddenReq reason)
  /\ (rule_decision r = Prompt -> forall b a, q <> Skip b a).
Proof.
  intros Hl Hr Hin Hrules Hrin Hprefix. set (cmd := program :: args) in *.
  set (m := @PrefixRuleMatch P prefix (rule_decision r) None (justification r)).
  assert (m ∈ exact_matches requirements cmd) as Hx.
  { unfold exact_matches, cmd, rules_of. rewrite Hrules. apply list_elem_of_omap. exists r. split; [done|].
    unfold rule_matches. fold cmd. by rewrite Hprefix. }
  change (rule_decision r) with (match_decision m). clearbody m.
  apply (loaded_exact_matches _ _ _ _ _ Hl Hr) in Hx.
  assert (m ∈ rule_hits policy cmd) as Hp.
  { rewrite rule_hits_eq. by destruct (exact_matches policy cmd); [apply elem_of_nil in Hx|]. }
  destruct (evaluate_matches parse linux policy req) as (e & He & Hms).
  apply from_matches_inv in Hms as (_ & _ & Hle).
  assert (decision_le (match_decision m) (decision e)) as Hd.
  { apply Hle. apply list_elem_of_bind. exists cmd. split; [|done].
    by destruct (rule_hits policy cmd); [apply elem_of_nil in Hp|]. }
  unfold create_exec_approval_requirement_for_command. rewrite He. eexists. split; [reflexivity|].
  unfold decision_le in Hd. split; intros Hdm; rewrite Hdm in Hd.
  - destruct (decision e); simpl in Hd; try lia. by eexists.
  - intros b a. destruct (decision e); simpl in Hd; try lia; repeat case_match; congruence.
Qed.

Module RequirementsDemo.
(** One rule file in the user's folder, which allows one program. *)
Definition user_folder (allowed : str) : RuleFiles := {|
  path_parent _ := Some (lit "/h");
  read_dir dir := Ok [Ok (std_path_join dir (lit "default.rules"), Ok true);
                      Ok (std_path_join dir (lit "notes.txt"), Ok true)];
  read_rules _ := Ok allowed;
|}.
#[export] Instance one_program : PolicyParser AbsolutePathBuf (Policy AbsolutePathBuf) := {|
  new_parser := empty_policy;
  parse_rules policy _ contents := map_err (fun _ => lit "empty") (add_prefix_rule [contents] Allow policy);
  build_policy policy := policy;
|}.
Definition no_rm : Policy AbsolutePathBuf := default empty_policy (result_ok (add_prefix_rule [lit "rm"] Forbidden empty_policy)).
Definition forbid_rm : PrefixRule := mkPrefixRule (mkPattern (lit "rm") []) Forbidden None.
Definition stack : ConfigLayerStack AbsolutePathBuf := mkStack [User (lit "/h/config.toml") None; SessionFlags] false (Some no_rm).
Definition loaded (allowed : str) : Policy AbsolutePathBuf :=
  match load_exec_policy_with_warning (H0 := user_folder allowed) stack with
  | Ok (policy, _) => policy
  | Err _ => empty_policy
  end.
Definition remove (program : str) : ExecApprovalRequest unit unit := ask_for OnRequest [program; lit "-r"; lit "x"] None.
End RequirementsDemo.
Import RequirementsDemo.

Lemma requirements_enforced_witness :
  exists r, create_exec_approval_requirement_for_command no_parse (fun _ => None) true (loaded (lit "rm"))
              (remove (lit "rm")) = Some r
  /\ exists reason, r = ForbiddenReq reason.
Proof.
  destruct (load_exec_policy_with_warning (H0 := user_folder (lit "rm")) stack) as [[policy warning]|] eqn:Hl;
    [|vm_compute in Hl; discriminate Hl].
  assert (loaded (lit "rm") = policy) as -> by (unfold loaded; by rewrite Hl).
  destruct (requirements_enforced (H := user_folder (lit "rm")) stack policy warning no_rm no_parse (fun _ => None) true
              (remove (lit "rm")) (lit "rm") [lit "-r"; lit "x"] [forbid_rm] forbid_rm [lit "rm"])
    as (r & Hr & Hf & _).
  - exact Hl.
  - reflexivity.
  - apply list_elem_of_singleton. reflexivity.
  - vm_compute. reflexivity.
  - apply list_elem_of_singleton. reflexivity.
  - vm_compute. reflexivity.
  - exists r. split; [exact Hr|]. by apply Hf.
Defined.

(** With an absolute path it does not hold: a rule for the path itself hides the
    rule of the requirements for the program's name, and the command runs without
    asking and without a sandbox. *)
Lemma requirements_bypassed :
  create_exec_approval_requirement_for_command no_parse (fun _ => None) true no_rm (remove (lit "/bin/rm"))
  = Some (ForbiddenReq (lit "`/bin/rm -r x` rejected: policy forbids commands starting with `rm`"))
  /\ create_exec_approval_requirement_for_command no_parse (fun _ => None) true (loaded (lit "/bin/rm"))
       (remove (lit "/bin/rm")) = Some (Skip true None).
Proof. split; vm_compute; reflexivity. Qed.
