(* ===== verification/GitSafety.v ===== *)
(** * The branch gate in front of [apply_patch]

    Models [core/src/tools/git_safety.rs] and the functions of
    [git-utils/src/info.rs] it asks: repository root, current branch, default
    branch. *)

From Stdlib Require Import ZArith Lia.
From S2P Require Import Prelude RustStr PatchSyntax Semgrep.

(** ** Interface *)

(** An absolute directory as its components, innermost first: [PathBuf::pop]
    drops the head and fails on the root. *)
Definition dir_path : Type := list str.

(** What a bounded metadata query of git gives: whether it succeeded, and its
    output when that is UTF-8. *)
Record git_output : Type := mkGitOutput { success : bool; stdout : option str }.

(** The file system, git queries (which change nothing), [git checkout -b] with
    its success and its error output, and the clock in seconds. *)
Class GitHost (W : Type) : Type := {
  dir_is_dir : W -> dir_path -> bool;
  dot_git_exists : W -> dir_path -> bool;
  git_query : W -> list str -> dir_path -> option git_output;
  git_checkout_b : W -> str -> dir_path -> W * result (bool * str) io_error;
  unix_timestamp : W -> Z;
}.

Section GitSafety.
Context {W : Type} `{GitHost W}.

(** ** [git-utils] *)

Fixpoint find_ancestor_git_entry (w : W) (dir : dir_path) : option dir_path :=
  if dot_git_exists w dir then Some dir
  else match dir with [] => None | _ :: up => find_ancestor_git_entry w up end.

Definition get_git_repo_root (w : W) (base_dir : dir_path) : option dir_path :=
  let! base :=
    (if dir_is_dir w base_dir then Some base_dir
     else match base_dir with [] => None | _ :: up => Some up end) in
  find_ancestor_git_entry w base.

(** The output of a query that ran, succeeded and is text. *)
Definition query_text (w : W) (args : list str) (cwd : dir_path) : option str :=
  match git_query w args cwd with
  | Some out => if success out then stdout out else None
  | None => None
  end.

Definition current_branch_name (w : W) (cwd : dir_path) : option str :=
  let! text := query_text w [lit "branch"; lit "--show-current"] cwd in
  let name := trim text in
  if is_empty name then None else Some name.

Definition ORIGIN : str := Eval vm_compute in lit "origin".

(** [position] of the first [origin], [remove] and [insert] at the front. *)
Fixpoint remove_first (x : str) (l : list str) : option (list str) :=
  match l with
  | [] => None
  | y :: l' =>
      if bool_decide (y = x) then Some l'
      else match remove_first x l' with Some l'' => Some (y :: l'') | None => None end
  end.

Definition get_git_remotes (w : W) (cwd : dir_path) : option (list str) :=
  let! text := query_text w [lit "remote"] cwd in
  let remotes := lines text in
  Some (match remove_first ORIGIN remotes with
        | Some others => ORIGIN :: others
        | None => remotes
        end).

Definition HEAD_BRANCH : str := Eval vm_compute in lit "HEAD branch:".

Fixpoint head_branch_line (ls : list str) : option str :=
  match ls with
  | [] => None
  | l :: ls' =>
      match strip_prefix HEAD_BRANCH (trim l) with
      | Some rest =>
          let name := trim rest in
          if is_empty name then head_branch_line ls' else Some name
      | None => head_branch_line ls'
      end
  end.

Definition symref_branch (w : W) (cwd : dir_path) (remote : str) : option str :=
  let! sym := query_text w [lit "symbolic-ref"; lit "--quiet";
                            lit "refs/remotes/" ++ remote ++ lit "/HEAD"] cwd in
  let! (_, name) := rsplit_once 47%N (trim sym) in
  Some name.

Definition shown_branch (w : W) (cwd : dir_path) (remote : str) : option str :=
  let! text := query_text w [lit "remote"; lit "show"; remote] cwd in
  head_branch_line (lines text).

Fixpoint remote_default (w : W) (cwd : dir_path) (remotes : list str) : option str :=
  match remotes with
  | [] => None
  | remote :: remotes' =>
      match symref_branch w cwd remote with
      | Some name => Some name
      | None =>
          match shown_branch w cwd remote with
          | Some name => Some name
          | None => remote_default w cwd remotes'
          end
      end
  end.

Definition local_branch_exists (w : W) (cwd : dir_path) (candidate : str) : bool :=
  match git_query w [lit "rev-parse"; lit "--verify"; lit "--quiet";
                     lit "refs/heads/" ++ candidate] cwd with
  | Some out => success out
  | None => false
  end.

Definition MAIN : str := Eval vm_compute in lit "main".
Definition MASTER : str := Eval vm_compute in lit "master".

Definition get_default_branch_local (w : W) (cwd : dir_path) : option str :=
  List.find (local_branch_exists w cwd) [MAIN; MASTER].

Definition get_default_branch (w : W) (cwd : dir_path) : option str :=
  match remote_default w cwd (default [] (get_git_remotes w cwd)) with
  | Some name => Some name
  | None => get_default_branch_local w cwd
  end.

Definition default_branch_name (w : W) (cwd : dir_path) : option str := get_default_branch w cwd.

(** ** The gate *)

Definition is_protected_branch (w : W) (cwd : dir_path) (branch : str) : bool :=
  bool_decide (branch = MAIN) || bool_decide (branch = MASTER)
  || match default_branch_name w cwd with
     | Some default_branch => bool_decide (branch = default_branch)
     | None => false
     end.

Definition checkout_new_branch (branch : str) (cwd : dir_path) (w : W)
    : W * result unit io_error :=
  match git_checkout_b w branch cwd with
  | (w, Err e) => (w, Err e)
  | (w, Ok (ok, stderr)) =>
      (w, if ok then Ok tt else Err (mkIoError OtherKind (trim stderr)))
  end.

Definition no_repository_message : str :=
  lit "apply_patch 被拒绝：目标目录不是 git 仓库，没有版本控制就没有回滚安全网。请先执行 git init 并提交一次快照。".

Definition fix_branch (w : W) : str := lit "gloscope/fix-" ++ show_Z (unix_timestamp w).

Definition ensure_safe_branch_for_patch (cwd : dir_path) (w : W)
    : W * result unit FunctionCallError :=
  match get_git_repo_root w cwd with
  | None => (w, Err (RespondToModel no_repository_message))
  | Some _ =>
  match current_branch_name w cwd with
  | None => (w, Ok tt)
  | Some current_branch =>
      if negb (is_protected_branch w cwd current_branch) then (w, Ok tt)
      else
        let new_branch := fix_branch w in
        match checkout_new_branch new_branch cwd w with
        | (w, Ok _) => (w, Ok tt)
        | (w, Err err) =>
            (w, Err (RespondToModel (lit "apply_patch 被拒绝：当前在受保护分支 " ++ current_branch
                      ++ lit " 上，尝试自动切换到 " ++ new_branch ++ lit " 失败: "
                      ++ io_message err)))
        end
  end end.
End GitSafety.

(** ** Laws of git *)

(** After [git checkout -b] succeeded the new branch is the current one. *)
Class GitLaws (W : Type) `{GitHost W} : Prop := {
  checkout_b_current w branch cwd w' err :
    git_checkout_b w branch cwd = (w', Ok (true, err)) ->
    git_query w' [lit "branch"; lit "--show-current"] cwd
    = Some (mkGitOutput true (Some (branch ++ [LF])));
}.

Lemma rsplit_once_app c a b : c ∉ b -> rsplit_once c (a ++ c :: b) = Some (a, b).
Proof.
  intros Hb. unfold rsplit_once. rewrite rev_app_distr. simpl. rewrite <-app_assoc. simpl.
  assert (forall x y, c ∉ x -> split_once c (x ++ c :: y) = Some (x, y)) as Hs.
  { induction x as [|k x IH]; intros y Hx; simpl; [by rewrite N.eqb_refl|].
    apply not_elem_of_cons in Hx as [Hk Hx]. destruct (N.eqb_spec k c); [congruence|].
    by rewrite IH. }
  rewrite Hs; [by rewrite !rev_involutive|]. by rewrite list_elem_of_In, <-in_rev, <-list_elem_of_In.
Qed.



Section GateFacts.
Context {W : Type} `{GitHost W}.

Lemma fix_branch_head (w : W) : exists s, fix_branch w = 103%N :: s.
Proof. eexists. reflexivity. Qed.

Lemma fix_branch_unprotected (w : W) : fix_branch w <> MAIN /\ fix_branch w <> MASTER.
Proof. destruct (fix_branch_head w) as [s ->]. split; discriminate. Qed.


Context `{!GitLaws W}.





End GateFacts.

(** ** Default branches with a slash *)

Section Slash.
Context {W : Type} `{GitHost W}.

(** A default branch whose name contains a slash is not protected: git names it
    [refs/remotes/origin/a/b], the code takes [b] for the default branch, and
    the gate lets a patch pass on [a/b] without switching. *)
Theorem slash_default_unprotected cwd root (w : W) (a b cur remotes sym : str) :
  47%N ∉ b -> a <> [] ->
  get_git_repo_root w cwd = Some root ->
  query_text w [lit "branch"; lit "--show-current"] cwd = Some cur -> trim cur = a ++ 47%N :: b ->
  query_text w [lit "remote"] cwd = Some remotes -> lines remotes = [ORIGIN] ->
  query_text w [lit "symbolic-ref"; lit "--quiet"; lit "refs/remotes/origin/HEAD"] cwd = Some sym ->
  trim sym = lit "refs/remotes/origin/" ++ a ++ 47%N :: b ->
  default_branch_name w cwd = Some b /\
  ensure_safe_branch_for_patch cwd w = (w, Ok tt).
Proof.
  intros Hb Ha Hroot Hcur Htc Hrem Hlr Hsym Hts.
  assert (symref_branch w cwd ORIGIN = Some b) as Hs.
  { unfold symref_branch.
    replace (lit "refs/remotes/" ++ ORIGIN ++ lit "/HEAD") with (lit "refs/remotes/origin/HEAD")
      by reflexivity.
    rewrite Hsym, Hts, app_assoc, rsplit_once_app by done. done. }
  assert (default_branch_name w cwd = Some b) as Hd.
  { unfold default_branch_name, get_default_branch, get_git_remotes. rewrite Hrem, Hlr.
    replace (remove_first ORIGIN [ORIGIN]) with (Some (A := list str) []) by reflexivity.
    unfold id, from_option. cbn [remote_default]. by rewrite Hs. }
  split; [done|]. unfold ensure_safe_branch_for_patch, current_branch_name.
  rewrite Hroot, Hcur, Htc.
  assert (is_empty (a ++ 47%N :: b) = false) as -> by (by destruct a).
  assert (is_protected_branch w cwd (a ++ 47%N :: b) = false) as ->; [|done].
  assert (forall t : str, 47%N ∉ t -> a ++ 47%N :: b <> t) as Hne by (intros t Hn <-; set_solver).
  unfold is_protected_branch. rewrite Hd, !bool_decide_false; [done|..].
  - by apply Hne.
  - apply Hne. unfold MASTER. set_solver.
  - apply Hne. unfold MAIN. set_solver.
Qed.
End Slash.

(** ** A repository *)

Module GitDemo.
(** The state is the current branch; the remote's default is [release/1.0]. *)
#[export] Instance demo_git : GitHost str := {|
  dir_is_dir _ _ := true;
  dot_git_exists _ d := bool_decide (d = [lit "repo"]);
  git_query w args _ :=
    if bool_decide (args = [lit "branch"; lit "--show-current"])
    then Some (mkGitOutput true (Some (w ++ [LF])))
    else if bool_decide (args = [lit "remote"]) then Some (mkGitOutput true (Some ORIGIN))
    else if bool_decide (args = [lit "symbolic-ref"; lit "--quiet"; lit "refs/remotes/origin/HEAD"])
    then Some (mkGitOutput true (Some (lit "refs/remotes/origin/release/1.0")))
    else if bool_decide (take 3 args = [lit "rev-parse"; lit "--verify"; lit "--quiet"]) then Some (mkGitOutput true (Some (lit "c0ffee")))
    else None;
  git_checkout_b _ branch _ := (branch, Ok (true, []));
  unix_timestamp _ := 1700000000%Z;
|}.

#[export] Instance demo_git_laws : GitLaws str.
Proof. split. intros w branch cwd w' err. simpl. by intros [= <- <-]. Qed.

Definition cwd_ : dir_path := [lit "src"; lit "repo"].
End GitDemo.
Import GitDemo.


Lemma slash_default_unprotected_witness :
  ensure_safe_branch_for_patch cwd_ (lit "release/1.0") = (lit "release/1.0", Ok tt).
Proof.
  apply (slash_default_unprotected cwd_ [lit "repo"] (lit "release/1.0") (lit "release") (lit "1.0")
           (lit "release/1.0" ++ [LF]) ORIGIN (lit "refs/remotes/origin/release/1.0"));
    try (vm_compute; reflexivity).
  - apply (bool_decide_unpack _). vm_compute. exact I.
  - discriminate.
Defined.
