(* ===== verification/Permissions.v ===== *)
(** * File system permissions

    Models [protocol/src/permissions.rs] on Unix, with [SandboxPolicy] and
    [WritableRoot] of [protocol/src/protocol.rs]: the entries of a file system
    policy, what a path may be used for, the roots a sandbox is built from, the
    matcher of denied reads, and the conversion from and to the older policies.
    The file system is read through [FsHost] and does not change meanwhile; glob
    patterns are compiled by [GlobHost]. *)

From Stdlib Require Import Lia.
From S2P Require Import Prelude RustStr PatchSyntax AbsPath Profile.

(** ** Data *)

Inductive NetworkSandboxPolicy : Type := NetRestricted | NetEnabled.

Definition net_is_enabled (n : NetworkSandboxPolicy) : bool := match n with NetEnabled => true | NetRestricted => false end.

Inductive FileSystemAccessMode : Type := Read | Write | Deny.

#[export] Instance access_eq_dec : EqDecision FileSystemAccessMode.
Proof. solve_decision. Defined.

(** The derived order: [Read < Write < Deny]. *)
Definition access_rank (a : FileSystemAccessMode) : nat := match a with Read => 0 | Write => 1 | Deny => 2 end.

Definition can_read (a : FileSystemAccessMode) : bool := match a with Deny => false | _ => true end.
Definition can_write (a : FileSystemAccessMode) : bool := match a with Write => true | _ => false end.

Inductive FileSystemSpecialPath : Type :=
| Root
| Minimal
| ProjectRoots (subpath : option str)
| Tmpdir
| SlashTmp
| UnknownSpecial (special : str) (subpath : option str).

#[export] Instance special_eq_dec : EqDecision FileSystemSpecialPath.
Proof. solve_decision. Defined.

Inductive FileSystemPath : Type :=
| PathEntry (p : AbsolutePathBuf)
| GlobPattern (pattern : str)
| Special (value : FileSystemSpecialPath).

#[export] Instance fs_path_eq_dec : EqDecision FileSystemPath.
Proof. solve_decision. Defined.

Inductive MissingPathBehavior : Type := SkipMissing.

#[export] Instance missing_eq_dec : EqDecision MissingPathBehavior.
Proof. solve_decision. Defined.

Record FileSystemSandboxEntry : Type := mkEntry {
  entry_path : FileSystemPath;
  access : FileSystemAccessMode;
  missing_path_behavior : option MissingPathBehavior;
}.

#[export] Instance entry_eq_dec : EqDecision FileSystemSandboxEntry.
Proof. solve_decision. Defined.

Definition new_entry (p : FileSystemPath) (a : FileSystemAccessMode) : FileSystemSandboxEntry := mkEntry p a None.
Definition skip_missing_path (p : FileSystemPath) (a : FileSystemAccessMode) : FileSystemSandboxEntry :=
  mkEntry p a (Some SkipMissing).
Definition skips_missing_path (e : FileSystemSandboxEntry) : bool :=
  bool_decide (missing_path_behavior e = Some SkipMissing).

Abbreviation policy := (FileSystemSandboxPolicy FileSystemSandboxEntry).

Record ResolvedFileSystemEntry : Type := mkResolved { resolved_path : AbsolutePathBuf; resolved_access : FileSystemAccessMode }.

Record WritableRoot : Type := mkWritableRoot {
  root : AbsolutePathBuf;
  read_only_subpaths : list AbsolutePathBuf;
  protected_metadata_names : list str;
}.

#[export] Instance writable_root_eq_dec : EqDecision WritableRoot.
Proof. solve_decision. Defined.

Inductive NetworkAccess : Type := AccessRestricted | AccessEnabled.

Inductive SandboxPolicy : Type :=
| DangerFullAccess
| ReadOnly (network_access : bool)
| ExternalSandboxPolicy (network_access : NetworkAccess)
| WorkspaceWrite (writable_roots : list AbsolutePathBuf) (network_access exclude_tmpdir_env_var exclude_slash_tmp : bool).

(** ** The host *)

Class FsHost : Type := {
  tmpdir_var : option str;
  is_dir : path -> bool;
  is_file : path -> bool;
  path_exists : path -> bool;
  read_text : path -> result str io_error;
  (** whether a path that exists is a symbolic link *)
  symlink_metadata : path -> result bool io_error;
  fs_canonicalize : path -> result path io_error;
}.

(** A compiled pattern answers which paths it matches. *)
Class GlobHost : Type := { build_glob_matcher : str -> result (path -> bool) str }.

(** ** Names that stay protected *)

Definition PROTECTED_METADATA_GIT_PATH_NAME : str := Eval vm_compute in lit ".git".
Definition PROTECTED_METADATA_AGENTS_PATH_NAME : str := Eval vm_compute in lit ".agents".
Definition PROTECTED_METADATA_CODEX_PATH_NAME : str := Eval vm_compute in lit ".codex".
Definition PROTECTED_METADATA_PATH_NAMES : list str :=
  [PROTECTED_METADATA_GIT_PATH_NAME; PROTECTED_METADATA_AGENTS_PATH_NAME; PROTECTED_METADATA_CODEX_PATH_NAME].

Definition is_protected_metadata_name (name : str) : bool := existsb (fun n => bool_decide (name = n)) PROTECTED_METADATA_PATH_NAMES.

Definition metadata_path_name (name : str) : option str := find (fun n => bool_decide (name = n)) PROTECTED_METADATA_PATH_NAMES.

(** [WritableRoot::is_path_writable] *)
Definition path_contains_protected_metadata_name (w : WritableRoot) (p : path) : bool :=
  match path_strip_prefix (as_path (root w)) p with
  | Some (first_component :: _) =>
      existsb (fun name => bool_decide (as_os_str first_component = name)) (protected_metadata_names w)
  | _ => false
  end.

Definition is_path_writable (w : WritableRoot) (p : path) : bool :=
  if negb (path_starts_with p (as_path (root w))) then false
  else if existsb (fun subpath => path_starts_with p (as_path subpath)) (read_only_subpaths w) then false
  else negb (path_contains_protected_metadata_name w p).

(** ** Constructors *)

Definition restricted (entries : list FileSystemSandboxEntry) : policy := mkSandboxPolicy Restricted None entries.

Definition read_only_file_system_entries : list FileSystemSandboxEntry := [new_entry (Special Root) Read].
Definition read_only : policy := restricted read_only_file_system_entries.

Definition remove_skip_missing_path_entries (p : policy) : policy :=
  mkSandboxPolicy (sandbox_kind p) (glob_scan_max_depth p) (List.filter (fun e => negb (skips_missing_path e)) (entries p)).

Definition is_restricted (p : policy) : bool := bool_decide (sandbox_kind p = Restricted).

Definition has_root_access (p : policy) (predicate : FileSystemAccessMode -> bool) : bool :=
  is_restricted p
  && existsb (fun e => bool_decide (entry_path e = Special Root) && predicate (access e)) (entries p).

Definition has_denied_read_restrictions (p : policy) : bool :=
  is_restricted p && existsb (fun e => bool_decide (access e = Deny)) (entries p).

(** Adds the entries that are not there yet, in order. *)
Fixpoint push_absent (news es : list FileSystemSandboxEntry) : list FileSystemSandboxEntry :=
  match news with
  | [] => es
  | e :: news' => push_absent news' (if bool_decide (e ∈ es) then es else es ++ [e])
  end.

Definition deny_entries (p : policy) : list FileSystemSandboxEntry :=
  List.filter (fun e => bool_decide (access e = Deny)) (entries p).

Definition preserve_deny_read_restrictions_from (existing p : policy) : policy :=
  let has_deny_read_entries := existsb (fun e => bool_decide (access e = Deny)) (entries existing) in
  let p :=
    if bool_decide (sandbox_kind p = Unrestricted) && has_deny_read_entries
    then restricted [new_entry (Special Root) Write] else p in
  if negb (is_restricted p) then p
  else
    mkSandboxPolicy Restricted
      (match glob_scan_max_depth p with None => glob_scan_max_depth existing | depth => depth end)
      (push_absent (deny_entries existing) (entries p)).

(** ** Same targets *)

Definition special_paths_share_target (l r : FileSystemSpecialPath) : bool :=
  match l, r with
  | Root, Root | Minimal, Minimal | Tmpdir, Tmpdir | SlashTmp, SlashTmp => true
  | ProjectRoots l, ProjectRoots r => bool_decide (l = r)
  | UnknownSpecial l sub_l, UnknownSpecial r sub_r =>
      bool_decide (l = r) && bool_decide (sub_l = sub_r)
  | _, _ => false
  end.

Definition SLASH_TMP : path := [RootDir; Normal (lit "tmp")].

Definition special_path_matches_absolute_path (value : FileSystemSpecialPath) (p : AbsolutePathBuf) : bool :=
  match value with
  | Root => bool_decide (parent (as_path p) = None)
  | SlashTmp => bool_decide (as_path p = SLASH_TMP)
  | _ => false
  end.

Definition file_system_paths_share_target (l r : FileSystemPath) : bool :=
  match l, r with
  | PathEntry l, PathEntry r => bool_decide (l = r)
  | Special l, Special r => special_paths_share_target l r
  | PathEntry p, Special value | Special value, PathEntry p => special_path_matches_absolute_path value p
  | GlobPattern l, GlobPattern r => bool_decide (l = r)
  | GlobPattern _, _ | _, GlobPattern _ => false
  end.

Definition has_same_target_write_override (p : policy) (e : FileSystemSandboxEntry) : bool :=
  existsb (fun candidate =>
    can_write (access candidate) && (access_rank (access e) <? access_rank (access candidate))
    && file_system_paths_share_target (entry_path candidate) (entry_path e)) (entries p).

Definition write_narrowing_entry (p : policy) (e : FileSystemSandboxEntry) : bool :=
  if can_write (access e) then false
  else
    match entry_path e with
    | PathEntry _ => negb (has_same_target_write_override p e)
    | GlobPattern _ => true
    | Special Root => bool_decide (access e = Deny)
    | Special Minimal | Special (UnknownSpecial _ _) => false
    | Special _ => negb (has_same_target_write_override p e)
    end.

Definition has_write_narrowing_entries (p : policy) : bool :=
  is_restricted p && existsb (write_narrowing_entry p) (entries p).

Definition has_full_disk_read_access (p : policy) : bool :=
  match sandbox_kind p with
  | Unrestricted | ExternalSandbox => true
  | Restricted => has_root_access p can_read && negb (has_denied_read_restrictions p)
  end.

Definition has_full_disk_write_access (p : policy) : bool :=
  match sandbox_kind p with
  | Unrestricted | ExternalSandbox => true
  | Restricted => has_root_access p can_write && negb (has_write_narrowing_entries p)
  end.

Definition include_platform_defaults (p : policy) : bool :=
  negb (has_full_disk_read_access p) && is_restricted p
  && existsb (fun e => bool_decide (entry_path e = Special Minimal) && can_read (access e)) (entries p).

(** ** Default read-only entries *)

Definition append_default_read_only_entry_if_no_explicit_rule (es : list FileSystemSandboxEntry) (p : FileSystemPath)
  : list FileSystemSandboxEntry :=
  if existsb (fun e => file_system_paths_share_target (entry_path e) p) es then es
  else es ++ [skip_missing_path p Read].

Definition append_default_read_only_path_if_no_explicit_rule (es : list FileSystemSandboxEntry) (p : AbsolutePathBuf)
  : list FileSystemSandboxEntry :=
  append_default_read_only_entry_if_no_explicit_rule es (PathEntry p).

Definition append_default_read_only_project_root_subpath_if_no_explicit_rule
    (es : list FileSystemSandboxEntry) (subpath : str) : list FileSystemSandboxEntry :=
  append_default_read_only_entry_if_no_explicit_rule es (Special (ProjectRoots (Some subpath))).

(** ** Paths of entries *)

Section Host.
Context {PH : PathHost} {FH : FsHost}.

Definition cwd_absolute (cwd : path) : option AbsolutePathBuf := result_ok (from_absolute_path cwd).

Definition resolve_candidate_path (p cwd : path) : option AbsolutePathBuf :=
  if is_absolute p then result_ok (from_absolute_path p)
  else
    let! cwd := cwd_absolute cwd in
    Some (abs_join cwd p).

(** [None] where the code panics; never for the value of [cwd_absolute]. *)
Definition absolute_root_path_for_cwd (cwd : AbsolutePathBuf) : option AbsolutePathBuf :=
  let! r := last (ancestors (as_path cwd)) in
  result_ok (from_absolute_path r).

Definition resolve_file_system_special_path (value : FileSystemSpecialPath) (cwd : option AbsolutePathBuf)
  : option AbsolutePathBuf :=
  match value with
  | Root | Minimal | UnknownSpecial _ _ => None
  | ProjectRoots subpath =>
      let! cwd := cwd in
      match subpath with
      | Some subpath => Some (resolve_path_against_base (path_new subpath) (as_path cwd))
      | None => Some cwd
      end
  | Tmpdir =>
      let! tmpdir := tmpdir_var in
      if is_empty tmpdir then None else result_ok (from_absolute_path (path_new tmpdir))
  | SlashTmp =>
      let! slash_tmp := result_ok (from_absolute_path SLASH_TMP) in
      if negb (is_dir (as_path slash_tmp)) then None else Some slash_tmp
  end.

Definition resolve_file_system_path (p : FileSystemPath) (cwd : option AbsolutePathBuf) : option AbsolutePathBuf :=
  match p with
  | PathEntry p => Some p
  | GlobPattern _ => None
  | Special value => resolve_file_system_special_path value cwd
  end.

Definition resolve_entry_path (p : FileSystemPath) (cwd : option AbsolutePathBuf) : option AbsolutePathBuf :=
  match p with
  | Special Root =>
      let! cwd := cwd in
      absolute_root_path_for_cwd cwd
  | _ => resolve_file_system_path p cwd
  end.

Definition resolve_entry (cwd : option AbsolutePathBuf) (e : FileSystemSandboxEntry) : option ResolvedFileSystemEntry :=
  (fun p => mkResolved p (access e)) <$> resolve_entry_path (entry_path e) cwd.

Definition resolved_entries_with_cwd (p : policy) (cwd : path) : list ResolvedFileSystemEntry :=
  omap (resolve_entry (cwd_absolute cwd)) (entries p).

Definition has_explicit_non_write_entry_for_path_with_cwd (pol : policy) (p cwd : path) : bool :=
  match resolve_candidate_path p cwd with
  | None => false
  | Some target =>
      existsb (fun e => negb (skips_missing_path e) && negb (can_write (access e))
                        && bool_decide (resolve_entry_path (entry_path e) (cwd_absolute cwd) = Some target)) (entries pol)
  end.

(** ** Access to a path *)

(** [resolved_entry_precedence]: how specific, then the access. *)
Definition precedence_lt (a b : ResolvedFileSystemEntry) : bool :=
  let specificity e := length (as_path (resolved_path e)) in
  (specificity a <? specificity b)
  || (bool_decide (specificity a = specificity b) && (access_rank (resolved_access a) <? access_rank (resolved_access b))).

(** [Iterator::max_by_key]: the last of the largest. *)
Fixpoint max_by_precedence (es : list ResolvedFileSystemEntry) : option ResolvedFileSystemEntry :=
  match es with
  | [] => None
  | e :: es' =>
      match max_by_precedence es' with
      | Some m => if precedence_lt m e then Some e else Some m
      | None => Some e
      end
  end.

Definition covering_entries (pol : policy) (target : AbsolutePathBuf) (cwd : path) : list ResolvedFileSystemEntry :=
  List.filter (fun e => path_starts_with (as_path target) (as_path (resolved_path e))) (resolved_entries_with_cwd pol cwd).

Definition resolve_access_with_cwd (pol : policy) (p cwd : path) : FileSystemAccessMode :=
  match sandbox_kind pol with
  | Unrestricted | ExternalSandbox => Write
  | Restricted =>
      match resolve_candidate_path p cwd with
      | None => Deny
      | Some target =>
          match max_by_precedence (covering_entries pol target cwd) with
          | Some e => resolved_access e
          | None => Deny
          end
      end
  end.

Definition can_read_path_with_cwd (pol : policy) (p cwd : path) : bool := can_read (resolve_access_with_cwd pol p cwd).

Definition metadata_child_of_writable_root (pol : policy) (target cwd : path) : option (AbsolutePathBuf * str) :=
  find_map (fun e =>
    match path_strip_prefix (as_path (resolved_path e)) target with
    | Some (first_component :: _) =>
        let! metadata_name := metadata_path_name (as_os_str first_component) in
        Some (abs_join (resolved_path e) (path_new metadata_name), metadata_name)
    | _ => None
    end) (List.filter (fun e => can_write (resolved_access e)) (resolved_entries_with_cwd pol cwd)).

Definition has_explicit_write_entry_for_metadata_path
    (pol : policy) (protected_metadata_path : AbsolutePathBuf) (target cwd : path) : bool :=
  existsb (fun e =>
    can_write (resolved_access e) && path_starts_with target (as_path (resolved_path e))
    && path_starts_with (as_path (resolved_path e)) (as_path protected_metadata_path)) (resolved_entries_with_cwd pol cwd).

Definition is_metadata_write_denied (pol : policy) (p cwd : path) : bool :=
  if negb (is_restricted pol) then false
  else
    match resolve_candidate_path p cwd with
    | None => true
    | Some target =>
        match metadata_child_of_writable_root pol (as_path target) cwd with
        | None => false
        | Some (protected_metadata_path, _) =>
            negb (has_explicit_write_entry_for_metadata_path pol protected_metadata_path (as_path target) cwd)
        end
    end.

Definition can_write_path_with_cwd (pol : policy) (p cwd : path) : bool :=
  if negb (can_write (resolve_access_with_cwd pol p cwd)) then false
  else if has_full_disk_write_access pol then true
  else negb (is_metadata_write_denied pol p cwd).

(** Which protected name a write of the agent would touch. *)
Definition forbidden_agent_metadata_write (p cwd : path) (pol : policy) : option str :=
  if negb (is_restricted pol) then None
  else
    let! target := resolve_candidate_path p cwd in
    let! metadata := metadata_child_of_writable_root pol (as_path target) cwd in
    let '(protected_metadata_path, metadata_name) := metadata in
    if has_explicit_write_entry_for_metadata_path pol protected_metadata_path (as_path target) cwd then None
    else if negb (can_write_path_with_cwd pol (as_path target) cwd) then Some metadata_name
    else None.

(** ** Symbolic links *)

Definition should_preserve_logical_path (logical : path) : bool :=
  existsb (fun ancestor =>
    match symlink_metadata ancestor with
    | Err _ => false
    | Ok is_symlink => is_symlink && bool_decide (is_Some (parent ancestor ≫= parent))
    end) (ancestors logical).

Definition canonicalize_preserving_symlinks (p : path) : result path io_error :=
  let? logical := from_absolute_path p in
  match fs_canonicalize p with
  | Ok canonical =>
      if should_preserve_logical_path (as_path logical) && bool_decide (canonical <> as_path logical)
      then Ok (as_path logical) else Ok canonical
  | Err _ => Ok (as_path logical)
  end.

Definition canonicalize_existing_preserving_symlinks (p : path) : result path io_error :=
  let? logical := from_absolute_path p in
  let? canonical := fs_canonicalize p in
  if should_preserve_logical_path (as_path logical) && bool_decide (canonical <> as_path logical)
  then Ok (as_path logical) else Ok canonical.

Definition normalize_effective_absolute_path (a : AbsolutePathBuf) : AbsolutePathBuf :=
  let raw_path := as_path a in
  default a (find_map (fun ancestor =>
    if negb (is_ok (symlink_metadata ancestor)) then None
    else
      let! normalized_ancestor := result_ok (canonicalize_preserving_symlinks ancestor) in
      let! suffix := path_strip_prefix ancestor raw_path in
      result_ok (from_absolute_path (path_join normalized_ancestor suffix))) (ancestors raw_path)).

Fixpoint dedup_seen (seen : list AbsolutePathBuf) (ps : list AbsolutePathBuf) : list AbsolutePathBuf :=
  match ps with
  | [] => []
  | p :: ps' => if bool_decide (p ∈ seen) then dedup_seen seen ps' else p :: dedup_seen (p :: seen) ps'
  end.

Definition dedup_absolute_paths (ps : list AbsolutePathBuf) (normalize_effective_paths : bool) : list AbsolutePathBuf :=
  dedup_seen [] (if normalize_effective_paths then map normalize_effective_absolute_path ps else ps).

(** ** Roots *)

Definition is_git_pointer_file (p : AbsolutePathBuf) : bool :=
  is_file (as_path p) && bool_decide (file_name (as_path p) = Some PROTECTED_METADATA_GIT_PATH_NAME).

Definition COLON : N := 58.

Definition resolve_gitdir_from_file (dot_git : AbsolutePathBuf) : option AbsolutePathBuf :=
  let! contents := result_ok (read_text (as_path dot_git)) in
  let! parts := split_once COLON (trim contents) in
  let '(prefix, gitdir_raw) := parts in
  if negb (bool_decide (trim prefix = lit "gitdir")) then None
  else
    let gitdir_raw := trim gitdir_raw in
    if is_empty gitdir_raw then None
    else
      let! base := parent (as_path dot_git) in
      let gitdir_path := resolve_path_against_base (path_new gitdir_raw) base in
      if negb (path_exists (as_path gitdir_path)) then None else Some gitdir_path.

Definition default_read_only_subpaths_for_writable_root (writable_root : AbsolutePathBuf) (protect_missing_dot_codex : bool)
  : list AbsolutePathBuf :=
  let top_level_git := abs_join writable_root (path_new PROTECTED_METADATA_GIT_PATH_NAME) in
  let top_level_git_is_file := is_file (as_path top_level_git) in
  let git :=
    if is_dir (as_path top_level_git) || top_level_git_is_file
    then
      (if top_level_git_is_file && is_git_pointer_file top_level_git
       then option_list (resolve_gitdir_from_file top_level_git) else []) ++ [top_level_git]
    else [] in
  let top_level_agents := abs_join writable_root (path_new PROTECTED_METADATA_AGENTS_PATH_NAME) in
  let agents := if is_dir (as_path top_level_agents) then [top_level_agents] else [] in
  let top_level_codex := abs_join writable_root (path_new PROTECTED_METADATA_CODEX_PATH_NAME) in
  let codex := if protect_missing_dot_codex || is_dir (as_path top_level_codex) then [top_level_codex] else [] in
  dedup_absolute_paths (git ++ agents ++ codex) false.

Definition get_readable_roots_with_cwd (pol : policy) (cwd : path) : list AbsolutePathBuf :=
  if has_full_disk_read_access pol then []
  else
    dedup_absolute_paths
      (map resolved_path
        (List.filter (fun e => can_read_path_with_cwd pol (as_path (resolved_path e)) cwd)
          (List.filter (fun e => can_read (resolved_access e)) (resolved_entries_with_cwd pol cwd)))) true.

Definition protected_metadata_names_for_writable_root
    (pol : policy) (r : AbsolutePathBuf) (raw_writable_roots : list AbsolutePathBuf) (cwd : path) : list str :=
  List.filter (fun metadata_name =>
    forallb (fun metadata_path => negb (can_write_path_with_cwd pol (as_path metadata_path) cwd))
      (abs_join r (path_new metadata_name)
       :: map (fun raw_root => abs_join raw_root (path_new metadata_name)) raw_writable_roots))
    PROTECTED_METADATA_PATH_NAMES.

Definition has_explicit_resolved_path_entry (es : list ResolvedFileSystemEntry) (p : AbsolutePathBuf) : bool :=
  existsb (fun e => bool_decide (resolved_path e = p)) es.

(** Where a non-write entry is carved out of a writable root. *)
Definition carveout_path (r : AbsolutePathBuf) (raw_writable_roots : list AbsolutePathBuf) (p : AbsolutePathBuf)
  : option AbsolutePathBuf :=
  let effective_path := normalize_effective_absolute_path p in
  let raw_carveout_path :=
    if bool_decide (is_Some (parent (as_path r))) then
      if bool_decide (p = r) then None
      else if path_starts_with (as_path p) (as_path r) then Some p
      else
        find_map (fun raw_root =>
          let! suffix := path_strip_prefix (as_path raw_root) (as_path p) in
          match suffix with [] => None | _ => Some (abs_join r suffix) end) raw_writable_roots
    else None in
  match raw_carveout_path with
  | Some carveout => Some carveout
  | None =>
      if bool_decide (effective_path = r) || negb (path_starts_with (as_path effective_path) (as_path r)) then None
      else Some effective_path
  end.

Definition writable_entries (pol : policy) (cwd : path) : list AbsolutePathBuf :=
  map resolved_path
    (List.filter (fun e => can_write_path_with_cwd pol (as_path (resolved_path e)) cwd)
      (List.filter (fun e => can_write (resolved_access e)) (resolved_entries_with_cwd pol cwd))).

Definition writable_root_for (pol : policy) (cwd : path) (r : AbsolutePathBuf) : WritableRoot :=
  let resolved_entries := resolved_entries_with_cwd pol cwd in
  let raw_writable_roots :=
    List.filter (fun p => bool_decide (normalize_effective_absolute_path p = r)) (writable_entries pol cwd) in
  let protect_missing_dot_codex :=
    match cwd_absolute cwd with
    | Some cwd => bool_decide (normalize_effective_absolute_path cwd = r)
    | None => false
    end in
  let defaults :=
    List.filter (fun p => negb (has_explicit_resolved_path_entry resolved_entries p))
      (default_read_only_subpaths_for_writable_root r protect_missing_dot_codex) in
  let carveouts :=
    omap (fun e => carveout_path r raw_writable_roots (resolved_path e))
      (List.filter (fun e => negb (can_write_path_with_cwd pol (as_path (resolved_path e)) cwd))
        (List.filter (fun e => negb (can_write (resolved_access e))) resolved_entries)) in
  mkWritableRoot r (dedup_absolute_paths (defaults ++ carveouts) false)
    (protected_metadata_names_for_writable_root pol r raw_writable_roots cwd).

Definition get_writable_roots_with_cwd (pol : policy) (cwd : path) : list WritableRoot :=
  if has_full_disk_write_access pol then []
  else map (writable_root_for pol cwd) (dedup_absolute_paths (writable_entries pol cwd) true).

Definition get_unreadable_roots_with_cwd (pol : policy) (cwd : path) : list AbsolutePathBuf :=
  if negb (is_restricted pol) then []
  else
    let r := let! cwd := cwd_absolute cwd in absolute_root_path_for_cwd cwd in
    dedup_absolute_paths
      (map resolved_path
        (List.filter (fun e => negb (bool_decide (r = Some (resolved_path e))))
          (List.filter (fun e => negb (can_read_path_with_cwd pol (as_path (resolved_path e)) cwd))
            (List.filter (fun e => bool_decide (resolved_access e = Deny)) (resolved_entries_with_cwd pol cwd))))) true.
End Host.

(** ** Lemmas *)

(** *** The most specific entry *)

Definition specificity (e : ResolvedFileSystemEntry) : nat := length (as_path (resolved_path e)).

Lemma precedence_lt_true a b :
  precedence_lt a b = true <->
  specificity a < specificity b
  \/ (specificity a = specificity b /\ access_rank (resolved_access a) < access_rank (resolved_access b)).
Proof.
  unfold precedence_lt, specificity. rewrite orb_true_iff, andb_true_iff, bool_decide_eq_true, !Nat.ltb_lt. done.
Qed.

Lemma precedence_lt_false a b :
  precedence_lt a b = false <->
  specificity b < specificity a
  \/ (specificity b = specificity a /\ access_rank (resolved_access b) <= access_rank (resolved_access a)).
Proof.
  rewrite <-not_true_iff_false, precedence_lt_true. lia.
Qed.

Lemma max_by_precedence_Some es m :
  max_by_precedence es = Some m -> m ∈ es /\ forall e, e ∈ es -> precedence_lt m e = false.
Proof.
  revert m. induction es as [|x es IH]; intros m; simpl; [done|].
  destruct (max_by_precedence es) as [y|] eqn:Ey.
  - destruct (IH y eq_refl) as [Hin Hmax]. destruct (precedence_lt y x) eqn:Eyx; intros [= <-].
    + split; [apply list_elem_of_here|]. intros e [-> | He]%elem_of_cons; rewrite precedence_lt_false; [lia|].
      apply Hmax in He. rewrite precedence_lt_false in He. rewrite precedence_lt_true in Eyx. lia.
    + split; [by apply list_elem_of_further|]. intros e [-> | He]%elem_of_cons; [done | by apply Hmax].
  - intros [= <-]. split; [apply list_elem_of_here|]. destruct es as [|z es]; [|simpl in Ey; repeat case_match; done].
    intros e ->%list_elem_of_singleton. rewrite precedence_lt_false. lia.
Qed.

Lemma max_by_precedence_None es : max_by_precedence es = None <-> es = [].
Proof. destruct es as [|x es]; [done|]. simpl. repeat case_match; naive_solver. Qed.

(** Two prefixes of a path of the same length are the same. *)
Lemma prefixes_same (a b t : path) : a `prefix_of` t -> b `prefix_of` t -> length a = length b -> a = b.
Proof.
  intros [x ->] [y Hy] Hl. by apply app_inj_1 in Hy as [? _].
Qed.

Lemma prefixes_nested (a b t : path) : a `prefix_of` t -> b `prefix_of` t -> length a <= length b -> a `prefix_of` b.
Proof.
  intros Ha Hb Hl. destruct (prefix_weak_total a b t Ha Hb) as [?|Hba]; [done|].
  assert (length b <= length a) by by apply prefix_length. by rewrite (prefixes_same a b t) by (done || lia).
Qed.

Lemma filter_elem {A} (f : A -> bool) l x : x ∈ List.filter f l <-> x ∈ l /\ f x = true.
Proof. rewrite !list_elem_of_In. apply filter_In. Qed.

Lemma existsb_elem {A} (f : A -> bool) l : existsb f l = true <-> exists x, x ∈ l /\ f x = true.
Proof. rewrite existsb_exists. by setoid_rewrite list_elem_of_In. Qed.

Lemma existsb_elem_false {A} (f : A -> bool) l : existsb f l = false <-> forall x, x ∈ l -> f x = false.
Proof.
  rewrite <-not_true_iff_false, existsb_elem. split.
  - intros Hn x Hx. destruct (f x) eqn:E; [|done]. destruct Hn. eauto.
  - intros Hf (x & Hx & E). rewrite Hf in E by done. done.
Qed.

Section Access.
Context {PH : PathHost} {PHL : PathHostLaws} {FH : FsHost}.
Implicit Types (pol : policy) (cwd p : path) (target : AbsolutePathBuf) (e : ResolvedFileSystemEntry).

Definition covers e target : Prop := as_path (resolved_path e) `prefix_of` as_path target.

(** The entry that decides: the most specific of those above the target and, of
    several for one path, the one whose access takes precedence. *)
Definition governs pol cwd target e : Prop :=
  e ∈ resolved_entries_with_cwd pol cwd /\ covers e target /\
  forall e', e' ∈ resolved_entries_with_cwd pol cwd -> covers e' target ->
    specificity e' < specificity e
    \/ (resolved_path e' = resolved_path e /\ access_rank (resolved_access e') <= access_rank (resolved_access e)).

Lemma covering_elem pol target cwd e :
  e ∈ covering_entries pol target cwd <-> e ∈ resolved_entries_with_cwd pol cwd /\ covers e target.
Proof. unfold covering_entries. by rewrite filter_elem, path_starts_with_prefix. Qed.

Lemma max_governs pol target cwd e :
  max_by_precedence (covering_entries pol target cwd) = Some e -> governs pol cwd target e.
Proof.
  intros [Hin Hmax]%max_by_precedence_Some. apply covering_elem in Hin as [Hin Hc].
  split_and!; [done..|]. intros e' Hin' Hc'.
  specialize (Hmax e' (proj2 (covering_elem _ _ _ _) (conj Hin' Hc'))).
  apply precedence_lt_false in Hmax as [?|[Hs ?]]; [by left|]. right. split; [|done].
  destruct e' as [[q'] a'], e as [[q] a]. unfold covers, specificity in *. simpl in *. f_equal.
  by apply (prefixes_same _ _ (as_path target)).
Qed.

Lemma governs_access_unique pol target cwd e e' :
  governs pol cwd target e -> governs pol cwd target e' -> resolved_access e = resolved_access e'.
Proof.
  intros (Hin & Hc & Hmax) (Hin' & Hc' & Hmax').
  assert (access_rank (resolved_access e) = access_rank (resolved_access e')) as Hr.
  { destruct (Hmax e' Hin' Hc') as [?|[Hp ?]], (Hmax' e Hin Hc) as [?|[Hp' ?]]; unfold specificity in *;
      try rewrite Hp in *; try rewrite Hp' in *; lia. }
  by destruct (resolved_access e), (resolved_access e').
Qed.

Lemma resolve_access_cases pol cwd p target :
  sandbox_kind pol = Restricted -> resolve_candidate_path p cwd = Some target ->
  (exists e, governs pol cwd target e /\ resolve_access_with_cwd pol p cwd = resolved_access e) \/
  ((forall e, e ∈ resolved_entries_with_cwd pol cwd -> ~ covers e target) /\ resolve_access_with_cwd pol p cwd = Deny).
Proof.
  intros Hk Ht. unfold resolve_access_with_cwd. rewrite Hk, Ht.
  destruct (max_by_precedence (covering_entries pol target cwd)) as [m|] eqn:Em.
  - left. exists m. split; [by apply max_governs | done].
  - right. split; [|done]. intros e Hin Hc. apply max_by_precedence_None in Em.
    assert (e ∈ covering_entries pol target cwd) as He by by apply covering_elem.
    rewrite Em in He. by apply elem_of_nil in He.
Qed.

(** C8.  What a path may be used for under a restricted policy is decided by the most
    specific entry above it; of several entries for the same path, deny wins over
    write and write over read. Where no entry reaches, nothing is allowed. *)
Theorem access_most_specific pol cwd p target a :
  sandbox_kind pol = Restricted -> resolve_candidate_path p cwd = Some target ->
  resolve_access_with_cwd pol p cwd = a <->
  (exists e, governs pol cwd target e /\ resolved_access e = a) \/
  ((forall e, e ∈ resolved_entries_with_cwd pol cwd -> ~ covers e target) /\ a = Deny).
Proof.
  intros Hk Ht. destruct (resolve_access_cases pol cwd p target Hk Ht) as [(m & Hm & ->)|[Hno ->]]; split.
  - intros <-. left. by exists m.
  - intros [(e & He & <-)|[Hno _]]; [by apply (governs_access_unique pol target cwd)|].
    destruct Hm as (Hin & Hc & _). by destruct (Hno m Hin).
  - intros <-. by right.
  - intros [(e & (Hin & Hc & _) & _)|[_ ->]]; [by destruct (Hno e Hin) | done].
Qed.

(** *** Normal paths *)

(** The values of type [AbsolutePathBuf] in a policy are normal. *)
Definition wf_policy pol : Prop :=
  Forall (fun x => match entry_path x with PathEntry a => normal a | _ => True end) (entries pol).

Lemma cwd_absolute_normal cwd c : wf_path cwd -> cwd_absolute cwd = Some c -> normal c.
Proof.
  unfold cwd_absolute. intros Hw Hc. destruct (from_absolute_path cwd) as [a|] eqn:E; [|done]. injection Hc as <-.
  by apply (from_absolute_path_normal cwd).
Qed.

Lemma candidate_normal p cwd target :
  wf_path p -> wf_path cwd -> resolve_candidate_path p cwd = Some target -> normal target.
Proof.
  unfold resolve_candidate_path. intros Hp Hw Ht. destruct (is_absolute p).
  - destruct (from_absolute_path p) as [a|] eqn:E; [|done]. injection Ht as <-. by apply (from_absolute_path_normal p).
  - destruct (cwd_absolute cwd) as [c|] eqn:E; [|done]. injection Ht as <-.
    apply resolve_normal; [done | by apply (cwd_absolute_normal cwd)].
Qed.

Lemma candidate_id a cwd : normal a -> resolve_candidate_path (as_path a) cwd = Some a.
Proof.
  intros Ha. unfold resolve_candidate_path. rewrite normal_is_absolute by done.
  rewrite from_absolute_path_id by done. by destruct a.
Qed.

Lemma ancestors_fuel_root names n :
  length names < n -> last (ancestors_fuel n (RootDir :: map Normal names)) = Some [RootDir].
Proof.
  revert names. induction n as [|n IH]; intros names Hn; [lia|]. cbn [ancestors_fuel].
  destruct names as [|x names _] using rev_ind; [done|]. unfold parent.
  rewrite map_app. simpl map. rewrite app_comm_cons, last_snoc, removelast_snoc.
  rewrite length_app in Hn. simpl in Hn. rewrite last_cons, IH by lia. done.
Qed.

Lemma absolute_root_normal c : normal c -> absolute_root_path_for_cwd c = Some (mkAbs [RootDir]).
Proof.
  destruct c as [q]. intros (names & Hq & Hg). simpl in Hq. subst q. unfold absolute_root_path_for_cwd, ancestors. simpl as_path.
  rewrite ancestors_fuel_root by (simpl; rewrite length_map; lia).
  rewrite from_absolute_path_id; [done | by exists []].
Qed.

Lemma root_covers e target : resolved_path e = mkAbs [RootDir] -> normal target -> covers e target.
Proof. intros He (names & Ht & _). unfold covers. rewrite He, Ht. by exists (map Normal names). Qed.

Lemma slash_tmp_normal : normal_path SLASH_TMP.
Proof.
  exists [lit "tmp"]. split; [done|]. apply Forall_singleton. repeat split; try discriminate. vm_compute. set_solver.
Qed.

Lemma resolved_normal pol cwd e : wf_path cwd -> wf_policy pol -> e ∈ resolved_entries_with_cwd pol cwd -> normal (resolved_path e).
Proof.
  intros Hw Hpol (x & Hx & He)%list_elem_of_omap. unfold resolve_entry in He. apply fmap_Some in He as (a & Ha & ->). simpl.
  unfold wf_policy in Hpol. rewrite Forall_forall in Hpol. specialize (Hpol x Hx).
  assert (forall c, cwd_absolute cwd = Some c -> normal c) as Hc by eauto using cwd_absolute_normal.
  destruct (entry_path x) as [q|pattern|value]; simpl in Ha; [by injection Ha as <- | done|].
  destruct value as [| |subpath| | |]; simpl in Ha; try done.
  - destruct (cwd_absolute cwd) as [c|]; [|done]. rewrite absolute_root_normal in Ha by auto. injection Ha as <-. by exists [].
  - destruct (cwd_absolute cwd) as [c|]; [|done]. destruct subpath as [subpath|]; injection Ha as <-; [|auto].
    apply resolve_normal; [apply path_new_wf | by apply Hc].
  - destruct tmpdir_var as [tmpdir|]; [|done]. destruct (is_empty tmpdir); [done|].
    destruct (from_absolute_path (path_new tmpdir)) as [t|] eqn:Et; [|done]. injection Ha as <-.
    by apply (from_absolute_path_normal (path_new tmpdir)); [apply path_new_wf|].
  - rewrite from_absolute_path_id in Ha by apply slash_tmp_normal.
    simpl in Ha. destruct (is_dir SLASH_TMP); [|done]. injection Ha as <-. apply slash_tmp_normal.
Qed.

Lemma resolved_elem pol cwd e :
  e ∈ resolved_entries_with_cwd pol cwd <->
  exists x, x ∈ entries pol /\ access x = resolved_access e
            /\ resolve_entry_path (entry_path x) (cwd_absolute cwd) = Some (resolved_path e).
Proof.
  unfold resolved_entries_with_cwd. rewrite list_elem_of_omap. unfold resolve_entry. split.
  - intros (x & Hx & (a & Ha & ->)%fmap_Some). eauto.
  - intros (x & Hx & Ha & Hr). exists x. split; [done|]. rewrite Hr. simpl. destruct e. by simplify_eq/=.
Qed.

(** *** Full access *)

Lemma root_entry_resolved pol cwd c (test : FileSystemAccessMode -> bool) :
  wf_path cwd -> cwd_absolute cwd = Some c -> has_root_access pol test = true ->
  exists a, test a = true /\ mkResolved (mkAbs [RootDir]) a ∈ resolved_entries_with_cwd pol cwd.
Proof.
  unfold has_root_access. intros Hw Hc Hr. apply andb_true_iff in Hr as [_ (x & Hx & [Hroot%bool_decide_eq_true Ht]%andb_true_iff)%existsb_elem].
  exists (access x). split; [done|]. apply resolved_elem. exists x. rewrite Hroot, Hc. simpl.
  by rewrite absolute_root_normal by eauto using cwd_absolute_normal.
Qed.

Lemma full_read_sound pol cwd c p target :
  wf_path cwd -> wf_path p -> cwd_absolute cwd = Some c -> resolve_candidate_path p cwd = Some target ->
  has_full_disk_read_access pol = true -> can_read_path_with_cwd pol p cwd = true.
Proof.
  intros Hw Hp Hc Ht Hf. unfold has_full_disk_read_access in Hf. unfold can_read_path_with_cwd.
  destruct (sandbox_kind pol) eqn:Ek; try (unfold resolve_access_with_cwd; by rewrite Ek).
  apply andb_true_iff in Hf as [Hroot Hdeny%negb_true_iff].
  destruct (root_entry_resolved pol cwd c can_read) as (a & _ & Hin); [done..|].
  destruct (resolve_access_cases pol cwd p target Ek Ht) as [(e & (He & _) & ->)|[Hno _]].
  - unfold has_denied_read_restrictions, is_restricted in Hdeny. rewrite bool_decide_true in Hdeny by done. simpl in Hdeny.
    rewrite existsb_elem_false in Hdeny. apply resolved_elem in He as (x & Hx & <- & _). apply Hdeny in Hx. boolify.
    by destruct (access x).
  - destruct (Hno _ Hin). by apply root_covers; [|by apply (candidate_normal p cwd)].
Qed.

(** The entry a write entry for the same target overrides is not the one that decides. *)
Lemma override_not_governing pol cwd target e x :
  wf_policy pol -> is_dir SLASH_TMP = true -> governs pol cwd target e -> x ∈ entries pol -> access x = resolved_access e ->
  resolve_entry_path (entry_path x) (cwd_absolute cwd) = Some (resolved_path e) ->
  (match entry_path x with GlobPattern _ | Special Root => False | _ => True end) ->
  has_same_target_write_override pol x = true -> wf_path cwd -> cwd_absolute cwd <> None -> False.
Proof.
  intros Hpol Htmp (_ & Hc & Hmax) Hx Ha Hr Hkind Ho Hw Hcwd.
  unfold has_same_target_write_override in Ho. apply existsb_elem in Ho as (y & Hy & Ho).
  apply andb_true_iff in Ho as [[Hyw Hlt]%andb_true_iff Hs]. apply Nat.ltb_lt in Hlt.
  assert (resolve_entry_path (entry_path y) (cwd_absolute cwd) = Some (resolved_path e)) as Hry.
  { unfold file_system_paths_share_target in Hs. unfold wf_policy in Hpol. rewrite Forall_forall in Hpol.
    destruct (entry_path y) as [q|pat|v] eqn:Ey, (entry_path x) as [q'|pat'|v'] eqn:Ex; try done.
    - boolify. by subst.
    - destruct v'; try done. simpl in *. boolify. rewrite from_absolute_path_id in Hr by apply slash_tmp_normal.
      simpl in Hr. rewrite Htmp in Hr. simpl in Hr. injection Hr as <-. by destruct q; simplify_eq/=.
    - specialize (Hpol x Hx). rewrite Ex in Hpol. destruct v; try done; simpl in *; boolify.
      + destruct (cwd_absolute cwd) as [c|] eqn:Ec; [|done]. rewrite absolute_root_normal by eauto using cwd_absolute_normal.
        injection Hr as <-. destruct q' as [q']. destruct Hpol as (names & Hq & _). simpl in *. subst q'. unfold parent in *.
        destruct names as [|n names _] using rev_ind; [done|]. rewrite map_app in *. simpl map in *.
        by rewrite app_comm_cons, last_snoc in *.
      + rewrite from_absolute_path_id by apply slash_tmp_normal. simpl. rewrite Htmp. simpl. injection Hr as <-.
        by destruct q'; simplify_eq/=.
    - destruct v, v'; try done; simpl in *; boolify; by subst. }
  destruct (Hmax (mkResolved (resolved_path e) (access y))) as [Hsp|[_ Hrank]].
  - apply resolved_elem. by exists y.
  - done.
  - unfold specificity in Hsp. simpl in Hsp. lia.
  - simpl in Hrank. rewrite <-Ha in Hrank. lia.
Qed.

Lemma full_write_governs pol cwd c target e :
  wf_policy pol -> wf_path cwd -> cwd_absolute cwd = Some c -> normal target -> is_dir SLASH_TMP = true ->
  sandbox_kind pol = Restricted -> has_full_disk_write_access pol = true -> governs pol cwd target e ->
  resolved_access e = Write.
Proof.
  intros Hpol Hw Hc Hn Htmp Hk Hf Hg. unfold has_full_disk_write_access in Hf. rewrite Hk in Hf.
  apply andb_true_iff in Hf as [Hroot Hnarrow%negb_true_iff].
  destruct (root_entry_resolved pol cwd c can_write) as (a & Ha & Hin); [done..|]. destruct a; try done.
  unfold has_write_narrowing_entries, is_restricted in Hnarrow. rewrite bool_decide_true in Hnarrow by done. simpl in Hnarrow.
  rewrite existsb_elem_false in Hnarrow. pose proof Hg as (He & _ & Hmax). apply resolved_elem in He as (x & Hx & Hxa & Hr).
  specialize (Hnarrow x Hx). unfold write_narrowing_entry in Hnarrow. destruct (can_write (access x)) eqn:Ew.
  { rewrite <-Hxa. by destruct (access x). }
  exfalso. assert (cwd_absolute cwd <> None) as Hcn by congruence.
  destruct (entry_path x) as [q|pat|v] eqn:Ex; [|done|].
  - boolify. apply (override_not_governing pol cwd target e x); rewrite ?Ex; done.
  - destruct v; try done; boolify; try (apply (override_not_governing pol cwd target e x); rewrite ?Ex; done).
    simpl in Hr. rewrite Hc, absolute_root_normal in Hr by eauto using cwd_absolute_normal. injection Hr as Hr.
    destruct (Hmax _ Hin) as [Hsp|[_ Hrank]].
    + by apply root_covers.
    + unfold specificity in Hsp. rewrite <-Hr in Hsp. simpl in Hsp. lia.
    + rewrite <-Hxa in Hrank. simpl in Hrank. destruct (access x); simpl in Hrank; try done. lia.
Qed.

(** The shortcuts are sound: a policy that claims full disk read access lets every
    path be read, and one that claims full disk write access lets every path be
    written, protected names included (on a system that has [/tmp]). *)
Theorem full_access_sound pol cwd c p target :
  wf_policy pol -> wf_path cwd -> wf_path p -> cwd_absolute cwd = Some c -> resolve_candidate_path p cwd = Some target ->
  (has_full_disk_read_access pol = true -> can_read_path_with_cwd pol p cwd = true) /\
  (is_dir SLASH_TMP = true -> has_full_disk_write_access pol = true ->
   resolve_access_with_cwd pol p cwd = Write /\ can_write_path_with_cwd pol p cwd = true).
Proof.
  intros Hpol Hw Hp Hc Ht. split; [by apply (full_read_sound pol cwd c p target)|]. intros Htmp Hf.
  assert (resolve_access_with_cwd pol p cwd = Write) as Ha.
  { destruct (sandbox_kind pol) eqn:Ek; try (unfold resolve_access_with_cwd; by rewrite Ek).
    assert (normal target) as Hn by by apply (candidate_normal p cwd).
    destruct (resolve_access_cases pol cwd p target Ek Ht) as [(e & He & ->)|[Hno _]].
    - by apply (full_write_governs pol cwd c target).
    - pose proof Hf as Hf'. unfold has_full_disk_write_access in Hf'. rewrite Ek in Hf'. apply andb_true_iff in Hf' as [Hr _].
      destruct (root_entry_resolved pol cwd c can_write) as (a & _ & Hin); [done..|].
      destruct (Hno _ Hin). by apply root_covers. }
  split; [done|]. unfold can_write_path_with_cwd. by rewrite Ha, Hf.
Qed.

(** *** Protected names *)

Lemma metadata_name_good n m : metadata_path_name n = Some m -> m = n /\ good_name m /\ m <> TILDE /\ path_new m = [Normal m].
Proof.
  unfold metadata_path_name, PROTECTED_METADATA_PATH_NAMES. simpl.
  repeat case_bool_decide; intros [= <-]; subst; (split; [done|]); repeat split; try discriminate; vm_compute; set_solver.
Qed.

Lemma abs_join_name a name :
  normal a -> good_name name -> name <> TILDE -> abs_join a [Normal name] = mkAbs (as_path a ++ [Normal name]).
Proof.
  intros (names & Ha & Hg) Hn Ht. unfold abs_join, resolve_path_against_base, maybe_expand_home_directory. f_equal.
  assert (match home_dir with Some home => if bool_decide (name = TILDE) then path_join home [] else [Normal name] | None => [Normal name] end = [Normal name]) as ->.
  { destruct home_dir; [by rewrite bool_decide_false | done]. }
  unfold absolutize_from, path_with_base. simpl.
  assert (path_join (as_path a) [Normal name] = as_path a ++ [Normal name]) as -> by by rewrite Ha.
  apply normalize_normal. exists (names ++ [name]). rewrite map_app. split; [by rewrite Ha|].
  apply Forall_app. split; [done | by apply Forall_singleton].
Qed.

(** The writable entries. *)
Definition writable_entry pol cwd e : Prop := e ∈ resolved_entries_with_cwd pol cwd /\ resolved_access e = Write.

Lemma can_write_Write a : can_write a = true <-> a = Write.
Proof. by destruct a. Qed.

Lemma metadata_child_Some pol (t : path) cwd (q : AbsolutePathBuf) (m : str) :
  wf_policy pol -> wf_path cwd -> metadata_child_of_writable_root pol t cwd = Some (q, m) ->
  exists e rest, writable_entry pol cwd e /\ t = as_path (resolved_path e) ++ Normal m :: rest
    /\ q = mkAbs (as_path (resolved_path e) ++ [Normal m]) /\ metadata_path_name m = Some m.
Proof.
  intros Hpol Hw (l1 & e & l2 & Hl & He & _)%find_map_split.
  assert (e ∈ List.filter (fun e => can_write (resolved_access e)) (resolved_entries_with_cwd pol cwd)) as Hin
    by (rewrite Hl; apply elem_of_app; right; apply list_elem_of_here).
  apply filter_elem in Hin as [Hin Hwr%can_write_Write].
  destruct (path_strip_prefix (as_path (resolved_path e)) t) as [[|c rest]|] eqn:Es; try done.
  destruct (metadata_path_name (as_os_str c)) as [m'|] eqn:Em; [|done]. injection He as <- <-.
  apply metadata_name_good in Em as Hm. destruct Hm as (-> & Hg & Ht & ->).
  apply path_strip_prefix_Some in Es. exists e, rest.
  assert (c = Normal (as_os_str c)) as Hc.
  { destruct c; [vm_compute in Em; done..|done]. }
  destruct c as [| | |n]; try done. simpl in *. split_and!; try done.
  apply abs_join_name; [by apply (resolved_normal pol cwd) | done..].
Qed.

Lemma metadata_child_None pol (t : path) cwd e m rest :
  writable_entry pol cwd e -> t = as_path (resolved_path e) ++ Normal m :: rest -> metadata_path_name m = Some m ->
  metadata_child_of_writable_root pol t cwd <> None.
Proof.
  intros [Hin Hwr] Ht Hm Hn. unfold metadata_child_of_writable_root in Hn. rewrite find_map_None in Hn.
  specialize (Hn e). rewrite (proj2 (path_strip_prefix_Some _ _ _) Ht) in Hn. simpl in Hn. rewrite Hm in Hn.
  discriminate Hn. apply filter_elem. by rewrite Hwr.
Qed.

Lemma protected_name_iff m : is_protected_metadata_name m = true <-> metadata_path_name m = Some m.
Proof.
  unfold is_protected_metadata_name, metadata_path_name, PROTECTED_METADATA_PATH_NAMES. simpl.
  repeat case_bool_decide; subst; naive_solver.
Qed.

Lemma can_write_metadata pol cwd p target :
  sandbox_kind pol = Restricted -> has_full_disk_write_access pol = false -> resolve_candidate_path p cwd = Some target ->
  can_write_path_with_cwd pol p cwd = true <->
  resolve_access_with_cwd pol p cwd = Write /\
  forall q m, metadata_child_of_writable_root pol (as_path target) cwd = Some (q, m) ->
    has_explicit_write_entry_for_metadata_path pol q (as_path target) cwd = true.
Proof.
  intros Hk Hf Ht. unfold can_write_path_with_cwd, is_metadata_write_denied, is_restricted. rewrite Hf, Ht.
  rewrite bool_decide_true by done. simpl. rewrite <-can_write_Write.
  destruct (can_write (resolve_access_with_cwd pol p cwd)); simpl; [|naive_solver].
  destruct (metadata_child_of_writable_root pol (as_path target) cwd) as [[q m]|]; simpl; [|naive_solver].
  rewrite negb_involutive. naive_solver.
Qed.

Lemma explicit_write_true pol (q : AbsolutePathBuf) (t : path) cwd :
  has_explicit_write_entry_for_metadata_path pol q t cwd = true <->
  exists w, writable_entry pol cwd w /\ as_path (resolved_path w) `prefix_of` t /\ as_path q `prefix_of` as_path (resolved_path w).
Proof.
  unfold has_explicit_write_entry_for_metadata_path, writable_entry. rewrite existsb_elem.
  setoid_rewrite andb_true_iff. setoid_rewrite andb_true_iff. setoid_rewrite can_write_Write.
  setoid_rewrite path_starts_with_prefix. naive_solver.
Qed.

(** The protected names below a writable root stay protected: under a restricted
    policy without full disk write access, a path in [.git], [.agents] or [.codex]
    of a writable root can be written only if some entry grants writing at or below
    that very directory and above the path (for roots that are not themselves
    inside a protected directory of another root). *)
Theorem metadata_protected pol cwd p target e m rest :
  wf_policy pol -> wf_path cwd -> sandbox_kind pol = Restricted -> has_full_disk_write_access pol = false ->
  resolve_candidate_path p cwd = Some target ->
  writable_entry pol cwd e -> as_path target = as_path (resolved_path e) ++ Normal m :: rest ->
  is_protected_metadata_name m = true ->
  (forall e' n, writable_entry pol cwd e' -> is_protected_metadata_name n = true ->
     ~ (as_path (resolved_path e') ++ [Normal n]) `prefix_of` as_path (resolved_path e)) ->
  can_write_path_with_cwd pol p cwd = true ->
  exists w, writable_entry pol cwd w /\ covers w target
            /\ (as_path (resolved_path e) ++ [Normal m]) `prefix_of` as_path (resolved_path w).
Proof.
  intros Hpol Hw Hk Hf Ht He Hp Hm%protected_name_iff Hout Hwrite. apply (can_write_metadata _ _ _ _ Hk Hf Ht) in Hwrite as [_ Hx].
  destruct (metadata_child_of_writable_root pol (as_path target) cwd) as [[q m0]|] eqn:Ec;
    [|by destruct (metadata_child_None pol (as_path target) cwd e m rest)].
  destruct (metadata_child_Some _ _ _ _ _ Hpol Hw Ec) as (e0 & rest0 & He0 & Hp0 & -> & Hm0).
  destruct (proj1 (explicit_write_true _ _ _ _) (Hx _ _ eq_refl)) as (w & Hww & Hwt & Hqw). simpl in Hqw.
  assert (forall x n r, as_path target = x ++ Normal n :: r -> (x ++ [Normal n]) `prefix_of` as_path target) as Hpre.
  { intros x n r ->. exists r. by rewrite <-app_assoc. }
  pose proof (Hpre _ _ _ Hp) as Hpe. pose proof (Hpre _ _ _ Hp0) as Hpe0.
  assert (as_path (resolved_path e) `prefix_of` as_path target) as Hce by (rewrite Hp; by eexists).
  assert (as_path (resolved_path e0) `prefix_of` as_path target) as Hce0 by (rewrite Hp0; by eexists).
  destruct (lt_eq_lt_dec (length (as_path (resolved_path e0))) (length (as_path (resolved_path e)))) as [[Hlt|Heq]|Hgt].
  - destruct (Hout e0 m0 He0); [by apply protected_name_iff|].
    eapply prefixes_nested; [done | done|]. rewrite length_app. simpl. lia.
  - exists w. split_and!; [done..|]. rewrite (prefixes_same _ _ _ Hpe Hpe0); [done|]. rewrite !length_app. simpl. lia.
  - exists e0. split_and!; [done..|]. eapply prefixes_nested; [done | done|]. rewrite length_app. simpl. lia.
Qed.

(** *** The roots of the sandbox *)

Lemma dedup_seen_elem seen ps x : x ∈ dedup_seen seen ps <-> x ∈ ps /\ x ∉ seen.
Proof.
  revert seen. induction ps as [|p ps IH]; intros seen; simpl.
  { rewrite elem_of_nil. naive_solver. }
  case_bool_decide as Hp; rewrite ?elem_of_cons, IH, ?elem_of_cons; [naive_solver|].
  destruct (decide (x = p)); naive_solver.
Qed.

Lemma governs_below pol cwd target t' e :
  governs pol cwd target e -> covers e t' -> as_path t' `prefix_of` as_path target -> governs pol cwd t' e.
Proof.
  intros (Hin & _ & Hmax) Hc Hp. split_and!; [done..|]. intros e' Hin' Hc'. apply Hmax; [done|].
  unfold covers in *. by etransitivity.
Qed.

Lemma governed_access pol cwd a e :
  sandbox_kind pol = Restricted -> normal a -> governs pol cwd a e -> resolve_access_with_cwd pol (as_path a) cwd = resolved_access e.
Proof.
  intros Hk Ha He. destruct (resolve_access_cases pol cwd (as_path a) a) as [(e' & He' & ->)|[Hno _]].
  - done.
  - by apply candidate_id.
  - by apply (governs_access_unique pol a cwd).
  - destruct He as (Hin & Hc & _). by destruct (Hno e Hin).
Qed.

(** No symbolic link changes what a path stands for. *)
Definition no_symlinks : Prop := forall p q, normal_path p -> fs_canonicalize p = Ok q -> q = p.

Lemma ancestors_normal p q : normal_path p -> q ∈ ancestors p -> normal_path q /\ q `prefix_of` p.
Proof.
  unfold ancestors. generalize (length p). intros n. revert p. induction n as [|n IH]; intros p Hp Hq; cbn [ancestors_fuel] in Hq.
  { apply list_elem_of_singleton in Hq as ->. done. }
  apply elem_of_cons in Hq as [-> | Hq]; [done|].
  destruct Hp as (names & -> & Hg). unfold parent in Hq.
  destruct names as [|x names _] using rev_ind; [simpl in Hq; by apply elem_of_nil in Hq|].
  rewrite map_app in *. simpl map in *. rewrite app_comm_cons, last_snoc, removelast_snoc in Hq.
  apply Forall_app in Hg as [Hg _]. apply IH in Hq as [Hn Hpre]; [|by exists names].
  split; [done|]. etransitivity; [done|]. rewrite app_comm_cons. by eexists.
Qed.

Lemma canonicalize_id p : no_symlinks -> normal_path p -> canonicalize_preserving_symlinks p = Ok p.
Proof.
  intros Hns Hp. unfold canonicalize_preserving_symlinks. rewrite from_absolute_path_id by done. simpl.
  destruct (fs_canonicalize p) as [q|] eqn:Eq; [|done]. apply Hns in Eq as ->; [|done]. by destruct (_ && _).
Qed.

Lemma normalize_effective_id a : no_symlinks -> normal a -> normalize_effective_absolute_path a = a.
Proof.
  intros Hns Ha. unfold normalize_effective_absolute_path.
  destruct (find_map _ (ancestors (as_path a))) as [b|] eqn:Ef; [|done]. simpl.
  apply find_map_split in Ef as (l1 & q & l2 & Hl & Hq & _).
  assert (q ∈ ancestors (as_path a)) as Hin by (rewrite Hl; apply elem_of_app; right; apply list_elem_of_here).
  apply ancestors_normal in Hin as [Hn [suffix Hs]]; [|done].
  destruct (negb (is_ok (symlink_metadata q))); [done|]. rewrite canonicalize_id in Hq by done. simpl in Hq.
  rewrite (proj2 (path_strip_prefix_Some q (as_path a) suffix) Hs) in Hq.
  assert (path_join q suffix = as_path a) as Hj.
  { rewrite Hs. destruct Ha as (names & Ha & _), Hn as (names' & -> & _). rewrite Ha in Hs. injection Hs as Hs.
    apply map_eq_app in Hs as (n1 & n2 & _ & _ & <-). destruct n2 as [|n n2]; done. }
  rewrite Hj, from_absolute_path_id in Hq by done. simpl in Hq. destruct a. by injection Hq as <-.
Qed.

Lemma writable_entries_elem pol cwd r :
  r ∈ writable_entries pol cwd <-> exists e, writable_entry pol cwd e /\ resolved_path e = r /\ can_write_path_with_cwd pol (as_path r) cwd = true.
Proof.
  unfold writable_entries, writable_entry. rewrite list_elem_of_fmap. setoid_rewrite filter_elem. setoid_rewrite filter_elem.
  setoid_rewrite can_write_Write. naive_solver.
Qed.

Lemma writable_roots_elem pol cwd w :
  no_symlinks -> wf_policy pol -> wf_path cwd -> w ∈ get_writable_roots_with_cwd pol cwd ->
  has_full_disk_write_access pol = false /\ exists e, writable_entry pol cwd e
    /\ can_write_path_with_cwd pol (as_path (resolved_path e)) cwd = true /\ w = writable_root_for pol cwd (resolved_path e).
Proof.
  intros Hns Hpol Hw Hin. unfold get_writable_roots_with_cwd in Hin.
  destruct (has_full_disk_write_access pol); [by apply elem_of_nil in Hin|]. split; [done|].
  apply list_elem_of_fmap in Hin as (r & -> & Hr). unfold dedup_absolute_paths in Hr.
  apply dedup_seen_elem in Hr as [(r' & -> & (e & He & <- & Hcw)%writable_entries_elem)%list_elem_of_fmap _].
  exists e. rewrite normalize_effective_id; [done..|]. destruct He as [He _]. by apply (resolved_normal pol cwd).
Qed.

Lemma carveout_strictly_below r raws (q : AbsolutePathBuf) :
  no_symlinks -> normal q -> as_path r `prefix_of` as_path q -> q <> r -> carveout_path r raws q = Some q.
Proof.
  intros Hns Hq Hp Hne. unfold carveout_path. rewrite normalize_effective_id by done.
  rewrite (proj2 (path_starts_with_prefix _ _) Hp), (bool_decide_false (q = r)) by done. simpl. by case_bool_decide.
Qed.

Lemma root_covers_write pol cwd target e w :
  no_symlinks -> wf_policy pol -> wf_path cwd -> sandbox_kind pol = Restricted -> normal target ->
  writable_entry pol cwd e -> can_write_path_with_cwd pol (as_path (resolved_path e)) cwd = true ->
  w = writable_root_for pol cwd (resolved_path e) -> is_path_writable w (as_path target) = true ->
  resolve_access_with_cwd pol (as_path target) cwd = Write.
Proof.
  intros Hns Hpol Hw Hk Hn [Hin Ha] Hcw -> Hpw. unfold is_path_writable in Hpw. cbn [root writable_root_for] in Hpw.
  destruct (path_starts_with (as_path target) _) eqn:Est; [simpl in Hpw | done]. apply path_starts_with_prefix in Est.
  destruct (existsb _ _) eqn:Ero; [done|]. rewrite existsb_elem_false in Ero.
  destruct (resolve_access_cases pol cwd (as_path target) target Hk) as [(g & Hg & ->)|[Hno _]];
    [by apply candidate_id | | by destruct (Hno e Hin)].
  pose proof Hg as (Hgin & Hgc & Hgmax).
  assert (normal (resolved_path g)) as Hgn by by apply (resolved_normal pol cwd).
  assert (normal (resolved_path e)) as Hen by by apply (resolved_normal pol cwd).
  destruct (decide (resolved_access g = Write)) as [|Hnw]; [done|]. exfalso.
  destruct (decide (resolved_path e = resolved_path g)) as [Heq|Hne].
  - assert (governs pol cwd (resolved_path e) g) as Hge.
    { apply (governs_below pol cwd target); [done | unfold covers; by rewrite Heq | done]. }
    unfold can_write_path_with_cwd in Hcw. rewrite (governed_access pol cwd _ g) in Hcw by done.
    by destruct (resolved_access g).
  - assert (as_path (resolved_path e) `prefix_of` as_path (resolved_path g)) as Hpre.
    { apply (prefixes_nested _ _ (as_path target)); [done..|].
      destruct (Hgmax e Hin Est) as [Hlt|[? _]]; [unfold specificity in Hlt; lia | done]. }
    enough (resolved_path g ∈ read_only_subpaths (writable_root_for pol cwd (resolved_path e))) as Hro.
    { apply Ero in Hro. by rewrite (proj2 (path_starts_with_prefix _ _) Hgc) in Hro. }
    simpl. unfold dedup_absolute_paths. apply dedup_seen_elem. split; [|apply not_elem_of_nil].
    apply elem_of_app. right. apply list_elem_of_omap. exists g. split; [|apply carveout_strictly_below; [done..|by intros ?; apply Hne]].
    apply filter_elem. split; [apply filter_elem; split; [done | by destruct (resolved_access g)]|].
    assert (governs pol cwd (resolved_path g) g) as Hgg.
    { apply (governs_below pol cwd target); [done | by unfold covers | done]. }
    unfold can_write_path_with_cwd. rewrite (governed_access pol cwd _ g) by done. by destruct (resolved_access g).
Qed.

(** Between a root and its protected name the search finds the same metadata. *)
Lemma metadata_child_same pol cwd (r t : path) m rest :
  t = r ++ Normal m :: rest ->
  (forall e, writable_entry pol cwd e -> as_path (resolved_path e) `prefix_of` t -> as_path (resolved_path e) `prefix_of` r) ->
  metadata_child_of_writable_root pol (r ++ [Normal m]) cwd = metadata_child_of_writable_root pol t cwd.
Proof.
  intros -> Hin. unfold metadata_child_of_writable_root.
  assert (forall e, e ∈ List.filter (fun e => can_write (resolved_access e)) (resolved_entries_with_cwd pol cwd) -> writable_entry pol cwd e)
    as Hwr by (intros e [? ?%can_write_Write]%filter_elem; done).
  induction (List.filter _ _) as [|e es IH]; [done|]. simpl. rewrite IH by (intros; by apply Hwr, list_elem_of_further).
  assert (writable_entry pol cwd e) as He by apply Hwr, list_elem_of_here. clear IH Hwr.
  destruct (path_strip_prefix (as_path (resolved_path e)) (r ++ Normal m :: rest)) as [s|] eqn:Es.
  - apply path_strip_prefix_Some in Es as Hs. destruct (Hin e He) as [s1 ->]; [by rewrite Hs; eexists|].
    rewrite <-app_assoc in Hs. apply app_inv_head in Hs as <-.
    rewrite <-app_assoc, (proj2 (path_strip_prefix_Some _ _ _) eq_refl). by destruct s1.
  - destruct (path_strip_prefix (as_path (resolved_path e)) (r ++ [Normal m])) as [s|] eqn:Es'; [|done].
    apply path_strip_prefix_Some in Es'. assert (r ++ Normal m :: rest = as_path (resolved_path e) ++ (s ++ rest)) as Hx.
    { by rewrite app_assoc, <-Es', <-app_assoc. }
    apply path_strip_prefix_Some in Hx. congruence.
Qed.

Lemma unlisted_name_writable pol cwd r m :
  no_symlinks -> wf_policy pol -> wf_path cwd -> normal r -> metadata_path_name m = Some m ->
  m ∉ protected_metadata_names (writable_root_for pol cwd r) ->
  can_write_path_with_cwd pol (as_path r ++ [Normal m]) cwd = true.
Proof.
  intros Hns Hpol Hw Hr Hm Hnot. simpl in Hnot. unfold protected_metadata_names_for_writable_root in Hnot.
  rewrite filter_elem in Hnot. destruct (metadata_name_good m m Hm) as (_ & Hg & Ht & Hp).
  assert (m ∈ PROTECTED_METADATA_PATH_NAMES) as Hin.
  { unfold metadata_path_name in Hm. apply find_some in Hm as [Hm _]. by apply list_elem_of_In. }
  destruct (forallb _ _) eqn:Eall; [by destruct Hnot|]. clear Hnot.
  apply not_true_iff_false in Eall. rewrite forallb_forall in Eall. apply not_false_iff_true. intros Hcw. apply Eall.
  intros q Hq%list_elem_of_In. rewrite Hp in Hq.
  enough (q = mkAbs (as_path r ++ [Normal m])) as -> by (simpl; by rewrite Hcw).
  apply elem_of_cons in Hq as [-> | (p & -> & [Hpw Hpr]%filter_elem)%list_elem_of_fmap]; [by apply abs_join_name|].
  apply writable_entries_elem in Hpw as (e & [He _] & <- & _). apply bool_decide_eq_true in Hpr.
  rewrite normalize_effective_id in Hpr; [|done|by apply (resolved_normal pol cwd)]. rewrite Hpr. by apply abs_join_name.
Qed.

(** C21.  The roots given to the sandbox grant nothing the policy does not: without
    symbolic links, a path that a writable root lets through, past its read-only
    subpaths and protected names, resolves to write access; and when no other
    writable entry lies between that root and the path, it can be written. *)
Theorem writable_roots_sound pol cwd w target :
  no_symlinks -> wf_policy pol -> wf_path cwd -> sandbox_kind pol = Restricted -> normal target ->
  w ∈ get_writable_roots_with_cwd pol cwd -> is_path_writable w (as_path target) = true ->
  resolve_access_with_cwd pol (as_path target) cwd = Write /\
  ((forall e, writable_entry pol cwd e -> covers e target -> as_path (resolved_path e) `prefix_of` as_path (root w)) ->
   can_write_path_with_cwd pol (as_path target) cwd = true).
Proof.
  intros Hns Hpol Hw Hk Hn Hin Hpw. destruct (writable_roots_elem _ _ _ Hns Hpol Hw Hin) as (Hf & e & He & Hcw & Hwe).
  assert (resolve_access_with_cwd pol (as_path target) cwd = Write) as Ha by by apply (root_covers_write pol cwd target e w).
  split; [done|]. subst w. cbn [root writable_root_for]. intros Hinner.
  apply (can_write_metadata _ _ _ target Hk Hf); [by apply candidate_id|]. split; [done|]. intros q m Hq.
  destruct (metadata_child_Some _ _ _ _ _ Hpol Hw Hq) as (e0 & rest & He0 & Ht & -> & Hm).
  apply explicit_write_true. unfold is_path_writable in Hpw. cbn [root writable_root_for] in Hpw.
  destruct (path_starts_with (as_path target) _) eqn:Est; [simpl in Hpw | done]. apply path_starts_with_prefix in Est.
  assert (as_path (resolved_path e0) `prefix_of` as_path (resolved_path e)) as [s Hs].
  { apply Hinner; [done|]. unfold covers. rewrite Ht. by eexists. }
  destruct s as [|c s].
  2: { exists e. split_and!; [done..|]. simpl. rewrite Hs in Est. destruct Est as [y Hy]. rewrite Ht, <-app_assoc in Hy.
       apply app_inv_head in Hy. injection Hy as <- _. rewrite Hs. exists s. by rewrite <-app_assoc. }
  rewrite app_nil_r in Hs. destruct (existsb _ _); [done|]. apply negb_true_iff in Hpw.
  unfold path_contains_protected_metadata_name in Hpw. cbn [root writable_root_for protected_metadata_names] in Hpw.
  rewrite (proj2 (path_strip_prefix_Some _ _ (Normal m :: rest))) in Hpw by by rewrite Hs.
  rewrite existsb_elem_false in Hpw. assert (normal (resolved_path e)) as Hen by (destruct He; by apply (resolved_normal pol cwd)).
  assert (can_write_path_with_cwd pol (as_path (resolved_path e) ++ [Normal m]) cwd = true) as Hcm.
  { apply unlisted_name_writable; try done. intros Hm'. apply Hpw in Hm'. simpl in Hm'. boolify. done. }
  rewrite <-Hs in Ht |- *. assert (normal (mkAbs (as_path (resolved_path e) ++ [Normal m]))) as Hnm.
  { destruct (metadata_name_good m m Hm) as (_ & ? & _). destruct Hen as (names & Hen & ?). exists (names ++ [m]).
    simpl. rewrite Hen, map_app. split; [done|]. apply Forall_app. split; [done | by apply Forall_singleton]. }
  apply (can_write_metadata pol cwd _ _ Hk Hf (candidate_id _ cwd Hnm)) in Hcm as [_ Hcm]. simpl in Hcm.
  rewrite (metadata_child_same pol cwd _ _ m rest Ht) in Hcm by (intros; by apply Hinner).
  destruct (proj1 (explicit_write_true _ _ _ _) (Hcm _ _ Hq)) as (x & Hx & Hx1 & Hx2). exists x. rewrite <-Hs in Hx2.
  split_and!; [done | | done]. etransitivity; [done|]. rewrite Ht. exists rest. by rewrite <-app_assoc.
Qed.
End Access.

Module PermissionsDemo.
Import AbsPathDemo.
(** A file system without links, with or without [/tmp]. *)
Definition plain_fs (has_tmp : bool) : FsHost := {|
  tmpdir_var := None;
  is_dir p := has_tmp && bool_decide (p = SLASH_TMP);
  is_file _ := false;
  path_exists _ := false;
  read_text _ := Err (mkIoError NotFound (lit "No such file or directory"));
  symlink_metadata _ := Ok false;
  fs_canonicalize p := Ok p;
|}.
Definition abs (s : str) : AbsolutePathBuf := mkAbs (path_new s).
Definition repo : path := path_new (lit "/work/repo").
(** The repository is writable but for [secrets], of which [pub] is readable. *)
Definition workspace : policy := restricted
  [new_entry (Special Root) Read; new_entry (Special (ProjectRoots None)) Write;
   new_entry (PathEntry (abs (lit "/work/repo/secrets"))) Deny; new_entry (PathEntry (abs (lit "/work/repo/secrets/pub"))) Read].
Definition nested : policy := restricted
  [new_entry (Special Root) Read; new_entry (PathEntry (abs (lit "/work/repo"))) Write; new_entry (PathEntry (abs (lit "/work/repo/sub"))) Write].
Definition all_but_tmp : policy := restricted
  [new_entry (Special Root) Write; new_entry (PathEntry (abs (lit "/tmp"))) Read; new_entry (Special SlashTmp) Write].
End PermissionsDemo.
Import AbsPathDemo PermissionsDemo.

Lemma demo_normal s : path_new s = normalize_path (path_new s) -> is_absolute (path_new s) = true -> normal (abs s).
Proof. intros Hn Ha. unfold normal, abs. simpl. rewrite Hn. apply normalize_absolute; [apply path_new_wf | done]. Qed.

Lemma workspace_wf : wf_policy workspace.
Proof. unfold wf_policy. repeat constructor; apply demo_normal; vm_compute; reflexivity. Qed.

Example workspace_access :
  map (fun s => resolve_access_with_cwd (FH := plain_fs true) workspace (path_new s) repo)
    [lit "src/main.rs"; lit "../other"; lit "secrets/key"; lit "secrets/pub/readme"; lit "/etc/passwd"]
  = [Write; Read; Deny; Read; Read]
  /\ can_write_path_with_cwd (FH := plain_fs true) workspace (path_new (lit ".git/config")) repo = false.
Proof. split; vm_compute; reflexivity. Qed.

Lemma access_most_specific_witness :
  resolve_access_with_cwd (FH := plain_fs true) workspace (path_new (lit "secrets/key")) repo = Deny.
Proof.
  apply (access_most_specific (FH := plain_fs true) workspace repo
           (path_new (lit "secrets/key")) (abs (lit "/work/repo/secrets/key"))).
  - reflexivity.
  - vm_compute. reflexivity.
  - left. exists (mkResolved (abs (lit "/work/repo/secrets")) Deny). split; [|reflexivity]. split_and!.
    + apply list_elem_of_In. vm_compute. tauto.
    + exists [Normal (lit "key")]. vm_compute. reflexivity.
    + intros e He Hc. apply list_elem_of_In in He. vm_compute in He.
      destruct He as [<- | [<- | [<- | [<- | []]]]]; try (left; vm_compute; lia); [right; split; vm_compute; [reflexivity | lia]|].
      destruct Hc as [x Hx]. vm_compute in Hx. discriminate Hx.
Defined.

Lemma full_access_sound_witness :
  can_read_path_with_cwd (FH := plain_fs true) (restricted [new_entry (Special Root) Write]) (path_new (lit "../a")) repo = true
  /\ can_write_path_with_cwd (FH := plain_fs true) (restricted [new_entry (Special Root) Write]) (path_new (lit "../a")) repo = true.
Proof.
  destruct (full_access_sound (FH := plain_fs true) (restricted [new_entry (Special Root) Write]) repo (abs (lit "/work/repo"))
              (path_new (lit "../a")) (abs (lit "/work/a"))) as [Hr Hw].
  - unfold wf_policy. repeat constructor.
  - apply path_new_wf.
  - apply path_new_wf.
  - vm_compute. reflexivity.
  - vm_compute. reflexivity.
  - split; [apply Hr; reflexivity | apply Hw; vm_compute; reflexivity].
Defined.

(** Without [/tmp], an entry for it that the shortcut takes for overridden decides. *)
Example full_write_without_tmp :
  has_full_disk_write_access all_but_tmp = true
  /\ resolve_access_with_cwd (FH := plain_fs false) all_but_tmp (path_new (lit "/tmp/x")) repo = Read.
Proof. split; vm_compute; reflexivity. Qed.

Definition dot_git_entry : policy := restricted (entries workspace ++ [new_entry (PathEntry (abs (lit "/work/repo/.git"))) Write]).

Lemma metadata_protected_witness :
  exists w, writable_entry (FH := plain_fs true) dot_git_entry repo w
    /\ (path_new (lit "/work/repo/.git")) `prefix_of` as_path (resolved_path w).
Proof.
  destruct (metadata_protected (FH := plain_fs true) dot_git_entry repo (path_new (lit ".git/config")) (abs (lit "/work/repo/.git/config"))
              (mkResolved (abs (lit "/work/repo")) Write) (lit ".git") [Normal (lit "config")]) as (w & Hw & _ & Hp).
  - unfold wf_policy. repeat constructor; apply demo_normal; vm_compute; reflexivity.
  - apply path_new_wf.
  - reflexivity.
  - vm_compute. reflexivity.
  - vm_compute. reflexivity.
  - split; [|reflexivity]. apply list_elem_of_In. vm_compute. tauto.
  - vm_compute. reflexivity.
  - vm_compute. reflexivity.
  - intros e n [He Hacc] Hn [x Hx]. apply list_elem_of_In in He. vm_compute in He.
    destruct He as [<- | [<- | [<- | [<- | [<- | []]]]]]; try discriminate Hacc; vm_compute in Hx; discriminate Hx.
  - vm_compute. reflexivity.
  - exists w. split; [exact Hw | exact Hp].
Defined.

Lemma writable_roots_sound_witness :
  exists w, w ∈ get_writable_roots_with_cwd (FH := plain_fs true) workspace repo
    /\ is_path_writable w (path_new (lit "/work/repo/src/a.rs")) = true
    /\ resolve_access_with_cwd (FH := plain_fs true) workspace (path_new (lit "/work/repo/src/a.rs")) repo = Write.
Proof.
  exists (writable_root_for (FH := plain_fs true) workspace repo (abs (lit "/work/repo"))).
  assert (writable_root_for (FH := plain_fs true) workspace repo (abs (lit "/work/repo"))
            ∈ get_writable_roots_with_cwd (FH := plain_fs true) workspace repo) as Hin
    by (apply list_elem_of_In; vm_compute; tauto).
  split_and!; [exact Hin | vm_compute; reflexivity|].
  apply (writable_roots_sound (FH := plain_fs true) workspace repo _ (abs (lit "/work/repo/src/a.rs"))) in Hin.
  - apply Hin.
  - intros p q _ [= <-]. reflexivity.
  - apply workspace_wf.
  - apply path_new_wf.
  - reflexivity.
  - apply demo_normal; vm_compute; reflexivity.
  - vm_compute. reflexivity.
Defined.

(** Between nested roots the protection is lost: the outer root lets through what
    the policy denies. *)
Example nested_root_metadata :
  can_write_path_with_cwd (FH := plain_fs true) nested (path_new (lit "/work/repo/sub/.git/hooks/x")) repo = false
  /\ existsb (fun w => is_path_writable w (path_new (lit "/work/repo/sub/.git/hooks/x")))
       (get_writable_roots_with_cwd (FH := plain_fs true) nested repo) = true.
Proof. split; vm_compute; reflexivity. Qed.
