(* ===== verification/SandboxPolicies.v ===== *)
(** * Policies and profiles

    Models the rest of [protocol/src/permissions.rs], the conversions of
    [PermissionProfile] in [protocol/src/models.rs] and [SandboxPolicy] of
    [protocol/src/protocol.rs]: how file system policies are built, extended,
    bound to project roots, compared, and translated from and to the older
    sandbox policies; and the matcher of denied reads. *)

From Stdlib Require Import Lia.
From S2P Require Import Prelude RustStr PatchSyntax AbsPath Profile Permissions.

(** ** Older policies *)

Definition access_is_enabled (n : NetworkAccess) : bool := match n with AccessEnabled => true | AccessRestricted => false end.

Definition has_full_network_access (s : SandboxPolicy) : bool :=
  match s with
  | DangerFullAccess => true
  | ExternalSandboxPolicy network_access => access_is_enabled network_access
  | ReadOnly network_access => network_access
  | WorkspaceWrite _ network_access _ _ => network_access
  end.

(** [impl From<&SandboxPolicy> for NetworkSandboxPolicy] *)
Definition network_policy_from (s : SandboxPolicy) : NetworkSandboxPolicy :=
  if has_full_network_access s then NetEnabled else NetRestricted.

Definition new_read_only_policy : SandboxPolicy := ReadOnly false.
Definition new_workspace_write_policy : SandboxPolicy := WorkspaceWrite [] false false false.

Section Host.
Context {PH : PathHost} {FH : FsHost}.

(** The entries both [workspace_write] and the legacy runtime policy start with. *)
Definition workspace_write_entries (writable_roots : list AbsolutePathBuf) (exclude_tmpdir_env_var exclude_slash_tmp : bool)
  : list FileSystemSandboxEntry :=
  [new_entry (Special Root) Read; new_entry (Special (ProjectRoots None)) Write]
  ++ (if exclude_slash_tmp then [] else [new_entry (Special SlashTmp) Write])
  ++ (if exclude_tmpdir_env_var then [] else [new_entry (Special Tmpdir) Write])
  ++ map (fun p => new_entry (PathEntry p) Write) writable_roots.

(** The default read-only subpaths of each root, unless there is a rule for them. *)
Definition append_protected_paths (es : list FileSystemSandboxEntry) (roots : list AbsolutePathBuf) (protect_missing_dot_codex : bool)
  : list FileSystemSandboxEntry :=
  fold_left (fun es r =>
    fold_left append_default_read_only_path_if_no_explicit_rule
      (default_read_only_subpaths_for_writable_root r protect_missing_dot_codex) es) roots es.

Definition workspace_write (writable_roots : list AbsolutePathBuf) (exclude_tmpdir_env_var exclude_slash_tmp : bool) : policy :=
  let es := workspace_write_entries writable_roots exclude_tmpdir_env_var exclude_slash_tmp in
  let es := fold_left append_default_read_only_project_root_subpath_if_no_explicit_rule PROTECTED_METADATA_PATH_NAMES es in
  restricted (append_protected_paths es writable_roots false).

(** [impl From<&SandboxPolicy> for FileSystemSandboxPolicy] *)
Definition policy_from (s : SandboxPolicy) : policy :=
  match s with
  | DangerFullAccess => unrestricted
  | ExternalSandboxPolicy _ => external_sandbox
  | ReadOnly _ => restricted [new_entry (Special Root) Read]
  | WorkspaceWrite writable_roots _ exclude_tmpdir_env_var exclude_slash_tmp =>
      workspace_write writable_roots exclude_tmpdir_env_var exclude_slash_tmp
  end.

Definition with_entries (p : policy) (es : list FileSystemSandboxEntry) : policy :=
  mkSandboxPolicy (sandbox_kind p) (glob_scan_max_depth p) es.

Definition from_legacy_sandbox_policy_for_cwd (s : SandboxPolicy) (cwd : path) : policy :=
  let p := policy_from s in
  match s with
  | WorkspaceWrite writable_roots _ _ _ =>
      let es := append_protected_paths (entries p) (option_list (cwd_absolute cwd)) true in
      with_entries p (append_protected_paths es writable_roots false)
  | _ => p
  end.

Definition from_legacy_sandbox_policy_preserving_deny_entries (s : SandboxPolicy) (cwd : path) (existing : policy) : policy :=
  let rebuilt := from_legacy_sandbox_policy_for_cwd s cwd in
  if negb (is_restricted rebuilt) then rebuilt
  else
    mkSandboxPolicy Restricted (glob_scan_max_depth existing) (push_absent (deny_entries existing) (entries rebuilt)).

Definition legacy_runtime_file_system_policy_for_cwd (s : SandboxPolicy) (cwd : path) : policy :=
  match s with
  | WorkspaceWrite writable_roots _ exclude_tmpdir_env_var exclude_slash_tmp =>
      let es := workspace_write_entries writable_roots exclude_tmpdir_env_var exclude_slash_tmp in
      let es := append_protected_paths es (option_list (cwd_absolute cwd)) true in
      restricted (append_protected_paths es writable_roots false)
  | _ => policy_from s
  end.

(** What the loop of [to_legacy_sandbox_policy] collects. *)
Record legacy_scan : Type := mkScan {
  workspace_root_writable : bool;
  scan_writable_roots : list AbsolutePathBuf;
  tmpdir_writable : bool;
  slash_tmp_writable : bool;
  unbridgeable_root_write : bool;
}.

Definition scan_entry (cwd : option AbsolutePathBuf) (x : legacy_scan) (e : FileSystemSandboxEntry) : legacy_scan :=
  let '(mkScan ws roots tmpdir slash_tmp root_write) := x in
  if negb (can_write (access e)) then x
  else
    match entry_path e with
    | GlobPattern _ => x
    | PathEntry p =>
        if bool_decide (cwd = Some p) then mkScan true roots tmpdir slash_tmp root_write
        else mkScan ws (roots ++ [p]) tmpdir slash_tmp root_write
    | Special Root => mkScan ws roots tmpdir slash_tmp true
    | Special Minimal | Special (UnknownSpecial _ _) => x
    | Special (ProjectRoots None) => mkScan true roots tmpdir slash_tmp root_write
    | Special (ProjectRoots (Some subpath)) =>
        match resolve_file_system_special_path (ProjectRoots (Some subpath)) cwd with
        | Some p => mkScan ws (roots ++ [p]) tmpdir slash_tmp root_write
        | None => x
        end
    | Special Tmpdir => mkScan ws roots true slash_tmp root_write
    | Special SlashTmp => mkScan ws roots tmpdir true root_write
    end.

Definition unbridgeable : io_error :=
  mkIoError InvalidInput (lit "permissions profile requests filesystem writes outside the workspace root, which is not supported until the runtime enforces FileSystemSandboxPolicy directly").

Definition full_access_legacy (network_policy : NetworkSandboxPolicy) : SandboxPolicy :=
  if net_is_enabled network_policy then DangerFullAccess else ExternalSandboxPolicy AccessRestricted.

Definition to_legacy_sandbox_policy (p : policy) (network_policy : NetworkSandboxPolicy) (cwd : path)
  : result SandboxPolicy io_error :=
  match sandbox_kind p with
  | ExternalSandbox =>
      Ok (ExternalSandboxPolicy (if net_is_enabled network_policy then AccessEnabled else AccessRestricted))
  | Unrestricted => Ok (full_access_legacy network_policy)
  | Restricted =>
      let '(mkScan ws roots tmpdir slash_tmp root_write) :=
        fold_left (scan_entry (cwd_absolute cwd)) (entries p) (mkScan false [] false false false) in
      if has_full_disk_write_access p then Ok (full_access_legacy network_policy)
      else if ws then
        Ok (WorkspaceWrite (dedup_absolute_paths roots false) (net_is_enabled network_policy) (negb tmpdir) (negb slash_tmp))
      else if root_write || negb (match roots with [] => true | _ => false end) || tmpdir || slash_tmp
      then Err unbridgeable
      else Ok (ReadOnly (net_is_enabled network_policy))
  end.

(** [SandboxPolicy::get_writable_roots_with_cwd] *)
Definition legacy_writable_roots_with_cwd (s : SandboxPolicy) (cwd : path) : list WritableRoot :=
  match s with
  | DangerFullAccess | ExternalSandboxPolicy _ | ReadOnly _ => []
  | WorkspaceWrite writable_roots _ exclude_tmpdir_env_var exclude_slash_tmp =>
      let cwd_root := cwd_absolute cwd in
      let slash_tmp := if exclude_slash_tmp then None else resolve_file_system_special_path SlashTmp None in
      let tmpdir := if exclude_tmpdir_env_var then None else resolve_file_system_special_path Tmpdir None in
      map (fun r =>
        mkWritableRoot r (default_read_only_subpaths_for_writable_root r (bool_decide (cwd_root = Some r))) [])
        (writable_roots ++ option_list cwd_root ++ option_list slash_tmp ++ option_list tmpdir)
  end.

(** ** Project roots *)

Definition PROJECT_ROOTS_GLOB_PATTERN_PREFIX : str := Eval vm_compute in lit "codex-project-roots://".

Definition project_roots_glob_pattern (subpath : path) : str := PROJECT_ROOTS_GLOB_PATTERN_PREFIX ++ display subpath.

Definition parse_project_roots_glob_pattern (pattern : str) : option path :=
  path_new <$> strip_prefix PROJECT_ROOTS_GLOB_PATTERN_PREFIX pattern.

Definition resolve_project_roots_glob_pattern (subpath : path) (r : AbsolutePathBuf) : str :=
  display (as_path (resolve_path_against_base subpath (as_path r))).

Definition with_path (e : FileSystemSandboxEntry) (p : FileSystemPath) : FileSystemSandboxEntry :=
  mkEntry p (access e) (missing_path_behavior e).

Definition materialize_entry_with_cwd (cwd : option AbsolutePathBuf) (e : FileSystemSandboxEntry) : FileSystemSandboxEntry :=
  match entry_path e with
  | Special (ProjectRoots _) =>
      match resolve_file_system_path (entry_path e) cwd with
      | Some p => with_path e (PathEntry p)
      | None => e
      end
  | GlobPattern pattern =>
      match cwd, parse_project_roots_glob_pattern pattern with
      | Some cwd, Some subpath => with_path e (GlobPattern (resolve_project_roots_glob_pattern subpath cwd))
      | _, _ => e
      end
  | _ => e
  end.

Definition materialize_project_roots_with_cwd (p : policy) (cwd : path) : policy :=
  with_entries p (map (materialize_entry_with_cwd (cwd_absolute cwd)) (entries p)).

Definition materialize_entry_with_roots (workspace_roots : list AbsolutePathBuf) (e : FileSystemSandboxEntry)
  : list FileSystemSandboxEntry :=
  match entry_path e with
  | Special (ProjectRoots subpath) =>
      map (fun r =>
        with_path e (PathEntry (match subpath with
                                | Some subpath => resolve_path_against_base (path_new subpath) (as_path r)
                                | None => r
                                end))) workspace_roots
  | GlobPattern pattern =>
      match parse_project_roots_glob_pattern pattern with
      | Some subpath =>
          map (fun r => with_path e (GlobPattern (resolve_project_roots_glob_pattern subpath r))) workspace_roots
      | None => [e]
      end
  | _ => [e]
  end.

Definition materialize_project_roots_with_workspace_roots (p : policy) (workspace_roots : list AbsolutePathBuf) : policy :=
  with_entries p (entries p ≫= materialize_entry_with_roots workspace_roots).

Definition with_materialized_project_roots_for_workspace_roots (p : policy) (workspace_roots : list AbsolutePathBuf) : policy :=
  with_entries p
    (push_absent (entries (materialize_project_roots_with_workspace_roots p workspace_roots)) (entries p)).

(** ** More roots *)

Definition push_entry (p : policy) (e : FileSystemSandboxEntry) : policy := with_entries p (entries p ++ [e]).

Definition with_additional_readable_roots (p : policy) (cwd : path) (additional_readable_roots : list AbsolutePathBuf) : policy :=
  if has_full_disk_read_access p then p
  else
    fold_left (fun p r =>
      if can_read_path_with_cwd p (as_path r) cwd then p else push_entry p (new_entry (PathEntry r) Read))
      additional_readable_roots p.

Definition with_additional_writable_roots (p : policy) (cwd : path) (additional_writable_roots : list AbsolutePathBuf) : policy :=
  fold_left (fun p r =>
    if can_write_path_with_cwd p (as_path r) cwd then p else push_entry p (new_entry (PathEntry r) Write))
    additional_writable_roots p.

Definition with_additional_legacy_workspace_writable_roots (p : policy) (additional_writable_roots : list AbsolutePathBuf) : policy :=
  if negb (is_restricted p) then p
  else
    fold_left (fun p r =>
      let p :=
        if existsb (fun e => can_write (access e) && bool_decide (entry_path e = PathEntry r)) (entries p) then p
        else push_entry p (new_entry (PathEntry r) Write) in
      with_entries p (append_protected_paths (entries p) [r] false)) additional_writable_roots p.

(** ** Denied patterns *)

Definition str_le (a b : str) : bool := match str_compare a b with Gt => false | _ => true end.

Definition get_unreadable_globs_with_cwd (p : policy) (cwd : path) : list str :=
  if negb (is_restricted p) then []
  else
    dedup_adjacent (stable_sort str_le
      (omap (fun e =>
        match entry_path e with
        | GlobPattern pattern => Some (display (as_path (resolve_path_against_base (path_new pattern) cwd)))
        | PathEntry _ | Special _ => None
        end) (deny_entries p))).

(** ** Comparing policies *)

Record FileSystemSemanticSignature : Type := mkSignature {
  sig_full_disk_read_access : bool;
  sig_full_disk_write_access : bool;
  sig_include_platform_defaults : bool;
  sig_readable_roots : list AbsolutePathBuf;
  sig_writable_roots : list WritableRoot;
  sig_unreadable_roots : list AbsolutePathBuf;
  sig_unreadable_globs : list str;
}.

#[export] Instance signature_eq_dec : EqDecision FileSystemSemanticSignature.
Proof. solve_decision. Defined.

Definition abs_le (a b : AbsolutePathBuf) : bool := match path_compare (as_path a) (as_path b) with Gt => false | _ => true end.

Definition sorted_absolute_paths (ps : list AbsolutePathBuf) : list AbsolutePathBuf := stable_sort abs_le ps.

Definition sorted_writable_roots (ws : list WritableRoot) : list WritableRoot :=
  stable_sort (fun a b => abs_le (root a) (root b))
    (map (fun w => mkWritableRoot (root w) (sorted_absolute_paths (read_only_subpaths w))
                     (dedup_adjacent (stable_sort str_le (protected_metadata_names w)))) ws).

Definition semantic_signature (p : policy) (cwd : path) : FileSystemSemanticSignature :=
  mkSignature (has_full_disk_read_access p) (has_full_disk_write_access p) (include_platform_defaults p)
    (sorted_absolute_paths (get_readable_roots_with_cwd p cwd))
    (sorted_writable_roots (get_writable_roots_with_cwd p cwd))
    (sorted_absolute_paths (get_unreadable_roots_with_cwd p cwd))
    (get_unreadable_globs_with_cwd p cwd).

Definition is_semantically_equivalent_to (p other : policy) (cwd : path) : bool :=
  bool_decide (semantic_signature p cwd = semantic_signature other cwd).

Definition protected_metadata_names_need_direct_runtime_enforcement (p : policy) (legacy_policy : SandboxPolicy) (cwd : path) : bool :=
  let legacy_roots := legacy_writable_roots_with_cwd legacy_policy cwd in
  existsb (fun w =>
    match find (fun candidate => bool_decide (root candidate = root w)) legacy_roots with
    | None => negb (match protected_metadata_names w with [] => true | _ => false end)
    | Some legacy_root =>
        existsb (fun metadata_name =>
          negb (bool_decide (abs_join (root w) (path_new metadata_name) ∈ read_only_subpaths legacy_root)))
          (protected_metadata_names w)
    end) (get_writable_roots_with_cwd p cwd).

Definition needs_direct_runtime_enforcement (p : policy) (network_policy : NetworkSandboxPolicy) (cwd : path) : bool :=
  if negb (is_restricted p) then false
  else
    match to_legacy_sandbox_policy p network_policy cwd with
    | Err _ => true
    | Ok legacy_policy =>
        if protected_metadata_names_need_direct_runtime_enforcement p legacy_policy cwd then true
        else
          negb (bool_decide (semantic_signature p cwd
                             = semantic_signature (legacy_runtime_file_system_policy_for_cwd legacy_policy cwd) cwd))
    end.

(** ** The matcher of denied reads *)

Record ReadDenyMatcher : Type := mkMatcher {
  denied_candidates : list (list path);
  deny_read_matchers : list (path -> bool);
  invalid_pattern : bool;
}.

Inductive InvalidDenyReadGlobBehavior : Type := FailClosed | ReturnError.

Context {GH : GlobHost}.

Definition push_unique (candidates : list path) (candidate : path) : list path :=
  if bool_decide (candidate ∈ candidates) then candidates else candidates ++ [candidate].

Definition normalized_and_canonical_candidates (p : path) : list path :=
  let candidates :=
    match from_absolute_path p with
    | Ok normalized => push_unique [] (as_path normalized)
    | Err _ => push_unique [] p
    end in
  match fs_canonicalize p with
  | Ok canonical =>
      match from_absolute_path canonical with
      | Ok canonical_absolute => push_unique candidates (as_path canonical_absolute)
      | Err _ => candidates
      end
  | Err _ => candidates
  end.

(** The compiled patterns, and whether one could not be compiled. *)
Fixpoint build_matchers (behavior : InvalidDenyReadGlobBehavior) (patterns : list str)
  : result (list (path -> bool) * bool) str :=
  match patterns with
  | [] => Ok ([], false)
  | pattern :: patterns' =>
      match build_glob_matcher pattern, behavior with
      | Ok matcher, _ =>
          let? rest := build_matchers behavior patterns' in
          Ok (matcher :: rest.1, rest.2)
      | Err _, FailClosed =>
          let? rest := build_matchers behavior patterns' in
          Ok (rest.1, true)
      | Err err, ReturnError => Err (lit "invalid deny-read glob pattern `" ++ pattern ++ lit "`: " ++ err)
      end
  end.

Definition build_matcher (p : policy) (cwd : path) (behavior : InvalidDenyReadGlobBehavior)
  : result (option ReadDenyMatcher) str :=
  if negb (has_denied_read_restrictions p) then Ok None
  else
    let candidates := map (fun r => normalized_and_canonical_candidates (as_path r)) (get_unreadable_roots_with_cwd p cwd) in
    let? built := build_matchers behavior (get_unreadable_globs_with_cwd p cwd) in
    Ok (Some (mkMatcher candidates built.1 built.2)).

(** [ReadDenyMatcher::new]; [None] of the outer option is the unreachable arm. *)
Definition new_matcher (p : policy) (cwd : path) : option (option ReadDenyMatcher) :=
  result_ok (build_matcher p cwd FailClosed).

Definition try_new_matcher (p : policy) (cwd : path) : result (option ReadDenyMatcher) str :=
  build_matcher p cwd ReturnError.

Definition is_read_denied (m : ReadDenyMatcher) (p : path) : bool :=
  if invalid_pattern m then true
  else
    let path_candidates := normalized_and_canonical_candidates p in
    if existsb (fun denied =>
         existsb (fun candidate =>
           existsb (fun d => bool_decide (candidate = d) || path_starts_with candidate d) denied) path_candidates)
         (denied_candidates m)
    then true
    else existsb (fun matcher => existsb matcher path_candidates) (deny_read_matchers m).

(** ** Profiles *)

Definition permission_profile : Type := PermissionProfile FileSystemSandboxEntry NetworkSandboxPolicy.

Inductive SandboxEnforcement : Type := EnforceManaged | EnforceDisabled | EnforceExternal.

#[export] Instance enforcement_eq_dec : EqDecision SandboxEnforcement.
Proof. solve_decision. Defined.

Definition enforcement_from_legacy (s : SandboxPolicy) : SandboxEnforcement :=
  match s with
  | DangerFullAccess => EnforceDisabled
  | ExternalSandboxPolicy _ => EnforceExternal
  | ReadOnly _ | WorkspaceWrite _ _ _ _ => EnforceManaged
  end.

(** [NonZeroUsize::new] *)
Definition non_zero (n : N) : option N := if (n =? 0)%N then None else Some n.

(** [None] is the unreachable arm. *)
Definition from_sandbox_policy (p : policy) : option (ManagedFileSystemPermissions FileSystemSandboxEntry) :=
  match sandbox_kind p with
  | Restricted => Some (ManagedRestricted (entries p) (glob_scan_max_depth p ≫= non_zero))
  | Unrestricted => Some ManagedUnrestricted
  | ExternalSandbox => None
  end.

Definition from_runtime_permissions_with_enforcement (enforcement : SandboxEnforcement) (p : policy) (network : NetworkSandboxPolicy)
  : option permission_profile :=
  match sandbox_kind p with
  | ExternalSandbox => Some (External network)
  | Unrestricted =>
      if bool_decide (enforcement = EnforceDisabled) then Some Disabled
      else (fun m => Managed m network) <$> from_sandbox_policy p
  | Restricted => (fun m => Managed m network) <$> from_sandbox_policy p
  end.

Definition from_runtime_permissions (p : policy) (network : NetworkSandboxPolicy) : option permission_profile :=
  let enforcement := match sandbox_kind p with Restricted | Unrestricted => EnforceManaged | ExternalSandbox => EnforceExternal end in
  from_runtime_permissions_with_enforcement enforcement p network.

Definition profile_from_legacy_sandbox_policy (s : SandboxPolicy) : option permission_profile :=
  from_runtime_permissions_with_enforcement (enforcement_from_legacy s) (policy_from s) (network_policy_from s).

Definition profile_from_legacy_sandbox_policy_for_cwd (s : SandboxPolicy) (cwd : path) : option permission_profile :=
  from_runtime_permissions_with_enforcement (enforcement_from_legacy s) (from_legacy_sandbox_policy_for_cwd s cwd) (network_policy_from s).

Definition profile_enforcement (p : permission_profile) : SandboxEnforcement :=
  match p with Managed _ _ => EnforceManaged | Disabled => EnforceDisabled | External _ => EnforceExternal end.

Definition network_sandbox_policy (p : permission_profile) : NetworkSandboxPolicy :=
  match p with Managed _ network | External network => network | Disabled => NetEnabled end.

Definition to_runtime_permissions (p : permission_profile) : policy * NetworkSandboxPolicy :=
  (file_system_sandbox_policy p, network_sandbox_policy p).

Definition profile_to_legacy_sandbox_policy (p : permission_profile) (cwd : path) : result SandboxPolicy io_error :=
  match p with
  | Managed file_system network => to_legacy_sandbox_policy (to_sandbox_policy file_system) network cwd
  | Disabled => Ok DangerFullAccess
  | External network =>
      Ok (ExternalSandboxPolicy (if net_is_enabled network then AccessEnabled else AccessRestricted))
  end.

Definition profile_materialize_project_roots (p : permission_profile) (workspace_roots : list AbsolutePathBuf)
  : option permission_profile :=
  match p with
  | Managed file_system network =>
      (fun m => Managed m network)
      <$> from_sandbox_policy (materialize_project_roots_with_workspace_roots (to_sandbox_policy file_system) workspace_roots)
  | Disabled => Some Disabled
  | External network => Some (External network)
  end.
End Host.

(** ** Older policies and back *)

Section Legacy.
Context {PH : PathHost} {FH : FsHost}.
Implicit Types (es : list FileSystemSandboxEntry) (cwd : path).

(** Only read entries are added. *)
Definition read_extension es es' : Prop := exists l, es' = es ++ l /\ Forall (fun e => access e = Read) l.

Lemma read_extension_refl es : read_extension es es.
Proof. exists []. by rewrite app_nil_r. Qed.

Lemma read_extension_trans es1 es2 es3 : read_extension es1 es2 -> read_extension es2 es3 -> read_extension es1 es3.
Proof.
  intros (l1 & -> & H1) (l2 & -> & H2). exists (l1 ++ l2). rewrite app_assoc. split; [done|]. by apply Forall_app.
Qed.

Lemma append_default_extension es p : read_extension es (append_default_read_only_entry_if_no_explicit_rule es p).
Proof.
  unfold append_default_read_only_entry_if_no_explicit_rule. destruct (existsb _ es); [apply read_extension_refl|].
  eexists. split; [reflexivity|]. by apply Forall_singleton.
Qed.

Lemma fold_extension {A} (f : list FileSystemSandboxEntry -> A -> list FileSystemSandboxEntry) (l : list A) es :
  (forall es x, read_extension es (f es x)) -> read_extension es (fold_left f l es).
Proof.
  intros Hf. revert es. induction l as [|x l IH]; intros es; simpl; [apply read_extension_refl|].
  eapply read_extension_trans; [apply Hf | apply IH].
Qed.

Lemma append_protected_extension es roots b : read_extension es (append_protected_paths es roots b).
Proof.
  apply fold_extension. intros es' r. apply fold_extension. intros es'' p. apply append_default_extension.
Qed.

Lemma workspace_write_extension roots a b :
  read_extension (workspace_write_entries roots a b) (entries (workspace_write roots a b)).
Proof.
  unfold workspace_write. simpl. eapply read_extension_trans; [|apply append_protected_extension].
  do 3 (eapply read_extension_trans; [apply append_default_extension|]). apply read_extension_refl.
Qed.

Lemma scan_read c x es : Forall (fun e => access e = Read) es -> fold_left (scan_entry c) es x = x.
Proof.
  intros H. revert x. induction H as [|e es He _ IH]; intros x; simpl; [done|]. rewrite <-(IH x) at 2. f_equal.
  unfold scan_entry. rewrite He. by destruct x.
Qed.

Definition other_roots (cwd : path) (roots : list AbsolutePathBuf) : list AbsolutePathBuf :=
  List.filter (fun r => negb (bool_decide (cwd_absolute cwd = Some r))) roots.

Lemma scan_roots cwd roots acc t s u :
  fold_left (scan_entry (cwd_absolute cwd)) (map (fun p => new_entry (PathEntry p) Write) roots) (mkScan true acc t s u)
  = mkScan true (acc ++ other_roots cwd roots) t s u.
Proof.
  revert acc. induction roots as [|r roots IH]; intros acc; simpl; [by rewrite app_nil_r|].
  case_bool_decide; simpl; rewrite IH; [done|]. by rewrite <-app_assoc.
Qed.

Lemma scan_workspace cwd roots a b :
  fold_left (scan_entry (cwd_absolute cwd)) (workspace_write_entries roots a b) (mkScan false [] false false false)
  = mkScan true (other_roots cwd roots) (negb a) (negb b) false.
Proof.
  unfold workspace_write_entries. rewrite !fold_left_app. simpl. destruct a, b; simpl; by rewrite scan_roots.
Qed.

Lemma workspace_no_root_write roots a b es depth :
  read_extension (workspace_write_entries roots a b) es -> has_full_disk_write_access (mkSandboxPolicy Restricted depth es) = false.
Proof.
  intros (l & -> & Hl). unfold has_full_disk_write_access, has_root_access. cbn [sandbox_kind entries].
  enough (existsb (fun e => bool_decide (entry_path e = Special Root) && can_write (access e))
            (workspace_write_entries roots a b ++ l) = false) as -> by by rewrite andb_false_r.
  rewrite existsb_elem_false. intros e He. apply andb_false_iff. rewrite Forall_forall in Hl.
  apply elem_of_app in He as [He|He]; [|right; by rewrite Hl].
  unfold workspace_write_entries in He. destruct a, b; simpl in He; rewrite ?elem_of_cons, ?elem_of_app in He;
    repeat destruct He as [-> | He]; try (by right); try (by left); apply list_elem_of_fmap in He as (r & -> & _); by left.
Qed.

(** What a round trip keeps of the older policy: the working directory is not
    listed among the roots, and each root once. *)
Definition legacy_normal (cwd : path) (s : SandboxPolicy) : SandboxPolicy :=
  match s with
  | WorkspaceWrite roots n a b => WorkspaceWrite (dedup_absolute_paths (other_roots cwd roots) false) n a b
  | _ => s
  end.

Lemma workspace_to_legacy roots n a b es depth cwd :
  read_extension (workspace_write_entries roots a b) es ->
  to_legacy_sandbox_policy (mkSandboxPolicy Restricted depth es) n cwd
  = Ok (WorkspaceWrite (dedup_absolute_paths (other_roots cwd roots) false) (net_is_enabled n) a b).
Proof.
  intros Hext. pose proof (workspace_no_root_write _ _ _ _ depth Hext) as Hf. destruct Hext as (l & -> & Hl).
  unfold to_legacy_sandbox_policy. simpl sandbox_kind. cbn [entries].
  rewrite fold_left_app, scan_workspace, scan_read by done. rewrite Hf. by rewrite !negb_involutive.
Qed.

(** C32.  An older sandbox policy survives the new representation: the profile made from
    it, with or without the working directory's protected paths, translates back to
    it, but for the working directory listed as a root and repeated roots. *)
Theorem legacy_round_trip (s : SandboxPolicy) (cwd cwd' : path) :
  (exists p, profile_from_legacy_sandbox_policy s = Some p /\ profile_to_legacy_sandbox_policy p cwd = Ok (legacy_normal cwd s)) /\
  (exists p, profile_from_legacy_sandbox_policy_for_cwd s cwd' = Some p
             /\ profile_to_legacy_sandbox_policy p cwd = Ok (legacy_normal cwd s)).
Proof.
  destruct s as [|n|n|roots n a b]; simpl.
  - split; by eexists.
  - split; eexists; (split; [reflexivity|]); destruct n; reflexivity.
  - split; eexists; (split; [reflexivity|]); destruct n; reflexivity.
  - assert (net_is_enabled (network_policy_from (WorkspaceWrite roots n a b)) = n) as Hn by by destruct n.
    split; eexists; (split; [reflexivity|]); cbn [profile_to_legacy_sandbox_policy to_sandbox_policy].
    + rewrite (workspace_to_legacy roots _ a b); [by rewrite Hn | apply workspace_write_extension].
    + rewrite (workspace_to_legacy roots _ a b); [by rewrite Hn|].
      do 2 (eapply read_extension_trans; [|apply append_protected_extension]). apply workspace_write_extension.
Qed.
End Legacy.

Section Facts.
Context {PH : PathHost} {PHL : PathHostLaws} {FH : FsHost} {GH : GlobHost}.
Implicit Types (pol p existing : policy) (cwd q : path) (target : AbsolutePathBuf) (e : ResolvedFileSystemEntry).

(** *** Keeping denied reads *)

Lemma push_absent_elem news es x : x ∈ push_absent news es <-> x ∈ es \/ x ∈ news.
Proof.
  revert es. induction news as [|y news IH]; intros es; simpl; [rewrite elem_of_nil; naive_solver|].
  rewrite IH, elem_of_cons. case_bool_decide; [naive_solver|]. rewrite elem_of_app, list_elem_of_singleton. naive_solver.
Qed.

Lemma deny_entries_elem pol x : x ∈ deny_entries pol <-> x ∈ entries pol /\ access x = Deny.
Proof. unfold deny_entries. by rewrite filter_elem, bool_decide_eq_true. Qed.

(** The allowing side that is kept. *)
Definition kept_side existing p : policy :=
  if bool_decide (sandbox_kind p = Unrestricted) && existsb (fun x => bool_decide (access x = Deny)) (entries existing)
  then restricted [new_entry (Special Root) Write] else p.

Lemma preserve_entries existing p :
  sandbox_kind (kept_side existing p) = Restricted ->
  sandbox_kind (preserve_deny_read_restrictions_from existing p) = Restricted /\
  forall x, x ∈ entries (preserve_deny_read_restrictions_from existing p)
    <-> x ∈ entries (kept_side existing p) \/ (x ∈ entries existing /\ access x = Deny).
Proof.
  unfold preserve_deny_read_restrictions_from. fold (kept_side existing p). unfold is_restricted. intros Hk.
  rewrite bool_decide_true by done. simpl. split; [done|]. intros x. by rewrite push_absent_elem, deny_entries_elem.
Qed.

Lemma preserve_other existing p :
  sandbox_kind (kept_side existing p) <> Restricted -> preserve_deny_read_restrictions_from existing p = kept_side existing p.
Proof.
  unfold preserve_deny_read_restrictions_from. fold (kept_side existing p). unfold is_restricted. intros Hk.
  by rewrite bool_decide_false.
Qed.

Lemma kept_side_cases existing p :
  kept_side existing p = p \/ (sandbox_kind p = Unrestricted /\ kept_side existing p = restricted [new_entry (Special Root) Write]).
Proof. unfold kept_side. destruct (bool_decide _ && _) eqn:E; [right | by left]. boolify. done. Qed.

Lemma preserve_access existing p cwd q a :
  resolve_access_with_cwd (preserve_deny_read_restrictions_from existing p) q cwd = a -> a <> Deny ->
  resolve_access_with_cwd (kept_side existing p) q cwd = a.
Proof.
  intros Ha Hd. destruct (decide (sandbox_kind (kept_side existing p) = Restricted)) as [Hk|Hk];
    [|by rewrite preserve_other in Ha].
  destruct (preserve_entries existing p Hk) as [Hk' Hin].
  destruct (resolve_candidate_path q cwd) as [target|] eqn:Ht.
  2: { unfold resolve_access_with_cwd in Ha. by rewrite Hk', Ht in Ha. }
  destruct (resolve_access_cases _ cwd q target Hk' Ht) as [(e & (He & Hc & Hmax) & Hr)|[_ Hr]]; [|congruence].
  assert (governs (kept_side existing p) cwd target e) as Hg.
  { split_and!; [|done|].
    - apply resolved_elem in He as (x & Hx & Hxa & Hxr). apply resolved_elem. exists x. split_and!; [|done..].
      apply Hin in Hx as [?|[_ ?]]; [done | congruence].
    - intros e' He' Hc'. apply Hmax; [|done]. apply resolved_elem in He' as (x & Hx & Hxa & Hxr).
      apply resolved_elem. exists x. split_and!; [|done..]. apply Hin. by left. }
  destruct (resolve_access_cases _ cwd q target Hk Ht) as [(e' & He' & ->)|[Hno _]].
  - rewrite <-Ha, Hr. by apply (governs_access_unique (kept_side existing p) target cwd).
  - destruct Hg as (Hin' & Hc' & _). by destruct (Hno e Hin').
Qed.

Lemma root_write_access cwd q target :
  resolve_candidate_path q cwd = Some target ->
  let a := resolve_access_with_cwd (restricted [new_entry (Special Root) Write]) q cwd in a = Write \/ a = Deny.
Proof.
  intros Ht. destruct (resolve_access_cases (restricted [new_entry (Special Root) Write]) cwd q target eq_refl Ht)
    as [(e & (He & _) & ->)|[_ ->]]; [left | by right].
  by apply resolved_elem in He as (x & ->%list_elem_of_singleton & <- & _).
Qed.

(** C30.  Replacing the allowing side of a policy by one whose sandbox is not external
    keeps what it denied: with a deny entry to keep the result counts as having denied
    reads, and a path below a deny entry that resolves to a path, and that no new entry
    is more specific about, cannot be read.  In every case the result allows nothing the
    new side does not. *)
Theorem denied_reads_preserved existing p cwd q target :
  wf_path cwd -> resolve_candidate_path q cwd = Some target ->
  let kept := preserve_deny_read_restrictions_from existing p in
  (deny_entries existing <> [] -> sandbox_kind p <> ExternalSandbox -> has_denied_read_restrictions kept = true) /\
  (resolve_access_with_cwd kept q cwd <> Deny -> resolve_access_with_cwd p q cwd = resolve_access_with_cwd kept q cwd) /\
  (forall d dp, d ∈ deny_entries existing -> sandbox_kind p <> ExternalSandbox ->
     resolve_entry_path (entry_path d) (cwd_absolute cwd) = Some dp -> as_path dp `prefix_of` as_path target ->
     (forall e, sandbox_kind p = Restricted -> e ∈ resolved_entries_with_cwd p cwd -> covers e target -> specificity e <= length (as_path dp)) ->
     normal dp -> can_read_path_with_cwd kept q cwd = false).
Proof.
  intros Hw Ht kept.
  assert (forall d, d ∈ deny_entries existing -> sandbox_kind p <> ExternalSandbox -> sandbox_kind (kept_side existing p) = Restricted) as Hkind.
  { intros d [Hd Hda]%deny_entries_elem Hext. unfold kept_side.
    assert (existsb (fun x => bool_decide (access x = Deny)) (entries existing) = true) as ->.
    { apply existsb_elem. exists d. split; [done | by apply bool_decide_eq_true]. }
    by destruct (sandbox_kind p) eqn:Ek; rewrite ?bool_decide_true, ?bool_decide_false by done. }
  split_and!.
  - intros Hne Hext. assert (exists d, d ∈ deny_entries existing) as [d Hd].
    { destruct (deny_entries existing) as [|d ds]; [done|]. exists d. apply list_elem_of_here. }
    destruct (preserve_entries existing p (Hkind d Hd Hext)) as [Hk Hin]. apply deny_entries_elem in Hd as [Hd Hda].
    unfold has_denied_read_restrictions, is_restricted. rewrite bool_decide_true by done. simpl. apply existsb_elem.
    exists d. split; [apply Hin; by right | by apply bool_decide_eq_true].
  - intros Hna. pose proof (preserve_access existing p cwd q _ eq_refl Hna) as Hk. fold kept in Hk.
    destruct (kept_side_cases existing p) as [E|[Hu E]]; [by rewrite <-Hk, E|]. rewrite <-Hk in Hna |- *. rewrite E in *.
    destruct (root_write_access cwd q target Ht) as [Hx|Hx]; [|by rewrite Hx in Hna]. rewrite Hx.
    unfold resolve_access_with_cwd. by rewrite Hu.
  - intros d dp Hd Hext Hr Hpre Hspec Hn. destruct (preserve_entries existing p (Hkind d Hd Hext)) as [Hk Hin].
    apply deny_entries_elem in Hd as [Hd Hda]. unfold can_read_path_with_cwd.
    destruct (resolve_access_cases kept cwd q target Hk Ht) as [(e & (He & Hc & Hmax) & ->)|[_ ->]]; [|done].
    destruct (Hmax (mkResolved dp Deny)) as [Hlt|[_ Hrank]].
    + apply resolved_elem. exists d. split_and!; [apply Hin; by right | done..].
    + done.
    + apply resolved_elem in He as (x & Hx & <- & Hxr). apply Hin in Hx as [Hx|[_ ->]]; [|done].
      unfold specificity in Hlt. simpl in Hlt. destruct (kept_side_cases existing p) as [E|[Hu E]]; rewrite E in *.
      * enough (specificity (mkResolved (resolved_path e) (access x)) <= length (as_path dp)) by (unfold specificity in *; simpl in *; lia).
        apply Hspec; [apply (Hkind d); [by apply deny_entries_elem | done] | | done]. apply resolved_elem. by exists x.
      * apply list_elem_of_singleton in Hx as ->. simpl in Hxr. destruct (cwd_absolute cwd) as [c|] eqn:Ec; [|done].
        rewrite absolute_root_normal in Hxr by eauto using cwd_absolute_normal. injection Hxr as Hxr. rewrite <-Hxr in Hlt.
        destruct Hn as (names & Hdp & _). rewrite Hdp in Hlt. simpl in Hlt. lia.
    + simpl in Hrank. destruct (resolved_access e); simpl in Hrank; try lia. done.
Qed.

(** *** Denied reads *)

Lemma build_matchers_closed patterns :
  exists ms b, build_matchers FailClosed patterns = Ok (ms, b)
    /\ (b = true <-> exists pattern, pattern ∈ patterns /\ is_ok (build_glob_matcher pattern) = false)
    /\ (forall f, f ∈ ms <-> exists pattern, pattern ∈ patterns /\ build_glob_matcher pattern = Ok f).
Proof.
  induction patterns as [|x l (ms & b & Hb & Hbad & Hms)]; simpl.
  { exists [], false. split_and!; [done| |intros f]; split; try done.
    - intros (y & Hy & _). by apply elem_of_nil in Hy.
    - intros Hf. by apply elem_of_nil in Hf.
    - intros (y & Hy & _). by apply elem_of_nil in Hy. }
  rewrite Hb. setoid_rewrite elem_of_cons. destruct (build_glob_matcher x) as [g|err] eqn:Ex; simpl.
  - exists (g :: ms), b. split_and!; [done| |].
    + rewrite Hbad. split; [naive_solver|]. intros (y & [-> | Hy] & Hok); [by rewrite Ex in Hok | eauto].
    + intros f. rewrite elem_of_cons, Hms. split; [naive_solver|]. intros (y & [-> | Hy] & Hok); [|eauto].
      rewrite Ex in Hok. injection Hok as ->. by left.
  - exists ms, true. split_and!; [done| |].
    + split; [|done]. intros _. exists x. rewrite Ex. auto.
    + intros f. rewrite Hms. split; [naive_solver|]. intros (y & [-> | Hy] & Hok); [by rewrite Ex in Hok | eauto].
Qed.

Lemma candidates_plain q : no_symlinks -> normal_path q -> normalized_and_canonical_candidates q = [q].
Proof.
  intros Hns Hq. unfold normalized_and_canonical_candidates. rewrite from_absolute_path_id by done. simpl.
  destruct (fs_canonicalize q) as [q'|] eqn:Ec; [|done]. apply Hns in Ec as ->; [|done].
  rewrite from_absolute_path_id by done. unfold push_unique at 1. simpl. by rewrite bool_decide_true by apply list_elem_of_here.
Qed.

Lemma unreadable_roots_elem pol cwd r :
  no_symlinks -> wf_policy pol -> wf_path cwd -> sandbox_kind pol = Restricted ->
  r ∈ get_unreadable_roots_with_cwd pol cwd <->
  exists e, e ∈ resolved_entries_with_cwd pol cwd /\ resolved_access e = Deny /\ resolved_path e = r
    /\ can_read_path_with_cwd pol (as_path r) cwd = false
    /\ (let! c := cwd_absolute cwd in absolute_root_path_for_cwd c) <> Some r.
Proof.
  intros Hns Hpol Hw Hk. unfold get_unreadable_roots_with_cwd, is_restricted. rewrite bool_decide_true by done. simpl.
  unfold dedup_absolute_paths. rewrite dedup_seen_elem, list_elem_of_fmap. setoid_rewrite list_elem_of_fmap.
  setoid_rewrite filter_elem. setoid_rewrite filter_elem. setoid_rewrite filter_elem. setoid_rewrite negb_true_iff.
  setoid_rewrite bool_decide_eq_true. setoid_rewrite bool_decide_eq_false. split.
  - intros [(x & -> & e & -> & ((He & Ha) & Hr) & Hroot) _]. exists e.
    rewrite normalize_effective_id; [done..|]. by apply (resolved_normal pol cwd).
  - intros (e & He & Ha & <- & Hr & Hroot). split; [|apply not_elem_of_nil]. exists (resolved_path e).
    rewrite normalize_effective_id; [|done|by apply (resolved_normal pol cwd)]. split; [done|]. by exists e.
Qed.

Lemma denied_below_root pol cwd target e :
  no_symlinks -> wf_policy pol -> wf_path cwd -> sandbox_kind pol = Restricted ->
  governs pol cwd target e -> resolved_access e = Deny -> resolved_path e <> mkAbs [RootDir] ->
  resolved_path e ∈ get_unreadable_roots_with_cwd pol cwd.
Proof.
  intros Hns Hpol Hw Hk Hg Ha Hne. apply unreadable_roots_elem; [done..|]. pose proof Hg as (He & Hc & _). exists e.
  assert (normal (resolved_path e)) as Hn by by apply (resolved_normal pol cwd).
  split_and!; try done.
  - unfold can_read_path_with_cwd. rewrite (governed_access pol cwd _ e); [by rewrite Ha | done..|].
    apply (governs_below pol cwd target); [done | by unfold covers | done].
  - destruct (cwd_absolute cwd) as [c|] eqn:Ec; [|done]. rewrite absolute_root_normal by eauto using cwd_absolute_normal.
    congruence.
Qed.

Lemma is_read_denied_iff pol cwd target ms b :
  no_symlinks -> wf_policy pol -> wf_path cwd -> sandbox_kind pol = Restricted -> normal target ->
  is_read_denied (mkMatcher (map (fun r => normalized_and_canonical_candidates (as_path r))
    (get_unreadable_roots_with_cwd pol cwd)) ms b) (as_path target) = true <->
  b = true \/ (exists d, d ∈ get_unreadable_roots_with_cwd pol cwd /\ as_path d `prefix_of` as_path target)
  \/ (exists f, f ∈ ms /\ f (as_path target) = true).
Proof.
  intros Hns Hpol Hw Hk Hn. unfold is_read_denied. simpl. destruct b; [naive_solver|].
  rewrite candidates_plain by done.
  assert (existsb (fun denied => existsb (fun candidate =>
            existsb (fun d => bool_decide (candidate = d) || path_starts_with candidate d) denied) [as_path target])
            (map (fun r => normalized_and_canonical_candidates (as_path r)) (get_unreadable_roots_with_cwd pol cwd)) = true
          <-> exists d, d ∈ get_unreadable_roots_with_cwd pol cwd /\ as_path d `prefix_of` as_path target) as Hroots.
  { rewrite existsb_elem. setoid_rewrite list_elem_of_fmap. split.
    - intros (l & (d & -> & Hd) & Hx). exists d. split; [done|].
      destruct (proj1 (unreadable_roots_elem _ _ _ Hns Hpol Hw Hk) Hd) as (e & He & _ & <- & _).
      rewrite candidates_plain in Hx; [|done|by apply (resolved_normal pol cwd)]. simpl in Hx.
      rewrite !orb_false_r, orb_true_iff, bool_decide_eq_true, path_starts_with_prefix in Hx. destruct Hx as [-> | ?]; done.
    - intros (d & Hd & Hpre). eexists. split; [by exists d|].
      destruct (proj1 (unreadable_roots_elem _ _ _ Hns Hpol Hw Hk) Hd) as (e & He & _ & <- & _).
      rewrite candidates_plain; [|done|by apply (resolved_normal pol cwd)]. simpl.
      rewrite !orb_false_r, orb_true_iff, path_starts_with_prefix. by right. }
  destruct (existsb _ (map _ _)) eqn:E1; [naive_solver|]. rewrite existsb_elem.
  split; [|intros [?|[Hd|(f & Hf & Hft)]]; [done | by apply Hroots in Hd | exists f; split; [done|]; simpl; by rewrite Hft]].
  intros (f & Hf & Hft). right; right. exists f. split; [done|]. simpl in Hft. by rewrite orb_false_r in Hft.
Qed.

(** The check before a direct read. It is built exactly when the policy denies
    reads; without symbolic links it refuses a path if and only if a pattern could
    not be compiled, or the path is at or below a denied root, or a pattern matches
    it; so every path an entry denies, but by denying the whole disk, is refused. *)
Theorem read_deny_exact pol cwd target :
  no_symlinks -> wf_policy pol -> wf_path cwd -> normal target ->
  let globs := get_unreadable_globs_with_cwd pol cwd in
  exists r, new_matcher pol cwd = Some r /\ (is_Some r <-> has_denied_read_restrictions pol = true) /\
  forall m, r = Some m ->
    (is_read_denied m (as_path target) = true <->
      (exists pattern, pattern ∈ globs /\ is_ok (build_glob_matcher pattern) = false)
      \/ (exists d, d ∈ get_unreadable_roots_with_cwd pol cwd /\ as_path d `prefix_of` as_path target)
      \/ (exists pattern f, pattern ∈ globs /\ build_glob_matcher pattern = Ok f /\ f (as_path target) = true)) /\
    (forall e, governs pol cwd target e -> resolved_access e = Deny -> resolved_path e <> mkAbs [RootDir] ->
       is_read_denied m (as_path target) = true).
Proof.
  intros Hns Hpol Hw Hn globs. unfold new_matcher, build_matcher.
  destruct (has_denied_read_restrictions pol) eqn:Ed; simpl; [|exists None; split_and!; [done | by split; [intros []|] | done]].
  assert (sandbox_kind pol = Restricted) as Hk by (unfold has_denied_read_restrictions, is_restricted in Ed; boolify; done).
  destruct (build_matchers_closed globs) as (ms & b & Hb & Hbad & Hms). fold globs. rewrite Hb. simpl.
  eexists. split_and!; [reflexivity | by split|]. intros m [= <-].
  pose proof (is_read_denied_iff pol cwd target ms b Hns Hpol Hw Hk Hn) as Hiff. split.
  - rewrite Hiff, Hbad. setoid_rewrite Hms. naive_solver.
  - intros e Hg Ha Hne. apply Hiff. right; left. exists (resolved_path e).
    split; [by apply (denied_below_root pol cwd target) | by destruct Hg as (_ & ? & _)].
Qed.

(** *** Binding project roots *)

Lemma materialize_resolved cwd cwd2 c c2 x :
  wf_path cwd -> wf_path cwd2 -> cwd_absolute cwd = Some c -> cwd_absolute cwd2 = Some c2 ->
  resolve_entry (Some c2) (materialize_entry_with_cwd (Some c) x) = resolve_entry (Some c) x.
Proof.
  intros Hw Hw2 Hc Hc2. assert (normal c) by by apply (cwd_absolute_normal cwd).
  assert (normal c2) by by apply (cwd_absolute_normal cwd2). unfold materialize_entry_with_cwd, resolve_entry.
  destruct (entry_path x) as [a|pattern|value] eqn:Ex.
  - by rewrite !Ex.
  - destruct (parse_project_roots_glob_pattern pattern); simpl; by rewrite ?Ex.
  - destruct value as [| |subpath| | |]; rewrite ?Ex; try done.
    + simpl. by rewrite !absolute_root_normal.
    + destruct subpath; done.
Qed.

(** Replacing symbolic project roots by paths keeps what they mean, for the working
    directory they are bound to, and pins it: under any later working directory
    every absolute path has the access it had. *)
Theorem materialized_pinned pol cwd cwd2 c c2 q :
  wf_path cwd -> wf_path cwd2 -> cwd_absolute cwd = Some c -> cwd_absolute cwd2 = Some c2 -> is_absolute q = true ->
  resolve_access_with_cwd (materialize_project_roots_with_cwd pol cwd) q cwd2 = resolve_access_with_cwd pol q cwd.
Proof.
  intros Hw Hw2 Hc Hc2 Hq. unfold resolve_access_with_cwd, covering_entries, resolve_candidate_path. rewrite Hq. simpl.
  enough (resolved_entries_with_cwd (materialize_project_roots_with_cwd pol cwd) cwd2 = resolved_entries_with_cwd pol cwd) as ->
    by done.
  unfold resolved_entries_with_cwd. simpl. rewrite Hc, Hc2. induction (entries pol) as [|x l IH]; [done|]. csimpl.
  by rewrite (materialize_resolved cwd cwd2), IH.
Qed.

Lemma profile_runtime_round_trip (p : permission_profile) :
  (forall es, p <> Managed (ManagedRestricted es (Some 0%N)) (network_sandbox_policy p)) ->
  let '(fs, network) := to_runtime_permissions p in
  from_runtime_permissions_with_enforcement (profile_enforcement p) fs network = Some p.
Proof.
  destruct p as [[es depth|] n| |n]; simpl; intros Hz; try done.
  unfold from_runtime_permissions_with_enforcement, from_sandbox_policy. simpl. do 3 f_equal.
  destruct depth as [d|]; [|done]. simpl. unfold non_zero. destruct (N.eqb_spec d 0) as [->|]; [|done]. by destruct (Hz es).
Qed.
End Facts.

Module PoliciesDemo.
(** Patterns that match one path; a pattern with an open brace does not compile. *)
#[export] Instance literal_globs : GlobHost := {|
  build_glob_matcher pattern :=
    if contains_char 123 pattern then Err (lit "unclosed alternate group")
    else Ok (fun p => bool_decide (display p = pattern));
|}.
Definition one_secret : policy := restricted
  [new_entry (PathEntry (PermissionsDemo.abs (lit "/work/repo/secrets"))) Deny; new_entry (GlobPattern (lit "keys/*")) Deny].
End PoliciesDemo.
Import AbsPathDemo PermissionsDemo PoliciesDemo.

Lemma secret_path_normal : normal (abs (lit "/work/repo/secrets/key")).
Proof. apply demo_normal; vm_compute; reflexivity. Qed.

Lemma denied_reads_preserved_witness :
  can_read_path_with_cwd (FH := plain_fs true) (preserve_deny_read_restrictions_from one_secret unrestricted)
    (path_new (lit "secrets/key")) repo = false.
Proof.
  destruct (denied_reads_preserved (FH := plain_fs true) one_secret unrestricted repo (path_new (lit "secrets/key"))
              (abs (lit "/work/repo/secrets/key"))) as (_ & _ & Hdeny).
  - apply path_new_wf.
  - vm_compute. reflexivity.
  - apply (Hdeny (new_entry (PathEntry (abs (lit "/work/repo/secrets"))) Deny) (abs (lit "/work/repo/secrets"))).
    + apply list_elem_of_here.
    + discriminate.
    + reflexivity.
    + exists [Normal (lit "key")]. vm_compute. reflexivity.
    + discriminate.
    + apply demo_normal; vm_compute; reflexivity.
Defined.

Lemma read_deny_exact_witness :
  exists m, new_matcher (FH := plain_fs true) one_secret repo = Some (Some m)
    /\ is_read_denied (FH := plain_fs true) m (path_new (lit "/work/repo/secrets/key")) = true.
Proof.
  destruct (read_deny_exact (FH := plain_fs true) one_secret repo (abs (lit "/work/repo/secrets/key"))) as (r & Hr & Hs & Hm).
  - intros p q _ [= <-]. reflexivity.
  - unfold wf_policy. repeat constructor; apply demo_normal; vm_compute; reflexivity.
  - apply path_new_wf.
  - apply secret_path_normal.
  - destruct (proj2 Hs eq_refl) as [m ->]. exists m. split; [exact Hr|].
    apply (Hm m eq_refl). right; left. exists (abs (lit "/work/repo/secrets")). split.
    + apply list_elem_of_In. vm_compute. tauto.
    + exists [Normal (lit "key")]. vm_compute. reflexivity.
Defined.

Lemma materialized_pinned_witness :
  resolve_access_with_cwd (FH := plain_fs true) (materialize_project_roots_with_cwd (FH := plain_fs true) workspace repo)
    (path_new (lit "/work/repo/src")) (path_new (lit "/elsewhere")) = Write.
Proof.
  rewrite (materialized_pinned (FH := plain_fs true) workspace repo (path_new (lit "/elsewhere"))
             (abs (lit "/work/repo")) (abs (lit "/elsewhere"))).
  - vm_compute. reflexivity.
  - apply path_new_wf.
  - apply path_new_wf.
  - vm_compute. reflexivity.
  - vm_compute. reflexivity.
  - reflexivity.
Defined.
