(* ===== verification/PolicyTransforms.v ===== *)
(** * Additional permissions

    Models [sandboxing/src/policy_transforms.rs] on Unix, with the permission
    overlays of [protocol/src/models.rs]: how requested and granted permissions are
    normalized, merged and intersected, the profile that is in effect, and when a
    platform sandbox is needed. *)

From Stdlib Require Import Lia.
From S2P Require Import Prelude RustStr PatchSyntax AbsPath Profile Permissions SandboxPolicies.

(** ** Data *)

Record FileSystemPermissions : Type := mkFsPermissions {
  fs_entries : list FileSystemSandboxEntry;
  fs_glob_scan_max_depth : option N;
}.

Definition fs_is_empty (f : FileSystemPermissions) : bool := match fs_entries f with [] => true | _ => false end.

Definition default_fs_permissions : FileSystemPermissions := mkFsPermissions [] None.

Record NetworkPermissions : Type := mkNetPermissions { enabled : option bool }.

Definition net_is_empty (n : NetworkPermissions) : bool := match enabled n with None => true | Some _ => false end.

Record AdditionalPermissionProfile : Type := mkAdditional {
  additional_network : option NetworkPermissions;
  additional_file_system : option FileSystemPermissions;
}.

Definition additional_is_empty (a : AdditionalPermissionProfile) : bool :=
  match additional_network a, additional_file_system a with None, None => true | _, _ => false end.

(** *** The form with two lists of roots, which older readers know *)

Record LegacyReadWriteRoots : Type := mkLegacyRoots { legacy_read : option (list AbsolutePathBuf); legacy_write : option (list AbsolutePathBuf) }.

Definition from_read_write_roots (read write : option (list AbsolutePathBuf)) : FileSystemPermissions :=
  mkFsPermissions
    (map (fun p => new_entry (PathEntry p) Read) (default [] read) ++ map (fun p => new_entry (PathEntry p) Write) (default [] write))
    None.

Fixpoint collect_legacy_roots (es : list FileSystemSandboxEntry) : option (list AbsolutePathBuf * list AbsolutePathBuf) :=
  match es with
  | [] => Some ([], [])
  | e :: es' =>
      match entry_path e with
      | PathEntry p =>
          match access e with
          | Deny => None
          | Read => let! rest := collect_legacy_roots es' in Some (p :: rest.1, rest.2)
          | Write => let! rest := collect_legacy_roots es' in Some (rest.1, p :: rest.2)
          end
      | _ => None
      end
  end.

Definition then_some_roots (l : list AbsolutePathBuf) : option (list AbsolutePathBuf) := match l with [] => None | _ => Some l end.

Definition as_legacy_permissions (f : FileSystemPermissions) : option LegacyReadWriteRoots :=
  match fs_glob_scan_max_depth f with
  | Some _ => None
  | None =>
      let! roots := collect_legacy_roots (fs_entries f) in
      Some (mkLegacyRoots (then_some_roots roots.1) (then_some_roots roots.2))
  end.

(** ** Scan depths *)

Inductive GlobScanDepth : Type := Bounded (depth : N) | Unbounded.

Definition effective_glob_scan_depth (es : list FileSystemSandboxEntry) (depth : option N) : option GlobScanDepth :=
  if existsb (fun e => bool_decide (access e = Deny) && match entry_path e with GlobPattern _ => true | _ => false end) es
  then Some (match depth with Some depth => Bounded depth | None => Unbounded end)
  else None.

Definition merge_glob_scan_max_depth (left_entries : list FileSystemSandboxEntry) (left_depth : option N)
    (right_entries : list FileSystemSandboxEntry) (right_depth : option N) : option N :=
  match effective_glob_scan_depth left_entries left_depth, effective_glob_scan_depth right_entries right_depth with
  | Some Unbounded, _ | _, Some Unbounded => None
  | Some (Bounded l), Some (Bounded r) => Some (N.max l r)
  | Some (Bounded depth), None | None, Some (Bounded depth) => Some depth
  | None, None => None
  end.

(** ** Merging *)

Definition merge_permission_entries (base permissions : list FileSystemSandboxEntry) : list FileSystemSandboxEntry :=
  push_absent (base ++ permissions) [].

Definition net_grants (n : option NetworkPermissions) : bool :=
  match n with Some (mkNetPermissions (Some true)) => true | _ => false end.

Definition filter_option {A} (f : A -> bool) (o : option A) : option A :=
  match o with Some x => if f x then Some x else None | None => None end.

Definition merge_permission_profiles (base permissions : option AdditionalPermissionProfile) : option AdditionalPermissionProfile :=
  match permissions with
  | None => base
  | Some permissions =>
      match base with
      | None => filter_option (fun p => negb (additional_is_empty p)) (Some permissions)
      | Some base =>
          let network :=
            if net_grants (additional_network base) || net_grants (additional_network permissions)
            then Some (mkNetPermissions (Some true)) else None in
          let file_system :=
            match additional_file_system base, additional_file_system permissions with
            | Some b, Some p =>
                filter_option (fun f => negb (fs_is_empty f))
                  (Some (mkFsPermissions (merge_permission_entries (fs_entries b) (fs_entries p))
                     (merge_glob_scan_max_depth (fs_entries b) (fs_glob_scan_max_depth b) (fs_entries p) (fs_glob_scan_max_depth p)
                      ≫= non_zero)))
            | Some b, None => Some b
            | None, Some p => Some p
            | None, None => None
            end in
          filter_option (fun p => negb (additional_is_empty p)) (Some (mkAdditional network file_system))
      end
  end.

Definition merge_file_system_policy_with_additional_permissions (p : policy) (additional : FileSystemPermissions) : policy :=
  match sandbox_kind p with
  | Restricted =>
      mkSandboxPolicy Restricted
        (merge_glob_scan_max_depth (entries p) (glob_scan_max_depth p) (fs_entries additional) (fs_glob_scan_max_depth additional))
        (push_absent (fs_entries additional) (entries p))
  | Unrestricted | ExternalSandbox => p
  end.

Definition effective_file_system_sandbox_policy (p : policy) (additional : option AdditionalPermissionProfile) : policy :=
  match additional with
  | None => p
  | Some additional =>
      match additional_file_system additional with
      | None => p
      | Some fs => if fs_is_empty fs then p else merge_file_system_policy_with_additional_permissions p fs
      end
  end.

Definition merge_network_access (base_network_access : bool) (additional : AdditionalPermissionProfile) : bool :=
  base_network_access || default false (additional_network additional ≫= enabled).

Definition effective_network_sandbox_policy (n : NetworkSandboxPolicy) (additional : option AdditionalPermissionProfile)
  : NetworkSandboxPolicy :=
  match additional with
  | Some permissions => if merge_network_access (net_is_enabled n) permissions then NetEnabled else NetRestricted
  | None => n
  end.

Definition effective_permission_profile (p : permission_profile) (additional : option AdditionalPermissionProfile)
  : option permission_profile :=
  let '(file_system_policy, network_policy) := to_runtime_permissions p in
  from_runtime_permissions_with_enforcement (profile_enforcement p)
    (effective_file_system_sandbox_policy file_system_policy additional)
    (effective_network_sandbox_policy network_policy additional).

Definition should_require_platform_sandbox (p : policy) (n : NetworkSandboxPolicy) (has_managed_network_requirements : bool) : bool :=
  if has_managed_network_requirements then true
  else if negb (net_is_enabled n) then negb (bool_decide (sandbox_kind p = ExternalSandbox))
  else
    match sandbox_kind p with
    | Restricted => negb (has_full_disk_write_access p)
    | Unrestricted | ExternalSandbox => false
    end.

(** ** Normalizing and intersecting *)

Section Host.
Context {PH : PathHost} {FH : FsHost} {GH : GlobHost}.

Definition normalize_entry_path (p : FileSystemPath) : FileSystemPath :=
  match p with
  | PathEntry a =>
      PathEntry (default a (let! q := result_ok (canonicalize_preserving_symlinks (as_path a)) in result_ok (from_absolute_path q)))
  | _ => p
  end.

Fixpoint normalize_entries (es acc : list FileSystemSandboxEntry) : result (list FileSystemSandboxEntry) str :=
  match es with
  | [] => Ok acc
  | e :: es' =>
      if (match entry_path e with GlobPattern _ => true | _ => false end) && negb (bool_decide (access e = Deny))
      then Err (lit "glob file system permissions only support deny-read entries")
      else
        let normalized_entry := with_path e (normalize_entry_path (entry_path e)) in
        normalize_entries es' (if bool_decide (normalized_entry ∈ acc) then acc else acc ++ [normalized_entry])
  end.

Definition normalize_additional_permissions (a : AdditionalPermissionProfile) : result AdditionalPermissionProfile str :=
  let network := filter_option (fun n => negb (net_is_empty n)) (additional_network a) in
  let? file_system :=
    match additional_file_system a with
    | Some fs =>
        let? es := normalize_entries (fs_entries fs) [] in
        Ok (filter_option (fun f => negb (fs_is_empty f)) (Some (mkFsPermissions es (fs_glob_scan_max_depth fs))))
    | None => Ok None
    end in
  Ok (mkAdditional network file_system).

Definition resolve_permission_path (p : FileSystemPath) (cwd : path) : option AbsolutePathBuf :=
  match p with
  | PathEntry p => Some p
  | GlobPattern _ => None
  | Special Root =>
      let! r := last (ancestors cwd) in
      result_ok (from_absolute_path r)
  | Special (ProjectRoots subpath) =>
      let! cwd := cwd_absolute cwd in
      Some (match subpath with
            | Some subpath => resolve_path_against_base (path_new subpath) (as_path cwd)
            | None => cwd
            end)
  | Special Tmpdir =>
      let! tmpdir := tmpdir_var in
      if is_empty tmpdir then None else result_ok (from_absolute_path (path_new tmpdir))
  | Special SlashTmp => filter_option (fun p => is_dir (as_path p)) (result_ok (from_absolute_path SLASH_TMP))
  | Special Minimal | Special (UnknownSpecial _ _) => None
  end.

Definition access_covers (requested granted : FileSystemAccessMode) : bool :=
  match granted with Read => can_read requested | Write => can_write requested | Deny => false end.

Definition paths_overlap (l r : path) : bool := path_starts_with l r || path_starts_with r l.

Definition is_glob_char (c : N) : bool := existsb (N.eqb c) [42; 63; 91; 93]%N.

(** [str::find] of one of the pattern characters: the text before it. *)
Fixpoint before_glob_char (s : str) : option str :=
  match s with
  | [] => None
  | c :: s' => if is_glob_char c then Some [] else (cons c) <$> before_glob_char s'
  end.

Definition BACKSLASH : N := 92.

Definition glob_static_prefix_path (pattern : str) (cwd : path) : option AbsolutePathBuf :=
  let resolved_pattern := display (as_path (resolve_path_against_base (path_new pattern) cwd)) in
  let! p :=
    match before_glob_char resolved_pattern with
    | Some [] => None
    | Some prefix =>
        if bool_decide (last prefix = Some SEP) || bool_decide (last prefix = Some BACKSLASH) then Some (path_new prefix)
        else parent (path_new prefix)
    | None => Some (path_new resolved_pattern)
    end in
  result_ok (from_absolute_path p).

Definition deny_entry_constrains_accepted_grant (deny : FileSystemSandboxEntry) (accepted : list FileSystemSandboxEntry) (cwd : path) : bool :=
  existsb (fun e =>
    match resolve_permission_path (entry_path e) cwd with
    | None => false
    | Some grant_path =>
        let deny_path :=
          match entry_path deny with
          | GlobPattern pattern => glob_static_prefix_path pattern cwd
          | PathEntry _ | Special _ => resolve_permission_path (entry_path deny) cwd
          end in
        match deny_path with
        | Some deny_path => paths_overlap (as_path deny_path) (as_path grant_path)
        | None => false
        end
    end) (List.filter (fun e => can_read (access e)) accepted).

Definition materialize_cwd_dependent_entry (e : FileSystemSandboxEntry) (cwd : path) : FileSystemSandboxEntry :=
  match entry_path e with
  | Special (ProjectRoots _) =>
      match resolve_permission_path (entry_path e) cwd with
      | Some p => with_path e (PathEntry p)
      | None => e
      end
  | GlobPattern pattern => with_path e (GlobPattern (display (as_path (resolve_path_against_base (path_new pattern) cwd))))
  | PathEntry _ | Special _ => e
  end.

(** [retain_constraining_deny_entries]: the retained entries; the caller adds the
    absent ones to its output. *)
Definition retain_constraining_deny_entries (source accepted : list FileSystemSandboxEntry) (cwd : path) : list FileSystemSandboxEntry :=
  map (fun e => materialize_cwd_dependent_entry e cwd)
    (List.filter (fun e => deny_entry_constrains_accepted_grant e accepted cwd)
      (List.filter (fun e => bool_decide (access e = Deny)) source)).

Definition granted_file_system_entry_within_request (requested : FileSystemPermissions) (requested_policy : policy)
    (matcher : option ReadDenyMatcher) (granted_entry : FileSystemSandboxEntry) (cwd : path) : bool :=
  if negb (can_read (access granted_entry)) then false
  else
    match resolve_permission_path (entry_path granted_entry) cwd with
    | Some p =>
        if match matcher with Some m => is_read_denied m (as_path p) | None => false end then false
        else access_covers (resolve_access_with_cwd requested_policy (as_path p) cwd) (access granted_entry)
    | None =>
        existsb (fun r => access_covers (access r) (access granted_entry) && bool_decide (entry_path r = entry_path granted_entry))
          (fs_entries requested)
    end.

Definition accepted_entries (requested granted : FileSystemPermissions) (cwd : path) : list FileSystemSandboxEntry :=
  let requested_policy := restricted (fs_entries requested) in
  let matcher := default None (new_matcher requested_policy cwd) in
  push_absent
    (map (fun e => materialize_cwd_dependent_entry e cwd)
      (List.filter (fun e => granted_file_system_entry_within_request requested requested_policy matcher e cwd) (fs_entries granted))) [].

Definition intersect_file_system (requested granted : FileSystemPermissions) (cwd : path) : FileSystemPermissions :=
  let accepted := accepted_entries requested granted cwd in
  let requested_retained := retain_constraining_deny_entries (fs_entries requested) accepted cwd in
  let granted_retained := retain_constraining_deny_entries (fs_entries granted) accepted cwd in
  mkFsPermissions (push_absent granted_retained (push_absent requested_retained accepted))
    (merge_glob_scan_max_depth requested_retained (fs_glob_scan_max_depth requested)
       granted_retained (fs_glob_scan_max_depth granted) ≫= non_zero).

Definition intersect_permission_profiles (requested granted : AdditionalPermissionProfile) (cwd : path) : AdditionalPermissionProfile :=
  let file_system :=
    filter_option (fun f => negb (fs_is_empty f))
      ((fun r => intersect_file_system r (default default_fs_permissions (additional_file_system granted)) cwd)
       <$> additional_file_system requested) in
  let network :=
    if net_grants (additional_network requested) && net_grants (additional_network granted)
    then Some (mkNetPermissions (Some true)) else None in
  mkAdditional network file_system.
End Host.

(** ** The intersection is within both sides *)

(** What an overlay allows on its own. *)
Definition overlay_policy (a : AdditionalPermissionProfile) : policy :=
  restricted (match additional_file_system a with Some fs => fs_entries fs | None => [] end).

Section Facts.
Context {PH : PathHost} {PHL : PathHostLaws} {FH : FsHost} {GH : GlobHost}.
Implicit Types (cwd q : path) (target : AbsolutePathBuf) (requested granted : FileSystemPermissions).

Lemma cwd_absolute_id cwd : normal_path cwd -> cwd_absolute cwd = Some (mkAbs cwd).
Proof. intros Hc. unfold cwd_absolute. by rewrite from_absolute_path_id. Qed.

Lemma permission_path_entry p cwd : normal_path cwd -> resolve_permission_path p cwd = resolve_entry_path p (cwd_absolute cwd).
Proof.
  intros Hc. rewrite (cwd_absolute_id _ Hc). destruct p as [a|pattern|value]; try done.
  destruct value as [| |subpath| | |]; try done; simpl.
  - rewrite (cwd_absolute_id _ Hc). by destruct subpath.
  - rewrite from_absolute_path_id by apply slash_tmp_normal. simpl. by destruct (is_dir SLASH_TMP).
Qed.

Lemma materialize_permission_resolves e cwd c :
  normal_path cwd -> cwd_absolute cwd = c ->
  resolve_entry_path (entry_path (materialize_cwd_dependent_entry e cwd)) c = resolve_entry_path (entry_path e) c
  /\ access (materialize_cwd_dependent_entry e cwd) = access e.
Proof.
  intros Hc <-. unfold materialize_cwd_dependent_entry. destruct (entry_path e) as [a|pattern|value] eqn:Ee; rewrite ?Ee; try done.
  destruct value as [| |subpath| | |]; rewrite ?Ee; try done. rewrite permission_path_entry by done.
  destruct (resolve_entry_path (Special (ProjectRoots subpath)) (cwd_absolute cwd)) as [p|] eqn:Er; [done|]. by rewrite Ee, Er.
Qed.

Lemma accepted_elem requested granted cwd x :
  x ∈ accepted_entries requested granted cwd <->
  exists g, g ∈ fs_entries granted /\ x = materialize_cwd_dependent_entry g cwd
    /\ granted_file_system_entry_within_request requested (restricted (fs_entries requested))
         (default None (new_matcher (restricted (fs_entries requested)) cwd)) g cwd = true.
Proof.
  unfold accepted_entries. rewrite push_absent_elem, elem_of_nil, list_elem_of_fmap. setoid_rewrite filter_elem. naive_solver.
Qed.

Lemma retained_elem source accepted cwd x :
  x ∈ retain_constraining_deny_entries source accepted cwd <->
  exists d, d ∈ source /\ access d = Deny /\ deny_entry_constrains_accepted_grant d accepted cwd = true
    /\ x = materialize_cwd_dependent_entry d cwd.
Proof.
  unfold retain_constraining_deny_entries. rewrite list_elem_of_fmap. setoid_rewrite filter_elem. setoid_rewrite filter_elem.
  setoid_rewrite bool_decide_eq_true. naive_solver.
Qed.

Definition intersection requested granted cwd : policy := restricted (fs_entries (intersect_file_system requested granted cwd)).

Lemma intersection_elem requested granted cwd x :
  x ∈ entries (intersection requested granted cwd) <->
  x ∈ accepted_entries requested granted cwd
  \/ x ∈ retain_constraining_deny_entries (fs_entries requested) (accepted_entries requested granted cwd) cwd
  \/ x ∈ retain_constraining_deny_entries (fs_entries granted) (accepted_entries requested granted cwd) cwd.
Proof. simpl. rewrite !push_absent_elem. naive_solver. Qed.

(** An entry of the intersection that is not a denial was granted and is covered by the request. *)
Lemma intersection_readable requested granted cwd e :
  normal_path cwd -> e ∈ resolved_entries_with_cwd (intersection requested granted cwd) cwd -> resolved_access e <> Deny ->
  exists g x, g ∈ fs_entries granted /\ x ∈ accepted_entries requested granted cwd /\ access x = resolved_access e /\ access g = resolved_access e
    /\ resolve_entry_path (entry_path g) (cwd_absolute cwd) = Some (resolved_path e)
    /\ resolve_entry_path (entry_path x) (cwd_absolute cwd) = Some (resolved_path e)
    /\ access_covers (resolve_access_with_cwd (restricted (fs_entries requested)) (as_path (resolved_path e)) cwd) (access g) = true.
Proof.
  intros Hc (x & Hx & Ha & Hr)%resolved_elem Hd.
  apply intersection_elem in Hx as [Hx|[(d & _ & Hda & _ & ->)%retained_elem|(d & _ & Hda & _ & ->)%retained_elem]].
  2, 3: destruct (materialize_permission_resolves d cwd _ Hc eq_refl); congruence.
  pose proof Hx as (g & Hg & -> & Hw)%accepted_elem. destruct (materialize_permission_resolves g cwd _ Hc eq_refl) as [Hmr Hma].
  exists g, (materialize_cwd_dependent_entry g cwd). rewrite Hmr in Hr. split_and!; try done; [congruence | by rewrite Hmr|].
  unfold granted_file_system_entry_within_request in Hw. rewrite permission_path_entry, Hr in Hw by done.
  destruct (negb (can_read (access g))); [done|]. by destruct (match default None _ with Some m => _ | None => _ end).
Qed.

(** A denial of either side that overlaps an accepted entry is kept. *)
Lemma intersection_keeps_denial requested granted cwd source d dp x gp :
  normal_path cwd -> source = fs_entries requested \/ source = fs_entries granted ->
  d ∈ source -> access d = Deny -> resolve_entry_path (entry_path d) (cwd_absolute cwd) = Some dp ->
  x ∈ accepted_entries requested granted cwd -> access x <> Deny -> resolve_entry_path (entry_path x) (cwd_absolute cwd) = Some gp ->
  as_path gp `prefix_of` as_path dp \/ as_path dp `prefix_of` as_path gp ->
  mkResolved dp Deny ∈ resolved_entries_with_cwd (intersection requested granted cwd) cwd.
Proof.
  intros Hc Hsource Hd Hda Hdr Hx Hxa Hxr Hov. destruct (materialize_permission_resolves d cwd _ Hc eq_refl) as [Hmr Hma].
  apply resolved_elem. exists (materialize_cwd_dependent_entry d cwd). rewrite Hmr, Hma. split_and!; [|done..].
  assert (materialize_cwd_dependent_entry d cwd ∈ retain_constraining_deny_entries source (accepted_entries requested granted cwd) cwd)
    as Hin; [|apply intersection_elem; destruct Hsource as [-> | ->]; auto].
  apply retained_elem. exists d. split_and!; try done. unfold deny_entry_constrains_accepted_grant. apply existsb_elem.
  exists x. split; [apply filter_elem; split; [done | by destruct (access x)]|].
  rewrite permission_path_entry, Hxr by done.
  assert (match entry_path d with GlobPattern pattern => glob_static_prefix_path pattern cwd | _ => resolve_permission_path (entry_path d) cwd end
          = Some dp) as ->.
  { rewrite permission_path_entry, Hdr by done. destruct (entry_path d); done. }
  unfold paths_overlap. rewrite orb_true_iff, !path_starts_with_prefix. naive_solver.
Qed.

Lemma intersection_within requested granted cwd q target :
  normal_path cwd -> wf_policy (restricted (fs_entries requested)) -> wf_policy (restricted (fs_entries granted)) ->
  resolve_candidate_path q cwd = Some target ->
  resolve_access_with_cwd (intersection requested granted cwd) q cwd <> Deny ->
  resolve_access_with_cwd (restricted (fs_entries requested)) q cwd <> Deny
  /\ resolve_access_with_cwd (restricted (fs_entries granted)) q cwd <> Deny.
Proof.
  intros Hc Hwr Hwg Ht Ha. destruct (resolve_access_cases (intersection requested granted cwd) cwd q target eq_refl Ht)
    as [(e & (He & Hec & Hmax) & Hea)|[_ Hno]]; [|done]. rewrite Hea in Ha.
  destruct (intersection_readable requested granted cwd e Hc He Ha) as (g & x & Hg & Hx & Hxa & Hga & Hgr & Hxr & Hcov).
  assert (forall source d, source = fs_entries requested \/ source = fs_entries granted ->
            d ∈ resolved_entries_with_cwd (restricted source) cwd -> covers d target -> resolved_access d = Deny ->
            specificity d < specificity e) as Hdeny.
  { intros source d Hs (y & Hy & Hya & Hyr)%resolved_elem Hdc Hda.
    destruct (Hmax (mkResolved (resolved_path d) Deny)) as [?|[_ Hrank]].
    - apply (intersection_keeps_denial requested granted cwd source y (resolved_path d) x (resolved_path e)); try done; try congruence.
      destruct (prefix_weak_total _ _ _ Hec Hdc) as [?|?]; auto.
    - done.
    - done.
    - simpl in Hrank. destruct (resolved_access e); simpl in Hrank; lia || done. }
  assert (e ∈ resolved_entries_with_cwd (restricted (fs_entries granted)) cwd) as Heg.
  { apply resolved_elem. exists g. done. }
  split.
  - intros Hd. assert (normal (resolved_path e)) as Hne by (eapply (resolved_normal (restricted (fs_entries granted))); [by apply normal_wf | done..]).
    destruct (resolve_access_cases (restricted (fs_entries requested)) cwd _ _ eq_refl (candidate_id _ cwd Hne))
      as [(h & (Hh & Hhc & Hhmax) & Hha)|[_ Hno]]; [|rewrite Hno in Hcov; by destruct (access g)].
    assert (covers h target) as Hht by (unfold covers in *; by etransitivity).
    destruct (resolve_access_cases (restricted (fs_entries requested)) cwd q target eq_refl Ht) as [(d & (Hdin & Hdc & Hdmax) & Hda)|[Hno _]];
      [|by destruct (Hno h Hh)].
    rewrite Hd in Hda. pose proof (Hdeny _ d (or_introl eq_refl) Hdin Hdc (eq_sym Hda)) as Hlt.
    assert (covers d (resolved_path e)) as Hde by (apply (prefixes_nested _ _ (as_path target)); unfold specificity in Hlt; [done.. | lia]).
    rewrite Hha in Hcov. destruct (Hhmax d Hdin Hde) as [?|[Hp Hr]], (Hdmax h Hh Hht) as [?|[Hp' Hr']];
      unfold specificity in *; try rewrite Hp in *; try rewrite Hp' in *; try lia.
    rewrite <-Hda in Hr. destruct (resolved_access h); simpl in Hr; try lia. by destruct (access g).
  - intros Hd. destruct (resolve_access_cases (restricted (fs_entries granted)) cwd q target eq_refl Ht) as [(d & (Hdin & Hdc & Hdmax) & Hda)|[Hno _]];
      [|by destruct (Hno e Heg)].
    rewrite Hd in Hda. pose proof (Hdeny _ d (or_intror eq_refl) Hdin Hdc (eq_sym Hda)) as Hlt.
    destruct (Hdmax e Heg Hec) as [?|[Hp _]]; unfold specificity in *; try rewrite Hp in *; lia.
Qed.

(** What is granted from a request stays within it: a path that the intersection
    of a requested and a granted overlay lets be read is one that both sides let be
    read, denials below an accepted grant included; the network is enabled only if
    both enable it. *)
Theorem intersection_bounded (requested granted : AdditionalPermissionProfile) cwd q target :
  normal_path cwd -> wf_policy (overlay_policy requested) -> wf_policy (overlay_policy granted) ->
  resolve_candidate_path q cwd = Some target ->
  let accepted := intersect_permission_profiles requested granted cwd in
  (can_read_path_with_cwd (overlay_policy accepted) q cwd = true ->
   can_read_path_with_cwd (overlay_policy requested) q cwd = true /\ can_read_path_with_cwd (overlay_policy granted) q cwd = true) /\
  (net_grants (additional_network accepted) = net_grants (additional_network requested) && net_grants (additional_network granted)).
Proof.
  intros Hc Hwr Hwg Ht accepted. split.
  2: { subst accepted. simpl. by destruct (net_grants (additional_network requested) && net_grants (additional_network granted)). }
  unfold can_read_path_with_cwd, overlay_policy in *. subst accepted. simpl. destruct (additional_file_system requested) as [r|]; simpl.
  2: { unfold resolve_access_with_cwd at 1. simpl. by rewrite Ht. }
  set (g := default default_fs_permissions (additional_file_system granted)) in *.
  assert (match additional_file_system granted with Some fs => fs_entries fs | None => [] end = fs_entries g) as Hg
    by (subst g; by destruct (additional_file_system granted)).
  rewrite Hg in *. destruct (fs_is_empty (intersect_file_system r g cwd)); simpl.
  { unfold resolve_access_with_cwd at 1. simpl. by rewrite Ht. }
  assert (forall a, can_read a = true <-> a <> Deny) as Hcr by by intros [].
  rewrite !Hcr. by apply (intersection_within r g cwd q target).
Qed.

(** ** The profile in effect *)

Definition additional_entries (a : option AdditionalPermissionProfile) : list FileSystemSandboxEntry :=
  match a with
  | Some a => match additional_file_system a with Some fs => fs_entries fs | None => [] end
  | None => []
  end.

Lemma effective_policy_entries p a :
  sandbox_kind (effective_file_system_sandbox_policy p a) = sandbox_kind p /\
  (sandbox_kind p = Restricted -> forall x, x ∈ entries (effective_file_system_sandbox_policy p a) <-> x ∈ entries p \/ x ∈ additional_entries a).
Proof.
  unfold effective_file_system_sandbox_policy, additional_entries. destruct a as [a|]; [|split; [done|]; intros _ x; rewrite elem_of_nil; naive_solver].
  destruct (additional_file_system a) as [fs|]; [|split; [done|]; intros _ x; rewrite elem_of_nil; naive_solver].
  unfold fs_is_empty. destruct (fs_entries fs) as [|y l] eqn:Ef; [split; [done|]; intros _ x; rewrite elem_of_nil; naive_solver|].
  unfold merge_file_system_policy_with_additional_permissions. rewrite <-Ef. destruct (sandbox_kind p) eqn:Ek; try done.
  split; [done|]. intros _ x. simpl. by rewrite push_absent_elem.
Qed.

Lemma effective_frame p a cwd q target :
  resolve_candidate_path q cwd = Some target ->
  (forall x xp, x ∈ additional_entries a -> resolve_entry_path (entry_path x) (cwd_absolute cwd) = Some xp -> ~ as_path xp `prefix_of` as_path target) ->
  resolve_access_with_cwd (effective_file_system_sandbox_policy p a) q cwd = resolve_access_with_cwd p q cwd.
Proof.
  intros Ht Hout. destruct (effective_policy_entries p a) as [Hk Hin].
  destruct (sandbox_kind p) eqn:Ek; try (unfold resolve_access_with_cwd; by rewrite Hk, Ek). specialize (Hin eq_refl).
  assert (forall e, covers e target -> e ∈ resolved_entries_with_cwd (effective_file_system_sandbox_policy p a) cwd
                    <-> e ∈ resolved_entries_with_cwd p cwd) as Hsame.
  { intros e Hc. rewrite !resolved_elem. setoid_rewrite Hin. split; [|naive_solver].
    intros (x & [Hx|Hx] & Ha & Hr); [by exists x|]. by destruct (Hout x _ Hx Hr). }
  assert (forall e, governs (effective_file_system_sandbox_policy p a) cwd target e <-> governs p cwd target e) as Hgov.
  { intros e. unfold governs. split; intros (He & Hc & Hmax); (split_and!; [by apply Hsame | done|]); intros e' He' Hc';
      (apply Hmax; [by apply Hsame | done]). }
  destruct (resolve_access_cases _ cwd q target Hk Ht) as [(e & He & ->)|[Hno ->]],
    (resolve_access_cases p cwd q target Ek Ht) as [(e' & He' & ->)|[Hno' ->]]; try done.
  - apply (governs_access_unique p target cwd); [by apply Hgov | done].
  - apply Hgov in He as (He & Hc & _). by destruct (Hno' e He).
  - apply Hgov in He' as (He & Hc & _). by destruct (Hno e' He).
Qed.

Lemma effective_network_enabled n a :
  net_is_enabled (effective_network_sandbox_policy n a) = net_is_enabled n || default false ((a ≫= additional_network) ≫= enabled).
Proof.
  destruct a as [a|]; simpl; [|by rewrite orb_false_r]. unfold merge_network_access.
  by destruct (net_is_enabled n || _).
Qed.

(** The profile in effect for a command with additional permissions is always
    found and keeps the kind of enforcement; the network is enabled exactly when
    the profile or the request enables it; denied reads stay denied reads; and a
    path no additional entry reaches has the access it had. *)
Theorem effective_profile_sound (p : permission_profile) (a : option AdditionalPermissionProfile) :
  exists p', effective_permission_profile p a = Some p' /\ profile_enforcement p' = profile_enforcement p /\
  net_is_enabled (network_sandbox_policy p')
    = net_is_enabled (network_sandbox_policy p) || default false ((a ≫= additional_network) ≫= enabled) /\
  (has_denied_read_restrictions (file_system_sandbox_policy p) = true -> has_denied_read_restrictions (file_system_sandbox_policy p') = true) /\
  forall cwd q target, resolve_candidate_path q cwd = Some target ->
    (forall x xp, x ∈ additional_entries a -> resolve_entry_path (entry_path x) (cwd_absolute cwd) = Some xp -> ~ as_path xp `prefix_of` as_path target) ->
    resolve_access_with_cwd (file_system_sandbox_policy p') q cwd = resolve_access_with_cwd (file_system_sandbox_policy p) q cwd.
Proof.
  unfold effective_permission_profile, to_runtime_permissions.
  pose proof (effective_network_enabled (network_sandbox_policy p) a) as Hn.
  destruct (effective_policy_entries (file_system_sandbox_policy p) a) as [Hk Hin].
  pose proof (effective_frame (file_system_sandbox_policy p) a) as Hframe.
  destruct p as [[es depth|] n| |n]; simpl in *.
  - unfold from_runtime_permissions_with_enforcement, from_sandbox_policy. rewrite Hk. simpl.
    eexists. split_and!; [reflexivity | done | done | |].
    + unfold has_denied_read_restrictions, is_restricted. simpl. rewrite !existsb_elem.
      intros (x & Hx & Hd). exists x. split; [apply Hin; [done | by left] | done].
    + intros cwd q target Ht Hout. rewrite <-(Hframe cwd q target Ht Hout). unfold resolve_access_with_cwd. by rewrite Hk.
  - unfold from_runtime_permissions_with_enforcement, from_sandbox_policy. rewrite Hk. simpl.
    eexists. split_and!; [reflexivity | done | done | done | done].
  - unfold from_runtime_permissions_with_enforcement. rewrite Hk. simpl. by exists Disabled.
  - unfold from_runtime_permissions_with_enforcement. rewrite Hk. simpl. eexists. split_and!; [reflexivity | done | done | done | done].
Qed.

(** *** When a sandbox is needed *)

(** An entry that denies something: special paths without a meaning deny nothing. *)
Definition denies_something (x : FileSystemSandboxEntry) : Prop :=
  access x = Deny /\ match entry_path x with Special Minimal | Special (UnknownSpecial _ _) => False | _ => True end.

Lemma denial_narrows (p : policy) x :
  sandbox_kind p = Restricted -> x ∈ entries p -> denies_something x -> has_full_disk_write_access p = false.
Proof.
  intros Hk Hx [Ha Hs]. unfold has_full_disk_write_access. rewrite Hk. apply andb_false_iff. right. apply negb_false_iff.
  unfold has_write_narrowing_entries, is_restricted. rewrite bool_decide_true by done. simpl. apply existsb_elem.
  exists x. split; [done|]. unfold write_narrowing_entry. rewrite Ha. simpl.
  assert (has_same_target_write_override p x = false) as Ho.
  { unfold has_same_target_write_override. rewrite existsb_elem_false. intros y _. rewrite Ha. by destruct (access y). }
  destruct (entry_path x) as [?|?|[]]; rewrite ?Ho; done.
Qed.

Lemma denial_requires_sandbox (p : policy) n managed x :
  sandbox_kind p = Restricted -> x ∈ entries p -> denies_something x -> should_require_platform_sandbox p n managed = true.
Proof.
  intros Hk Hx Hd. unfold should_require_platform_sandbox. destruct managed; [done|].
  rewrite Hk. destruct (negb (net_is_enabled n)); [done|]. by rewrite (denial_narrows p x).
Qed.
End Facts.

Module TransformsDemo.
Import AbsPathDemo PermissionsDemo PoliciesDemo.
Definition at_path (s : str) (a : FileSystemAccessMode) : FileSystemSandboxEntry := new_entry (PathEntry (abs s)) a.
Definition overlay (es : list FileSystemSandboxEntry) : AdditionalPermissionProfile := mkAdditional None (Some (mkFsPermissions es None)).
(** The request leaves out one directory, the grant does not. *)
Definition asked : AdditionalPermissionProfile := overlay [at_path (lit "/data") Write; at_path (lit "/data/private") Deny].
Definition given : AdditionalPermissionProfile := overlay [at_path (lit "/data") Write].
End TransformsDemo.
Import AbsPathDemo PermissionsDemo PoliciesDemo TransformsDemo.

Lemma intersection_bounded_witness :
  let accepted := intersect_permission_profiles (FH := plain_fs true) asked given repo in
  can_read_path_with_cwd (FH := plain_fs true) (overlay_policy accepted) (path_new (lit "/data/x")) repo = true
  /\ can_read_path_with_cwd (FH := plain_fs true) (overlay_policy asked) (path_new (lit "/data/x")) repo = true
  /\ can_read_path_with_cwd (FH := plain_fs true) (overlay_policy accepted) (path_new (lit "/data/private/x")) repo = false.
Proof.
  split; [vm_compute; reflexivity|]. split; [|vm_compute; reflexivity].
  destruct (intersection_bounded (FH := plain_fs true) asked given repo (path_new (lit "/data/x")) (abs (lit "/data/x"))) as [Hr _].
  - apply (demo_normal (lit "/work/repo")); vm_compute; reflexivity.
  - unfold wf_policy. repeat constructor; apply demo_normal; vm_compute; reflexivity.
  - unfold wf_policy. repeat constructor; apply demo_normal; vm_compute; reflexivity.
  - vm_compute. reflexivity.
  - apply Hr. vm_compute. reflexivity.
Defined.

(** Writing is not bounded by the request: a narrower read entry of it is dropped. *)
Example intersection_write_exceeds :
  let asked := overlay [at_path (lit "/data") Write; at_path (lit "/data/cfg") Read] in
  let accepted := intersect_permission_profiles (FH := plain_fs true) asked given repo in
  let resolve a := resolve_access_with_cwd (FH := plain_fs true) (overlay_policy a) (path_new (lit "/data/cfg/x")) repo in
  (resolve asked, resolve accepted) = (Read, Write).
Proof. vm_compute. reflexivity. Qed.

(** An additional permission can take a permission away. *)
Example additional_read_narrows :
  let base := restricted [new_entry (Special Root) Read; at_path (lit "/data") Write] in
  let more := overlay [at_path (lit "/data/cfg") Read] in
  let resolve p := resolve_access_with_cwd (FH := plain_fs true) p (path_new (lit "/data/cfg/x")) repo in
  (resolve base, resolve (effective_file_system_sandbox_policy base (Some more))) = (Write, Read).
Proof. vm_compute. reflexivity. Qed.

(** The older form forgets that a missing path is to be skipped. *)
Example legacy_roots_forget_skip :
  let skipping := mkFsPermissions [skip_missing_path (PathEntry (abs (lit "/data"))) Read] None in
  match as_legacy_permissions skipping with
  | Some roots => map missing_path_behavior (fs_entries (from_read_write_roots (legacy_read roots) (legacy_write roots))) = [None]
  | None => False
  end.
Proof. vm_compute. reflexivity. Qed.
