(* ===== verification/PatchSafety.v ===== *)
(** * Whether a patch may be applied unasked

    Models [core/src/safety.rs], [core/src/apply_patch.rs], the permissions of a
    patch in [core/src/tools/handlers/apply_patch.rs], the granted permissions of
    [core/src/tools/handlers/mod.rs] and the choice of a platform sandbox in
    [sandboxing/src/manager.rs].  It composes the preview of [Invocation], the
    application of [ApplyPatch] and the policies of [Permissions]. *)

From Stdlib Require Import Lia.
From stdpp Require Import gmap.
From S2P Require Import Prelude RustStr PatchSyntax Replacements StreamingParser PatchParser ApplyPatch.
From S2P Require Import Invocation AbsPath Profile Approval Permissions SandboxPolicies PolicyTransforms.

(** ** The platform *)

Inductive TargetOs : Type := Macos | LinuxOs | WindowsOs | OtherOs.

(** [cfg!(target_os)]. *)
Class Platform : Type := target_os : TargetOs.

Inductive SandboxType : Type := SandboxNone | MacosSeatbelt | LinuxSeccomp | WindowsRestrictedToken.

#[export] Instance sandbox_type_eq_dec : EqDecision SandboxType.
Proof. solve_decision. Defined.

Inductive WindowsSandboxLevel : Type := LevelDisabled | LevelRestrictedToken | LevelElevated.

#[export] Instance windows_level_eq_dec : EqDecision WindowsSandboxLevel.
Proof. solve_decision. Defined.

Definition get_platform_sandbox `{Platform} (windows_sandbox_enabled : bool) : option SandboxType :=
  match target_os with
  | Macos => Some MacosSeatbelt
  | LinuxOs => Some LinuxSeccomp
  | WindowsOs => if windows_sandbox_enabled then Some WindowsRestrictedToken else None
  | OtherOs => None
  end.

(** ** URIs on this host *)

(** What the code uses of [PathUri] beyond [PathUriOps]. *)
Class NativePaths (U : Type) : Type := {
  to_abs_path : U -> result AbsolutePathBuf io_error;
  to_path_buf : U -> str;
}.

(** ** [safety.rs] *)

Definition PATCH_REJECTED_OUTSIDE_PROJECT_REASON : str :=
  lit "writing outside of the project; rejected by user approval settings".
Definition PATCH_REJECTED_READ_ONLY_REASON : str :=
  lit "writing is blocked by read-only sandbox; rejected by user approval settings".

Inductive SafetyCheck : Type := AutoApprove | AskUser | Reject (reason : str).

(** The [normalize] inside [is_write_patch_constrained_to_writable_paths]. *)
Fixpoint normalize_components (out p : path) : path :=
  match p with
  | [] => out
  | ParentDir :: p' => normalize_components (pop out) p'
  | CurDir :: p' => normalize_components out p'
  | other :: p' => normalize_components (push out other) p'
  end.

Section Safety.
Context {U : Type} `{Countable U, PathUriOps U, !NativePaths U} `{Platform} {PH : PathHost} {FH : FsHost}.

Definition is_native_path_writable (pol : policy) (native_cwd : AbsolutePathBuf) (u : U) : bool :=
  match to_abs_path u with
  | Err _ => false
  | Ok a => can_write_path_with_cwd pol (normalize_components [] (as_path a)) (as_path native_cwd)
  end.

Definition is_change_writable (pol : policy) (native_cwd : AbsolutePathBuf) (path_change : U * ApplyPatchFileChange U) : bool :=
  let '(p, change) := path_change in
  match change with
  | PreviewAdd _ | PreviewDelete _ => is_native_path_writable pol native_cwd p
  | PreviewUpdate _ move_path _ =>
      if negb (is_native_path_writable pol native_cwd p) then false
      else match move_path with
           | Some dest => is_native_path_writable pol native_cwd dest
           | None => true
           end
  end.

(** The loop over the changes stops at the first one that is not writable, in an
    order of the map that does not matter. *)
Definition is_write_patch_constrained_to_writable_paths (action : ApplyPatchAction (U := U)) (pol : policy) (cwd : U) : bool :=
  if has_full_disk_write_access pol then true
  else
    match to_abs_path cwd with
    | Err _ => false
    | Ok native_cwd => forallb (is_change_writable pol native_cwd) (map_to_list (action_changes action))
    end.

Definition patch_rejection_reason (profile : permission_profile) (pol : policy) (cwd : U) : str :=
  let has_no_writable_roots :=
    match to_abs_path cwd with
    | Ok native_cwd => match get_writable_roots_with_cwd pol (as_path native_cwd) with [] => true | _ => false end
    | Err _ => false
    end in
  match profile with
  | Managed _ _ =>
      if negb (has_full_disk_write_access pol) && has_no_writable_roots then PATCH_REJECTED_READ_ONLY_REASON
      else PATCH_REJECTED_OUTSIDE_PROJECT_REASON
  | Disabled | External _ => PATCH_REJECTED_OUTSIDE_PROJECT_REASON
  end.

Definition rejects_sandbox_approval (policy : AskForApproval) : bool :=
  match policy with Never => true | Granular config => negb (sandbox_approval config) | OnRequest | UnlessTrusted => false end.

Definition action_is_empty (action : ApplyPatchAction (U := U)) : bool := bool_decide (action_changes action = ∅).

Definition assess_patch_safety (action : ApplyPatchAction (U := U)) (policy : AskForApproval) (profile : permission_profile)
    (pol : Permissions.policy) (cwd : U) (windows_sandbox_level : WindowsSandboxLevel) : SafetyCheck :=
  if action_is_empty action then Reject (lit "empty patch")
  else
    match policy with
    | UnlessTrusted => AskUser
    | _ =>
        if is_write_patch_constrained_to_writable_paths action pol cwd then
          match profile with
          | Disabled | External _ => AutoApprove
          | Managed _ _ =>
              match get_platform_sandbox (bool_decide (windows_sandbox_level <> LevelDisabled)) with
              | Some _ => AutoApprove
              | None =>
                  if rejects_sandbox_approval policy then Reject (patch_rejection_reason profile pol cwd) else AskUser
              end
          end
        else if rejects_sandbox_approval policy then Reject (patch_rejection_reason profile pol cwd)
        else AskUser
    end.

(** ** [apply_patch.rs] *)

Record ApplyPatchRuntimeInvocation : Type := mkRuntimeInvocation {
  invocation_action : ApplyPatchAction (U := U);
  auto_approved : bool;
  invocation_requirement : ExecApprovalRequirement;
}.

Definition prepare_apply_patch (approval_policy : AskForApproval) (windows_sandbox_level : WindowsSandboxLevel)
    (profile : permission_profile) (pol : policy) (action : ApplyPatchAction (U := U))
  : result ApplyPatchRuntimeInvocation str :=
  match assess_patch_safety action approval_policy profile pol (action_cwd action) windows_sandbox_level with
  | AutoApprove => Ok (mkRuntimeInvocation action true (Skip false None))
  | AskUser => Ok (mkRuntimeInvocation action false (NeedsApproval None None))
  | Reject reason => Err (lit "patch rejected: " ++ reason)
  end.

Inductive FileChange : Type :=
| FileAdd (content : str)
| FileDelete (content : str)
| FileUpdate (unified_diff : str) (move_path : option str).

Definition protocol_change (change : ApplyPatchFileChange U) : FileChange :=
  match change with
  | PreviewAdd content => FileAdd content
  | PreviewDelete content => FileDelete content
  | PreviewUpdate unified_diff move_path _ => FileUpdate unified_diff (to_path_buf <$> move_path)
  end.

Definition convert_apply_patch_to_protocol (action : ApplyPatchAction (U := U)) : gmap str FileChange :=
  fold_left (fun acc '(p, change) => <[to_path_buf p := protocol_change change]> acc) (map_to_list (action_changes action)) ∅.
End Safety.
Arguments ApplyPatchRuntimeInvocation U {_ _}.

(** ** Granted permissions ([handlers/mod.rs]) *)

Definition requires_escalated_permissions (s : SandboxPermissions) : bool :=
  match s with RequireEscalated => true | _ => false end.
Definition uses_additional_permissions (s : SandboxPermissions) : bool :=
  match s with WithAdditionalPermissions => true | _ => false end.

Record EffectiveAdditionalPermissions : Type := mkEffective {
  effective_sandbox_permissions : SandboxPermissions;
  effective_additional_permissions : option AdditionalPermissionProfile;
  permissions_preapproved : bool;
}.

#[export] Instance fs_permissions_eq_dec : EqDecision FileSystemPermissions.
Proof. solve_decision. Defined.
#[export] Instance net_permissions_eq_dec : EqDecision NetworkPermissions.
Proof. solve_decision. Defined.
#[export] Instance additional_eq_dec : EqDecision AdditionalPermissionProfile.
Proof. solve_decision. Defined.

(** The text of a policy in the [{:?}] of an error message. *)
Class DebugPolicy : Type := debug_policy : AskForApproval -> str.

Section Granted.
Context {PH : PathHost} {FH : FsHost} {GH : GlobHost}.

Definition permissions_are_preapproved (effective granted : AdditionalPermissionProfile) (cwd : path) : bool :=
  bool_decide (intersect_permission_profiles effective granted cwd = intersect_permission_profiles effective effective cwd).

(** The session's and the turn's grants for the environment are arguments. *)
Definition apply_granted_turn_permissions (granted_session granted_turn : option AdditionalPermissionProfile) (cwd : path)
    (sandbox_permissions : SandboxPermissions) (additional_permissions : option AdditionalPermissionProfile)
  : EffectiveAdditionalPermissions :=
  if requires_escalated_permissions sandbox_permissions
  then mkEffective sandbox_permissions additional_permissions false
  else
    let granted_permissions := merge_permission_profiles granted_session granted_turn in
    let effective_permissions := merge_permission_profiles additional_permissions granted_permissions in
    let preapproved :=
      match effective_permissions, granted_permissions with
      | Some effective, Some granted => permissions_are_preapproved effective granted cwd
      | _, _ => false
      end in
    mkEffective
      (match effective_permissions with
       | Some _ => if negb (uses_additional_permissions sandbox_permissions) then WithAdditionalPermissions else sandbox_permissions
       | None => sandbox_permissions
       end)
      effective_permissions preapproved.

Definition implicit_granted_permissions (sandbox_permissions : SandboxPermissions)
    (additional_permissions : option AdditionalPermissionProfile) (effective : EffectiveAdditionalPermissions)
  : option AdditionalPermissionProfile :=
  if negb (uses_additional_permissions sandbox_permissions) && negb (requires_escalated_permissions sandbox_permissions)
     && match additional_permissions with None => true | Some _ => false end
  then effective_additional_permissions effective else None.

Definition normalize_and_validate_additional_permissions `{DebugPolicy} (additional_permissions_allowed : bool)
    (approval_policy : AskForApproval) (sandbox_permissions : SandboxPermissions)
    (additional_permissions : option AdditionalPermissionProfile) (preapproved : bool)
  : result (option AdditionalPermissionProfile) str :=
  let uses := uses_additional_permissions sandbox_permissions in
  let given := match additional_permissions with Some _ => true | None => false end in
  if negb preapproved && negb additional_permissions_allowed && (uses || given)
  then Err (lit "additional permissions are disabled; enable `features.exec_permission_approvals` before using `with_additional_permissions`")
  else if uses then
    if negb preapproved && match approval_policy with OnRequest => false | _ => true end
    then Err (lit "approval policy is " ++ debug_policy approval_policy
              ++ lit "; reject command — you cannot request additional permissions unless the approval policy is OnRequest")
    else
      match additional_permissions with
      | None => Err (lit "missing `additional_permissions`; provide at least one of `network` or `file_system` when using `with_additional_permissions`")
      | Some additional_permissions =>
          let? normalized := normalize_additional_permissions additional_permissions in
          if additional_is_empty normalized
          then Err (lit "`additional_permissions` must include at least one requested permission in `network` or `file_system`")
          else Ok (Some normalized)
      end
  else if given
  then Err (lit "`additional_permissions` requires `sandbox_permissions` set to `with_additional_permissions`")
  else Ok None.
End Granted.

(** ** The permissions of a patch ([handlers/apply_patch.rs]) *)

(** The fields of [TurnEnvironment] that the code reads. *)
Record TurnEnvironment {U : Type} : Type := mkEnvironment {
  environment_id : str;
  environment_cwd : U;
  workspace_roots : list U;
  environment_profile : permission_profile;
}.
Arguments TurnEnvironment : clear implicits.
Arguments mkEnvironment {U}.

(** [BTreeSet<PathBuf>]: sorted, without duplicates. *)
Definition path_le (a b : path) : bool := match path_compare a b with Gt => false | _ => true end.

Fixpoint dedup_paths (ps : list path) : list path :=
  match ps with
  | [] => []
  | p :: ps' => if bool_decide (p ∈ ps') then dedup_paths ps' else p :: dedup_paths ps'
  end.

Section PatchPermissions.
Context {U : Type} `{Countable U, PathUriOps U, !NativePaths U} {PH : PathHost} {FH : FsHost} {GH : GlobHost}.

Definition permission_profile_with_workspace_roots (env : TurnEnvironment U) : option permission_profile :=
  profile_materialize_project_roots (environment_profile env) (omap (fun u => result_ok (to_abs_path u)) (workspace_roots env)).

Definition change_keys (path_change : U * ApplyPatchFileChange U) : list U :=
  let '(p, change) := path_change in
  p :: match change with PreviewUpdate _ (Some dest) _ => [dest] | _ => [] end.

Definition file_paths_for_action (action : ApplyPatchAction (U := U)) : list U :=
  map_to_list (action_changes action) ≫= change_keys.

Definition write_permissions_for_paths (file_paths : list AbsolutePathBuf) (pol : policy) (cwd : AbsolutePathBuf)
  : option AdditionalPermissionProfile :=
  let parents := map (fun p => as_path (default p (abs_parent p))) file_paths in
  let missing := List.filter (fun p => negb (can_write_path_with_cwd pol p (as_path cwd))) parents in
  let! write_paths := result_ok (collect_results (map from_absolute_path (dedup_paths (stable_sort path_le missing)))) in
  match write_paths with
  | [] => None
  | _ => result_ok (normalize_additional_permissions
                      (mkAdditional None (Some (from_read_write_roots (Some []) (Some write_paths)))))
  end.

(** [None]: the materialized profile panics. *)
Definition effective_patch_permissions (granted_session granted_turn : option AdditionalPermissionProfile)
    (env : TurnEnvironment U) (action : ApplyPatchAction (U := U)) (cwd : U)
  : option (result (list U * EffectiveAdditionalPermissions * policy) io_error) :=
  let! profile := permission_profile_with_workspace_roots env in
  Some (
  let file_paths := file_paths_for_action action in
  let? native_cwd := to_abs_path cwd in
  let granted_permissions := merge_permission_profiles granted_session granted_turn in
  let pol := effective_file_system_sandbox_policy (file_system_sandbox_policy profile) granted_permissions in
  let? native_file_paths := collect_results (map to_abs_path file_paths) in
  let effective :=
    apply_granted_turn_permissions granted_session granted_turn (as_path native_cwd) UseDefault
      (write_permissions_for_paths native_file_paths pol native_cwd) in
  Ok (file_paths, effective, pol)).

Definition patch_permissions_without_path_matching (action : ApplyPatchAction (U := U))
  : list U * EffectiveAdditionalPermissions * policy :=
  (file_paths_for_action action, mkEffective UseDefault None false, unrestricted).
End PatchPermissions.

(** ** What an unasked patch can change *)

(** [AbsolutePathBuf] values are normal. *)
Class NativePathsLaws (U : Type) `{NativePaths U} : Prop := {
  to_abs_normal (u : U) a : to_abs_path u = Ok a -> normal a;
}.

Lemma normalize_components_onto p : forall out, normalize_components out p = normalize_onto out p.
Proof. induction p as [|[] p IH]; intros out; simpl; auto. Qed.

Lemma normalize_components_normal p : normal_path p -> normalize_components [] p = p.
Proof.
  intros (names & -> & _). rewrite normalize_components_onto. simpl. apply (normalize_onto_names [RootDir]).
Qed.

Section Contained.
Context {U : Type} `{Countable U, PathUriOps U, !NativePaths U, !NativePathsLaws U}.
Context `{Platform} {PH : PathHost} {FH : FsHost}.
Implicit Types (action : ApplyPatchAction (U := U)) (u : U) (pol : policy).

(** The path is one of this host and the policy lets it be written. *)
Definition native_writable pol (cwd u : U) : Prop :=
  exists c a, to_abs_path cwd = Ok c /\ to_abs_path u = Ok a /\ can_write_path_with_cwd pol (as_path a) (as_path c) = true.

Lemma native_path_writable pol cwd c u :
  to_abs_path cwd = Ok c -> is_native_path_writable pol c u = true <-> native_writable pol cwd u.
Proof.
  intros Hc. unfold is_native_path_writable, native_writable. destruct (to_abs_path u) as [a|] eqn:Ea.
  2: { split; [done | by intros (? & ? & _ & ? & _)]. }
  rewrite normalize_components_normal by (eapply to_abs_normal; exact Ea).
  split; [by exists c, a | intros (c' & a' & ? & ? & ?); congruence].
Qed.

Lemma change_writable pol cwd c p change :
  to_abs_path cwd = Ok c ->
  is_change_writable pol c (p, change) = true <-> Forall (native_writable pol cwd) (change_targets p change).
Proof.
  intros Hc. destruct change as [?|?|? [dest|] ?]; unfold is_change_writable, change_targets;
    rewrite Forall_cons, <-(native_path_writable pol cwd c) by done;
    rewrite ?Forall_singleton, <-?(native_path_writable pol cwd c) by done;
    destruct (is_native_path_writable pol c p); simpl; rewrite ?Forall_nil; naive_solver.
Qed.

(** Every path the previewed changes name can be written. *)
Definition changes_writable pol action (cwd : U) : Prop :=
  forall p change, action_changes action !! p = Some change -> Forall (native_writable pol cwd) (change_targets p change).

Lemma constrained_iff action pol cwd :
  action_changes action <> ∅ ->
  is_write_patch_constrained_to_writable_paths action pol cwd = true <->
  has_full_disk_write_access pol = true \/ changes_writable pol action cwd.
Proof.
  intros Hne. unfold is_write_patch_constrained_to_writable_paths, changes_writable.
  destruct (has_full_disk_write_access pol); [by intuition|].
  destruct (to_abs_path cwd) as [c|] eqn:Ec.
  - rewrite forallb_forall. split.
    + intros Hall. right. intros p change Hp. apply (change_writable _ _ c) ; [done|]. apply Hall.
      by apply list_elem_of_In, elem_of_map_to_list.
    + intros [?|Hall] [p change] Hin; [done|]. apply list_elem_of_In, elem_of_map_to_list in Hin.
      by apply (change_writable pol cwd c); [|apply Hall].
  - split; [done|]. intros [?|Hall]; [done|]. destruct (map_choose _ Hne) as (p & change & Hp).
    specialize (Hall p change Hp). destruct change; apply Forall_cons in Hall as [(? & ? & ? & _) _]; congruence.
Qed.

(** The sandbox that the profile asks for can be put around the patch. *)
Definition enforceable (profile : permission_profile) (level : WindowsSandboxLevel) : Prop :=
  match profile with
  | Managed _ _ => is_Some (get_platform_sandbox (bool_decide (level <> LevelDisabled)))
  | Disabled | External _ => True
  end.

Lemma auto_approve_iff action policy profile pol cwd level :
  assess_patch_safety action policy profile pol cwd level = AutoApprove <->
  action_changes action <> ∅ /\ policy <> UnlessTrusted /\ enforceable profile level /\
  (has_full_disk_write_access pol = true \/ changes_writable pol action cwd).
Proof.
  unfold assess_patch_safety, action_is_empty, enforceable. case_bool_decide as He; [by intuition|].
  rewrite <-constrained_iff by done.
  set (sandbox := get_platform_sandbox (bool_decide (level <> LevelDisabled))).
  destruct (is_write_patch_constrained_to_writable_paths action pol cwd), policy, profile, sandbox;
    simpl; unfold is_Some; repeat case_match; naive_solver.
Qed.

(** A patch that is not applied unasked is asked about exactly when the approval
    policy lets it. *)
Lemma not_auto_iff action policy profile pol cwd level :
  action_changes action <> ∅ -> assess_patch_safety action policy profile pol cwd level <> AutoApprove ->
  assess_patch_safety action policy profile pol cwd level
  = if rejects_sandbox_approval policy then Reject (patch_rejection_reason profile pol cwd) else AskUser.
Proof.
  unfold assess_patch_safety, action_is_empty. intros He. rewrite bool_decide_false by done.
  set (sandbox := get_platform_sandbox (bool_decide (level <> LevelDisabled))).
  by destruct policy, (is_write_patch_constrained_to_writable_paths action pol cwd), profile, sandbox.
Qed.
End Contained.

Section Applied.
Context {U FS : Type} `{Countable U, PathUriOps U, ExecutorFileSystem U FS, !NativePaths U, !NativePathsLaws U}.
Context `{Platform} {PH : PathHost} {FH : FsHost}.
Context (render_diff : str -> str -> nat -> str).

(** The files the hunks of a patch start from. *)
Definition patch_sources (cwd : U) (hs : list Hunk) : list U := omap (fun h => result_ok (resolve_path cwd h)) hs.

Lemma preview_keeps (fs : FS) cwd hs : forall changes changes' p,
  preview_hunks render_diff fs cwd changes hs = Ok changes' -> p ∉ patch_sources cwd hs -> changes' !! p = changes !! p.
Proof.
  induction hs as [|h hs IH]; intros changes changes' p Hp Hn; simpl in *; [by injection Hp as <-|].
  destruct (resolve_path cwd h) as [u|]; [|done]. simpl in *. destruct (preview_hunk render_diff fs cwd u h) as [c|]; [|done].
  rewrite (IH _ _ p Hp) by set_solver. apply lookup_insert_ne. set_solver.
Qed.

Lemma preview_hunk_targets (fs : FS) cwd u h c :
  resolve_path cwd h = Ok u -> preview_hunk render_diff fs cwd u h = Ok c -> hunk_targets cwd h = change_targets u c.
Proof.
  intros Hu Hc. unfold hunk_targets. rewrite Hu. destruct h as [pt contents|pt|pt mv chunks]; simpl in Hc.
  - by injection Hc as <-.
  - destruct (read_file_text fs u); [by injection Hc as <- | done].
  - destruct (unified_diff_from_chunks render_diff fs u chunks); [|done].
    destruct mv as [dest|]; [destruct (ApplyPatch.path_join cwd dest); [|done]|]; by injection Hc as <-.
Qed.

(** When no file is the source of two hunks, the preview names every path the patch
    names. *)
Lemma preview_covers (fs : FS) cwd hs u : forall changes changes',
  preview_hunks render_diff fs cwd changes hs = Ok changes' -> NoDup (patch_sources cwd hs) -> u ∈ patch_targets cwd hs ->
  exists p c, changes' !! p = Some c /\ u ∈ change_targets p c.
Proof.
  induction hs as [|h hs IH]; intros changes changes' Hp Hnd Hu; simpl in *; [by apply elem_of_nil in Hu|].
  destruct (resolve_path cwd h) as [v|] eqn:Ev; [|done]. simpl in *.
  destruct (preview_hunk render_diff fs cwd v h) as [c|] eqn:Ec; [|done]. apply NoDup_cons in Hnd as [Hv Hnd].
  unfold patch_targets in Hu. simpl in Hu. apply elem_of_app in Hu as [Hu|Hu]; [|by eapply IH].
  exists v, c. rewrite (preview_keeps fs cwd hs _ _ v Hp Hv), lookup_insert_eq. split; [done|].
  by rewrite <-(preview_hunk_targets fs cwd v h c).
Qed.

(** So a patch that is applied unasked names only paths that can be written. *)
Lemma previewed_targets_writable args cwd (fs : FS) action policy profile pol level u :
  try_verify_apply_patch_args render_diff args cwd fs = Ok action ->
  NoDup (patch_sources (action_cwd action) (hunks args)) ->
  assess_patch_safety action policy profile pol (action_cwd action) level = AutoApprove ->
  u ∈ patch_targets (action_cwd action) (hunks args) ->
  has_full_disk_write_access pol = true \/ native_writable pol (action_cwd action) u.
Proof using NativePathsLaws0.
  intros Hv Hnd Ha Hu. apply auto_approve_iff in Ha as (_ & _ & _ & [?|Hw]); [by left|right].
  unfold try_verify_apply_patch_args in Hv. destruct (effective_cwd cwd (workdir args)) as [c|]; [|done]. simpl in Hv.
  destruct (preview_hunks render_diff fs c ∅ (hunks args)) as [changes|] eqn:Ep; [|done]. injection Hv as <-. simpl in *.
  destruct (preview_covers fs c _ u _ _ Ep Hnd Hu) as (p & ch & Hp & Hin).
  specialize (Hw p ch Hp). by rewrite Forall_forall in Hw; apply Hw.
Qed.
End Applied.

Module SafetyDemo.
Import MemFs AbsPathDemo PermissionsDemo.

#[export] Instance on_linux : Platform := LinuxOs.

#[export] Instance mem_native : NativePaths str := {|
  to_abs_path s :=
    if is_absolute (path_new s) then Ok (mkAbs (normalize_path (path_new s)))
    else Err (mkIoError InvalidInput (lit "not a path of this host"));
  to_path_buf s := s;
|}.

#[export] Instance mem_native_laws : NativePathsLaws str.
Proof.
  split. intros u a. simpl. destruct (is_absolute (path_new u)) eqn:E; [|done]. intros [= <-].
  apply normalize_absolute; [apply path_new_wf | done].
Qed.

Definition nl (ls : list str) : str := join [LF] ls.
Definition demo_files : gmap str str := <[lit "/work/repo/a" := nl [lit "one"; lit "two"; []]]> ∅.
Definition demo_cwd : str := lit "/work/repo".
Definition demo_profile : permission_profile := Managed (ManagedRestricted (entries workspace) None) NetRestricted.

Definition args_of (text : str) : ApplyPatchArgs := match parse_patch text with Ok a => a | Err _ => mkArgs [] [] None None end.
Definition action_of (text : str) : ApplyPatchAction (U := str) :=
  match try_verify_apply_patch_args no_diff (args_of text) demo_cwd demo_files with Ok a => a | Err _ => mkAction ∅ [] [] end.

Definition plain_update : str :=
  nl [lit "*** Begin Patch"; lit "*** Update File: a"; lit "@@"; lit "-two"; lit "+2"; lit "*** End Patch"].

(** Its second hunk replaces the first in the preview. *)
Definition hidden_move : str :=
  nl [lit "*** Begin Patch"; lit "*** Update File: a"; lit "*** Move to: ../../etc/x"; lit "@@"; lit "-two"; lit "+2";
      lit "*** Add File: a"; lit "+new"; lit "*** End Patch"].
End SafetyDemo.
Import MemFs AbsPathDemo PermissionsDemo SafetyDemo.

(** When a file is the source of two hunks: a move is missing from the preview when a later hunk has
    the same source, so the patch is applied unasked and writes where the policy does
    not let it. *)
Example hidden_move_unasked :
  assess_patch_safety (FH := plain_fs true) (action_of hidden_move) OnRequest demo_profile workspace demo_cwd LevelDisabled = AutoApprove
  /\ (apply_patch log_line (action_patch (action_of hidden_move)) demo_cwd [] [] demo_files).1.1.1 !! lit "/work/repo/../../etc/x"
     = Some (nl [lit "one"; lit "2"; []])
  /\ can_write_path_with_cwd (FH := plain_fs true) workspace (path_new (lit "/etc/x")) (path_new demo_cwd) = false.
Proof. split_and!; vm_compute; reflexivity. Qed.
