(* ===== verification/ToolApproval.v ===== *)
(** * Asking for approval

    Models [core/src/tools/approvals.rs], the approval cache of
    [core/src/tools/sandboxing.rs], [core/src/command_canonicalization.rs],
    [extract_powershell_command] of [shell-command/src/powershell.rs] and
    [network_approval_context_from_payload] of
    [core/src/network_policy_decision.rs].  Hooks, the automatic reviewer and the
    user are a class of host operations; what they are asked and answer is kept in
    a trace. *)

From Stdlib Require Import Lia.
From stdpp Require Import gmap.
From S2P Require Import Prelude RustStr PatchSyntax ApplyPatch Json ShellScript AbsPath.
From S2P Require Import Profile Approval Permissions SandboxPolicies PolicyTransforms PatchSafety.

(** ** Canonical commands *)

Definition CANONICAL_BASH_SCRIPT_PREFIX : str := lit "__codex_shell_script__".
Definition CANONICAL_POWERSHELL_SCRIPT_PREFIX : str := lit "__codex_powershell_script__".
Definition POWERSHELL_FLAGS : list str := [lit "-nologo"; lit "-noprofile"; lit "-command"; lit "-c"].

(** The loop of [extract_powershell_command], at the arguments after the shell. *)
Fixpoint powershell_script (args : list str) : option str :=
  match args with
  | flag :: ((script :: _) as args') =>
      if negb (bool_decide (to_ascii_lowercase flag ∈ POWERSHELL_FLAGS)) then None
      else if eq_ignore_ascii_case flag (lit "-Command") || eq_ignore_ascii_case flag (lit "-c") then Some script
      else powershell_script args'
  | _ => None
  end.

Definition extract_powershell_command (command : list str) : option (str * str) :=
  match command with
  | shell :: ((_ :: _ :: _) as args) =>
      match detect_shell_type shell with
      | Some PowerShell => (fun script => (shell, script)) <$> powershell_script args
      | _ => None
      end
  | _ => None
  end.

Definition canonicalize_command_for_approval (try_parse_shell : str -> option Tree) (command : list str) : list str :=
  match parse_shell_lc_plain_commands try_parse_shell command with
  | Some [single_command] => single_command
  | _ =>
      match extract_bash_command command with
      | Some (_, script) => [CANONICAL_BASH_SCRIPT_PREFIX; default [] (command !! 1); script]
      | None =>
          match extract_powershell_command command with
          | Some (_, script) => [CANONICAL_POWERSHELL_SCRIPT_PREFIX; script]
          | None => command
          end
      end
  end.

(** ** Decisions *)

Inductive NetworkPolicyRuleAction : Type := RuleAllow | RuleDeny.
Record NetworkPolicyAmendment : Type := mkNetworkAmendment { amendment_host : str; amendment_action : NetworkPolicyRuleAction }.

Inductive ReviewDecision : Type :=
| Approved
| ApprovedExecpolicyAmendment (proposed_execpolicy_amendment : ExecPolicyAmendment)
| ApprovedForSession
| NetworkAmendment (network_policy_amendment : NetworkPolicyAmendment)
| Denied (rejection : str)
| TimedOut
| Aborted.

(** ** Errors of a tool *)

Inductive NetworkApprovalProtocol : Type := ProtoHttp | ProtoHttps | ProtoSocks5Tcp | ProtoSocks5Udp.
Inductive NetworkPolicyDecision : Type := PolicyDeny | PolicyAsk.
Inductive NetworkDecisionSource : Type := BaselinePolicy | ModeGuard | ProxyState | Decider.

Record NetworkPolicyDecisionPayload : Type := mkNetworkDecision {
  network_decision : NetworkPolicyDecision;
  network_source : NetworkDecisionSource;
  network_protocol : option NetworkApprovalProtocol;
  network_host : option str;
}.

Definition is_ask_from_decider (p : NetworkPolicyDecisionPayload) : bool :=
  match network_decision p, network_source p with PolicyAsk, Decider => true | _, _ => false end.

Record NetworkApprovalContext : Type := mkNetworkContext { context_host : str; context_protocol : NetworkApprovalProtocol }.

Definition network_approval_context_from_payload (p : NetworkPolicyDecisionPayload) : option NetworkApprovalContext :=
  if negb (is_ask_from_decider p) then None
  else
    let! protocol := network_protocol p in
    let! host := network_host p in
    let host := trim host in
    if is_empty host then None else Some (mkNetworkContext host protocol).

Record ExecToolCallOutput : Type := mkExecOutput {
  exit_code : Z;
  exec_stdout : str;
  exec_stderr : str;
  aggregated_output : str;
  timed_out : bool;
}.

(** The details of [CodexErr] that the code looks at. *)
Inductive CodexErr : Type :=
| SandboxDenied (output : ExecToolCallOutput) (network_policy_decision : option NetworkPolicyDecisionPayload)
| SandboxTimeout (output : ExecToolCallOutput)
| SandboxSignal (signal : Z)
| OtherCodexErr (message : str).

Inductive ToolError : Type := Rejected (message : str) | Codex (err : CodexErr).

(** ** What is asked *)

Definition LOCAL_ENVIRONMENT_ID : str := lit "local".

(** The fields the two command actions share. *)
Record CommandAction {U : Type} : Type := mkCommandAction {
  action_id : str;
  action_environment : str;
  action_command : list str;
  hook_command : str;
  command_cwd : U;
  action_sandbox_permissions : SandboxPermissions;
  action_additional_permissions : option AdditionalPermissionProfile;
  justification : option str;
  action_amendment : option ExecPolicyAmendment;
}.
Arguments CommandAction : clear implicits.
Arguments mkCommandAction {U}.

Inductive ApprovalAction (U : Type) : Type :=
| ShellAction (c : CommandAction U)
| ExecCommandAction (c : CommandAction U) (tty : bool)
| PatchAction (id environment_id : str) (cwd : U) (files : list U) (patch : str) (changes : gmap str FileChange)
    (permissions_preapproved : bool).
Arguments ShellAction {U}.
Arguments ExecCommandAction {U}.
Arguments PatchAction {U}.

Record HookToolName : Type := mkHookTool { hook_name : str; matcher_aliases : list str }.
Definition hook_bash : HookToolName := mkHookTool (lit "Bash") [].
Definition hook_apply_patch : HookToolName := mkHookTool (lit "apply_patch") [lit "Write"; lit "Edit"].

Record PermissionRequestPayload : Type := mkPayload { payload_tool : HookToolName; tool_input : json }.

Definition payload_bash (command : str) (description : option str) : PermissionRequestPayload :=
  mkPayload hook_bash
    (JObj ((lit "command", JStr command) :: match description with Some d => [(lit "description", JStr d)] | None => [] end)).

Definition permission_request_payload {U} (a : ApprovalAction U) : PermissionRequestPayload :=
  match a with
  | ShellAction c | ExecCommandAction c _ => payload_bash (hook_command c) (justification c)
  | PatchAction _ _ _ _ patch _ _ => mkPayload hook_apply_patch (JObj [(lit "command", JStr patch)])
  end.

(** ** Cache keys *)

Record ApprovalKey {U : Type} : Type := mkApprovalKey {
  key_environment : str;
  key_command : list str;
  key_cwd : U;
  key_sandbox_permissions : SandboxPermissions;
  key_additional_permissions : option AdditionalPermissionProfile;
}.
Arguments ApprovalKey : clear implicits.
Arguments mkApprovalKey {U}.

Inductive ApprovalCacheKey (U : Type) : Type :=
| ShellKey (k : ApprovalKey U)
| ExecCommandKey (k : ApprovalKey U) (tty : bool)
| PatchKey (environment_id : str) (path : U).
Arguments ShellKey {U}.
Arguments ExecCommandKey {U}.
Arguments PatchKey {U}.

(** [serde_json::to_string(key).ok()]. *)
Class KeyJson (U : Type) : Type := key_json : ApprovalCacheKey U -> option str.

(** What the text of a key tells of it: [FileSystemPermissions] are written as roots
    to read and to write where they can be. *)
Definition serialized_fs (f : FileSystemPermissions) : LegacyReadWriteRoots + FileSystemPermissions :=
  match as_legacy_permissions f with Some roots => inl roots | None => inr f end.

Definition serialized_additional (a : AdditionalPermissionProfile)
  : option NetworkPermissions * option (LegacyReadWriteRoots + FileSystemPermissions) :=
  (additional_network a, serialized_fs <$> additional_file_system a).

Definition key_text {U} (k : ApprovalCacheKey U) :=
  let of_key (k : ApprovalKey U) :=
    (key_environment k, key_command k, key_cwd k, key_sandbox_permissions k, serialized_additional <$> key_additional_permissions k) in
  match k with
  | ShellKey k => inl (of_key k, None)
  | ExecCommandKey k tty => inl (of_key k, Some tty)
  | PatchKey environment_id path => inr (environment_id, path)
  end.

(** Different texts for what is told apart. *)
Class KeyJsonLaws (U : Type) `{KeyJson U} : Prop := {
  key_json_inj (k k' : ApprovalCacheKey U) s : key_json k = Some s -> key_json k' = Some s -> key_text k = key_text k';
}.

(** ** Reviewers *)

Inductive GuardianApprovalRequest : Type :=
| GuardianShell (id : str) (command : list str) (cwd : AbsolutePathBuf) (sandbox_permissions : SandboxPermissions)
    (additional_permissions : option AdditionalPermissionProfile) (justification : option str)
| GuardianExecCommand (id : str) (command : list str) (cwd : AbsolutePathBuf) (sandbox_permissions : SandboxPermissions)
    (additional_permissions : option AdditionalPermissionProfile) (justification : option str) (tty : bool)
| GuardianApplyPatch (id : str) (cwd : AbsolutePathBuf) (files : list AbsolutePathBuf) (patch : str).

Inductive ApprovalsReviewer : Type := ReviewerUser | ReviewerAutoReview.

Definition routes_approval_policy_to_guardian (approval_policy : AskForApproval) (reviewer : ApprovalsReviewer) : bool :=
  match approval_policy, reviewer with
  | (OnRequest | Granular _), ReviewerAutoReview => true
  | _, _ => false
  end.

(** [ApprovalContext], with the fields of the turn that route the request. *)
Record ApprovalContext : Type := mkContext {
  turn_approval_policy : AskForApproval;
  approvals_reviewer : ApprovalsReviewer;
  context_call_id : str;
  strict_auto_review : bool;
  approval_reason : option str;
  retry_reason : option str;
  network_approval_context : option NetworkApprovalContext;
}.

Inductive ApprovalReviewer : Type := Guardian | User.

Definition reviewer_for_turn (ctx : ApprovalContext) : ApprovalReviewer :=
  if routes_approval_policy_to_guardian (turn_approval_policy ctx) (approvals_reviewer ctx) then Guardian else User.

Inductive ApprovalResolutionSource : Type := SourceHook | SourceGuardian | SourceUser.
Record ApprovalResolution : Type := mkResolution { resolution_decision : ReviewDecision; resolution_source : ApprovalResolutionSource }.

Definition GUARDIAN_TIMEOUT_INSTRUCTIONS : str :=
  lit "The automatic permission approval review did not finish before its deadline. "
  ++ lit "Do not assume the action is unsafe based on the timeout alone. "
  ++ lit "You may retry once, or ask the user for guidance or explicit approval.".

Definition into_tool_result (r : ApprovalResolution) : result ReviewDecision ToolError :=
  match resolution_decision r with
  | NetworkAmendment amendment =>
      match amendment_action amendment with
      | RuleDeny =>
          Err (Rejected (match resolution_source r with
                         | SourceHook => lit "rejected by configuration"
                         | SourceGuardian => lit "automatic approval review denied the action"
                         | SourceUser => lit "rejected by user"
                         end))
      | RuleAllow => Ok (NetworkAmendment amendment)
      end
  | Denied rejection => Err (Rejected rejection)
  | TimedOut => Err (Rejected GUARDIAN_TIMEOUT_INSTRUCTIONS)
  | Aborted => Err (Rejected (lit "approval request aborted"))
  | decision => Ok decision
  end.

Inductive PermissionRequestDecision : Type := HookAllow | HookDeny (message : str).

Record ApprovalRequestReasons : Type := mkReasons { reason_approval : option str; reason_retry : option str }.

(** ** The session *)

(** Whoever is asked, and the conversions of a URI the requests need. *)
Class ApprovalHost (U World : Type) : Type := {
  run_permission_request_hooks : World -> str -> PermissionRequestPayload -> World * option PermissionRequestDecision;
  review_approval_request : World -> GuardianApprovalRequest -> ApprovalRequestReasons -> World * ReviewDecision;
  request_command_approval : World -> str -> str -> list str -> AbsolutePathBuf -> option str -> option NetworkApprovalContext ->
    option ExecPolicyAmendment -> option AdditionalPermissionProfile -> World * ReviewDecision;
  request_patch_approval : World -> str -> gmap str FileChange -> option str -> World * ReviewDecision;
  uri_text : U -> str;
  url_to_file_path : U -> option path;
}.

(** An answer, with what was asked. *)
Inductive approval_event (U : Type) : Type :=
| HookAnswered (action : ApprovalAction U) (answer : option PermissionRequestDecision)
| GuardianAnswered (action : ApprovalAction U) (answer : ReviewDecision)
| UserAnswered (action : ApprovalAction U) (answer : ReviewDecision).
Arguments HookAnswered {U}.
Arguments GuardianAnswered {U}.
Arguments UserAnswered {U}.

(** [Session]: the world outside, the approval cache, and the answers so far. *)
Record Session {U World : Type} : Type := mkSession {
  world : World;
  tool_approvals : gmap str ReviewDecision;
  answers : list (approval_event U);
}.
Arguments Session : clear implicits.
Arguments mkSession {U World}.

Section Approvals.
Context {U World : Type} `{!NativePaths U, !KeyJson U, !ApprovalHost U World} {PH : PathHost}.
Context (try_parse_shell : str -> option Tree).
Abbreviation session := (Session U World).

Definition command_key (c : CommandAction U) : ApprovalKey U :=
  mkApprovalKey (action_environment c) (canonicalize_command_for_approval try_parse_shell (action_command c)) (command_cwd c)
    (action_sandbox_permissions c) (action_additional_permissions c).

Definition cache_keys (a : ApprovalAction U) : list (ApprovalCacheKey U) :=
  match a with
  | ShellAction c => [ShellKey (command_key c)]
  | ExecCommandAction c tty => [ExecCommandKey (command_key c) tty]
  | PatchAction _ environment_id _ files _ _ _ => map (PatchKey environment_id) files
  end.

Definition store_get (store : gmap str ReviewDecision) (k : ApprovalCacheKey U) : option ReviewDecision :=
  let! s := key_json k in store !! s.

Definition store_put (store : gmap str ReviewDecision) (k : ApprovalCacheKey U) (d : ReviewDecision) : gmap str ReviewDecision :=
  match key_json k with Some s => <[s := d]> store | None => store end.

Definition is_approved_for_session (d : option ReviewDecision) : bool :=
  match d with Some ApprovedForSession => true | _ => false end.

Definition with_cached_approval (keys : list (ApprovalCacheKey U)) (fetch : session -> session * ReviewDecision) (s : session)
  : session * ReviewDecision :=
  match keys with
  | [] => fetch s
  | _ =>
      if forallb (fun k => is_approved_for_session (store_get (tool_approvals s) k)) keys then (s, ApprovedForSession)
      else
        let '(s, decision) := fetch s in
        match decision with
        | ApprovedForSession =>
            (mkSession (world s) (fold_left (fun store k => store_put store k ApprovedForSession) keys (tool_approvals s)) (answers s),
             decision)
        | _ => (s, decision)
        end
  end.

Definition guardian_cwd (environment_id : str) (cwd : U) : result AbsolutePathBuf io_error :=
  match to_abs_path cwd with
  | Ok cwd => Ok cwd
  | Err err =>
      if bool_decide (environment_id <> LOCAL_ENVIRONMENT_ID) then Err err
      else
        match url_to_file_path cwd with
        | None =>
            Err (mkIoError InvalidInput (lit "local cwd URI `" ++ uri_text cwd ++ lit "` is not a host-native path"))
        | Some p =>
            match from_absolute_path_checked p with
            | Ok a => Ok a
            | Err err =>
                Err (mkIoError InvalidInput (lit "local cwd URI `" ++ uri_text cwd ++ lit "` is not absolute: " ++ io_message err))
            end
        end
  end.

Definition into_guardian_request (a : ApprovalAction U) : result GuardianApprovalRequest io_error :=
  match a with
  | ShellAction c =>
      let? cwd := guardian_cwd (action_environment c) (command_cwd c) in
      Ok (GuardianShell (action_id c) (action_command c) cwd (action_sandbox_permissions c) (action_additional_permissions c)
            (justification c))
  | ExecCommandAction c tty =>
      let? cwd := guardian_cwd (action_environment c) (command_cwd c) in
      Ok (GuardianExecCommand (action_id c) (action_command c) cwd (action_sandbox_permissions c) (action_additional_permissions c)
            (justification c) tty)
  | PatchAction id environment_id cwd files patch _ _ =>
      let? cwd := guardian_cwd environment_id cwd in
      let? files := collect_results (map to_abs_path files) in
      Ok (GuardianApplyPatch id cwd files patch)
  end.

Definition request_guardian_approval (a : ApprovalAction U) (ctx : ApprovalContext) (s : session) : session * ReviewDecision :=
  match into_guardian_request a with
  | Err _ => (s, Denied (lit "automatic approval review could not prepare the action"))
  | Ok request =>
      let '(w, d) := review_approval_request (world s) request (mkReasons (approval_reason ctx) (retry_reason ctx)) in
      (mkSession w (tool_approvals s) (answers s ++ [GuardianAnswered a d]), d)
  end.

(** [or_else] of two reasons. *)
Definition or_reason (a b : option str) : option str := match a with Some _ => a | None => b end.

(** A prompt for a command, or for a patch. *)
Definition prompt_command (a : ApprovalAction U) (c : CommandAction U) (cwd : AbsolutePathBuf) (ctx : ApprovalContext) (s : session)
  : session * ReviewDecision :=
  let reason := or_reason (or_reason (retry_reason ctx) (approval_reason ctx)) (justification c) in
  let '(w, d) :=
    request_command_approval (world s) (context_call_id ctx) (action_environment c) (action_command c) cwd reason
      (network_approval_context ctx) (action_amendment c) (action_additional_permissions c) in
  (mkSession w (tool_approvals s) (answers s ++ [UserAnswered a d]), d).

Definition prompt_patch (a : ApprovalAction U) (changes : gmap str FileChange) (reason : option str) (ctx : ApprovalContext) (s : session)
  : session * ReviewDecision :=
  let '(w, d) := request_patch_approval (world s) (context_call_id ctx) changes reason in
  (mkSession w (tool_approvals s) (answers s ++ [UserAnswered a d]), d).

Definition request_user_approval (a : ApprovalAction U) (ctx : ApprovalContext) (s : session) : session * ReviewDecision :=
  match a with
  | ShellAction c | ExecCommandAction c _ =>
      match guardian_cwd (action_environment c) (command_cwd c) with
      | Err _ => (s, Aborted)
      | Ok cwd => with_cached_approval (cache_keys a) (prompt_command a c cwd ctx) s
      end
  | PatchAction _ _ _ _ _ changes preapproved =>
      let reason := or_reason (retry_reason ctx) (approval_reason ctx) in
      match reason with
      | None => if preapproved then (s, Approved) else with_cached_approval (cache_keys a) (prompt_patch a changes None ctx) s
      | Some _ => prompt_patch a changes reason ctx s
      end
  end.

Definition request_reviewer_approval (a : ApprovalAction U) (ctx : ApprovalContext) (s : session) : session * ApprovalResolution :=
  match (if strict_auto_review ctx then Guardian else reviewer_for_turn ctx) with
  | Guardian => let '(s, d) := request_guardian_approval a ctx s in (s, mkResolution d SourceGuardian)
  | User => let '(s, d) := request_user_approval a ctx s in (s, mkResolution d SourceUser)
  end.

Definition request_approval (a : ApprovalAction U) (ctx : ApprovalContext) (s : session)
  : session * result ReviewDecision ToolError :=
  let run_id := match retry_reason ctx with Some _ => context_call_id ctx ++ lit ":retry" | None => context_call_id ctx end in
  let '(w, hook) := run_permission_request_hooks (world s) run_id (permission_request_payload a) in
  let s := mkSession w (tool_approvals s) (answers s ++ [HookAnswered a hook]) in
  let '(s, resolution) :=
    match hook with
    | Some HookAllow => (s, mkResolution Approved SourceHook)
    | Some (HookDeny message) => (s, mkResolution (Denied message) SourceHook)
    | None => request_reviewer_approval a ctx s
    end in
  (s, into_tool_result resolution).
End Approvals.

(** ** Cached approvals are genuine *)

Section Cache.
Context {U World : Type} `{!NativePaths U, !KeyJson U, !KeyJsonLaws U, !ApprovalHost U World} {PH : PathHost}.
Context (try_parse_shell : str -> option Tree).
Implicit Types (s : Session U World) (a : ApprovalAction U) (ctx : ApprovalContext).

(** A key that the user approved for the session, in one of the answers. *)
Definition approved_key (evs : list (approval_event U)) (text : str) : Prop :=
  exists a k, UserAnswered a ApprovedForSession ∈ evs /\ k ∈ cache_keys try_parse_shell a /\ key_json k = Some text.

(** Everything in the cache was. *)
Definition cache_genuine s : Prop :=
  forall text d, tool_approvals s !! text = Some d -> approved_key (answers s) text.

Lemma approved_key_mono evs evs' text : approved_key evs text -> (forall e, e ∈ evs -> e ∈ evs') -> approved_key evs' text.
Proof. intros (a & k & He & Hk & Hj) Hsub. exists a, k. auto. Qed.

Lemma cache_genuine_answers s w evs :
  cache_genuine s -> cache_genuine (mkSession w (tool_approvals s) (answers s ++ evs)).
Proof.
  intros Hs text d Hd. eapply approved_key_mono; [by eapply Hs|]. simpl. intros e He. apply elem_of_app. by left.
Qed.

Lemma store_put_all keys : forall (store : gmap str ReviewDecision) text d,
  fold_left (fun store (k : ApprovalCacheKey U) => store_put store k ApprovedForSession) keys store !! text = Some d ->
  store !! text = Some d \/ exists k, k ∈ keys /\ key_json k = Some text.
Proof.
  induction keys as [|k keys IH]; intros store text d Hd; simpl in Hd; [by left|].
  destruct (IH _ _ _ Hd) as [Hs|(k' & Hk & Hj)]; [|right; exists k'; set_solver].
  unfold store_put in Hs. destruct (key_json k) as [t|] eqn:Ej; [|by left].
  apply lookup_insert_Some in Hs as [[<- _]|[_ ?]]; [right; exists k; set_solver | by left].
Qed.

(** A prompt: one more answer of the user, the cache as before. *)
Definition is_prompt a (fetch : Session U World -> Session U World * ReviewDecision) : Prop :=
  forall s, exists w d, fetch s = (mkSession w (tool_approvals s) (answers s ++ [UserAnswered a d]), d).

Lemma prompt_command_is a c cwd ctx : is_prompt a (prompt_command a c cwd ctx).
Proof. intros s. unfold prompt_command. destruct (request_command_approval _ _ _ _ _ _ _ _ _) as [w d]. eauto. Qed.

Lemma prompt_patch_is a changes reason ctx : is_prompt a (prompt_patch a changes reason ctx).
Proof. intros s. unfold prompt_patch. destruct (request_patch_approval _ _ _ _) as [w d]. eauto. Qed.

(** What the cache answers without a prompt, and what a prompt does to it. *)
Lemma with_cached_cases a fetch s s' d :
  is_prompt a fetch -> with_cached_approval (cache_keys try_parse_shell a) fetch s = (s', d) ->
  (s' = s /\ d = ApprovedForSession /\ cache_keys try_parse_shell a <> [] /\
   forall k, k ∈ cache_keys try_parse_shell a -> store_get (tool_approvals s) k = Some ApprovedForSession) \/
  (exists w, answers s' = answers s ++ [UserAnswered a d] /\ world s' = w /\
     forall text e, tool_approvals s' !! text = Some e ->
       tool_approvals s !! text = Some e \/
       d = ApprovedForSession /\ exists k, k ∈ cache_keys try_parse_shell a /\ key_json k = Some text).
Proof.
  intros Hf Hx. destruct (Hf s) as (w & d0 & Hfs). unfold with_cached_approval in Hx.
  destruct (cache_keys try_parse_shell a) as [|k0 keys] eqn:Ek.
  { rewrite Hfs in Hx. injection Hx as <- <-. right. exists w. simpl. auto. }
  rewrite <-Ek in *. destruct (forallb _ (cache_keys try_parse_shell a)) eqn:Eall.
  - injection Hx as <- <-. left. split_and!; [done | done | by rewrite Ek|]. intros k Hk.
    rewrite forallb_forall in Eall. apply list_elem_of_In in Hk. specialize (Eall k Hk). unfold is_approved_for_session in Eall.
    destruct (store_get (tool_approvals s) k) as [[]|]; done.
  - rewrite Hfs in Hx. right. exists w. destruct d0; injection Hx as <- <-; simpl; split_and!; auto.
    intros text e He. destruct (store_put_all _ _ _ _ He) as [?|?]; auto.
Qed.

Lemma with_cached_genuine a fetch s s' d :
  is_prompt a fetch -> with_cached_approval (cache_keys try_parse_shell a) fetch s = (s', d) -> cache_genuine s -> cache_genuine s'.
Proof.
  intros Hf Hx Hs. destruct (with_cached_cases a fetch s s' d Hf Hx) as [(-> & _)|(w & Ha & _ & Hst)]; [done|].
  intros text e He. rewrite Ha. destruct (Hst text e He) as [?|[-> (k & Hk & Hj)]].
  - eapply approved_key_mono; [by eapply Hs|]. set_solver.
  - exists a, k. split_and!; [set_solver | done | done].
Qed.

Lemma user_approval_genuine a ctx s s' d :
  request_user_approval try_parse_shell a ctx s = (s', d) -> cache_genuine s -> cache_genuine s'.
Proof.
  intros Hx Hs. destruct a as [c|c tty|id env cwd files patch changes pre]; unfold request_user_approval in Hx.
  1-2: destruct (guardian_cwd _ _); [|by injection Hx as <- <-]; eapply with_cached_genuine; [apply prompt_command_is | exact Hx | done].
  destruct (or_reason _ _) as [r|]; [|destruct pre].
  - destruct (prompt_patch_is (PatchAction id env cwd files patch changes pre) changes (Some r) ctx s) as (w & d0 & Hp).
    rewrite Hp in Hx. injection Hx as <- <-. by apply cache_genuine_answers.
  - by injection Hx as <- <-.
  - eapply with_cached_genuine; [apply prompt_patch_is | exact Hx | done].
Qed.

Lemma request_approval_genuine a ctx s s' r :
  request_approval try_parse_shell a ctx s = (s', r) -> cache_genuine s -> cache_genuine s'.
Proof.
  unfold request_approval, request_reviewer_approval, request_guardian_approval. intros Hx Hs.
  destruct (run_permission_request_hooks _ _ _) as [w hook].
  apply (cache_genuine_answers _ w [HookAnswered a hook]) in Hs. destruct hook as [[|m]|]; [by injection Hx as <- <-..|].
  destruct (if strict_auto_review ctx then Guardian else reviewer_for_turn ctx).
  - destruct (into_guardian_request a); [|by injection Hx as <- <-].
    destruct (review_approval_request _ _ _) as [w' d]. injection Hx as <- <-.
    by apply (cache_genuine_answers _ w' [GuardianAnswered a d]) in Hs.
  - destruct (request_user_approval _ _ _ _) as [s1 d] eqn:Eu. injection Hx as <- <-. by eapply user_approval_genuine.
Qed.

(** The requests of a session, one after the other. *)
Fixpoint run_requests (reqs : list (ApprovalAction U * ApprovalContext)) s : Session U World :=
  match reqs with
  | [] => s
  | (a, ctx) :: reqs' => run_requests reqs' (request_approval try_parse_shell a ctx s).1
  end.

Lemma run_requests_genuine reqs : forall s, cache_genuine s -> cache_genuine (run_requests reqs s).
Proof.
  induction reqs as [|[a ctx] reqs IH]; intros s Hs; simpl; [done|]. apply IH.
  destruct (request_approval try_parse_shell a ctx s) as [s' r] eqn:E. by eapply request_approval_genuine.
Qed.

Definition approving (d : ReviewDecision) : Prop :=
  match d with
  | Approved | ApprovedExecpolicyAmendment _ | ApprovedForSession => True
  | NetworkAmendment amendment => amendment_action amendment = RuleAllow
  | Denied _ | TimedOut | Aborted => False
  end.

(** A patch whose paths the user granted beforehand, with nothing else to say. *)
Definition preapproved_patch a ctx : Prop :=
  match a with
  | PatchAction _ _ _ _ _ _ preapproved => preapproved = true /\ retry_reason ctx = None /\ approval_reason ctx = None
  | _ => False
  end.

(** Each key of the action is that of an action approved for the session. *)
Definition approved_before a (evs : list (approval_event U)) : Prop :=
  cache_keys try_parse_shell a <> [] /\
  forall k, k ∈ cache_keys try_parse_shell a ->
    exists a' k', UserAnswered a' ApprovedForSession ∈ evs /\ k' ∈ cache_keys try_parse_shell a' /\ key_text k' = key_text k.

(** Who may grant a request, with the answers that are new. *)
Inductive granted a ctx (evs : list (approval_event U)) : list (approval_event U) -> ReviewDecision -> Prop :=
| granted_hook : granted a ctx evs [HookAnswered a (Some HookAllow)] Approved
| granted_guardian d : approving d -> strict_auto_review ctx = true \/ reviewer_for_turn ctx = Guardian ->
    granted a ctx evs [HookAnswered a None; GuardianAnswered a d] d
| granted_user d : approving d -> strict_auto_review ctx = false -> reviewer_for_turn ctx = User ->
    granted a ctx evs [HookAnswered a None; UserAnswered a d] d
| granted_preapproved : preapproved_patch a ctx -> strict_auto_review ctx = false -> reviewer_for_turn ctx = User ->
    granted a ctx evs [HookAnswered a None] Approved
| granted_cached : approved_before a evs -> strict_auto_review ctx = false -> reviewer_for_turn ctx = User ->
    granted a ctx evs [HookAnswered a None] ApprovedForSession.

Lemma into_tool_result_ok r d : into_tool_result r = Ok d -> d = resolution_decision r /\ approving d.
Proof.
  destruct r as [[| | |[h []]| | |] src]; unfold into_tool_result; simpl; intros; simplify_eq; done.
Qed.

Lemma cached_before a s :
  cache_genuine s -> cache_keys try_parse_shell a <> [] ->
  (forall k, k ∈ cache_keys try_parse_shell a -> store_get (tool_approvals s) k = Some ApprovedForSession) ->
  approved_before a (answers s).
Proof.
  intros Hs Hne Hall. split; [done|]. intros k Hk. specialize (Hall k Hk). unfold store_get in Hall.
  destruct (key_json k) as [text|] eqn:Ej; [|done]. destruct (Hs _ _ Hall) as (a' & k' & Ha & Hk' & Hj').
  exists a', k'. split_and!; [done | done|]. by eapply key_json_inj.
Qed.

(** The three ways of [request_user_approval] to an approval. *)
Lemma user_approval_cases a ctx s s' d :
  request_user_approval try_parse_shell a ctx s = (s', d) -> cache_genuine s -> approving d ->
  answers s' = answers s ++ [UserAnswered a d] \/
  answers s' = answers s /\ (preapproved_patch a ctx /\ d = Approved \/ approved_before a (answers s) /\ d = ApprovedForSession).
Proof.
  intros Hx Hs Hd.
  assert (forall fetch, is_prompt a fetch -> with_cached_approval (cache_keys try_parse_shell a) fetch s = (s', d) ->
    answers s' = answers s ++ [UserAnswered a d] \/ answers s' = answers s /\ approved_before a (answers s) /\ d = ApprovedForSession) as Hc.
  { intros fetch Hf Hw. destruct (with_cached_cases a fetch s s' d Hf Hw) as [(-> & -> & Hne & Hall)|(w & Ha & _)]; [|by left].
    right. auto using cached_before. }
  destruct a as [c|c tty|id env cwd files patch changes pre]; unfold request_user_approval in Hx.
  1-2: destruct (guardian_cwd _ _); [|by injection Hx as <- <-]; apply Hc in Hx; [naive_solver | apply prompt_command_is].
  destruct (retry_reason ctx) as [r|] eqn:Er; [|destruct (approval_reason ctx) as [r|] eqn:Ea; [|destruct pre]]; simpl in Hx.
  1-2: unfold prompt_patch in Hx; destruct (request_patch_approval _ _ _ _) as [w d0]; injection Hx as <- <-; by left.
  - injection Hx as <- <-. right. split; [done|]. by left.
  - apply Hc in Hx; [naive_solver | apply prompt_patch_is].
Qed.

(** C18.  In every session a request is granted only by someone entitled to: a hook that
    allows it; the automatic reviewer, which strict review always asks; the user; or,
    without a prompt, an earlier grant of the permissions a patch needs or earlier
    approvals for the session by the user, one for each key of the action, that name
    the same environment, canonical command, directory and permissions. *)
Theorem approvals_have_a_source w reqs a ctx s' d :
  let s := run_requests reqs (mkSession w ∅ []) in
  request_approval try_parse_shell a ctx s = (s', Ok d) ->
  exists new, answers s' = answers s ++ new /\ granted a ctx (answers s) new d.
Proof using KeyJsonLaws0.
  intros s Hx. assert (cache_genuine s) as Hs by by apply run_requests_genuine. clearbody s.
  unfold request_approval, request_reviewer_approval, request_guardian_approval in Hx.
  destruct (run_permission_request_hooks _ _ _) as [w' hook].
  apply (cache_genuine_answers _ w' [HookAnswered a hook]) in Hs.
  destruct hook as [[|m]|]; [injection Hx as <- <-; eexists; split; [done | constructor] | done|].
  destruct (if strict_auto_review ctx then Guardian else reviewer_for_turn ctx) eqn:Erev.
  - destruct (into_guardian_request a); [|done]. destruct (review_approval_request _ _ _) as [w2 d2].
    injection Hx as <- [-> Hd]%into_tool_result_ok. simpl in *. eexists. rewrite <-app_assoc. split; [done|].
    constructor; [done|]. destruct (strict_auto_review ctx); auto.
  - destruct (request_user_approval _ _ _ _) as [s1 d1] eqn:Eu. injection Hx as <- [-> Hd]%into_tool_result_ok. simpl in Hd.
    assert (strict_auto_review ctx = false /\ reviewer_for_turn ctx = User) as [Hst Hrev] by by destruct (strict_auto_review ctx).
    destruct (user_approval_cases _ _ _ _ _ Eu Hs Hd) as [Ha|[Ha [[Hp ->]|[Hb ->]]]]; rewrite Ha; simpl; rewrite <-?app_assoc;
      (eexists; split; [done|]); simpl; try by constructor.
    apply granted_cached; [|done..]. destruct Hb as [Hne Hb]. split; [done|]. intros k Hk.
    destruct (Hb k Hk) as (a' & k' & He & ?). exists a', k'. split; [|done]. simpl in He. set_solver.
Qed.
End Cache.

Module ReviewDemo.
Import MemFs AbsPathDemo PermissionsDemo SafetyDemo.

(** A user who approves for the session whatever the first question is, and then
    denies. *)
#[export] Instance once_host : ApprovalHost str nat := {|
  run_permission_request_hooks w _ _ := (w, None);
  review_approval_request w _ _ := (w, TimedOut);
  request_command_approval w _ _ _ _ _ _ _ _ := (S w, match w with 0 => ApprovedForSession | _ => Denied (lit "no") end);
  request_patch_approval w _ _ _ := (S w, match w with 0 => ApprovedForSession | _ => Denied (lit "no") end);
  uri_text u := u;
  url_to_file_path _ := None;
|}.

(** Keys of patches in the local environment. *)
#[export] Instance patch_json : KeyJson str := fun k =>
  match k with
  | PatchKey environment_id p => if bool_decide (environment_id = LOCAL_ENVIRONMENT_ID) then Some p else None
  | _ => None
  end.

#[export] Instance patch_json_laws : KeyJsonLaws str.
Proof.
  split. intros [k|k t|e p] [k'|k' t'|e' p'] s; unfold key_json, patch_json; try discriminate.
  repeat case_bool_decide; try discriminate. intros [= ->] [= ->]. by subst.
Qed.

Definition patch_of (files : list str) : ApprovalAction str :=
  PatchAction (lit "call") LOCAL_ENVIRONMENT_ID (lit "/work/repo") files (lit "patch") ∅ false.
Definition plain_context : ApprovalContext := mkContext OnRequest ReviewerUser (lit "call") false None None None.
Definition first_request : list (ApprovalAction str * ApprovalContext) := [(patch_of [lit "/work/repo/a"; lit "/work/repo/b"], plain_context)].
Definition no_scripts : str -> option Tree := fun _ => None.
End ReviewDemo.
Import MemFs AbsPathDemo PermissionsDemo SafetyDemo ReviewDemo.

Lemma approvals_have_a_source_witness :
  exists new,
    granted no_scripts (patch_of [lit "/work/repo/b"]) plain_context
      (answers (run_requests no_scripts first_request (mkSession 0 ∅ []))) new ApprovedForSession.
Proof.
  destruct (request_approval no_scripts (patch_of [lit "/work/repo/b"]) plain_context
              (run_requests no_scripts first_request (mkSession 0 ∅ []))) as [s' r] eqn:E.
  destruct (approvals_have_a_source no_scripts 0 first_request (patch_of [lit "/work/repo/b"]) plain_context s' ApprovedForSession)
    as (new & _ & Hg).
  - rewrite E. apply (f_equal snd) in E. vm_compute in E. subst r. reflexivity.
  - exists new. exact Hg.
Defined.

(** The second patch, of a file of the first, is not asked about; a third is. *)
Example cached_patch :
  let s := run_requests no_scripts first_request (mkSession 0 ∅ []) in
  (request_approval no_scripts (patch_of [lit "/work/repo/b"]) plain_context s).2 = Ok ApprovedForSession
  /\ (request_approval no_scripts (patch_of [lit "/work/repo/b"; lit "/work/repo/c"]) plain_context s).2 = Err (Rejected (lit "no")).
Proof. split; vm_compute; reflexivity. Qed.

(** The wrapper's path is not part of the canonical command, the script is. *)
Example canonical_commands :
  map (canonicalize_command_for_approval no_scripts)
    [[lit "/bin/bash"; lit "-lc"; lit "a | b"]; [lit "bash"; lit "-lc"; lit "a | b"];
     [lit "pwsh"; lit "-NoProfile"; lit "-Command"; lit "dir"]; [lit "cargo"; lit "test"]]
  = [[lit "__codex_shell_script__"; lit "-lc"; lit "a | b"]; [lit "__codex_shell_script__"; lit "-lc"; lit "a | b"];
     [lit "__codex_powershell_script__"; lit "dir"]; [lit "cargo"; lit "test"]].
Proof. vm_compute. reflexivity. Qed.
