(* ===== verification/Orchestrator.v ===== *)
(** * Running a tool: approval, sandbox, retry

    Models [core/src/tools/orchestrator.rs], the sandbox decisions and the traits of
    [core/src/tools/sandboxing.rs], the choice of a sandbox in
    [sandboxing/src/manager.rs], and of [core/src/tools/network_approval.rs] what an
    attempt does before and after it runs.  A tool is a record of its operations; its
    run and the network proxy are host operations.  Which approvals were granted and
    which attempts were made is kept in a trace. *)

From Stdlib Require Import Lia.
From stdpp Require Import gmap relations.
From S2P Require Import Prelude RustStr PatchSyntax Host ShellScript CommandSafety ExecPolicy AbsPath.
From S2P Require Import Profile Approval Permissions SandboxPolicies PolicyTransforms PatchSafety ToolApproval.

(** ** Sandboxes *)

Inductive SandboxablePreference : Type := PreferAuto | PreferRequire | PreferForbid.

#[export] Instance preference_eq_dec : EqDecision SandboxablePreference.
Proof. solve_decision. Defined.

Definition should_sandbox (profile : permission_profile) (pref : SandboxablePreference) (has_managed_network_requirements : bool) : bool :=
  match pref with
  | PreferForbid => false
  | PreferRequire => true
  | PreferAuto =>
      let '(file_system_policy, network_policy) := to_runtime_permissions profile in
      should_require_platform_sandbox file_system_policy network_policy has_managed_network_requirements
  end.

Definition select_initial `{Platform} (profile : permission_profile) (pref : SandboxablePreference) (level : WindowsSandboxLevel)
    (has_managed_network_requirements : bool) : SandboxType :=
  if should_sandbox profile pref has_managed_network_requirements
  then default SandboxNone (get_platform_sandbox (bool_decide (level <> LevelDisabled)))
  else SandboxNone.

Inductive SandboxOverride : Type := NoOverride | BypassSandboxFirstAttempt.

Definition unsandboxed_execution_allowed (pol : policy) : bool := negb (has_denied_read_restrictions pol).

Definition sandbox_override_for_first_attempt (sandbox_permissions : SandboxPermissions) (requirement : ExecApprovalRequirement)
    (pol : policy) : SandboxOverride :=
  if negb (unsandboxed_execution_allowed pol) then NoOverride
  else
    match requirement with
    | Skip true _ => BypassSandboxFirstAttempt
    | _ => if requires_escalated_permissions sandbox_permissions then BypassSandboxFirstAttempt else NoOverride
    end.

Definition sandbox_permissions_preserving_denied_reads (sandbox_permissions : SandboxPermissions) (pol : policy) : SandboxPermissions :=
  if requires_escalated_permissions sandbox_permissions && negb (unsandboxed_execution_allowed pol)
  then UseDefault else sandbox_permissions.

Definition managed_network_for_sandbox_permissions {Proxy} (network : option Proxy) (sandbox_permissions : SandboxPermissions)
  : option Proxy :=
  if requires_escalated_permissions sandbox_permissions then None else network.

(** The defaults of the trait [Approvable]. *)
Definition default_should_bypass_approval (policy : AskForApproval) (already_approved : bool) : bool :=
  if already_approved then true else match policy with Never => true | _ => false end.

Definition default_wants_no_sandbox_approval (policy : AskForApproval) : bool :=
  match policy with
  | UnlessTrusted => true
  | Never | OnRequest => false
  | Granular config => sandbox_approval config
  end.

(** ** Network approvals of an attempt *)

Inductive NetworkApprovalMode : Type := Immediate | Deferred.

(** The fields of [NetworkApprovalSpec] that are looked at here. *)
Record NetworkApprovalSpec {Proxy : Type} : Type := mkNetworkSpec {
  spec_network : option Proxy;
  spec_mode : NetworkApprovalMode;
  spec_command : str;
  spec_environment : str;
  spec_profile : permission_profile;
}.
Arguments NetworkApprovalSpec : clear implicits.
Arguments mkNetworkSpec {Proxy}.

Record ActiveNetworkApproval {Proxy : Type} : Type := mkActive {
  registration_id : option str;
  active_mode : NetworkApprovalMode;
  execution_proxy : Proxy;
}.
Arguments ActiveNetworkApproval : clear implicits.
Arguments mkActive {Proxy}.

Record DeferredNetworkApproval {Proxy : Type} : Type := mkDeferred { deferred_registration : str; deferred_proxy : Proxy }.
Arguments DeferredNetworkApproval : clear implicits.
Arguments mkDeferred {Proxy}.

Definition into_deferred {Proxy} (a : ActiveNetworkApproval Proxy) : option (DeferredNetworkApproval Proxy) :=
  match active_mode a, registration_id a with
  | Deferred, Some id => Some (mkDeferred id (execution_proxy a))
  | _, _ => None
  end.

(** ** Attempts *)

Record SandboxAttempt {U Proxy : Type} : Type := mkAttempt {
  attempt_sandbox : SandboxType;
  sandbox_requested : bool;
  attempt_permissions : permission_profile;
  exec_server_permissions : permission_profile;
  enforce_managed_network : bool;
  attempt_cwd : U;
  attempt_workspace_roots : list U;
  attempt_linux_sandbox_exe : option str;
  attempt_use_legacy_landlock : bool;
  attempt_windows_level : WindowsSandboxLevel;
  attempt_private_desktop : bool;
  attempt_network_proxy : option Proxy;
}.
Arguments SandboxAttempt : clear implicits.
Arguments mkAttempt {U Proxy}.

(** The traits [Approvable], [Sandboxable] and [ToolRuntime]. *)
Record ToolRuntime {U World Proxy Req Out : Type} : Type := mkTool {
  tool_sandbox_permissions : Req -> SandboxPermissions;
  should_bypass_approval : AskForApproval -> bool -> bool;
  exec_approval_requirement : Req -> option ExecApprovalRequirement;
  wants_no_sandbox_approval : AskForApproval -> bool;
  approval_action : Req -> str -> result (ApprovalAction U) io_error;
  sandbox_preference : SandboxablePreference;
  escalate_on_failure : bool;
  turn_environment : Req -> TurnEnvironment U;
  network_approval_spec : Req -> option (NetworkApprovalSpec Proxy);
  tool_sandbox_cwd : Req -> option U;
  tool_run : World -> Req -> SandboxAttempt U Proxy -> World * result Out ToolError;
}.
Arguments ToolRuntime : clear implicits.

(** What the orchestrator reads of the turn and of the call. *)
Record TurnContext : Type := mkTurn {
  turn_policy : AskForApproval;
  turn_reviewer : ApprovalsReviewer;
  turn_call_id : str;
  strict_auto_review_enabled_for_turn : bool;
  managed_network : bool;
  windows_sandbox_level : WindowsSandboxLevel;
  use_legacy_landlock : bool;
  codex_linux_sandbox_exe : option str;
  windows_sandbox_private_desktop : bool;
}.

(** The proxy of an execution, registered under an id, and the outcome of its network
    requests: the message of a denial, if there was one. *)
Class NetworkHost (Proxy World : Type) : Type := {
  open_execution : World -> NetworkApprovalSpec Proxy -> Proxy -> World * result (str * Proxy) str;
  finish_call : World -> str -> World * result unit str;
}.

Inductive run_event (U Proxy : Type) : Type :=
| ApprovalGranted (action : ApprovalAction U) (ctx : ApprovalContext) (decision : ReviewDecision)
| ToolRan (attempt : SandboxAttempt U Proxy).
Arguments ApprovalGranted {U Proxy}.
Arguments ToolRan {U Proxy}.

(** The session and the trace of this run. *)
Record RunState {U World Proxy : Type} : Type := mkRunState {
  run_session : Session U World;
  run_trace : list (run_event U Proxy);
}.
Arguments RunState : clear implicits.
Arguments mkRunState {U World Proxy}.

Definition OrchestratorRunResult (Proxy Out : Type) : Type := Out * option (DeferredNetworkApproval Proxy).

(** [Result::map]. *)
Definition map_ok {A B E} (f : A -> B) (r : result A E) : result B E := match r with Ok a => Ok (f a) | Err e => Err e end.

Section Run.
Context {U World Proxy Req Out : Type}.
Context `{!NativePaths U, !KeyJson U, !ApprovalHost U World, !NetworkHost Proxy World} `{Platform} {PH : PathHost} {FH : FsHost}.
Context (try_parse_shell : str -> option Tree).
Abbreviation state := (RunState U World Proxy).
Abbreviation run_act A := (act state A ToolError).

Definition with_world (w : World) (st : state) : state :=
  let s := run_session st in mkRunState (mkSession w (tool_approvals s) (answers s)) (run_trace st).

(** A host operation on the world. *)
Definition on_world {A} (error : str -> ToolError) (f : World -> World * result A str) : run_act A :=
  fun st => let '(w, r) := f (world (run_session st)) in (with_world w st, map_err error r).

Definition begin_network_approval (managed_network_active : bool) (spec : option (NetworkApprovalSpec Proxy))
  : run_act (option (ActiveNetworkApproval Proxy)) :=
  match spec with
  | None => ret None
  | Some spec =>
      match spec_network spec with
      | None => ret None
      | Some network =>
          if negb managed_network_active then ret None
          else
            do? (id, proxy) := on_world
              (fun m => Codex (OtherCodexErr (lit "failed to create execution-scoped network proxy: " ++ m)))
              (fun w => open_execution w spec network) in
            ret (Some (mkActive (Some id) (spec_mode spec) proxy))
      end
  end.

Definition finish_immediate_network_approval (active : ActiveNetworkApproval Proxy) : run_act unit :=
  match registration_id active with
  | None => ret tt
  | Some id => on_world Rejected (fun w => finish_call w id)
  end.

Definition finish_deferred_network_approval (deferred : option (DeferredNetworkApproval Proxy)) : run_act unit :=
  match deferred with
  | None => ret tt
  | Some deferred => on_world Rejected (fun w => finish_call w (deferred_registration deferred))
  end.

Definition with_network (attempt : SandboxAttempt U Proxy) (active : option (ActiveNetworkApproval Proxy)) : SandboxAttempt U Proxy :=
  mkAttempt (attempt_sandbox attempt) (sandbox_requested attempt) (attempt_permissions attempt) (exec_server_permissions attempt)
    (enforce_managed_network attempt) (attempt_cwd attempt) (attempt_workspace_roots attempt) (attempt_linux_sandbox_exe attempt)
    (attempt_use_legacy_landlock attempt) (attempt_windows_level attempt) (attempt_private_desktop attempt)
    (execution_proxy <$> active).

(** The tool itself; that it ran goes to the trace. *)
Definition run_tool (tool : ToolRuntime U World Proxy Req Out) (req : Req) (attempt : SandboxAttempt U Proxy) (st : state)
  : state * result Out ToolError :=
  let '(w, r) := tool_run tool (world (run_session st)) req attempt in
  let st := with_world w st in
  (mkRunState (run_session st) (run_trace st ++ [ToolRan attempt]), r).

Definition run_attempt (tool : ToolRuntime U World Proxy Req Out) (req : Req) (attempt : SandboxAttempt U Proxy)
    (managed_network_active : bool) : run_act (OrchestratorRunResult Proxy Out) :=
  do? network_approval := begin_network_approval managed_network_active (network_approval_spec tool req) in
  fun st =>
    let '(st, run_result) := run_tool tool req (with_network attempt network_approval) st in
    match network_approval with
    | None => (st, map_ok (fun out => (out, None)) run_result)
    | Some active =>
        match active_mode active with
        | Immediate =>
            match finish_immediate_network_approval active st with
            | (st, Err err) => (st, Err err)
            | (st, Ok _) => (st, map_ok (fun out => (out, None)) run_result)
            end
        | Deferred =>
            let deferred := into_deferred active in
            match run_result with
            | Err run_err =>
                match finish_deferred_network_approval deferred st with
                | (st, Err err) => (st, Err err)
                | (st, Ok _) => (st, Err run_err)
                end
            | Ok out => (st, Ok (out, deferred))
            end
        end
    end.

(** A request for approval, from the action of the tool to its outcome. *)
Definition ask_approval (tool : ToolRuntime U World Proxy Req Out) (req : Req) (turn : TurnContext)
    (approval_reason retry_reason : option str) (network : option NetworkApprovalContext) : run_act unit :=
  fun st =>
    match approval_action tool req (turn_call_id turn) with
    | Err err => (st, Err (Rejected (lit "could not prepare approval action: " ++ io_message err)))
    | Ok action =>
        let ctx := mkContext (turn_policy turn) (turn_reviewer turn) (turn_call_id turn)
                     (strict_auto_review_enabled_for_turn turn) approval_reason retry_reason network in
        match request_approval try_parse_shell action ctx (run_session st) with
        | (s, Ok decision) => (mkRunState s (run_trace st ++ [ApprovalGranted action ctx decision]), Ok tt)
        | (s, Err err) => (mkRunState s (run_trace st), Err err)
        end
    end.

(** Step 1, with whether an approval was given. *)
Definition first_approval (tool : ToolRuntime U World Proxy Req Out) (req : Req) (turn : TurnContext)
    (requirement : ExecApprovalRequirement) : run_act bool :=
  match requirement with
  | Skip _ _ =>
      if strict_auto_review_enabled_for_turn turn
      then do? _ := ask_approval tool req turn None None None in ret true
      else ret false
  | ForbiddenReq reason => throw (Rejected reason)
  | NeedsApproval reason _ => do? _ := ask_approval tool req turn reason None None in ret true
  end.

(** The sandbox of an attempt that asks for one or not. *)
Definition sandbox_for (requested : bool) (profile : permission_profile) (pref : SandboxablePreference) (turn : TurnContext) : SandboxType :=
  if requested then select_initial profile pref (windows_sandbox_level turn) (managed_network turn) else SandboxNone.

Definition first_sandbox_requested (tool : ToolRuntime U World Proxy Req Out) (req : Req) (turn : TurnContext)
    (permissions : permission_profile) (requirement : ExecApprovalRequirement) : bool :=
  match sandbox_override_for_first_attempt (tool_sandbox_permissions tool req) requirement (file_system_sandbox_policy permissions) with
  | BypassSandboxFirstAttempt => false
  | NoOverride => should_sandbox permissions (sandbox_preference tool) (managed_network turn)
  end.

Definition make_attempt (tool : ToolRuntime U World Proxy Req Out) (req : Req) (turn : TurnContext) (permissions : permission_profile)
    (requested : bool) (linux_sandbox_exe : option str) : SandboxAttempt U Proxy :=
  let environment := turn_environment tool req in
  mkAttempt (sandbox_for requested permissions (sandbox_preference tool) turn) requested permissions (environment_profile environment)
    (managed_network turn) (default (environment_cwd environment) (tool_sandbox_cwd tool req)) (workspace_roots environment)
    linux_sandbox_exe (use_legacy_landlock turn) (windows_sandbox_level turn) (windows_sandbox_private_desktop turn) None.

Definition initial_attempt (tool : ToolRuntime U World Proxy Req Out) (req : Req) (turn : TurnContext) (permissions : permission_profile)
    (requirement : ExecApprovalRequirement) : SandboxAttempt U Proxy :=
  make_attempt tool req turn permissions (first_sandbox_requested tool req turn permissions requirement) (codex_linux_sandbox_exe turn).

Definition retry_attempt (tool : ToolRuntime U World Proxy Req Out) (req : Req) (turn : TurnContext) (permissions : permission_profile)
  : SandboxAttempt U Proxy :=
  let unsandboxed_allowed := unsandboxed_execution_allowed (file_system_sandbox_policy permissions) in
  make_attempt tool req turn permissions
    (negb unsandboxed_allowed && should_sandbox permissions (sandbox_preference tool) (managed_network turn))
    (if unsandboxed_allowed then None else codex_linux_sandbox_exe turn).

Definition build_denial_reason_from_output (output : ExecToolCallOutput) : str := lit "command failed; retry without sandbox?".

(** Whether a denial leads to a retry, with the network request it is about. *)
Definition retry_allowed (tool : ToolRuntime U World Proxy Req Out) (turn : TurnContext) (approval_policy : AskForApproval) (pol : policy)
    (decision : option NetworkPolicyDecisionPayload) : option (option NetworkApprovalContext) :=
  let network := if managed_network turn then decision ≫= network_approval_context_from_payload else None in
  let on_network := match network with Some _ => true | None => false end in
  if match decision with Some _ => negb on_network | None => false end then None
  else if negb (escalate_on_failure tool) then None
  else
    let allow_on_request_network_prompt :=
      match approval_policy with OnRequest => true | _ => false end && on_network
      && match default_exec_approval_requirement approval_policy pol with NeedsApproval _ _ => true | _ => false end in
    if negb (wants_no_sandbox_approval tool approval_policy) && negb allow_on_request_network_prompt then None
    else if negb (unsandboxed_execution_allowed pol) && negb on_network then None
    else Some network.

(** The second approval and attempt. *)
Definition retry_run (tool : ToolRuntime U World Proxy Req Out) (req : Req) (turn : TurnContext) (approval_policy : AskForApproval)
    (permissions : permission_profile) (requirement : ExecApprovalRequirement) (already_approved : bool) (output : ExecToolCallOutput)
    (network : option NetworkApprovalContext) : run_act (OrchestratorRunResult Proxy Out) :=
  let retry_reason :=
    match network with
    | Some network => lit "Network access to " ++ [34%N] ++ context_host network ++ [34%N] ++ lit " is blocked by policy."
    | None => build_denial_reason_from_output output
    end in
  let bypass_retry_approval :=
    negb (strict_auto_review_enabled_for_turn turn) && should_bypass_approval tool approval_policy already_approved
    && match network with None => true | Some _ => false end in
  do? _ :=
    (if bypass_retry_approval then ret tt
     else ask_approval tool req turn (match requirement with NeedsApproval reason _ => reason | _ => None end) (Some retry_reason) network) in
  run_attempt tool req (retry_attempt tool req turn permissions) (managed_network turn).

(** [run], once the permissions are known. *)
Definition run_with (tool : ToolRuntime U World Proxy Req Out) (req : Req) (turn : TurnContext) (approval_policy : AskForApproval)
    (permissions : permission_profile) : run_act (OrchestratorRunResult Proxy Out) :=
  let pol := file_system_sandbox_policy permissions in
  let requirement := default (default_exec_approval_requirement approval_policy pol) (exec_approval_requirement tool req) in
  do? already_approved := first_approval tool req turn requirement in
  fun st =>
    match run_attempt tool req (initial_attempt tool req turn permissions requirement) (managed_network turn) st with
    | (st, Ok out) => (st, Ok out)
    | (st, Err (Codex (SandboxDenied output decision))) =>
        match retry_allowed tool turn approval_policy pol decision with
        | None => (st, Err (Codex (SandboxDenied output decision)))
        | Some network => retry_run tool req turn approval_policy permissions requirement already_approved output network st
        end
    | (st, Err err) => (st, Err err)
    end.

(** [None] would be a panic of the materialization. *)
Definition run (tool : ToolRuntime U World Proxy Req Out) (req : Req) (turn : TurnContext) (approval_policy : AskForApproval) (s : Session U World)
  : option (state * result (OrchestratorRunResult Proxy Out) ToolError) :=
  let! permissions := permission_profile_with_workspace_roots (turn_environment tool req) in
  Some (run_with tool req turn approval_policy permissions (mkRunState s [])).
End Run.

(** ** Every attempt is authorized *)

Section Traces.
Context {U World Proxy Req Out : Type}.
Context `{!NativePaths U, !KeyJson U, !ApprovalHost U World, !NetworkHost Proxy World} `{Platform} {PH : PathHost} {FH : FsHost}.
Context (try_parse_shell : str -> option Tree).
Abbreviation state := (RunState U World Proxy).
Implicit Types (tool : ToolRuntime U World Proxy Req Out) (req : Req) (turn : TurnContext) (st : state).

Lemma on_world_trace {A} error (f : World -> World * result A str) st st' r :
  on_world error f st = (st', r) -> run_trace st' = run_trace st.
Proof. unfold on_world. destruct (f _) as [w r']. by intros [= <- <-]. Qed.

Lemma begin_trace active spec st st' r :
  begin_network_approval active spec st = (st', r) ->
  run_trace st' = run_trace st /\ (forall e, r = Err e -> exists m, e = Codex (OtherCodexErr m)).
Proof.
  unfold begin_network_approval. intros Hx. destruct spec as [spec|]; [|by injection Hx as <- <-].
  destruct (spec_network spec) as [network|]; [|by injection Hx as <- <-].
  destruct active; [|by injection Hx as <- <-]. simpl in Hx. unfold bind, on_world in Hx.
  destruct (open_execution _ _ _) as [w [[id proxy]|m]]; injection Hx as <- <-; split; try done. intros e [= <-]. eauto.
Qed.

Lemma finish_immediate_trace (active : ActiveNetworkApproval Proxy) st st' r :
  finish_immediate_network_approval active st = (st', r) -> run_trace st' = run_trace st.
Proof.
  unfold finish_immediate_network_approval. destruct (registration_id active); [apply on_world_trace | by intros [= <- <-]].
Qed.

Lemma finish_deferred_trace (deferred : option (DeferredNetworkApproval Proxy)) st st' r :
  finish_deferred_network_approval deferred st = (st', r) -> run_trace st' = run_trace st.
Proof.
  unfold finish_deferred_network_approval. destruct deferred; [apply on_world_trace | by intros [= <- <-]].
Qed.

(** An attempt runs the tool once, with the proxy of the execution in place, unless
    the proxy could not be set up. *)
Lemma run_attempt_trace tool req attempt active st st' r :
  run_attempt tool req attempt active st = (st', r) ->
  (run_trace st' = run_trace st /\ st' = (begin_network_approval active (network_approval_spec tool req) st).1
   /\ exists m, r = Err (Codex (OtherCodexErr m))) \/
  exists network, run_trace st' = run_trace st ++ [ToolRan (with_network attempt network)].
Proof.
  unfold run_attempt, bind, run_tool. intros Hx.
  destruct (begin_network_approval active (network_approval_spec tool req) st) as [st1 [network|e]] eqn:Eb;
    apply begin_trace in Eb as [Eb He]; [|injection Hx as <- <-; destruct (He e eq_refl) as [m ->]; left; eauto].
  destruct (tool_run _ _ _ _) as [w rr]. simpl in Hx. rewrite Eb in Hx. right. exists network.
  destruct network as [a|]; [|by injection Hx as <- <-].
  destruct (active_mode a); [|destruct rr as [out|err]].
  - destruct (finish_immediate_network_approval a _) as [st2 [?|?]] eqn:Ef; apply finish_immediate_trace in Ef; by injection Hx as <- <-.
  - by injection Hx as <- <-.
  - destruct (finish_deferred_network_approval _ _) as [st2 [?|?]] eqn:Ef; apply finish_deferred_trace in Ef; by injection Hx as <- <-.
Qed.

(** The context a request for approval is made with. *)
Definition context_of turn (reason retry : option str) (network : option NetworkApprovalContext) : ApprovalContext :=
  mkContext (turn_policy turn) (turn_reviewer turn) (turn_call_id turn) (strict_auto_review_enabled_for_turn turn) reason retry network.

(** The event of a granted approval of the tool's action. *)
Definition is_grant tool req turn (reason retry : option str) (network : option NetworkApprovalContext) (ev : run_event U Proxy) : Prop :=
  exists action d, approval_action tool req (turn_call_id turn) = Ok action
    /\ ev = ApprovalGranted action (context_of turn reason retry network) d.

(** Whoever refuses, refuses with a message. *)
Lemma request_approval_refused a ctx s s' e : request_approval try_parse_shell a ctx s = (s', Err e) -> exists m, e = Rejected m.
Proof.
  unfold request_approval. intros Hx. destruct (run_permission_request_hooks _ _ _) as [w hook].
  destruct (match hook with Some HookAllow => _ | _ => _ end) as [s1 [d src]]. injection Hx as _ Hr.
  unfold into_tool_result in Hr. simpl in Hr. repeat case_match; simplify_eq; eauto.
Qed.

Lemma ask_refused tool req turn reason retry network st st' e :
  ask_approval try_parse_shell tool req turn reason retry network st = (st', Err e) -> exists m, e = Rejected m.
Proof.
  unfold ask_approval. intros Hx. destruct (approval_action _ _ _) as [a|err]; [|injection Hx as _ <-; eauto].
  destruct (request_approval _ _ _ _) as [s [d|err]] eqn:Er; injection Hx; [done|]. intros <- _. by eapply request_approval_refused.
Qed.

Lemma ask_trace tool req turn reason retry network st st' r :
  ask_approval try_parse_shell tool req turn reason retry network st = (st', r) ->
  match r with
  | Ok _ => exists ev, is_grant tool req turn reason retry network ev /\ run_trace st' = run_trace st ++ [ev]
  | Err _ => run_trace st' = run_trace st
  end.
Proof.
  unfold ask_approval, is_grant, context_of. intros Hx.
  destruct (approval_action tool req (turn_call_id turn)) as [action|e]; [|by injection Hx as <- <-].
  destruct (request_approval _ _ _ _) as [s [d|e]]; injection Hx as <- <-; [|done]. eexists. split; [|done]. eauto.
Qed.

Definition is_skip (requirement : ExecApprovalRequirement) : Prop :=
  match requirement with Skip _ _ => True | _ => False end.

Definition requirement_reason (requirement : ExecApprovalRequirement) : option str :=
  match requirement with NeedsApproval reason _ => reason | _ => None end.

(** Step 1: nothing asked, asked and granted, or the run is over. *)
Lemma first_approval_trace tool req turn requirement st st' r :
  first_approval try_parse_shell tool req turn requirement st = (st', r) ->
  match r with
  | Ok false => is_skip requirement /\ strict_auto_review_enabled_for_turn turn = false /\ run_trace st' = run_trace st
  | Ok true => exists ev, is_grant tool req turn (requirement_reason requirement) None None ev /\ run_trace st' = run_trace st ++ [ev]
  | Err _ => run_trace st' = run_trace st
  end.
Proof.
  unfold first_approval, bind. intros Hx. destruct requirement as [b a|reason a|reason]; [|..].
  - destruct (strict_auto_review_enabled_for_turn turn) eqn:Es; [|by injection Hx as <- <-].
    destruct (ask_approval _ _ _ _ _ _ _ _) as [st1 [[]|e]] eqn:Ea; apply ask_trace in Ea; by injection Hx as <- <-.
  - destruct (ask_approval _ _ _ _ _ _ _ _) as [st1 [[]|e]] eqn:Ea; apply ask_trace in Ea; by injection Hx as <- <-.
  - by injection Hx as <- <-.
Qed.

(** What comes before the first attempt, with whether it is an approval. *)
Inductive opening tool req turn (requirement : ExecApprovalRequirement) : bool -> list (run_event U Proxy) -> Prop :=
| opening_unasked : is_skip requirement -> strict_auto_review_enabled_for_turn turn = false -> opening tool req turn requirement false []
| opening_granted ev : is_grant tool req turn (requirement_reason requirement) None None ev ->
    opening tool req turn requirement true [ev].

(** What comes between the attempts. *)
Inductive reopening tool req turn (policy : AskForApproval) (requirement : ExecApprovalRequirement) (approved : bool)
  : list (run_event U Proxy) -> Prop :=
| reopening_unasked : strict_auto_review_enabled_for_turn turn = false -> should_bypass_approval tool policy approved = true ->
    reopening tool req turn policy requirement approved []
| reopening_granted retry network ev : is_grant tool req turn (requirement_reason requirement) (Some retry) network ev ->
    reopening tool req turn policy requirement approved [ev].

(** A retry needs a tool that escalates, a policy that lets it be offered, and either no
    denied reads or a network request. *)
Definition may_retry tool (turn : TurnContext) (policy : AskForApproval) (permissions : permission_profile) : Prop :=
  exists decision network, retry_allowed tool turn policy (file_system_sandbox_policy permissions) decision = Some network.

(** The traces of a run. *)
Inductive run_shape tool req turn policy permissions requirement : list (run_event U Proxy) -> Prop :=
| shape_refused : run_shape tool req turn policy permissions requirement []
| shape_opened b pre : opening tool req turn requirement b pre -> run_shape tool req turn policy permissions requirement pre
| shape_one b pre n : opening tool req turn requirement b pre ->
    run_shape tool req turn policy permissions requirement
      (pre ++ [ToolRan (with_network (initial_attempt tool req turn permissions requirement) n)])
| shape_reopened b pre n mid : opening tool req turn requirement b pre -> may_retry tool turn policy permissions ->
    reopening tool req turn policy requirement b mid ->
    run_shape tool req turn policy permissions requirement
      ((pre ++ [ToolRan (with_network (initial_attempt tool req turn permissions requirement) n)]) ++ mid)
| shape_two b pre n mid n' : opening tool req turn requirement b pre -> may_retry tool turn policy permissions ->
    reopening tool req turn policy requirement b mid ->
    run_shape tool req turn policy permissions requirement
      (((pre ++ [ToolRan (with_network (initial_attempt tool req turn permissions requirement) n)]) ++ mid)
       ++ [ToolRan (with_network (retry_attempt tool req turn permissions) n')]).

Lemma retry_run_trace tool req turn policy permissions requirement approved output network st st' r :
  retry_run try_parse_shell tool req turn policy permissions requirement approved output network st = (st', r) ->
  run_trace st' = run_trace st \/
  exists mid, reopening tool req turn policy requirement approved mid /\
    (run_trace st' = run_trace st ++ mid \/
     exists n, run_trace st' = (run_trace st ++ mid) ++ [ToolRan (with_network (retry_attempt tool req turn permissions) n)]).
Proof.
  unfold retry_run, bind. intros Hx.
  destruct (negb (strict_auto_review_enabled_for_turn turn) && should_bypass_approval tool policy approved && _) eqn:Eb.
  - apply andb_true_iff in Eb as [[Es%negb_true_iff Hb]%andb_true_iff _]. simpl in Hx. right. exists [].
    split; [by constructor|]. rewrite app_nil_r. destruct (run_attempt_trace _ _ _ _ _ _ _ Hx) as [(? & _)|?]; auto.
  - destruct (ask_approval _ _ _ _ _ _ _ _) as [st1 [[]|e]] eqn:Ea; apply ask_trace in Ea; [|injection Hx as <- <-; by left].
    destruct Ea as (ev & Hg & Ht). right. exists [ev]. split; [by econstructor|]. rewrite <-Ht.
    destruct (run_attempt_trace _ _ _ _ _ _ _ Hx) as [(? & _)|?]; auto.
Qed.

Lemma run_with_shape tool req turn policy permissions s st r :
  run_with try_parse_shell tool req turn policy permissions (mkRunState s []) = (st, r) ->
  run_shape tool req turn policy permissions
    (default (default_exec_approval_requirement policy (file_system_sandbox_policy permissions)) (exec_approval_requirement tool req))
    (run_trace st).
Proof.
  unfold run_with, bind. intros Hx.
  set (requirement := default (default_exec_approval_requirement policy (file_system_sandbox_policy permissions)) (exec_approval_requirement tool req)) in *.
  destruct (first_approval _ _ _ _ _ _) as [st1 [b|e]] eqn:Ef; pose proof (first_approval_trace _ _ _ _ _ _ _ Ef) as Ht; simpl in Ht.
  2: { injection Hx as <- <-. rewrite Ht. constructor. }
  assert (opening tool req turn requirement b (run_trace st1)) as Ho.
  { destruct b; [destruct Ht as (ev & Hg & ->); by constructor | destruct Ht as (? & ? & ->); by constructor]. }
  destruct (run_attempt tool req (initial_attempt tool req turn permissions requirement) (managed_network turn) st1) as [st2 r2] eqn:Ea.
  assert (forall st', run_trace st' = run_trace st2 -> run_shape tool req turn policy permissions requirement (run_trace st')) as Hone.
  { intros st' ->. destruct (run_attempt_trace _ _ _ _ _ _ _ Ea) as [(-> & _)|[n ->]]; [by eapply shape_opened | by eapply shape_one]. }
  destruct r2 as [out|[m|[output decision|o|sig|m]]]; try (injection Hx as <- <-; by apply Hone).
  destruct (retry_allowed tool turn policy (file_system_sandbox_policy permissions) decision) as [network|] eqn:Er;
    [|injection Hx as <- <-; by apply Hone].
  apply retry_run_trace in Hx as [Ht2|(mid & Hm & Ht2)]; [by apply Hone|].
  destruct (run_attempt_trace _ _ _ _ _ _ _ Ea) as [(_ & _ & m & [=])|[n Ht1]].
  rewrite Ht1 in Ht2. assert (may_retry tool turn policy permissions) by (by exists decision, network).
  destruct Ht2 as [->|[n' ->]]; [by eapply shape_reopened | by eapply shape_two].
Qed.

Lemma materialized_profile (env : TurnEnvironment U) : exists permissions, permission_profile_with_workspace_roots env = Some permissions.
Proof.
  unfold permission_profile_with_workspace_roots, profile_materialize_project_roots.
  destruct (environment_profile env) as [[es depth|] n| |]; simpl; eauto.
Qed.

(** The requirement a run goes by. *)
Definition run_requirement tool req (policy : AskForApproval) (permissions : permission_profile) : ExecApprovalRequirement :=
  default (default_exec_approval_requirement policy (file_system_sandbox_policy permissions)) (exec_approval_requirement tool req).

Lemma run_shaped tool req turn policy s st r permissions :
  run try_parse_shell tool req turn policy s = Some (st, r) ->
  permission_profile_with_workspace_roots (turn_environment tool req) = Some permissions ->
  run_shape tool req turn policy permissions (run_requirement tool req policy permissions) (run_trace st).
Proof.
  unfold run. intros Hx Hp. rewrite Hp in Hx. injection Hx as Hx. by apply run_with_shape in Hx.
Qed.

(** What every runtime of the repository does with the policies: none overrides
    [should_bypass_approval], and with prompts turned off none offers a retry. *)
Class RuntimeLaws tool : Prop := {
  bypass_default policy b : should_bypass_approval tool policy b = default_should_bypass_approval policy b;
  never_wants_none : wants_no_sandbox_approval tool Never = false;
}.

Definition ran (ev : run_event U Proxy) : bool := match ev with ToolRan _ => true | ApprovalGranted _ _ _ => false end.

Lemma grant_not_ran tool req turn reason retry network ev : is_grant tool req turn reason retry network ev -> ran ev = false.
Proof. by intros (? & ? & _ & ->). Qed.

Lemma may_retry_not_never tool turn policy permissions : RuntimeLaws tool -> may_retry tool turn policy permissions -> policy <> Never.
Proof.
  intros Hl (decision & network & Hr) ->. unfold retry_allowed in Hr. rewrite (never_wants_none (tool := tool)) in Hr. simpl in Hr.
  repeat case_match; done.
Qed.

(** The retry goes unasked only after an approval. *)
Lemma reopening_unasked_approved tool req turn policy permissions requirement b mid :
  RuntimeLaws tool -> may_retry tool turn policy permissions -> reopening tool req turn policy requirement b mid ->
  (b = true /\ mid = [] /\ strict_auto_review_enabled_for_turn turn = false) \/
  exists retry network ev, mid = [ev] /\ is_grant tool req turn (requirement_reason requirement) (Some retry) network ev.
Proof.
  intros Hl Hm Hr. destruct Hr as [Hs Hb|retry network ev Hg]; [left | right; eauto].
  rewrite bypass_default in Hb. apply (may_retry_not_never _ _ _ _ Hl) in Hm. destruct b; [done|]. by destruct policy.
Qed.

(** Why an attempt with these events before it was allowed to run. *)
Inductive authorized tool req turn (requirement : ExecApprovalRequirement) : list (run_event U Proxy) -> Prop :=
| authorized_unasked : is_skip requirement -> strict_auto_review_enabled_for_turn turn = false ->
    authorized tool req turn requirement []
| authorized_granted pre retry network ev : is_grant tool req turn (requirement_reason requirement) retry network ev ->
    authorized tool req turn requirement (pre ++ [ev])
| authorized_again ev att : is_grant tool req turn (requirement_reason requirement) None None ev ->
    strict_auto_review_enabled_for_turn turn = false -> authorized tool req turn requirement [ev; ToolRan att].

Lemma opening_authorized tool req turn requirement b pre :
  opening tool req turn requirement b pre -> authorized tool req turn requirement pre /\ List.filter ran pre = [].
Proof.
  intros [Hs Hst|ev Hg]; [split; [by constructor | done]|].
  split; [by apply (authorized_granted _ _ _ _ [] None None)|]. simpl. by rewrite (grant_not_ran _ _ _ _ _ _ _ Hg).
Qed.

(** Where an attempt can be in a trace that ends in one, or in events that are none. *)
Lemma ran_snoc (l : list (run_event U Proxy)) x pre att post :
  l ++ [x] = pre ++ ToolRan att :: post -> (pre = l /\ x = ToolRan att) \/ exists post', l = pre ++ ToolRan att :: post'.
Proof.
  intros Hx. destruct post as [|e post _] using rev_ind.
  { apply app_inj_tail in Hx as [-> ->]. by left. }
  rewrite app_comm_cons, app_assoc in Hx. apply app_inj_tail in Hx as [-> _]. eauto.
Qed.

Lemma ran_before (l mid : list (run_event U Proxy)) pre att post :
  List.filter ran mid = [] -> l ++ mid = pre ++ ToolRan att :: post -> exists post', l = pre ++ ToolRan att :: post'.
Proof.
  revert post. induction mid as [|x mid IH] using rev_ind; intros post Hf Hx; [rewrite app_nil_r in Hx; eauto|].
  rewrite List.filter_app in Hf. apply app_eq_nil in Hf as [Hf Hr]. rewrite app_assoc in Hx.
  apply ran_snoc in Hx as [[_ ->]|[post' Hx]]; [done | by eapply IH].
Qed.

Lemma reopening_filter tool req turn policy requirement b mid :
  reopening tool req turn policy requirement b mid -> List.filter ran mid = [].
Proof. intros [|? ? ev Hg]; [done|]. simpl. by rewrite (grant_not_ran _ _ _ _ _ _ _ Hg). Qed.

(** The attempts of a run: the first after an opening, the second after the first and
    whatever the retry needs. *)
Lemma shape_attempts tool req turn policy permissions requirement trace pre att post :
  run_shape tool req turn policy permissions requirement trace -> trace = pre ++ ToolRan att :: post ->
  (exists b n, opening tool req turn requirement b pre /\ att = with_network (initial_attempt tool req turn permissions requirement) n) \/
  (exists b pre0 att0 mid n, opening tool req turn requirement b pre0 /\ may_retry tool turn policy permissions /\
     reopening tool req turn policy requirement b mid /\ pre = (pre0 ++ [ToolRan att0]) ++ mid /\
     att = with_network (retry_attempt tool req turn permissions) n).
Proof.
  assert (forall b pre0 n post, opening tool req turn requirement b pre0 ->
    pre0 ++ [ToolRan (with_network (initial_attempt tool req turn permissions requirement) n)] = pre ++ ToolRan att :: post ->
    exists b n, opening tool req turn requirement b pre /\ att = with_network (initial_attempt tool req turn permissions requirement) n) as Hone.
  { intros b pre0 n post' Ho Hx. apply ran_snoc in Hx as [[-> [= <-]]|[post'' Hx]]; [eauto|].
    destruct (opening_authorized _ _ _ _ _ _ Ho) as [_ Hf]. destruct (ran_before [] pre0 pre att post'' Hf Hx) as [? Hn].
    by destruct pre. }
  intros Hs Hx. destruct Hs as [|b pre0 Ho|b pre0 n Ho|b pre0 n mid Ho Hm Hr|b pre0 n mid n' Ho Hm Hr].
  - by destruct pre.
  - destruct (opening_authorized _ _ _ _ _ _ Ho) as [_ Hf]. destruct (ran_before [] pre0 pre att post Hf Hx) as [? Hn]. by destruct pre.
  - left. by eapply Hone.
  - apply ran_before in Hx as [post' Hx]; [left; by eapply Hone | by eapply reopening_filter].
  - apply ran_snoc in Hx as [[-> [= <-]]|[post' Hx]]; [right; by exists b, pre0, (with_network (initial_attempt tool req turn permissions requirement) n), mid, n'|].
    apply ran_before in Hx as [post'' Hx]; [left; by eapply Hone | by eapply reopening_filter].
Qed.

Lemma shape_count tool req turn policy permissions requirement trace :
  run_shape tool req turn policy permissions requirement trace -> length (List.filter ran trace) <= 2.
Proof.
  intros Hs. destruct Hs as [|b pre Ho|b pre n Ho|b pre n mid Ho Hm Hr|b pre n mid n' Ho Hm Hr]; [simpl; lia|..];
    destruct (opening_authorized _ _ _ _ _ _ Ho) as [_ Hf];
    rewrite ?List.filter_app, ?Hf, ?(reopening_filter _ _ _ _ _ _ _ Hr); simpl; lia.
Qed.

Lemma run_authorized tool req turn policy s st r permissions pre att post :
  RuntimeLaws tool ->
  run try_parse_shell tool req turn policy s = Some (st, r) ->
  permission_profile_with_workspace_roots (turn_environment tool req) = Some permissions ->
  run_trace st = pre ++ ToolRan att :: post -> authorized tool req turn (run_requirement tool req policy permissions) pre.
Proof.
  intros Hl Hx Hp Ht. pose proof (run_shaped _ _ _ _ _ _ _ _ Hx Hp) as Hs.
  destruct (shape_attempts _ _ _ _ _ _ _ _ _ _ Hs Ht) as [(b & n & Ho & _)|(b & pre0 & att0 & mid & n & Ho & Hm & Hr & -> & _)].
  - by eapply opening_authorized.
  - destruct (reopening_unasked_approved _ _ _ _ _ _ _ _ Hl Hm Hr) as [(-> & -> & Hst)|(retry & network & ev & -> & Hg)].
    + inversion Ho; subst. simpl. by apply authorized_again.
    + by eapply authorized_granted.
Qed.

Lemma run_forbidden tool req turn policy s st r permissions reason :
  run try_parse_shell tool req turn policy s = Some (st, r) ->
  permission_profile_with_workspace_roots (turn_environment tool req) = Some permissions ->
  run_requirement tool req policy permissions = ForbiddenReq reason -> run_trace st = [] /\ r = Err (Rejected reason).
Proof.
  intros Hx Hp Hf. unfold run in Hx. rewrite Hp in Hx. injection Hx as Hx. unfold run_with in Hx.
  fold (run_requirement tool req policy permissions) in Hx. rewrite Hf in Hx. by injection Hx as <- <-.
Qed.

(** C3.  Every attempt of a tool is authorized: a run makes at most two; the first comes
    after an approval that was granted for the tool's action, unless the requirement
    asks for none and the turn is not under strict review; the second after another
    approval, or, outside strict review, because the first attempt was approved.  What is
    forbidden never runs. *)
Theorem tool_runs_authorized tool req turn policy s st r permissions :
  RuntimeLaws tool ->
  run try_parse_shell tool req turn policy s = Some (st, r) ->
  permission_profile_with_workspace_roots (turn_environment tool req) = Some permissions ->
  let requirement := run_requirement tool req policy permissions in
  length (List.filter ran (run_trace st)) <= 2 /\
  (forall pre att post, run_trace st = pre ++ ToolRan att :: post -> authorized tool req turn requirement pre) /\
  (forall reason, requirement = ForbiddenReq reason -> run_trace st = [] /\ r = Err (Rejected reason)).
Proof.
  intros Hl Hx Hp requirement. split_and!; [by eapply shape_count, run_shaped | by eauto using run_authorized | by eauto using run_forbidden].
Qed.

(** *** Errors of a tool without network approvals *)

Lemma run_attempt_errors tool req attempt active st st' e :
  network_approval_spec tool req = None -> run_attempt tool req attempt active st = (st', Err e) ->
  exists w att, (tool_run tool w req att).2 = Err e.
Proof.
  unfold run_attempt, bind, run_tool. intros -> Hx. simpl in Hx.
  destruct (tool_run tool (world (run_session st)) req (with_network attempt None)) as [w r] eqn:Er.
  exists (world (run_session st)), (with_network attempt None). rewrite Er. simpl. destruct r; [done|]. by injection Hx as _ <-.
Qed.

Lemma run_errors tool req turn policy s st e :
  network_approval_spec tool req = None -> run try_parse_shell tool req turn policy s = Some (st, Err e) ->
  (exists m, e = Rejected m) \/ exists w att, (tool_run tool w req att).2 = Err e.
Proof.
  unfold run. intros Hn Hx. destruct (permission_profile_with_workspace_roots _) as [permissions|]; [|done]. injection Hx as Hx.
  unfold run_with, bind in Hx. set (requirement := default _ _) in Hx.
  destruct (first_approval _ _ _ _ _ _) as [st1 [b|e1]] eqn:Ef.
  2: { injection Hx as _ <-. left. unfold first_approval, bind in Ef.
       destruct requirement; [destruct (strict_auto_review_enabled_for_turn turn)| |]; try (injection Ef; intros; simplify_eq; eauto).
       all: destruct (ask_approval _ _ _ _ _ _ _ _) as [st2 [[]|]] eqn:Ea; simplify_eq; by eapply ask_refused. }
  destruct (run_attempt tool req _ _ st1) as [st2 [out|e2]] eqn:Ea; [done|].
  destruct (run_attempt_errors _ _ _ _ _ _ _ Hn Ea) as (w & att & He).
  destruct e2 as [m|[output decision|o|sig|m]]; try (injection Hx as _ <-; right; eauto).
  destruct (retry_allowed _ _ _ _ _) as [network|]; [|injection Hx as _ <-; right; eauto]. unfold retry_run, bind in Hx.
  destruct (negb _ && _ && _); [right; eapply run_attempt_errors; [exact Hn | exact Hx]|].
  destruct (ask_approval _ _ _ _ _ _ _ _) as [st3 [[]|e3]] eqn:Eb; [right; eapply run_attempt_errors; [exact Hn | exact Hx]|].
  injection Hx as _ <-. left. by eapply ask_refused.
Qed.

(** *** Sandboxes of the attempts *)

Lemma denied_reads_kept (pol : policy) x :
  sandbox_kind pol = Restricted -> x ∈ entries pol -> access x = Deny -> unsandboxed_execution_allowed pol = false.
Proof.
  intros Hk Hx Ha. unfold unsandboxed_execution_allowed, has_denied_read_restrictions, is_restricted.
  rewrite bool_decide_true by done. apply negb_false_iff. simpl. apply existsb_elem. exists x. by rewrite Ha.
Qed.

(** An attempt of a run, with the events before it, is the first or the retry. *)
Lemma attempt_cases tool req turn policy s st r permissions att :
  run try_parse_shell tool req turn policy s = Some (st, r) ->
  permission_profile_with_workspace_roots (turn_environment tool req) = Some permissions ->
  ToolRan att ∈ run_trace st ->
  exists n, att = with_network (initial_attempt tool req turn permissions (run_requirement tool req policy permissions)) n \/
            att = with_network (retry_attempt tool req turn permissions) n /\ may_retry tool turn policy permissions.
Proof.
  intros Hx Hp (pre & post & Ht)%list_elem_of_split. pose proof (run_shaped _ _ _ _ _ _ _ _ Hx Hp) as Hs.
  destruct (shape_attempts _ _ _ _ _ _ _ _ _ _ Hs Ht) as [(b & n & _ & ->)|(b & pre0 & att0 & mid & n & _ & Hm & _ & _ & ->)]; eauto.
Qed.

(** C10.  The sandbox is never dropped by accident: on a platform with a sandbox and for a
    tool that accepts one, every attempt under a policy that denies something runs in the
    sandbox; and an attempt leaves out a sandbox that the permissions call for only under
    a policy without denied reads and because rules allow the command outside it, the
    call asks for escalated permissions, or it is the retry after a denial. *)
Theorem sandbox_kept tool req turn policy s st r permissions att :
  run try_parse_shell tool req turn policy s = Some (st, r) ->
  permission_profile_with_workspace_roots (turn_environment tool req) = Some permissions ->
  ToolRan att ∈ run_trace st ->
  attempt_permissions att = permissions /\
  (forall x, (target_os = LinuxOs \/ target_os = Macos) -> sandbox_preference tool <> PreferForbid ->
     sandbox_kind (file_system_sandbox_policy permissions) = Restricted -> x ∈ entries (file_system_sandbox_policy permissions) ->
     denies_something x -> sandbox_requested att = true /\ attempt_sandbox att <> SandboxNone) /\
  (sandbox_requested att = false -> should_sandbox permissions (sandbox_preference tool) (managed_network turn) = true ->
     has_denied_read_restrictions (file_system_sandbox_policy permissions) = false /\
     ((exists a, run_requirement tool req policy permissions = Skip true a) \/ tool_sandbox_permissions tool req = RequireEscalated \/
      may_retry tool turn policy permissions)).
Proof.
  intros Hx Hp Hin. destruct (attempt_cases _ _ _ _ _ _ _ _ _ Hx Hp Hin) as [n Hc]. split; [by destruct Hc as [->|[-> _]]|]. split.
  - intros x Hos Hpref Hk He Hd. pose proof (denied_reads_kept _ x Hk He (proj1 Hd)) as Hu.
    assert (should_sandbox permissions (sandbox_preference tool) (managed_network turn) = true) as Hsh.
    { unfold should_sandbox. destruct (sandbox_preference tool); [|done..]. simpl. by apply (denial_requires_sandbox _ _ _ x). }
    assert (sandbox_for true permissions (sandbox_preference tool) turn <> SandboxNone) as Hsel.
    { unfold sandbox_for, select_initial, get_platform_sandbox. rewrite Hsh. by destruct Hos as [-> | ->]. }
    destruct Hc as [->|[-> _]]; simpl; unfold first_sandbox_requested, sandbox_override_for_first_attempt; by rewrite Hu, Hsh.
  - intros Hr Hsh. destruct Hc as [->|[-> Hm]]; simpl in Hr; rewrite ?Hsh in Hr.
    + unfold first_sandbox_requested, sandbox_override_for_first_attempt, unsandboxed_execution_allowed in Hr.
      rewrite Hsh in Hr. destruct (has_denied_read_restrictions _); [done|]. split; [done|]. simpl in Hr.
      destruct (run_requirement tool req policy permissions) as [[] a|a b|a]; [by eauto|..];
        destruct (tool_sandbox_permissions tool req); simpl in Hr; try done; auto.
    + unfold unsandboxed_execution_allowed in Hr. destruct (has_denied_read_restrictions _); [done|]. auto.
Qed.

(** When an approval is required, each attempt comes after one for the tool's action. *)
Lemma required_granted tool req turn requirement pre :
  authorized tool req turn requirement pre -> ~ is_skip requirement ->
  exists action ctx d, ApprovalGranted action ctx d ∈ pre /\ approval_action tool req (turn_call_id turn) = Ok action.
Proof.
  intros [|pre' retry network ev (action & d & Ha & ->)|ev att (action & d & Ha & ->) _] Hs; [done|..];
    exists action; do 2 eexists; (split; [|exact Ha]).
  - apply elem_of_app. right. apply list_elem_of_here.
  - apply list_elem_of_here.
Qed.

(** From the command line to the process: when the requirement of a run is the one
    computed for its command, a forced removal reached from a part of it through up to
    eight wrappers, which no rule matches, is never attempted before an approval of the
    tool's action was granted, and with prompts turned off it is not attempted at all. *)
Theorem removal_runs_only_approved {P E Net : Type} `{EqDecision P} {Abs : AbsPathOps P} {G : BashGrammar try_parse_shell}
    shlex linux (p : ExecPolicy.Policy P) (areq : ExecApprovalRequest E Net) cmd c tool req turn s st r :
  cmd ∈ commands (request_commands try_parse_shell areq) -> rule_hits p cmd = [] -> lit "zsh" ∉ tail cmd ->
  bsteps (wraps try_parse_shell) MAX_DANGEROUS_COMMAND_WRAPPER_DEPTH cmd c -> forced_rm c ->
  create_exec_approval_requirement_for_command try_parse_shell shlex linux p areq = exec_approval_requirement tool req ->
  RuntimeLaws tool -> run try_parse_shell tool req turn (approval_policy areq) s = Some (st, r) ->
  (forall pre att post, run_trace st = pre ++ ToolRan att :: post ->
     exists action ctx d, ApprovalGranted action ctx d ∈ pre /\ approval_action tool req (turn_call_id turn) = Ok action) /\
  (approval_policy areq = Never -> run_trace st = []).
Proof.
  intros Hin Hhits Hz Hb Hf Hreq Hl Hx. destruct (materialized_profile (turn_environment tool req)) as [permissions Hp].
  destruct (removal_needs_consent try_parse_shell shlex linux p areq cmd c Hin Hhits Hz Hb Hf) as (q & Hq & Hcases).
  rewrite Hq in Hreq.
  assert (run_requirement tool req (approval_policy areq) permissions = q) as Hrq by (unfold run_requirement; by rewrite <-Hreq).
  destruct Hcases as [[reason ->]|(Hnever & reason & a & is_rule & -> & _)].
  - destruct (run_forbidden _ _ _ _ _ _ _ _ _ Hx Hp Hrq) as [Ht _]. rewrite Ht. split; [|done]. intros [|??] ??; done.
  - split; [|done]. intros pre att post Ht. pose proof (run_authorized _ _ _ _ _ _ _ _ _ _ _ Hl Hx Hp Ht) as Ha.
    rewrite Hrq in Ha. apply (required_granted _ _ _ _ _ Ha); simpl; tauto.
Qed.
End Traces.

(** ** What a run keeps *)

Section Keeps.
Context {U World Proxy Req Out : Type}.
Context `{!NativePaths U, !KeyJson U, !ApprovalHost U World, !NetworkHost Proxy World} `{Platform} {PH : PathHost} {FH : FsHost}.
Context (try_parse_shell : str -> option Tree).
Abbreviation state := (RunState U World Proxy).
Implicit Types (tool : ToolRuntime U World Proxy Req Out) (req : Req) (turn : TurnContext) (st : state) (s : Session U World).

(** A property of the world that only the tool can break. *)
Class HostsKeep (Inv : World -> Prop) : Prop := {
  hooks_keep w id payload : Inv w -> Inv (run_permission_request_hooks w id payload).1;
  review_keeps w request reasons : Inv w -> Inv (review_approval_request w request reasons).1;
  command_prompt_keeps w a b c d e f g h : Inv w -> Inv (request_command_approval w a b c d e f g h).1;
  patch_prompt_keeps w a b c : Inv w -> Inv (request_patch_approval w a b c).1;
  open_keeps w spec (proxy : Proxy) : Inv w -> Inv (open_execution w spec proxy).1;
  finish_keeps w id : Inv w -> Inv (finish_call w id).1;
}.

Section One.
Context (Inv : World -> Prop) `{!HostsKeep Inv}.

Lemma cached_keeps keys (fetch : Session U World -> Session U World * ReviewDecision) s :
  (forall s, Inv (world s) -> Inv (world (fetch s).1)) -> Inv (world s) -> Inv (world (with_cached_approval keys fetch s).1).
Proof.
  intros Hf Hs. unfold with_cached_approval. destruct keys as [|k keys]; [auto|]. destruct (forallb _ (k :: keys)); [done|].
  specialize (Hf s Hs). destruct (fetch s) as [s1 []]; done.
Qed.

Lemma user_approval_keeps a ctx s : Inv (world s) -> Inv (world (request_user_approval try_parse_shell a ctx s).1).
Proof.
  intros Hs.
  assert (forall a changes reason s, Inv (world s) -> Inv (world (prompt_patch a changes reason ctx s).1)) as Hp.
  { intros a' changes reason s' Hs'. unfold prompt_patch.
    pose proof (patch_prompt_keeps (world s') (context_call_id ctx) changes reason Hs') as Hw.
    by destruct (request_patch_approval _ _ _ _). }
  assert (forall a c cwd s, Inv (world s) -> Inv (world (prompt_command a c cwd ctx s).1)) as Hc.
  { intros a' c cwd s' Hs'. unfold prompt_command. set (reason := or_reason _ _).
    pose proof (command_prompt_keeps (world s') (context_call_id ctx) (action_environment c) (action_command c) cwd reason
                  (network_approval_context ctx) (action_amendment c) (action_additional_permissions c) Hs') as Hw.
    by destruct (request_command_approval _ _ _ _ _ _ _ _ _). }
  destruct a as [c|c tty|id env cwd files patch changes pre]; unfold request_user_approval.
  1-2: destruct (guardian_cwd _ _); [|done]; by apply cached_keeps; auto.
  destruct (or_reason _ _); [by auto|]. destruct pre; [done|]. by apply cached_keeps; auto.
Qed.

Lemma request_approval_keeps a ctx s : Inv (world s) -> Inv (world (request_approval try_parse_shell a ctx s).1).
Proof.
  intros Hs. unfold request_approval, request_reviewer_approval, request_guardian_approval.
  set (id := match retry_reason ctx with Some _ => _ | None => _ end).
  pose proof (hooks_keep (world s) id (permission_request_payload a) Hs) as Hw.
  destruct (run_permission_request_hooks _ _ _) as [w [[|m]|]]; [done..|]. simpl in Hw.
  destruct (if strict_auto_review ctx then Guardian else reviewer_for_turn ctx).
  - destruct (into_guardian_request a) as [request|]; [|done].
    pose proof (review_keeps w request (mkReasons (approval_reason ctx) (retry_reason ctx)) Hw) as Hw2. simpl.
    by destruct (review_approval_request w _ _).
  - set (s1 := mkSession w (tool_approvals s) (answers s ++ [HookAnswered a None])).
    pose proof (user_approval_keeps a ctx s1 Hw) as Hu. by destruct (request_user_approval _ _ _ s1).
Qed.

Lemma ask_keeps tool req turn reason retry network st :
  Inv (world (run_session st)) -> Inv (world (run_session (ask_approval try_parse_shell tool req turn reason retry network st).1)).
Proof.
  intros Hs. unfold ask_approval. destruct (approval_action tool req (turn_call_id turn)) as [a|e]; [|done].
  set (ctx := mkContext _ _ _ _ _ _ _). pose proof (request_approval_keeps a ctx _ Hs) as Hr.
  by destruct (request_approval _ _ _ _) as [s []].
Qed.

Lemma on_world_keeps {A} error (f : World -> World * result A str) st :
  (forall w, Inv w -> Inv (f w).1) -> Inv (world (run_session st)) -> Inv (world (run_session (on_world error f st).1)).
Proof. intros Hf Hs. unfold on_world. specialize (Hf _ Hs). by destruct (f _). Qed.

Lemma begin_keeps active spec st :
  Inv (world (run_session st)) -> Inv (world (run_session (begin_network_approval active spec st).1)).
Proof.
  intros Hs. unfold begin_network_approval. destruct spec as [spec|]; [|done]. destruct (spec_network spec) as [network|]; [|done].
  destruct active; [|done]. simpl. unfold bind.
  pose proof (on_world_keeps (fun m => Codex (OtherCodexErr (lit "failed to create execution-scoped network proxy: " ++ m)))
    (fun w => open_execution w spec network) st (fun w => open_keeps w spec network) Hs) as Hw.
  by destruct (on_world _ _ _) as [st1 [[]|]].
Qed.
End One.

Lemma first_approval_keeps (Inv : World -> Prop) `{!HostsKeep Inv} tool req turn requirement s :
  Inv (world s) -> Inv (world (run_session (first_approval try_parse_shell tool req turn requirement (mkRunState s [])).1)).
Proof.
  intros Hs. unfold first_approval, bind.
  destruct requirement as [b a|reason a|reason]; [destruct (strict_auto_review_enabled_for_turn turn)| |]; [|done| |done].
  all: pose proof (fun reason => ask_keeps Inv tool req turn reason None None (mkRunState s []) Hs) as Ha.
  1: specialize (Ha None). 2: specialize (Ha reason). all: by destruct (ask_approval _ _ _ _ _ _ _ _) as [st1 [[]|]].
Qed.

(** A run that makes no attempt keeps what the hosts keep. *)
Lemma run_untouched (Inv : World -> Prop) `{!HostsKeep Inv} tool req turn policy s st r :
  Inv (world s) -> run try_parse_shell tool req turn policy s = Some (st, r) -> (forall att, ToolRan att ∉ run_trace st) ->
  Inv (world (run_session st)).
Proof.
  unfold run. intros Hs Hx Hno. destruct (permission_profile_with_workspace_roots _) as [permissions|]; [|done]. injection Hx as Hx.
  unfold run_with, bind in Hx. set (requirement := default _ _) in Hx.
  pose proof (first_approval_keeps Inv tool req turn requirement s Hs) as H1.
  destruct (first_approval _ _ _ _ _ _) as [st1 [b|e]]; [|by injection Hx as <- <-]. simpl in H1.
  destruct (run_attempt tool req _ _ st1) as [st2 r2] eqn:Ea.
  destruct (run_attempt_trace _ _ _ _ _ _ _ Ea) as [(_ & -> & m & ->)|[n Ht]].
  { injection Hx as <- <-. by apply begin_keeps. }
  assert (exists more, run_trace st = run_trace st2 ++ more) as [more Hmore].
  2: { exfalso. apply (Hno (with_network (initial_attempt tool req turn permissions requirement) n)). rewrite Hmore, Ht. set_solver. }
  destruct r2 as [out|[m|[output decision|o|sig|m]]]; try (injection Hx as <- <-; exists []; by rewrite app_nil_r).
  destruct (retry_allowed _ _ _ _ _) as [network|]; [|injection Hx as <- <-; exists []; by rewrite app_nil_r].
  apply retry_run_trace in Hx as [->|(mid & _ & [->|[n' ->]])]; [exists []; by rewrite app_nil_r | eauto | rewrite <-app_assoc; eauto].
Qed.

(** The world after a run, and the output it returns, when the tool keeps [Inv] and
    relates what it returns to the world by [Post]. *)
Context (Inv : World -> Prop) (Post : World -> Out -> Prop).
Context `{!HostsKeep Inv} `{!forall out, HostsKeep (fun w => Post w out)}.

Definition tool_keeps tool req : Prop :=
  forall w att, Inv w ->
    Inv (tool_run tool w req att).1 /\ (forall out, (tool_run tool w req att).2 = Ok out -> Post (tool_run tool w req att).1 out).

Definition good (x : state * result (OrchestratorRunResult Proxy Out) ToolError) : Prop :=
  Inv (world (run_session x.1)) /\ (forall out d, x.2 = Ok (out, d) -> Post (world (run_session x.1)) out).

Lemma run_attempt_good tool req attempt active st :
  tool_keeps tool req -> Inv (world (run_session st)) -> good (run_attempt tool req attempt active st).
Proof.
  intros Ht Hs. unfold run_attempt, bind, run_tool.
  pose proof (begin_keeps Inv active (network_approval_spec tool req) st Hs) as Hb.
  destruct (begin_network_approval _ _ _) as [st1 [network|e]]; [|by split]. simpl in Hb.
  destruct (Ht (world (run_session st1)) (with_network attempt network) Hb) as [Hw Hp].
  destruct (tool_run _ _ _ _) as [w r]. simpl in Hw, Hp. set (st2 := mkRunState _ _).
  assert (forall st', world (run_session st') = w ->
            good (st', map_ok (fun out => (out, None)) r)) as Hplain.
  { intros st' E. split; simpl; rewrite E; [done|]. intros out d Hr. apply Hp. by destruct r; simpl in Hr; simplify_eq. }
  destruct network as [a|]; [|by apply Hplain].
  destruct (active_mode a); [|destruct r as [out|err]].
  - unfold finish_immediate_network_approval. destruct (registration_id a) as [id|]; [|by apply Hplain].
    unfold on_world. pose proof (finish_keeps (Inv := Inv) w id Hw) as Hf.
    assert (forall out, r = Ok out -> Post (finish_call w id).1 out) as Hfp.
    { intros out Hr. apply (finish_keeps (Inv := fun w => Post w out)). auto. }
    change (world (run_session st2)) with w. destruct (finish_call w id) as [w' [[]|m]]; simpl; [|by split].
    split; [done|]. simpl. intros out d Hr. apply Hfp. by destruct r; simpl in Hr; simplify_eq.
  - split; [done|]. intros out' d [= <- _]. by apply Hp.
  - unfold finish_deferred_network_approval. destruct (into_deferred a) as [d|]; [|by split].
    unfold on_world. pose proof (finish_keeps (Inv := Inv) w (deferred_registration d) Hw) as Hf.
    change (world (run_session st2)) with w. destruct (finish_call w _) as [w' [[]|m]]; simpl; by split.
Qed.

Lemma run_good tool req turn policy s st r :
  tool_keeps tool req -> Inv (world s) -> run try_parse_shell tool req turn policy s = Some (st, r) -> good (st, r).
Proof.
  unfold run. intros Ht Hs Hx. destruct (permission_profile_with_workspace_roots _) as [permissions|]; [|done]. injection Hx as Hx.
  rewrite <-Hx. clear Hx. unfold run_with, bind. set (requirement := default _ _).
  pose proof (first_approval_keeps Inv tool req turn requirement s Hs) as H1.
  destruct (first_approval _ _ _ _ _ _) as [st1 [b|e]]; [|by split]. simpl in H1.
  pose proof (run_attempt_good tool req (initial_attempt tool req turn permissions requirement) (managed_network turn) st1 Ht H1) as H2.
  destruct (run_attempt _ _ _ _ _) as [st2 [out|[m|[output decision|o|sig|m]]]]; try done.
  destruct (retry_allowed _ _ _ _ _) as [network|]; [|done]. destruct H2 as [H2 _]. simpl in H2. unfold retry_run, bind.
  destruct (negb _ && _ && _); [by apply run_attempt_good|]. set (reason := match requirement with NeedsApproval r _ => r | _ => None end).
  set (retry := match network with Some n => _ | None => _ end).
  pose proof (ask_keeps Inv tool req turn reason (Some retry) network st2 H2) as H3.
  destruct (ask_approval _ _ _ _ _ _ _ _) as [st3 [[]|]]; [by apply run_attempt_good | by split].
Qed.
End Keeps.

Module RunDemo.
Import AbsPathDemo PermissionsDemo SafetyDemo ReviewDemo.

#[export] Instance no_network : NetworkHost unit nat := {|
  open_execution w _ proxy := (w, Ok (lit "id", proxy));
  finish_call w _ := (w, Ok tt);
|}.

Definition open_profile : permission_profile := Managed (ManagedRestricted [new_entry (Special Root) Read] None) NetRestricted.
Definition env_of (roots : list str) (profile : permission_profile) : TurnEnvironment str :=
  mkEnvironment LOCAL_ENVIRONMENT_ID demo_cwd roots profile.
Definition some_output : ExecToolCallOutput := mkExecOutput 1 [] [] [] false.

(** A command that only works outside the sandbox. *)
Definition demo_tool (command : list str) (requirement : option ExecApprovalRequirement) (roots : list str) (profile : permission_profile)
  : ToolRuntime str nat unit unit unit := {|
  tool_sandbox_permissions _ := UseDefault;
  should_bypass_approval := default_should_bypass_approval;
  exec_approval_requirement _ := requirement;
  wants_no_sandbox_approval := default_wants_no_sandbox_approval;
  approval_action _ id :=
    Ok (ShellAction (mkCommandAction id LOCAL_ENVIRONMENT_ID command [] demo_cwd UseDefault None None None));
  sandbox_preference := PreferAuto;
  escalate_on_failure := true;
  turn_environment _ := env_of roots profile;
  network_approval_spec _ := None;
  tool_sandbox_cwd _ := None;
  tool_run w _ att := (w, if sandbox_requested att then Err (Codex (SandboxDenied some_output None)) else Ok tt);
|}.

#[export] Instance demo_tool_laws command requirement roots profile : RuntimeLaws (demo_tool command requirement roots profile).
Proof. by split. Qed.

Definition demo_turn (policy : AskForApproval) : TurnContext :=
  mkTurn policy ReviewerUser (lit "call") false false LevelDisabled false None false.
Definition fresh : Session str nat := mkSession 0 ∅ [].
Definition demo_run (policy : AskForApproval) (tool : ToolRuntime str nat unit unit unit) :=
  run no_scripts tool tt (demo_turn policy) policy fresh.
Definition trace_of (x : option (RunState str nat unit * result (unit * option (DeferredNetworkApproval unit)) ToolError)) : list (run_event str unit) :=
  match x with Some (st, _) => run_trace st | None => [] end.
End RunDemo.
Import AbsPathDemo PermissionsDemo SafetyDemo ReviewDemo RunDemo.

(** Approved once, denied by the sandbox, and run again outside it. *)
Definition approved_tool : ToolRuntime str nat unit unit unit :=
  demo_tool [lit "make"] (Some (NeedsApproval None None)) [demo_cwd] open_profile.

Lemma tool_runs_authorized_witness :
  length (List.filter ran (trace_of (demo_run UnlessTrusted approved_tool))) = 2 /\
  forall pre att post, trace_of (demo_run UnlessTrusted approved_tool) = pre ++ ToolRan att :: post ->
    authorized approved_tool tt (demo_turn UnlessTrusted) (NeedsApproval None None) pre.
Proof.
  split; [vm_compute; reflexivity|].
  destruct (demo_run UnlessTrusted approved_tool) as [[st r]|] eqn:E; [|vm_compute in E; discriminate E].
  destruct (tool_runs_authorized no_scripts approved_tool tt (demo_turn UnlessTrusted) UnlessTrusted fresh st r open_profile)
    as (_ & Ha & _).
  - exact (demo_tool_laws _ _ _ _).
  - exact E.
  - vm_compute. reflexivity.
  - exact Ha.
Defined.

(** Rules allow the command outside the sandbox, but the policy denies reads. *)
Definition confined_tool : ToolRuntime str nat unit unit unit :=
  demo_tool [lit "make"] (Some (Skip true None)) [demo_cwd] demo_profile.

Lemma sandbox_kept_witness :
  exists att, ToolRan att ∈ trace_of (demo_run OnRequest confined_tool) /\ sandbox_requested att = true /\ attempt_sandbox att <> SandboxNone.
Proof.
  destruct (demo_run OnRequest confined_tool) as [[st r]|] eqn:E; [|vm_compute in E; discriminate E].
  destruct (permission_profile_with_workspace_roots (env_of [demo_cwd] demo_profile)) as [permissions|] eqn:Ep;
    [|vm_compute in Ep; discriminate Ep].
  destruct (run_trace st) as [|[?|att] rest] eqn:Et.
  - exfalso. change st with (default (st, r) (Some (st, r))).1 in Et. rewrite <-E in Et. vm_compute in Et. discriminate Et.
  - exfalso. change st with (default (st, r) (Some (st, r))).1 in Et. rewrite <-E in Et. vm_compute in Et. discriminate Et.
  - exists att. simpl. rewrite Et. split; [apply list_elem_of_here|].
    destruct (sandbox_kept no_scripts confined_tool tt (demo_turn OnRequest) OnRequest fresh st r permissions att)
      as (_ & Hk & _).
    + exact E.
    + exact Ep.
    + rewrite Et. apply list_elem_of_here.
    + vm_compute in Ep. injection Ep as <-.
      apply (Hk (new_entry (PathEntry (abs (lit "/work/repo/secrets"))) Deny)); [left; reflexivity | discriminate | reflexivity | |].
      * apply list_elem_of_In. vm_compute. tauto.
      * split; [reflexivity | exact I].
Defined.

(** The decision is made on the permissions with the workspace roots filled in: roots that
    are no paths of this host take the denials below them along, and the command runs
    outside the sandbox although its permissions deny reads. *)
Example foreign_roots_drop_denials :
  let profile := Managed (ManagedRestricted [new_entry (Special Root) Read; new_entry (Special (ProjectRoots (Some (lit "secrets")))) Deny] None) NetRestricted in
  let trace roots := trace_of (demo_run OnRequest (demo_tool [lit "make"] (Some (Skip true None)) roots profile)) in
  has_denied_read_restrictions (file_system_sandbox_policy profile) = true
  /\ map (fun ev => match ev with ToolRan att => Some (sandbox_requested att) | _ => None end) (trace [demo_cwd]) = [Some true]
  /\ map (fun ev => match ev with ToolRan att => Some (sandbox_requested att) | _ => None end) (trace [lit "C:\work"]) = [Some false].
Proof. split_and!; vm_compute; reflexivity. Qed.

Import Approval.ApprovalDemo ExecPolicy.PolicyDemo.

(** [sudo rm -rf x], as the rules require it to be handled. *)
Definition removal_tool : ToolRuntime str nat unit unit unit :=
  demo_tool removal
    (create_exec_approval_requirement_for_command no_parse (fun _ => None) true ExecPolicy.PolicyDemo.base (ask_for OnRequest removal None))
    [demo_cwd] open_profile.

Lemma removal_runs_only_approved_witness :
  length (List.filter ran (trace_of (demo_run OnRequest removal_tool))) = 1 /\
  forall pre att post, trace_of (demo_run OnRequest removal_tool) = pre ++ ToolRan att :: post ->
    exists action ctx d, ApprovalGranted action ctx d ∈ pre
      /\ action = ShellAction (mkCommandAction (lit "call") LOCAL_ENVIRONMENT_ID removal [] demo_cwd UseDefault None None None).
Proof.
  split; [vm_compute; reflexivity|].
  destruct (demo_run OnRequest removal_tool) as [[st r]|] eqn:E; [|vm_compute in E; discriminate E].
  destruct (removal_runs_only_approved no_parse (fun _ => None) true ExecPolicy.PolicyDemo.base (ask_for OnRequest removal None)
              removal (tail removal) removal_tool tt (demo_turn OnRequest) fresh st r) as [Ha _].
  - apply list_elem_of_singleton. reflexivity.
  - vm_compute. reflexivity.
  - rewrite <- (bool_decide_eq_true (_ ∉ _)). vm_compute. reflexivity.
  - eapply bsteps_l; [|apply bsteps_refl]. apply wraps_sudo. vm_compute. reflexivity.
  - exists (lit "rm"), [], (lit "-rf"), [lit "x"]. split; [reflexivity|]. split; [vm_compute; reflexivity|].
    split; [apply not_elem_of_nil|]. right. exists (lit "rf"). split; [reflexivity|].
    split; [vm_compute; discriminate|].
    apply (bool_decide_eq_true (_ ∈ _)). vm_compute. reflexivity.
  - reflexivity.
  - exact (demo_tool_laws _ _ _ _).
  - exact E.
  - intros pre att post Ht. destruct (Ha pre att post Ht) as (action & ctx & d & Hin & Hact). exists action, ctx, d.
    split; [exact Hin|]. injection Hact as <-. reflexivity.
Defined.
