(* ===== verification/Runtimes.v ===== *)
(** * The tools under the orchestrator

    Models the runtimes of [core/src/tools/runtimes/shell.rs],
    [core/src/tools/runtimes/unified_exec.rs] (both but for the launch of the process)
    and [core/src/tools/runtimes/apply_patch.rs] (in full), the recognition of a denial
    in [sandboxing/src/denial.rs], and [execute_verified_patch] of
    [core/src/tools/handlers/apply_patch.rs], which composes the branch gate of
    [GitSafety], the assessment of [PatchSafety], the orchestrator and the application
    of [ApplyPatch]. *)

From Stdlib Require Import ZArith Lia.
From stdpp Require Import gmap.
From S2P Require Import Prelude RustStr PatchSyntax Replacements StreamingParser PatchParser ApplyPatch Invocation Host ShellScript AbsPath.
From S2P Require Import Profile Approval Permissions SandboxPolicies PolicyTransforms PatchSafety ToolApproval Orchestrator Semgrep GitSafety Truncate.

(** ** Denials *)

Definition SANDBOX_DENIED_KEYWORDS : list str := Eval vm_compute in
  [lit "operation not permitted"; lit "permission denied"; lit "read-only file system"; lit "seccomp"; lit "sandbox";
   lit "landlock"; lit "failed to write file"].
Definition QUICK_REJECT_EXIT_CODES : list Z := [2; 126; 127]%Z.
Definition EXIT_CODE_SIGNAL_BASE : Z := 128.
(** [libc::SIGSYS] on Linux. *)
Definition SIGSYS_CODE : Z := 31.

(** [to_lowercase] of the standard library, over all of Unicode. *)
Class Lowercase : Type := to_lowercase : str -> str.

Definition is_likely_sandbox_denied `{Lowercase} (sandbox_type : SandboxType) (o : ExecToolCallOutput) : bool :=
  if bool_decide (sandbox_type = SandboxNone) || (exit_code o =? 0)%Z then false
  else
    let has_sandbox_keyword :=
      existsb (fun section => existsb (fun needle => contains needle (to_lowercase section)) SANDBOX_DENIED_KEYWORDS)
        [exec_stderr o; exec_stdout o; aggregated_output o] in
    if has_sandbox_keyword then true
    else if existsb (Z.eqb (exit_code o)) QUICK_REJECT_EXIT_CODES then false
    else bool_decide (sandbox_type = LinuxSeccomp) && (exit_code o =? EXIT_CODE_SIGNAL_BASE + SIGSYS_CODE)%Z.

(** ** Commands *)

Definition proposed_execpolicy_amendment (r : ExecApprovalRequirement) : option ExecPolicyAmendment :=
  match r with NeedsApproval _ a | Skip _ a => a | ForbiddenReq _ => None end.

(** The fields of [ShellRequest] and [UnifiedExecRequest] that decide. *)
Record CommandRequest {U Proxy : Type} : Type := mkCommandRequest {
  request_environment : TurnEnvironment U;
  request_command : list str;
  request_hook_command : str;
  request_cwd : U;
  request_network : option Proxy;
  request_sandbox_permissions : SandboxPermissions;
  request_additional_permissions : option AdditionalPermissionProfile;
  request_justification : option str;
  request_requirement : ExecApprovalRequirement;
  request_tty : bool;
  request_sandbox_cwd : U;
}.
Arguments CommandRequest : clear implicits.
Arguments mkCommandRequest {U Proxy}.

Section Commands.
Context {U World Proxy Out : Type} `{!NativePaths U}.
(** The launch of the process, [run] of the runtime. *)
Context (launch : World -> CommandRequest U Proxy -> SandboxAttempt U Proxy -> World * result Out ToolError).

Definition command_action (req : CommandRequest U Proxy) (call_id : str) : CommandAction U :=
  mkCommandAction call_id (environment_id (request_environment req)) (request_command req) (request_hook_command req) (request_cwd req)
    (request_sandbox_permissions req) (request_additional_permissions req) (request_justification req)
    (proposed_execpolicy_amendment (request_requirement req)).

Definition command_network_spec (mode : NetworkApprovalMode) (req : CommandRequest U Proxy) : option (NetworkApprovalSpec Proxy) :=
  let profile := environment_profile (request_environment req) in
  let sandbox_permissions :=
    sandbox_permissions_preserving_denied_reads (request_sandbox_permissions req) (file_system_sandbox_policy profile) in
  let! network := managed_network_for_sandbox_permissions (request_network req) sandbox_permissions in
  Some (mkNetworkSpec (Some network) mode (request_hook_command req) (environment_id (request_environment req)) profile).

Definition shell_runtime : ToolRuntime U World Proxy (CommandRequest U Proxy) Out := {|
  tool_sandbox_permissions req := request_sandbox_permissions req;
  should_bypass_approval := default_should_bypass_approval;
  exec_approval_requirement req := Some (request_requirement req);
  wants_no_sandbox_approval := default_wants_no_sandbox_approval;
  approval_action req call_id := Ok (ShellAction (command_action req call_id));
  sandbox_preference := PreferAuto;
  escalate_on_failure := true;
  turn_environment req := request_environment req;
  network_approval_spec := command_network_spec Immediate;
  tool_sandbox_cwd _ := None;
  tool_run := launch;
|}.

(** The trigger of the network approval needs a directory of this host. *)
Definition unified_exec_runtime : ToolRuntime U World Proxy (CommandRequest U Proxy) Out := {|
  tool_sandbox_permissions req := request_sandbox_permissions req;
  should_bypass_approval := default_should_bypass_approval;
  exec_approval_requirement req := Some (request_requirement req);
  wants_no_sandbox_approval := default_wants_no_sandbox_approval;
  approval_action req call_id := Ok (ExecCommandAction (command_action req call_id) (request_tty req));
  sandbox_preference := PreferAuto;
  escalate_on_failure := true;
  turn_environment req := request_environment req;
  network_approval_spec req :=
    let! spec := command_network_spec Deferred req in
    let! _ := result_ok (to_abs_path (request_cwd req)) in
    Some spec;
  tool_sandbox_cwd req := Some (request_sandbox_cwd req);
  tool_run := launch;
|}.

#[export] Instance shell_laws : RuntimeLaws shell_runtime.
Proof. by split. Qed.

#[export] Instance unified_exec_laws : RuntimeLaws unified_exec_runtime.
Proof. by split. Qed.
End Commands.

(** ** Patches *)

Record FileSystemSandboxContext {U : Type} : Type := mkFsContext {
  context_permissions : permission_profile;
  context_cwd : option U;
  context_workspace_roots : list U;
  context_windows_level : WindowsSandboxLevel;
  context_private_desktop : bool;
  context_use_legacy_landlock : bool;
}.
Arguments FileSystemSandboxContext : clear implicits.
Arguments mkFsContext {U}.

Record ApplyPatchRequest {U : Type} `{Countable U} : Type := mkPatchRequest {
  patch_environment : TurnEnvironment U;
  patch_action : ApplyPatchAction (U := U);
  file_paths : list U;
  patch_changes : gmap str FileChange;
  patch_requirement : ExecApprovalRequirement;
  patch_additional_permissions : option AdditionalPermissionProfile;
  patch_preapproved : bool;
}.
Arguments ApplyPatchRequest U {_ _}.
Arguments mkPatchRequest {U _ _}.

Record ApplyPatchRuntimeOutput {U : Type} : Type := mkPatchOutput { exec_output : ExecToolCallOutput; output_delta : AppliedPatchDelta U }.
Arguments ApplyPatchRuntimeOutput : clear implicits.
Arguments mkPatchOutput {U}.

(** The world of a patch: the rest of it, the files, and the delta the runtime keeps.
    Nobody else writes the files meanwhile. *)
Record PatchWorld {U World FS : Type} : Type := mkPatchWorld {
  outer : World;
  files : FS;
  committed_delta : AppliedPatchDelta U;
}.
Arguments PatchWorld : clear implicits.
Arguments mkPatchWorld {U World FS}.

Definition with_outer {U World FS A} (w : PatchWorld U World FS) (r : World * A) : PatchWorld U World FS * A :=
  (mkPatchWorld r.1 (files w) (committed_delta w), r.2).

#[export] Instance patch_approval_host {U World FS} `{!ApprovalHost U World} : ApprovalHost U (PatchWorld U World FS) := {|
  run_permission_request_hooks w id payload := with_outer w (run_permission_request_hooks (outer w) id payload);
  review_approval_request w request reasons := with_outer w (review_approval_request (outer w) request reasons);
  request_command_approval w a b c d e f g h := with_outer w (request_command_approval (outer w) a b c d e f g h);
  request_patch_approval w a b c := with_outer w (request_patch_approval (outer w) a b c);
  uri_text := uri_text;
  url_to_file_path := url_to_file_path;
|}.

#[export] Instance patch_network_host {U World FS Proxy} `{!NetworkHost Proxy World} : NetworkHost Proxy (PatchWorld U World FS) := {|
  open_execution w spec proxy := with_outer w (open_execution (outer w) spec proxy);
  finish_call w id := with_outer w (finish_call (outer w) id);
|}.

Definition default_delta {U} : AppliedPatchDelta U := delta_empty.

(** [effective_permission_profile] does not panic. *)
Lemma effective_profile_total p a : is_Some (effective_permission_profile p a).
Proof.
  unfold effective_permission_profile, from_runtime_permissions_with_enforcement, from_sandbox_policy. simpl.
  destruct (effective_file_system_sandbox_policy (file_system_sandbox_policy p) a) as [[] depth es]; simpl;
    destruct (profile_enforcement p); by eexists.
Qed.

Definition effective_profile (p : permission_profile) (a : option AdditionalPermissionProfile) : permission_profile :=
  match effective_permission_profile p a as r return is_Some r -> permission_profile with
  | Some p' => fun _ => p'
  | None => fun no => False_rect _ (is_Some_None no)
  end (effective_profile_total p a).

(** [writeln!] to a [Vec<u8>], which does not fail. *)
Definition write_vec (out : str) (line : str) : str * result unit io_error := (out ++ line ++ [LF], Ok tt).

Section Patches.
Context {U World FS Proxy : Type} `{Countable U, PathUriOps U, !NativePaths U} `{Lowercase}.
(** The operations of the environment's file system under a sandbox context. *)
Context (fs_ops : option (FileSystemSandboxContext U) -> ExecutorFileSystem U FS).
Abbreviation patch_world := (PatchWorld U World FS).

Definition build_approval_action (req : ApplyPatchRequest U) (call_id : str) : ApprovalAction U :=
  PatchAction call_id (environment_id (patch_environment req)) (action_cwd (patch_action req)) (file_paths req)
    (action_patch (patch_action req)) (patch_changes req) (patch_preapproved req).

Definition file_system_sandbox_context_for_attempt (req : ApplyPatchRequest U) (attempt : SandboxAttempt U Proxy)
  : option (FileSystemSandboxContext U) :=
  if bool_decide (attempt_sandbox attempt = SandboxNone) then None
  else
    let permissions := effective_profile (exec_server_permissions attempt) (patch_additional_permissions req) in
    Some (mkFsContext permissions (Some (attempt_cwd attempt)) (attempt_workspace_roots attempt) (attempt_windows_level attempt)
            (attempt_private_desktop attempt) (attempt_use_legacy_landlock attempt)).

Definition patch_wants_no_sandbox_approval (policy : AskForApproval) : bool :=
  match policy with
  | Never => false
  | Granular config => sandbox_approval config
  | OnRequest | UnlessTrusted => true
  end.

Definition apply_patch_run (w : patch_world) (req : ApplyPatchRequest U) (attempt : SandboxAttempt U Proxy)
  : patch_world * result (ApplyPatchRuntimeOutput U) ToolError :=
  let sandbox := file_system_sandbox_context_for_attempt req attempt in
  let '(fs, stdout, stderr, result) :=
    apply_patch (H0 := fs_ops sandbox) write_vec (action_patch (patch_action req)) (action_cwd (patch_action req)) [] [] (files w) in
  let failed := negb (is_ok result) in
  let delta := match result with Ok delta => delta | Err failure => failure.2 end in
  let committed := delta_append (committed_delta w) delta in
  let w := mkPatchWorld (outer w) fs committed in
  let output := mkExecOutput (if failed then 1 else 0)%Z stdout stderr (stdout ++ stderr) false in
  if failed && is_likely_sandbox_denied (attempt_sandbox attempt) output
  then (w, Err (Codex (SandboxDenied output None)))
  else (w, Ok (mkPatchOutput output committed)).

Definition apply_patch_runtime : ToolRuntime U patch_world Proxy (ApplyPatchRequest U) (ApplyPatchRuntimeOutput U) := {|
  tool_sandbox_permissions _ := UseDefault;
  should_bypass_approval := default_should_bypass_approval;
  exec_approval_requirement req := Some (patch_requirement req);
  wants_no_sandbox_approval := patch_wants_no_sandbox_approval;
  approval_action req call_id := Ok (build_approval_action req call_id);
  sandbox_preference := PreferAuto;
  escalate_on_failure := true;
  turn_environment req := patch_environment req;
  network_approval_spec _ := None;
  tool_sandbox_cwd req := Some (action_cwd (patch_action req));
  tool_run := apply_patch_run;
|}.

#[export] Instance apply_patch_laws : RuntimeLaws apply_patch_runtime.
Proof. by split. Qed.
End Patches.

(** ** The end of a patch ([tools/events.rs]) *)

Definition REJECTION_MESSAGE_MAX_TOKENS : N := 900.

(** [None]: a panic of the truncation. *)
Definition truncate_rejection_message (message : str) : option str :=
  fst <$> truncate_middle_with_token_budget message REJECTION_MESSAGE_MAX_TOKENS.

Inductive PatchApplyStatus : Type := PatchCompleted | PatchFailed | PatchDeclined.

Inductive TurnDiffTrackerUpdate (U : Type) : Type :=
| TrackDelta (environment_id : str) (delta : AppliedPatchDelta U)
| InvalidateTracker
| NoTrackerUpdate.
Arguments TrackDelta {U}.
Arguments InvalidateTracker {U}.
Arguments NoTrackerUpdate {U}.

Definition delta_is_empty {U} (d : AppliedPatchDelta U) : bool := match changes d with [] => true | _ => false end.

Definition tracker_update_for_known_delta {U} (environment_id : str) (d : AppliedPatchDelta U) : TurnDiffTrackerUpdate U :=
  if exact d && delta_is_empty d then NoTrackerUpdate else TrackDelta environment_id d.

(** What [emit_patch_end] is called with. *)
Record PatchEnd {U : Type} : Type := mkPatchEnd {
  end_stdout : str;
  end_stderr : str;
  end_status : PatchApplyStatus;
  end_update : TurnDiffTrackerUpdate U;
}.
Arguments PatchEnd : clear implicits.
Arguments mkPatchEnd {U}.

Section Finish.
Context {U : Type}.
(** The output of a command and an error as the model is shown them. *)
Context (format_exec_output_for_model : ExecToolCallOutput -> str) (debug_err : CodexErr -> str).

Definition status_of (o : ExecToolCallOutput) : PatchApplyStatus := if (exit_code o =? 0)%Z then PatchCompleted else PatchFailed.

(** [ToolEmitter::finish] for a patch, whose delta is always known. *)
Definition finish_patch (environment_id : str) (out : result ExecToolCallOutput ToolError) (delta : AppliedPatchDelta U)
  : option (PatchEnd U * result str FunctionCallError) :=
  match out with
  | Ok output =>
      let content := format_exec_output_for_model output in
      Some (mkPatchEnd (exec_stdout output) (exec_stderr output) (status_of output) (tracker_update_for_known_delta environment_id delta),
            if (exit_code output =? 0)%Z then Ok content else Err (RespondToModel content))
  | Err (Codex (SandboxTimeout output)) =>
      Some (mkPatchEnd (exec_stdout output) (exec_stderr output) (status_of output) InvalidateTracker,
            Err (RespondToModel (format_exec_output_for_model output)))
  | Err (Codex (SandboxDenied output _)) =>
      Some (mkPatchEnd (exec_stdout output) (exec_stderr output) (status_of output) (tracker_update_for_known_delta environment_id delta),
            Err (RespondToModel (format_exec_output_for_model output)))
  | Err (Codex err) =>
      let message := lit "execution error: " ++ debug_err err in
      Some (mkPatchEnd [] message PatchFailed NoTrackerUpdate, Err (RespondToModel message))
  | Err (Rejected msg) =>
      let normalized := if bool_decide (msg = lit "rejected by user") then lit "patch rejected by user" else msg in
      let! normalized := truncate_rejection_message normalized in
      Some (mkPatchEnd [] normalized PatchDeclined (tracker_update_for_known_delta environment_id delta),
            Err (RespondToModel normalized))
  end.
End Finish.

(** ** The whole of a patch *)

Record PatchOutcome {U World FS Proxy : Type} : Type := mkOutcome {
  outcome_world : PatchWorld U World FS;
  outcome_policy : policy;
  outcome_trace : list (run_event U Proxy);
  outcome_end : option (PatchEnd U);
  outcome_result : result str FunctionCallError;
}.
Arguments PatchOutcome : clear implicits.
Arguments mkOutcome {U World FS Proxy}.

Section Execute.
Context {U World FS Proxy : Type} `{Countable U, PathUriOps U, !NativePaths U, !KeyJson U} `{Lowercase}.
Context `{!ApprovalHost U World, !NetworkHost Proxy World, !GitHost World} `{Platform} {PH : PathHost} {FH : FsHost} {GH : GlobHost}.
Context (fs_ops : option (FileSystemSandboxContext U) -> ExecutorFileSystem U FS).
Context (to_dir_path : U -> dir_path) (try_parse_shell : str -> option Tree).
Context (format_exec_output_for_model : ExecToolCallOutput -> str) (debug_err : CodexErr -> str).

(** [execute_verified_patch]: the cache of approvals and the grants are those of the
    session; [None] is a panic. *)
Definition execute_verified_patch (action : ApplyPatchAction (U := U)) (cwd : U) (env : TurnEnvironment U) (turn : TurnContext)
    (granted_session granted_turn : option AdditionalPermissionProfile) (approvals : gmap str ReviewDecision) (w : World) (fs : FS)
  : option (PatchOutcome U World FS Proxy) :=
  match ensure_safe_branch_for_patch (to_dir_path cwd) w with
  | (w, Err err) => Some (mkOutcome (mkPatchWorld w fs delta_empty) unrestricted [] None (Err err))
  | (w, Ok _) =>
      let start := mkPatchWorld w fs delta_empty in
      let! permissions := effective_patch_permissions granted_session granted_turn env action cwd in
      let '(file_paths, effective, pol) :=
        match permissions with Ok p => p | Err _ => patch_permissions_without_path_matching action end in
      match prepare_apply_patch (turn_policy turn) (windows_sandbox_level turn) (environment_profile env) pol action with
      | Err message => Some (mkOutcome start pol [] None (Err (RespondToModel message)))
      | Ok apply =>
          let changes := convert_apply_patch_to_protocol (invocation_action apply) in
          let request :=
            mkPatchRequest env (invocation_action apply) file_paths changes (invocation_requirement apply)
              (effective_additional_permissions effective) (permissions_preapproved effective) in
          let! run := run (Proxy := Proxy) try_parse_shell (apply_patch_runtime fs_ops) request turn (turn_policy turn)
                        (mkSession start approvals []) in
          let '(st, r) := run in
          let final := world (run_session st) in
          let '(out, delta) :=
            match r with
            | Ok (output, _) => (Ok (exec_output output), output_delta output)
            | Err err => (Err err, committed_delta final)
            end in
          let! finished := finish_patch format_exec_output_for_model debug_err (environment_id env) out delta in
          let '(patch_end, answer) := finished in
          Some (mkOutcome final pol (run_trace st) (Some patch_end) answer)
      end
  end.
End Execute.

(** ** What a patch leaves behind *)

Section Left.
Context {U World FS Proxy : Type} `{Countable U, PathUriOps U, !NativePaths U, !NativePathsLaws U, !KeyJson U} `{Lowercase}.
Context `{!ApprovalHost U World, !NetworkHost Proxy World, !GitHost World} `{Platform} {PH : PathHost} {FH : FsHost} {GH : GlobHost}.
Context (fs_ops : option (FileSystemSandboxContext U) -> ExecutorFileSystem U FS).
Context (view : FS -> gmap U str) {Laws : forall context, FsLaws (H1 := fs_ops context) view}.
Context (to_dir_path : U -> dir_path) (try_parse_shell : str -> option Tree).
Context (format_exec_output_for_model : ExecToolCallOutput -> str) (debug_err : CodexErr -> str).
Implicit Types (action : ApplyPatchAction (U := U)).

Lemma committed_join (ts : list U) m0 m1 m2 cs1 cs2 :
  committed ts m0 cs1 m1 -> committed ts m1 cs2 m2 -> committed ts m0 (cs1 ++ cs2) m2.
Proof.
  intros Ha Hb. destruct (committed_app _ _ _ _ _ _ _ Ha Hb) as [R F P]. split; [done | done|].
  intros c u Hc Hu. destruct (proj1 (elem_of_app _ _ _) (P c u Hc Hu)); done.
Qed.

(** The paths the text of a patch names. *)
Definition text_targets action : list U :=
  match parse_patch (action_patch action) with
  | Ok args => patch_targets (action_cwd action) (hunks args)
  | Err _ => []
  end.

Lemma apply_patch_commits context action (out err out' err' : str) fs fs' r :
  apply_patch (H0 := fs_ops context) write_vec (action_patch action) (action_cwd action) out err fs = (fs', out', err', r) ->
  exact (outcome_delta r) = true -> committed (text_targets action) (view fs) (changes (outcome_delta r)) (view fs').
Proof.
  unfold apply_patch, text_targets. intros Hx He. destruct (parse_patch (action_patch action)) as [args|e].
  - apply apply_hunks_files in Hx as (ra & Ha & _). by apply (apply_hunks_to_files_commits (H1 := fs_ops context) view) in Ha as [Hc _].
  - injection Hx as <- <- <- <-. apply committed_nil.
Qed.

(** While a patch runs: a delta that claims to be exact has led here from the start. *)
Definition accounted (ts : list U) (start : gmap U str) (w : PatchWorld U World FS) : Prop :=
  exact (committed_delta w) = true -> committed ts start (changes (committed_delta w)) (view (files w)).

Definition reported (w : PatchWorld U World FS) (out : ApplyPatchRuntimeOutput U) : Prop := output_delta out = committed_delta w.

(** Only the runtime touches the files and the delta. *)
#[local] Instance hosts_keep (Q : FS -> AppliedPatchDelta U -> Prop) :
  HostsKeep (Proxy := Proxy) (fun w : PatchWorld U World FS => Q (files w) (committed_delta w)).
Proof. by split. Qed.

#[local] Instance hosts_keep_accounted ts start : HostsKeep (Proxy := Proxy) (accounted ts start).
Proof. apply (hosts_keep (fun fs d => exact d = true -> committed ts start (changes d) (view fs))). Qed.

#[local] Instance hosts_keep_reported out : HostsKeep (Proxy := Proxy) (fun w => reported w out).
Proof. apply (hosts_keep (fun _ d => output_delta out = d)). Qed.

Lemma patch_run_keeps start action w (req : ApplyPatchRequest U) (att : SandboxAttempt U Proxy) :
  patch_action req = action -> accounted (text_targets action) start w ->
  let x := apply_patch_run fs_ops w req att in
  accounted (text_targets action) start x.1 /\ (forall out, x.2 = Ok out -> reported x.1 out).
Proof using Laws.
  intros <- Hw x. subst x. unfold apply_patch_run.
  destruct (apply_patch _ _ _ _ _ _) as [[[fs' out'] err'] r] eqn:Ea.
  set (w' := mkPatchWorld (outer w) fs' _).
  assert (accounted (text_targets (patch_action req)) start w') as Hw'.
  { intros He. simpl in He. apply andb_true_iff in He as [He1 He2]. simpl. fold (outcome_delta r) in He2 |- *.
    apply (committed_join _ _ (view (files w))); [by apply Hw | by eapply apply_patch_commits]. }
  destruct (_ && _); split; try done. by intros out [= <-].
Qed.

(** The runtime fails only with a denial. *)
Lemma patch_run_errors (w : PatchWorld U World FS) req (att : SandboxAttempt U Proxy) e :
  (apply_patch_run fs_ops w req att).2 = Err e -> exists output, e = Codex (SandboxDenied output None).
Proof.
  unfold apply_patch_run. destruct (apply_patch _ _ _ _ _ _) as [[[fs' out'] err'] r]. destruct (_ && _); simpl; [|done].
  intros [= <-]. eauto.
Qed.

(** A run of the orchestrator over the runtime, for the request of an action. *)
Lemma patch_orchestrated action request turn policy approvals w fs st r :
  patch_action request = action ->
  run (Proxy := Proxy) try_parse_shell (apply_patch_runtime fs_ops) request turn policy
    (mkSession (mkPatchWorld w fs delta_empty) approvals []) = Some (st, r) ->
  let final := world (run_session st) in
  accounted (text_targets action) (view fs) final /\
  match r with
  | Ok (output, _) => output_delta output = committed_delta final
  | Err e => (exists m, e = Rejected m) \/ (exists output, e = Codex (SandboxDenied output None))
  end.
Proof using Laws.
  intros Ha Hx final. subst final.
  destruct (run_good try_parse_shell (accounted (text_targets action) (view fs)) reported (apply_patch_runtime fs_ops) request turn policy
              (mkSession (mkPatchWorld w fs delta_empty) approvals []) st r) as [Hi Hp].
  - intros w' att Hw. by apply (patch_run_keeps (view fs) action w' request att).
  - intros _. apply committed_nil.
  - exact Hx.
  - split; [done|]. destruct r as [[output d]|e]; [by eapply Hp|].
    apply run_errors in Hx as [?|(w' & att & He)]; [by left | right; exact (patch_run_errors w' request att e He) | done].
Qed.

(** What the tracker is told against what happened to the files. *)
Definition update_faithful (before after : gmap U str) (update : TurnDiffTrackerUpdate U) : Prop :=
  match update with
  | TrackDelta _ delta => exact delta = true -> faithful before (changes delta) /\ after = replay (changes delta) before
  | NoTrackerUpdate => after = before
  | InvalidateTracker => False
  end.

Lemma known_delta_faithful ts before (w : PatchWorld U World FS) env :
  accounted ts before w -> update_faithful before (view (files w)) (tracker_update_for_known_delta env (committed_delta w)).
Proof.
  unfold accounted, tracker_update_for_known_delta, delta_is_empty. intros Hw.
  destruct (exact (committed_delta w)) eqn:He; simpl.
  - destruct (Hw eq_refl) as [Hr Hf _]. destruct (changes (committed_delta w)) as [|c cs] eqn:Ec; simpl; [done|].
    intros _. by rewrite Ec.
  - congruence.
Qed.

(** The patch without the panics, which do not happen. *)
Lemma execute_cases action cwd env turn gs gt approvals w fs o :
  execute_verified_patch (Proxy := Proxy) fs_ops to_dir_path try_parse_shell format_exec_output_for_model debug_err
    action cwd env turn gs gt approvals w fs = Some o ->
  (files (outcome_world o) = fs /\ outcome_trace o = [] /\ outcome_end o = None /\ committed_delta (outcome_world o) = delta_empty) \/
  exists request w' st r apply e,
    prepare_apply_patch (turn_policy turn) (windows_sandbox_level turn) (environment_profile env) (outcome_policy o) action = Ok apply /\
    patch_action request = invocation_action apply /\ patch_requirement request = invocation_requirement apply /\
    run (Proxy := Proxy) try_parse_shell (apply_patch_runtime fs_ops) request turn (turn_policy turn)
      (mkSession (mkPatchWorld w' fs delta_empty) approvals []) = Some (st, r) /\
    outcome_world o = world (run_session st) /\ outcome_trace o = run_trace st /\ outcome_end o = Some e /\
    exists answer, finish_patch format_exec_output_for_model debug_err (environment_id env)
      (match r with Ok (output, _) => Ok (exec_output output) | Err err => Err err end)
      (match r with Ok (output, _) => output_delta output | Err err => committed_delta (outcome_world o) end) = Some (e, answer).
Proof.
  unfold execute_verified_patch. intros Hx. destruct (ensure_safe_branch_for_patch _ _) as [w1 [[]|err]]; [|left; by injection Hx as <-].
  destruct (effective_patch_permissions _ _ _ _ _) as [permissions|]; [|done]. simpl in Hx.
  destruct (match permissions with Ok p => p | Err _ => _ end) as [[paths effective] pol].
  destruct (prepare_apply_patch _ _ _ _ _) as [apply|m] eqn:Ep; [|left; by injection Hx as <-]. right.
  set (request := mkPatchRequest _ _ _ _ _ _ _) in Hx.
  destruct (run _ _ _ _ _ _) as [[st r]|] eqn:Er; [|done].
  destruct r as [[output d]|err]; cbv beta iota zeta in Hx.
  all: match type of Hx with context [finish_patch ?a ?b ?c ?d ?f] => destruct (finish_patch a b c d f) as [[e answer]|] eqn:Ef end;
    [|done]; simpl in Hx; injection Hx as <-; simpl;
    exists request, w1, st; do 3 eexists; split_and!; try done; eauto.
Qed.

(** C17.  Whatever happens to a patch (refused at the gate or by its assessment, declined,
    denied by the sandbox and retried, applied half-way), the tracker of the turn's diff
    learns of it: a patch that ends without an event left the files alone; otherwise the
    tracker is given a delta which, when exact, records for every change what was there
    before and leads from the files of before to those of after, or is told of no
    change when there was none. *)
Theorem patch_reported action cwd env turn gs gt approvals w fs o :
  execute_verified_patch (Proxy := Proxy) fs_ops to_dir_path try_parse_shell format_exec_output_for_model debug_err
    action cwd env turn gs gt approvals w fs = Some o ->
  match outcome_end o with
  | None => files (outcome_world o) = fs
  | Some e => update_faithful (view fs) (view (files (outcome_world o))) (end_update e)
  end.
Proof using Laws.
  intros [(-> & _ & -> & _)|(request & w' & st & r & apply & e & _ & Ha & _ & Hr & Hw & _ & -> & answer & Hf)]%execute_cases; [done|].
  destruct (patch_orchestrated _ _ _ _ _ _ _ _ _ Ha Hr) as [Hi Hp]. rewrite <-Hw in *.
  destruct r as [[output d]|err]; simpl in Hf.
  - injection Hf as <- _. simpl. rewrite Hp. by eapply known_delta_faithful.
  - destruct Hp as [[m ->]|[output ->]]; simpl in Hf; [|injection Hf as <- _; simpl; by eapply known_delta_faithful].
    destruct (truncate_rejection_message _) as [t|]; [|done]. injection Hf as <- _. simpl. by eapply known_delta_faithful.
Qed.

(** C1.  A patch changes only what may be changed: when the text that is applied holds the
    hunks that were previewed, no file is the source of two of them and the delta is
    exact, every file that differs after the tool has run is at a path that the policy
    lets be written (or the policy gives write access to the whole disk), unless an
    approval was granted during the run. *)
Theorem patch_changes_consented {FS0} `{ExecutorFileSystem U FS0} render_diff args cwd0 (fs0 : FS0) applied
    action cwd env turn gs gt approvals w fs o u :
  try_verify_apply_patch_args render_diff args cwd0 fs0 = Ok action ->
  NoDup (patch_sources (action_cwd action) (hunks args)) ->
  parse_patch (action_patch action) = Ok applied -> hunks applied = hunks args ->
  execute_verified_patch (Proxy := Proxy) fs_ops to_dir_path try_parse_shell format_exec_output_for_model debug_err
    action cwd env turn gs gt approvals w fs = Some o ->
  exact (committed_delta (outcome_world o)) = true -> view (files (outcome_world o)) !! u <> view fs !! u ->
  (exists a ctx d, ApprovalGranted a ctx d ∈ outcome_trace o) \/
  has_full_disk_write_access (outcome_policy o) = true \/ native_writable (outcome_policy o) (action_cwd action) u.
Proof using Laws NativePathsLaws0.
  intros Hv Hnd Hparse Hhs [(Hfs & _)|(request & w' & st & r & apply & e & Hprep & Ha & Hreq & Hr & Hw & Ht & _)]%execute_cases He Hu;
    [by rewrite Hfs in Hu|].
  unfold prepare_apply_patch in Hprep.
  destruct (assess_patch_safety action _ _ _ _ _) eqn:Eas; [|injection Hprep as <-; simpl in *; left | done].
  - right. injection Hprep as <-. simpl in *. apply (previewed_targets_writable render_diff args cwd0 fs0 action _ _ _ _ u Hv Hnd Eas).
    destruct (patch_orchestrated _ _ _ _ _ _ _ _ _ Ha Hr) as [Hi _]. rewrite <-Hw in Hi.
    destruct (decide (u ∈ patch_targets (action_cwd action) (hunks args))) as [|Hn]; [done|]. destruct Hu.
    eapply committed_frame; [by apply Hi|]. unfold text_targets. by rewrite Hparse, Hhs.
  - destruct (decide (Exists (fun ev => ran ev = true) (run_trace st))) as [Hx|Hno].
    + apply Exists_exists in Hx as ([|att] & Hin & Hran); [done|]. apply list_elem_of_split in Hin as (pre & post & Htr).
      destruct (materialized_profile (turn_environment (apply_patch_runtime (Proxy := Proxy) (World := World) fs_ops) request)) as [permissions Hp].
      pose proof (run_authorized _ _ _ _ _ _ _ _ _ _ _ _ _ Hr Hp Htr) as Hau.
      destruct (required_granted _ _ _ _ _ Hau) as (a & ctx & d & Hin & _); [unfold run_requirement; simpl; rewrite Hreq; simpl; tauto|].
      exists a, ctx, d. rewrite Ht, Htr. set_solver.
    + destruct Hu. rewrite Hw. f_equal. f_equal.
      refine (run_untouched try_parse_shell (fun w => files w = fs) _ _ _ _ _ _ _ _ Hr _); [exact (hosts_keep (fun f _ => f = fs)) | done |].
      intros att Hin. apply Hno, Exists_exists. by exists (ToolRan att).
Qed.
End Left.


Module PatchDemo.
Import MemFs AbsPathDemo PermissionsDemo PoliciesDemo SafetyDemo ReviewDemo RunDemo.

(** A repository without a branch. *)
#[export] Instance detached : GitHost nat := {|
  dir_is_dir _ _ := true;
  dot_git_exists _ _ := true;
  git_query _ _ _ := None;
  git_checkout_b w _ _ := (w, Ok (true, []));
  unix_timestamp _ := 0%Z;
|}.
#[export] Instance ascii_lowercase : Lowercase := to_ascii_lowercase.

Definition demo_execute (text : str) : option (PatchOutcome str nat (gmap str str) unit) :=
  execute_verified_patch (FH := plain_fs true) (fun _ => mem_fs) (fun _ => []) no_scripts (fun o => exec_stdout o) (fun _ => [])
    (action_of text) demo_cwd (env_of [demo_cwd] demo_profile) (demo_turn OnRequest) None None ∅ 0 demo_files.

Definition default_outcome : PatchOutcome str nat (gmap str str) unit :=
  mkOutcome (mkPatchWorld 0 ∅ delta_empty) unrestricted [] None (Ok []).
End PatchDemo.
Import MemFs AbsPathDemo PermissionsDemo PoliciesDemo SafetyDemo ReviewDemo RunDemo PatchDemo.

(** The patch goes through unasked, in one attempt. *)
Example patch_goes_through :
  let o := default default_outcome (demo_execute plain_update) in
  files (outcome_world o) !! lit "/work/repo/a" = Some (nl [lit "one"; lit "2"; []])
  /\ length (outcome_trace o) = 1 /\ is_ok (outcome_result o) = true.
Proof. split_and!; vm_compute; reflexivity. Qed.

Lemma patch_reported_witness :
  exists o e, demo_execute plain_update = Some o /\ outcome_end o = Some e
    /\ update_faithful demo_files (files (outcome_world o)) (end_update e).
Proof.
  destruct (demo_execute plain_update) as [o|] eqn:E; [|vm_compute in E; discriminate E].
  pose proof (patch_reported (FH := plain_fs true) (fun _ => mem_fs) id (fun _ => []) no_scripts (fun o => exec_stdout o) (fun _ => [])
                (action_of plain_update) demo_cwd (env_of [demo_cwd] demo_profile) (demo_turn OnRequest) None None ∅ 0 demo_files o E) as Hr.
  exists o. destruct (outcome_end o) as [e|] eqn:Ee.
  - exists e. split; [reflexivity|]. split; [reflexivity | exact Hr].
  - exfalso. change o with (default default_outcome (Some o)) in Ee. rewrite <-E in Ee. vm_compute in Ee. discriminate Ee.
Defined.

Lemma patch_changes_consented_witness :
  exists o, demo_execute plain_update = Some o /\
    ((exists a ctx d, ApprovalGranted a ctx d ∈ outcome_trace o) \/
     has_full_disk_write_access (outcome_policy o) = true \/
     native_writable (FH := plain_fs true) (outcome_policy o) demo_cwd (lit "/work/repo/a")).
Proof.
  destruct (demo_execute plain_update) as [o|] eqn:E; [|vm_compute in E; discriminate E]. exists o. split; [reflexivity|].
  apply (patch_changes_consented (FH := plain_fs true) (fun _ => mem_fs) id (fun _ => []) no_scripts (fun o => exec_stdout o) (fun _ => [])
           no_diff (args_of plain_update) demo_cwd demo_files (args_of plain_update)
           (action_of plain_update) demo_cwd (env_of [demo_cwd] demo_profile) (demo_turn OnRequest) None None ∅ 0 demo_files o (lit "/work/repo/a")).
  - vm_compute. reflexivity.
  - apply (bool_decide_unpack _). vm_compute. exact I.
  - vm_compute. reflexivity.
  - reflexivity.
  - exact E.
  - change o with (default default_outcome (Some o)). rewrite <-E. vm_compute. reflexivity.
  - change o with (default default_outcome (Some o)). rewrite <-E. vm_compute. discriminate.
Defined.
