(* ===== verification/NetworkApproval.v ===== *)
(** * Network approvals

    [core/src/tools/network_approval.rs] and [core/src/network_policy_decision.rs]: the
    service that is asked about hosts which the proxy's lists leave open, with
    [persist_network_policy_amendment] of [core/src/session/mod.rs].

    The service is shared by the tasks of a session.  A handler is written as a program
    over the primitive operations of the service (a section under one of its mutexes, an
    access to a cell or a token, a question to someone outside), so that tasks interleave
    between any two of them; [performs] says what an operation does and whether it can
    proceed, and notes in a trace what happened.  What the session, the hooks, the
    reviewers and the disk answer is the input of the operation that asks. *)

From Stdlib Require Import Lia.
From stdpp Require Import gmap.
From S2P Require Import Prelude RustStr PatchSyntax NetworkPolicy NetworkState NetworkProxy.
From S2P Require Import ExecPolicy Profile Approval SandboxPolicies ToolApproval Orchestrator Runtimes.

(** ** Data *)

Definition ABANDONED_NETWORK_APPROVAL_MESSAGE : str := lit "network approval was cancelled before a decision was returned".

Record HostApprovalKey : Type := mkHostKey { hk_environment_id : str; hk_host : str; hk_protocol : str; hk_port : N }.
#[export] Instance host_key_eq_dec : EqDecision HostApprovalKey.
Proof. solve_decision. Defined.
#[export] Instance host_key_countable : Countable HostApprovalKey.
Proof.
  by apply (inj_countable' (fun k => (hk_environment_id k, hk_host k, hk_protocol k, hk_port k))
                           (fun '(e, h, p, n) => mkHostKey e h p n)); intros [].
Defined.

Record PendingHostApprovalKey : Type := mkPendingKey { pk_host : HostApprovalKey; pk_turn_id : str; pk_execution_id : option str }.
#[export] Instance pending_key_eq_dec : EqDecision PendingHostApprovalKey.
Proof. solve_decision. Defined.
#[export] Instance pending_key_countable : Countable PendingHostApprovalKey.
Proof.
  by apply (inj_countable' (fun k => (pk_host k, pk_turn_id k, pk_execution_id k)) (fun '(h, t, e) => mkPendingKey h t e)); intros [].
Defined.

Definition protocol_key_label (protocol : NetworkApprovalProtocol) : str :=
  match protocol with
  | ProtoHttp => lit "http"
  | ProtoHttps => lit "https"
  | ProtoSocks5Tcp => lit "socks5-tcp"
  | ProtoSocks5Udp => lit "socks5-udp"
  end.

Definition from_request (request : NetworkPolicyRequest) (protocol : NetworkApprovalProtocol) (environment_id : str) : HostApprovalKey :=
  mkHostKey environment_id (to_ascii_lowercase (pr_host request)) (protocol_key_label protocol) (pr_port request).

Definition approval_protocol (p : NetworkProtocol) : NetworkApprovalProtocol :=
  match p with
  | NetworkProxy.Http => ProtoHttp
  | HttpsConnect => ProtoHttps
  | NetworkProxy.Socks5Tcp => ProtoSocks5Tcp
  | NetworkProxy.Socks5Udp => ProtoSocks5Udp
  end.

Inductive PendingApprovalDecision : Type := AllowOnce | AllowForSession | DenyRequest.
#[export] Instance pending_decision_eq_dec : EqDecision PendingApprovalDecision.
Proof. solve_decision. Defined.

Inductive NetworkApprovalOutcome : Type := DeniedByApproval (rejection : str) | DeniedByPolicy (message : str).

(** [NetworkDecision::deny] and [ask] with the reason of this module. *)
Definition not_allowed : NetworkDecision := deny_with_source (lit "not_allowed") NetworkProxy.Decider.
Definition ask_not_allowed : NetworkDecision := ask_with_source (lit "not_allowed") NetworkProxy.Decider.

Definition to_network_decision (d : PendingApprovalDecision) : NetworkDecision :=
  match d with AllowOnce | AllowForSession => DecideAllow | DenyRequest => not_allowed end.

(** The outer [None] is a panic of the truncation. *)
Definition network_approval_outcome_to_result (outcome : option NetworkApprovalOutcome) : option (result unit ToolError) :=
  match outcome with
  | Some (DeniedByApproval rejection) => (fun m => Err (Rejected m)) <$> truncate_rejection_message rejection
  | Some (DeniedByPolicy message) => (fun m => Err (Rejected m)) <$> truncate_rejection_message message
  | None => Some (Ok tt)
  end.

Definition abandoned_network_approval_outcome (is_cancelled : bool) : option NetworkApprovalOutcome :=
  if is_cancelled then Some (DeniedByPolicy ABANDONED_NETWORK_APPROVAL_MESSAGE) else None.

Definition allows_network_approval_flow (policy : AskForApproval) : bool := match policy with Never => false | _ => true end.

Definition permission_profile_allows_network_approval_flow (p : permission_profile) : bool :=
  match p with Managed _ _ => true | _ => false end.

(** *** Calls

    The trigger of a call is only passed on to the reviewer.  A cancellation token is its
    number; which of them are cancelled is part of the service. *)

Record ActiveNetworkApprovalCall : Type := mkCall {
  call_registration_id : str;
  call_turn_id : str;
  call_command : str;
  call_environment_id : str;
  call_permission_profile : permission_profile;
  call_token : nat;
}.

(** The index map of active calls, in the order of insertion; its keys are the
    registration ids of its values. *)
Record NetworkApprovalCallState : Type := mkCallState {
  active_calls : list ActiveNetworkApprovalCall;
  call_outcomes : gmap str NetworkApprovalOutcome;
}.

Definition find_call (id : str) (s : NetworkApprovalCallState) : option ActiveNetworkApprovalCall :=
  List.find (fun c => bool_decide (call_registration_id c = id)) (active_calls s).

Fixpoint insert_call (call : ActiveNetworkApprovalCall) (l : list ActiveNetworkApprovalCall) : list ActiveNetworkApprovalCall :=
  match l with
  | [] => [call]
  | c :: l' => if bool_decide (call_registration_id c = call_registration_id call) then call :: l' else c :: insert_call call l'
  end.

Definition register_call (call : ActiveNetworkApprovalCall) (s : NetworkApprovalCallState) : NetworkApprovalCallState * unit :=
  (mkCallState (insert_call call (active_calls s)) (call_outcomes s), tt).

Definition remove_call (id : str) (s : NetworkApprovalCallState) : NetworkApprovalCallState * option NetworkApprovalOutcome :=
  (mkCallState (filter (fun c => call_registration_id c <> id) (active_calls s)) (delete id (call_outcomes s)), call_outcomes s !! id).

Definition resolve_single_active_call (s : NetworkApprovalCallState) : option ActiveNetworkApprovalCall :=
  match active_calls s with [c] => Some c | _ => None end.

Inductive ActiveNetworkApprovalAttribution : Type := NoCall | SingleCall (call : ActiveNetworkApprovalCall) | AmbiguousCall.

Definition resolve_active_call_attribution (s : NetworkApprovalCallState) : ActiveNetworkApprovalAttribution :=
  match active_calls s with [] => NoCall | [c] => SingleCall c | _ => AmbiguousCall end.

Record NetworkRequestAttribution : Type := mkAttribution {
  owner_call : option ActiveNetworkApprovalCall;
  attributed_environment : option str;
}.

Definition resolve_request_attribution (request : NetworkPolicyRequest) (s : NetworkApprovalCallState) : option NetworkRequestAttribution :=
  match pr_execution_id request with
  | Some execution_id =>
      let! call := find_call execution_id s in
      let environment_id := default (call_environment_id call) (pr_environment_id request) in
      if bool_decide (call_environment_id call = environment_id) then Some (mkAttribution (Some call) (Some environment_id)) else None
  | None =>
      match pr_environment_id request with
      | Some environment_id =>
          let owner_call :=
            match resolve_active_call_attribution s with
            | SingleCall call => if bool_decide (call_environment_id call = environment_id) then Some call else None
            | NoCall | AmbiguousCall => None
            end in
          Some (mkAttribution owner_call (Some environment_id))
      | None =>
          match resolve_active_call_attribution s with
          | NoCall => Some (mkAttribution None None)
          | SingleCall call => Some (mkAttribution (Some call) (Some (call_environment_id call)))
          | AmbiguousCall => None
          end
      end
  end.

(** The section of [record_call_outcome] under the mutex: the call to cancel, if the
    outcome was recorded. *)
Definition record_outcome_section (id : str) (outcome : NetworkApprovalOutcome) (s : NetworkApprovalCallState)
  : NetworkApprovalCallState * option ActiveNetworkApprovalCall :=
  match find_call id s with
  | None => (s, None)
  | Some call =>
      match call_outcomes s !! id with
      | Some (DeniedByApproval _) => (s, None)
      | _ => (mkCallState (active_calls s) (<[id := outcome]> (call_outcomes s)), Some call)
      end
  end.

(** The second section of [record_blocked_request]: whether the message was recorded. *)
Definition record_blocked_section (id message : str) (s : NetworkApprovalCallState) : NetworkApprovalCallState * bool :=
  match call_outcomes s !! id with
  | Some _ => (s, false)
  | None => (mkCallState (active_calls s) (<[id := DeniedByPolicy message]> (call_outcomes s)), true)
  end.

(** *** Messages ([network_policy_decision.rs]) *)

Definition parse_network_policy_decision (value : str) : option NetworkProxy.NetworkPolicyDecision :=
  if bool_decide (value = lit "deny") then Some DecisionDeny
  else if bool_decide (value = lit "ask") then Some DecisionAsk
  else None.

Definition denied_network_policy_message (blocked : BlockedRequest) : option str :=
  match br_decision blocked ≫= parse_network_policy_decision with
  | Some DecisionDeny =>
      let host := trim (br_host blocked) in
      if is_empty host then Some (lit "Network access was blocked by policy.")
      else
        let reason := br_reason blocked in
        let detail :=
          if bool_decide (reason = lit "denied") then lit "domain is explicitly denied by policy and cannot be approved from this prompt"
          else if bool_decide (reason = lit "not_allowed") then lit "domain is not on the allowlist for the current sandbox mode"
          else if bool_decide (reason = lit "not_allowed_local") then lit "local/private network addresses are blocked by the sandbox policy"
          else if bool_decide (reason = lit "method_not_allowed") then lit "request method is blocked by the current network mode"
          else if bool_decide (reason = lit "proxy_disabled") then lit "network proxy is disabled"
          else lit "request is blocked by network policy" in
        Some (lit "Network access to " ++ [QUOTE] ++ host ++ [QUOTE] ++ lit " was blocked: " ++ detail ++ lit ".")
  | _ => None
  end.

Record ExecPolicyNetworkRuleAmendment : Type := mkRuleAmendment {
  rule_protocol : NetworkRuleProtocol;
  rule_decision : Decision;
  rule_justification : str;
}.

Definition execpolicy_network_rule_amendment (amendment : NetworkPolicyAmendment) (context : NetworkApprovalContext) (host : str)
  : ExecPolicyNetworkRuleAmendment :=
  let protocol :=
    match context_protocol context with
    | ProtoHttp => Http | ProtoHttps => Https | ProtoSocks5Tcp => Socks5Tcp | ProtoSocks5Udp => Socks5Udp
    end in
  let '(decision, action_verb) :=
    match amendment_action amendment with RuleAllow => (Allow, lit "Allow") | RuleDeny => (Forbidden, lit "Deny") end in
  let protocol_label :=
    match context_protocol context with
    | ProtoHttp => lit "http"
    | ProtoHttps => lit "https_connect"
    | ProtoSocks5Tcp => lit "socks5_tcp"
    | ProtoSocks5Udp => lit "socks5_udp"
    end in
  mkRuleAmendment protocol decision (action_verb ++ lit " " ++ protocol_label ++ lit " access to " ++ host).

(** ** The service *)

(** The fields of the active turn that are looked at. *)
Record ActiveTurn : Type := mkTurn {
  turn_sub_id : str;
  turn_environments : list (str * permission_profile);
  turn_policy : AskForApproval;
  turn_reviewer : ApprovalsReviewer;
}.

(** [PendingHostApprovalOwner]: the key, the cell of its generation and the token of the
    execution; [decision_on_drop] is the field that changes. *)
Record PendingHostApprovalOwner : Type := mkOwner {
  owner_key : PendingHostApprovalKey;
  owner_cell : nat;
  execution_cancellation : option nat;
}.

(** What happened, for the statements about it: task [t] attributed its request to a call
    while [active] were the active calls; it saw the active turn; a hook, the reviewer or
    the user answered a question; the session recorded a denial; an amendment that allows
    the host, approved for the question of [o], took effect (the running proxy was updated
    or the rule was appended). *)
Inductive event : Type :=
| Attributed (t : nat) (active : list ActiveNetworkApprovalCall) (attribution : option NetworkRequestAttribution)
| TurnSeen (t : nat) (turn : option ActiveTurn)
| Answered (key : PendingHostApprovalKey) (d : ReviewDecision)
| DenialRecorded (host : HostApprovalKey)
| AllowApplied (o : PendingHostApprovalOwner).

(** [NetworkApprovalService], with the memory its tasks share: [cells] holds the decided
    generations ([PendingHostApproval::decision]), [cancelled] the cancelled tokens,
    [owners] the live owner of each task with its decision on drop, [commit_lock] the task
    inside the commit lock.  The last three fields are a trace, which no operation reads:
    the owner each cell was made for, what happened, the hosts received from other
    sessions. *)
Record NetworkApprovalService : Type := mkService {
  calls : NetworkApprovalCallState;
  pending_host_approvals : gmap PendingHostApprovalKey nat;
  commit_lock : option nat;
  session_approved_hosts : gset HostApprovalKey;
  session_denied_hosts : gset HostApprovalKey;
  cells : gmap nat PendingApprovalDecision;
  next_cell : nat;
  cancelled : gset nat;
  next_token : nat;
  owners : gmap nat (PendingHostApprovalOwner * PendingApprovalDecision);
  made_for : gmap nat PendingHostApprovalOwner;
  events : list event;
  received : gset HostApprovalKey;
}.

Definition new_service : NetworkApprovalService :=
  mkService (mkCallState [] ∅) ∅ None ∅ ∅ ∅ 0 ∅ 0 ∅ ∅ [] ∅.

Section Setters.
Context (s : NetworkApprovalService).
Let build c p l a d ce nc ca nt o m an r := mkService c p l a d ce nc ca nt o m an r.

Definition set_calls (c : NetworkApprovalCallState) : NetworkApprovalService :=
  build c (pending_host_approvals s) (commit_lock s) (session_approved_hosts s) (session_denied_hosts s) (cells s) (next_cell s)
    (cancelled s) (next_token s) (owners s) (made_for s) (events s) (received s).
Definition set_pending (p : gmap PendingHostApprovalKey nat) : NetworkApprovalService :=
  build (calls s) p (commit_lock s) (session_approved_hosts s) (session_denied_hosts s) (cells s) (next_cell s)
    (cancelled s) (next_token s) (owners s) (made_for s) (events s) (received s).
Definition set_lock (l : option nat) : NetworkApprovalService :=
  build (calls s) (pending_host_approvals s) l (session_approved_hosts s) (session_denied_hosts s) (cells s) (next_cell s)
    (cancelled s) (next_token s) (owners s) (made_for s) (events s) (received s).
Definition set_approved (a r : gset HostApprovalKey) : NetworkApprovalService :=
  build (calls s) (pending_host_approvals s) (commit_lock s) a (session_denied_hosts s) (cells s) (next_cell s)
    (cancelled s) (next_token s) (owners s) (made_for s) (events s) r.
Definition set_denied (d : gset HostApprovalKey) : NetworkApprovalService :=
  build (calls s) (pending_host_approvals s) (commit_lock s) (session_approved_hosts s) d (cells s) (next_cell s)
    (cancelled s) (next_token s) (owners s) (made_for s) (events s) (received s).
Definition set_cancelled (c : gset nat) : NetworkApprovalService :=
  build (calls s) (pending_host_approvals s) (commit_lock s) (session_approved_hosts s) (session_denied_hosts s) (cells s) (next_cell s)
    c (next_token s) (owners s) (made_for s) (events s) (received s).
Definition set_next_token (n : nat) : NetworkApprovalService :=
  build (calls s) (pending_host_approvals s) (commit_lock s) (session_approved_hosts s) (session_denied_hosts s) (cells s) (next_cell s)
    (cancelled s) n (owners s) (made_for s) (events s) (received s).
Definition set_owners (o : gmap nat (PendingHostApprovalOwner * PendingApprovalDecision)) : NetworkApprovalService :=
  build (calls s) (pending_host_approvals s) (commit_lock s) (session_approved_hosts s) (session_denied_hosts s) (cells s) (next_cell s)
    (cancelled s) (next_token s) o (made_for s) (events s) (received s).
Definition set_cells (c : gmap nat PendingApprovalDecision) : NetworkApprovalService :=
  build (calls s) (pending_host_approvals s) (commit_lock s) (session_approved_hosts s) (session_denied_hosts s) c (next_cell s)
    (cancelled s) (next_token s) (owners s) (made_for s) (events s) (received s).
Definition new_cell (owner : PendingHostApprovalOwner) : NetworkApprovalService :=
  build (calls s) (pending_host_approvals s) (commit_lock s) (session_approved_hosts s) (session_denied_hosts s) (cells s) (S (next_cell s))
    (cancelled s) (next_token s) (owners s) (<[next_cell s := owner]> (made_for s)) (events s) (received s).
Definition note (e : event) : NetworkApprovalService :=
  build (calls s) (pending_host_approvals s) (commit_lock s) (session_approved_hosts s) (session_denied_hosts s) (cells s) (next_cell s)
    (cancelled s) (next_token s) (owners s) (made_for s) (events s ++ [e]) (received s).
End Setters.

(** ** Primitive operations

    The trigger of the call and the directory shown to the user are left out of the
    questions: they change no decision. *)

Inductive op : Type :=
(* the mutex of the calls, and the tokens *)
| OCalls (A : Type) (under_lock : NetworkApprovalCallState -> NetworkApprovalCallState * A)
| OAttribute (request : NetworkPolicyRequest)
| OCancel (token : nat)
| OIsCancelled (token : nat)
| ONewToken
(* the commit lock and the two caches *)
| OLockCommit
| OUnlockCommit
| ODeniedContains (key : HostApprovalKey)
| ODeniedInsert (key : HostApprovalKey)
| ODeniedRemove (key : HostApprovalKey)
| OApprovedContains (key : HostApprovalKey)
| OApprovedInsert (key : HostApprovalKey)
| OApprovedRemove (key : HostApprovalKey)
| OApprovedReplace (hosts : gset HostApprovalKey)
(* pending approvals *)
| OJoin (key : PendingHostApprovalKey) (execution_cancellation : option nat)
| OWait (cell : nat)
| OSetOnDrop (d : PendingApprovalDecision)
| OOnDrop
| OWithdraw (key : PendingHostApprovalKey) (cell : nat)
| OPublish (cell : nat) (d : PendingApprovalDecision)
(* everyone else *)
| OUpgradeSession
| OActiveTurn
| OHook (key : PendingHostApprovalKey) (run_id_suffix command description : str)
| OGuardian (key : PendingHostApprovalKey) (id turn_id target host : str) (protocol : NetworkApprovalProtocol) (port : N) (retry_reason : str)
| OUser (key : PendingHostApprovalKey) (approval_id environment_id : str) (command : list str) (reason : str) (context : NetworkApprovalContext)
| OAcquireRefresh
| OUpdateProxy (action : NetworkPolicyRuleAction) (host : str)
| OAppendRule (host : str) (rule : ExecPolicyNetworkRuleAmendment)
| OAmendmentMessage (sub_id : str) (amendment : NetworkPolicyAmendment)
| OWarning (message : str)
| OUuid
| OForExecution (environment_id registration_id attribution_token : str).

(** What the operation returns to the program. *)
Definition resp (o : op) : Type :=
  match o with
  | OCalls A _ => A
  | OAttribute _ => option NetworkRequestAttribution
  | OIsCancelled _ | ODeniedContains _ | OApprovedContains _ | OUpgradeSession | OAcquireRefresh => bool
  | ONewToken => nat
  | OJoin _ _ => nat * bool
  | OWait _ | OOnDrop => PendingApprovalDecision
  | OActiveTurn => option ActiveTurn
  | OHook _ _ _ _ => option PermissionRequestDecision
  | OGuardian _ _ _ _ _ _ _ _ => option ReviewDecision
  | OUser _ _ _ _ _ _ => ReviewDecision
  | OUpdateProxy _ _ => option (result unit str)
  | OAppendRule _ _ | OForExecution _ _ _ => result unit str
  | OUuid => str
  | _ => unit
  end%type.

(** What comes from outside. *)
Inductive input : Type :=
| NoInput
| InBool (b : bool)
| InTurn (turn : option ActiveTurn)
| InHook (answer : option PermissionRequestDecision)
| InGuardian (answer : option ReviewDecision)
| InUser (answer : ReviewDecision)
| InProxy (updated : option (result unit str))
| InResult (r : result unit str)
| InStr (s : str).

(** Where a future waits, and so where it may be dropped. *)
Definition awaits (o : op) : bool :=
  match o with
  | OCancel _ | OIsCancelled _ | ONewToken | OUnlockCommit | OJoin _ _ | OSetOnDrop _ | OOnDrop | OWithdraw _ _ | OPublish _ _
  | OUuid | OForExecution _ _ _ => false
  | _ => true
  end.

Definition REVIEW_FAILED : ReviewDecision := Denied (lit "automatic approval review could not complete").

Definition hook_review (answer : option PermissionRequestDecision) : option ReviewDecision :=
  match answer with Some HookAllow => Some Approved | Some (HookDeny m) => Some (Denied m) | None => None end.

(** [get_or_create_pending_approval], with the owner a task makes of a cell it created. *)
Definition get_or_create_pending_approval (t : nat) (key : PendingHostApprovalKey) (token : option nat) (s : NetworkApprovalService)
  : NetworkApprovalService * (nat * bool) :=
  match pending_host_approvals s !! key with
  | Some existing => (s, (existing, false))
  | None =>
      let created := next_cell s in
      let owner := mkOwner key created token in
      (set_owners (new_cell (set_pending s (<[key := created]> (pending_host_approvals s))) owner)
         (<[t := (owner, DenyRequest)]> (owners s)), (created, true))
  end.

(** The section of [publish_and_remove] under the mutex. *)
Definition remove_generation (key : PendingHostApprovalKey) (cell : nat) (s : NetworkApprovalService) : NetworkApprovalService :=
  if bool_decide (pending_host_approvals s !! key = Some cell) then set_pending s (delete key (pending_host_approvals s)) else s.

(** [PendingHostApproval::set_decision]: a cell is set once. *)
Definition set_decision (cell : nat) (d : PendingApprovalDecision) (s : NetworkApprovalService) : NetworkApprovalService :=
  match cells s !! cell with Some _ => s | None => set_cells s (<[cell := d]> (cells s)) end.

(** A change of the policy by task [t] took effect: when it allows the host, an amendment
    approved for the question the task owns did. *)
Definition note_applied (t : nat) (allows : bool) (s : NetworkApprovalService) : NetworkApprovalService :=
  match owners s !! t with
  | Some (o, _) => if allows then note s (AllowApplied o) else s
  | None => s
  end.

(** The operation of task [t]: [None] when it cannot proceed yet, or not with this input. *)
Definition performs (t : nat) (o : op) (i : input) (s : NetworkApprovalService) : option (NetworkApprovalService * resp o) :=
  match o return option (NetworkApprovalService * resp o) with
  | OCalls A f => let '(c, a) := f (calls s) in Some (set_calls s c, a)
  | OAttribute request =>
      let attribution := resolve_request_attribution request (calls s) in
      Some (note s (Attributed t (active_calls (calls s)) attribution), attribution)
  | OCancel token => Some (set_cancelled s ({[token]} ∪ cancelled s), tt)
  | OIsCancelled token => Some (s, bool_decide (token ∈ cancelled s))
  | ONewToken => Some (set_next_token s (S (next_token s)), next_token s)
  | OLockCommit => match commit_lock s with None => Some (set_lock s (Some t), tt) | Some _ => None end
  | OUnlockCommit => Some (set_lock s None, tt)
  | ODeniedContains key => Some (s, bool_decide (key ∈ session_denied_hosts s))
  | ODeniedInsert key => Some (note (set_denied s ({[key]} ∪ session_denied_hosts s)) (DenialRecorded key), tt)
  | ODeniedRemove key => Some (set_denied s (session_denied_hosts s ∖ {[key]}), tt)
  | OApprovedContains key => Some (s, bool_decide (key ∈ session_approved_hosts s))
  | OApprovedInsert key => Some (set_approved s ({[key]} ∪ session_approved_hosts s) (received s), tt)
  | OApprovedRemove key => Some (set_approved s (session_approved_hosts s ∖ {[key]}) (received s), tt)
  | OApprovedReplace hosts => Some (set_approved s hosts (hosts ∪ received s), tt)
  | OJoin key token => Some (get_or_create_pending_approval t key token s)
  | OWait cell => (fun d => (s, d)) <$> (cells s !! cell)
  | OSetOnDrop d => Some (set_owners s (alter (fun od => (od.1, d)) t (owners s)), tt)
  | OOnDrop => (fun od => (s, od.2)) <$> (owners s !! t)
  | OWithdraw key cell => Some (remove_generation key cell s, tt)
  | OPublish cell d => Some (set_decision cell d (set_owners s (delete t (owners s))), tt)
  | OUpgradeSession => match i with InBool b => Some (s, b) | _ => None end
  | OAcquireRefresh => match i with InBool b => Some (s, b) | _ => None end
  | OActiveTurn => match i with InTurn turn => Some (note s (TurnSeen t turn), turn) | _ => None end
  | OHook key _ _ _ =>
      match i with
      | InHook a => Some (match hook_review a with Some d => note s (Answered key d) | None => s end, a)
      | _ => None
      end
  | OGuardian key _ _ _ _ _ _ _ => match i with InGuardian a => Some (note s (Answered key (default REVIEW_FAILED a)), a) | _ => None end
  | OUser key _ _ _ _ _ => match i with InUser a => Some (note s (Answered key a), a) | _ => None end
  | OUpdateProxy action _ =>
      match i with
      | InProxy u =>
          Some (match u, action with Some (Ok _), RuleAllow => note_applied t true s | _, _ => s end, u)
      | _ => None
      end
  | OAppendRule _ rule =>
      match i with
      | InResult r => Some (match r with Ok _ => note_applied t (bool_decide (rule_decision rule = Allow)) s | Err _ => s end, r)
      | _ => None
      end
  | OAmendmentMessage _ _ => Some (s, tt)
  | OWarning _ => Some (s, tt)
  | OUuid => match i with InStr u => Some (s, u) | _ => None end
  | OForExecution _ _ _ => match i with InResult r => Some (s, r) | _ => None end
  end.

(** ** Programs *)

Inductive prog (A : Type) : Type :=
| Ret (a : A)
| Do (o : op) (k : resp o -> prog A).
Arguments Ret {A} a.
Arguments Do {A} o k.

#[export] Instance prog_ret : MRet prog := fun A a => Ret a.
#[export] Instance prog_bind : MBind prog := fun A B f =>
  fix go p := match p with Ret a => f a | Do o k => Do o (fun x => go (k x)) end.

Definition perform (o : op) : prog (resp o) := Do o Ret.

(** *** Outcomes of calls *)

Definition record_call_outcome (id : str) (outcome : NetworkApprovalOutcome) : prog unit :=
  recorded ← perform (OCalls _ (record_outcome_section id outcome));
  match recorded with Some call => perform (OCancel (call_token call)) | None => mret tt end.

Definition record_for (owner_call : option ActiveNetworkApprovalCall) (outcome : NetworkApprovalOutcome) : prog unit :=
  match owner_call with Some call => record_call_outcome (call_registration_id call) outcome | None => mret tt end.

Definition finish_call_outcome (id : str) : prog (option NetworkApprovalOutcome) := perform (OCalls _ (remove_call id)).

Definition outcome_or_abandoned (outcome : option NetworkApprovalOutcome) (token : nat) : prog (option NetworkApprovalOutcome) :=
  match outcome with
  | Some outcome => mret (Some outcome)
  | None => is_cancelled ← perform (OIsCancelled token); mret (abandoned_network_approval_outcome is_cancelled)
  end.

Definition finish_call (id : str) (token : nat) : prog (option (result unit ToolError)) :=
  outcome ← finish_call_outcome id;
  outcome ← outcome_or_abandoned outcome token;
  mret (network_approval_outcome_to_result outcome).

Definition record_blocked_request (blocked : BlockedRequest) : prog unit :=
  match denied_network_policy_message blocked with
  | None => mret tt
  | Some message =>
      owner_call ← perform (OCalls _ (fun s =>
        (s, match br_execution_id blocked with Some id => find_call id s | None => resolve_single_active_call s end)));
      match owner_call with
      | None => mret tt
      | Some call =>
          recorded ← perform (OCalls _ (record_blocked_section (call_registration_id call) message));
          if recorded : bool then perform (OCancel (call_token call)) else mret tt
      end
  end.

(** *** Pending approvals *)

Definition cancel_execution_if_denied (owner : PendingHostApprovalOwner) (d : PendingApprovalDecision) : prog unit :=
  match d, execution_cancellation owner with
  | DenyRequest, Some token => perform (OCancel token)
  | _, _ => mret tt
  end.

Definition publish_and_remove (owner : PendingHostApprovalOwner) (d : PendingApprovalDecision) : prog unit :=
  perform (OWithdraw (owner_key owner) (owner_cell owner));; perform (OPublish (owner_cell owner) d).

Definition complete (owner : PendingHostApprovalOwner) (d : PendingApprovalDecision) : prog unit :=
  cancel_execution_if_denied owner d;; publish_and_remove owner d.

(** A task that is dropped gives up the commit lock, which is the later of its variables,
    and then its owner. *)
Definition drop_task (t : nat) (s : NetworkApprovalService) : prog unit :=
  (if bool_decide (commit_lock s = Some t) then perform OUnlockCommit else mret tt);;
  match owners s !! t with
  | Some (owner, decision_on_drop) => complete owner decision_on_drop
  | None => mret tt
  end.

(** *** Amendments of the policy ([session/mod.rs]) *)

Definition validated_network_policy_amendment_host (amendment : NetworkPolicyAmendment) (context : NetworkApprovalContext)
  : result str str :=
  let approved_host := normalize_host (context_host context) in
  let host := normalize_host (amendment_host amendment) in
  if bool_decide (host = approved_host) then Ok approved_host
  else Err (lit "network policy amendment host '" ++ amendment_host amendment ++ lit "' does not match approved host '"
            ++ context_host context ++ lit "'").

Definition runtime_list (action : NetworkPolicyRuleAction) : str :=
  match action with RuleAllow => lit "allowlist" | RuleDeny => lit "denylist" end.

Definition persist_network_policy_amendment (amendment : NetworkPolicyAmendment) (context : NetworkApprovalContext)
  (on_policy_applied : prog unit) : prog (result unit str) :=
  acquired ← perform OAcquireRefresh;
  if negb acquired then mret (Err (lit "managed network proxy refresh semaphore closed"))
  else
    match validated_network_policy_amendment_host amendment context with
    | Err e => mret (Err e)
    | Ok host =>
        let rule := execpolicy_network_rule_amendment amendment context host in
        updated ← perform (OUpdateProxy (amendment_action amendment) host);
        match updated with
        | Some (Err err) => mret (Err (lit "failed to update runtime " ++ runtime_list (amendment_action amendment) ++ lit ": " ++ err))
        | _ =>
            (match updated with Some _ => on_policy_applied | None => mret tt end);;
            appended ← perform (OAppendRule host rule);
            match appended with
            | Err err => mret (Err (lit "failed to persist network policy amendment to execpolicy: " ++ err))
            | Ok _ =>
                (match updated with Some _ => mret tt | None => on_policy_applied end);;
                mret (Ok tt)
            end
        end
    end.

(** ** A request that the lists leave open *)

Definition format_network_target (protocol host : str) (port : N) : str := protocol ++ lit "://" ++ host ++ lit ":" ++ show_N port.

Definition approval_id_for_key (key : HostApprovalKey) : str :=
  lit "network#" ++ hk_environment_id key ++ lit "#" ++ hk_protocol key ++ lit "#" ++ hk_host key ++ lit "#" ++ show_N (hk_port key).

Definition denial_message (target : str) : str :=
  lit "Network access to " ++ [QUOTE] ++ target ++ [QUOTE] ++ lit " was blocked by policy.".

(** What the session remembers of the host. *)
Definition remembered (key : HostApprovalKey) : prog (option NetworkDecision) :=
  perform OLockCommit;;
  denied ← perform (ODeniedContains key);
  if denied : bool then perform OUnlockCommit;; mret (Some not_allowed)
  else
    approved ← perform (OApprovedContains key);
    perform OUnlockCommit;;
    mret (if approved : bool then Some DecideAllow else None).

(** The variables of [handle_inline_policy_request] once it owns a pending approval. *)
Record InlineRequest : Type := mkInline {
  inline_request : NetworkPolicyRequest;
  inline_call : option ActiveNetworkApprovalCall;
  inline_key : HostApprovalKey;
  inline_turn : ActiveTurn;
  inline_owner : PendingHostApprovalOwner;
}.

Definition inline_protocol (x : InlineRequest) : NetworkApprovalProtocol := approval_protocol (pr_protocol (inline_request x)).
Definition inline_target (x : InlineRequest) : str :=
  format_network_target (hk_protocol (inline_key x)) (pr_host (inline_request x)) (hk_port (inline_key x)).
Definition policy_denial_message (x : InlineRequest) : str := denial_message (inline_target x).
Definition inline_context (x : InlineRequest) : NetworkApprovalContext :=
  mkNetworkContext (pr_host (inline_request x)) (inline_protocol x).

Definition turn_uses_guardian (turn : ActiveTurn) : bool := routes_approval_policy_to_guardian (turn_policy turn) (turn_reviewer turn).

Definition environment_profile (turn : ActiveTurn) (environment_id : str) : option permission_profile :=
  snd <$> List.find (fun e => bool_decide (e.1 = environment_id)) (turn_environments turn).

(** Nobody may be asked: an unmanaged profile, or a policy that never asks. *)
Definition not_reviewable (x : InlineRequest) : bool :=
  let profile :=
    match inline_call x with
    | Some call => Some (call_permission_profile call)
    | None => environment_profile (inline_turn x) (hk_environment_id (inline_key x))
    end in
  negb (from_option permission_profile_allows_network_approval_flow false profile)
  || negb (allows_network_approval_flow (turn_policy (inline_turn x))).

Definition refuse (x : InlineRequest) (outcome : NetworkApprovalOutcome) : prog NetworkDecision :=
  record_for (inline_call x) outcome;;
  complete (inline_owner x) DenyRequest;;
  mret not_allowed.

Definition ask_hooks (x : InlineRequest) : prog (option PermissionRequestDecision) :=
  let id := approval_id_for_key (inline_key x) in
  let suffix := match inline_call x with Some call => id ++ lit "#" ++ call_registration_id call | None => id end in
  let description := lit "network-access " ++ inline_target x in
  let command := match inline_call x with Some call => call_command call | None => description end in
  perform (OHook (owner_key (inline_owner x)) suffix command description).

(** The automatic review, or the question to the user. *)
Definition ask_reviewer (x : InlineRequest) : prog ReviewDecision :=
  let id := approval_id_for_key (inline_key x) in
  let key := owner_key (inline_owner x) in
  if turn_uses_guardian (inline_turn x) then
    decision ← perform (OGuardian key id (pk_turn_id key) (inline_target x) (pr_host (inline_request x)) (inline_protocol x)
                          (hk_port (inline_key x)) (policy_denial_message x));
    mret (default REVIEW_FAILED decision)
  else
    unique ← perform OUuid;
    perform (OUser key (id ++ lit "#" ++ unique) (hk_environment_id (inline_key x)) [lit "network-access"; inline_target x]
               (pr_host (inline_request x) ++ lit " is not in the allowed_domains") (inline_context x)).

Definition commits (d : ReviewDecision) : bool :=
  match d with Approved | ApprovedExecpolicyAmendment _ | ApprovedForSession | NetworkAmendment _ => true | _ => false end.

Definition report_amendment (x : InlineRequest) (amendment : NetworkPolicyAmendment) (r : result unit str) : prog unit :=
  match r with
  | Ok _ => perform (OAmendmentMessage (turn_sub_id (inline_turn x)) amendment)
  | Err err => perform (OWarning (lit "Failed to apply network policy amendment: " ++ err))
  end.

Definition refused_by_policy (x : InlineRequest) : prog PendingApprovalDecision :=
  record_for (inline_call x) (DeniedByPolicy (policy_denial_message x));; mret DenyRequest.

(** The match on the decision. *)
Definition resolve_decision (x : InlineRequest) (approval_decision : ReviewDecision) : prog PendingApprovalDecision :=
  let key := inline_key x in
  let use_guardian := turn_uses_guardian (inline_turn x) in
  match approval_decision with
  | Approved | ApprovedExecpolicyAmendment _ =>
      denied ← perform (ODeniedContains key);
      if denied : bool then refused_by_policy x else mret AllowOnce
  | ApprovedForSession =>
      denied ← perform (ODeniedContains key);
      if denied : bool then refused_by_policy x
      else perform (OApprovedInsert key);; mret AllowForSession
  | NetworkAmendment amendment =>
      match amendment_action amendment with
      | RuleAllow =>
          r ← persist_network_policy_amendment amendment (inline_context x) (perform (OSetOnDrop AllowForSession));
          report_amendment x amendment r;;
          on_drop ← perform OOnDrop;
          if bool_decide (on_drop = AllowForSession) then
            perform (ODeniedRemove key);; perform (OApprovedInsert key);; mret AllowForSession
          else refused_by_policy x
      | RuleDeny =>
          r ← persist_network_policy_amendment amendment (inline_context x) (perform (OSetOnDrop DenyRequest));
          report_amendment x amendment r;;
          record_for (inline_call x) (DeniedByApproval (lit "rejected by user"));;
          perform (OApprovedRemove key);;
          perform (ODeniedInsert key);;
          mret DenyRequest
      end
  | Denied rejection =>
      record_for (inline_call x) (if use_guardian then DeniedByPolicy rejection else DeniedByApproval rejection);;
      mret DenyRequest
  | TimedOut =>
      record_for (inline_call x) (DeniedByPolicy GUARDIAN_TIMEOUT_INSTRUCTIONS);; mret DenyRequest
  | Aborted =>
      record_for (inline_call x) (if use_guardian then DeniedByPolicy (lit "automatic approval review was cancelled")
                                  else DeniedByApproval (lit "rejected by user"));;
      mret DenyRequest
  end.

Definition commit_decision (x : InlineRequest) (approval_decision : ReviewDecision) : prog NetworkDecision :=
  (if commits approval_decision then perform OLockCommit else mret tt);;
  resolved ← resolve_decision x approval_decision;
  perform (OSetOnDrop resolved);;
  complete (inline_owner x) resolved;;
  (if commits approval_decision then perform OUnlockCommit else mret tt);;
  mret (to_network_decision resolved).

(** The request that owns the pending approval. *)
Definition review_request (x : InlineRequest) : prog NetworkDecision :=
  if not_reviewable x then refuse x (DeniedByPolicy (policy_denial_message x))
  else
    hook ← ask_hooks x;
    match hook with
    | Some (HookDeny message) => refuse x (DeniedByPolicy message)
    | Some HookAllow => commit_decision x Approved
    | None => approval_decision ← ask_reviewer x; commit_decision x approval_decision
    end.

Definition pending_key (key : HostApprovalKey) (turn : ActiveTurn) (call : option ActiveNetworkApprovalCall) : PendingHostApprovalKey :=
  mkPendingKey key (match call with Some call => call_turn_id call | None => turn_sub_id turn end) (call_registration_id <$> call).

Definition handle_inline_policy_request (request : NetworkPolicyRequest) : prog NetworkDecision :=
  let protocol := approval_protocol (pr_protocol request) in
  attribution ← perform (OAttribute request);
  match attribution with
  | None => mret not_allowed
  | Some (mkAttribution owner_call active_environment_id) =>
      turn ← perform OActiveTurn;
      let primary := turn ≫= (fun turn => fst <$> head (turn_environments turn)) in
      match (match active_environment_id with Some e => Some e | None => primary end) with
      | None => mret not_allowed
      | Some environment_id =>
          let key := from_request request protocol environment_id in
          known ← remembered key;
          match known with
          | Some decision => mret decision
          | None =>
              match turn with
              | None =>
                  record_for owner_call
                    (DeniedByPolicy (denial_message (format_network_target (hk_protocol key) (pr_host request) (hk_port key))));;
                  mret not_allowed
              | Some turn =>
                  let pending_key := pending_key key turn owner_call in
                  let token := call_token <$> owner_call in
                  joined ← perform (OJoin pending_key token);
                  let '(pending, is_owner) := joined in
                  if negb is_owner then decision ← perform (OWait pending); mret (to_network_decision decision)
                  else review_request (mkInline request owner_call key turn (mkOwner pending_key pending token))
              end
          end
      end
  end.

(** [build_network_policy_decider]. *)
Definition network_policy_decider (request : NetworkPolicyRequest) : prog NetworkDecision :=
  session ← perform OUpgradeSession;
  if session : bool then handle_inline_policy_request request else mret ask_not_allowed.

(** ** Calls that are made and finished *)

(** [ActiveNetworkApproval], with the proxy of the execution as the result of making it. *)
Record BegunApproval : Type := mkBegun { begun_registration : str; begun_mode : NetworkApprovalMode; begun_token : nat }.

Definition begin_network_approval {Proxy} (turn_id : str) (managed_network_active : bool) (spec : option (NetworkApprovalSpec Proxy))
  : prog (result (option BegunApproval) ToolError) :=
  match spec with
  | None => mret (Ok None)
  | Some spec =>
      match spec_network spec with
      | None => mret (Ok None)
      | Some _ =>
          if negb managed_network_active then mret (Ok None)
          else
            id ← perform OUuid;
            attribution_token ← perform OUuid;
            made ← perform (OForExecution (spec_environment spec) id attribution_token);
            match made with
            | Err err => mret (Err (Codex (OtherCodexErr (lit "failed to create execution-scoped network proxy: " ++ err))))
            | Ok _ =>
                token ← perform ONewToken;
                perform (OCalls _ (register_call (mkCall id turn_id (spec_command spec) (spec_environment spec) (spec_profile spec) token)));;
                mret (Ok (Some (mkBegun id (spec_mode spec) token)))
            end
      end
  end.

(** [DeferredNetworkApproval::finish]: the first to finish removes the call, the others
    read what it found. *)
Definition finish_deferred (id : str) (token : nat) (finish_outcome : option (option NetworkApprovalOutcome))
  : prog (option NetworkApprovalOutcome * option (result unit ToolError)) :=
  outcome ← match finish_outcome with Some outcome => mret outcome | None => finish_call_outcome id end;
  final ← outcome_or_abandoned outcome token;
  mret (outcome, network_approval_outcome_to_result final).

(** [sync_session_approved_hosts_to], at the service that receives the hosts. *)
Definition receive_approved_hosts (hosts : gset HostApprovalKey) : prog unit := perform (OApprovedReplace hosts).
