(* ===== verification/ApprovalTasks.v ===== *)
(** * The tasks of the network approval service

    Tasks run the programs of [NetworkApproval] on the shared service, one operation at a
    time and in any order; a future that waits may be dropped.  This file has the system
    of tasks, the invariant of the service, what a task relies on of the others ([rely]),
    that every operation keeps both, and the rules to verify a program against them
    ([wp]); [ApprovalSafety] verifies the programs. *)

From Stdlib Require Import Lia.
From stdpp Require Import gmap relations.
From S2P Require Import Prelude RustStr PatchSyntax NetworkPolicy NetworkState NetworkProxy.
From S2P Require Import ExecPolicy Profile Approval SandboxPolicies ToolApproval Orchestrator Runtimes NetworkApproval.

(** ** Tasks *)

(** What the rest of the program calls. *)
Inductive api : Type :=
| Decide (request : NetworkPolicyRequest)
| Blocked (blocked : BlockedRequest)
| Begin (turn_id : str) (managed_network_active : bool) (spec : option (NetworkApprovalSpec unit))
| Finish (id : str) (token : nat)
| FinishDeferred (id : str) (token : nat) (finish_outcome : option (option NetworkApprovalOutcome))
| Unregister (id : str)
| Receive (hosts : gset HostApprovalKey).

Inductive answer : Type :=
| Decided (d : NetworkDecision)
| Begun (r : result (option BegunApproval) ToolError)
| Finished (r : option (result unit ToolError))
| Returned
| Dropped.

Definition body (a : api) : prog answer :=
  match a with
  | Decide request => d ← network_policy_decider request; mret (Decided d)
  | Blocked b => record_blocked_request b;; mret Returned
  | Begin turn_id active spec => r ← begin_network_approval turn_id active spec; mret (Begun r)
  | Finish id token => r ← finish_call id token; mret (Finished r)
  | FinishDeferred id token c => r ← finish_deferred id token c; mret (Finished r.2)
  | Unregister id => finish_call_outcome id;; mret Returned
  | Receive hosts => receive_approved_hosts hosts;; mret Returned
  end.

(** A task, with the service as it was when the task was started. *)
Record task : Type := mkTask { task_api : api; born : NetworkApprovalService; code : prog answer }.

Record system : Type := mkSystem { service : NetworkApprovalService; tasks : gmap nat task; next_task : nat }.

Definition new_system : system := mkSystem new_service ∅ 0.

Inductive choice : Type := Start (a : api) | Run (t : nat) (i : input) | Drop (t : nat).

Definition with_code (s : system) (sv : NetworkApprovalService) (t : nat) (tk : task) (p : prog answer) : system :=
  mkSystem sv (<[t := mkTask (task_api tk) (born tk) p]> (tasks s)) (next_task s).

Definition step (c : choice) (s : system) : option system :=
  match c with
  | Start a => Some (mkSystem (service s) (<[next_task s := mkTask a (service s) (body a)]> (tasks s)) (S (next_task s)))
  | Run t i =>
      let! tk := tasks s !! t in
      match code tk with
      | Ret _ => None
      | Do o k =>
          match performs t o i (service s) with
          | Some (sv, x) => Some (with_code s sv t tk (k x))
          | None => None
          end
      end
  | Drop t =>
      let! tk := tasks s !! t in
      match code tk with
      | Do o _ => if awaits o then Some (with_code s (service s) t tk (drop_task t (service s);; mret Dropped)) else None
      | Ret _ => None
      end
  end.

Definition steps : relation system := fun s s' => exists c, step c s = Some s'.

Fixpoint schedule (cs : list choice) (s : system) : option system :=
  match cs with [] => Some s | c :: cs => let! s' := step c s in schedule cs s' end.

Lemma schedule_steps cs s s' : schedule cs s = Some s' -> rtc steps s s'.
Proof.
  revert s. induction cs as [|c cs IH]; intros s Hs; simpl in Hs; [by injection Hs as ->|].
  destruct (step c s) as [s1|] eqn:E; [|done]. eapply rtc_l; [by exists c | by apply IH].
Qed.

(** ** What was granted *)

Definition says_yes (d : ReviewDecision) : bool :=
  match d with Approved | ApprovedExecpolicyAmendment _ | ApprovedForSession => true | _ => false end.

(** The user agreed to allow the host of this very question by an amendment, and the
    amendment took effect. *)
Definition applied (o : PendingHostApprovalOwner) (s : NetworkApprovalService) : Prop :=
  AllowApplied o ∈ events s
  /\ exists a, Answered (owner_key o) (NetworkAmendment a) ∈ events s /\ amendment_action a = RuleAllow.

(** A hook, the reviewer or the user agreed to this very question. *)
Definition granted (key : PendingHostApprovalKey) (s : NetworkApprovalService) : Prop :=
  (exists d, Answered key d ∈ events s /\ says_yes d = true) \/ exists o, owner_key o = key /\ applied o s.

(** The host was allowed for the session, here or in the session it was taken over from. *)
Definition session_granted (host : HostApprovalKey) (s : NetworkApprovalService) : Prop :=
  host ∈ received s
  \/ (exists key, pk_host key = host /\ Answered key ApprovedForSession ∈ events s)
  \/ exists o, pk_host (owner_key o) = host /\ applied o s.

(** ** Denials that stand *)

Definition allows (host : HostApprovalKey) (e : event) : bool :=
  match e with AllowApplied o => bool_decide (pk_host (owner_key o) = host) | _ => false end.

Definition denies (host : HostApprovalKey) (e : event) : bool :=
  match e with DenialRecorded h => bool_decide (h = host) | _ => false end.

(** A denial stands from when it is recorded until an amendment that allows the host takes
    effect. *)
Definition standing (host : HostApprovalKey) (l : list event) : bool :=
  fold_left (fun b e => (b || denies host e) && negb (allows host e)) l false.
Arguments standing : simpl never.

(** Such an amendment took effect since the trace was [before]. *)
Definition lifted_since (host : HostApprovalKey) (before : list event) (s : NetworkApprovalService) : Prop :=
  exists rest, events s = before ++ rest /\ Exists (fun e => allows host e = true) rest.

Lemma standing_snoc host l e : standing host (l ++ [e]) = (standing host l || denies host e) && negb (allows host e).
Proof. unfold standing. by rewrite fold_left_app. Qed.

Lemma standing_kept host l rest :
  standing host l = true -> Forall (fun e => allows host e = false) rest -> standing host (l ++ rest) = true.
Proof.
  intros Hl. induction rest as [|e rest IH] using rev_ind; [by rewrite app_nil_r|].
  intros [Hr He]%Forall_app. apply Forall_cons_1 in He as [He _]. by rewrite app_assoc, standing_snoc, IH, He.
Qed.

Lemma standing_lifted host l s :
  standing host l = true -> l `prefix_of` events s -> standing host (events s) = false -> lifted_since host l s.
Proof.
  intros Hl [rest Hs] Hn. exists rest. split; [done|].
  destruct (decide (Exists (fun e => allows host e = true) rest)) as [Hx|Hx]; [done|]. exfalso.
  enough (standing host (l ++ rest) = true) by congruence. apply standing_kept; [done|].
  apply Forall_forall. intros e He. apply not_true_is_false. intros Ha. apply Hx, Exists_exists. eauto.
Qed.

(** Nothing that was added records a denial. *)
Definition harmless (l l' : list event) : Prop :=
  exists rest, l' = l ++ rest /\ Forall (fun e => forall host, denies host e = false) rest.

Lemma harmless_refl l : harmless l l.
Proof. exists []. by rewrite app_nil_r. Qed.

Lemma harmless_snoc l e : (forall host, denies host e = false) -> harmless l (l ++ [e]).
Proof. intros He. exists [e]. split; [done | by apply Forall_singleton]. Qed.

Lemma harmless_prefix l l' : harmless l l' -> l `prefix_of` l'.
Proof. intros (rest & -> & _). by exists rest. Qed.

Lemma harmless_standing host l l' : harmless l l' -> standing host l' = true -> standing host l = true.
Proof.
  intros (rest & -> & Hr). induction rest as [|e rest IH] using rev_ind; [by rewrite app_nil_r|].
  apply Forall_app in Hr as [Hr He]. apply Forall_cons_1 in He as [He _].
  rewrite app_assoc, standing_snoc, He, orb_false_r. intros [Hs _]%andb_true_iff. auto.
Qed.

#[export] Hint Resolve harmless_refl harmless_snoc harmless_prefix : core.

(** ** The invariant *)

Record inv (s : NetworkApprovalService) : Prop := {
  inv_pending key cell :
    pending_host_approvals s !! key = Some cell -> exists t o d, owners s !! t = Some (o, d) /\ owner_cell o = cell /\ owner_key o = key;
  inv_distinct t u o o' d d' :
    owners s !! t = Some (o, d) -> owners s !! u = Some (o', d') -> owner_cell o = owner_cell o' -> t = u;
  inv_owner t o d : owners s !! t = Some (o, d) -> made_for s !! owner_cell o = Some o /\ cells s !! owner_cell o = None;
  inv_made cell o :
    made_for s !! cell = Some o ->
    cell < next_cell s /\ owner_cell o = cell /\ (is_Some (cells s !! cell) \/ exists t d, owners s !! t = Some (o, d));
  inv_decided cell d : cells s !! cell = Some d -> is_Some (made_for s !! cell);
  inv_denied cell o token :
    made_for s !! cell = Some o -> cells s !! cell = Some DenyRequest -> execution_cancellation o = Some token -> token ∈ cancelled s;
  inv_allowed cell o d : made_for s !! cell = Some o -> cells s !! cell = Some d -> d <> DenyRequest -> granted (owner_key o) s;
  inv_approved host : host ∈ session_approved_hosts s -> session_granted host s;
  inv_caches host : host ∈ session_approved_hosts s -> host ∈ session_denied_hosts s -> host ∈ received s;
  inv_standing host : standing host (events s) = true -> host ∈ session_denied_hosts s;
}.

(** What task [t] may rely on while the others take steps. *)
Record rely (t : nat) (s s' : NetworkApprovalService) : Prop := {
  rely_owner : owners s' !! t = owners s !! t;
  rely_lock : commit_lock s' = Some t <-> commit_lock s = Some t;
  rely_denied : commit_lock s = Some t -> session_denied_hosts s' = session_denied_hosts s;
  rely_approved : commit_lock s = Some t -> session_approved_hosts s' ⊆ session_approved_hosts s ∪ received s';
  rely_events : events s `prefix_of` events s';
  rely_standing host : commit_lock s = Some t -> standing host (events s') = true -> standing host (events s) = true;
  rely_received : received s ⊆ received s';
  rely_cancelled : cancelled s ⊆ cancelled s';
  rely_made cell o : made_for s !! cell = Some o -> made_for s' !! cell = Some o;
  rely_cells cell d : cells s !! cell = Some d -> cells s' !! cell = Some d;
  rely_pending o d key :
    owners s !! t = Some (o, d) -> pending_host_approvals s' !! key = Some (owner_cell o) -> pending_host_approvals s !! key = Some (owner_cell o);
}.

Lemma rely_refl t s : rely t s s.
Proof. split; try done. intros _. apply union_subseteq_l. Qed.

Lemma rely_trans t s1 s2 s3 : rely t s1 s2 -> rely t s2 s3 -> rely t s1 s3.
Proof.
  intros H1 H2. split.
  - by rewrite (rely_owner _ _ _ H2), (rely_owner _ _ _ H1).
  - by rewrite (rely_lock _ _ _ H2), (rely_lock _ _ _ H1).
  - intros Hl. rewrite (rely_denied _ _ _ H2) by (by apply (rely_lock _ _ _ H1)). by apply H1.
  - intros Hl. pose proof (rely_approved _ _ _ H1 Hl) as Ha. pose proof (rely_received _ _ _ H2).
    pose proof (rely_approved _ _ _ H2 (proj2 (rely_lock _ _ _ H1) Hl)) as Hb. clear H1 H2. set_solver.
  - etrans; [by apply H1 | by apply H2].
  - intros host Hl Hs. apply (rely_standing _ _ _ H1); [done|]. apply (rely_standing _ _ _ H2); [by apply (rely_lock _ _ _ H1) | done].
  - etrans; [by apply H1 | by apply H2].
  - etrans; [by apply H1 | by apply H2].
  - intros cell o Hc. by apply H2, H1.
  - intros cell d Hc. by apply H2, H1.
  - intros o d key Ho Hp. eapply H1; [done|]. eapply H2; [by rewrite (rely_owner _ _ _ H1) | done].
Qed.

(** ** What an operation needs *)

Definition owning (t : nat) (o : PendingHostApprovalOwner) (d : PendingApprovalDecision) (s : NetworkApprovalService) : Prop :=
  owners s !! t = Some (o, d).

Definition publishable (t : nat) (o : PendingHostApprovalOwner) (d : PendingApprovalDecision) (s : NetworkApprovalService) : Prop :=
  match d with
  | DenyRequest => forall token, execution_cancellation o = Some token -> token ∈ cancelled s
  | _ => granted (owner_key o) s
         /\ (applied o s \/ commit_lock s = Some t /\ pk_host (owner_key o) ∉ session_denied_hosts s)
  end.

Definition pre (t : nat) (o : op) (s : NetworkApprovalService) : Prop :=
  match o with
  | OUnlockCommit => commit_lock s = Some t
  | ODeniedInsert host => commit_lock s = Some t /\ (host ∈ session_approved_hosts s -> host ∈ received s)
  | ODeniedRemove host => commit_lock s = Some t /\ standing host (events s) = false
  | OApprovedInsert host => commit_lock s = Some t /\ session_granted host s /\ host ∉ session_denied_hosts s
  | OJoin _ _ => owners s !! t = None
  | OWait cell => owners s !! t = None /\ is_Some (made_for s !! cell)
  | OOnDrop => is_Some (owners s !! t)
  | OPublish cell d =>
      exists ow dd, owning t ow dd s /\ owner_cell ow = cell /\ (forall key, pending_host_approvals s !! key <> Some cell) /\ publishable t ow d s
  | _ => True
  end.

(** Dropping the owner publishes its decision on drop. *)
Definition drop_ok (t : nat) (s : NetworkApprovalService) : Prop :=
  forall o d, owning t o d s -> d <> DenyRequest -> granted (owner_key o) s /\ applied o s.

(** Operations whose effect is within what the task relies on anyway. *)
Definition quiet (o : op) : bool :=
  match o with
  | OLockCommit | OUnlockCommit | ODeniedInsert _ | ODeniedRemove _ | OApprovedInsert _ | OJoin _ _ | OSetOnDrop _ | OPublish _ _ => false
  | _ => true
  end.

(** ** What only grows *)

Definition grows (P : NetworkApprovalService -> Prop) : Prop :=
  forall s s', events s `prefix_of` events s' -> received s ⊆ received s' -> P s -> P s'.

Lemma noted_grows e : grows (fun s => e ∈ events s).
Proof. intros s s' [rest ->] _ He. apply elem_of_app. by left. Qed.

Lemma applied_grows o : grows (applied o).
Proof. intros s s' He Hr (Ho & a & Ha & Hact). split; [by eapply noted_grows|]. exists a. split; [by eapply (noted_grows (Answered _ _)) | done]. Qed.

Lemma granted_grows key : grows (granted key).
Proof.
  intros s s' He Hr [(d & Hd & Hy)|(o & Ho & Ha)]; [left; exists d; split; [by eapply (noted_grows (Answered _ _)) | done]|].
  right. exists o. split; [done | by eapply applied_grows].
Qed.

Lemma session_granted_grows host : grows (session_granted host).
Proof.
  intros s s' He Hr [Hh|[(key & Hk & Hd)|(o & Ho & Ha)]]; [left; auto | right; left | right; right].
  - exists key. split; [done | by eapply (noted_grows (Answered _ _))].
  - exists o. split; [done | by eapply applied_grows].
Qed.

Lemma lifted_since_grows host before : grows (lifted_since host before).
Proof.
  intros s s' [more He] _ (rest & Hs & Hx). exists (rest ++ more). split; [by rewrite He, Hs, app_assoc|]. apply Exists_app. by left.
Qed.

(** ** Operations keep the invariant and what the others rely on *)

(** The fields that no owner, cell or cache looks at. *)
Lemma inv_same s s' :
  pending_host_approvals s' = pending_host_approvals s -> owners s' = owners s -> made_for s' = made_for s -> cells s' = cells s ->
  next_cell s' = next_cell s -> cancelled s ⊆ cancelled s' -> harmless (events s) (events s') -> received s ⊆ received s' ->
  session_approved_hosts s' = session_approved_hosts s -> session_denied_hosts s' = session_denied_hosts s -> inv s -> inv s'.
Proof.
  intros Ep Eo Em Ec En Hc Ha Hr Eap Ed I. split; rewrite ?Ep, ?Eo, ?Em, ?Ec, ?En, ?Eap, ?Ed.
  - apply I.
  - apply I.
  - apply I.
  - apply I.
  - apply I.
  - intros ??????. apply Hc. by eapply inv_denied.
  - intros cell o d ???. apply (granted_grows _ s); [by apply harmless_prefix|done|]. by eapply inv_allowed.
  - intros host Hh. apply (session_granted_grows _ s); [by apply harmless_prefix|done|]. by apply inv_approved.
  - intros host Hh Hd. by apply Hr, (inv_caches s).
  - intros host Hs. by apply (inv_standing s), (harmless_standing _ _ _ Ha).
Qed.

Lemma rely_same t s s' :
  owners s' !! t = owners s !! t -> (commit_lock s' = Some t <-> commit_lock s = Some t) -> 
  pending_host_approvals s' = pending_host_approvals s -> made_for s' = made_for s -> cells s' = cells s -> cancelled s ⊆ cancelled s' ->
  harmless (events s) (events s') -> received s ⊆ received s' ->
  session_approved_hosts s' = session_approved_hosts s -> session_denied_hosts s' = session_denied_hosts s -> rely t s s'.
Proof.
  intros Eo El Ep Em Ec Hc Ha Hr Eap Ed. split; rewrite ?Ep, ?Em, ?Ec, ?Eap, ?Ed; try done; auto.
  - intros _. apply union_subseteq_l.
  - intros host _. by apply harmless_standing.
Qed.

(** The caches change, and nothing else but the trace. *)
Lemma caches_guarantee t s s' :
  pending_host_approvals s' = pending_host_approvals s -> owners s' = owners s -> made_for s' = made_for s -> cells s' = cells s ->
  next_cell s' = next_cell s -> cancelled s' = cancelled s -> events s `prefix_of` events s' -> received s ⊆ received s' -> commit_lock s' = commit_lock s ->
  (session_denied_hosts s' = session_denied_hosts s \/ commit_lock s = Some t) ->
  (session_approved_hosts s' ⊆ session_approved_hosts s ∪ received s' \/ commit_lock s = Some t) ->
  (harmless (events s) (events s') \/ commit_lock s = Some t) ->
  (forall host, standing host (events s') = true -> host ∈ session_denied_hosts s') ->
  (forall host, host ∈ session_approved_hosts s' -> session_granted host s') ->
  (forall host, host ∈ session_approved_hosts s' -> host ∈ session_denied_hosts s' -> host ∈ received s') ->
  inv s -> inv s' /\ forall u, u <> t -> rely u s s'.
Proof.
  intros Ep Eo Em Ec En Eca Ea Hr El Hd Hap Hh Hst Hg Hc I. split; [split|]; rewrite ?Ep, ?Eo, ?Em, ?Ec, ?En, ?Eca; try apply I; try done.
  - intros cell o d ???. apply (granted_grows _ s); [done..|]. by eapply inv_allowed.
  - intros u Hu. assert (forall A : Prop, commit_lock s = Some u -> A \/ commit_lock s = Some t -> A) as Hlock.
    { intros A Hl [|Hl']; [done|]. rewrite Hl in Hl'. by injection Hl'. }
    split; rewrite ?Ep, ?Eo, ?Em, ?Ec, ?Eca, ?El; try done.
    + intros Hl. by apply (Hlock _ Hl).
    + intros Hl. by apply (Hlock _ Hl).
    + intros host Hl. by apply harmless_standing, (Hlock _ Hl).
Qed.

(** [OJoin] makes a cell, its owner and its entry. *)
Lemma join_guarantee t key token i s s' x :
  inv s -> pre t (OJoin key token) s -> performs t (OJoin key token) i s = Some (s', x) -> inv s' /\ forall u, u <> t -> rely u s s'.
Proof.
  intros I Hn Hp. simpl in Hn, Hp. unfold get_or_create_pending_approval in Hp.
  destruct (pending_host_approvals s !! key) as [cell|] eqn:E; injection Hp as <- <-.
  { split; [done|]. intros u _. apply rely_refl. }
  assert (forall u o d, owners s !! u = Some (o, d) -> u <> t /\ owner_cell o < next_cell s) as Hlt.
  { intros u o d Ho. split; [by intros ->; rewrite Hn in Ho|]. apply inv_owner in Ho as [Ho _]; [|done]. by apply inv_made in Ho as []. }
  assert (made_for s !! next_cell s = None) as Hfresh.
  { destruct (made_for s !! next_cell s) as [o|] eqn:Em; [|done]. apply inv_made in Em as [? _]; [lia | done]. }
  assert (cells s !! next_cell s = None) as Hopen.
  { destruct (cells s !! next_cell s) as [o|] eqn:Em; [|done]. apply inv_decided in Em as [? ?]; [congruence | done]. }
  split; [split; cbn|].
  - intros k c [[<- <-]|[Hk Hc]]%lookup_insert_Some; [eexists t, _, _; split; [apply lookup_insert_eq | done]|].
    destruct (inv_pending _ I _ _ Hc) as (u & o & d & Ho & ?). exists u, o, d. split; [|done].
    rewrite lookup_insert_ne; [done|]. by apply Hlt in Ho as [? _].
  - intros u v o o' d d' Hu Hv Hc. apply lookup_insert_Some in Hu as [[<- [= <- <-]]|[? Hu]], Hv as [[<- [= <- <-]]|[? Hv]]; try done.
    + apply Hlt in Hv as [_ Hv]. simpl in Hc. lia.
    + apply Hlt in Hu as [_ Hu]. simpl in Hc. lia.
    + by eapply inv_distinct.
  - intros u o d [[<- [= <- <-]]|[? Hu]]%lookup_insert_Some; [by rewrite lookup_insert_eq|].
    rewrite lookup_insert_ne by (apply Hlt in Hu as [_ Hu]; lia). by eapply inv_owner.
  - intros c o [[<- <-]|[? Hc]]%lookup_insert_Some.
    + split; [lia|]. split; [done|]. right. exists t, DenyRequest. apply lookup_insert_eq.
    + apply inv_made in Hc as (? & ? & Hc); [|done]. split; [lia|]. split; [done|].
      destruct Hc as [Hc|(u & d & Hu)]; [by left | right; exists u, d]. rewrite lookup_insert_ne; [done|]. by apply Hlt in Hu as [? _].
  - intros c d Hc. rewrite lookup_insert_ne by congruence. by eapply inv_decided.
  - intros c o tok [[<- <-]|[? Hm]]%lookup_insert_Some Hc; [congruence | by eapply inv_denied].
  - intros c o d [[<- <-]|[? Hm]]%lookup_insert_Some Hc; [congruence | exact (inv_allowed _ I _ _ _ Hm Hc)].
  - apply (inv_approved _ I).
  - apply (inv_caches _ I).
  - apply (inv_standing _ I).
  - intros u Hu. split; cbn; try done.
    + by rewrite lookup_insert_ne.
    + intros _. apply union_subseteq_l.
    + intros c o Hc. rewrite lookup_insert_ne by congruence. done.
    + intros o d k Ho [[<- Hc]|[? Hc]]%lookup_insert_Some; [|done]. apply Hlt in Ho as [_ Ho]. lia.
Qed.

Lemma set_on_drop_guarantee t d i s s' x :
  inv s -> performs t (OSetOnDrop d) i s = Some (s', x) -> inv s' /\ forall u, u <> t -> rely u s s'.
Proof.
  intros I [= <- _]. set (os := alter _ t _).
  assert (forall u o d', os !! u = Some (o, d') -> exists d'', owners s !! u = Some (o, d'')) as Hold.
  { intros u o d' Hu. apply lookup_alter_Some in Hu as [(<- & [o' d''] & Ho & Heq)|[_ Hu]]; [injection Heq as -> _|]; eauto. }
  assert (forall u o d', owners s !! u = Some (o, d') -> exists d'', os !! u = Some (o, d'')) as Hnew.
  { intros u o d' Hu. destruct (decide (t = u)) as [<- | Hn].
    - exists d. unfold os. rewrite lookup_alter_eq, Hu. done.
    - exists d'. unfold os. by rewrite lookup_alter_ne. }
  split; [split; cbn; try apply I|].
  - intros k c (u & o & d' & Ho & ?)%(inv_pending _ I). apply Hnew in Ho as [d'' Ho]. eauto.
  - intros u v o o' d1 d2 [? Hu]%Hold [? Hv]%Hold. by eapply inv_distinct.
  - intros u o d' [? Hu]%Hold. by eapply inv_owner.
  - intros c o Hc. apply (inv_made _ I) in Hc as (? & ? & Hc). split; [done|]. split; [done|].
    destruct Hc as [Hc|(u & d' & Hu)]; [by left | right]. apply Hnew in Hu as [d'' Hu]. eauto.
  - intros u Hu. split; cbn; try done.
    + unfold os. by rewrite lookup_alter_ne.
    + intros _. apply union_subseteq_l.
Qed.

Lemma withdraw_guarantee t key cell i s s' x :
  inv s -> performs t (OWithdraw key cell) i s = Some (s', x) -> inv s' /\ forall u, rely u s s'.
Proof.
  intros I [= <- _]. unfold remove_generation. case_bool_decide as Hk; [|split; [done | intros u; apply rely_refl]]. split; [split; cbn; try apply I|].
  - intros k c [_ Hc]%lookup_delete_Some. by apply (inv_pending _ I).
  - intros u. split; cbn; try done.
    + intros _. apply union_subseteq_l.
    + intros o d k _ [_ Hc]%lookup_delete_Some. done.
Qed.

Lemma publish_guarantee t cell d i s s' x :
  inv s -> pre t (OPublish cell d) s -> performs t (OPublish cell d) i s = Some (s', x) -> inv s' /\ forall u, u <> t -> rely u s s'.
Proof.
  intros I (ow & dd & Ho & <- & Hw & Hd) Hp. cbn in Hp. unfold owning in Ho. destruct (inv_owner _ I _ _ _ Ho) as [Hm Hn]. unfold set_decision in Hp. cbn in Hp. rewrite Hn in Hp.
  injection Hp as <- _. split; [split; cbn; try apply I|].
  - intros k c Hc. destruct (inv_pending _ I _ _ Hc) as (u & o & d' & Hu & ? & ?). exists u, o, d'. split; [|done].
    rewrite lookup_delete_ne; [done|]. intros <-. rewrite Ho in Hu. injection Hu as <- <-. subst. by apply (Hw _) in Hc.
  - intros u v o o' d1 d2 [_ Hu]%lookup_delete_Some [_ Hv]%lookup_delete_Some. by eapply inv_distinct.
  - intros u o d' [Hne Hu]%lookup_delete_Some. rewrite lookup_insert_ne; [by eapply inv_owner|].
    intros Hc. apply Hne. by eapply inv_distinct.
  - intros c o Hc. apply (inv_made _ I) in Hc as (? & Hoc & Hc). split; [done|]. split; [done|].
    destruct Hc as [Hc|(u & d' & Hu)]; [left; apply lookup_insert_is_Some; destruct (decide (owner_cell ow = c)); auto|].
    destruct (decide (u = t)) as [-> | Hne].
    + left. rewrite Ho in Hu. injection Hu as <- <-. subst. rewrite lookup_insert_eq. eauto.
    + right. exists u, d'. by rewrite lookup_delete_ne.
  - intros c d' [[<- <-]|[? Hc]]%lookup_insert_Some; [by rewrite Hm | by eapply inv_decided].
  - intros c o tok Hc [[<- ->]|[? Hc']]%lookup_insert_Some Ht; [|by eapply inv_denied].
    rewrite Hm in Hc. injection Hc as <-. by apply Hd.
  - intros c o d' Hc [[<- <-]|[? Hc']]%lookup_insert_Some Ht; [|exact (inv_allowed _ I _ _ _ Hc Hc' Ht)].
    rewrite Hm in Hc. injection Hc as <-. by destruct d; [apply Hd..|].
  - intros u Hu. split; cbn; try done.
    + by rewrite lookup_delete_ne.
    + intros _. apply union_subseteq_l.
    + intros c d' Hc. rewrite lookup_insert_ne; [done | congruence].
Qed.

(** The calls, the tokens, the commit lock and the trace change, and nothing else. *)
Lemma same_guarantee t s s' :
  pending_host_approvals s' = pending_host_approvals s -> owners s' = owners s -> made_for s' = made_for s -> cells s' = cells s ->
  next_cell s' = next_cell s -> cancelled s ⊆ cancelled s' -> harmless (events s) (events s') -> received s' = received s ->
  session_approved_hosts s' = session_approved_hosts s -> session_denied_hosts s' = session_denied_hosts s ->
  (forall u, u <> t -> commit_lock s' = Some u <-> commit_lock s = Some u) -> inv s -> inv s' /\ forall u, u <> t -> rely u s s'.
Proof.
  intros Ep Eo Em Ec En Hc Ha Er Eap Ed Hl I. split.
  - eapply inv_same; try done. by rewrite Er.
  - intros u Hu. apply rely_same; try done; [by rewrite Eo | by apply Hl | by rewrite Er].
Qed.

(** Every operation keeps the invariant, and what the other tasks rely on. *)
Lemma performs_guarantee t o i s s' x :
  inv s -> pre t o s -> performs t o i s = Some (s', x) -> inv s' /\ forall u, u <> t -> rely u s s'.
Proof.
  intros I Hpre Hp. destruct o; try (by eapply join_guarantee); try (by eapply set_on_drop_guarantee);
    try (by eapply publish_guarantee); try (destruct (withdraw_guarantee _ _ _ _ _ _ _ I Hp); by split);
    cbn in Hpre, Hp; unfold note_applied in Hp; try (apply fmap_Some in Hp as (? & _ & Hp)); repeat case_match; simplify_eq;
    try (by split; [|intros; apply rely_refl]);
    try (apply same_guarantee; try done; cbn; first [apply union_subseteq_r | by apply harmless_snoc]; done).
  - apply same_guarantee; try done. intros u Hu. cbn. rewrite H. split; [intros [=]; congruence | done].
  - apply same_guarantee; try done. intros u Hu. cbn. rewrite Hpre. split; [done | intros [=]; congruence].
  - destruct Hpre as [Hl Ha]. apply (caches_guarantee t s); try done; cbn; [by eexists|by right|left; apply union_subseteq_l|by right| | |].
    + intros host. rewrite standing_snoc. simpl. rewrite andb_true_r. intros [Hs|Hs]%orb_true_iff; boolify; [apply (inv_standing _ I) in Hs|]; set_solver.
    + intros host Hh. apply (session_granted_grows _ s); [by eexists|done|by apply inv_approved].
    + intros host Hh [->%elem_of_singleton|Hd]%elem_of_union; [auto | by eapply inv_caches].
  - destruct Hpre as [Hl Ha]. apply (caches_guarantee t s); try done; cbn; [by right|left; apply union_subseteq_l|by left| |apply I|].
    + intros host Hs. pose proof (inv_standing _ I _ Hs). assert (host <> key) by congruence. set_solver.
    + intros host Hh [Hd _]%elem_of_difference. by eapply inv_caches.
  - destruct Hpre as (Hl & Hg & Hd). apply (caches_guarantee t s); try done; cbn; [by left|by right|by left|apply I| |].
    + intros host [->%elem_of_singleton|Hh]%elem_of_union; [done | by apply (inv_approved s)].
    + intros host [->%elem_of_singleton|Hh]%elem_of_union Hx; [done | by eapply inv_caches].
  - apply (caches_guarantee t s); try done; cbn; [by left|left; set_solver|by left|apply I| |].
    + intros host [Hh _]%elem_of_difference. by apply (inv_approved s).
    + intros host [Hh _]%elem_of_difference Hx. by eapply inv_caches.
  - apply (caches_guarantee t s); try done; cbn; [apply union_subseteq_r|by left|left; set_solver|by left|apply I| |].
    + intros host Hh. left. cbn. set_solver.
    + intros host Hh _. set_solver.
Qed.

(** A quiet operation does nothing that its own task does not expect of others. *)
Lemma quiet_rely t o i s s' x : inv s -> quiet o = true -> performs t o i s = Some (s', x) -> rely t s s'.
Proof.
  intros I Hq Hp. destruct o; try done; try (by eapply withdraw_guarantee); cbn in Hp; unfold note_applied in Hp;
    try (apply fmap_Some in Hp as (? & _ & Hp)); repeat case_match; simplify_eq; try apply rely_refl;
    try (apply rely_same; try done; cbn; first [apply union_subseteq_r | by apply harmless_snoc]).
  - split; cbn; try done. set_solver.
  - split; cbn; try done; set_solver.
Qed.

(** An approval is published only for a host that is not denied, or after an amendment. *)
Lemma performs_decides t o i s s' x cell ow d :
  inv s -> pre t o s -> performs t o i s = Some (s', x) ->
  cells s !! cell = None -> cells s' !! cell = Some d -> d <> DenyRequest -> made_for s' !! cell = Some ow ->
  applied ow s \/ pk_host (owner_key ow) ∉ session_denied_hosts s.
Proof.
  intros I Hpre Hp Hn Hc Hd Hm. assert (forall s1, s1 = s' -> cells s1 = cells s -> False) as Hsame by (intros ? -> ?; congruence).
  destruct o; cbn in Hp; unfold note_applied, get_or_create_pending_approval, remove_generation, set_decision in Hp; cbn in Hp;
    try (apply fmap_Some in Hp as (? & _ & Hp)); repeat case_match; simplify_eq; try done;
    try (exfalso; by eapply Hsame; [reflexivity|]; cbn); cbn in *; repeat case_match; try congruence.
  destruct Hpre as (o & dd & Ho & <- & _ & Hpub). apply lookup_insert_Some in Hc as [[<- <-]|[_ Hc]]; [|congruence].
  apply (inv_owner _ I) in Ho as [Ho _]. rewrite Ho in Hm. injection Hm as ->.
  unfold publishable in Hpub. case_match; [destruct Hpub as [_ [Ha|[_ Ha]]]; first [by left | by right]..|done].
Qed.

(** ** Verification of programs *)

(** From [s], program [p] of task [t] has what each operation needs, however the other
    tasks interfere, can be dropped where it waits, and returns with [Q]. *)
Fixpoint wp {A} (t : nat) (p : prog A) (Q : A -> NetworkApprovalService -> Prop) (s : NetworkApprovalService) : Prop :=
  match p with
  | Ret a => forall s1, rely t s s1 -> inv s1 -> Q a s1
  | Do o k => forall s1, rely t s s1 -> inv s1 ->
      pre t o s1 /\ (awaits o = true -> drop_ok t s1) /\ forall i s2 x, performs t o i s1 = Some (s2, x) -> wp t (k x) Q s2
  end.

Lemma wp_rely {A} t (p : prog A) Q s s' : rely t s s' -> wp t p Q s -> wp t p Q s'.
Proof. intros Hr. destruct p; simpl; intros Hw s1 Hr1 Hi; apply Hw; eauto using rely_trans. Qed.

Lemma wp_mono {A} t (p : prog A) (Q Q' : A -> NetworkApprovalService -> Prop) s :
  wp t p Q s -> (forall a s', inv s' -> Q a s' -> Q' a s') -> wp t p Q' s.
Proof.
  intros Hw HQ. revert s Hw. induction p as [a|o k IH]; simpl; intros s Hw s1 Hr Hi; [auto|].
  destruct (Hw s1 Hr Hi) as (Hp & Hd & Hk). split; [done|]. split; [done|]. eauto.
Qed.

Lemma wp_bind {A B} t (p : prog A) (f : A -> prog B) Q s : wp t p (fun a s' => wp t (f a) Q s') s -> wp t (p ≫= f) Q s.
Proof.
  revert s. induction p as [a|o k IH]; simpl; intros s Hw.
  - change (wp t (f a) Q s). destruct (f a) as [b|o' k']; simpl in *; intros s1 Hr Hi; by apply (Hw s1 Hr Hi s1 (rely_refl _ _)).
  - intros s1 Hr Hi. destruct (Hw s1 Hr Hi) as (Hp & Hd & Hk). split; [done|]. split; [done|]. intros i s2 x Hx. apply IH. by eapply Hk.
Qed.

(** What the others leave as it is. *)
Class stable (t : nat) (P : NetworkApprovalService -> Prop) : Prop := stable_rely s s' : rely t s s' -> P s -> P s'.

#[export] Instance stable_and t P P' : stable t P -> stable t P' -> stable t (fun s => P s /\ P' s).
Proof. intros H1 H2 s s' Hr [HP HP']. split; eapply stable_rely; eauto. Qed.
#[export] Instance stable_const t (P : Prop) : stable t (fun _ => P).
Proof. by intros s s' _. Qed.
#[export] Instance stable_forall {A} t (P : A -> NetworkApprovalService -> Prop) : (forall a, stable t (P a)) -> stable t (fun s => forall a, P a s).
Proof. intros H1 s s' Hr HP a. eapply (H1 a); eauto. Qed.
#[export] Instance stable_granted t key : stable t (granted key).
Proof. intros s s' Hr. apply granted_grows; apply Hr. Qed.
#[export] Instance stable_session_granted t host : stable t (session_granted host).
Proof. intros s s' Hr. apply session_granted_grows; apply Hr. Qed.
#[export] Instance stable_applied t o : stable t (applied o).
Proof. intros s s' Hr. apply applied_grows; apply Hr. Qed.
#[export] Instance stable_lifted t host before : stable t (lifted_since host before).
Proof. intros s s' Hr. apply lifted_since_grows; apply Hr. Qed.
#[export] Instance stable_prefix t l : stable t (fun s => l `prefix_of` events s).
Proof. intros s s' Hr Hl. etrans; [done | apply Hr]. Qed.
#[export] Instance stable_noted t e : stable t (fun s => e ∈ events s).
Proof. intros s s' Hr. apply (noted_grows e); apply Hr. Qed.
#[export] Instance stable_owning t o d : stable t (owning t o d).
Proof. intros s s' Hr. unfold owning. by rewrite (rely_owner _ _ _ Hr). Qed.
#[export] Instance stable_cancelled t token : stable t (fun s => token ∈ cancelled s).
Proof. intros s s' Hr. apply Hr. Qed.
#[export] Instance stable_made t cell o : stable t (fun s => made_for s !! cell = Some o).
Proof. intros s s' Hr. apply Hr. Qed.

(** The task owns nothing; holds the commit lock while the host is not denied, or not
    approved here; owns a generation that is no longer pending. *)
Definition ownerless (t : nat) (s : NetworkApprovalService) : Prop := owners s !! t = None.
Definition clear_of (t : nat) (host : HostApprovalKey) (s : NetworkApprovalService) : Prop :=
  commit_lock s = Some t /\ host ∉ session_denied_hosts s.
Definition unapproved (t : nat) (host : HostApprovalKey) (s : NetworkApprovalService) : Prop :=
  commit_lock s = Some t /\ (host ∈ session_approved_hosts s -> host ∈ received s).
Definition withdrawn (t : nat) (o : PendingHostApprovalOwner) (d : PendingApprovalDecision) (s : NetworkApprovalService) : Prop :=
  owning t o d s /\ forall key, pending_host_approvals s !! key <> Some (owner_cell o).

#[export] Instance stable_ownerless t : stable t (ownerless t).
Proof. intros s s' Hr Ho. unfold ownerless. by rewrite (rely_owner _ _ _ Hr). Qed.
#[export] Instance stable_clear t host : stable t (clear_of t host).
Proof. intros s s' Hr [Hl Hd]. split; [by apply Hr | by rewrite (rely_denied _ _ _ Hr)]. Qed.
#[export] Instance stable_unapproved t host : stable t (unapproved t host).
Proof.
  intros s s' Hr [Hl Ha]. split; [by apply Hr|]. intros Hh. apply (rely_approved _ _ _ Hr Hl) in Hh as [Hh|Hh]%elem_of_union; [|done].
  by apply (rely_received _ _ _ Hr), Ha.
Qed.
#[export] Instance stable_withdrawn t o d : stable t (withdrawn t o d).
Proof.
  intros s s' Hr [Ho Hw]. split; [by eapply stable_owning|]. intros key Hk. apply (Hw key). by eapply (rely_pending _ _ _ Hr).
Qed.

Section Rules.
Context {A : Type} (t : nat) (P : NetworkApprovalService -> Prop) `{!stable t P} (Q : A -> NetworkApprovalService -> Prop).

Lemma wp_ret a s : P s -> (forall s1, inv s1 -> P s1 -> Q a s1) -> wp t (Ret a) Q s.
Proof. intros HP HQ s1 Hr Hi. apply HQ; [done|]. by eapply stable_rely. Qed.

Lemma wp_do o k s :
  P s -> (forall s1, inv s1 -> P s1 -> pre t o s1 /\ (awaits o = true -> drop_ok t s1)) ->
  (forall i s1 s2 x, inv s1 -> P s1 -> inv s2 -> performs t o i s1 = Some (s2, x) -> wp t (k x) Q s2) -> wp t (Do o k) Q s.
Proof.
  intros HP Hpre Hk s1 Hr Hi. assert (P s1) as HP1 by (by eapply stable_rely). destruct (Hpre s1 Hi HP1) as [Hp Hd].
  split; [done|]. split; [done|]. intros i s2 x Hx. destruct (performs_guarantee _ _ _ _ _ _ Hi Hp Hx). eauto.
Qed.

Lemma wp_quiet o k s :
  quiet o = true -> P s -> (forall s1, inv s1 -> P s1 -> pre t o s1 /\ (awaits o = true -> drop_ok t s1)) ->
  (forall i s1 s2 x, inv s1 -> P s1 -> performs t o i s1 = Some (s2, x) -> P s2 -> wp t (k x) Q s2) -> wp t (Do o k) Q s.
Proof.
  intros Hq HP Hpre Hk. apply wp_do; [done..|]. intros i s1 s2 x Hi HP1 _ Hx. eapply Hk; [done..|].
  eapply stable_rely; [|done]. by eapply quiet_rely.
Qed.
End Rules.

Lemma wp_perform t (P : NetworkApprovalService -> Prop) (o : op) (Q : resp o -> NetworkApprovalService -> Prop) s :
  stable t P -> (forall x, stable t (Q x)) -> P s -> (forall s1, inv s1 -> P s1 -> pre t o s1 /\ (awaits o = true -> drop_ok t s1)) ->
  (forall i s1 s2 x, inv s1 -> P s1 -> performs t o i s1 = Some (s2, x) -> (quiet o = true -> P s2) -> Q x s2) -> wp t (perform o) Q s.
Proof.
  intros HsP HsQ HP Hpre HQ. apply (wp_do t P); [done..|]. intros i s1 s2 x Hi HP1 _ Hx. intros s3 Hr _. eapply stable_rely; [done|].
  eapply HQ; [done..|]. intros Hq. eapply stable_rely; [|done]. by eapply quiet_rely.
Qed.

(** A quiet operation that is nobody's business. *)
Lemma wp_pass t (P : NetworkApprovalService -> Prop) (o : op) s :
  stable t P -> quiet o = true -> P s -> (forall s1, inv s1 -> P s1 -> pre t o s1 /\ (awaits o = true -> drop_ok t s1)) ->
  wp t (perform o) (fun _ => P) s.
Proof. intros. apply (wp_perform t P); auto. Qed.

Lemma performs_grows t o i s s' x : performs t o i s = Some (s', x) -> events s `prefix_of` events s' /\ received s ⊆ received s'.
Proof.
  intros Hp. destruct o; cbn in Hp; unfold note_applied, get_or_create_pending_approval, remove_generation, set_decision in Hp;
    try (apply fmap_Some in Hp as (? & _ & Hp)); repeat case_match; simplify_eq; try done;
    cbn; repeat case_match; split; first [done | by eexists | apply union_subseteq_r].
Qed.

Lemma wp_frame {A} t (p : prog A) Q (P : NetworkApprovalService -> Prop) s :
  grows P -> P s -> wp t p Q s -> wp t p (fun a s' => Q a s' /\ P s') s.
Proof.
  intros Hg. revert s. induction p as [a|o k IH]; simpl; intros s HP Hw s1 Hr Hi;
    (assert (P s1) by (eapply Hg; [apply Hr..|done])); [auto|].
  destruct (Hw s1 Hr Hi) as (Hp & Hd & Hk). split; [done|]. split; [done|]. intros i s2 x Hx. eapply IH; [|by eapply Hk].
  destruct (performs_grows _ _ _ _ _ _ Hx). by eapply Hg.
Qed.
