(* ===== verification/ApprovalSafety.v ===== *)
(** * Safety of network approvals

    Every program of [NetworkApproval] is verified with the rules of [ApprovalTasks], and
    so every state the system of tasks can reach is good.  The theorems: who is allowed,
    what a denial stops, and that nobody waits for a decision that cannot come. *)

From Stdlib Require Import Lia.
From stdpp Require Import gmap relations.
From S2P Require Import Prelude RustStr PatchSyntax NetworkPolicy NetworkState NetworkProxy.
From S2P Require Import ExecPolicy Profile Approval Permissions SandboxPolicies ToolApproval Orchestrator Runtimes NetworkApproval ApprovalTasks.

(** ** Programs *)

(** *** Owners *)

Definition lock_is (t : nat) (b : bool) (s : NetworkApprovalService) : Prop := commit_lock s = Some t <-> b = true.

(** Deciding for [o] without looking at the denials: its amendment was agreed to and took
    effect, and while the task holds the commit lock no denial of the host stands. *)
Definition ready (t : nat) (o : PendingHostApprovalOwner) (s : NetworkApprovalService) : Prop :=
  applied o s /\ (commit_lock s = Some t -> standing (pk_host (owner_key o)) (events s) = false).

(** The task owns [o], and may be dropped. *)
Definition safe_owner (t : nat) (o : PendingHostApprovalOwner) (s : NetworkApprovalService) : Prop :=
  exists d, owning t o d s /\ (d <> DenyRequest -> ready t o s).

Definition answered (key : PendingHostApprovalKey) (d : ReviewDecision) (s : NetworkApprovalService) : Prop := Answered key d ∈ events s.

Definition approvable (t : nat) (o : PendingHostApprovalOwner) (s : NetworkApprovalService) : Prop :=
  granted (owner_key o) s /\ (applied o s \/ clear_of t (pk_host (owner_key o)) s).

#[export] Instance stable_or t P P' : stable t P -> stable t P' -> stable t (fun s => P s \/ P' s).
Proof. intros H1 H2 s s' Hr [HP|HP]; [left | right]; eapply stable_rely; eauto. Qed.
#[export] Instance stable_lock_is t b : stable t (lock_is t b).
Proof. intros s s' Hr Hl. unfold lock_is. by rewrite (rely_lock _ _ _ Hr). Qed.
#[export] Instance stable_answered t key d : stable t (answered key d).
Proof. apply stable_noted. Qed.
#[export] Instance stable_ready t o : stable t (ready t o).
Proof.
  intros s s' Hr [Ha Hl]. split; [by eapply stable_applied|]. intros Hl'%(rely_lock _ _ _ Hr).
  apply not_true_is_false. intros Hs%(rely_standing _ _ _ Hr); [|done]. rewrite Hl in Hs; done.
Qed.
#[export] Instance stable_safe_owner t o : stable t (safe_owner t o).
Proof. intros s s' Hr (d & Ho & Hd). exists d. split; [by eapply stable_owning|]. intros Hn. eapply stable_ready; eauto. Qed.
#[export] Instance stable_approvable t o : stable t (approvable t o).
Proof. unfold approvable. apply _. Qed.

Lemma applied_granted o s : applied o s -> granted (owner_key o) s.
Proof. intros Ha. right. by exists o. Qed.

Lemma safe_owner_drops t o s : safe_owner t o s -> drop_ok t s.
Proof.
  intros (d & Ho & Hd) o' d' Ho' Hn. unfold owning in *. rewrite Ho in Ho'. injection Ho' as <- <-.
  destruct (Hd Hn) as [Ha _]. split; [by apply applied_granted | done].
Qed.

Lemma owning_safe t o s : owning t o DenyRequest s -> safe_owner t o s.
Proof. intros Ho. by exists DenyRequest. Qed.

Lemma ownerless_drops t s : ownerless t s -> drop_ok t s.
Proof. intros Ho o d Ho'. unfold owning, ownerless in *. congruence. Qed.

Section Programs.
Context (t : nat).
Implicit Types (s : NetworkApprovalService) (o : PendingHostApprovalOwner).

(** Recording an outcome changes nothing that matters here. *)
Lemma wp_record_call P id outcome s :
  stable t P -> (forall s1, P s1 -> drop_ok t s1) -> P s -> wp t (record_call_outcome id outcome) (fun _ => P) s.
Proof.
  intros HsP Hd HP. unfold record_call_outcome. apply wp_bind. eapply wp_mono; [apply (wp_pass t P); [done..|split; [done | auto]]|].
  intros [call|] s1 _ HP1; [apply (wp_pass t P); done | by apply (wp_ret t P)].
Qed.

Lemma wp_record_for P call outcome s :
  stable t P -> (forall s1, P s1 -> drop_ok t s1) -> P s -> wp t (record_for call outcome) (fun _ => P) s.
Proof. intros. destruct call; [by apply wp_record_call | by apply (wp_ret t P)]. Qed.

Lemma wp_cancel o d b dd s :
  owning t o dd s /\ lock_is t b s ->
  wp t (cancel_execution_if_denied o d)
    (fun _ s1 => (owning t o dd s1 /\ lock_is t b s1) /\ (d = DenyRequest -> forall token, execution_cancellation o = Some token -> token ∈ cancelled s1)) s.
Proof.
  intros HP. pose (P := fun s1 => owning t o dd s1 /\ lock_is t b s1).
  destruct d; [by apply (wp_ret t P)..|]. unfold cancel_execution_if_denied. destruct (execution_cancellation o) as [token|]; [|by apply (wp_ret t P)].
  apply (wp_perform t P); [apply _..|done|done|].
  intros i s1 s2 x Hi HP1 [= <- _] Hq. split; [by apply Hq|]. intros _ tok [= <-]. cbn. set_solver.
Qed.

Lemma wp_publish_and_remove o d b dd s :
  owning t o dd s -> lock_is t b s ->
  (d = DenyRequest -> forall token, execution_cancellation o = Some token -> token ∈ cancelled s) -> (d <> DenyRequest -> approvable t o s) ->
  wp t (publish_and_remove o d) (fun _ s1 => ownerless t s1 /\ lock_is t b s1) s.
Proof.
  intros Ho Hl Hc Ha. unfold publish_and_remove.
  pose (R := fun s1 => lock_is t b s1 /\ (d = DenyRequest -> forall token, execution_cancellation o = Some token -> token ∈ cancelled s1)
                       /\ (d <> DenyRequest -> approvable t o s1)).
  apply wp_bind. eapply wp_mono with (Q := fun _ s1 => withdrawn t o dd s1 /\ R s1).
  { apply (wp_perform t (fun s1 => owning t o dd s1 /\ R s1)); [apply _..|done|done|]. intros i s1 s2 x Hi [Ho1 HR] Hx Hq.
    destruct (Hq eq_refl) as [Ho2 HR2]. split; [|done]. split; [done|]. intros key Hk. injection Hx as <- _.
    assert (pending_host_approvals s1 !! key = Some (owner_cell o) -> key = owner_key o) as Hkey.
    { intros (u & ow & d' & Hu & Hcell & <-)%(inv_pending _ Hi). unfold owning in Ho1.
      assert (u = t) as -> by (by eapply (inv_distinct _ Hi)). rewrite Ho1 in Hu. by injection Hu as <- <-. }
    unfold remove_generation in Hk. case_bool_decide as Hb; cbn in Hk.
    - apply lookup_delete_Some in Hk as [Hn Hk]. by apply Hn, symmetry, Hkey.
    - rewrite (Hkey Hk) in Hk. by apply Hb. }
  intros [] s1 _ HR1. apply (wp_perform t (fun s1 => withdrawn t o dd s1 /\ R s1)); [apply _..|done| |].
  - intros s2 _ ([Ho2 Hw] & _ & Hc2 & Ha2). split; [|done]. exists o, dd. split; [done|]. split; [done|]. split; [done|].
    destruct d; [by apply Ha2..|exact (Hc2 eq_refl)].
  - intros i s2 s3 x _ ([Ho2 Hw] & Hl2 & _) [= <- _] _. unfold ownerless, lock_is, set_decision in *. cbn. repeat case_match; cbn; by rewrite lookup_delete_eq.
Qed.

Lemma wp_complete o d b dd s :
  owning t o dd s -> lock_is t b s -> (d <> DenyRequest -> approvable t o s) ->
  wp t (complete o d) (fun _ s1 => ownerless t s1 /\ lock_is t b s1) s.
Proof.
  intros Ho Hl Ha. unfold complete. apply wp_bind. destruct (decide (d = DenyRequest)) as [-> | Hn].
  - eapply wp_mono; [by apply (wp_cancel _ _ b dd)|]. intros [] s1 _ ([Ho1 Hl1] & Hc). by eapply wp_publish_and_remove; [..|by apply Hc|].
  - assert (cancel_execution_if_denied o d = Ret tt) as -> by (by destruct d).
    apply (wp_ret t (fun s1 => owning t o dd s1 /\ lock_is t b s1 /\ approvable t o s1)); [auto|]. intros s1 _ (? & ? & ?). by eapply wp_publish_and_remove.
Qed.

Lemma wp_lock P s :
  stable t P -> (forall s1, P s1 -> drop_ok t s1) -> (forall s1, P s1 -> P (set_lock s1 (Some t))) -> P s ->
  wp t (perform OLockCommit) (fun _ s1 => P s1 /\ lock_is t true s1) s.
Proof.
  intros HsP Hd Hset HP. apply (wp_perform t P); [apply _..|done| |].
  - intros s1 _ HP1. split; [done|auto].
  - intros i s1 s2 x _ HP1 Hx _. cbn in Hx. case_match; [done|]. injection Hx as <- _. split; [auto|]. by split.
Qed.

Lemma wp_unlock P s :
  stable t P -> (forall s1, P s1 -> P (set_lock s1 None)) -> P s -> lock_is t true s ->
  wp t (perform OUnlockCommit) (fun _ s1 => P s1 /\ lock_is t false s1) s.
Proof.
  intros HsP Hset HP Hl. apply (wp_perform t (fun s1 => P s1 /\ lock_is t true s1)); [apply _..|done| |].
  - intros s1 _ [_ Hl1]. split; [by apply Hl1 | done].
  - intros i s1 s2 x _ [HP1 _] [= <- _] _. split; [auto|]. by split.
Qed.

(** Looking a host up, in a trace that began with [before]: a denial that stood then and is
    not found any more was lifted since. *)
Lemma wp_remembered before key s :
  ownerless t s -> lock_is t false s -> before `prefix_of` events s ->
  wp t (remembered key) (fun r s1 =>
    (ownerless t s1 /\ lock_is t false s1) /\ (r = Some DecideAllow -> session_granted key s1)
    /\ (r <> Some not_allowed -> standing key before = true -> lifted_since key before s1)) s.
Proof.
  intros Ho Hl Hb. unfold remembered.
  pose (P := fun s1 => ownerless t s1 /\ before `prefix_of` events s1).
  assert (forall s1, P s1 -> drop_ok t s1) as Hd by (intros s1 [Ho1 _]; by apply ownerless_drops).
  apply wp_bind. eapply wp_mono; [apply (wp_lock P); [apply _|done|done|done]|]. intros [] s1 _ [HP1 Hl1].
  apply wp_bind. eapply wp_mono with (Q := fun denied s2 => (P s2 /\ lock_is t true s2) /\ (denied = false -> standing key before = true -> lifted_since key before s2)).
  { apply (wp_perform t (fun s2 => P s2 /\ lock_is t true s2)); [apply _..|done| |].
    - intros s2 _ [HP2 _]. split; [done | auto].
    - intros i s2 s3 x Hi [[Ho2 Hb2] Hl2] [= <- <-] _. split; [done|]. intros Hn%bool_decide_eq_false HB. apply standing_lifted; [done..|].
      apply not_true_is_false. intros Hs. by apply Hn, (inv_standing _ Hi). }
  intros denied s2 _ [[HP2 Hl2] Hden]. destruct denied.
  - apply wp_bind. eapply wp_mono; [apply (wp_unlock (ownerless t)); [apply _|done|by destruct HP2|done]|].
    intros [] s3 _ [Ho3 Hl3]. apply (wp_ret t (fun s => ownerless t s /\ lock_is t false s)); [done|]. intros s4 _ Hs. by split; [|split].
  - pose (R := fun s3 => ownerless t s3 /\ (standing key before = true -> lifted_since key before s3)).
    apply wp_bind. eapply wp_mono with (Q := fun approved s3 => (R s3 /\ (approved = true -> session_granted key s3)) /\ lock_is t true s3).
    { apply (wp_perform t (fun s3 => R s3 /\ lock_is t true s3)); [apply _..|split; [split; [by destruct HP2 | auto] | done]| |].
      - intros s3 _ [[Ho3 _] _]. split; [done|]. intros _. by apply ownerless_drops.
      - intros i s3 s4 x Hi [HR3 Hl3] [= <- <-] _. split; [|done]. split; [done|]. intros Ha%bool_decide_eq_true. by apply (inv_approved _ Hi). }
    intros approved s3 _ [HR3 Hl3].
    apply wp_bind. eapply wp_mono; [apply (wp_unlock (fun s3 => R s3 /\ (approved = true -> session_granted key s3))); [apply _|done|done|done]|].
    intros [] s4 _ [HR4 Hl4].
    apply (wp_ret t (fun s => (R s /\ (approved = true -> session_granted key s)) /\ lock_is t false s)); [done|].
    intros s5 _ [[[Ho5 Hm5] Hg5] Hl5]. split; [done|]. split; [by destruct approved; auto | auto].
Qed.

(** *** Questions *)

(** The task asks about its question, and refuses it if dropped. *)
Definition asking (x : InlineRequest) s : Prop := owning t (inline_owner x) DenyRequest s /\ lock_is t false s.

#[local] Instance stable_asking x : stable t (asking x).
Proof. unfold asking. apply _. Qed.

Lemma asking_drops x s : asking x s -> drop_ok t s.
Proof. intros [Ho _]. by eapply safe_owner_drops, owning_safe. Qed.

Lemma wp_ask_hooks x s :
  asking x s -> wp t (ask_hooks x) (fun hook s1 => asking x s1 /\ (hook = Some HookAllow -> answered (owner_key (inline_owner x)) Approved s1)) s.
Proof.
  intros Ha. apply (wp_perform t (asking x)); [apply _..|done| |].
  - intros s1 _ Ha1. split; [done|]. intros _. by eapply asking_drops.
  - intros i s1 s2 hook _ _ Hx Hq. split; [by apply Hq|]. intros ->. cbn in Hx.
    destruct i; try done. injection Hx as <- ->. unfold answered. cbn. set_solver.
Qed.

Lemma wp_ask_reviewer x s :
  asking x s -> wp t (ask_reviewer x) (fun d s1 => asking x s1 /\ answered (owner_key (inline_owner x)) d s1) s.
Proof.
  intros Ha. pose (key := owner_key (inline_owner x)).
  assert (forall s1, asking x s1 -> drop_ok t s1) as Hd by apply asking_drops.
  unfold ask_reviewer. case_match; apply wp_bind.
  - eapply wp_mono with (Q := fun d s1 => asking x s1 /\ answered key (default REVIEW_FAILED d) s1).
    { apply (wp_perform t (asking x)); [apply _..|done|intros s0 _ HP0; split; [done | intros _; by apply Hd]|]. intros i s1 s2 d _ _ Hx Hq. split; [by apply Hq|]. cbn in Hx.
      destruct i; try done. injection Hx as <- <-. unfold answered. cbn. set_solver. }
    intros d s1 _ HP1. by apply (wp_ret t (fun s1 => asking x s1 /\ answered key (default REVIEW_FAILED d) s1)).
  - eapply wp_mono; [apply (wp_pass t (asking x)); [apply _|done..]|]. intros unique s1 _ HP1.
    apply (wp_perform t (asking x)); [apply _..|done|intros s0 _ HP0; split; [done | intros _; by apply Hd]|]. intros i s2 s3 d _ _ Hx Hq. split; [by apply Hq|]. cbn in Hx.
    destruct i; try done. injection Hx as <- <-. unfold answered. cbn. set_solver.
Qed.

(** *** Decisions *)

(** The task owns [o], refusing unless an amendment [allow]s the host, and holds the commit
    lock. *)
Definition committing (allow : bool) o s : Prop :=
  (safe_owner t o s /\ lock_is t true s) /\ (allow = false -> owning t o DenyRequest s).

#[local] Instance stable_committing allow o : stable t (committing allow o).
Proof. unfold committing. apply _. Qed.

Lemma committing_drops allow o s : committing allow o s -> drop_ok t s.
Proof. intros [[Ho _] _]. by eapply safe_owner_drops. Qed.

Lemma wp_set_on_drop (allow : bool) o s :
  committing allow o s -> (allow = true -> ready t o s) ->
  wp t (perform (OSetOnDrop (if allow then AllowForSession else DenyRequest))) (fun _ => committing allow o) s.
Proof.
  intros Hc Hd. apply (wp_perform t (fun s1 => committing allow o s1 /\ (allow = true -> ready t o s1))); [apply _..|done|done|].
  intros i s1 s2 x _ [[[(dd & Ho1 & _) Hl1] _] Hd1] [= <- _] _.
  assert (owning t o (if allow then AllowForSession else DenyRequest) (set_owners s1 (alter (fun od => (od.1, if allow then AllowForSession else DenyRequest)) t (owners s1)))) as Ho.
  { unfold owning in *. cbn. by rewrite lookup_alter_eq, Ho1. }
  split; [split; [|done]|by intros ->]. eexists. split; [exact Ho|]. destruct allow; [by intros _; apply Hd1 | done].
Qed.

(** A change that allows the host took effect. *)
Lemma applied_ready allow o a s s' :
  committing allow o s -> answered (owner_key o) (NetworkAmendment a) s -> amendment_action a = RuleAllow -> s' = note_applied t true s -> ready t o s'.
Proof.
  intros [[(d & Ho & _) _] _] Ha Hact ->. unfold owning in Ho. unfold note_applied. rewrite Ho. split.
  - split; [cbn; set_solver|]. exists a. split; [cbn; set_solver | done].
  - intros _. cbn. rewrite standing_snoc. cbn. by rewrite bool_decide_true, andb_false_r.
Qed.

(** When the policy is changed without an error, the change has taken effect. *)
Lemma wp_update_proxy o a (allow : bool) host s :
  committing allow o s -> answered (owner_key o) (NetworkAmendment a) s -> amendment_action a = (if allow then RuleAllow else RuleDeny) ->
  wp t (perform (OUpdateProxy (amendment_action a) host))
    (fun u s1 => (committing allow o s1 /\ answered (owner_key o) (NetworkAmendment a) s1) /\ (u = Some (Ok tt) -> allow = true -> ready t o s1)) s.
Proof.
  intros Hc Ha Hact. pose (P := fun s1 => committing allow o s1 /\ answered (owner_key o) (NetworkAmendment a) s1).
  apply (wp_perform t P); [apply _..|done| |].
  - intros s1 _ [Hc1 _]. split; [done|]. intros _. by eapply committing_drops.
  - intros i s1 s2 u _ [Hc1 Ha1] Hx Hq. split; [by apply Hq|]. intros -> ->. cbn in Hx. rewrite Hact in Hx. destruct i; try done.
    injection Hx as <- ->. by eapply applied_ready.
Qed.

Lemma wp_append_rule o a context (allow : bool) host s :
  committing allow o s -> answered (owner_key o) (NetworkAmendment a) s -> amendment_action a = (if allow then RuleAllow else RuleDeny) ->
  wp t (perform (OAppendRule host (execpolicy_network_rule_amendment a context host)))
    (fun r s1 => (committing allow o s1 /\ answered (owner_key o) (NetworkAmendment a) s1) /\ (r = Ok tt -> allow = true -> ready t o s1)) s.
Proof.
  intros Hc Ha Hact. pose (P := fun s1 => committing allow o s1 /\ answered (owner_key o) (NetworkAmendment a) s1).
  apply (wp_perform t P); [apply _..|done| |].
  - intros s1 _ [Hc1 _]. split; [done|]. intros _. by eapply committing_drops.
  - intros i s1 s2 u _ [Hc1 Ha1] Hx Hq. split; [by apply Hq|]. intros -> ->. cbn in Hx. destruct i; try done.
    injection Hx as <- ->. eapply applied_ready; [done..|]. unfold execpolicy_network_rule_amendment. by rewrite Hact.
Qed.

Lemma wp_persist o a context (allow : bool) s :
  committing allow o s -> answered (owner_key o) (NetworkAmendment a) s -> amendment_action a = (if allow then RuleAllow else RuleDeny) ->
  wp t (persist_network_policy_amendment a context (perform (OSetOnDrop (if allow then AllowForSession else DenyRequest)))) (fun _ => committing allow o) s.
Proof.
  intros Hc Ha Hact. set (P := committing allow o) in *.
  assert (forall {A} (r : A) s1, P s1 -> wp t (Ret r) (fun _ => P) s1) as Hret by (intros A r s1 HP1; by apply (wp_ret t P)).
  pose (R := fun s1 => P s1 /\ answered (owner_key o) (NetworkAmendment a) s1).
  assert (forall s1, R s1 -> (allow = true -> ready t o s1) -> wp t (perform (OSetOnDrop (if allow then AllowForSession else DenyRequest))) (fun _ => P) s1) as Happly.
  { intros s1 [HP1 _] Hr. by apply wp_set_on_drop. }
  unfold persist_network_policy_amendment. apply wp_bind. eapply wp_mono.
  { apply (wp_pass t R); [apply _|done|by split|]. intros s1 _ [HP1 _]. split; [done|]. intros _. by eapply committing_drops. }
  intros acquired s1 _ [HP1 Ha1]. destruct acquired; [|by apply Hret]. cbn [negb].
  destruct (validated_network_policy_amendment_host _ _) as [host|]; [|by apply Hret].
  apply wp_bind. eapply wp_mono; [by apply wp_update_proxy|]. intros updated s2 _ [[HP2 Ha2] Hr2].
  assert (grows (answered (owner_key o) (NetworkAmendment a))) as HG by apply noted_grows.
  destruct updated as [[[]|err]|]; [| by apply Hret |].
  - apply wp_bind. eapply wp_mono; [apply wp_frame; [exact HG|exact Ha2|apply Happly; [by split | auto]]|]. intros [] s3 _ [HP3 Ha3].
    apply wp_bind. eapply wp_mono; [by apply wp_append_rule|]. intros [[]|err] s4 _ [[HP4 _] _]; [|by apply Hret].
    apply wp_bind. by apply (wp_ret t P); [|intros s5 _ HP5; apply Hret].
  - apply wp_bind. apply (wp_ret t R); [done|]. intros s3 _ [HP3 Ha3].
    apply wp_bind. eapply wp_mono; [by apply wp_append_rule|]. intros [[]|err] s4 _ [[HP4 Ha4] Hr4]; [|by apply Hret].
    apply wp_bind. eapply wp_mono; [apply Happly; [by split | auto]|]. intros [] s5 _ HP5. by apply Hret.
Qed.

(** What holds of the request while it is reviewed, and of what it resolves to. *)
Definition reviewing (x : InlineRequest) (b : bool) s : Prop := safe_owner t (inline_owner x) s /\ lock_is t b s.
Definition resolved_to (x : InlineRequest) (b : bool) (r : PendingApprovalDecision) s : Prop :=
  reviewing x b s /\ (r <> DenyRequest -> approvable t (inline_owner x) s).

#[local] Instance stable_reviewing x b : stable t (reviewing x b).
Proof. unfold reviewing. apply _. Qed.
#[local] Instance stable_resolved x b r : stable t (resolved_to x b r).
Proof. unfold resolved_to. apply _. Qed.

Lemma reviewing_drops x b s : reviewing x b s -> drop_ok t s.
Proof. intros [Ho _]. by eapply safe_owner_drops. Qed.

Lemma wp_deny_after x b outcome s :
  reviewing x b s -> wp t (record_for (inline_call x) outcome;; mret DenyRequest) (resolved_to x b) s.
Proof.
  intros HP. apply wp_bind. eapply wp_mono; [apply (wp_record_for (reviewing x b)); [apply _|apply reviewing_drops|done]|].
  intros [] s1 _ HP1. by apply (wp_ret t (reviewing x b)).
Qed.

(** The cache of denials, with the commit lock held. *)
Lemma wp_denied_contains x P s :
  stable t P -> P s -> reviewing x true s ->
  wp t (perform (ODeniedContains (inline_key x)))
    (fun denied s1 => (reviewing x true s1 /\ P s1) /\ (denied = false -> clear_of t (inline_key x) s1)) s.
Proof.
  intros HsP HP Hr. apply (wp_perform t (fun s1 => reviewing x true s1 /\ P s1)); [apply _..|done| |].
  - intros s1 _ [Hr1 _]. split; [done|]. intros _. by eapply reviewing_drops.
  - intros i s1 s2 denied _ [Hr1 HP1] [= <- <-] _. split; [done|]. intros Hn%bool_decide_eq_false. split; [|done].
    by apply (proj2 (proj2 Hr1)).
Qed.

Lemma wp_approved_insert x s :
  reviewing x true s -> session_granted (inline_key x) s -> clear_of t (inline_key x) s ->
  wp t (perform (OApprovedInsert (inline_key x))) (fun _ s1 => reviewing x true s1 /\ clear_of t (inline_key x) s1) s.
Proof.
  intros Hr Hg Hc. apply (wp_perform t (fun s1 => (reviewing x true s1 /\ session_granted (inline_key x) s1) /\ clear_of t (inline_key x) s1)); [apply _..|done| |].
  - intros s1 _ [[Hr1 Hg1] [Hl Hd]]. split; [by repeat split|]. intros _. by eapply reviewing_drops.
  - intros i s1 s2 u _ [[Hr1 _] Hc1] [= <- _] _. by split.
Qed.

Lemma yes_granted key d s : answered key d s -> says_yes d = true -> granted key s.
Proof. intros. left. by exists d. Qed.

Lemma session_answer key s : answered key ApprovedForSession s -> session_granted (pk_host key) s.
Proof. intros. right. left. by exists key. Qed.

Lemma wp_approved x d (session : bool) s :
  reviewing x true s -> answered (owner_key (inline_owner x)) d s -> says_yes d = true -> (session = true -> d = ApprovedForSession) ->
  inline_key x = pk_host (owner_key (inline_owner x)) ->
  wp t (denied ← perform (ODeniedContains (inline_key x));
        if denied : bool then refused_by_policy x
        else if session then perform (OApprovedInsert (inline_key x));; mret AllowForSession else mret AllowOnce) (resolved_to x true) s.
Proof.
  intros Hr Ha Haf Hse Hk. apply wp_bind. eapply wp_mono; [apply (wp_denied_contains x (answered (owner_key (inline_owner x)) d)); [apply _|done..]|].
  intros denied s1 _ [[Hr1 Ha1] Hc]. destruct denied; [by apply wp_deny_after|].
  assert (forall s2, reviewing x true s2 -> granted (owner_key (inline_owner x)) s2 -> clear_of t (inline_key x) s2 ->
            forall r, resolved_to x true r s2) as Hres by (intros s2 ??? r; split; [done|]; intros _; split; [done|]; right; by rewrite <-Hk).
  pose proof (yes_granted _ _ _ Ha1 Haf) as Hg1. destruct session.
  - apply wp_bind. eapply wp_mono; [apply wp_frame; [apply granted_grows|exact Hg1|apply wp_approved_insert; [done| |auto]]|].
    { rewrite Hk. apply session_answer. by rewrite <-(Hse eq_refl). }
    intros [] s2 _ [[Hr2 Hc2] Hg2]. apply (wp_ret t (resolved_to x true AllowForSession)); auto.
  - apply (wp_ret t (resolved_to x true AllowOnce)); auto.
Qed.

Lemma wp_report x P amendment r s :
  stable t P -> (forall s1, P s1 -> drop_ok t s1) -> P s -> wp t (report_amendment x amendment r) (fun _ => P) s.
Proof. intros HsP Hd HP. destruct r; apply (wp_pass t P); try done; (intros s1 _ HP1; split; [done|]; intros _; by apply Hd). Qed.

Lemma wp_denied_remove x s :
  reviewing x true s -> standing (inline_key x) (events s) = false ->
  wp t (perform (ODeniedRemove (inline_key x))) (fun _ s1 => reviewing x true s1 /\ clear_of t (inline_key x) s1) s.
Proof.
  intros Hr Hs. pose (L := fun s1 => commit_lock s1 = Some t /\ standing (inline_key x) (events s1) = false).
  assert (stable t L) as HsL.
  { intros s1 s2 Hr1 [Hl1 Hs1]. split; [by apply (rely_lock _ _ _ Hr1)|]. apply not_true_is_false. intros Hs2%(rely_standing _ _ _ Hr1); [congruence | done]. }
  apply (wp_perform t (fun s1 => reviewing x true s1 /\ L s1)); [apply _..|split; [done | split; [by apply (proj2 (proj2 Hr)) | done]]| |].
  - intros s1 _ [Hr1 HL1]. split; [done|]. intros _. by eapply reviewing_drops.
  - intros i s1 s2 u _ [Hr1 [Hl1 _]] [= <- _] _. split; [done|]. split; [done|]. cbn. set_solver.
Qed.

Lemma wp_persist_and_report x a (allow : bool) s :
  committing allow (inline_owner x) s -> answered (owner_key (inline_owner x)) (NetworkAmendment a) s -> amendment_action a = (if allow then RuleAllow else RuleDeny) ->
  wp t (r ← persist_network_policy_amendment a (inline_context x) (perform (OSetOnDrop (if allow then AllowForSession else DenyRequest)));
        report_amendment x a r) (fun _ => committing allow (inline_owner x)) s.
Proof.
  intros Hr Ha Hact. apply wp_bind. eapply wp_mono; [by apply wp_persist|]. intros r s1 _ Hr1.
  apply (wp_report _ (committing allow (inline_owner x))); [apply _|apply committing_drops|done].
Qed.

Lemma wp_bind_assoc {A B C} (p : prog A) (f : A -> prog B) (g : B -> prog C) Q s :
  wp t ((p ≫= f) ≫= g) Q s -> wp t (p ≫= fun a => f a ≫= g) Q s.
Proof.
  revert s. induction p as [a|o k IH]; intros s Hw; [done|]. intros s1 Hr Hi. destruct (Hw s1 Hr Hi) as (Hp & Hd & Hk).
  split; [done|]. split; [done|]. intros i s2 y Hx. apply IH. by eapply Hk.
Qed.

Lemma wp_on_drop x s :
  reviewing x true s ->
  wp t (perform OOnDrop) (fun d s1 => reviewing x true s1 /\ (d <> DenyRequest -> ready t (inline_owner x) s1)) s.
Proof.
  intros Hr. apply (wp_perform t (reviewing x true)); [apply _..|done| |].
  - intros s1 _ [(d & Ho & _) _]. split; [|done]. by exists (inline_owner x, d).
  - intros i s1 s2 d _ Hr1 (od & Ho & Heq)%fmap_Some _. injection Heq as -> ->. split; [done|]. destruct Hr1 as [(d' & Ho' & Hd) _].
    pose proof (eq_trans (eq_sym Ho) Ho') as Heq. injection Heq as ->. by apply Hd.
Qed.

Lemma wp_amend_allow x a s :
  committing true (inline_owner x) s -> answered (owner_key (inline_owner x)) (NetworkAmendment a) s -> amendment_action a = RuleAllow ->
  inline_key x = pk_host (owner_key (inline_owner x)) -> wp t (resolve_decision x (NetworkAmendment a)) (resolved_to x true) s.
Proof.
  intros Hr Ha Hact Hk. unfold resolve_decision. rewrite Hact.
  apply wp_bind_assoc, wp_bind. eapply wp_mono; [by apply (wp_persist_and_report x a true)|].
  intros [] s1 _ [Hr1 _]. apply wp_bind. eapply wp_mono; [by apply wp_on_drop|].
  intros on_drop s2 _ [Hr2 Hd2]. case_bool_decide; [subst on_drop|by apply wp_deny_after].
  destruct (Hd2 ltac:(done)) as [Ha2 Hs2]. pose proof (applied_grows (inline_owner x)) as HG.
  apply wp_bind. eapply wp_mono; [apply wp_frame; [exact HG|exact Ha2|apply wp_denied_remove; [done|]]|].
  { rewrite Hk. by apply Hs2, (proj2 (proj2 Hr2)). }
  intros [] s3 _ [[Hr3 Hc3] HG3].
  apply wp_bind. eapply wp_mono; [apply wp_frame; [exact HG|exact HG3|apply wp_approved_insert; [done| |done]]|].
  { rewrite Hk. right. right. by exists (inline_owner x). }
  intros [] s4 _ [[Hr4 _] HG4]. apply (wp_ret t (resolved_to x true AllowForSession)); [|done].
  split; [done|]. intros _. split; [by apply applied_granted | by left].
Qed.

Lemma wp_amend_deny x a s :
  committing false (inline_owner x) s -> answered (owner_key (inline_owner x)) (NetworkAmendment a) s -> amendment_action a = RuleDeny ->
  wp t (resolve_decision x (NetworkAmendment a)) (resolved_to x true) s.
Proof.
  intros Hr Ha Hact. unfold resolve_decision. rewrite Hact. set (P := committing false (inline_owner x)) in *.
  apply wp_bind_assoc, wp_bind. eapply wp_mono; [by apply (wp_persist_and_report x a false)|]. intros [] s1 _ Hr1.
  apply wp_bind. eapply wp_mono; [apply (wp_record_for P); [apply _|apply committing_drops|done]|]. intros [] s2 _ Hr2.
  apply wp_bind. eapply wp_mono with (Q := fun _ s3 => P s3 /\ unapproved t (inline_key x) s3).
  { apply (wp_perform t P); [apply _..|done| |].
    - intros s3 _ Hr3. split; [done|]. intros _. by eapply committing_drops.
    - intros i s3 s4 u _ _ [= <- _] Hq. specialize (Hq eq_refl). split; [done|]. split; [by apply (proj2 (proj1 Hq))|]. cbn. set_solver. }
  intros [] s3 _ Hr3. apply wp_bind. eapply wp_mono with (Q := fun _ => P).
  { apply (wp_perform t (fun s3 => P s3 /\ unapproved t (inline_key x) s3)); [apply _..|done| |].
    - intros s4 _ [Hr4 Hu]. split; [exact Hu|]. intros _. by eapply committing_drops.
    - intros i s4 s5 u _ [[[_ Hl4] Ho4] _] [= <- _] _. specialize (Ho4 eq_refl). split; [split; [by apply owning_safe | done] | done]. }
  intros [] s4 _ Hr4. apply (wp_ret t P); [done|]. intros s5 _ [Hr5 _]. by split.
Qed.

Lemma wp_resolve x d s :
  owning t (inline_owner x) DenyRequest s -> lock_is t (commits d) s -> answered (owner_key (inline_owner x)) d s ->
  inline_key x = pk_host (owner_key (inline_owner x)) -> wp t (resolve_decision x d) (resolved_to x (commits d)) s.
Proof.
  intros Ho Hl Ha Hk. assert (reviewing x (commits d) s) as Hr by (split; [by apply owning_safe | done]).
  destruct d as [|e| |a|rejection| |]; try (by apply wp_deny_after).
  - by apply (wp_approved x Approved false).
  - by apply (wp_approved x (ApprovedExecpolicyAmendment e) false).
  - by apply (wp_approved x ApprovedForSession true).
  - destruct (amendment_action a) eqn:E; [by apply wp_amend_allow | by apply wp_amend_deny].
Qed.

(** *** Requests *)

(** The task is through with its owner and its lock; what it allows was granted. *)
Definition settled (key : PendingHostApprovalKey) (d : NetworkDecision) s : Prop :=
  (ownerless t s /\ lock_is t false s) /\ (d = DecideAllow -> granted key s).

#[local] Instance stable_settled key d : stable t (settled key d).
Proof. unfold settled. apply _. Qed.

Lemma wp_maybe_unlock (b : bool) s :
  ownerless t s -> lock_is t b s ->
  wp t (if b then perform OUnlockCommit else mret tt) (fun _ s1 => ownerless t s1 /\ lock_is t false s1) s.
Proof.
  intros Ho Hl. destruct b; [apply (wp_unlock (ownerless t)); [apply _|done..]|].
  by apply (wp_ret t (fun s1 => ownerless t s1 /\ lock_is t false s1)).
Qed.

Lemma wp_commit x d s :
  asking x s -> answered (owner_key (inline_owner x)) d s -> inline_key x = pk_host (owner_key (inline_owner x)) ->
  wp t (commit_decision x d) (settled (owner_key (inline_owner x))) s.
Proof.
  intros [Ho Hl] Ha Hk. unfold commit_decision.
  pose (P := fun s1 => owning t (inline_owner x) DenyRequest s1 /\ answered (owner_key (inline_owner x)) d s1).
  apply wp_bind. eapply wp_mono with (Q := fun _ s1 => P s1 /\ lock_is t (commits d) s1).
  { destruct (commits d); [|by apply (wp_ret t (fun s1 => P s1 /\ lock_is t false s1))].
    apply wp_lock; [apply _|intros s1 [? _]; by eapply safe_owner_drops, owning_safe|done|done]. }
  intros [] s1 _ [[Ho1 Ha1] Hl1]. apply wp_bind. eapply wp_mono; [by apply wp_resolve|]. intros r s2 _ [[Ho2 Hl2] Hap2].
  apply wp_bind. eapply wp_mono with (Q := fun _ s3 => (owning t (inline_owner x) r s3 /\ lock_is t (commits d) s3)
                                          /\ (r <> DenyRequest -> approvable t (inline_owner x) s3)).
  { apply (wp_perform t (resolved_to x (commits d) r)); [apply _..|done|done|].
    intros i s3 s4 u _ [[(dd & Ho3 & _) Hl3] Hap3] [= <- _] _. split; [|exact Hap3]. split; [|done]. unfold owning in *. cbn. by rewrite lookup_alter_eq, Ho3. }
  intros [] s3 _ [[Ho3 Hl3] Hap3].
  pose (G := fun s => r <> DenyRequest -> granted (owner_key (inline_owner x)) s).
  assert (grows G) as HG by (intros s4 s5 Hs Hr4 Hg Hn; eapply granted_grows; eauto).
  assert (G s3) as HG3 by (intros Hn; by apply Hap3).
  apply wp_bind. eapply wp_mono; [apply wp_frame; [exact HG|exact HG3|by eapply wp_complete]|]. intros [] s4 _ [[Ho4 Hl4] HG4].
  apply wp_bind. eapply wp_mono; [apply wp_frame; [exact HG|exact HG4|by apply wp_maybe_unlock]|].
  intros [] s5 _ [[Ho5 Hl5] Hg5]. apply (wp_ret t (settled (owner_key (inline_owner x)) (to_network_decision r))); [|done].
  split; [done|]. intros Hd. apply Hg5. by intros ->.
Qed.

Lemma wp_refuse x outcome key s : asking x s -> wp t (refuse x outcome) (settled key) s.
Proof.
  intros [Ho Hl]. unfold refuse. apply owning_safe in Ho. apply wp_bind. eapply wp_mono; [apply (wp_record_for (reviewing x false)); [apply _|apply reviewing_drops|done]|].
  intros [] s1 _ [(dd & Ho1 & _) Hl1]. apply wp_bind. eapply wp_mono; [by eapply wp_complete|]. intros [] s2 _ Hs2.
  by apply (wp_ret t (fun s2 => ownerless t s2 /\ lock_is t false s2)).
Qed.

Lemma wp_review x s :
  asking x s -> inline_key x = pk_host (owner_key (inline_owner x)) -> wp t (review_request x) (settled (owner_key (inline_owner x))) s.
Proof.
  intros Hr Hk. unfold review_request. case_match; [by apply wp_refuse|].
  apply wp_bind. eapply wp_mono; [by apply wp_ask_hooks|]. intros [[|m]|] s1 _ [Hr1 Ha1].
  - apply wp_commit; auto.
  - by apply wp_refuse.
  - apply wp_bind. eapply wp_mono; [by apply wp_ask_reviewer|]. intros d s2 _ [Hr2 Ha2]. by apply wp_commit.
Qed.

(** The call a request belongs to, and its environment if one is known, when [active] are
    the active calls: the call of its execution, or the only active one of its environment. *)
Definition belongs_to (request : NetworkPolicyRequest) (active : list ActiveNetworkApprovalCall)
  (call : option ActiveNetworkApprovalCall) (environment : option str) : Prop :=
  (forall id, pr_execution_id request = Some id -> exists c, call = Some c /\ c ∈ active /\ call_registration_id c = id)
  /\ (forall c, call = Some c -> pr_execution_id request = None -> active = [c])
  /\ (forall c, call = Some c -> environment = Some (call_environment_id c))
  /\ (forall e, pr_environment_id request = Some e -> environment = Some e)
  /\ (call = None -> environment = pr_environment_id request).

(** What a request of task [t] that is allowed was granted: with the call it was attributed
    to and the turn that was active, the host in its environment was allowed for the
    session, or the question with the turn and the execution of the call (of the active
    turn and no execution, without a call) was agreed to.  A denial of the host that stood
    in the trace [before] was lifted since. *)
Definition allowed_by (request : NetworkPolicyRequest) (before : list event) s : Prop :=
  exists active call environment turn environment_id,
    Attributed t active (Some (mkAttribution call environment)) ∈ events s /\ TurnSeen t turn ∈ events s
    /\ belongs_to request active call environment
    /\ match environment with
       | Some e => environment_id = e
       | None => exists tn profile more, turn = Some tn /\ turn_environments tn = (environment_id, profile) :: more
       end
    /\ let host := from_request request (approval_protocol (pr_protocol request)) environment_id in
       (standing host before = true -> lifted_since host before s)
       /\ (session_granted host s
           \/ exists tn, turn = Some tn
              /\ granted (mkPendingKey host (match call with Some c => call_turn_id c | None => turn_sub_id tn end)
                                            (call_registration_id <$> call)) s).

Definition decision_ok (request : NetworkPolicyRequest) (before : list event) (d : NetworkDecision) s : Prop :=
  (ownerless t s /\ lock_is t false s) /\ (d = DecideAllow -> allowed_by request before s).

Lemma find_call_id id cs call : find_call id cs = Some call -> call_registration_id call = id.
Proof. intros [_ Hc]%List.find_some. by apply bool_decide_eq_true in Hc. Qed.

Lemma attribution_belongs request cs call e :
  resolve_request_attribution request cs = Some (mkAttribution call e) -> belongs_to request (active_calls cs) call e.
Proof.
  unfold resolve_request_attribution, resolve_active_call_attribution, belongs_to. intros Ha.
  destruct (pr_execution_id request) as [id|] eqn:Ei.
  - destruct (find_call id cs) as [c|] eqn:E; [|done]. simpl in Ha. case_bool_decide as He; [|done]. injection Ha as <- <-.
    assert (c ∈ active_calls cs) by (apply list_elem_of_In; by eapply List.find_some).
    split_and!; try done.
    + intros id' [= <-]. exists c. split_and!; [done..|by eapply find_call_id].
    + intros c' [= <-]. by f_equal.
    + intros e' Hp. by rewrite Hp.
  - destruct (pr_environment_id request) as [en|] eqn:Ee; destruct (active_calls cs) as [|c [|c' l]]; simplify_eq; split_and!; try done;
      try (by intros c1; case_bool_decide; [intros [= <-]; congruence|]); by intros c1 [= <-].
Qed.

(** Waiting for the task that owns the cell. *)
Lemma wp_wait cell ow s :
  ownerless t s -> lock_is t false s -> made_for s !! cell = Some ow ->
  wp t (decision ← perform (OWait cell); mret (to_network_decision decision)) (settled (owner_key ow)) s.
Proof.
  intros Ho Hl Hm. pose (P := fun s1 => (ownerless t s1 /\ lock_is t false s1) /\ made_for s1 !! cell = Some ow).
  apply wp_bind. eapply wp_mono with (Q := fun d => settled (owner_key ow) (to_network_decision d)).
  { apply (wp_perform t P); [apply _..|done| |].
    - intros s1 _ [[Ho1 _] Hm1]. split; [split; [done | by exists ow]|]. intros _. by apply ownerless_drops.
    - intros i s1 s2 d Hi [Hs1 Hm1] (d' & Hc & [= <- <-])%fmap_Some _. split; [done|]. intros Hd. eapply (inv_allowed _ Hi); [done..|]. by intros ->. }
  intros d s1 _ Hs1. by apply (wp_ret t (settled (owner_key ow) (to_network_decision d))).
Qed.

(** Joining the pending approval of a key: either the cell of another task's, or one's own. *)
Lemma wp_join key token s :
  ownerless t s -> lock_is t false s ->
  wp t (perform (OJoin key token)) (fun r s1 =>
    match r with
    | (cell, false) => (ownerless t s1 /\ lock_is t false s1) /\ exists ow, made_for s1 !! cell = Some ow /\ owner_key ow = key
    | (cell, true) => owning t (mkOwner key cell token) DenyRequest s1 /\ lock_is t false s1
    end) s.
Proof.
  intros Ho Hl. apply (wp_perform t (fun s1 => ownerless t s1 /\ lock_is t false s1)); [apply _| |done|by intros s1 _ []|].
  { intros [cell []]; [apply _|]. apply stable_and; [apply _|]. intros s1 s2 Hr (ow & Hm & Hk). exists ow. split; [by apply Hr | done]. }
  intros i s1 s2 [cell b] Hi [Ho1 Hl1] Hx _. cbn in Hx. unfold get_or_create_pending_approval in Hx.
  destruct (pending_host_approvals s1 !! key) as [c|] eqn:E; injection Hx as <- <- <-.
  - split; [done|]. destruct (inv_pending _ Hi _ _ E) as (u & ow & d & Hu & <- & <-). exists ow. split; [by eapply (inv_owner _ Hi) | done].
  - split; [|done]. unfold owning. cbn. by rewrite lookup_insert_eq.
Qed.

Lemma wp_attribute request before s :
  ownerless t s -> lock_is t false s -> before `prefix_of` events s ->
  wp t (perform (OAttribute request)) (fun r s1 => ((ownerless t s1 /\ lock_is t false s1) /\ before `prefix_of` events s1)
    /\ forall call e, r = Some (mkAttribution call e) ->
         exists active, Attributed t active r ∈ events s1 /\ belongs_to request active call e) s.
Proof.
  intros Ho Hl Hb. pose (P := fun s1 => (ownerless t s1 /\ lock_is t false s1) /\ before `prefix_of` events s1).
  apply (wp_perform t P); [apply _| |done| |].
  - intros r. apply stable_and; [apply _|]. intros s1 s2 Hr Hex call e He. destruct (Hex call e He) as (active & Ha & Hbel).
    exists active. split; [by eapply stable_noted | done].
  - intros s1 _ [[Ho1 _] _]. split; [done|]. intros _. by apply ownerless_drops.
  - intros i s1 s2 r _ _ [= <- <-] Hq. split; [by apply Hq|]. intros call e He. eexists. split; [cbn; apply elem_of_app; right; apply list_elem_of_here|].
    by apply attribution_belongs.
Qed.

Lemma wp_active_turn before s :
  ownerless t s -> lock_is t false s -> before `prefix_of` events s ->
  wp t (perform OActiveTurn) (fun turn s1 => ((ownerless t s1 /\ lock_is t false s1) /\ before `prefix_of` events s1) /\ TurnSeen t turn ∈ events s1) s.
Proof.
  intros Ho Hl Hb. pose (P := fun s1 => (ownerless t s1 /\ lock_is t false s1) /\ before `prefix_of` events s1).
  apply (wp_perform t P); [apply _..|done| |].
  - intros s1 _ [[Ho1 _] _]. split; [done|]. intros _. by apply ownerless_drops.
  - intros i s1 s2 turn _ _ Hx Hq. split; [by apply Hq|]. cbn in Hx. destruct i; try done. injection Hx as <- ->. cbn. set_solver.
Qed.

Lemma wp_handle request before s :
  ownerless t s -> lock_is t false s -> before `prefix_of` events s ->
  wp t (handle_inline_policy_request request) (decision_ok request before) s.
Proof.
  intros Ho Hl Hb.
  assert (forall s1, ownerless t s1 /\ lock_is t false s1 -> wp t (Ret not_allowed) (decision_ok request before) s1) as Hno.
  { intros s1 Hs1. by apply (wp_ret t (fun s1 => ownerless t s1 /\ lock_is t false s1)). }
  unfold handle_inline_policy_request. apply wp_bind. eapply wp_mono; [by apply wp_attribute|].
  intros [[call e]|] s1 _ [[[Ho1 Hl1] Hb1] Hex]; [|by apply Hno]. destruct (Hex call e eq_refl) as (active & Hact & Hbel).
  apply wp_bind. eapply wp_mono; [apply wp_frame; [exact (noted_grows (Attributed t active (Some (mkAttribution call e))))|exact Hact|by apply wp_active_turn]|].
  intros turn s2 _ [[[[Ho2 Hl2] Hb2] Hturn] Hact2].
  destruct (match e with Some e => Some e | None => _ end) as [environment_id|] eqn:Eenv; [|by apply Hno].
  set (host := from_request request (approval_protocol (pr_protocol request)) environment_id).
  pose (G := fun s => Attributed t active (Some (mkAttribution call e)) ∈ events s /\ TurnSeen t turn ∈ events s).
  assert (grows G) as HG by (intros ?? Hs Hr [? ?]; split; by eapply (noted_grows _)).
  assert (forall s, G s -> (standing host before = true -> lifted_since host before s) ->
    (session_granted host s \/ exists tn, turn = Some tn /\ granted (pending_key host tn call) s) -> allowed_by request before s) as Hallow.
  { intros s3 [HG1 HG2] Hst Hgr. exists active, call, e, turn, environment_id. split_and!; [done..| |].
    - destruct e as [e|]; [by injection Eenv|]. destruct turn as [tn|]; [|done]. simpl in Eenv.
      destruct (turn_environments tn) as [|[e' profile] more] eqn:Et; [done|]. injection Eenv as ->. by exists tn, profile, more.
    - split; [exact Hst | exact Hgr]. }
  apply wp_bind. eapply wp_mono; [apply wp_frame; [exact HG|by split|by apply (wp_remembered before)]|].
  intros known s3 _ [(Hs3 & Hg3 & Ha3) HG3]. destruct known as [d|].
  { apply (wp_ret t (fun s => ((ownerless t s /\ lock_is t false s) /\ (Some d = Some DecideAllow -> session_granted host s)
                              /\ (Some d <> Some not_allowed -> standing host before = true -> lifted_since host before s))
                              /\ Attributed t active (Some (mkAttribution call e)) ∈ events s /\ TurnSeen t turn ∈ events s)); [done|].
    intros s4 _ [(Hs4 & Hg4 & Ha4) HG4]. split; [done|]. intros ->. apply Hallow; [done|by apply Ha4|left; auto]. }
  destruct turn as [turn|].
  2: { apply wp_bind. eapply wp_mono; [apply (wp_record_for (fun s => ownerless t s /\ lock_is t false s)); [apply _|by intros ? [? _]; apply ownerless_drops|done]|].
       intros [] s4 _ Hs4. by apply Hno. }
  set (key := pending_key host turn call).
  pose (H := fun s => G s /\ (standing host before = true -> lifted_since host before s)).
  assert (grows H) as HH by (intros ?? Hs Hr [? Hx]; split; [by eapply HG | intros ?; eapply lifted_since_grows; eauto]).
  assert (H s3) as HH3 by (split; [done | by apply Ha3]).
  assert (forall d s, settled key d s /\ H s -> decision_ok request before d s) as Hend.
  { intros d s4 [[Hs4 Hg4] [HG4 Hx4]]. split; [done|]. intros Hda. apply Hallow; [done..|]. right. exists turn. auto. }
  apply wp_bind. eapply wp_mono; [apply wp_frame; [exact HH|exact HH3|apply wp_join; apply Hs3]|].
  intros [cell []] s4 _ [Hj HH4]; eapply wp_mono; try (intros d s5 _; apply Hend); (apply wp_frame; [exact HH|exact HH4|]); cbn [negb].
  - by apply wp_review.
  - destruct Hj as [[Ho4 Hl4] (ow & Hm & <-)]. by apply wp_wait.
Qed.
End Programs.

(** ** The other calls *)

(** What holds of the answer to a call, of a service whose state was [before] when the call
    was made. *)
Definition promise (t : nat) (a : api) (before : NetworkApprovalService) (ans : answer) (s : NetworkApprovalService) : Prop :=
  match a, ans with
  | Decide request, Decided d => d = DecideAllow -> allowed_by t request (events before) s
  | (Finish _ token | FinishDeferred _ token _), Finished (Some (Ok _)) => token ∉ cancelled before
  | _, _ => True
  end.

Definition post (t : nat) (a : api) (before : NetworkApprovalService) (ans : answer) (s : NetworkApprovalService) : Prop :=
  (ownerless t s /\ lock_is t false s) /\ promise t a before ans s.

Lemma allowed_by_grows t request before : grows (allowed_by t request before).
Proof.
  intros s s' He Hr (active & call & environment & turn & environment_id & Ha & Ht & Hb & Henv & Hst & Hg).
  exists active, call, environment, turn, environment_id. split_and!; [by eapply (noted_grows _)|by eapply (noted_grows _)|done|done|]. cbn zeta.
  split; [intros Hs; eapply lifted_since_grows; eauto|].
  destruct Hg as [Hg|(tn & -> & Hg)]; [left; by eapply session_granted_grows | right]. exists tn. split; [done|]. by eapply granted_grows.
Qed.

#[export] Instance stable_post t a before ans : stable t (post t a before ans).
Proof.
  intros s s' Hr [Hs Hp]. split; [by eapply (stable_and _ (ownerless t) (lock_is t false)); [apply _..|done|]|].
  destruct a, ans; try done. intros Hd. eapply allowed_by_grows; [apply Hr..|]. by apply Hp.
Qed.

(** Only operations that need nothing. *)
Fixpoint simple {A} (t : nat) (p : prog A) : Prop :=
  match p with Ret _ => True | Do o k => quiet o = true /\ (forall s, pre t o s) /\ forall x, simple t (k x) end.

Lemma wp_simple {A} t (p : prog A) P s :
  stable t P -> (forall s1, P s1 -> drop_ok t s1) -> simple t p -> P s -> wp t p (fun _ => P) s.
Proof.
  intros HsP Hd. revert s. induction p as [a|o k IH]; intros s Hp HP; [by apply (wp_ret t P)|].
  destruct Hp as (Hq & Hpre & Hk). apply (wp_quiet t P); [done..|split; auto|]. intros i s1 s2 x _ _ _ HP2. apply IH; auto.
Qed.

Section Calls.
Context (t : nat).

Lemma wp_finish_end P outcome token (before : NetworkApprovalService) s :
  stable t P -> (forall s1, P s1 -> token ∈ cancelled before -> token ∈ cancelled s1) -> P s ->
  wp t (outcome_or_abandoned outcome token)
    (fun final s1 => P s1 /\ (network_approval_outcome_to_result final = Some (Ok tt) -> token ∉ cancelled before)) s.
Proof.
  intros HsP Hc HP. unfold outcome_or_abandoned. destruct outcome as [o|].
  - apply (wp_ret t P); [done|]. intros s1 _ HP1. split; [done|]. intros Hr. exfalso.
    destruct o; by apply fmap_Some in Hr as (? & _ & ?).
  - apply wp_bind. eapply wp_mono with (Q := fun b s1 => P s1 /\ (b = false -> token ∉ cancelled before)).
    { apply (wp_perform t P); [apply _..|done|done|]. intros i s1 s2 x _ HP1 [= <- <-] _. split; [done|].
      intros Hn%bool_decide_eq_false Ht. by apply Hn, Hc. }
    intros b s1 _ Hb. apply (wp_ret t (fun s1 => P s1 /\ (b = false -> token ∉ cancelled before))); [done|].
    intros s2 _ [HP2 Hb2]. split; [done|]. destruct b; [intros Hr; by apply fmap_Some in Hr as (? & _ & ?) | auto].
Qed.

Lemma wp_finish a id token finish_outcome before s :
  a = Finish id token /\ finish_outcome = None \/ a = FinishDeferred id token finish_outcome ->
  ownerless t s -> lock_is t false s -> (token ∈ cancelled before -> token ∈ cancelled s) -> wp t (body a) (post t a before) s.
Proof.
  intros Ha Ho Hl Hc.
  pose (P := fun s1 => (ownerless t s1 /\ lock_is t false s1) /\ (token ∈ cancelled before -> token ∈ cancelled s1)).
  assert (forall s1, P s1 -> drop_ok t s1) as Hd by (intros s1 [[? _] _]; by apply ownerless_drops).
  assert (forall outcome s1, P s1 -> wp t (final ← outcome_or_abandoned outcome token; mret (network_approval_outcome_to_result final))
            (fun r s2 => P s2 /\ (r = Some (Ok tt) -> token ∉ cancelled before)) s1) as Hend.
  { intros outcome s1 HP1. apply wp_bind. eapply wp_mono; [by apply (wp_finish_end P _ _ before); [apply _|intros s2 [_ ?]|]|].
    intros final s2 _ Hf. by apply (wp_ret t (fun s2 => P s2 /\ (network_approval_outcome_to_result final = Some (Ok tt) -> token ∉ cancelled before))). }
  assert (forall r s1, P s1 /\ (r = Some (Ok tt) -> token ∉ cancelled before) -> post t a before (Finished r) s1) as Hpost.
  { intros r s1 [[Hs1 _] Hr]. split; [done|]. destruct Ha as [[-> _]| ->]; destruct r as [[[]|]|]; simpl; auto. }
  assert (forall s1, P s1 -> wp t (finish_call_outcome id) (fun _ => P) s1) as Hout.
  { intros s1 HP1. apply (wp_pass t P); [apply _|done|done|split; [done | auto]]. }
  destruct Ha as [[-> ->]| ->]; cbn [body].
  - apply wp_bind. eapply wp_mono with (Q := fun r s2 => P s2 /\ (r = Some (Ok tt) -> token ∉ cancelled before)).
    { unfold finish_call. apply wp_bind. eapply wp_mono; [by apply Hout|]. intros outcome s1 _ HP1. by apply Hend. }
    intros r s1 _ Hr. apply (wp_ret t (fun s2 => P s2 /\ (r = Some (Ok tt) -> token ∉ cancelled before))); auto.
  - apply wp_bind. eapply wp_mono with (Q := fun r s2 => P s2 /\ (r.2 = Some (Ok tt) -> token ∉ cancelled before)).
    { unfold finish_deferred. apply wp_bind. eapply wp_mono with (Q := fun _ => P).
      { destruct finish_outcome; [by apply (wp_ret t P) | by apply Hout]. }
      intros outcome s1 _ HP1. apply wp_bind. eapply wp_mono; [by apply (wp_finish_end P _ _ before); [apply _|intros s2 [_ ?]|]|].
      intros final s2 _ Hf. by apply (wp_ret t (fun s2 => P s2 /\ (network_approval_outcome_to_result final = Some (Ok tt) -> token ∉ cancelled before))). }
    intros r s1 _ Hr. apply (wp_ret t (fun s2 => P s2 /\ (r.2 = Some (Ok tt) -> token ∉ cancelled before))); auto.
Qed.

Lemma simple_body a s :
  ownerless t s -> lock_is t false s -> simple t (body a) ->
  match a with Blocked _ | Begin _ _ _ | Unregister _ | Receive _ => True | _ => False end -> wp t (body a) (post t a s) s.
Proof.
  intros Ho Hl Hs Ha. eapply wp_mono; [apply (wp_simple t _ (fun s1 => ownerless t s1 /\ lock_is t false s1)); [apply _| |done|done]|].
  - intros s1 [? _]. by apply ownerless_drops.
  - intros ans s1 _ Hs1. split; [done|]. by destruct a.
Qed.

(** Every call is verified, from a task without owner and lock. *)
Lemma wp_body a s : ownerless t s -> lock_is t false s -> wp t (body a) (post t a s) s.
Proof.
  intros Ho Hl. destruct a as [request|b|turn_id active spec|id token|id token c|id|hosts]; try (by eapply wp_finish; [by eauto|..]).
  - cbn [body]. apply wp_bind. eapply wp_mono with (Q := fun d s1 => decision_ok t request (events s) d s1).
    { pose (P := fun s1 => (ownerless t s1 /\ lock_is t false s1) /\ events s `prefix_of` events s1).
      unfold network_policy_decider. apply wp_bind. eapply wp_mono; [apply (wp_pass t P); [apply _|done|done|]|].
      - intros s1 _ [[? _] _]. split; [done|]. intros _. by apply ownerless_drops.
      - intros [] s1 _ [[Ho1 Hl1] Hb1]; [by apply wp_handle|]. by apply (wp_ret t (fun s1 => ownerless t s1 /\ lock_is t false s1)). }
    intros d s1 _ Hd. apply (wp_ret t (post t (Decide request) s (Decided d))); [exact Hd | done].
  - apply simple_body; [exact Ho|exact Hl| |exact I]. cbn [body]. unfold record_blocked_request.
    destruct (denied_network_policy_message b) as [m|]; [|exact I]. split; [done|]. split; [done|]. intros [call|]; [|exact I].
    split; [done|]. split; [done|]. intros []; [|exact I]. split; [done|]. split; [done|]. intros []. exact I.
  - apply simple_body; [exact Ho|exact Hl| |exact I]. cbn [body]. unfold begin_network_approval.
    destruct spec as [sp|]; [|exact I]. destruct (spec_network sp); [|exact I]. destruct active; [|exact I].
    split; [done|]. split; [done|]. intros v. split; [done|]. split; [done|]. intros w. split; [done|]. split; [done|].
    intros [[]|]; [|exact I]. split; [done|]. split; [done|]. intros n. split; [done|]. split; [done|]. intros []. exact I.
  - apply simple_body; [exact Ho|exact Hl| |exact I]. split; [done|]. split; [done|]. intros x. exact I.
  - apply simple_body; [exact Ho|exact Hl| |exact I]. split; [done|]. split; [done|]. intros x. exact I.
Qed.
End Calls.

(** A task that may be dropped leaves neither owner nor lock behind. *)
Lemma wp_drop t a before s : drop_ok t s -> wp t (drop_task t s;; mret Dropped) (post t a before) s.
Proof.
  intros Hd. apply wp_bind. eapply wp_mono with (Q := fun _ s1 => ownerless t s1 /\ lock_is t false s1).
  2: { intros [] s1 _ Hs1. apply (wp_ret t (post t a before Dropped)); [|done]. split; [done|]. by destruct a. }
  unfold drop_task. pose (P := fun s1 => owners s1 !! t = owners s !! t /\ forall o d, owning t o d s -> d <> DenyRequest ->
                                granted (owner_key o) s1 /\ applied o s1).
  assert (stable t P) as HsP.
  { intros s1 s2 Hr [Ho1 Hd1]. split; [by rewrite (rely_owner _ _ _ Hr)|]. intros o d Ho Hn. destruct (Hd1 o d Ho Hn).
    split; [by eapply stable_granted | by eapply stable_applied]. }
  apply wp_bind. eapply wp_mono with (Q := fun _ s1 => P s1 /\ lock_is t false s1).
  { case_bool_decide as Hl; [apply wp_unlock; [done|done|done|by split]|]. apply (wp_ret t (fun s1 => P s1 /\ lock_is t false s1)); [|done]. by split; [|split]. }
  intros [] s1 _ [[Ho1 Hd1] Hl1]. destruct (owners s !! t) as [[o d]|] eqn:E.
  - eapply wp_complete; [exact Ho1|done|]. intros Hn. destruct (Hd1 o d E Hn). split; [done | by left].
  - by apply (wp_ret t (fun s1 => ownerless t s1 /\ lock_is t false s1)).
Qed.

(** ** The whole system *)

Record sys_inv (s : system) : Prop := {
  sys_service : inv (service s);
  sys_tasks t tk : tasks s !! t = Some tk -> t < next_task s /\ wp t (code tk) (post t (task_api tk) (born tk)) (service s);
  sys_born t tk : tasks s !! t = Some tk -> inv (born tk);
  sys_others t : tasks s !! t = None -> ownerless t (service s) /\ lock_is t false (service s);
}.

Lemma new_system_inv : sys_inv new_system.
Proof. by repeat split. Qed.

(** Replacing the code of one task, and the service. *)
Lemma with_code_inv s sv t tk p :
  sys_inv s -> tasks s !! t = Some tk -> inv sv -> (forall u, u <> t -> rely u (service s) sv) ->
  wp t p (post t (task_api tk) (born tk)) sv -> sys_inv (with_code s sv t tk p).
Proof.
  intros HI Ht Hi Hr Hw. split; cbn.
  - done.
  - intros u tk' [[<- <-]|[Hn Hu]]%lookup_insert_Some; cbn.
    + split; [by eapply (sys_tasks s) | done].
    + destruct (sys_tasks s HI u tk' Hu). split; [done|]. eapply wp_rely; [|done]. by apply Hr.
  - intros u tk' [[<- <-]|[Hn Hu]]%lookup_insert_Some; cbn; [by eapply (sys_born s HI t) | by eapply (sys_born s HI u)].
  - intros u [Hu Hn]%lookup_insert_None. apply (stable_and u (ownerless u) (lock_is u false) _ _ (service s)); [by apply Hr | by apply (sys_others s)].
Qed.

(** One step from a good state: good again, and what it does to the service. *)
Lemma step_inv c s s' :
  sys_inv s -> step c s = Some s' ->
  sys_inv s' /\ (service s' = service s \/ exists t o i x, inv (service s) /\ pre t o (service s) /\ performs t o i (service s) = Some (service s', x)).
Proof.
  intros HI Hs. destruct c as [a|t i|t]; simpl in Hs.
  - injection Hs as <-. split; [|by left]. assert (tasks s !! next_task s = None) as Hn.
    { destruct (tasks s !! next_task s) as [tk|] eqn:E; [|done]. apply (sys_tasks s HI) in E as [? _]. lia. }
    destruct (sys_others s HI _ Hn). split; cbn.
    + by apply sys_service.
    + intros t tk [[<- <-]|[Hne Ht]]%lookup_insert_Some; cbn; [split; [lia | by apply wp_body]|].
      destruct (sys_tasks s HI t tk Ht). split; [lia | done].
    + intros t tk [[<- <-]|[Hne Ht]]%lookup_insert_Some; [by apply (sys_service s) | by eapply (sys_born s HI t)].
    + intros t [Ht _]%lookup_insert_None. by apply (sys_others s).
  - destruct (tasks s !! t) as [tk|] eqn:Et; [|done]. simpl in Hs. destruct (code tk) as [a|o k] eqn:Ec; [done|].
    destruct (performs t o i (service s)) as [[sv x]|] eqn:Ep; [|done]. injection Hs as <-.
    destruct (sys_tasks s HI t tk Et) as [_ Hw]. rewrite Ec in Hw. pose proof (sys_service s HI) as Hi.
    destruct (Hw (service s) (rely_refl _ _) Hi) as (Hpre & _ & Hk).
    destruct (performs_guarantee _ _ _ _ _ _ Hi Hpre Ep) as [Hi' Hr]. split; [|right; by exists t, o, i, x].
    apply with_code_inv; [done..|]. by eapply Hk.
  - destruct (tasks s !! t) as [tk|] eqn:Et; [|done]. simpl in Hs. destruct (code tk) as [a|o k] eqn:Ec; [done|].
    destruct (awaits o) eqn:Ea; [|done]. injection Hs as <-. split; [|by left].
    destruct (sys_tasks s HI t tk Et) as [_ Hw]. rewrite Ec in Hw. pose proof (sys_service s HI) as Hi.
    destruct (Hw (service s) (rely_refl _ _) Hi) as (_ & Hd & _).
    apply with_code_inv; [done..|intros; apply rely_refl|]. by apply wp_drop, Hd.
Qed.

Definition reachable (s : system) : Prop := rtc steps new_system s.

Lemma steps_inv s s' : sys_inv s -> rtc steps s s' -> sys_inv s'.
Proof. intros HI Hr. induction Hr as [|x y z [c Hc] _ IH]; [done|]. apply IH. by eapply step_inv. Qed.

Lemma reachable_inv s : reachable s -> sys_inv s.
Proof. apply steps_inv, new_system_inv. Qed.

Lemma returned_promise s t tk ans :
  sys_inv s -> tasks s !! t = Some tk -> code tk = Ret ans -> post t (task_api tk) (born tk) ans (service s).
Proof.
  intros HI Ht Hc. destruct (sys_tasks s HI t tk Ht) as [_ Hw]. rewrite Hc in Hw. apply (Hw _ (rely_refl _ _)), HI.
Qed.

(** What every step does to the service, as any task that does not take it sees it. *)
Lemma step_rely c s s' u : sys_inv s -> step c s = Some s' -> (forall i, c <> Run u i) -> rely u (service s) (service s').
Proof.
  intros HI Hs Hu. destruct c as [a|t i|t]; simpl in Hs.
  - injection Hs as <-. apply rely_refl.
  - destruct (tasks s !! t) as [tk|] eqn:Et; [|done]. simpl in Hs. destruct (code tk) as [a|o k] eqn:Ec; [done|].
    destruct (performs t o i (service s)) as [[sv x]|] eqn:Ep; [|done]. injection Hs as <-.
    destruct (sys_tasks s HI t tk Et) as [_ Hw]. rewrite Ec in Hw. pose proof (sys_service s HI) as Hi.
    destruct (Hw (service s) (rely_refl _ _) Hi) as (Hpre & _ & _).
    destruct (performs_guarantee _ _ _ _ _ _ Hi Hpre Ep) as [_ Hr]. apply Hr. intros ->. by apply (Hu i).
  - destruct (tasks s !! t) as [tk|]; [|done]. simpl in Hs. destruct (code tk); [done|]. destruct (awaits o); [|done]. injection Hs as <-. apply rely_refl.
Qed.





(** C7.  Nothing is allowed that nobody agreed to, however requests, answers and dropped
    tasks interleave: when the service allows a request, then for the call it was
    attributed to and the turn that was active, either the host was allowed for the
    session, or a hook, the reviewer or the user agreed to the question that carries the
    turn and the execution of that call (the active turn and no execution, without a
    call).  If a denial of the host stood when the request came (recorded, and no
    amendment that allows the host had taken effect since), then such an amendment took
    effect after the request came. *)
Theorem allowed_requests_granted s t tk request :
  reachable s -> tasks s !! t = Some tk -> task_api tk = Decide request -> code tk = Ret (Decided DecideAllow) ->
  allowed_by t request (events (born tk)) (service s).
Proof.
  intros HI%reachable_inv Ht Ha Hc. destruct (returned_promise _ _ _ _ HI Ht Hc) as [_ Hp]. rewrite Ha in Hp. by apply Hp.
Qed.










(** C24.  An execution whose network access was denied does not end well: once a question of
    its is decided against it (by an answer, by a policy that does not ask, or because the
    task that asked was dropped), finishing the call reports a rejection. *)
Theorem denied_execution_rejected s t tk id token r cell o :
  reachable s -> tasks s !! t = Some tk -> code tk = Ret (Finished r) ->
  task_api tk = Finish id token \/ (exists c, task_api tk = FinishDeferred id token c) ->
  made_for (born tk) !! cell = Some o -> execution_cancellation o = Some token -> cells (born tk) !! cell = Some DenyRequest ->
  r <> Some (Ok tt).
Proof.
  intros HI%reachable_inv Ht Hc Ha Hm Ho Hd ->. destruct (returned_promise _ _ _ _ HI Ht Hc) as [_ Hp].
  pose proof (inv_denied _ (sys_born _ HI _ _ Ht) _ _ _ Hm Hd Ho). by destruct Ha as [Ha|[? Ha]]; rewrite Ha in Hp.
Qed.

(** ** Nobody waits for ever *)

(** Code between two awaits runs to its end. *)
Lemma sync_enabled t o s : awaits o = false -> pre t o s -> exists i s' x, performs t o i s = Some (s', x).
Proof.
  intros Ha Hp. destruct o; try done; cbn in *; try (by exists NoInput; eexists _, _).
  - exists NoInput. destruct (get_or_create_pending_approval _ _ _ _) as [s' x]. by exists s', x.
  - destruct Hp as [od Ho]. exists NoInput. rewrite Ho. by eexists _, _.
  - exists (InStr []). by eexists _, _.
  - exists (InResult (Ok tt)). by eexists _, _.
Qed.

Fixpoint all_sync {A} (p : prog A) : Prop :=
  match p with Ret _ => True | Do o k => awaits o = false /\ forall x, all_sync (k x) end.

Lemma drop_sync t s : all_sync (drop_task t s;; mret Dropped).
Proof.
  unfold drop_task, complete, cancel_execution_if_denied, publish_and_remove.
  case_bool_decide; destruct (owners s !! t) as [[o []]|]; try destruct (execution_cancellation o); repeat (split; [done|]; intros []); done.
Qed.

(** Task [u] ran alone from [s] to [s'], and holds nothing any more. *)
Definition ran_alone (u : nat) (s s' : system) : Prop :=
  rtc steps s s' /\ ownerless u (service s')
  /\ forall v, v <> u -> tasks s' !! v = tasks s !! v /\ rely v (service s) (service s').

Lemma with_code_others s sv u tk p v : v <> u -> tasks (with_code s sv u tk p) !! v = tasks s !! v.
Proof. intros Hv. cbn. by rewrite lookup_insert_ne. Qed.

Lemma ran_alone_step c u s s1 s' :
  sys_inv s -> step c s = Some s1 -> (c = Drop u \/ exists i, c = Run u i) -> ran_alone u s1 s' -> ran_alone u s s'.
Proof.
  intros HI Hs Hc (Hr & Ho & Hv). split; [eapply rtc_l; [by exists c | done]|]. split; [done|]. intros v Hvu. destruct (Hv v Hvu) as [Ht Hrv].
  assert (forall i, c <> Run v i) as Hcv by (destruct Hc as [-> |[i ->]]; [done | intros j [=]; congruence]).
  split; [|eapply rely_trans; [by eapply step_rely | done]]. rewrite Ht.
  destruct Hc as [-> |[i ->]]; simpl in Hs; (destruct (tasks s !! u) as [tk|]; [|done]); simpl in Hs; destruct (code tk) as [a|o k]; try done.
  - destruct (awaits o); [|done]. injection Hs as <-. by apply with_code_others.
  - destruct (performs u o i (service s)) as [[sv x]|]; [|done]. injection Hs as <-. by apply with_code_others.
Qed.

Lemma sync_runs u s tk : sys_inv s -> tasks s !! u = Some tk -> all_sync (code tk) -> exists s', ran_alone u s s'.
Proof.
  destruct tk as [a b p]. cbn [code]. revert s. induction p as [ans|o k IH]; intros s HI Ht Hs.
  - exists s. split; [done|]. split; [|intros v _; split; [done | apply rely_refl]].
    by destruct (returned_promise _ _ _ _ HI Ht eq_refl) as [[? _] _].
  - destruct Hs as [Ha Hk]. destruct (sys_tasks s HI _ _ Ht) as [_ Hw]. cbn [code] in Hw.
    destruct (Hw _ (rely_refl _ _) (sys_service s HI)) as (Hpre & _ & _). destruct (sync_enabled _ _ _ Ha Hpre) as (i & sv & x & Hp).
    assert (step (Run u i) s = Some (with_code s sv u (mkTask a b (Do o k)) (k x))) as Hstep by (simpl; rewrite Ht; simpl; by rewrite Hp).
    destruct (step_inv _ _ _ HI Hstep) as [HI' _]. edestruct (IH x) as [s' Hs']; [exact HI'|apply lookup_insert_eq|apply Hk|].
    exists s'. eapply ran_alone_step; eauto.
Qed.

(** Every task can be brought to an end: by its own steps up to where it waits, and by
    dropping it there. *)
Lemma task_ends u s tk : sys_inv s -> tasks s !! u = Some tk -> exists s', ran_alone u s s'.
Proof.
  destruct tk as [a b p]. revert s. induction p as [ans|o k IH]; intros s HI Ht; [by eapply sync_runs|].
  destruct (awaits o) eqn:Ea.
  - assert (step (Drop u) s = Some (with_code s (service s) u (mkTask a b (Do o k)) (drop_task u (service s);; mret Dropped))) as Hstep
      by (simpl; rewrite Ht; simpl; by rewrite Ea).
    destruct (step_inv _ _ _ HI Hstep) as [HI' _]. edestruct sync_runs as [s' Hs']; [exact HI'|apply lookup_insert_eq|apply drop_sync|].
    exists s'. eapply ran_alone_step; eauto.
  - destruct (sys_tasks s HI _ _ Ht) as [_ Hw]. cbn [code] in Hw.
    destruct (Hw _ (rely_refl _ _) (sys_service s HI)) as (Hpre & _ & _). destruct (sync_enabled _ _ _ Ea Hpre) as (i & sv & x & Hp).
    assert (step (Run u i) s = Some (with_code s sv u (mkTask a b (Do o k)) (k x))) as Hstep by (simpl; rewrite Ht; simpl; by rewrite Hp).
    destruct (step_inv _ _ _ HI Hstep) as [HI' _]. edestruct (IH x) as [s' Hs']; [exact HI'|apply lookup_insert_eq|].
    exists s'. eapply ran_alone_step; eauto.
Qed.

(** The cell whose decision the program waits for. *)
Definition waiting_for {A} (p : prog A) : option nat := match p with Do (OWait cell) _ => Some cell | _ => None end.

Lemma waiting_for_spec {A} (p : prog A) cell : waiting_for p = Some cell -> exists k, p = Do (OWait cell) k.
Proof. destruct p as [|o k]; [done|]. destruct o; try done. intros [= ->]. by exists k. Qed.

(** C13.  Nobody waits for a decision that cannot come: while a task waits for the decision
    of another's question and there is none yet, exactly one other task owns the question
    and is still running; and whatever becomes of that task, also if it is dropped where
    it stands, its end leaves a decision with which the waiting task goes on. *)
Theorem waits_end s t tk cell :
  reachable s -> tasks s !! t = Some tk -> waiting_for (code tk) = Some cell -> cells (service s) !! cell = None ->
  exists u o d, owners (service s) !! u = Some (o, d) /\ owner_cell o = cell /\ u <> t
    /\ (forall v o' d', owners (service s) !! v = Some (o', d') -> owner_cell o' = cell -> v = u)
    /\ (exists uk, tasks s !! u = Some uk /\ forall ans, code uk <> Ret ans)
    /\ exists s', ran_alone u s s' /\ is_Some (step (Run t NoInput) s').
Proof.
  intros HI%reachable_inv Ht [k Hc]%waiting_for_spec Hn. destruct (sys_tasks s HI _ _ Ht) as [_ Hw]. rewrite Hc in Hw. pose proof (sys_service s HI) as Hi.
  destruct (Hw _ (rely_refl _ _) Hi) as ([Hnone [o Hm]] & _ & _). destruct (inv_made _ Hi _ _ Hm) as (_ & Hcell & [[d Hd]|(u & d & Hu)]); [congruence|].
  assert (forall v o' d', owners (service s) !! v = Some (o', d') -> owner_cell o' = cell -> v = u) as Huniq.
  { intros v o' d' Hv Hc'. eapply (inv_distinct _ Hi); [done..|]. congruence. }
  assert (u <> t) as Hut by congruence.
  destruct (tasks s !! u) as [uk|] eqn:Euk; [|destruct (sys_others s HI u Euk) as [Ho _]; unfold ownerless in Ho; congruence].
  destruct (task_ends u s uk HI Euk) as [s' Hs']. exists u, o, d. split; [done|]. split; [done|]. split; [done|]. split; [done|].
  split; [exists uk; split; [done|]; intros ans Hr; destruct (returned_promise _ _ _ _ HI Euk Hr) as [[Ho _] _]; unfold ownerless in Ho; congruence|].
  exists s'. split; [done|]. destruct Hs' as (Hr & Ho' & Hv). destruct (Hv t) as [Htk Hrt]; [done|].
  simpl. rewrite Htk, Ht. simpl. rewrite Hc. pose proof (steps_inv _ _ HI Hr) as HI'. pose proof (sys_service s' HI') as Hi'.
  destruct (inv_made _ Hi' cell o (rely_made _ _ _ Hrt _ _ Hm)) as (_ & _ & [[d' Hd']|(v & d' & Hv')]).
  - cbn. rewrite Hd'. by eexists.
  - exfalso. destruct (decide (v = u)) as [-> | Hvu]; [unfold ownerless in Ho'; congruence|].
    destruct (Hv v Hvu) as [_ Hrv]. rewrite (rely_owner _ _ _ Hrv) in Hv'. by apply Hvu, (Huniq v o d').
Qed.

(** ** Runs *)

Module ApprovalDemo.

Definition profile : permission_profile := Managed (ManagedRestricted [] None) NetRestricted.
Definition turn : ActiveTurn := mkTurn (lit "turn") [(lit "local", profile)] OnRequest ReviewerUser.
Definition spec : NetworkApprovalSpec unit := mkNetworkSpec (Some tt) Immediate (lit "curl example.com") (lit "local") profile.
Definition request (id : str) : NetworkPolicyRequest :=
  mkPolicyRequest HttpsConnect (lit "Example.com") 443 None None None None None (Some id).
Definition host : HostApprovalKey := mkHostKey (lit "local") (lit "example.com") (lit "https") 443.
Definition first : str := lit "execution-1".
Definition amendment (action : NetworkPolicyRuleAction) : ReviewDecision := NetworkAmendment (mkNetworkAmendment (lit "example.com") action).

(** A call is registered by task [t]; task [t] asks about the host, up to its pending
    approval; the user answers. *)
Definition begins (t : nat) (id : str) : list choice :=
  [Start (Begin (lit "turn") true (Some spec)); Run t (InStr id); Run t (InStr []); Run t (InResult (Ok tt)); Run t NoInput; Run t NoInput].
Definition asks (t : nat) (id : str) : list choice :=
  [Start (Decide (request id)); Run t (InBool true); Run t NoInput; Run t (InTurn (Some turn))] ++ repeat (Run t NoInput) 5.
Definition user_says (t : nat) (d : ReviewDecision) : list choice := [Run t (InHook None); Run t (InStr []); Run t (InUser d)].

Definition after (cs : list choice) : system := default new_system (schedule cs new_system).

Lemma after_reachable cs : bool_decide (is_Some (schedule cs new_system)) = true -> reachable (after cs).
Proof. rewrite bool_decide_eq_true. intros [s Hs]. unfold after. rewrite Hs. by eapply schedule_steps. Qed.

(** Tasks 1 and 2 ask the same question; task 2 waits for task 1. *)
Definition two_ask : list choice := begins 0 first ++ asks 1 first ++ asks 2 first.

(** The user allows the host for the session, and both are allowed. *)
Definition approved_run : list choice := two_ask ++ user_says 1 ApprovedForSession ++ repeat (Run 1 NoInput) 7 ++ [Run 2 NoInput].

(** The first question is dropped, and the waiting task is refused. *)
Definition dropped_run : list choice := two_ask ++ [Drop 1] ++ repeat (Run 1 NoInput) 3 ++ [Run 2 NoInput].

Lemma approved_run_answers :
  code <$> tasks (after approved_run) !! 1 = Some (Ret (Decided DecideAllow)) /\
  code <$> tasks (after approved_run) !! 2 = Some (Ret (Decided DecideAllow)).
Proof. vm_compute. by split. Qed.

Lemma dropped_run_answers :
  code <$> tasks (after dropped_run) !! 1 = Some (Ret Dropped) /\
  code <$> tasks (after dropped_run) !! 2 = Some (Ret (Decided not_allowed)).
Proof. vm_compute. by split. Qed.

Lemma allowed_requests_granted_witness :
  exists tk, tasks (after approved_run) !! 2 = Some tk
    /\ allowed_by 2 (request first) (events (born tk)) (service (after approved_run)).
Proof.
  assert ((fun tk => (task_api tk, code tk)) <$> tasks (after approved_run) !! 2 = Some (Decide (request first), Ret (Decided DecideAllow))) as Ht
    by (vm_compute; reflexivity).
  apply fmap_Some in Ht as (tk & Ht & Htk). injection Htk as Ha Hc. exists tk. split; [exact Ht|].
  apply (allowed_requests_granted (after approved_run) 2 tk); [apply after_reachable; vm_compute; reflexivity|exact Ht|by rewrite Ha|by rewrite Hc].
Defined.

Lemma waits_end_witness :
  exists u o d, owners (service (after two_ask)) !! u = Some (o, d) /\ owner_cell o = 0 /\ u <> 2
    /\ (forall v o' d', owners (service (after two_ask)) !! v = Some (o', d') -> owner_cell o' = 0 -> v = u)
    /\ (exists uk, tasks (after two_ask) !! u = Some uk /\ forall ans, code uk <> Ret ans)
    /\ exists s', ran_alone u (after two_ask) s' /\ is_Some (step (Run 2 NoInput) s').
Proof.
  assert ((fun tk => waiting_for (code tk)) <$> tasks (after two_ask) !! 2 = Some (Some 0)) as Ht by (vm_compute; reflexivity).
  apply fmap_Some in Ht as (tk & Ht & Hw).
  apply (waits_end (after two_ask) 2 tk 0); [apply after_reachable; vm_compute; reflexivity|exact Ht|by rewrite <-Hw|vm_compute; reflexivity].
Defined.





(** The user denies, and the call is finished. *)
Definition rejected_run : list choice :=
  begins 0 first ++ asks 1 first ++ user_says 1 (Denied (lit "no")) ++ repeat (Run 1 NoInput) 6 ++ [Start (Finish first 0); Run 2 NoInput].

Lemma denied_execution_rejected_witness : exists tk r, tasks (after rejected_run) !! 2 = Some tk /\ code tk = Ret (Finished r) /\ r <> Some (Ok tt).
Proof.
  assert ((fun tk => (task_api tk, code tk, made_for (born tk) !! 0, cells (born tk) !! 0)) <$> tasks (after rejected_run) !! 2 =
    Some (Finish first 0, Ret (Finished (Some (Err (Rejected (lit "no"))))),
          Some (mkOwner (pending_key host turn (Some (mkCall first (lit "turn") (lit "curl example.com") (lit "local") profile 0))) 0 (Some 0)),
          Some DenyRequest)) as Ht by (vm_compute; reflexivity).
  apply fmap_Some in Ht as (tk & Ht & Htk). injection Htk as Ha Hc Hm Hd. eexists tk, _. split; [exact Ht|]. split; [by rewrite <-Hc|].
  eapply (denied_execution_rejected (after rejected_run) 2 tk first 0 _ 0);
    [apply after_reachable; vm_compute; reflexivity|exact Ht|by rewrite <-Hc|left; by rewrite <-Ha|by rewrite <-Hm|reflexivity|by rewrite <-Hd].
Defined.

(** A request that was blocked is recorded for a call that has finished since: the outcome
    stays, with no call to take it. *)
Definition blocked : BlockedRequest :=
  mkBlockedRequest (lit "example.com") (lit "denied") None None None (lit "https") (Some first) (Some (lit "deny")) None None 0.
Definition late_block : list choice :=
  begins 0 first ++ [Start (Blocked blocked); Run 1 NoInput; Start (Finish first 0)] ++ repeat (Run 2 NoInput) 2 ++ repeat (Run 1 NoInput) 2.

Lemma late_block_stays :
  code <$> tasks (after late_block) !! 2 = Some (Ret (Finished (Some (Ok tt))))
  /\ active_calls (calls (service (after late_block))) = []
  /\ bool_decide (is_Some (call_outcomes (calls (service (after late_block))) !! first)) = true.
Proof. vm_compute. by repeat split. Qed.

(** The owner is dropped after the proxy was updated: the waiting task is allowed. *)
Definition applied_then_dropped : list choice :=
  two_ask ++ user_says 1 (amendment RuleAllow) ++ [Run 1 NoInput; Run 1 (InBool true); Run 1 (InProxy (Some (Ok tt))); Run 1 NoInput; Drop 1]
  ++ repeat (Run 1 NoInput) 3 ++ [Run 2 NoInput].

Lemma applied_then_dropped_allows :
  code <$> tasks (after applied_then_dropped) !! 1 = Some (Ret Dropped)
  /\ code <$> tasks (after applied_then_dropped) !! 2 = Some (Ret (Decided DecideAllow)).
Proof. vm_compute. by split. Qed.
End ApprovalDemo.
