(* ===== verification/TurnDiff.v ===== *)
(** * The diff of a turn

    Models [core/src/turn_diff_tracker.rs]: from the deltas of the patches of a turn,
    without reading the files again, to one diff against the files of before.  The
    texts of a path below a root, the object id of a text and the line diff are library
    code and parameters.  The line diff has a deadline of 100 ms, after which the library
    falls back to a coarser diff of the same texts, so two renderings may differ; the
    parameter is one such rendering, any function, and the statements fix the texts that
    are compared and not the diff that is chosen.  Revisions count up without bound (the code's [u64]
    counter would have to be incremented 2^64 times). *)

From Stdlib Require Import ZArith Lia.
From stdpp Require Import gmap.
From S2P Require Import Prelude RustStr PatchSyntax ApplyPatch AbsPath Profile Permissions SandboxPolicies.

Definition ZERO_OID : str := lit "0000000000000000000000000000000000000000".
Definition DEV_NULL : str := lit "/dev/null".
Definition REGULAR_FILE_MODE : str := lit "100644".

Record TrackedContent : Type := mkTracked { tracked_text : str; revision : N }.

(** What the code uses of the libraries; [unified_diff_of] is any rendering of the diff of
    two texts (see above). *)
Class DiffOps (U : Type) : Type := {
  relative_path_from : U -> U -> option str;
  native_path_string : U -> str;
  git_blob_oid : str -> str;
  unified_diff_of : str -> str -> str -> str -> str;
}.

Section Tracker.
Context {U : Type} `{Countable U, !DiffOps U}.

(** An environment and a path in it. *)
Definition TrackedPath : Type := str * U.
Definition DiffCacheKey : Type := TrackedPath * option N * TrackedPath * option N.

Record TurnDiffTracker : Type := mkTracker {
  valid : bool;
  display_roots_by_environment : gmap str U;
  baseline_by_path : gmap TrackedPath TrackedContent;
  current_by_path : gmap TrackedPath TrackedContent;
  origin_by_current_path : gmap TrackedPath TrackedPath;
  next_revision : N;
  rendered_diffs : gmap DiffCacheKey (option str);
  unified_diff : option str;
}.

Definition new_tracker (display_roots : gmap str U) : TurnDiffTracker := mkTracker true display_roots ∅ ∅ ∅ 0 ∅ None.

Definition set_maps (t : TurnDiffTracker) (baseline current : gmap TrackedPath TrackedContent)
    (origin : gmap TrackedPath TrackedPath) (next : N) : TurnDiffTracker :=
  mkTracker (valid t) (display_roots_by_environment t) baseline current origin next (rendered_diffs t) (unified_diff t).

Definition display_path (t : TurnDiffTracker) (p : TrackedPath) : str :=
  let display :=
    match display_roots_by_environment t !! p.1 ≫= (fun root => relative_path_from p.2 root) with
    | Some relative => relative
    | None => native_path_string p.2
    end in
  if (1 <? size (display_roots_by_environment t))%nat && negb (is_empty p.1)
  then p.1 ++ lit "/" ++ display else display.

(** ** Changes *)

(** [tracked_content] of a text that goes into the baseline unless the path is tracked. *)
Definition keep_baseline (t : TurnDiffTracker) (p : TrackedPath) (content : option str) : TurnDiffTracker :=
  match content, current_by_path t !! p, baseline_by_path t !! p with
  | Some text, None, None =>
      set_maps t (<[p := mkTracked text (next_revision t)]> (baseline_by_path t)) (current_by_path t) (origin_by_current_path t)
        (N.succ (next_revision t))
  | _, _, _ => t
  end.

Definition set_current (t : TurnDiffTracker) (p : TrackedPath) (content : str) : TurnDiffTracker :=
  set_maps t (baseline_by_path t) (<[p := mkTracked content (next_revision t)]> (current_by_path t)) (origin_by_current_path t)
    (N.succ (next_revision t)).

Definition remove_current (t : TurnDiffTracker) (p : TrackedPath) : TurnDiffTracker :=
  set_maps t (baseline_by_path t) (delete p (current_by_path t)) (origin_by_current_path t) (next_revision t).

Definition set_origin (t : TurnDiffTracker) (p : TrackedPath) (origin : option TrackedPath) : TurnDiffTracker :=
  set_maps t (baseline_by_path t) (current_by_path t)
    (match origin with Some o => <[p := o]> (origin_by_current_path t) | None => delete p (origin_by_current_path t) end)
    (next_revision t).

Definition apply_add (t : TurnDiffTracker) (p : TrackedPath) (content : str) (overwritten_content : option str) : TurnDiffTracker :=
  let t := set_origin t p None in
  let t := keep_baseline t p overwritten_content in
  set_current t p content.

Definition apply_delete (t : TurnDiffTracker) (p : TrackedPath) (content : str) : TurnDiffTracker :=
  let t := keep_baseline t p (Some content) in
  set_origin (remove_current t p) p None.

Definition apply_update (t : TurnDiffTracker) (source_path : TrackedPath) (move_path : option TrackedPath) (old_content : str)
    (overwritten_move_content : option str) (new_content : str) : TurnDiffTracker :=
  let t := keep_baseline t source_path (Some old_content) in
  match move_path with
  | Some dest_path =>
      let t := keep_baseline t dest_path overwritten_move_content in
      let origin := default source_path (origin_by_current_path t !! source_path) in
      let t := set_origin t source_path None in
      let t := remove_current t source_path in
      let t := set_current t dest_path new_content in
      let t := set_origin t dest_path None in
      if bool_decide (dest_path <> origin) then set_origin t dest_path (Some origin) else t
  | None => set_current t source_path new_content
  end.

Definition apply_change (environment_id : str) (t : TurnDiffTracker) (c : AppliedPatchChange U) : TurnDiffTracker :=
  let source_path := (environment_id, change_path c) in
  match change c with
  | ChangeAdd content overwritten_content => apply_add t source_path content overwritten_content
  | ChangeDelete content => apply_delete t source_path content
  | ChangeUpdate move_path old_content overwritten_move_content new_content =>
      apply_update t source_path (pair environment_id <$> move_path) old_content overwritten_move_content new_content
  end.

(** ** Rendering *)

Definition rename_pair (t : TurnDiffTracker) (dest_path origin_path : TrackedPath) : bool :=
  negb (bool_decide (dest_path = origin_path)
        || bool_decide (is_Some (current_by_path t !! origin_path))
        || negb (bool_decide (is_Some (current_by_path t !! dest_path)))
        || negb (bool_decide (is_Some (baseline_by_path t !! origin_path)))
        || bool_decide (is_Some (baseline_by_path t !! dest_path))).

(** From origins to destinations; when two destinations have one origin, the last of the
    iteration wins. *)
Definition rename_pairs (t : TurnDiffTracker) : gmap TrackedPath TrackedPath :=
  fold_left (fun acc '(dest_path, origin_path) =>
    if rename_pair t dest_path origin_path then <[origin_path := dest_path]> acc else acc) (map_to_list (origin_by_current_path t)) ∅.

Definition render_diff (t : TurnDiffTracker) (left_path : TrackedPath) (left_content : option str) (right_path : TrackedPath)
    (right_content : option str) : option str :=
  if bool_decide (left_content = right_content) then None
  else
    let left_display := replace (lit "\") (lit "/") (display_path t left_path) in
    let right_display := replace (lit "\") (lit "/") (display_path t right_path) in
    let oid c := match c with None => ZERO_OID | Some content => git_blob_oid content end in
    let mode :=
      match left_content, right_content with
      | None, Some _ => lit "new file mode " ++ REGULAR_FILE_MODE ++ [LF]
      | Some _, None => lit "deleted file mode " ++ REGULAR_FILE_MODE ++ [LF]
      | _, _ => []
      end in
    let old_header := match left_content with Some _ => lit "a/" ++ left_display | None => DEV_NULL end in
    let new_header := match right_content with Some _ => lit "b/" ++ right_display | None => DEV_NULL end in
    Some (lit "diff --git a/" ++ left_display ++ lit " b/" ++ right_display ++ [LF] ++ mode
          ++ lit "index " ++ oid left_content ++ lit ".." ++ oid right_content ++ [LF]
          ++ unified_diff_of (default [] left_content) (default [] right_content) old_header new_header).

Record refresh_state : Type := mkRefresh {
  handled : gset TrackedPath;
  previous : gmap DiffCacheKey (option str);
  rendered : gmap DiffCacheKey (option str);
  aggregated : str;
}.

Definition add_line_end (s : str) : str := if ends_with [LF] s then s else s ++ [LF].

(** One turn of the loop. *)
Definition refresh_path (t : TurnDiffTracker) (pairs : gmap TrackedPath TrackedPath) (paired_destinations : gset TrackedPath)
    (x : refresh_state) (p : TrackedPath) : refresh_state :=
  if bool_decide (p ∈ handled x) then x
  else
    let x := mkRefresh ({[p]} ∪ handled x) (previous x) (rendered x) (aggregated x) in
    if bool_decide (p ∈ paired_destinations) then x
    else
      let right_path := default p (pairs !! p) in
      let handled' := match pairs !! p with Some dest => {[dest]} ∪ handled x | None => handled x end in
      let left_content := baseline_by_path t !! p in
      let right_content := current_by_path t !! right_path in
      let key := (p, revision <$> left_content, right_path, revision <$> right_content) in
      let diff :=
        match previous x !! key with
        | Some cached => cached
        | None => render_diff t p (tracked_text <$> left_content) right_path (tracked_text <$> right_content)
        end in
      mkRefresh handled' (delete key (previous x)) (<[key := diff]> (rendered x))
        (match diff with Some text => add_line_end (aggregated x ++ text) | None => aggregated x end).

Definition diff_paths (t : TurnDiffTracker) : list TrackedPath :=
  dedup_adjacent (stable_sort (fun a b => str_le (display_path t a) (display_path t b))
    (map fst (map_to_list (baseline_by_path t)) ++ map fst (map_to_list (current_by_path t)))).

Definition refresh_unified_diff (t : TurnDiffTracker) : TurnDiffTracker :=
  let pairs := rename_pairs t in
  let paired_destinations : gset TrackedPath := list_to_set (map snd (map_to_list pairs)) in
  let x := fold_left (refresh_path t pairs paired_destinations) (diff_paths t) (mkRefresh ∅ (rendered_diffs t) ∅ []) in
  mkTracker (valid t) (display_roots_by_environment t) (baseline_by_path t) (current_by_path t) (origin_by_current_path t)
    (next_revision t) (rendered x) (if is_empty (aggregated x) then None else Some (aggregated x)).

Definition invalidate (t : TurnDiffTracker) : TurnDiffTracker :=
  mkTracker false (display_roots_by_environment t) (baseline_by_path t) (current_by_path t) (origin_by_current_path t)
    (next_revision t) ∅ None.

Definition track_delta (t : TurnDiffTracker) (environment_id : str) (delta : AppliedPatchDelta U) : TurnDiffTracker :=
  if negb (valid t) then t
  else if negb (exact delta) then invalidate t
  else refresh_unified_diff (fold_left (apply_change environment_id) (changes delta) t).
End Tracker.

(** ** The maps hold the net change *)

Section Net.
Context {U : Type} `{Countable U, !DiffOps U}.
Implicit Types (t : TurnDiffTracker (U := U)) (p q : TrackedPath (U := U)) (m : gmap (TrackedPath (U := U)) str).

(** A change of an environment's file as one of the files of all environments. *)
Definition tag_change (env : str) (c : AppliedPatchChange U) : AppliedPatchChange TrackedPath :=
  mkChange (env, change_path c)
    (match change c with
     | ChangeAdd content overwritten => ChangeAdd content overwritten
     | ChangeDelete content => ChangeDelete content
     | ChangeUpdate move_path old overwritten new => ChangeUpdate (pair env <$> move_path) old overwritten new
     end).

(** A move to another path. *)
Definition moves_away (c : AppliedPatchChange U) : Prop :=
  match change c with ChangeUpdate (Some dest) _ _ _ => dest <> change_path c | _ => True end.

Definition baseline_text t p : option str := tracked_text <$> baseline_by_path t !! p.
Definition current_text t p : option str := tracked_text <$> current_by_path t !! p.

(** The path is tracked, with its text of before and of now; or it is not and has not
    changed. *)
Definition net_at t m0 m p : Prop :=
  (current_text t p = m !! p /\ baseline_text t p = m0 !! p) \/
  (current_text t p = None /\ baseline_text t p = None /\ m !! p = m0 !! p).

Definition net t m0 m : Prop := forall p, net_at t m0 m p.

Lemma net_at_frame t t' m0 m m' p :
  current_text t' p = current_text t p -> baseline_text t' p = baseline_text t p -> m' !! p = m !! p ->
  net_at t m0 m p -> net_at t' m0 m' p.
Proof. unfold net_at. by intros -> -> ->. Qed.

Lemma keep_baseline_current t p content q : current_text (keep_baseline t p content) q = current_text t q.
Proof. unfold keep_baseline, current_text. by repeat case_match. Qed.

Lemma keep_baseline_other t p content q : q <> p -> baseline_text (keep_baseline t p content) q = baseline_text t q.
Proof. intros Hq. unfold keep_baseline, baseline_text. repeat case_match; try done. simpl. by rewrite lookup_insert_ne. Qed.

(** Where a path is first touched its text of before is kept. *)
Lemma keep_baseline_at t m0 m p : net_at t m0 m p -> baseline_text (keep_baseline t p (m !! p)) p = m0 !! p.
Proof.
  unfold net_at, keep_baseline, baseline_text, current_text. intros Hn.
  destruct (m !! p) as [text|] eqn:Em.
  - destruct (current_by_path t !! p) as [c|] eqn:Ec; [destruct Hn as [[_ ?]|[? _]]; done|].
    destruct (baseline_by_path t !! p) as [b|] eqn:Eb; [destruct Hn as [[? _]|(_ & ? & _)]; done|].
    simpl. rewrite lookup_insert_eq. simpl. destruct Hn as [[? _]|(_ & _ & ?)]; done.
  - destruct Hn as [[_ ?]|(_ & Hb & Hm)]; [done | by rewrite Hb].
Qed.

Lemma set_origin_texts t p o q :
  current_text (set_origin t p o) q = current_text t q /\ baseline_text (set_origin t p o) q = baseline_text t q.
Proof. done. Qed.

Lemma set_current_at t p content : current_text (set_current t p content) p = Some content.
Proof. unfold current_text, set_current. simpl. by rewrite lookup_insert_eq. Qed.

Lemma set_current_other t p content q : q <> p -> current_text (set_current t p content) q = current_text t q.
Proof. intros Hq. unfold current_text, set_current. simpl. by rewrite lookup_insert_ne. Qed.

Lemma remove_current_at t p : current_text (remove_current t p) p = None.
Proof. unfold current_text, remove_current. simpl. by rewrite lookup_delete_eq. Qed.

Lemma remove_current_other t p q : q <> p -> current_text (remove_current t p) q = current_text t q.
Proof. intros Hq. unfold current_text, remove_current. simpl. by rewrite lookup_delete_ne. Qed.

Lemma apply_add_net t m0 m p content :
  net t m0 m -> net (apply_add t p content (m !! p)) m0 (<[p := content]> m).
Proof.
  intros Hn q. unfold apply_add. set (t1 := set_origin t p None).
  assert (net t1 m0 m) as Hn1 by exact Hn.
  destruct (decide (q = p)) as [->|Hq].
  - left. rewrite set_current_at, lookup_insert_eq. split; [done|]. exact (keep_baseline_at t1 m0 m p (Hn1 p)).
  - eapply net_at_frame; [| | |exact (Hn1 q)].
    + by rewrite set_current_other, keep_baseline_current.
    + exact (keep_baseline_other t1 p (m !! p) q Hq).
    + by rewrite lookup_insert_ne.
Qed.

Lemma apply_delete_net t m0 m p content :
  net t m0 m -> m !! p = Some content -> net (apply_delete t p content) m0 (delete p m).
Proof.
  intros Hn Hp q. unfold apply_delete. rewrite <-Hp.
  destruct (decide (q = p)) as [->|Hq].
  - left. rewrite lookup_delete_eq. split; [apply remove_current_at | exact (keep_baseline_at t m0 m p (Hn p))].
  - eapply net_at_frame; [| | |exact (Hn q)].
    + rewrite (proj1 (set_origin_texts _ _ _ _)), remove_current_other, keep_baseline_current by done. done.
    + exact (keep_baseline_other t p (m !! p) q Hq).
    + by rewrite lookup_delete_ne.
Qed.

Lemma apply_update_net t m0 m p old new :
  net t m0 m -> m !! p = Some old -> net (apply_update t p None old None new) m0 (<[p := new]> m).
Proof.
  intros Hn Hp q. unfold apply_update. rewrite <-Hp.
  destruct (decide (q = p)) as [->|Hq].
  - left. rewrite set_current_at, lookup_insert_eq. split; [done | exact (keep_baseline_at t m0 m p (Hn p))].
  - eapply net_at_frame; [| | |exact (Hn q)].
    + by rewrite set_current_other, keep_baseline_current.
    + exact (keep_baseline_other t p (m !! p) q Hq).
    + by rewrite lookup_insert_ne.
Qed.

Lemma apply_move_net t m0 m p dest old new :
  net t m0 m -> m !! p = Some old -> dest <> p ->
  net (apply_update t p (Some dest) old (m !! dest) new) m0 (delete p (<[dest := new]> m)).
Proof.
  intros Hn Hp Hd q. unfold apply_update. rewrite <-Hp. set (t1 := keep_baseline t p (m !! p)).
  assert (net_at t1 m0 m dest) as Hdest.
  { eapply net_at_frame; [apply keep_baseline_current | by apply keep_baseline_other | done | apply Hn]. }
  set (t2 := keep_baseline t1 dest (m !! dest)). set (origin := default p _).
  set (t3 := set_current (remove_current (set_origin t2 p None) p) dest new).
  assert (forall t', t' = set_origin t3 dest None \/ t' = set_origin (set_origin t3 dest None) dest (Some origin) ->
            net_at t' m0 (delete p (<[dest := new]> m)) q) as Hend.
  { intros t' Ht'. assert (net_at t3 m0 (delete p (<[dest := new]> m)) q) as H3; [|by destruct Ht' as [-> | ->]].
    assert (baseline_text t3 q = baseline_text t2 q) as Hb by done.
    destruct (decide (q = dest)) as [->|Hq1]; [|destruct (decide (q = p)) as [->|Hq2]].
    - left. rewrite Hb. unfold t3. rewrite set_current_at, lookup_delete_ne, lookup_insert_eq by done.
      split; [done | by apply keep_baseline_at].
    - left. rewrite Hb. unfold t3. rewrite set_current_other, remove_current_at, lookup_delete_eq by done.
      split; [done|]. unfold t2. rewrite keep_baseline_other by done. exact (keep_baseline_at t m0 m p (Hn p)).
    - eapply net_at_frame; [| | |exact (Hn q)].
      + unfold t3. rewrite set_current_other, remove_current_other by done. unfold t2, t1.
        rewrite (proj1 (set_origin_texts _ _ _ _)), !keep_baseline_current. done.
      + rewrite Hb. unfold t2, t1. by rewrite !keep_baseline_other.
      + by rewrite lookup_delete_ne, lookup_insert_ne. }
  case_bool_decide; apply Hend; auto.
Qed.

(** A change that records what was there takes the net change along. *)
Lemma apply_change_net env t m0 m (c : AppliedPatchChange U) :
  net t m0 m -> undo_change (replay_change m (tag_change env c)) (tag_change env c) = m -> moves_away c ->
  net (apply_change env t c) m0 (replay_change m (tag_change env c)).
Proof.
  intros Hn Hu Hm. unfold apply_change, tag_change, undo_change, replay_change, moves_away in *.
  destruct c as [p [content ov|content|[dest|] old ov new]]; simpl in *; pose proof (f_equal (lookup (env, p)) Hu) as Hp.
  - assert (m !! (env, p) = ov) as <-.
    { rewrite <-Hp. destruct ov; simpl; [by rewrite lookup_insert_eq | by rewrite lookup_delete_eq]. }
    by apply apply_add_net.
  - rewrite lookup_insert_eq in Hp. by apply apply_delete_net.
  - rewrite lookup_insert_eq in Hp.
    assert ((env, dest) <> (env, p)) as Hne by (intros [=]; done).
    assert (m !! (env, dest) = ov) as <-.
    { pose proof (f_equal (lookup (env, dest)) Hu) as Hd. rewrite lookup_insert_ne in Hd by done. rewrite <-Hd.
      destruct ov; simpl; [by rewrite lookup_insert_eq | by rewrite lookup_delete_eq]. }
    by apply apply_move_net.
  - rewrite lookup_insert_eq in Hp. by apply apply_update_net.
Qed.

Lemma apply_changes_net env (cs : list (AppliedPatchChange U)) : forall t m0 m,
  net t m0 m -> faithful m (map (tag_change env) cs) -> Forall moves_away cs ->
  net (fold_left (apply_change env) cs t) m0 (replay (map (tag_change env) cs) m).
Proof.
  induction cs as [|c cs IH]; intros t m0 m Hn Hf Hm; [done|]. simpl in Hf. destruct Hf as [Hc Hf].
  apply Forall_cons in Hm as [Hm1 Hm2]. simpl. apply IH; [by apply apply_change_net | done | done].
Qed.
End Net.

(** ** The cached diff is the diff *)

Section Render.
Context {U : Type} `{Countable U, !DiffOps U}.
Abbreviation tracker := (TurnDiffTracker (U := U)).
Abbreviation path := (TrackedPath (U := U)).
Implicit Types (t : tracker) (p q : path).

(** The diff without a cache and without a set of the paths already shown: the first
    occurrence of every path that is no target of a shown rename, in the order of their
    display. *)
Fixpoint first_seen (seen : gset path) (ps : list path) : list path :=
  match ps with
  | [] => []
  | p :: ps' => if bool_decide (p ∈ seen) then first_seen seen ps' else p :: first_seen ({[p]} ∪ seen) ps'
  end.

Definition rename_targets t : gset path := list_to_set (map snd (map_to_list (rename_pairs t))).

Definition right_of t p : path := default p (rename_pairs t !! p).

Definition section_of t p : option str :=
  if bool_decide (p ∈ rename_targets t) then None
  else render_diff t p (baseline_text t p) (right_of t p) (current_text t (right_of t p)).

Definition reference_diff t : str := concat (map add_line_end (omap (section_of t) (first_seen ∅ (diff_paths t)))).

(** A cached diff is what would be rendered: the revision in its key stands for one
    text. *)
Definition entry_ok t (text : N -> str) (key : DiffCacheKey (U := U)) (d : option str) : Prop :=
  d = render_diff t key.1.1.1 (text <$> key.1.1.2) key.1.2 (text <$> key.2).

Definition entry_old t (key : DiffCacheKey (U := U)) : Prop :=
  forall r, key.1.1.2 = Some r \/ key.2 = Some r -> (r < next_revision t)%N.

Definition content_ok t (text : N -> str) (c : TrackedContent) : Prop :=
  (revision c < next_revision t)%N /\ text (revision c) = tracked_text c.

Record cached t (text : N -> str) : Prop := {
  cached_baseline : map_Forall (fun _ c => content_ok t text c) (baseline_by_path t);
  cached_current : map_Forall (fun _ c => content_ok t text c) (current_by_path t);
  cached_rendered : map_Forall (fun key d => entry_old t key /\ entry_ok t text key d) (rendered_diffs t);
}.

Definition cache_ok t : Prop := exists text, cached t text.

Lemma content_text t (text : N -> str) (cs : gmap path TrackedContent) p :
  map_Forall (fun _ c => content_ok t text c) cs -> text <$> (revision <$> cs !! p) = tracked_text <$> cs !! p.
Proof. intros Hc. destruct (cs !! p) as [c|] eqn:E; [|done]. simpl. by destruct (Hc p c E) as [_ ->]. Qed.

Lemma render_diff_nonempty t p a q b s : render_diff t p a q b = Some s -> s <> [].
Proof. unfold render_diff. case_bool_decide; [done|]. by intros [= <-]. Qed.

Lemma render_diff_none t p a q b : render_diff t p a q b = None <-> a = b.
Proof. unfold render_diff. case_bool_decide; split; done. Qed.

Lemma add_line_end_app a s : s <> [] -> add_line_end (a ++ s) = a ++ add_line_end s.
Proof.
  intros Hs. unfold add_line_end. destruct (exists_last Hs) as (s' & x & ->).
  assert (forall r : str, ends_with [LF] (r ++ [x]) = bool_decide (x = LF)) as He.
  { intros r. apply Bool.eq_iff_eq_true. rewrite ends_with_true, bool_decide_eq_true. split.
    - intros [r' E]. by apply app_inj_tail in E as [_ ->].
    - intros ->. by exists r. }
  rewrite app_assoc, !He. by case_bool_decide; rewrite ?app_assoc.
Qed.

(** One turn of the loop adds the section of the path. *)
Lemma refresh_path_step t (text : N -> str) x p :
  cached t text -> map_Forall (entry_ok t text) (previous x) -> p ∉ handled x ->
  let y := refresh_path t (rename_pairs t) (rename_targets t) x p in
  map_Forall (entry_ok t text) (previous y) /\
  (map_Forall (fun key d => entry_old t key /\ entry_ok t text key d) (rendered x) ->
   map_Forall (fun key d => entry_old t key /\ entry_ok t text key d) (rendered y)) /\
  aggregated y = aggregated x ++ default [] (add_line_end <$> section_of t p) /\
  (forall q, q ∈ handled y <-> q = p \/ q ∈ handled x \/ ((p ∉ rename_targets t) /\ rename_pairs t !! p = Some q)).
Proof.
  intros [Hb Hc _] Hprev Hp. unfold refresh_path, section_of. rewrite bool_decide_eq_false_2 by done. cbv zeta. simpl.
  case_bool_decide as Hd; simpl; [rewrite app_nil_r; set_solver|].
  set (key := (_, _, _, _)). set (d := match previous x !! key with Some _ => _ | None => _ end).
  assert (d = render_diff t p (baseline_text t p) (right_of t p) (current_text t (right_of t p))) as Ed.
  { unfold d. destruct (previous x !! key) as [c|] eqn:E; [|done].
    rewrite (Hprev key c E). unfold key. simpl. by rewrite (content_text t text), (content_text t text). }
  split; [|split; [|split]].
  - intros k c Hk. apply lookup_delete_Some in Hk as [_ Hk]. by apply Hprev.
  - intros Hr. apply map_Forall_insert_2; [|done]. split.
    + intros r [E|E]; apply fmap_Some in E as (c & E & ->); [by apply (Hb p c) | by eapply Hc].
    + unfold entry_ok. rewrite Ed. unfold key. simpl. by rewrite (content_text t text), (content_text t text).
  - rewrite <-Ed. destruct d as [s|]; simpl; [|by rewrite app_nil_r]. apply add_line_end_app.
    eapply render_diff_nonempty. by symmetry.
  - intros q. destruct (rename_pairs t !! p) as [dest|]; set_solver.
Qed.

Lemma first_seen_incl seen ps p : p ∈ first_seen seen ps -> p ∈ ps.
Proof.
  revert seen. induction ps as [|a ps IH]; intros seen; simpl; [done|].
  case_bool_decide; [|rewrite elem_of_cons; intros [->|?]]; rewrite elem_of_cons; eauto.
Qed.

Lemma first_seen_all seen ps p : p ∈ ps -> p ∉ seen -> p ∈ first_seen seen ps.
Proof.
  revert seen. induction ps as [|a ps IH]; intros seen Hin Hs; simpl; [by apply elem_of_nil in Hin|].
  destruct (decide (p = a)) as [->|Hne]; [rewrite bool_decide_eq_false_2 by done; apply list_elem_of_here|].
  apply elem_of_cons in Hin as [->|Hin]; [done|].
  case_bool_decide; [by apply IH | apply list_elem_of_further, IH; set_solver].
Qed.

Lemma rename_targets_spec t q : q ∈ rename_targets t <-> exists p, rename_pairs t !! p = Some q.
Proof.
  unfold rename_targets. rewrite elem_of_list_to_set, list_elem_of_fmap. split.
  - intros ([p d] & -> & Hin). exists p. by apply elem_of_map_to_list.
  - intros [p Hp]. exists (p, q). split; [done | by apply elem_of_map_to_list].
Qed.

Lemma section_of_target t q : q ∈ rename_targets t -> section_of t q = None.
Proof. intros Hq. unfold section_of. by rewrite bool_decide_eq_true_2. Qed.

(** The loop, from any right cache, adds the sections in order and leaves a right one. *)
Lemma refresh_loop t (text : N -> str) ps : forall x seen,
  cached t text -> map_Forall (entry_ok t text) (previous x) ->
  map_Forall (fun key d => entry_old t key /\ entry_ok t text key d) (rendered x) ->
  seen ⊆ handled x -> (forall q, q ∈ handled x -> q ∈ seen \/ q ∈ rename_targets t) ->
  let y := fold_left (refresh_path t (rename_pairs t) (rename_targets t)) ps x in
  map_Forall (fun key d => entry_old t key /\ entry_ok t text key d) (rendered y) /\
  aggregated y = aggregated x ++ concat (map add_line_end (omap (section_of t) (first_seen seen ps))).
Proof.
  induction ps as [|p ps IH]; intros x seen Hc Hprev Hr Hs Hh; [simpl; by rewrite app_nil_r|].
  cbn [fold_left first_seen]. destruct (decide (p ∈ handled x)) as [Hp|Hp].
  - assert (refresh_path t (rename_pairs t) (rename_targets t) x p = x) as -> by (unfold refresh_path; by rewrite bool_decide_eq_true_2).
    case_bool_decide as Hps; [by apply IH|].
    destruct (Hh p Hp) as [?|Ht]; [done|]. simpl. rewrite section_of_target by done.
    apply IH; [done|done|done|set_solver|]. intros q Hq. destruct (Hh q Hq); set_solver.
  - rewrite bool_decide_eq_false_2 by set_solver.
    destruct (refresh_path_step t text x p Hc Hprev Hp) as (H1 & H2 & H3 & H4).
    destruct (IH (refresh_path t (rename_pairs t) (rename_targets t) x p) ({[p]} ∪ seen) Hc H1 (H2 Hr)) as [Ha Hb].
    + intros q Hq. apply H4. apply elem_of_union in Hq as [Hq|Hq]; [left; set_solver | right; left; by apply Hs].
    + intros q Hq. apply H4 in Hq as [->|[Hq|[_ Hq]]]; [left; set_solver| |right; apply rename_targets_spec; eauto].
      destruct (Hh q Hq); [left; set_solver | by right].
    + split; [exact Ha|]. rewrite Hb, H3, <-app_assoc. f_equal. simpl.
      by destruct (section_of t p).
Qed.

(** Refreshing shows the reference diff, whatever right cache it starts from. *)
Lemma refresh_reference t :
  cache_ok t ->
  cache_ok (refresh_unified_diff t) /\
  unified_diff (refresh_unified_diff t) = (if is_empty (reference_diff t) then None else Some (reference_diff t)).
Proof.
  intros [text Hc]. unfold refresh_unified_diff. fold (rename_targets t). cbv zeta.
  destruct (refresh_loop t text (diff_paths t) (mkRefresh ∅ (rendered_diffs t) ∅ []) ∅ Hc) as [Hr Ha]; simpl.
  - intros k d Hk. by apply (cached_rendered _ _ Hc).
  - apply map_Forall_empty.
  - set_solver.
  - set_solver.
  - split; [|by rewrite Ha]. exists text. split; [exact (cached_baseline _ _ Hc) | exact (cached_current _ _ Hc) | exact Hr].
Qed.

(** ** Changes keep the cache right *)

Definition text_with t (text : N -> str) (content : str) : N -> str :=
  fun r => if bool_decide (r = next_revision t) then content else text r.

Lemma render_diff_roots t t' p a q b :
  display_roots_by_environment t = display_roots_by_environment t' -> render_diff t p a q b = render_diff t' p a q b.
Proof. intros E. unfold render_diff, display_path. by rewrite E. Qed.

Lemma content_ok_alloc t t' text content c :
  next_revision t' = N.succ (next_revision t) -> content_ok t text c -> content_ok t' (text_with t text content) c.
Proof.
  intros En [Hr Ht]. split; [rewrite En; lia|]. unfold text_with. rewrite bool_decide_eq_false_2; [done|lia].
Qed.

(** A step that keeps the roots and the rendered diffs, and takes at most one new
    revision, for the text of the one content it adds. *)
Lemma cache_ok_step t t' content :
  display_roots_by_environment t' = display_roots_by_environment t -> rendered_diffs t' = rendered_diffs t ->
  next_revision t' = N.succ (next_revision t) ->
  (forall p c, baseline_by_path t' !! p = Some c -> c = mkTracked content (next_revision t) \/ baseline_by_path t !! p = Some c) ->
  (forall p c, current_by_path t' !! p = Some c -> c = mkTracked content (next_revision t) \/ current_by_path t !! p = Some c) ->
  cache_ok t -> cache_ok t'.
Proof.
  intros Er Ed En Hb Hc [text [Cb Cc Cr]]. exists (text_with t text content).
  assert (content_ok t' (text_with t text content) (mkTracked content (next_revision t))) as Hnew.
  { split; simpl; [rewrite En; lia|]. unfold text_with. by rewrite bool_decide_eq_true_2. }
  split.
  - intros p c Hp. destruct (Hb p c Hp) as [->|Hp']; [done|]. by eapply content_ok_alloc, Cb.
  - intros p c Hp. destruct (Hc p c Hp) as [->|Hp']; [done|]. by eapply content_ok_alloc, Cc.
  - rewrite Ed. intros k d Hk. destruct (Cr k d Hk) as [Ho He]. split.
    + intros r Hr. rewrite En. specialize (Ho r Hr). lia.
    + unfold entry_ok in *. rewrite He. rewrite (render_diff_roots t' t) by done.
      assert (forall o : option N, (forall r, o = Some r -> (r < next_revision t)%N) -> text_with t text content <$> o = text <$> o) as Hold.
      { intros [r|] Hr; [|done]. simpl. unfold text_with. rewrite bool_decide_eq_false_2; [done|]. specialize (Hr r eq_refl). lia. }
      rewrite !Hold; [done| |]; intros r Hr; apply Ho; auto.
Qed.

Lemma keep_baseline_cache t p content : cache_ok t -> cache_ok (keep_baseline t p content).
Proof.
  intros Hc. unfold keep_baseline. repeat case_match; try done. eapply cache_ok_step; [..|exact Hc]; try done; simpl; [|by right].
  intros q c Hq. apply lookup_insert_Some in Hq as [[_ <-]|[_ ?]]; [by left | by right].
Qed.

Lemma set_current_cache t p content : cache_ok t -> cache_ok (set_current t p content).
Proof.
  intros Hc. eapply cache_ok_step; [..|exact Hc]; try done; simpl; [by right|].
  intros q c Hq. apply lookup_insert_Some in Hq as [[_ <-]|[_ ?]]; [by left | by right].
Qed.

Lemma remove_current_cache t p : cache_ok t -> cache_ok (remove_current t p).
Proof.
  intros [text [Hb Hc Hr]]. exists text. split; [exact Hb| |exact Hr].
  intros q c Hq. simpl in Hq. apply lookup_delete_Some in Hq as [_ Hq]. by eapply Hc.
Qed.

Lemma set_origin_cache t p o : cache_ok t -> cache_ok (set_origin t p o).
Proof. intros [text [Hb Hc Hr]]. by exists text. Qed.

#[local] Hint Resolve keep_baseline_cache set_current_cache remove_current_cache set_origin_cache : core.

Lemma apply_change_cache env t (c : AppliedPatchChange U) : cache_ok t -> cache_ok (apply_change env t c).
Proof.
  intros Hc. unfold apply_change, apply_add, apply_delete, apply_update. cbv zeta.
  repeat case_match; auto 10.
Qed.

Lemma apply_changes_cache env (cs : list (AppliedPatchChange U)) : forall t, cache_ok t -> cache_ok (fold_left (apply_change env) cs t).
Proof. induction cs as [|c cs IH]; intros t Hc; simpl; [done|]. by apply IH, apply_change_cache. Qed.

(** ** What no diff means *)

Lemma rename_pairs_spec t o d : rename_pairs t !! o = Some d -> rename_pair t d o = true.
Proof.
  unfold rename_pairs. generalize (map_to_list (origin_by_current_path t)). intros l.
  assert (forall acc : gmap path path, (acc !! o = Some d -> rename_pair t d o = true) ->
    fold_left (fun acc '(dest_path, origin_path) => if rename_pair t dest_path origin_path then <[origin_path := dest_path]> acc else acc) l acc
      !! o = Some d -> rename_pair t d o = true) as H'; [|apply H'; by rewrite lookup_empty].
  induction l as [|[d' o'] l IH]; intros acc Ha; simpl; [done|]. apply IH.
  destruct (rename_pair t d' o') eqn:E; [|done]. intros Hi. apply lookup_insert_Some in Hi as [[-> ->]|[_ ?]]; auto.
Qed.

Lemma reference_diff_none t p :
  reference_diff t = [] -> p ∈ diff_paths t -> section_of t p = None.
Proof.
  unfold reference_diff. intros Hr Hp. destruct (section_of t p) as [s|] eqn:E; [|done]. exfalso.
  assert (s ∈ omap (section_of t) (first_seen ∅ (diff_paths t))) as Hin.
  { apply list_elem_of_omap. exists p. split; [by apply first_seen_all | done]. }
  assert (s <> []) as Hs. { unfold section_of in E. case_bool_decide; [done|]. by eapply render_diff_nonempty. }
  apply list_elem_of_split in Hin as (a & b & Eq). rewrite Eq, map_app, concat_app in Hr. simpl in Hr.
  apply app_eq_nil in Hr as [_ Hr]. apply app_eq_nil in Hr as [Hr _]. unfold add_line_end in Hr. case_match; [done|].
  by apply app_eq_nil in Hr as [? _].
Qed.

Lemma diff_paths_spec t p :
  p ∈ diff_paths t <-> is_Some (baseline_by_path t !! p) \/ is_Some (current_by_path t !! p).
Proof.
  unfold diff_paths. rewrite dedup_adjacent_elem, stable_sort_elem, elem_of_app, !list_elem_of_fmap.
  split.
  - intros [([q c] & -> & Hq)|([q c] & -> & Hq)]; apply elem_of_map_to_list in Hq; [left|right]; by exists c.
  - intros [[c Hc]|[c Hc]]; [left|right]; exists (p, c); (split; [done | by apply elem_of_map_to_list]).
Qed.

(** ** A turn *)

Definition turn : Type := list (str * AppliedPatchDelta U).

Definition track_all (roots : gmap str U) (ds : turn) : tracker :=
  fold_left (fun t '(environment_id, delta) => track_delta t environment_id delta) ds (new_tracker roots).

Definition replay_turn (ds : turn) (m : gmap path str) : gmap path str :=
  fold_left (fun m '(environment_id, delta) => replay (map (tag_change environment_id) (changes delta)) m) ds m.

(** Exact deltas, each change with what the files held before it. *)
Fixpoint faithful_turn (m : gmap path str) (ds : turn) : Prop :=
  match ds with
  | [] => True
  | (environment_id, delta) :: ds' =>
      exact delta = true /\ faithful m (map (tag_change environment_id) (changes delta)) /\ Forall moves_away (changes delta) /\
      faithful_turn (replay (map (tag_change environment_id) (changes delta)) m) ds'
  end.

Definition shown t : option str := if is_empty (reference_diff t) then None else Some (reference_diff t).

Record tracks t (m0 m : gmap path str) : Prop := {
  tracks_valid : valid t = true;
  tracks_net : net t m0 m;
  tracks_cache : cache_ok t;
  tracks_shown : unified_diff t = shown t;
}.

Lemma new_tracker_tracks roots m : tracks (new_tracker roots) m m.
Proof.
  split; [done| | |done].
  - intros p. right. done.
  - exists (fun _ => []). split; apply map_Forall_empty.
Qed.

Lemma apply_change_valid env t (c : AppliedPatchChange U) : valid (apply_change env t c) = valid t.
Proof. unfold apply_change, apply_add, apply_delete, apply_update, keep_baseline. cbv zeta. by repeat case_match. Qed.

Lemma apply_changes_valid env (cs : list (AppliedPatchChange U)) : forall t, valid (fold_left (apply_change env) cs t) = valid t.
Proof. induction cs as [|c cs IH]; intros t; simpl; [done|]. by rewrite IH, apply_change_valid. Qed.

Lemma track_delta_tracks t m0 m env (delta : AppliedPatchDelta U) :
  tracks t m0 m -> exact delta = true -> faithful m (map (tag_change env) (changes delta)) -> Forall moves_away (changes delta) ->
  tracks (track_delta t env delta) m0 (replay (map (tag_change env) (changes delta)) m).
Proof.
  intros [Hv Hn Hc _] He Hf Hm. unfold track_delta. rewrite Hv, He. simpl.
  set (t1 := fold_left (apply_change env) (changes delta) t).
  destruct (refresh_reference t1) as [Hc1 Hs1]; [by apply apply_changes_cache|].
  split; [simpl; unfold t1; by rewrite apply_changes_valid | by apply apply_changes_net | exact Hc1 | exact Hs1].
Qed.

Lemma track_all_from ds : forall t m0 m,
  tracks t m0 m -> faithful_turn m ds ->
  tracks (fold_left (fun t '(environment_id, delta) => track_delta t environment_id delta) ds t) m0 (replay_turn ds m).
Proof.
  induction ds as [|[env delta] ds IH]; intros t m0 m Ht; simpl; [done|]. intros (He & Hf & Hm & Hds).
  apply IH; [by apply track_delta_tracks | done].
Qed.

(** The two sides of a rename that is shown as one. *)
Lemma rename_pair_net t m0 m o d :
  net t m0 m -> rename_pairs t !! o = Some d ->
  d <> o /\ m !! o = None /\ m0 !! d = None /\ m0 !! o = baseline_text t o /\ m !! d = current_text t d /\
  is_Some (baseline_by_path t !! o) /\ is_Some (current_by_path t !! d).
Proof.
  intros Hn Hp. apply rename_pairs_spec in Hp. unfold rename_pair in Hp.
  apply negb_true_iff in Hp. repeat (apply orb_false_iff in Hp as [Hp ?]).
  rewrite ?negb_false_iff, ?bool_decide_eq_false, ?bool_decide_eq_true in *.
  pose proof (Hn o) as Ho. pose proof (Hn d) as Hd. unfold net_at, baseline_text, current_text in *.
  destruct (baseline_by_path t !! o), (current_by_path t !! d), (current_by_path t !! o), (baseline_by_path t !! d);
    repeat match goal with Hs : is_Some None |- _ => by destruct Hs | Hs : ~ is_Some (Some _) |- _ => by destruct Hs end.
  destruct Ho as [[]|(_ & ? & _)]; [|done]. destruct Hd as [[]|(? & _ & _)]; [|done]. done.
Qed.

(** A path without a section either did not change or is one side of a rename. *)
Lemma no_section_net t m0 m p :
  net t m0 m -> (forall q, q ∈ diff_paths t -> section_of t q = None) -> m !! p <> m0 !! p ->
  exists q, q <> p /\ ((m0 !! p = None /\ m !! q = None /\ m0 !! q = m !! p) \/ (m !! p = None /\ m0 !! q = None /\ m !! q = m0 !! p)).
Proof.
  intros Hn Hs Hne.
  assert (forall o, o ∈ diff_paths t -> o ∉ rename_targets t -> baseline_text t o = current_text t (right_of t o)) as Heq.
  { intros o Ho Ht. specialize (Hs o Ho). unfold section_of in Hs. rewrite bool_decide_eq_false_2 in Hs by done.
    by eapply render_diff_none. }
  destruct (decide (p ∈ rename_targets t)) as [Ht|Ht].
  - apply rename_targets_spec in Ht as [o Ho]. destruct (rename_pair_net t m0 m o p Hn Ho) as (H1 & H2 & H3 & H4 & H5 & H6 & _).
    exists o. split; [done|]. left. split; [done|]. split; [done|]. rewrite H4, H5.
    assert (right_of t o = p) as <- by (unfold right_of; by rewrite Ho).
    apply Heq; [apply diff_paths_spec; by left|]. intros Hto. apply rename_targets_spec in Hto as [o' Ho'].
    destruct (rename_pair_net t m0 m o' o Hn Ho') as (_ & _ & K3 & _). rewrite K3 in H4. unfold baseline_text in H4.
    destruct H6 as [c Hc]. by rewrite Hc in H4.
  - assert (p ∈ diff_paths t) as Hp.
    { apply diff_paths_spec. destruct (Hn p) as [[Hc Hb]|(_ & _ & ?)]; [|done]. rewrite <-Hc, <-Hb in Hne.
      unfold current_text, baseline_text in Hne. destruct (current_by_path t !! p), (baseline_by_path t !! p); eauto; by destruct Hne. }
    specialize (Heq p Hp Ht). unfold right_of in Heq. destruct (rename_pairs t !! p) as [d|] eqn:Ed; simpl in Heq.
    + destruct (rename_pair_net t m0 m p d Hn Ed) as (H1 & H2 & H3 & H4 & H5 & _). exists d. split; [done|]. right.
      rewrite H4, H5. done.
    + destruct (Hn p) as [[Hc Hb]|(_ & _ & ?)]; [|done]. by rewrite <-Hc, <-Hb, Heq in Hne.
Qed.

Lemma track_all_invalid ds : forall t, valid t = false -> unified_diff t = None ->
  unified_diff (fold_left (fun t '(environment_id, delta) => track_delta t environment_id delta) ds t) = None.
Proof.
  induction ds as [|[env delta] ds IH]; intros t Hv Hu; simpl; [done|].
  unfold track_delta. rewrite Hv. simpl. by apply IH.
Qed.

(** C19.  What a turn's patches are reported to have changed.  After any sequence of exact
    deltas of patches that moved no file onto itself, in any environments, the tracker
    holds for every touched path its text of before the turn and of now, and knows of every
    path that changed; the diff it built from the cached sections is the one that would
    be built without a cache; and when it has no diff, every path that changed is one
    side of a rename that left the text as it was.  After an inexact delta there
    is no diff for the rest of the turn. *)
Theorem turn_diff_exact roots ds m0 :
  faithful_turn m0 ds ->
  let t := track_all roots ds in
  let m := replay_turn ds m0 in
  net t m0 m /\
  unified_diff t = shown t /\
  (unified_diff t = None -> forall p, m !! p <> m0 !! p ->
   exists q, q <> p /\ ((m0 !! p = None /\ m !! q = None /\ m0 !! q = m !! p) \/ (m !! p = None /\ m0 !! q = None /\ m !! q = m0 !! p))) /\
  (forall environment_id delta ds', exact delta = false ->
   unified_diff (track_all roots (ds ++ (environment_id, delta) :: ds')) = None).
Proof.
  intros Hf t m. destruct (track_all_from ds (new_tracker roots) m0 m0 (new_tracker_tracks roots m0) Hf) as [Hv Hn _ Hs].
  split; [exact Hn|]. split; [exact Hs|]. split.
  - intros Hu p Hp. eapply no_section_net; [exact Hn| |exact Hp]. intros q Hq. apply reference_diff_none; [|done].
    unfold t, track_all in Hu. rewrite Hs in Hu. unfold shown, is_empty in Hu. by destruct (reference_diff _).
  - intros env delta ds' He. unfold track_all. rewrite fold_left_app. simpl.
    unfold track_delta at 2. rewrite Hv, He. simpl. by apply track_all_invalid.
Qed.
End Render.

(** ** One turn *)

Module TurnDemo.

#[local] Instance plain_ops : DiffOps str := {|
  relative_path_from p root := strip_prefix (root ++ lit "/") p;
  native_path_string p := p;
  git_blob_oid _ := repeat 97%N 40;
  unified_diff_of old new old_header new_header :=
    lit "--- " ++ old_header ++ [LF] ++ lit "+++ " ++ new_header ++ [LF] ++ old ++ lit "->" ++ new;
|}.

Definition a_path : str := lit "/w/a".
Definition b_path : str := lit "/w/b".
Definition local_env : str := lit "local".
Definition roots : gmap str str := {[ local_env := lit "/w" ]}.
Definition before : gmap (TrackedPath (U := str)) str := {[ (local_env, a_path) := lit "one" ]}.

(** A patch that adds a file, one that changes and moves the other, one that deletes the
    first again. *)
Definition day : turn (U := str) :=
  [(local_env, mkDelta [mkChange b_path (ChangeAdd (lit "two") None)] true);
   (local_env, mkDelta [mkChange a_path (ChangeUpdate (Some (lit "/w/c")) (lit "one") None (lit "three"))] true);
   (local_env, mkDelta [mkChange b_path (ChangeDelete (lit "two"))] true)].

Lemma turn_diff_exact_witness :
  net (track_all roots day) before (replay_turn day before) /\
  unified_diff (track_all roots day) = shown (track_all roots day) /\
  unified_diff (track_all roots day) <> None.
Proof.
  destruct (turn_diff_exact roots day before) as (H1 & H2 & _ & _).
  - cbn [faithful_turn day exact changes]. repeat split;
      first [vm_compute; reflexivity | by apply Forall_singleton].
  - split; [exact H1|]. split; [exact H2|]. vm_compute. discriminate.
Defined.

(** A file moved onto its own path is gone; the tracker still has it. *)
Example self_move_shown :
  let delta := mkDelta [mkChange a_path (ChangeUpdate (Some a_path) (lit "one") (Some (lit "one")) (lit "three"))] true in
  replay_turn [(local_env, delta)] before !! (local_env, a_path) = None /\
  current_text (track_all roots [(local_env, delta)]) (local_env, a_path) = Some (lit "three").
Proof. vm_compute. split; reflexivity. Qed.

(** Two files that came from one: which of them is shown as renamed is up to the order of
    the map of origins. *)
Example two_from_one :
  let add p c := mkDelta [mkChange p (ChangeAdd c None)] true in
  let move p q c := mkDelta [mkChange p (ChangeUpdate (Some q) c None c)] true in
  let t := track_all roots [(local_env, move a_path b_path (lit "one")); (local_env, add a_path (lit "one"));
                            (local_env, move a_path (lit "/w/c") (lit "one"))] in
  rename_pair t (local_env, b_path) (local_env, a_path) = true /\ rename_pair t (local_env, lit "/w/c") (local_env, a_path) = true.
Proof. vm_compute. split; reflexivity. Qed.
End TurnDemo.
