(* ===== verification/AppShell.v ===== *)
(** * The desktop shell

    Models [gloscope-app/src-tauri/src/lib.rs]: the commands the frontend
    calls, the threads that run an app-server each, and the state they share.
    Commands and threads interleave, so the shell is a transition system: a
    label names the command or thread that takes its next atomic step and
    carries what the environment answers at that step (the outcome of a
    request, the next event of the server, whether a spawn succeeded).  What
    leaves the shell is recorded in a trace. *)

From Stdlib Require Import ZArith Lia Permutation.
From stdpp Require Import gmap.
From S2P Require Import Prelude RustStr PatchSyntax Host Json Config.

(** ** Data *)

Definition PROVIDER_ID : str := Eval vm_compute in lit "gloscope".
Definition ENV_KEY : str := Eval vm_compute in lit "GLOSCOPE_API_KEY".

(** [RequestId] of the app-server protocol and its [Display]. *)
Inductive RequestId : Type :=
  | RString (s : str)
  | RInteger (z : Z).

#[export] Instance RequestId_eq_dec : EqDecision RequestId.
Proof. solve_decision. Defined.

Definition request_id_to_string (r : RequestId) : str :=
  match r with
  | RString s => s
  | RInteger z => show_Z z
  end.

(** The decisions the shell sends, and the JSON its derive gives the response. *)
Inductive FileChangeApprovalDecision : Type := Accept | AcceptForSession | Decline | Cancel.

Definition decision_name (d : FileChangeApprovalDecision) : str :=
  match d with
  | Accept => lit "accept"
  | AcceptForSession => lit "acceptForSession"
  | Decline => lit "decline"
  | Cancel => lit "cancel"
  end.

Definition response_to_value (decision : FileChangeApprovalDecision) : json :=
  JObj [(lit "decision", JStr (decision_name decision))].

(** What the shell uses of the agent's resolved [Config]. *)
Record CoreConfig : Type := mkCoreConfig {
  c_model : option str;
  c_model_provider_id : str;
  c_cwd : str;
}.

(** The requests the shell sends to the app-server. *)
Inductive ClientRequest : Type :=
  | ThreadStart (model : option str) (model_provider : str) (cwd : str)
  | TurnStart (thread_id : str) (text : str).

(** A server is the thread that runs it; [request_handle] reaches it. *)
Record AppState : Type := mkAppState {
  request_handle : nat;
  next_request_id : Z;
  thread_id : str;
  pending_patch_approvals : gmap str RequestId;
}.

(** [AtomicI64::fetch_add] wraps around. *)
Definition wrap_i64 (z : Z) : Z := ((z + 2 ^ 63) mod 2 ^ 64 - 2 ^ 63)%Z.

(** [AppState::next_id]. *)
Definition next_id (st : AppState) : AppState * RequestId :=
  (mkAppState (request_handle st) (wrap_i64 (next_request_id st + 1)) (thread_id st)
     (pending_patch_approvals st),
   RInteger (next_request_id st)).

Definition set_pending (p : gmap str RequestId) (st : AppState) : AppState :=
  mkAppState (request_handle st) (next_request_id st) (thread_id st) p.

(** *** The program points of a [gloscope-core] thread *)

Inductive phase : Type :=
  | BuildRuntime
  | LoadConfig
  | ResolveHome (g : GloscopeConfig)
  | BuildConfig (g : GloscopeConfig) (codex_home : str)
  | StartServer (config : CoreConfig)
  | StartThread (config : CoreConfig) (request_id_seq : Z)
  | AwaitThread (request_id_seq : Z)
  | ManageState (new_thread_id : str) (request_id_seq : Z)
  | ReportReady
  | EventLoop
  | InsertApproval (rid : RequestId) (params : option json)
  | EmitApproval (key : str) (params : option json)
  | RejectRequest (rid : RequestId) (request : option json)
  | Stopped.

(** [ready_tx] is the command that waits for the report, if any. *)
Record core : Type := mkCore {
  point : phase;
  ready_tx : option nat;
}.

(** *** The commands and their program points *)

Inductive command_call : Type :=
  | CallStartSession
  | CallSendMessage (message : str)
  | CallRespond (request_id : str) (accept : bool).

Inductive progress : Type :=
  | Called
  | AwaitReady
  | Reported (r : option (result unit str))
  | SendRequest (id : RequestId)
  | AwaitResponse
  | ResolveRequest (rid : RequestId) (value : json)
  | Done (r : result unit str)
  | Panicked.

Record task : Type := mkTask {
  call : command_call;
  at_ : progress;
}.

(** *** What leaves the shell *)

Inductive observation : Type :=
  | Received (server : nat) (rid : RequestId)
  | Emitted (event : str) (payload : json)
  | Rejected (server : nat) (rid : RequestId) (code : Z) (message : str)
  | Resolved (by_task : nat) (server : nat) (rid : RequestId) (value : json)
  | Requested (server : nat) (id : RequestId) (request : ClientRequest)
  | SetVar (key value : str)
  | BuildCalled (codex_home : str) (cli_overrides : list (str * str)) (model_provider : str)
  | Printed (message : str).

Record shell : Type := mkShell {
  managed : option AppState;
  cores : list core;
  tasks : list task;
  trace : list observation;
}.

Definition observe (o : observation) (s : shell) : shell :=
  mkShell (managed s) (cores s) (tasks s) (trace s ++ [o]).
Definition set_managed (m : option AppState) (s : shell) : shell :=
  mkShell m (cores s) (tasks s) (trace s).
Definition set_core (k : nat) (c : core) (s : shell) : shell :=
  mkShell (managed s) (<[k := c]> (cores s)) (tasks s) (trace s).
Definition set_task (t : nat) (p : progress) (s : shell) : shell :=
  mkShell (managed s) (cores s)
    (alter (fun x => mkTask (call x) p) t (tasks s)) (trace s).

(** ** Configuration of the agent *)

(** The values are all TOML strings. *)
Definition cli_overrides_for_provider (config : GloscopeConfig) (model_catalog_path : str)
    : list (str * str) :=
  let key field := lit "model_providers." ++ PROVIDER_ID ++ lit "." ++ field in
  [ (key (lit "name"), lit "GloScope user provider");
    (key (lit "base_url"), base_url config);
    (key (lit "env_key"), ENV_KEY);
    (key (lit "wire_api"), wire_api config);
    (lit "model_provider", PROVIDER_ID);
    (lit "model", verify_model config);
    (lit "model_catalog_json", model_catalog_path) ].

(** [gloscope_codex_home], given the home directory and the outcome of
    [create_dir_all]. *)
Definition gloscope_codex_home (home : option str) (created : result unit str) : result str str :=
  match home with
  | None => Err (lit "could not resolve home directory")
  | Some base =>
      let? _ := created in
      Ok (std_path_join (std_path_join base (lit ".gloscope")) (lit "codex-home"))
  end.

Definition model_catalog_path (codex_home : str) : str :=
  std_path_join codex_home (lit "gloscope_model_catalog.json").

(** ** The commands of the setup wizard *)

Section Wizard.
Context {W : Type} `{Host W, SettingsToml, SecretStore W}.

(** [None] when loading the configuration panics. *)
Definition gloscope_is_configured (w : W) : option bool := option_map is_ok (load_config w).

Definition gloscope_load_settings (w : W) : result GloscopeSettings str :=
  map_err config_error_string (load_settings w (gloscope_home w)).

Definition gloscope_save_settings (settings : GloscopeSettings) : act W unit str := fun w =>
  map_err_act config_error_string (save_settings (gloscope_home w) settings) w.

Definition gloscope_has_api_key (w : W) : result bool str :=
  match load_api_key w (gloscope_home w) with
  | Ok key => Ok (match key with Some _ => true | None => false end)
  | Err e => Err (config_error_string e)
  end.

Definition gloscope_save_api_key (api_key : str) : act W unit str := fun w =>
  map_err_act config_error_string (save_api_key (gloscope_home w) api_key) w.
End Wizard.

(** ** The [gloscope-core] thread *)

(** An event of the app-server.  A value that is turned into JSON comes with
    the outcome of [serde_json::to_value]. *)
Inductive server_event : Type :=
  | ServerNotification (value : option json)
  | FileChangeRequestApproval (rid : RequestId) (params : option json)
  | OtherServerRequest (rid : RequestId) (request : option json)
  | Lagged (skipped : Z).

(** What the environment answers at each point. *)
Inductive core_input : Type :=
  | Internal
  | InRuntime (ok : bool)
  | InConfig (r : option (result GloscopeConfig ConfigError))
  | InHome (home : option str) (created : result unit str)
  | InBuild (written : result unit str) (built : result CoreConfig str)
  | InServer (r : result unit str)
  | InThread (r : result str str)
  | InEvent (e : option server_event).

(** [tx.send] on the oneshot channel: the waiting command gets the value, or
    the news that the sender is gone. *)
Definition send_ready (c : core) (r : option (result unit str)) (s : shell) : shell :=
  match ready_tx c with
  | Some t => set_task t (Reported r) s
  | None => s
  end.

(** The [Err] arm of [try_or_report!]. *)
Definition report_failure (k : nat) (c : core) (ctx err : str) (s : shell) : shell :=
  let message := lit "gloscope-app: " ++ ctx ++ lit ": " ++ err in
  set_core k (mkCore Stopped None)
    (send_ready c (Some (Err message)) (observe (Printed message) s)).

(** The thread panics: its half of the channel is dropped. *)
Definition thread_panics (k : nat) (c : core) (s : shell) : shell :=
  set_core k (mkCore Stopped None) (send_ready c None s).

(** [serde_json::Map::insert]. *)
Fixpoint obj_insert (k : str) (v : json) (fields : list (str * json)) : list (str * json) :=
  match fields with
  | [] => [(k, v)]
  | (k', v') :: fields' =>
      if bool_decide (k = k') then (k, v) :: fields' else (k', v') :: obj_insert k v fields'
  end.

(** The payload of an approval event: the parameters with the request's key. *)
Definition approval_payload (key : str) (params : json) : json :=
  match params with
  | JObj fields => JObj (obj_insert (lit "requestId") (JStr key) fields)
  | other => other
  end.

(** The method of a request the shell does not handle. *)
Definition request_method (request : option json) : str :=
  let ops := json_ops (fun _ => Err []) in
  default (lit "unknown")
    (let! v := request in @get_and_then json str ops v (lit "method") (@as_str json ops)).

(** One iteration of [run_event_loop] up to the first action on shared state. *)
Definition receive_event (k : nat) (c : core) (e : option server_event) (s : shell) : shell :=
  match e with
  | None => set_core k (mkCore Stopped (ready_tx c)) s
  | Some (ServerNotification value) =>
      match value with
      | Some v => observe (Emitted (lit "gloscope://notification") v) s
      | None => s
      end
  | Some (FileChangeRequestApproval rid params) =>
      set_core k (mkCore (InsertApproval rid params) (ready_tx c)) (observe (Received k rid) s)
  | Some (OtherServerRequest rid request) =>
      set_core k (mkCore (RejectRequest rid request) (ready_tx c)) s
  | Some (Lagged skipped) =>
      observe (Printed (lit "gloscope-app: dropped " ++ show_Z skipped
                        ++ lit " lagged app-server event(s)")) s
  end.

(** [run_event_loop], one atomic action at a time: the next event, the
    registration of an approval request, its announcement, a rejection. *)
Definition run_event_loop (k : nat) (c : core) (i : core_input) (s : shell) : option shell :=
  let goto p := set_core k (mkCore p (ready_tx c)) in
  match point c, i with
  | EventLoop, InEvent e => Some (receive_event k c e s)
  | InsertApproval rid params, Internal =>
      let key := request_id_to_string rid in
      let s := match managed s with
               | Some st =>
                   set_managed (Some (set_pending (<[key := rid]> (pending_patch_approvals st)) st)) s
               | None => s
               end in
      Some (goto (EmitApproval key params) s)
  | EmitApproval key params, Internal =>
      let s := match params with
               | Some value =>
                   observe (Emitted (lit "gloscope://patchApprovalRequest")
                              (approval_payload key value)) s
               | None => s
               end in
      Some (goto EventLoop s)
  | RejectRequest rid request, Internal =>
      let message := lit "`" ++ request_method request
                     ++ lit "` is not supported by gloscope-app yet" in
      Some (goto EventLoop (observe (Rejected k rid (-32000) message) s))
  | _, _ => None
  end.

(** The next step of thread [k], at [c]; [None] when the input does not fit. *)
Definition core_step (k : nat) (c : core) (i : core_input) (s : shell) : option shell :=
  let goto p := set_core k (mkCore p (ready_tx c)) in
  match point c, i with
  | BuildRuntime, InRuntime ok => Some (if ok then goto LoadConfig s else thread_panics k c s)
  | LoadConfig, InConfig None => Some (thread_panics k c s)
  | LoadConfig, InConfig (Some (Err e)) =>
      Some (report_failure k c (lit "failed to load config") (config_error_string e) s)
  | LoadConfig, InConfig (Some (Ok g)) => Some (goto (ResolveHome g) s)
  | ResolveHome g, InHome home created =>
      Some match gloscope_codex_home home created with
           | Err e => report_failure k c (lit "failed to resolve codex home") e s
           | Ok codex_home => goto (BuildConfig g codex_home) s
           end
  | BuildConfig g codex_home, InBuild written built =>
      let s := observe (SetVar ENV_KEY (api_key g)) s in
      Some match written with
           | Err e => report_failure k c (lit "failed to build config") e s
           | Ok _ =>
               let overrides := cli_overrides_for_provider g (model_catalog_path codex_home) in
               let s := observe (BuildCalled codex_home overrides PROVIDER_ID) s in
               match built with
               | Err e => report_failure k c (lit "failed to build config") e s
               | Ok config => goto (StartServer config) s
               end
           end
  | StartServer config, InServer (Err e) =>
      Some (report_failure k c (lit "failed to start app-server") e s)
  | StartServer config, InServer (Ok _) => Some (goto (StartThread config 1) s)
  | StartThread config seq, Internal =>
      let request := ThreadStart (c_model config) (c_model_provider_id config) (c_cwd config) in
      Some (goto (AwaitThread (wrap_i64 (seq + 1)))
              (observe (Requested k (RInteger seq) request) s))
  | AwaitThread seq, InThread (Err e) =>
      Some (report_failure k c (lit "failed to start thread") (lit "thread/start failed: " ++ e) s)
  | AwaitThread seq, InThread (Ok new_thread_id) => Some (goto (ManageState new_thread_id seq) s)
  | ManageState new_thread_id seq, Internal =>
      (* [Manager::manage] leaves a state that is already there unchanged *)
      let st := match managed s with
                | Some st => st
                | None => mkAppState k seq new_thread_id ∅
                end in
      Some (goto ReportReady (set_managed (Some st) s))
  | ReportReady, Internal =>
      Some (set_core k (mkCore EventLoop None) (send_ready c (Some (Ok tt)) s))
  | EventLoop, _ | InsertApproval _ _, _ | EmitApproval _ _, _ | RejectRequest _ _, _ =>
      run_event_loop k c i s
  | _, _ => None
  end.

(** [spawn_gloscope_core]. *)
Definition spawn_gloscope_core (tx : option nat) (s : shell) : shell :=
  mkShell (managed s) (cores s ++ [mkCore BuildRuntime tx]) (tasks s) (trace s).

(** ** The commands *)

Inductive task_input : Type :=
  | Continue
  | Spawned (ok : bool)
  | Response (r : result (result unit str) str)
  | ResolveOutcome (r : result unit str).

Section Commands.
(** What the framework answers to a command whose state is not managed. *)
Context (state_not_managed : str).

(** [gloscope_start_session]. *)
Definition gloscope_start_session (t : nat) (p : progress) (i : task_input) (s : shell)
    : option shell :=
  match p, i with
  | Called, Spawned ok =>
      match managed s with
      | Some _ => Some (set_task t (Done (Ok tt)) s)
      | None =>
          Some (if ok then spawn_gloscope_core (Some t) (set_task t AwaitReady s)
                else set_task t Panicked s)
      end
  | Reported r, Continue =>
      Some (set_task t (Done match r with
        | Some r => r
        | None => Err (lit "gloscope-core thread exited without reporting status")
        end) s)
  | _, _ => None
  end.

(** [send_message]. *)
Definition send_message (t : nat) (message : str) (p : progress) (i : task_input) (s : shell)
    : option shell :=
  match p, i with
  | Called, Continue =>
      match managed s with
      | None => Some (set_task t (Done (Err state_not_managed)) s)
      | Some st =>
          let '(st, id) := next_id st in
          Some (set_task t (SendRequest id) (set_managed (Some st) s))
      end
  | SendRequest id, Continue =>
      match managed s with
      | None => None
      | Some st =>
          Some (set_task t AwaitResponse
                  (observe (Requested (request_handle st) id (TurnStart (thread_id st) message)) s))
      end
  | AwaitResponse, Response r =>
      Some (set_task t (Done match r with
        | Err e => Err e
        | Ok (Err m) => Err m
        | Ok (Ok _) => Ok tt
        end) s)
  | _, _ => None
  end.

(** [respond_to_patch_approval]. *)
Definition respond_to_patch_approval (t : nat) (request_id : str) (accept : bool) (p : progress)
    (i : task_input) (s : shell) : option shell :=
  match p, i with
  | Called, Continue =>
      match managed s with
      | None => Some (set_task t (Done (Err state_not_managed)) s)
      | Some st =>
          match pending_patch_approvals st !! request_id with
          | None =>
              Some (set_task t (Done (Err (lit "no pending patch approval for request "
                                           ++ request_id))) s)
          | Some pending =>
              let decision := if accept then Accept else Decline in
              Some (set_task t (ResolveRequest pending (response_to_value decision))
                (set_managed (Some (set_pending
                   (delete request_id (pending_patch_approvals st)) st)) s))
          end
      end
  | ResolveRequest rid value, ResolveOutcome r =>
      match managed s with
      | None => None
      | Some st =>
          Some (set_task t (Done r) (observe (Resolved t (request_handle st) rid value) s))
      end
  | _, _ => None
  end.

(** The next step of command [t]; [None] when the input does not fit. *)
Definition task_step (t : nat) (x : task) (i : task_input) (s : shell) : option shell :=
  match call x with
  | CallStartSession => gloscope_start_session t (at_ x) i s
  | CallSendMessage message => send_message t message (at_ x) i s
  | CallRespond request_id accept => respond_to_patch_approval t request_id accept (at_ x) i s
  end.

(** ** The transition system *)

Inductive label : Type :=
  | Invoke (c : command_call)
  | OnTask (t : nat) (i : task_input)
  | OnCore (k : nat) (i : core_input).

Definition step (s : shell) (l : label) : option shell :=
  match l with
  | Invoke c => Some (mkShell (managed s) (cores s) (tasks s ++ [mkTask c Called]) (trace s))
  | OnTask t i => let! x := tasks s !! t in task_step t x i s
  | OnCore k i => let! c := cores s !! k in core_step k c i s
  end.

Fixpoint run_labels (s : shell) (ls : list label) : option shell :=
  match ls with
  | [] => Some s
  | l :: ls' => let! s' := step s l in run_labels s' ls'
  end.

(** [run]: the setup hook starts a session if the configuration loads. *)
Definition setup (configured : bool) : shell :=
  let s := mkShell None [] [] [] in
  if configured then spawn_gloscope_core None s else s.

Inductive reachable : shell -> Prop :=
  | reach_setup configured : reachable (setup configured)
  | reach_step s l s' : reachable s -> step s l = Some s' -> reachable s'.
End Commands.

(** ** Automation *)

(** The branches of a command and of a thread at a given point. *)
Ltac open_task H :=
  unfold task_step, gloscope_start_session, send_message, respond_to_patch_approval, next_id in H;
  cbn [call at_] in H; repeat case_hyp H; simplify_eq.

Ltac open_core pt H :=
  unfold core_step, run_event_loop, receive_event in H; cbn [point] in *; cbv zeta in H;
  destruct pt; cbv beta iota in H; repeat case_hyp H; simplify_eq.

(** Every branch of a step, with the equations of the tests that lead to it. *)
Ltac step_cases l H :=
  destruct l as [cl|u i|n i]; cbn [step] in H;
  [injection H as <-
  |destruct (tasks _ !! u) as [[cl pr]|] eqn:Hu; [|discriminate H];
   open_task H
  |destruct (cores _ !! n) as [[pt tx]|] eqn:Hn; [|discriminate H];
   open_core pt H].

#[local] Arguments lit : simpl never.

Lemma sum_list_insert {A} (f : A -> nat) (l : list A) k x y :
  l !! k = Some x -> sum_list_with f (<[k := y]> l) + f x = sum_list_with f l + f y.
Proof.
  revert k. induction l as [|a l IH]; intros [|k] Hk; simpl in *; simplify_eq; [lia|].
  specialize (IH _ Hk). lia.
Qed.

Lemma sum_list_alter {A} (f : A -> nat) (g : A -> A) (l : list A) k x :
  l !! k = Some x -> sum_list_with f (alter g k l) + f x = sum_list_with f l + f (g x).
Proof.
  revert k. induction l as [|a l IH]; intros [|k] Hk; csimpl in *; simplify_eq; [lia|].
  specialize (IH _ Hk). lia.
Qed.

Lemma sum_list_alter_same {A} (f : A -> nat) (g : A -> A) (l : list A) k :
  (forall x, l !! k = Some x -> f (g x) = f x) ->
  sum_list_with f (alter g k l) = sum_list_with f l.
Proof.
  revert k. induction l as [|a l IH]; intros [|k] Hf; csimpl in *; [done|done|by rewrite Hf|].
  by rewrite IH.
Qed.

Lemma alter_alter {A} (f g : A -> A) (l : list A) t x :
  l !! t = Some x -> alter f t (alter g t l) = <[t := f (g x)]> l.
Proof.
  revert t. induction l as [|a l IH]; intros [|t] Ht; csimpl in *; simplify_eq; [done|].
  f_equal. by apply IH.
Qed.

(** ** Commands *)

Lemma set_task_lookup t p s t' x :
  tasks (set_task t p s) !! t' = Some x ->
  exists y, tasks s !! t' = Some y /\ call x = call y /\ (at_ x = at_ y \/ t' = t /\ at_ x = p).
Proof.
  simpl. destruct (decide (t = t')) as [<-|Hn].
  - rewrite list_lookup_alter_eq. destruct (tasks s !! t) as [y|]; simpl; [|done].
    intros [= <-]. exists y. eauto.
  - rewrite list_lookup_alter_ne by done. intros Hx. exists x. eauto.
Qed.

(** ** Growth

    Every step only adds to what is known: the managed state stays and keeps its
    server, commands keep their call, answered ones their outcome, and the trace
    its observations. *)

Definition finished (x : task) : bool :=
  match call x, at_ x with
  | CallRespond _ _, Done _ => true
  | _, _ => false
  end.

Record extends (s s' : shell) : Prop := {
  ext_managed st : managed s = Some st ->
    exists st', managed s' = Some st' /\ request_handle st' = request_handle st;
  ext_cores : length (cores s) <= length (cores s');
  ext_tasks t x : tasks s !! t = Some x ->
    exists y, tasks s' !! t = Some y /\ call y = call x /\ (finished x = true -> y = x);
  ext_trace o : o ∈ trace s -> o ∈ trace s';
}.

#[export] Instance extends_preorder : PreOrder extends.
Proof.
  split.
  - intros s. split; naive_solver.
  - intros s1 s2 s3 [m12 c12 t12 o12] [m23 c23 t23 o23]. split; [|lia| |by auto].
    + intros st (st' & Hst & <-)%m12. by apply m23.
    + intros t x (y & Hy & Hc & Hf)%t12. apply t23 in Hy as (z & Hz & Hc' & Hf').
      exists z. split; [done|]. split; [congruence|].
      intros Hx. specialize (Hf Hx). subst. auto.
Qed.

Lemma extends_observe s0 o s : extends s0 s -> extends s0 (observe o s).
Proof. intros ->. split; simpl; [by eauto|done|by eauto|set_solver]. Qed.

Lemma extends_set_core s0 k c s : extends s0 s -> extends s0 (set_core k c s).
Proof. intros ->. split; simpl; [by eauto|by rewrite length_insert|by eauto|done]. Qed.

Lemma extends_spawn s0 tx s : extends s0 s -> extends s0 (spawn_gloscope_core tx s).
Proof. intros ->. split; simpl; [by eauto|rewrite length_app; lia|by eauto|done]. Qed.

Lemma extends_set_managed s0 st s :
  extends s0 s -> (forall st0, managed s = Some st0 -> request_handle st = request_handle st0) ->
  extends s0 (set_managed (Some st) s).
Proof. intros -> Hst. split; simpl; [by eauto|done|by eauto|done]. Qed.

Lemma extends_set_task s0 t p s :
  extends s0 s -> (forall x, tasks s !! t = Some x -> finished x = false) ->
  extends s0 (set_task t p s).
Proof.
  intros -> Hf. split; simpl; [by eauto|done| |done].
  intros t' x Hx. destruct (decide (t = t')) as [<-|Hn].
  - rewrite list_lookup_alter_eq, Hx. simpl. eexists. split; [done|]. split; [done|].
    by rewrite (Hf x Hx).
  - rewrite list_lookup_alter_ne by done. eauto.
Qed.

Lemma extends_invoke s c :
  extends s (mkShell (managed s) (cores s) (tasks s ++ [mkTask c Called]) (trace s)).
Proof.
  split; simpl; [by eauto|done| |done].
  intros t x Hx. exists x. split; [by apply lookup_app_l_Some|done].
Qed.

(** Reduce [extends] to the side conditions of the operations applied. *)
Ltac extend :=
  repeat first [reflexivity | apply extends_invoke | apply extends_observe
    | apply extends_set_core | apply extends_spawn | apply extends_set_managed
    | apply extends_set_task].

(** ** The invariant *)

Definition received (s : shell) (rid : RequestId) : Prop :=
  exists sv, Received sv rid ∈ trace s.

Definition response_of (accept : bool) : json :=
  response_to_value (if accept then Accept else Decline).

(** Past [manage]. *)
Definition is_live (p : phase) : bool :=
  match p with
  | ReportReady | EventLoop | InsertApproval _ _ | EmitApproval _ _ | RejectRequest _ _ => true
  | _ => false
  end.

Definition core_ok (s : shell) (c : core) : Prop :=
  (forall t, ready_tx c = Some t -> exists y, tasks s !! t = Some y /\ call y = CallStartSession) /\
  (is_live (point c) = true -> is_Some (managed s)) /\
  (forall rid ps, point c = InsertApproval rid ps -> received s rid).

Definition task_ok (s : shell) (x : task) : Prop :=
  match call x, at_ x with
  | CallStartSession, (Reported (Some (Ok _)) | Done (Ok _)) => is_Some (managed s)
  | CallRespond key accept, ResolveRequest rid value =>
      key = request_id_to_string rid /\ value = response_of accept /\ received s rid
  | _, _ => True
  end.

Definition observation_ok (s : shell) (o : observation) : Prop :=
  match o with
  | Received sv _ => sv < length (cores s)
  | Resolved t sv rid value =>
      (exists st, managed s = Some st /\ request_handle st = sv) /\ received s rid /\
      exists accept r,
        tasks s !! t = Some (mkTask (CallRespond (request_id_to_string rid) accept) (Done r)) /\
        value = response_of accept
  | _ => True
  end.

Definition state_ok (s : shell) (st : AppState) : Prop :=
  request_handle st < length (cores s) /\
  map_Forall (fun key rid => request_id_to_string rid = key /\ received s rid)
    (pending_patch_approvals st).

(** The parts of [s] are right as seen from [f]. *)
Record parts_ok (f s : shell) : Prop := {
  ok_cores : Forall (core_ok f) (cores s);
  ok_tasks : Forall (task_ok f) (tasks s);
  ok_trace : Forall (observation_ok f) (trace s);
  ok_state st : managed s = Some st -> state_ok f st;
}.

Definition shell_ok (s : shell) : Prop := parts_ok s s.

Section Monotone.
Context (s s' : shell) (Hext : extends s s').

Lemma received_mono rid : received s rid -> received s' rid.
Proof using Hext. intros [sv Hs]. exists sv. by apply (ext_trace s s'). Qed.

Lemma managed_mono : is_Some (managed s) -> is_Some (managed s').
Proof using Hext. intros [st (st' & Hst & _)%(ext_managed s s' Hext)]. eauto. Qed.

Hint Resolve received_mono managed_mono : core.

Lemma core_ok_mono c : core_ok s c -> core_ok s' c.
Proof using Hext.
  intros (Ht & Hl & Hr). split; [|naive_solver].
  intros t (y & Hy & Hc)%Ht. apply (ext_tasks s s' Hext) in Hy as (z & Hz & Hc' & _).
  exists z. split; congruence.
Qed.

Lemma task_ok_mono x : task_ok s x -> task_ok s' x.
Proof using Hext. unfold task_ok. repeat case_goal; naive_solver. Qed.

Lemma observation_ok_mono o : observation_ok s o -> observation_ok s' o.
Proof using Hext.
  destruct o; simpl; try done.
  - pose proof (ext_cores s s' Hext). lia.
  - intros ((st & Hst & <-) & Hr & a & r & Ht & Hv).
    apply (ext_managed s s' Hext) in Hst as (st' & ? & ?).
    apply (ext_tasks s s' Hext) in Ht as (y & Hy & _ & Hf). rewrite (Hf eq_refl) in Hy. eauto 10.
Qed.

Lemma state_ok_mono st : state_ok s st -> state_ok s' st.
Proof using Hext.
  intros [Hh Hp]. pose proof (ext_cores s s' Hext). split; [lia|].
  eapply map_Forall_impl; [exact Hp|]. naive_solver.
Qed.

Lemma parts_ok_mono : shell_ok s -> parts_ok s' s.
Proof using Hext.
  intros [Hc Ht Ho Hs]. split.
  - eapply Forall_impl; [exact Hc|apply core_ok_mono].
  - eapply Forall_impl; [exact Ht|apply task_ok_mono].
  - eapply Forall_impl; [exact Ho|apply observation_ok_mono].
  - intros st Hst. by apply state_ok_mono, Hs.
Qed.
End Monotone.

Section Parts.
Context (f : shell).

Lemma parts_observe o s : parts_ok f s -> observation_ok f o -> parts_ok f (observe o s).
Proof. intros [Hc Ht Ho Hs] ?. split; simpl; auto. apply Forall_app. auto. Qed.

Lemma parts_set_core k c s : parts_ok f s -> core_ok f c -> parts_ok f (set_core k c s).
Proof. intros [Hc Ht Ho Hs] ?. split; simpl; auto. by apply Forall_insert. Qed.

Lemma parts_spawn tx s :
  parts_ok f s -> core_ok f (mkCore BuildRuntime tx) -> parts_ok f (spawn_gloscope_core tx s).
Proof. intros [Hc Ht Ho Hs] ?. split; simpl; auto. apply Forall_app. auto. Qed.

Lemma parts_set_managed st s :
  parts_ok f s -> state_ok f st -> parts_ok f (set_managed (Some st) s).
Proof. intros [Hc Ht Ho Hs] ?. split; simpl; auto. congruence. Qed.

Lemma parts_set_task t p s :
  parts_ok f s -> (forall x, tasks s !! t = Some x -> task_ok f (mkTask (call x) p)) ->
  parts_ok f (set_task t p s).
Proof.
  intros [Hc Ht Ho Hs] Hp. split; simpl; auto. apply Forall_lookup. intros t' x Hx.
  destruct (set_task_lookup t p s t' x Hx) as ([cl pr] & Hy & Hcall & Hat).
  destruct x as [cl' pr']. simplify_eq/=. destruct Hat as [-> | [-> ->]].
  - by apply (Forall_lookup_1 _ _ _ _ Ht Hy).
  - apply (Hp _ Hy).
Qed.

Lemma parts_invoke c s :
  parts_ok f s ->
  parts_ok f (mkShell (managed s) (cores s) (tasks s ++ [mkTask c Called]) (trace s)).
Proof.
  intros [Hc Ht Ho Hs]. split; simpl; auto. apply Forall_app. split; [done|].
  constructor; [|done]. by destruct c.
Qed.
End Parts.

(** Reduce [parts_ok] to the new parts. *)
Ltac part_wise :=
  repeat first [assumption | apply parts_invoke | apply parts_observe | apply parts_set_core
    | apply parts_spawn | apply parts_set_managed | apply parts_set_task].

(** ** Steps *)

Section Steps.
Context (state_not_managed : str).
Abbreviation step := (step state_not_managed).
Abbreviation reachable := (reachable state_not_managed).

(** The waiting command of a thread is a [gloscope_start_session]. *)
Lemma waiting_command s n c t :
  shell_ok s -> cores s !! n = Some c -> ready_tx c = Some t ->
  exists y, tasks s !! t = Some y /\ call y = CallStartSession.
Proof.
  intros Hok Hn Ht. pose proof (Forall_lookup_1 _ _ _ _ (ok_cores _ _ Hok) Hn) as (Hc & _). auto.
Qed.

Lemma waiting_unfinished s n c t x :
  shell_ok s -> cores s !! n = Some c -> ready_tx c = Some t ->
  tasks s !! t = Some x -> finished x = false.
Proof.
  intros Hok Hn Ht Hx. destruct (waiting_command s n c t Hok Hn Ht) as (y & Hy & Hc).
  simplify_eq. unfold finished. by rewrite Hc.
Qed.

Lemma step_extends s l s' : shell_ok s -> step s l = Some s' -> extends s s'.
Proof.
  intros Hok Hs. step_cases l Hs;
    unfold report_failure, thread_panics, send_ready; cbn [ready_tx]; repeat case_goal.
  all: extend; simpl; intros; simplify_eq; try done.
  all: eapply waiting_unfinished; eauto.
Qed.

Section Preserved.
Context (s f : shell) (Hok : shell_ok s) (Hsf : extends s f) (Hp : parts_ok f s).

Lemma old_task t x : tasks s !! t = Some x -> task_ok f x.
Proof using Hp. apply (Forall_lookup_1 _ _ _ _ (ok_tasks _ _ Hp)). Qed.

Lemma old_core n c : cores s !! n = Some c -> core_ok f c.
Proof using Hp. apply (Forall_lookup_1 _ _ _ _ (ok_cores _ _ Hp)). Qed.

Lemma core_goto n pt tx p :
  cores s !! n = Some (mkCore pt tx) -> (is_live p = true -> is_Some (managed f)) ->
  (forall rid ps, p = InsertApproval rid ps -> received f rid) -> core_ok f (mkCore p tx).
Proof using Hp. intros (Ht & _)%old_core Hl Hr. by split. Qed.

(** A report other than success says nothing about the state. *)
Lemma report_ok n c t x r :
  cores s !! n = Some c -> ready_tx c = Some t -> tasks s !! t = Some x ->
  (r = Some (Ok tt) -> is_Some (managed f)) -> task_ok f (mkTask (call x) (Reported r)).
Proof using Hok.
  intros Hn Ht Hx Hr. destruct (waiting_command s n c t Hok Hn Ht) as (y & Hy & Hc).
  simplify_eq. rewrite Hc. unfold task_ok. destruct r as [[[]|e]|]; simpl; auto.
Qed.
End Preserved.

Lemma core_step_parts s n i c s' f :
  shell_ok s -> cores s !! n = Some c -> core_step n c i s = Some s' -> extends s f ->
  extends s' f -> parts_ok f s -> parts_ok f s'.
Proof.
  intros Hok Hn Hs Hsf Hf Hp.
  pose proof (old_core s f Hp n c Hn) as (_ & Hlive & Hins). pose proof (managed_mono _ _ Hf) as Hm.
  pose proof (managed_mono _ _ Hsf) as Hms.
  destruct c as [pt tx]. open_core pt Hs.
  all: unfold report_failure, thread_panics, send_ready in *; cbn [ready_tx] in *; repeat case_goal.
  all: part_wise; simpl; intros; simplify_eq/=; try done.
  all: pose proof (lookup_lt_Some _ _ _ Hn); pose proof (ext_cores _ _ Hsf); try lia.
  all: try (eapply report_ok; eauto; done).
  all: try (eapply core_goto; [done|done|simpl; eauto|naive_solver]; done).
  - by apply (ok_state _ _ Hp).
  - split; [simpl; lia|apply map_Forall_empty].
  - eapply core_goto; [done|done|by auto|]. intros rid' ps [= -> ->]. exists n.
    apply (ext_trace _ _ Hf). set_solver.
  - match goal with Hst : managed s = Some ?st |- _ =>
      destruct (ok_state _ _ Hp st Hst) as [Hh Hpend] end.
    split; [done|]. apply map_Forall_insert_2; [by eauto|done].
Qed.

Lemma state_ok_delete f st key :
  state_ok f st -> state_ok f (set_pending (delete key (pending_patch_approvals st)) st).
Proof. intros [Hh Hp]. split; [done|by apply map_Forall_delete]. Qed.

(** Taking a pending approval makes a task that will answer it. *)
Lemma resolve_ok f s st key accept rid :
  parts_ok f s -> managed s = Some st -> pending_patch_approvals st !! key = Some rid ->
  task_ok f (mkTask (CallRespond key accept) (ResolveRequest rid (response_of accept))).
Proof.
  intros Hp Hst Hk. destruct (ok_state _ _ Hp st Hst) as [_ Hpend].
  by destruct (Hpend _ _ Hk) as [<- Hr].
Qed.

Lemma task_step_parts s t x i s' f :
  shell_ok s -> tasks s !! t = Some x -> task_step state_not_managed t x i s = Some s' ->
  extends s f -> extends s' f -> parts_ok f s -> parts_ok f s'.
Proof.
  intros Hok Ht Hs Hsf Hf Hp.
  pose proof (old_task s f Hp t x Ht) as Hx. pose proof (managed_mono _ _ Hsf) as Hms.
  destruct x as [cl pr]. open_task Hs.
  all: part_wise; simpl; intros; simplify_eq/=; try done.
  - unfold task_ok. simpl. eauto.
  - split; [|by split]. intros ? [= <-].
    apply (ext_tasks _ _ Hsf) in Ht as (y & Hy & Hc & _). eauto.
  - by destruct (ok_state _ _ Hp a) as [Hh Hpend].
  - by apply state_ok_delete, (ok_state _ _ Hp).
  - by eapply (resolve_ok f s _ _ true).
  - by apply state_ok_delete, (ok_state _ _ Hp).
  - by eapply (resolve_ok f s _ _ false).
  - destruct Hx as (-> & -> & Hr). split; [by apply (ext_managed _ _ Hsf)|]. split; [done|].
    assert (Hd : tasks (set_task t (Done r)
        (observe (Resolved t (request_handle a) rid (response_of accept)) s)) !! t
      = Some (mkTask (CallRespond (request_id_to_string rid) accept) (Done r)))
      by (simpl; by rewrite list_lookup_alter_eq, Ht).
    apply (ext_tasks _ _ Hf) in Hd as (y & Hy & _ & Hfin).
    rewrite (Hfin eq_refl) in Hy. eauto.
Qed.

Lemma shell_ok_setup b : shell_ok (setup b).
Proof. destruct b; split; simpl; try constructor; try done; by repeat split. Qed.

Lemma reachable_ok s : reachable s -> shell_ok s.
Proof.
  induction 1 as [b|s l s' Hr Hok Hs]; [apply shell_ok_setup|].
  pose proof (step_extends s l s' Hok Hs) as Hext.
  pose proof (parts_ok_mono _ _ Hext Hok) as Hp. destruct l as [c|t i|n i]; simpl in Hs.
  - injection Hs as <-. by apply parts_invoke.
  - destruct (tasks s !! t) as [x|] eqn:Ht; [|done]. by eapply (task_step_parts s t x i).
  - destruct (cores s !! n) as [c|] eqn:Hn; [|done]. by eapply (core_step_parts s n i c).
Qed.

(** *** Each approval request in one place *)

Definition keyed (key : str) (rid : RequestId) : nat :=
  if bool_decide (request_id_to_string rid = key) then 1 else 0.

(** The approval requests of a key that were received, that a thread is about
    to register, that wait for the user, whose answer is being sent, and whose
    answer was sent. *)
Definition receptions (key : str) (s : shell) : nat :=
  sum_list_with (fun o => match o with Received _ rid => keyed key rid | _ => 0 end) (trace s).
Definition registering (key : str) (c : core) : nat :=
  match point c with InsertApproval rid _ => keyed key rid | _ => 0 end.
Definition waiting (key : str) (s : shell) : nat :=
  match managed s with
  | Some st => match pending_patch_approvals st !! key with Some _ => 1 | None => 0 end
  | None => 0
  end.
Definition answering (key : str) (x : task) : nat :=
  match call x, at_ x with
  | CallRespond _ _, ResolveRequest rid _ => keyed key rid
  | _, _ => 0
  end.
Definition answers (key : str) (s : shell) : nat :=
  sum_list_with (fun o => match o with Resolved _ _ rid _ => keyed key rid | _ => 0 end) (trace s).

Definition accounted (key : str) (s : shell) : nat :=
  sum_list_with (registering key) (cores s) + waiting key s
  + sum_list_with (answering key) (tasks s) + answers key s.

Definition balanced (key : str) (s : shell) : Prop :=
  accounted key s <= receptions key s /\
  (receptions key s <= 1 -> accounted key s = receptions key s).

Lemma answering_report key s n c t p :
  shell_ok s -> cores s !! n = Some c -> ready_tx c = Some t ->
  sum_list_with (answering key) (alter (fun x => mkTask (call x) p) t (tasks s))
  = sum_list_with (answering key) (tasks s).
Proof.
  intros Hok Hn Ht. apply sum_list_alter_same. intros x Hx.
  destruct (waiting_command s n c t Hok Hn Ht) as (y & Hy & Hc). simplify_eq.
  unfold answering. simpl. by rewrite Hc.
Qed.

Lemma core_step_balanced key s n i c s' :
  shell_ok s -> cores s !! n = Some c -> core_step n c i s = Some s' ->
  balanced key s -> balanced key s'.
Proof.
  intros Hok Hn Hs Hb. pose proof (Forall_lookup_1 _ _ _ _ (ok_cores _ _ Hok) Hn) as (_ & Hlive & _).
  pose proof (fun c' => sum_list_insert (registering key) _ _ _ c' Hn) as Hsum.
  destruct c as [pt tx]. open_core pt Hs.
  all: unfold balanced, accounted, receptions, answers, waiting,
    report_failure, thread_panics, send_ready in *; cbn [ready_tx] in *;
    destruct tx as [t|]; simpl in *.
  all: rewrite ?sum_list_with_app; try erewrite answering_report by eauto; simpl.
  all: try match goal with |- context [<[_ := ?c']> (cores _)] =>
         specialize (Hsum c'); unfold registering at 2 4 in Hsum; simpl in Hsum end.
  all: try match goal with Hm : managed _ = _ |- _ => rewrite Hm in *; clear Hm end.
  all: rewrite ?lookup_empty; try lia.
  all: try (destruct (Hlive eq_refl); done).
  all: clear Hlive; revert Hb Hsum; unfold keyed; case_bool_decide as Hk.
  all: rewrite ?lookup_insert_ne by done; try (subst key; rewrite lookup_insert_eq).
  all: intros; repeat case_match; lia.
Qed.

(** A taken approval is no longer waiting. *)
Lemma waiting_take (key : str) (p : gmap str RequestId) k rid :
  request_id_to_string rid = k -> p !! k = Some rid ->
  match delete k p !! key with Some _ => 1 | None => 0 end + keyed key rid
  = match p !! key with Some _ => 1 | None => 0 end.
Proof.
  intros <- Hk. unfold keyed. case_bool_decide as He.
  - by rewrite <-He, lookup_delete_eq, Hk.
  - rewrite lookup_delete_ne by done. lia.
Qed.

Lemma pending_key s st key rid :
  shell_ok s -> managed s = Some st -> pending_patch_approvals st !! key = Some rid ->
  request_id_to_string rid = key.
Proof. intros Hok Hst Hk. apply (proj2 (ok_state _ _ Hok st Hst) _ _ Hk). Qed.

Lemma task_step_balanced key s t x i s' :
  shell_ok s -> tasks s !! t = Some x -> task_step state_not_managed t x i s = Some s' ->
  balanced key s -> balanced key s'.
Proof.
  intros Hok Ht Hs Hb.
  pose proof (fun g => sum_list_alter (answering key) g _ _ _ Ht) as Hsum.
  destruct x as [cl pr]. open_task Hs.
  all: unfold balanced, accounted, receptions, answers, waiting in *; simpl in *.
  all: rewrite ?sum_list_with_app; simpl.
  all: match goal with |- context [alter ?g _ (tasks _)] =>
         specialize (Hsum g); unfold answering at 2 4 in Hsum; simpl in Hsum end.
  all: try match goal with Hm : managed _ = Some _, Hr : _ !! _ = Some _ |- _ =>
         pose proof (waiting_take key _ _ _ (pending_key _ _ _ _ Hok Hm Hr) Hr) end.
  all: try match goal with Hm : managed _ = _ |- _ => rewrite Hm in *; clear Hm end; lia.
Qed.

Lemma reachable_balanced key s : reachable s -> balanced key s.
Proof.
  induction 1 as [b|s l s' Hr Hb Hs]; [destruct b; by split|].
  pose proof (reachable_ok s Hr) as Hok. destruct l as [c|t i|n i]; simpl in Hs.
  - injection Hs as <-. unfold balanced, accounted, receptions, answers, waiting in *. simpl.
    rewrite sum_list_with_app. simpl.
    assert (answering key (mkTask c Called) = 0) as -> by (by destruct c). lia.
  - destruct (tasks s !! t) as [x|] eqn:Ht; [|done]. by eapply task_step_balanced.
  - destruct (cores s !! n) as [c|] eqn:Hn; [|done]. by eapply core_step_balanced.
Qed.

(** Every approval request the server sends is in one place at a time.  For
    each key, no more answers are sent than requests were received; and a
    request whose key is not used again is never lost: it is about to be
    registered, or waits for the user, or its answer is being sent or was
    sent, exactly one of them. *)
Theorem approvals_accounted key s :
  reachable s ->
  answers key s <= receptions key s /\
  (receptions key s = 1 ->
   sum_list_with (registering key) (cores s) + waiting key s
   + sum_list_with (answering key) (tasks s) + answers key s = 1).
Proof.
  intros [Hle Heq]%(reachable_balanced key). unfold accounted in *. split; [lia|].
  intros H1. rewrite Heq by lia. done.
Qed.

(** *** Answers are the user's *)

Definition answered_by (o : observation) : option nat :=
  match o with Resolved t _ _ _ => Some t | _ => None end.

Lemma reachable_answers_once s : reachable s -> NoDup (omap answered_by (trace s)).
Proof.
  induction 1 as [b|s l s' Hr IH Hs]; [destruct b; constructor|].
  pose proof (ok_trace _ _ (reachable_ok s Hr)) as Ho.
  step_cases l Hs;
    unfold report_failure, thread_panics, send_ready; cbn [ready_tx]; repeat case_goal; simpl.
  all: rewrite ?omap_app; simpl; rewrite ?app_nil_r; try done.
  apply NoDup_app. split; [done|]. split; [|apply NoDup_singleton].
  intros t (o & Hin & Ht)%list_elem_of_omap ->%list_elem_of_singleton.
  pose proof (proj1 (List.Forall_forall _ _) Ho o (proj1 (list_elem_of_In _ _) Hin)) as Hobs.
  destruct o; simplify_eq/=. destruct Hobs as (_ & _ & a' & r' & Hd & _). congruence.
Qed.

(** C37.  An answer the shell sends is the work of one command of the user: it was
    called with the key of the request, has run to its end, and the answer is
    the user's decision; distinct answers come from distinct calls.  The request
    had been received, and as long as one session was started the answer goes
    to the server that asked. *)
Theorem approval_answers_faithful s :
  reachable s ->
  NoDup (omap answered_by (trace s)) /\
  forall t sv rid value, Resolved t sv rid value ∈ trace s ->
    (exists accept r,
       tasks s !! t = Some (mkTask (CallRespond (request_id_to_string rid) accept) (Done r)) /\
       value = response_to_value (if accept then Accept else Decline)) /\
    exists sv', Received sv' rid ∈ trace s /\ (length (cores s) <= 1 -> sv' = sv).
Proof.
  intros Hr. split; [by apply reachable_answers_once|]. intros t sv rid value Hin.
  pose proof (reachable_ok s Hr) as Hok.
  pose proof (fun o Ho => proj1 (Forall_forall _ _) (ok_trace _ _ Hok) o Ho) as Hall.
  destruct (Hall _ Hin) as ((st & Hst & <-) & (sv' & Hrec) & accept & r & Ht & Hv).
  split; [by eauto|]. exists sv'. split; [done|]. intros H1.
  pose proof (Hall _ Hrec) as Hlt. destruct (ok_state _ _ Hok st Hst) as [Hh _]. simpl in Hlt. lia.
Qed.

(** A session that was reported started is usable: the shared state is there
    when [gloscope_start_session] has returned without an error, and when a
    thread handles events of its server. *)
Theorem start_session_usable s :
  reachable s ->
  (forall t, tasks s !! t = Some (mkTask CallStartSession (Done (Ok tt))) ->
     is_Some (managed s)) /\
  (forall n c, cores s !! n = Some c -> is_live (point c) = true -> is_Some (managed s)).
Proof.
  intros Hok%reachable_ok. split.
  - intros t Ht. apply (Forall_lookup_1 _ _ _ _ (ok_tasks _ _ Hok) Ht).
  - intros n c Hn. apply (Forall_lookup_1 _ _ _ _ (ok_cores _ _ Hok) Hn).
Qed.

(** *** Request ids *)

(** The ids drawn for messages: in tasks that are about to send, and sent. *)
Definition sending (x : task) : option RequestId :=
  match call x, at_ x with
  | CallSendMessage _, SendRequest id => Some id
  | _, _ => None
  end.
Definition turn_id (o : observation) : option RequestId :=
  match o with Requested _ id (TurnStart _ _) => Some id | _ => None end.
Definition drawn (s : shell) : list RequestId := omap sending (tasks s) ++ omap turn_id (trace s).

(** The id of the message drawn after [m] others. *)
Definition id_at (m : nat) : RequestId := RInteger (wrap_i64 (2 + Z.of_nat m)).

(** The ids of the requests a server was sent. *)
Definition request_to (sv : nat) (o : observation) : option RequestId :=
  match o with
  | Requested sv' id _ => if bool_decide (sv' = sv) then Some id else None
  | _ => None
  end.

Section OmapAlter.
Context {A B : Type} (f : A -> option B) (g : A -> A).

Lemma omap_alter_None (l : list A) t :
  (forall x, l !! t = Some x -> f x = None /\ f (g x) = None) -> omap f (alter g t l) = omap f l.
Proof.
  revert t. induction l as [|a l IH]; intros [|t] Hf; csimpl in *; [done|done| |].
  - by destruct (Hf a eq_refl) as [-> ->].
  - by rewrite IH.
Qed.

Lemma omap_alter_new (l : list A) t x v :
  l !! t = Some x -> f x = None -> f (g x) = Some v -> omap f (alter g t l) ≡ₚ v :: omap f l.
Proof.
  intros Ht Hx Hg. revert t Ht. induction l as [|a l IH]; intros [|t] Ht; csimpl in *; simplify_eq.
  - by rewrite Hx, Hg.
  - destruct (f a); rewrite (IH _ Ht); [apply Permutation_swap|done].
Qed.

Lemma omap_alter_gone (l : list A) t x v :
  l !! t = Some x -> f x = Some v -> f (g x) = None -> omap f l ≡ₚ v :: omap f (alter g t l).
Proof.
  intros Ht Hx Hg. revert t Ht. induction l as [|a l IH]; intros [|t] Ht; csimpl in *; simplify_eq.
  - by rewrite Hx, Hg.
  - destruct (f a); rewrite (IH _ Ht); [apply Permutation_swap|done].
Qed.
End OmapAlter.

Lemma sending_report s n c t p :
  shell_ok s -> cores s !! n = Some c -> ready_tx c = Some t ->
  omap sending (alter (fun x => mkTask (call x) p) t (tasks s)) = omap sending (tasks s).
Proof.
  intros Hok Hn Ht. apply omap_alter_None. intros x Hx.
  destruct (waiting_command s n c t Hok Hn Ht) as (y & Hy & Hc). simplify_eq.
  unfold sending. simpl. by rewrite Hc.
Qed.

(** A step either draws no id, or draws the next one. *)
Lemma step_drawn s l s' :
  shell_ok s -> step s l = Some s' ->
  drawn s' ≡ₚ drawn s /\
    (option_map next_request_id (managed s') = option_map next_request_id (managed s) \/
     managed s = None /\ exists n th tx seq st, cores s !! n = Some (mkCore (ManageState th seq) tx) /\
       managed s' = Some st /\ next_request_id st = seq) \/
  exists st st', managed s = Some st /\ managed s' = Some st' /\
    drawn s' ≡ₚ RInteger (next_request_id st) :: drawn s /\
    next_request_id st' = wrap_i64 (next_request_id st + 1).
Proof.
  intros Hok Hs. step_cases l Hs;
    unfold report_failure, thread_panics, send_ready; cbn [ready_tx]; repeat case_goal;
    unfold drawn; simpl.
  all: rewrite ?omap_app; simpl; rewrite ?app_nil_r; try (by left; auto).
  all: try (rewrite omap_alter_None by (intros ? ?; simplify_eq; done)).
  all: try (erewrite sending_report by eauto).
  all: repeat match goal with Hm : managed _ = _ |- _ => rewrite Hm in *; clear Hm end.
  all: try (by left; auto).
  - left. split; [destruct cl; simpl; by rewrite app_nil_r|by left].
  - right. do 2 eexists. split; [done|]. split; [done|]. split; [|done].
    by erewrite (omap_alter_new sending _ _ _ _ _ Hu) by done.
  - left. split; [|by left]. rewrite (omap_alter_gone sending (fun x => mkTask (call x) AwaitResponse)
      (tasks s) u _ _ Hu eq_refl eq_refl). simpl. rewrite app_assoc. apply Permutation_app_comm.
  - left. split; [done|]. right. eauto 10.
Qed.

(** Arithmetic of the counter. *)
Lemma id_at_succ m : wrap_i64 (wrap_i64 (2 + Z.of_nat m) + 1) = wrap_i64 (2 + Z.of_nat (S m)).
Proof. unfold wrap_i64. Z.to_euclidean_division_equations. lia. Qed.

Lemma id_at_inj i j :
  (Z.of_nat i < 2 ^ 64)%Z -> (Z.of_nat j < 2 ^ 64)%Z -> id_at i = id_at j -> i = j.
Proof.
  unfold id_at, wrap_i64. intros Hi Hj [= He]. Z.to_euclidean_division_equations. lia.
Qed.

Lemma id_at_not_1 i : (Z.of_nat i < 2 ^ 64 - 1)%Z -> id_at i <> RInteger 1.
Proof. unfold id_at, wrap_i64. intros Hi [= He]. Z.to_euclidean_division_equations. lia. Qed.

(** The threads before their first request. *)
Definition seq_ok (p : phase) : Prop :=
  match p with
  | StartThread _ seq => seq = 1%Z
  | AwaitThread seq | ManageState _ seq => seq = 2%Z
  | _ => True
  end.

Definition unsent (p : phase) : bool :=
  match p with
  | BuildRuntime | LoadConfig | ResolveHome _ | BuildConfig _ _ | StartServer _
  | StartThread _ _ => true
  | _ => false
  end.

(** No thread [n] exists, or it has sent nothing. *)
Definition not_started (s : shell) (n : nat) : Prop :=
  forall c, cores s !! n = Some c -> unsent (point c) = true.

Lemma set_core_lookup k c s n d :
  cores (set_core k c s) !! n = Some d -> cores s !! n = Some d \/ n = k /\ d = c.
Proof.
  simpl. intros [(-> & <- & _)|[_ Hd]]%list_lookup_insert_Some; auto.
Qed.

Lemma spawn_lookup tx s n d :
  cores (spawn_gloscope_core tx s) !! n = Some d ->
  cores s !! n = Some d \/ d = mkCore BuildRuntime tx.
Proof. simpl. intros [?|[_ [_ ?]%list_lookup_singleton_Some]]%lookup_app_Some; auto. Qed.

Ltac core_lookups :=
  repeat match goal with
  | H : cores (set_core _ _ _) !! _ = Some _ |- _ =>
      apply set_core_lookup in H as [H|[-> ->]]
  end.

Record requests_ok (s : shell) : Prop := {
  rq_seq n c : cores s !! n = Some c -> seq_ok (point c);
  rq_none n : not_started s n -> omap (request_to n) (trace s) = [] /\
    forall st, managed s = Some st -> request_handle st <> n;
  rq_first sv id m p c : Requested sv id (ThreadStart m p c) ∈ trace s -> id = RInteger 1;
  rq_drawn : drawn s ≡ₚ map id_at (seq 0 (length (drawn s)));
  rq_next st : managed s = Some st -> RInteger (next_request_id st) = id_at (length (drawn s));
  rq_idle : managed s = None -> drawn s = [];
}.

Lemma step_seq_ok s l s' :
  (forall n c, cores s !! n = Some c -> seq_ok (point c)) -> step s l = Some s' ->
  forall n c, cores s' !! n = Some c -> seq_ok (point c).
Proof.
  intros Hseq Hs n' c' Hc. step_cases l Hs;
    unfold report_failure, thread_panics, send_ready in *; cbn [ready_tx] in *;
    repeat case_match; core_lookups; simpl in *; eauto; try done.
  all: try (apply Hseq in Hn; simpl in Hn; subst; reflexivity).
  by apply spawn_lookup in Hc as [Hc| ->]; eauto.
Qed.

Lemma not_started_set_core s k c d m :
  cores s !! k = Some d -> (unsent (point c) = true -> unsent (point d) = true) ->
  not_started (set_core k c s) m -> not_started s m.
Proof.
  intros Hk Hcd Hns e He. destruct (decide (k = m)) as [<-|Hne].
  - simplify_eq. apply Hcd, Hns. simpl. apply list_lookup_insert_eq. by eapply lookup_lt_Some.
  - apply Hns. simpl. by rewrite list_lookup_insert_ne.
Qed.

Lemma step_not_started s l s' m : step s l = Some s' -> not_started s' m -> not_started s m.
Proof.
  intros Hs Hns. step_cases l Hs; try exact Hns;
    unfold report_failure, thread_panics, send_ready in *; cbn [ready_tx] in *; repeat case_match;
    try exact Hns; try by (eapply not_started_set_core in Hns; [exact Hns|exact Hn|]).
  intros c Hc. apply Hns. simpl. by apply lookup_app_l_Some.
Qed.

Lemma started_ne s s' n c d m :
  cores s !! n = Some c -> cores s' = <[n := d]> (cores s) -> unsent (point d) = false ->
  not_started s' m -> n <> m.
Proof.
  intros Hn He Hd Hns <-. assert (Hu : unsent (point d) = true); [|congruence].
  apply Hns. rewrite He. apply list_lookup_insert_eq. by eapply lookup_lt_Some.
Qed.

Lemma step_none s l s' m :
  (forall n, not_started s n -> omap (request_to n) (trace s) = [] /\
     forall st, managed s = Some st -> request_handle st <> n) ->
  step s l = Some s' -> not_started s' m ->
  omap (request_to m) (trace s') = [] /\
  forall st, managed s' = Some st -> request_handle st <> m.
Proof.
  intros Hnone Hs Hns. pose proof (step_not_started _ _ _ _ Hs Hns) as Hold.
  apply Hnone in Hold as [Ho Hh]. step_cases l Hs;
    unfold report_failure, thread_panics, send_ready in *; cbn [ready_tx] in *; repeat case_match;
    simpl; rewrite ?omap_app; simpl; rewrite ?Ho; simpl; auto.
  all: clear Hnone; try match goal with Hm : managed _ = _ |- _ => rewrite Hm in * end.
  all: try (split; [done|]; naive_solver).
  - rewrite bool_decide_false by (by apply Hh). auto.
  - rewrite bool_decide_false; [by auto|]. by eapply (started_ne s); [exact Hn| |..|exact Hns].
  - split; [done|]. intros st [= <-]. by eapply (started_ne s); [exact Hn| |..|exact Hns].
Qed.

Lemma step_first s l s' :
  (forall n c, cores s !! n = Some c -> seq_ok (point c)) ->
  (forall sv id m p c, Requested sv id (ThreadStart m p c) ∈ trace s -> id = RInteger 1) ->
  step s l = Some s' ->
  forall sv id m p c, Requested sv id (ThreadStart m p c) ∈ trace s' -> id = RInteger 1.
Proof.
  intros Hseq Hold Hs sv id m p c. step_cases l Hs;
    unfold report_failure, thread_panics, send_ready; cbn [ready_tx]; repeat case_match; simpl.
  all: rewrite ?elem_of_app, ?list_elem_of_singleton; try naive_solver.
Qed.

Lemma requests_ok_setup b : requests_ok (setup b).
Proof.
  destruct b; split; try done.
  - intros [|n] c Hc; by simplify_eq/=.
  - intros *. by intros ?%elem_of_nil.
  - intros *. by intros ?%elem_of_nil.
Qed.

Lemma requests_ok_step s l s' :
  shell_ok s -> requests_ok s -> step s l = Some s' -> requests_ok s'.
Proof.
  intros Hok [Hseq Hnone Hfirst Hdrawn Hnext Hidle] Hs. split.
  - by eapply step_seq_ok.
  - intros n. by eapply step_none.
  - by eapply step_first.
  - destruct (step_drawn s l s' Hok Hs) as [[-> _]|(st & st' & Hst & _ & -> & _)]; [done|].
    simpl length. rewrite seq_S, map_app. simpl. rewrite <-(Hnext st Hst).
    rewrite <-Hdrawn. apply Permutation_cons_append.
  - intros st' Hst'.
    destruct (step_drawn s l s' Hok Hs) as [[-> [He|(Hm & n & th & tx & sq & st & Hn & Hst & <-)]]|
      (st & st2 & Hst & Hst2 & -> & He)]; simplify_eq/=.
    + rewrite Hst' in He. simpl in He. destruct (managed s) as [st|] eqn:Hst; simplify_eq/=.
      rewrite He. by apply Hnext.
    + rewrite Hidle by done. apply Hseq in Hn. simpl in Hn. by rewrite Hn.
    + rewrite He. apply Hnext in Hst. injection Hst as ->. unfold id_at. f_equal. apply id_at_succ.
  - intros Hm. destruct (step_drawn s l s' Hok Hs)
      as [[Hd [He|(_ & n & th & tx & sq & st & _ & Hst & _)]]|(st & st' & _ & Hst & _)]; try congruence.
    rewrite Hm in He. destruct (managed s) as [|] eqn:Hs0; [done|].
    rewrite Hidle in Hd by done. by apply Permutation_nil_r in Hd.
Qed.

Lemma reachable_requests s : reachable s -> requests_ok s.
Proof.
  induction 1 as [b|s l s' Hr IH Hs]; [apply requests_ok_setup|].
  by eapply requests_ok_step; [apply reachable_ok| |].
Qed.

Lemma drawn_id s id : requests_ok s -> id ∈ drawn s -> exists i, i < length (drawn s) /\ id = id_at i.
Proof.
  intros Hrq Hid. rewrite (rq_drawn s Hrq), list_elem_of_In, in_map_iff in Hid.
  destruct Hid as (i & <- & Hi%in_seq). exists i. split; [lia|done].
Qed.

Lemma drawn_NoDup s :
  requests_ok s -> (Z.of_nat (length (drawn s)) < 2 ^ 64)%Z -> NoDup (drawn s).
Proof.
  intros Hrq Hlen. rewrite (rq_drawn s Hrq). apply NoDup_ListNoDup, NoDup_map_NoDup_ForallPairs.
  - intros i j Hi%in_seq Hj%in_seq. apply id_at_inj; lia.
  - apply seq_NoDup.
Qed.

Lemma request_to_cases sv id (tr : list observation) :
  id ∈ omap (request_to sv) tr ->
  id ∈ omap turn_id tr \/ exists m p c, Requested sv id (ThreadStart m p c) ∈ tr.
Proof.
  intros (o & Ho & Hid)%list_elem_of_omap. destruct o as [| | | |sv' id' [m p c|th m]| | |]; try done.
  all: simpl in Hid; case_bool_decide; simplify_eq.
  - right. eauto.
  - left. apply list_elem_of_omap. eauto.
Qed.

Lemma drawn_mono s l s' : shell_ok s -> step s l = Some s' -> length (drawn s) <= length (drawn s').
Proof.
  intros Hok Hs. destruct (step_drawn s l s' Hok Hs) as [[-> _]|(? & ? & _ & _ & -> & _)]; simpl; lia.
Qed.

(** Sending a message uses an id that is in no request yet. *)
Lemma fresh_turn_id s u m id sv :
  requests_ok s -> (Z.of_nat (length (drawn s)) < 2 ^ 64 - 1)%Z ->
  tasks s !! u = Some (mkTask (CallSendMessage m) (SendRequest id)) ->
  id ∉ omap (request_to sv) (trace s).
Proof.
  intros Hrq Hlen Hu Hin. pose proof (drawn_NoDup s Hrq ltac:(lia)) as Hnd.
  assert (Hsend : id ∈ omap sending (tasks s)).
  { apply list_elem_of_omap. eexists. split; [by eapply list_elem_of_lookup_2|done]. }
  unfold drawn in Hnd. apply NoDup_app in Hnd as (_ & Hdis & _).
  destruct (request_to_cases sv id _ Hin) as [Ht|(m' & p & c & Ht)]; [by apply (Hdis id)|].
  apply (rq_first s Hrq) in Ht as ->.
  destruct (drawn_id s (RInteger 1) Hrq) as (i & Hi & He); [apply elem_of_app; by left|].
  symmetry in He. revert He. apply id_at_not_1. lia.
Qed.

(** No server gets two requests with the same id, the start of its thread and
    the messages of the user taken together, until the counter has gone around:
    fewer than [2^64 - 1] ids have been drawn. *)
Theorem request_ids_unique s sv :
  reachable s -> (Z.of_nat (length (drawn s)) < 2 ^ 64 - 1)%Z ->
  NoDup (omap (request_to sv) (trace s)).
Proof.
  induction 1 as [b|s l s' Hr IH Hs]; intros Hlen; [destruct b; constructor|].
  pose proof (reachable_ok s Hr) as Hok. pose proof (reachable_requests s Hr) as Hrq.
  pose proof (drawn_mono s l s' Hok Hs). specialize (IH ltac:(lia)).
  assert (Hlen' : (Z.of_nat (length (drawn s)) < 2 ^ 64 - 1)%Z) by lia. clear Hlen.
  step_cases l Hs;
    unfold report_failure, thread_panics, send_ready; cbn [ready_tx]; repeat case_match; simpl.
  all: rewrite ?omap_app; simpl; rewrite ?app_nil_r; try exact IH.
  all: case_bool_decide as Hsv; [|by rewrite app_nil_r].
  - apply NoDup_app. split; [done|]. split; [|apply NoDup_singleton].
    intros id' Hid' ->%list_elem_of_singleton. by eapply fresh_turn_id.
  - subst sv. destruct (rq_none s Hrq n) as [-> _]; [|apply NoDup_singleton].
    intros c Hc. by simplify_eq.
Qed.

(** *** Answering *)

(** A user's answer to a pending approval: the request leaves the pending ones
    at once and its server gets the decision, whatever the outcome of sending it
    the command returns it.  An answer to a key that is not pending is refused
    and changes nothing else. *)
Theorem respond_to_patch_approval_correct s st key accept t outcome :
  managed s = Some st ->
  tasks s !! t = Some (mkTask (CallRespond key accept) Called) ->
  match pending_patch_approvals st !! key with
  | Some rid =>
      exists s1, step s (OnTask t Continue) = Some s1 /\
      option_map pending_patch_approvals (managed s1)
        = Some (delete key (pending_patch_approvals st)) /\
      exists s2, step s1 (OnTask t (ResolveOutcome outcome)) = Some s2 /\
      trace s2 = trace s ++ [Resolved t (request_handle st) rid (response_of accept)] /\
      managed s2 = managed s1 /\ cores s2 = cores s /\
      tasks s2 = <[t := mkTask (CallRespond key accept) (Done outcome)]> (tasks s)
  | None =>
      step s (OnTask t Continue) = Some (set_task t
        (Done (Err (lit "no pending patch approval for request " ++ key))) s)
  end.
Proof.
  intros Hst Ht. unfold AppShell.step. rewrite Ht. unfold task_step, respond_to_patch_approval.
  cbn [call at_].
  rewrite Hst. destruct (pending_patch_approvals st !! key) as [rid|] eqn:Hk; [|done].
  eexists. split; [done|]. split; [done|]. cbn [tasks set_task set_managed].
  rewrite list_lookup_alter_eq, Ht. cbn. eexists. split; [done|]. cbn.
  repeat split. by rewrite (alter_alter _ _ _ _ _ Ht).
Qed.

Lemma run_labels_reachable ls s s' :
  reachable s -> run_labels state_not_managed s ls = Some s' -> reachable s'.
Proof.
  revert s. induction ls as [|l ls IH]; simpl; intros s Hr Hls; [congruence|].
  case_hyp Hls. eapply IH; [|exact Hls]. by eapply reach_step.
Qed.
End Steps.

(** ** The wizard leads to a session *)

(** Writing files and secrets leaves the process environment alone, a stored
    secret is there, and storing it leaves other files alone. *)
Class WizardHost (W : Type) `{Host W, SecretStore W} : Prop := {
  fs_write_home w p c : forall w' r, fs_write w p c = (w', r) -> gloscope_home w' = gloscope_home w;
  create_dir_home w p : forall w' r, create_dir_all w p = (w', r) -> gloscope_home w' = gloscope_home w;
  secret_set_home w h n v : forall w' r, secret_set w h n v = (w', r) ->
    gloscope_home w' = gloscope_home w;
  secret_set_get w h n v : forall w', secret_set w h n v = (w', Ok tt) ->
    secret_get w' h n = Ok (Some v);
  secret_set_files w h n v : forall w' r, secret_set w h n v = (w', r) ->
    read_to_string w' (settings_path h) = read_to_string w (settings_path h) /\
    path_is_file w' (settings_path h) = path_is_file w (settings_path h);
}.

Section WizardFacts.
Context {W : Type} `{Host W, SettingsToml, SecretStore W}.
Context {Files : HostFiles W} {Toml : SettingsTomlLaws} {Wiz : WizardHost W}.

Lemma save_settings_home home settings (w w' : W) r :
  save_settings home settings w = (w', r) -> gloscope_home w' = gloscope_home w.
Proof using Wiz.
  unfold save_settings, throw. do 2 (case_goal; [naive_solver|]). unfold bind, map_err_act, of_result.
  destruct (create_dir_all w home) as [w0 r0] eqn:Ec. apply create_dir_home in Ec. intros Hs.
  repeat case_hyp Hs; simplify_eq; try done.
  all: match goal with Hw : fs_write _ _ _ = _ |- _ => apply fs_write_home in Hw end; congruence.
Qed.

(** Completing the wizard is enough to start: after the settings and a key that
    is not empty were saved without an error, and if both timeouts are
    durations, GloScope reports itself configured, the key is reported stored,
    and the form is filled with the settings that were saved. *)
Theorem wizard_completes settings key (w w1 w2 : W) t1 t2 :
  gloscope_save_settings settings w = (w1, Ok tt) ->
  gloscope_save_api_key key w1 = (w2, Ok tt) -> key <> [] ->
  from_secs_f64 (s_triage_timeout_secs settings) = Some t1 ->
  from_secs_f64 (s_verify_timeout_secs settings) = Some t2 ->
  gloscope_is_configured w2 = Some true /\ gloscope_has_api_key w2 = Ok true /\
  gloscope_load_settings w2 = Ok settings.
Proof using Files Toml Wiz.
  unfold gloscope_save_settings, gloscope_save_api_key, save_api_key, map_err_act.
  intros Hs Hk Hne Ht1 Ht2.
  destruct (save_settings _ _ _) as [w1' [[]|e]] eqn:Es; simplify_eq/=.
  destruct (secret_set _ _ _ _) as [w2' [[]|e]] eqn:Ek; simplify_eq/=.
  pose proof (save_settings_home _ _ _ _ _ Es) as Hh1. pose proof (secret_set_home _ _ _ _ _ _ Ek) as Hh2.
  pose proof (secret_set_get _ _ _ _ _ Ek) as Hget.
  destruct (secret_set_files _ _ _ _ _ _ Ek) as [Hr Hf].
  destruct (save_settings_load _ _ _ _ Es) as (_ & _ & _ & Hl).
  assert (Hl2 : load_settings w2 (gloscope_home w2) = Ok settings).
  { revert Hl. unfold load_settings. by rewrite Hh2, Hr, Hf, Hh1. }
  unfold gloscope_is_configured, load_config, load_config_with, gloscope_has_api_key,
    gloscope_load_settings, load_api_key. rewrite Hl2, Hh2, Hget. simpl.
  destruct key; [done|]. simpl. by rewrite Ht1, Ht2.
Qed.
End WizardFacts.

(** ** Runs *)

Module ShellDemo.
Definition cfg : GloscopeConfig :=
  mkConfig (lit "https://api.example.com") (lit "k") (lit "small") (lit "large") (lit "responses")
    (from_secs 60) (from_secs 600).

(** Thread [k] from its start to its event loop. *)
Definition boot (k : nat) : list label :=
  [OnCore k (InRuntime true); OnCore k (InConfig (Some (Ok cfg)));
   OnCore k (InHome (Some (lit "/home/u")) (Ok tt));
   OnCore k (InBuild (Ok tt) (Ok (mkCoreConfig (Some (lit "large")) PROVIDER_ID (lit "/w"))));
   OnCore k (InServer (Ok tt)); OnCore k Internal; OnCore k (InThread (Ok (lit "t1")));
   OnCore k Internal; OnCore k Internal].

(** Thread [k] gets an approval request and shows it. *)
Definition ask_approval (k : nat) (rid : RequestId) : list label :=
  [OnCore k (InEvent (Some (FileChangeRequestApproval rid (Some (JObj [])))));
   OnCore k Internal; OnCore k Internal].

(** The next command, number [t], answers. *)
Definition answer_approval (t : nat) (key : str) (accept : bool) : list label :=
  [Invoke (CallRespond key accept); OnTask t Continue; OnTask t (ResolveOutcome (Ok tt))].

(** The first run, a message and an answered approval. *)
Definition session : list label :=
  [Invoke CallStartSession; OnTask 0 (Spawned true)] ++ boot 0 ++ [OnTask 0 Continue]
  ++ [Invoke (CallSendMessage (lit "hi")); OnTask 1 Continue; OnTask 1 Continue;
      OnTask 1 (Response (Ok (Ok tt)))]
  ++ ask_approval 0 (RInteger 7) ++ answer_approval 2 (lit "7") true.

Definition asked : list label := boot 0 ++ ask_approval 0 (RInteger 7) ++ [Invoke (CallRespond (lit "7") true)].

Definition run_from (configured : bool) (ls : list label) : shell :=
  default (setup configured) (run_labels (lit "state not managed") (setup configured) ls).

Definition session_end : shell := run_from false session.
Definition asked_end : shell := run_from true asked.

Lemma session_reachable : reachable (lit "state not managed") session_end.
Proof.
  eapply run_labels_reachable; [apply (reach_setup _ false)|].
  instantiate (1 := session). vm_compute. reflexivity.
Qed.
End ShellDemo.
Import ShellDemo.

(** A wizard on the host in memory, with the secrets in files of their own. *)
Module WizardDemo.
Import SpecFloat.

#[export] Instance good_toml : SettingsToml := {|
  settings_from_toml t :=
    if bool_decide (t = lit "good") then Ok ConfigDemo.good_settings
    else Err (lit "expected a table");
  settings_to_toml s :=
    match s_triage_timeout_secs s, s_verify_timeout_secs s with
    | S754_finite false 8444249301319680 (-47), S754_finite false 5277655813324800 (-43) =>
        if bool_decide (s_base_url s = s_base_url ConfigDemo.good_settings /\
             s_triage_model s = s_triage_model ConfigDemo.good_settings /\
             s_verify_model s = s_verify_model ConfigDemo.good_settings /\
             s_wire_api s = s_wire_api ConfigDemo.good_settings)
        then Ok (lit "good") else Err (lit "unsupported")
    | _, _ => Err (lit "unsupported")
    end;
|}.

#[export] Instance good_toml_laws : SettingsTomlLaws.
Proof.
  split. intros [bu tm vm wa tt_ vt] t. simpl. intros Hs.
  repeat case_hyp Hs. boolify. simplify_eq.
  match goal with Hc : _ /\ _ |- _ => destruct Hc as (-> & -> & -> & ->) end. reflexivity.
Qed.

Definition secret_path (home name : str) : str := home ++ lit "!" ++ name.

#[export] Instance file_secrets : SecretStore mem_host := {|
  secret_get w h n := Ok (assoc (secret_path h n) (mem_files w));
  secret_set w h n v := (mem_write w [(secret_path h n, v)], Ok tt);
|}.

Lemma secret_path_other h n : settings_path h <> secret_path h n.
Proof.
  unfold settings_path, secret_path, std_path_join. simpl.
  destruct h as [|c h]; simpl; [done|].
  destruct (ends_with _ _); intros [= He]; by apply app_inv_head in He.
Qed.

#[export] Instance wizard_host : WizardHost mem_host.
Proof.
  split; simpl; intros; simplify_eq; try done; simpl; [by rewrite bool_decide_true|].
  by rewrite bool_decide_false by apply secret_path_other.
Qed.

Definition saved : mem_host :=
  (gloscope_save_settings ConfigDemo.good_settings ConfigDemo.empty_host).1.
Definition keyed_host : mem_host := (gloscope_save_api_key (lit "k") saved).1.
#[export] Existing Instance ConfigDemo.mem_host_files.
End WizardDemo.
Import WizardDemo.

Lemma wizard_completes_witness : gloscope_is_configured keyed_host = Some true.
Proof.
  apply (wizard_completes ConfigDemo.good_settings (lit "k") ConfigDemo.empty_host saved
    keyed_host (from_secs 60) (from_secs 600));
    [vm_compute; reflexivity|vm_compute; reflexivity|discriminate
    |vm_compute; reflexivity|vm_compute; reflexivity].
Defined.

Lemma approvals_accounted_witness :
  receptions (lit "7") session_end = 1 /\ answers (lit "7") session_end = 1.
Proof.
  split; [vm_compute; reflexivity|].
  destruct (approvals_accounted (lit "state not managed") (lit "7") session_end session_reachable)
    as [_ Hone].
  pose proof (Hone ltac:(vm_compute; reflexivity)) as Hsum. vm_compute in Hsum |- *. exact Hsum.
Defined.

Lemma approval_answers_faithful_witness :
  Resolved 2 0 (RInteger 7) (response_to_value Accept) ∈ trace session_end /\
  exists sv, Received sv (RInteger 7) ∈ trace session_end /\ sv = 0.
Proof.
  assert (Hin : Resolved 2 0 (RInteger 7) (response_to_value Accept) ∈ trace session_end).
  { apply (list_elem_of_lookup_2 _ 6). vm_compute. reflexivity. }
  split; [exact Hin|].
  destruct (approval_answers_faithful (lit "state not managed") session_end session_reachable)
    as [_ Hall].
  destruct (Hall 2 0 (RInteger 7) _ Hin) as (_ & sv & Hr & Hone).
  exists sv. split; [exact Hr|]. apply Hone. vm_compute. lia.
Defined.

Lemma start_session_usable_witness : is_Some (managed session_end).
Proof.
  apply (proj1 (start_session_usable (lit "state not managed") session_end session_reachable) 0).
  vm_compute. reflexivity.
Defined.

Lemma request_ids_unique_witness :
  omap (request_to 0) (trace session_end) = [RInteger 1; RInteger 2] /\
  NoDup (omap (request_to 0) (trace session_end)).
Proof.
  split; [vm_compute; reflexivity|].
  apply (request_ids_unique (lit "state not managed") session_end 0 session_reachable).
  vm_compute. reflexivity.
Defined.

Lemma respond_to_patch_approval_correct_witness :
  exists s1, step (lit "state not managed") asked_end (OnTask 0 Continue) = Some s1.
Proof.
  pose proof (respond_to_patch_approval_correct (lit "state not managed") asked_end
    (default (mkAppState 0 0 [] ∅) (managed asked_end)) (lit "7") true 0 (Ok tt)
    ltac:(vm_compute; reflexivity) ltac:(vm_compute; reflexivity)) as Hr.
  assert (Hp : pending_patch_approvals (default (mkAppState 0 0 [] ∅) (managed asked_end))
    !! lit "7" = Some (RInteger 7)) by (vm_compute; reflexivity).
  rewrite Hp in Hr. destruct Hr as (s1 & Hs1 & _). exists s1. exact Hs1.
Defined.

(** A second session can start while the first has not stored its state.  The
    approval its server asks for is then kept in the state of the first, and the
    user's answer goes to the first server, which did not ask. *)
Theorem second_session_misroutes :
  exists ls s, run_labels (lit "state not managed") (setup true) ls = Some s /\
    length (cores s) = 2 /\
    (forall sv, Received sv (RInteger 7) ∈ trace s -> sv = 1) /\
    Resolved 1 0 (RInteger 7) (response_to_value Accept) ∈ trace s.
Proof.
  exists ([Invoke CallStartSession; OnTask 0 (Spawned true)] ++ boot 0 ++ boot 1
          ++ ask_approval 1 (RInteger 7) ++ answer_approval 1 (lit "7") true).
  eexists. split; [vm_compute; reflexivity|]. split; [reflexivity|]. split.
  - intros sv Hin. rewrite list_elem_of_In in Hin. simpl in Hin. naive_solver.
  - apply list_elem_of_In. simpl. naive_solver.
Qed.
